(* ===== verification/_CoqProject ===== *)
-Q . S2P
Prelude.v
GoStrings.v
GoSlices.v
GoRegexp.v
DebVersion.v
RpmVersion.v
ApkVersion.v
PypiVersion.v
RawVersion.v
BuildVersion.v
Model.v
Formats.v
Source.v
Lock.v
LockInvariant.v
LockOps.v
Prune.v
LockHistory.v
JsonStrict.v
Ledger.v
LedgerProofs.v
PlanJson.v
LockShard.v
LockShardProofs.v
Forge.v
Gate.v
GateProofs.v
Manifest.v
ManifestOps.v
ManifestProofs.v
Host.v
Deployment.v
DeploymentProofs.v
Signing.v
Plan.v
Rotation.v
RotationProofs.v
RotationCommands.v
PlanProofs.v
Prepare.v
PrepareProofs.v
Apply.v
ApplyProofs.v
S3Store.v
S3Keys.v
S3.v
S3KeyProofs.v
S3Proofs.v
S3Examples.v
Rsync.v
RsyncPaths.v
RsyncProofs.v
RsyncExamples.v
Rollback.v
FileSystem.v
VerifyTree.v
Materialize.v
PublishLogic.v
MaterializeProofs.v
LocalHostProofs.v
Placements.v
Rollout.v
Collect.v
CollectProofs.v
PagesGit.v
PagesLogic.v
Pages.v
PagesProofs.v
PagesMessages.v
PagesExamples.v
BlobCache.v
BlobCacheProofs.v
BlobImportProofs.v
GitText.v
GitState.v
GitStateProofs.v
GitLedgerProofs.v
GitPlanProofs.v
Adopt.v
AdoptProofs.v
