(* ===== verification/Prelude.v ===== *)
(** Snailmail publishes package repositories (Debian, RPM, Alpine, PyPI, Helm, raw
    files) from a Git workspace to dumb hosts: a directory, a server reached by
    rsync, an S3 bucket, GitHub Pages.  The workspace declares repositories in a
    manifest and pins every artifact in a lock; [plan] records what would change and
    against which published revision, [apply] rebuilds, verifies, authorizes and
    publishes it, and leaves receipts and an append-only ledger in Git.  This
    library models that core and proves it correct.  Paths below are under [src/].

    * Parts, files and theorems

    Foundations.  [Prelude]: errors as values ([result]), [refuse _ when _] for the
    guards of Go code, the hint databases and generic lemmas.  [GoStrings],
    [GoSlices], [GoRegexp]: the parts of Go's standard library the code
    uses, with their specifications (sorting as the unique sorted permutation, the
    regular-expression engine against the language of a pattern).

    Version ordering ([formats/*/version.go]): [DebVersion], [RpmVersion],
    [ApkVersion], [PypiVersion], [RawVersion].  The Debian,
    RPM and Alpine comparators are shown equal to a reference order on keys or tokens,
    Alpine's while components fit an [int64], and all of them to be total preorders; the
    loops of Debian and RPM run on fuel, the length of the strings, which is shown to be
    enough.  [BuildVersion] is [internal/version].

    The lock ([internal/state/store.go], [prune.go], [lockshard.go], [locksize.go]):
    [Model], [Lock], [LockShard] with [LockInvariant], [LockOps], [Prune],
    [LockHistory], [LockShardProofs].  An operation returns the lock it
    leaves and its result.  [lock_wf] is what a valid lock is; validation decides it,
    every operation keeps it, so every reachable lock has it; bytes once bound to a
    coordinate never change; pruning keeps the newest; storing and loading, whole
    or sharded, is a round trip, and the Merkle root fixes the packages, unless the very
    texts at hand collide.

    JSON, plans, the ledger: [JsonStrict] ([internal/jsonstrict]), [PlanJson]
    ([internal/state/plan.go]), [Ledger] and [LedgerProofs] ([ledger.go]).  Decoding
    refuses duplicate keys; the canonical writer is exact, so a plan's identifier
    binds its payload; the ledger only grows along a history, its update is
    idempotent, and it keeps the bindings it has published.

    Authority: [Forge] and [Gate] with [GateProofs] ([forge], [gate/gate.go]): a gate
    opens exactly on a signature for this plan and repository, which approves no other, or
    on a merged pull request.  [Source] ([source/source.go]): which addresses may be fetched.

    The manifest ([store.go]): [Manifest], [ManifestOps], [ManifestProofs].  Setup
    extends the manifest by one repository and keeps the others, paths stay in the
    workspace, written manifests load back.

    Receipts and signing ([deployment.go], [engine/signing.go],
    [engine/signing_recipe.go], [engine/rotation.go], [formats/signing.go]):
    [Deployment], [DeploymentProofs], [Signing], [Rotation], [RotationProofs],
    [RotationCommands].  Receipts are committed all or not at all, up to
    restorations that fail and are reported; through any sequence of applies whose refresh
    times fit a duration a client that refreshes within the declared window trusts the key
    in use.

    Plan and apply ([engine/workspace.go]): [Plan], [PlanProofs], [Prepare],
    [PrepareProofs], [Apply], [ApplyProofs].  [Prepare] takes what it reads as the
    record [Reads].  [Apply] is a program that asks an [Oracle], which answers
    knowing the requests made before ([History]); a theorem about every oracle is
    one about every interleaving of answers and failures.  Nothing is published
    before everything is staged, verified, recorded and authorized; publishing one
    repository refines an abstract publication with compensation; receipts follow a
    plan published in full; an apply whose requests are answered succeeds; applying a plan
    that changes the tree again finds its own work.

    The S3 host ([host], [adapters/host/s3]): [Host], [S3Store], [S3Keys], [S3],
    [S3KeyProofs], [S3Proofs], [S3Examples], [Collect], [CollectProofs].  A
    computation of the adapter is a function of a [World]: a bucket others change
    between its requests, and requests that are lost or not acknowledged
    ([Outside]).  A commit and a restore write the live root at most once and only
    over the revision they expect, and a restore removes it only where its descriptor says
    that there was none; a collection never removes what is served or can
    be restored, and a successful one removes exactly the rest.

    The rsync host ([adapters/host/rsync]): [Rsync], [RsyncPaths], [RsyncProofs],
    [RsyncExamples].  An operation is a program of remote commands ([prog]); several
    are interleaved over one far side ([step]), which is a class with the laws its
    commands are documented to have, where no directory they go through is a symbolic
    link ([RemoteLaws]).  By a rely-guarantee argument on the lock directory the published
    path changes only as a compare-and-swap; a collection spares what is served or kept; a
    remote shell reads back the arguments it was given.

    The local host ([adapters/host/local], [internal/app/materialize.go],
    [commit.go], [internal/buildgraph/finalize.go] and the tree check of
    [internal/app/verify.go]): [FileSystem], [VerifyTree], [Materialize], [PublishLogic],
    [MaterializeProofs], [LocalHostProofs].  A computation is a
    sequence of file system calls on a [Machine] that may refuse any of them and on
    which others work; it keeps every state of the [Disk] it went through, and of
    each what would survive a loss of power.  By a Hoare logic over all these states,
    every reader finds at every moment what was served before or the complete staged
    tree.

    The GitHub Pages host ([adapters/host/githubpages]): [PagesGit], [PagesLogic],
    [Pages], [PagesProofs], [PagesMessages], [PagesExamples].  A computation is a
    function of a [GitWorld]: remotes others push to, commands that are lost or not
    acknowledged, workspaces in which only fetched commits are found, and the disk
    they are checked out on.  A commit moves the branch at most once, from the
    expected commit to the staged one, with the descriptor to undo it in place; a
    restore goes back to exactly what was replaced; what commits bind is read back.

    The blob cache ([internal/state/cas.go], [internal/factscache],
    [engine/origin_restore.go], [engine/locked_blobs.go]): [BlobCache],
    [BlobCacheProofs], [BlobImportProofs].  The same file system
    calls, threaded with the facts and roots a process remembers ([Cas]).  By a
    rely-guarantee logic over every state gone through, an object in a cache hashes
    to its name or was there before; what is loaded is what the lock records; what
    was imported is there.

    The workspace in Git ([internal/state/git.go], [git_layout_cache.go]): [GitText],
    [GitState], [GitStateProofs], [GitLedgerProofs], [GitPlanProofs].  A program of git commands, with the arguments the code gives, and
    of calls on files; all answers are an oracle's ([GitOracle]), and what is used of
    Git are laws about them ([GitLaws]).  Committing ledgers is one compare-and-swap of
    the branch, under the lock of the index, with the index put in place before it and both
    put back on failure or the failure to do so reported; a plan is accepted only on its own
    history; locks are taken all or not at all; what Git prints is read back exactly.  The
    laws leave to [git diff] what its search for renames may leave out.

    Bringing artifacts in ([AddArtifacts] of [engine/workspace.go], [engine/adopt.go],
    [adoptsession.go], [import.go] and the checks of addresses in [doctor.go]): [Adopt],
    [AdoptProofs].  Computations of the blob cache that thread the files of the lock and,
    where artifacts are adopted, a session that outlives the adoptions of one import.
    What is added is in the cache before the lock names it; what is adopted has the pinned
    digest; an import accounts for every file listed and gives each the provenance its
    index earns; and a run shows what a refused file leaves behind in a session.

    Commands of the engine: [Rollback] ([engine/rollback.go]) over the port of a
    host, on S3 as conditional as a restore; [Placements] ([placements.go],
    [prune.go]), which store only valid locks that keep every binding; [Rollout]
    ([rollout.go]), equal to grouping the ledger by version.

    * Choices and bounds

    Machine integers are [Z], with the wrap-around of [int64] written out where the
    code multiplies durations ([Rotation]) and with the parse failure above 64 bits
    where versions are numbers.  The scan of JSON tokens runs on fuel, twice the
    number of tokens and one, which is shown to be enough.  Rune loops are byte
    loops where only ASCII is tested, and case mapping is ASCII.  Loops that run
    several requests at a time ([forEachObject], [loadLockedBlobs]) are run in order; what is
    shown of loading is shown of one artifact, among others that work at the same time.  An error is the
    text of its message without the arguments, except where the kind of an error is
    inspected ([S3Error]).

    Libraries are parameters, type classes whose laws are assumed only by the
    theorems that name them: hashing, JSON, TOML, URL and time parsing, Ed25519,
    base64, semantic versions.

    * Not modelled

    The command line ([cmd]); the forge, credential, blob and source clients;
    signers; the structure checks of the formats, container verification and its scheduling
    ([internal/app]), whose verdicts [Apply] and [VerifyTree] ask for; inspection,
    rendering and signatures of the formats, which rest on archive and OpenPGP
    libraries, as do the readers of the indexes an import reads; pages, caches and process
    execution; and the engine's reporting commands (doctor, status, ci, site, keys, check),
    which gather and print what the operations modelled here compute. *)

From Stdlib Require Export Ascii ZArith Lia.
From stdpp Require Export base decidable strings gmap sorting numbers list.

#[export] Set Warnings "-clear-no-such-hyp,-register-all".

(** ** Fallible Go code

    A Go function that returns [(T, error)] is a function into [result T].
    An error carries the text of its [errors.New] or the format string of its
    [fmt.Errorf]; the formatted arguments are not modelled. *)
Inductive result (A : Type) : Type :=
| Ok (a : A)
| Err (e : string).
Arguments Ok {A} a.
Arguments Err {A} e.

#[export] Instance result_ret : MRet result := λ A a, Ok a.
#[export] Instance result_bind : MBind result := λ A B f m,
  match m with Ok a => f a | Err e => Err e end.
#[export] Instance result_fmap : FMap result := λ A B f m,
  match m with Ok a => Ok (f a) | Err e => Err e end.

#[export] Instance result_eq_dec {A} `{EqDecision A} : EqDecision (result A).
Proof. solve_decision. Defined.

Definition is_ok {A} (r : result A) : bool :=
  match r with Ok _ => true | Err _ => false end.

(** [guard_ok c e] is the early return [if !c { return e }]. *)
Definition guard_ok (c : bool) (e : string) : result () :=
  if c then Ok () else Err e.

Declare Scope go_scope.
Delimit Scope go_scope with go.
Notation "'refuse' e 'when' c ; k" :=
  (if c then Err e else k) (at level 10, c at level 100, k at level 200) : go_scope.
Open Scope go_scope.

Create HintDb go.

(** ** Development tactics *)

(** Split the conjunctions of boolean tests that guards produce. *)
Ltac split_bools :=
  repeat match goal with
  | H : (_ && _)%bool = true |- _ => apply andb_true_iff in H as [? ?]
  | H : (_ || _)%bool = false |- _ => apply orb_false_iff in H as [? ?]
  | H : negb _ = true |- _ => apply negb_true_iff in H
  | H : negb _ = false |- _ => apply negb_false_iff in H
  | H : bool_decide _ = true |- _ => apply bool_decide_eq_true in H
  | H : bool_decide _ = false |- _ => apply bool_decide_eq_false in H
  end.

(** Case analysis on the guards of a handler that returned normally. *)
Ltac case_guards H :=
  repeat match type of H with
  | (if ?c then _ else _) = _ => destruct c eqn:?; [discriminate H|]
  end.

(** ** Three-way comparison *)

(** The Go comparators return -1, 0 or 1. *)
Definition c2z (c : comparison) : Z :=
  (match c with Lt => -1 | Eq => 0 | Gt => 1 end)%Z.

Lemma c2z_opp c : c2z (CompOpp c) = (- c2z c)%Z.
Proof. by destruct c. Qed.

Lemma c2z_inj c d : c2z c = c2z d → c = d.
Proof. by destruct c, d. Qed.

(** [cmp_then c d] is Go's [if c := ...; c != 0 { return c }; return d]. *)
Definition cmp_then (c d : comparison) : comparison :=
  match c with Eq => d | _ => c end.

(** One early return of a comparator, and one turn of a comparing loop. *)
Lemma c2z_return (c : comparison) (z : Z) d :
  z = c2z d → (if negb (c2z c =? 0)%Z then c2z c else z) = c2z (cmp_then c d).
Proof. intros ->. by destruct c. Qed.

Lemma c2z_step (c : comparison) (z : Z) d :
  z = c2z d → (if (c2z c =? 0)%Z then z else c2z c) = c2z (cmp_then c d).
Proof. intros ->. by destruct c. Qed.

(** [if a < b { return -1 }; if a > b { return 1 }; return z]. *)
Lemma Z_ladder (a b z : Z) d :
  (a = b → z = c2z d) →
  (if (a <? b)%Z then (-1)%Z else if (b <? a)%Z then 1%Z else z) = c2z (cmp_then (a ?= b)%Z d).
Proof.
  intros Hz. destruct (Z.ltb_spec a b), (Z.ltb_spec b a), (Z.compare_spec a b);
    simpl; try done; try lia; by apply Hz.
Qed.

(** A three-way comparison that is a total preorder. *)
Class CmpLaws {A} (cmp : A → A → comparison) : Prop := {
  cmp_antisym x y : cmp y x = CompOpp (cmp x y);
  cmp_le_trans x y z : cmp x y ≠ Gt → cmp y z ≠ Gt → cmp x z ≠ Gt;
}.
Arguments cmp_antisym {A} cmp {_} x y.
Arguments cmp_le_trans {A} cmp {_} x y z.

Section cmp_laws.
Context {A : Type} (cmp : A → A → comparison) `{!CmpLaws cmp}.

Lemma cmp_refl x : cmp x x = Eq.
Proof. pose proof (cmp_antisym cmp x x) as H. by destruct (cmp x x). Qed.

Lemma cmp_eq_sym x y : cmp x y = Eq → cmp y x = Eq.
Proof. intros H. by rewrite (cmp_antisym cmp x y), H. Qed.

Lemma cmp_lt_gt x y : cmp x y = Lt ↔ cmp y x = Gt.
Proof. rewrite (cmp_antisym cmp x y). by destruct (cmp x y). Qed.

(** Equivalent values compare alike against everything. *)
Lemma cmp_eq_l x y z : cmp x y = Eq → cmp x z = cmp y z.
Proof.
  intros H. pose proof (cmp_eq_sym _ _ H) as H'.
  pose proof (cmp_le_trans cmp x y z). pose proof (cmp_le_trans cmp y x z).
  pose proof (cmp_le_trans cmp z x y). pose proof (cmp_le_trans cmp z y x).
  rewrite (cmp_antisym cmp x z), (cmp_antisym cmp y z), H, H' in *.
  destruct (cmp x z), (cmp y z); simpl in *; try done;
    exfalso; intuition congruence.
Qed.

Lemma cmp_eq_r x y z : cmp y z = Eq → cmp x y = cmp x z.
Proof.
  intros H. rewrite (cmp_antisym cmp y x), (cmp_antisym cmp z x).
  by rewrite (cmp_eq_l _ _ x H).
Qed.

Lemma cmp_lt_le_trans x y z : cmp x y = Lt → cmp y z ≠ Gt → cmp x z = Lt.
Proof.
  intros Hxy Hyz. destruct (cmp x z) eqn:Hxz; [|done|].
  - exfalso. rewrite (cmp_eq_l x z y Hxz), (cmp_antisym cmp y z) in Hxy.
    by destruct (cmp y z).
  - exfalso. apply (cmp_le_trans cmp x y z); [by rewrite Hxy|done|done].
Qed.

Lemma cmp_le_lt_trans x y z : cmp x y ≠ Gt → cmp y z = Lt → cmp x z = Lt.
Proof.
  intros Hxy Hyz. destruct (cmp x y) eqn:E; [|by eapply cmp_lt_le_trans; [|rewrite Hyz]|done].
  by rewrite (cmp_eq_l _ _ z E).
Qed.

(** A comparison pulled back along a key function. *)
Lemma cmp_laws_on {B} (f : B → A) : CmpLaws (λ x y, cmp (f x) (f y)).
Proof. split; intros; [apply (cmp_antisym cmp)|by eapply (cmp_le_trans cmp)]. Qed.
End cmp_laws.

Lemma cmp_laws_ext {A} (f g : A → A → comparison) :
  (∀ x y, g x y = f x y) → CmpLaws f → CmpLaws g.
Proof.
  intros E Hf. split; intros *; rewrite !E; [apply (cmp_antisym f)|apply (cmp_le_trans f)].
Qed.

(** Lexicographic combination. *)
#[export] Instance cmp_then_laws {A} (f g : A → A → comparison) :
  CmpLaws f → CmpLaws g → CmpLaws (λ x y, cmp_then (f x y) (g x y)).
Proof.
  intros Hf Hg. split.
  - intros x y. rewrite (cmp_antisym f x y), (cmp_antisym g x y).
    by destruct (f x y).
  - intros x y z. unfold cmp_then. destruct (f x y) eqn:Hxy; [| |done].
    + rewrite (cmp_eq_l f x y z Hxy).
      destruct (f y z); [apply (cmp_le_trans g)|done|done].
    + intros _ H. rewrite (cmp_lt_le_trans f x y z Hxy); [done|].
      by destruct (f y z).
Qed.

#[export] Instance Z_compare_laws : CmpLaws Z.compare.
Proof.
  split; [intros; by rewrite Z.compare_antisym|].
  intros x y z. rewrite !Z.compare_le_iff. lia.
Qed.

#[export] Instance N_compare_laws : CmpLaws N.compare.
Proof.
  split; [intros; by rewrite N.compare_antisym|].
  intros x y z. rewrite !N.compare_le_iff. lia.
Qed.

(** Byte-wise comparison of strings: Go's [<] on [string] and
    [strings.Compare]. *)
Fixpoint str_cmp (l r : string) : comparison :=
  match l, r with
  | "", "" => Eq
  | "", _ => Lt
  | _, "" => Gt
  | String a l', String b r' =>
      cmp_then (N.compare (N_of_ascii a) (N_of_ascii b)) (str_cmp l' r')
  end.

Definition str_ltb (l r : string) : bool :=
  match str_cmp l r with Lt => true | _ => false end.
Definition str_leb (l r : string) : bool :=
  match str_cmp l r with Gt => false | _ => true end.

Lemma str_cmp_eq l r : str_cmp l r = Eq ↔ l = r.
Proof.
  split; [|intros ->; induction r; simpl; [done|by rewrite N.compare_refl]].
  revert r; induction l as [|a l IH]; intros [|b r]; simpl; [done..|].
  destruct (N.compare_spec (N_of_ascii a) (N_of_ascii b)) as [E| |]; [|done..].
  simpl. intros ->%IH. f_equal.
  by rewrite <- (ascii_N_embedding a), E, ascii_N_embedding.
Qed.

Lemma str_cmp_refl s : str_cmp s s = Eq.
Proof. by apply str_cmp_eq. Qed.

#[export] Instance str_cmp_laws : CmpLaws str_cmp.
Proof.
  split.
  - induction x as [|a x IH]; intros [|b y]; simpl; [done..|].
    rewrite (N.compare_antisym (N_of_ascii a)), IH.
    by destruct (_ ?= _)%N.
  - induction x as [|a x IH]; intros [|b y] [|c z]; simpl; try done.
    destruct (N.compare_spec (N_of_ascii a) (N_of_ascii b)),
      (N.compare_spec (N_of_ascii b) (N_of_ascii c)),
      (N.compare_spec (N_of_ascii a) (N_of_ascii c)); simpl; try done; try lia.
    apply IH.
Qed.

Lemma str_ltb_irrefl s : str_ltb s s = false.
Proof. unfold str_ltb. by rewrite str_cmp_refl. Qed.

Lemma str_ltb_trans a b c : str_ltb a b = true → str_ltb b c = true → str_ltb a c = true.
Proof.
  unfold str_ltb. intros H1 H2.
  destruct (str_cmp a b) eqn:E1; try done. destruct (str_cmp b c) eqn:E2; try done.
  rewrite (cmp_lt_le_trans _ a b c); [done..|]. by rewrite E2.
Qed.

(** Lexicographic comparison of lists, the shorter list lower. *)
Fixpoint list_cmp {A} (cmp : A → A → comparison) (l r : list A) : comparison :=
  match l, r with
  | [], [] => Eq
  | [], _ => Lt
  | _, [] => Gt
  | x :: l', y :: r' => cmp_then (cmp x y) (list_cmp cmp l' r')
  end.

#[export] Instance list_cmp_laws {A} (cmp : A → A → comparison) :
  CmpLaws cmp → CmpLaws (list_cmp cmp).
Proof.
  intros Hc. split.
  - induction x as [|a x IH]; intros [|b y]; simpl; [done..|].
    rewrite (cmp_antisym cmp a b), IH. by destruct (cmp a b).
  - induction x as [|a x IH]; intros [|b y] [|c z]; simpl; try done.
    destruct (cmp a b) eqn:Hab; simpl; [| |done].
    + rewrite (cmp_eq_l cmp a b c Hab). destruct (cmp b c); simpl; [apply IH|done|done].
    + intros _ H. rewrite (cmp_lt_le_trans cmp a b c Hab); [done|].
      by destruct (cmp b c).
Qed.

(** Lexicographic comparison in which a missing element reads as [d]: the
    Go loops that index [l] and [r] up to the longer length with a default. *)
Fixpoint pad_cmp {A} (cmp : A → A → comparison) (d : A) (l r : list A) : comparison :=
  match l with
  | [] => (fix go r := match r with
                       | [] => Eq
                       | y :: r' => cmp_then (cmp d y) (go r')
                       end) r
  | x :: l' => match r with
               | [] => cmp_then (cmp x d) (pad_cmp cmp d l' [])
               | y :: r' => cmp_then (cmp x y) (pad_cmp cmp d l' r')
               end
  end.

Section pad_cmp.
Context {A : Type} (cmp : A → A → comparison) (d : A) `{!CmpLaws cmp}.

Lemma pad_cmp_nil_r y r :
  pad_cmp cmp d [] (y :: r) = cmp_then (cmp d y) (pad_cmp cmp d [] r).
Proof. done. Qed.

(** Padding both lists to a common length turns [pad_cmp] into [list_cmp]. *)
Lemma pad_cmp_resize n l r :
  length l ≤ n → length r ≤ n →
  pad_cmp cmp d l r = list_cmp cmp (resize n d l) (resize n d r).
Proof.
  revert l r; induction n as [|n IH]; intros [|x l] [|y r] Hl Hr;
    simpl in *; try lia; try done.
  - specialize (IH [] []). rewrite !resize_nil in IH. rewrite cmp_refl by done. simpl.
    rewrite <- IH by (simpl; lia). done.
  - specialize (IH [] r). rewrite resize_nil in IH. rewrite <- IH by (simpl; lia). done.
  - specialize (IH l []). rewrite resize_nil in IH. rewrite <- IH by (simpl; lia). done.
  - rewrite <- IH by lia. done.
Qed.

#[export] Instance pad_cmp_laws : CmpLaws (pad_cmp cmp d).
Proof.
  split.
  - intros x y. set (n := max (length x) (length y)).
    rewrite !(pad_cmp_resize n) by lia. apply (cmp_antisym (list_cmp cmp)).
  - intros x y z. set (n := max (length x) (max (length y) (length z))).
    rewrite !(pad_cmp_resize n) by lia. apply (cmp_le_trans (list_cmp cmp)).
Qed.

(** A default element in front of an exhausted list changes nothing. *)
Lemma pad_cmp_nil_l_default r : pad_cmp cmp d [] r = pad_cmp cmp d [d] r.
Proof. destruct r as [|y r]; simpl; [|done]. by rewrite cmp_refl. Qed.

Lemma pad_cmp_nil_r_default l : pad_cmp cmp d l [] = pad_cmp cmp d l [d].
Proof. destruct l as [|x l]; simpl; [|done]. by rewrite cmp_refl. Qed.
End pad_cmp.

(** ** Version comparators

    What [state.VersionComparator] promises its clients.  A comparator is a
    total preorder on the versions it accepts when it succeeds on every pair of
    them, is antisymmetric as a three-way comparison and its non-positive
    results compose. *)
Definition TotalPreorderOn (valid : string → Prop)
    (compare : string → string → result Z) : Prop :=
  (∀ a b, valid a → valid b →
     ∃ z, compare a b = Ok z ∧ compare b a = Ok (- z)%Z ∧ (-1 ≤ z ≤ 1)%Z) ∧
  (∀ a, valid a → compare a a = Ok 0%Z) ∧
  (∀ a b c x y, valid a → valid b → valid c →
     compare a b = Ok x → compare b c = Ok y → (x ≤ 0)%Z → (y ≤ 0)%Z →
     ∃ z, compare a c = Ok z ∧ (z ≤ 0)%Z).

(** The interface a format's comparator implements and retention relies on. *)
Class LawfulComparator (compare : string → string → result Z) := {
  comparable : string → Prop;
  version_cmp : string → string → comparison;
  version_cmp_laws : CmpLaws version_cmp;
  compare_spec a b :
    comparable a → comparable b → compare a b = Ok (c2z (version_cmp a b));
}.
#[export] Existing Instance version_cmp_laws.

Lemma lawful_total_preorder compare `{!LawfulComparator compare} :
  TotalPreorderOn comparable compare.
Proof.
  split; [|split].
  - intros a b Ha Hb. exists (c2z (version_cmp a b)).
    rewrite !compare_spec by done. split; [done|].
    rewrite (cmp_antisym version_cmp a b), c2z_opp.
    split; [done|]. by destruct (version_cmp a b); simpl; lia.
  - intros a Ha. rewrite compare_spec by done. by rewrite (cmp_refl version_cmp).
  - intros a b c x y Ha Hb Hc. rewrite !compare_spec by done.
    intros [= <-] [= <-] Hx Hy. eexists; split; [done|].
    pose proof (cmp_le_trans version_cmp a b c) as H.
    destruct (version_cmp a b), (version_cmp b c), (version_cmp a c); simpl in *;
      try lia; exfalso; by apply H.
Qed.
