(* ===== verification/GoStrings.v ===== *)
(** The parts of Go's [strings], [strconv] and [bytes] packages, and of string
    slicing, that the modelled code uses.  A Go [string] is a sequence of bytes:
    Rocq's [string], whose [ascii] is a byte.  Ranging over runes is modelled
    byte-wise, which agrees with Go wherever the code only tests runes against
    ASCII characters and rejects or copies the others; the case mapping
    functions are modelled on ASCII. *)

From S2P Require Import Prelude.

Open Scope Z_scope.

(** ** Bytes *)

Definition byte_val (c : ascii) : Z := Z.of_N (N_of_ascii c).

Definition byte_between (lo hi c : ascii) : bool :=
  (byte_val lo <=? byte_val c) && (byte_val c <=? byte_val hi).

Definition is_digit : ascii → bool := byte_between "0" "9".
Definition is_lower : ascii → bool := byte_between "a" "z".
Definition is_upper : ascii → bool := byte_between "A" "Z".
Definition is_letter (c : ascii) : bool := is_lower c || is_upper c.

Definition ascii_eqb (a b : ascii) : bool := bool_decide (a = b).

Lemma byte_val_bound c : 0 ≤ byte_val c < 256.
Proof.
  unfold byte_val. pose proof (N_ascii_bounded c). lia.
Qed.

Lemma byte_val_inj a b : byte_val a = byte_val b → a = b.
Proof.
  unfold byte_val. intros H%N2Z.inj.
  by rewrite <- (ascii_N_embedding a), H, ascii_N_embedding.
Qed.

Definition to_lower_byte (c : ascii) : ascii :=
  if is_upper c then ascii_of_N (N_of_ascii c + 32) else c.

(** ** Slices and searches *)

Fixpoint stake (n : nat) (s : string) : string :=
  match n, s with
  | S n, String c s => String c (stake n s)
  | _, _ => ""
  end.

Fixpoint sdrop (n : nat) (s : string) : string :=
  match n, s with
  | S n, String _ s => sdrop n s
  | _, _ => s
  end.

(** The longest prefix whose bytes satisfy [p], and the rest. *)
Fixpoint span (p : ascii → bool) (s : string) : string * string :=
  match s with
  | "" => ("", "")
  | String c s' =>
      if p c then let '(a, b) := span p s' in (String c a, b) else ("", s)
  end.

Fixpoint all_bytes (p : ascii → bool) (s : string) : bool :=
  match s with "" => true | String c s => p c && all_bytes p s end.

(** [if i := strings.IndexByte(s, c); i >= 0] with [s[:i]] and [s[i+1:]]. *)
Fixpoint cut_byte (c : ascii) (s : string) : option (string * string) :=
  match s with
  | "" => None
  | String x s' =>
      if ascii_eqb x c then Some ("", s')
      else '(a, b) ← cut_byte c s'; Some (String x a, b)
  end.

(** [if i := strings.LastIndexByte(s, c); i >= 0] with [s[:i]], [s[i+1:]]. *)
Fixpoint cut_last_byte (c : ascii) (s : string) : option (string * string) :=
  match s with
  | "" => None
  | String x s' =>
      match cut_last_byte c s' with
      | Some (a, b) => Some (String x a, b)
      | None => if ascii_eqb x c then Some ("", s') else None
      end
  end.

Fixpoint HasPrefix (s prefix : string) {struct prefix} : bool :=
  match prefix, s with
  | "", _ => true
  | String c p, String x s => ascii_eqb x c && HasPrefix s p
  | _, _ => false
  end.

Definition HasSuffix (s suffix : string) : bool :=
  (String.length suffix <=? String.length s)%nat &&
  bool_decide (sdrop (String.length s - String.length suffix) s = suffix).

Definition TrimPrefix (s prefix : string) : string :=
  if HasPrefix s prefix then sdrop (String.length prefix) s else s.

Definition TrimSuffix (s suffix : string) : string :=
  if HasSuffix s suffix
  then stake (String.length s - String.length suffix) s else s.

Fixpoint Contains (s sub : string) : bool :=
  HasPrefix s sub || match s with "" => false | String _ s' => Contains s' sub end.

(** [if i := strings.LastIndex(s, sub); i >= 0] with [s[:i]] and
    [s[i+len(sub):]]. *)
Fixpoint cut_last (sub s : string) : option (string * string) :=
  match s with
  | "" => if HasPrefix s sub then Some ("", "") else None
  | String x s' =>
      match cut_last sub s' with
      | Some (a, b) => Some (String x a, b)
      | None => if HasPrefix s sub
                then Some ("", sdrop (String.length sub) s) else None
      end
  end.

Fixpoint mem_byte (c : ascii) (s : string) : bool :=
  match s with "" => false | String x s => ascii_eqb x c || mem_byte c s end.

(** [strings.ContainsAny(s, chars)]. *)
Definition ContainsAny (s chars : string) : bool :=
  negb (all_bytes (λ c, negb (mem_byte c chars)) s).

Definition TrimLeft (p : ascii → bool) (s : string) : string := (span p s).2.

Fixpoint TrimRight (p : ascii → bool) (s : string) : string :=
  match s with
  | "" => ""
  | String c s' =>
      match TrimRight p s' with
      | "" => if p c then "" else String c ""
      | t => String c t
      end
  end.

Definition TrimByte (c : ascii) (s : string) : string :=
  TrimRight (ascii_eqb c) (TrimLeft (ascii_eqb c) s).

(** The UTF-8 encodings of the runes [unicode.IsSpace] accepts. *)
Definition bytes_of (codes : list N) : string :=
  foldr (λ n s, String (ascii_of_N n) s) "" codes.

Definition space_runes : list string :=
  map bytes_of ([[9]; [10]; [11]; [12]; [13]; [32]; [194; 133]; [194; 160];
    [225; 154; 128]; [226; 128; 128]; [226; 128; 129]; [226; 128; 130]; [226; 128; 131];
    [226; 128; 132]; [226; 128; 133]; [226; 128; 134]; [226; 128; 135]; [226; 128; 136];
    [226; 128; 137]; [226; 128; 138]; [226; 128; 168]; [226; 128; 169]; [226; 128; 175];
    [226; 129; 159]; [227; 128; 128]])%N.

(** Strip the given encodings from the left for as long as one is a prefix. *)
Fixpoint trim_runes (fuel : nat) (runes : list string) (s : string) : string :=
  match fuel with
  | O => s
  | S fuel =>
      match List.find (HasPrefix s) runes with
      | Some r => trim_runes fuel runes (sdrop (String.length r) s)
      | None => s
      end
  end.

Definition TrimSpace (s : string) : string :=
  let s := trim_runes (String.length s) space_runes s in
  String.rev (trim_runes (String.length s) (map String.rev space_runes) (String.rev s)).

Fixpoint ToLower (s : string) : string :=
  match s with "" => "" | String c s => String (to_lower_byte c) (ToLower s) end.

(** [strings.Split(s, c)] for a one-byte separator. *)
Fixpoint Split (c : ascii) (s : string) : list string :=
  match s with
  | "" => [""]
  | String x s' =>
      if ascii_eqb x c then "" :: Split c s'
      else match Split c s' with
           | h :: t => String x h :: t
           | [] => [String x ""]
           end
  end.

(** [strings.FieldsFunc(s, p)]: the maximal non-empty runs of non-separators. *)
Fixpoint fields_raw (p : ascii → bool) (s : string) : list string :=
  match s with
  | "" => [""]
  | String x s' =>
      if p x then "" :: fields_raw p s'
      else match fields_raw p s' with
           | h :: t => String x h :: t
           | [] => [String x ""]
           end
  end.
Definition FieldsFunc (p : ascii → bool) (s : string) : list string :=
  filter (λ f, f ≠ "") (fields_raw p s).

Fixpoint Join (l : list string) (sep : string) : string :=
  match l with
  | [] => ""
  | [s] => s
  | s :: l' => s +:+ sep +:+ Join l' sep
  end.

(** ** Numbers *)

Definition digit_val (c : ascii) : Z := byte_val c - 48.

(** The value of a run of decimal digits, most significant first. *)
Fixpoint digits_val_from (acc : Z) (s : string) : Z :=
  match s with
  | "" => acc
  | String c s => digits_val_from (10 * acc + digit_val c) s
  end.
Definition digits_val (s : string) : Z := digits_val_from 0 s.

(** [strconv.ParseUint(s, 10, bits)]. *)
Definition ParseUint (s : string) (bits : Z) : option Z :=
  if bool_decide (s = "") || negb (all_bytes is_digit s) then None
  else let v := digits_val s in if v <? 2 ^ bits then Some v else None.

(** [strconv.ParseInt(s, 10, bits)]: one optional sign, then digits. *)
Definition ParseInt (s : string) (bits : Z) : option Z :=
  let '(neg, t) := match s with
                   | String "-" t => (true, t)
                   | String "+" t => (false, t)
                   | _ => (false, s)
                   end in
  if bool_decide (t = "") || negb (all_bytes is_digit t) then None
  else let v := digits_val t in
       if neg then if v <=? 2 ^ (bits - 1) then Some (- v) else None
       else if v <? 2 ^ (bits - 1) then Some v else None.

(** ** Lemmas on slices and spans *)

Lemma ascii_eqb_eq a b : ascii_eqb a b = true ↔ a = b.
Proof. unfold ascii_eqb. by rewrite bool_decide_eq_true. Qed.

Lemma ascii_eqb_neq a b : ascii_eqb a b = false ↔ a ≠ b.
Proof. unfold ascii_eqb. by rewrite bool_decide_eq_false. Qed.

Lemma ascii_eqb_refl a : ascii_eqb a a = true.
Proof. by apply ascii_eqb_eq. Qed.

Lemma str_app_nil_r s : s +:+ "" = s.
Proof. induction s as [|c s IH]; [done|]. change (String c (s +:+ "") = String c s). by rewrite IH. Qed.

Lemma str_app_cons c s t : String c s +:+ t = String c (s +:+ t).
Proof. done. Qed.

Lemma str_app_assoc s t u : (s +:+ t) +:+ u = s +:+ (t +:+ u).
Proof. induction s as [|c s IH]; [done|]. rewrite !str_app_cons. by rewrite IH. Qed.

Lemma str_length_app s t :
  String.length (s +:+ t) = (String.length s + String.length t)%nat.
Proof. induction s as [|c s IH]; [done|]. rewrite str_app_cons. simpl. by rewrite IH. Qed.

Section span.
Context (p : ascii → bool).

Lemma span_app s : (span p s).1 +:+ (span p s).2 = s.
Proof.
  induction s as [|c s IH]; [done|]. simpl.
  destruct (p c); [|done]. destruct (span p s) as [a b]. simpl in *.
  by rewrite str_app_cons, IH.
Qed.

Lemma span_all s : all_bytes p (span p s).1 = true.
Proof.
  induction s as [|c s IH]; [done|]. simpl.
  destruct (p c) eqn:E; [|done]. destruct (span p s). simpl in *. by rewrite E.
Qed.

(** What is left over is empty or starts with a byte outside [p]. *)
Lemma span_rest s :
  (span p s).2 = "" ∨ ∃ c t, (span p s).2 = String c t ∧ p c = false.
Proof.
  induction s as [|c s IH]; [by left|]. simpl.
  destruct (p c) eqn:E; [by destruct (span p s)|]. right. eauto.
Qed.

Lemma span_length s :
  String.length s = (String.length (span p s).1 + String.length (span p s).2)%nat.
Proof. rewrite <- (span_app s) at 1. apply str_length_app. Qed.

Lemma span_cons_false c s : p c = false → span p (String c s) = ("", String c s).
Proof. intros H. simpl. by rewrite H. Qed.

(** A non-empty match consumes at least one byte. *)
Lemma span_cons_true c s :
  p c = true → (String.length (span p (String c s)).2 ≤ String.length s)%nat.
Proof.
  intros H. simpl. rewrite H. pose proof (span_length s).
  destruct (span p s). simpl in *. lia.
Qed.

Lemma all_bytes_app s t : all_bytes p (s +:+ t) = all_bytes p s && all_bytes p t.
Proof.
  induction s as [|c s IH]; [done|]. rewrite str_app_cons. simpl.
  by rewrite IH, andb_assoc.
Qed.

Lemma all_bytes_span_rest q s : all_bytes q s = true → all_bytes q (span p s).2 = true.
Proof.
  induction s as [|c s IH]; [done|]. simpl. intros [Hc Hs]%andb_true_iff.
  destruct (p c); [|simpl; by rewrite Hc]. destruct (span p s). auto.
Qed.
End span.

Lemma all_bytes_impl (p q : ascii → bool) s :
  (∀ c, p c = true → q c = true) → all_bytes p s = true → all_bytes q s = true.
Proof.
  intros H. induction s as [|c s IH]; [done|]. simpl.
  intros [? ?]%andb_true_iff. by rewrite H, IH.
Qed.

(** ** Decimal comparison *)

Lemma digit_val_bound c : is_digit c = true → 0 ≤ digit_val c ≤ 9.
Proof.
  unfold is_digit, byte_between, digit_val.
  rewrite andb_true_iff, !Z.leb_le. unfold byte_val at 1 4. simpl. lia.
Qed.

Lemma digits_val_from_spec acc s :
  digits_val_from acc s = acc * 10 ^ Z.of_nat (String.length s) + digits_val s.
Proof.
  unfold digits_val. revert acc. induction s as [|c s IH]; intros acc; [simpl; lia|].
  cbn [digits_val_from String.length]. rewrite IH, (IH (10 * 0 + _)).
  rewrite Nat2Z.inj_succ, Z.pow_succ_r by lia. ring.
Qed.

Lemma digits_val_cons c s :
  digits_val (String c s) = digit_val c * 10 ^ Z.of_nat (String.length s) + digits_val s.
Proof. unfold digits_val at 1. cbn [digits_val_from]. rewrite digits_val_from_spec. f_equal; lia. Qed.

Lemma digits_val_bound s :
  all_bytes is_digit s = true → 0 ≤ digits_val s < 10 ^ Z.of_nat (String.length s).
Proof.
  induction s as [|c s IH]; [simpl; unfold digits_val; simpl; lia|].
  cbn [all_bytes String.length]. intros [Hc Hs]%andb_true_iff.
  specialize (IH Hs). apply digit_val_bound in Hc.
  rewrite digits_val_cons, Nat2Z.inj_succ, Z.pow_succ_r by lia. nia.
Qed.

Lemma digits_val_trim s : digits_val (TrimLeft (ascii_eqb "0") s) = digits_val s.
Proof.
  unfold TrimLeft. induction s as [|c s IH]; [done|]. simpl.
  destruct (ascii_eqb "0" c) eqn:E; [|done].
  apply ascii_eqb_eq in E as <-. destruct (span _ s). simpl in *.
  rewrite IH, digits_val_cons. unfold digit_val, byte_val. simpl. lia.
Qed.

Lemma trim_zeros_lead s :
  all_bytes is_digit s = true → s ≠ "" → TrimLeft (ascii_eqb "0") s = s →
  10 ^ (Z.of_nat (String.length s) - 1) ≤ digits_val s.
Proof.
  intros Hs Hne Ht. destruct s as [|c s]; [done|].
  cbn [all_bytes] in Hs. apply andb_true_iff in Hs as [Hc Hs].
  assert (c ≠ "0"%char).
  { intros ->. unfold TrimLeft in Ht. simpl in Ht.
    destruct (span (ascii_eqb "0") s) as [a b] eqn:E. simpl in Ht. subst.
    pose proof (span_length (ascii_eqb "0") s). rewrite E in H. simpl in H. lia. }
  assert (1 ≤ digit_val c).
  { pose proof (digit_val_bound c Hc). destruct (decide (digit_val c = 0)) as [E|]; [|lia].
    exfalso. apply H. apply byte_val_inj. unfold digit_val in E.
    change (byte_val "0") with 48. lia. }
  rewrite digits_val_cons. cbn [String.length].
  replace (Z.of_nat (S (String.length s)) - 1) with (Z.of_nat (String.length s)) by lia.
  pose proof (digits_val_bound s Hs). nia.
Qed.

Lemma str_cmp_digits l r :
  all_bytes is_digit l = true → all_bytes is_digit r = true →
  String.length l = String.length r →
  str_cmp l r = (digits_val l ?= digits_val r).
Proof.
  revert r; induction l as [|a l IH]; intros [|b r] Hl Hr Hlen; try done.
  cbn [all_bytes] in *. apply andb_true_iff in Hl as [Ha Hl].
  apply andb_true_iff in Hr as [Hb Hr]. simpl in Hlen. injection Hlen as Hlen.
  cbn [str_cmp]. rewrite IH by done. rewrite !digits_val_cons, Hlen.
  pose proof (digits_val_bound l Hl). pose proof (digits_val_bound r Hr).
  rewrite Hlen in *.
  set (P := 10 ^ Z.of_nat (String.length r)) in *.
  assert (0 < P) by (unfold P; lia).
  rewrite <- (N2Z.inj_compare (N_of_ascii a)). fold (byte_val a) (byte_val b).
  unfold digit_val. destruct (Z.compare_spec (byte_val a) (byte_val b)) as [E|E|E]; simpl.
  - rewrite E. destruct (Z.compare_spec (digits_val l) (digits_val r)) as [E'|E'|E'];
      symmetry; [apply Z.compare_eq_iff|apply Z.compare_lt_iff|apply Z.compare_gt_iff]; lia.
  - symmetry. apply Z.compare_lt_iff. nia.
  - symmetry. apply Z.compare_gt_iff. nia.
Qed.

(** Trimming leading zeros, then comparing lengths, then comparing bytes,
    compares the numbers two runs of digits denote, at any length. *)
Definition trimmed_cmp (l r : string) : comparison :=
  let l := TrimLeft (ascii_eqb "0") l in
  let r := TrimLeft (ascii_eqb "0") r in
  cmp_then (Z.of_nat (String.length l) ?= Z.of_nat (String.length r)) (str_cmp l r).

#[export] Instance trimmed_cmp_laws : CmpLaws trimmed_cmp.
Proof.
  apply (cmp_then_laws _ _
    (cmp_laws_on Z.compare (λ s, Z.of_nat (String.length (TrimLeft (ascii_eqb "0") s))))
    (cmp_laws_on str_cmp (TrimLeft (ascii_eqb "0")))).
Qed.

(** The five-way test by which the Go code compares two runs of digits. *)
Lemma trimmed_cmp_code left right :
  (let left := TrimLeft (ascii_eqb "0") left in
   let right := TrimLeft (ascii_eqb "0") right in
   if (String.length left <? String.length right)%nat then -1
   else if (String.length right <? String.length left)%nat then 1
   else if str_ltb left right then -1
   else if str_ltb right left then 1
   else 0) = c2z (trimmed_cmp left right).
Proof.
  unfold trimmed_cmp.
  set (l := TrimLeft _ left). set (r := TrimLeft _ right). clearbody l r.
  unfold str_ltb. rewrite (cmp_antisym str_cmp l r).
  destruct (Nat.ltb_spec (String.length l) (String.length r)),
    (Nat.ltb_spec (String.length r) (String.length l)),
    (Z.compare_spec (Z.of_nat (String.length l)) (Z.of_nat (String.length r))); try lia;
    simpl; try done.
  by destruct (str_cmp l r).
Qed.

Lemma trim_left_idemp p s : TrimLeft p (TrimLeft p s) = TrimLeft p s.
Proof.
  unfold TrimLeft. destruct (span_rest p s) as [->|(c & t & -> & H)]; [done|].
  simpl. by rewrite H.
Qed.

Lemma trimmed_shorter l r :
  all_bytes is_digit l = true → all_bytes is_digit r = true →
  TrimLeft (ascii_eqb "0") r = r →
  (String.length l < String.length r)%nat → digits_val l < digits_val r.
Proof.
  intros Hl Hr Ht Hlen. pose proof (digits_val_bound l Hl).
  assert (r ≠ "") as Hne by (by intros ->; simpl in Hlen; lia).
  pose proof (trim_zeros_lead r Hr Hne Ht).
  assert (10 ^ Z.of_nat (String.length l) ≤ 10 ^ (Z.of_nat (String.length r) - 1)).
  { apply Z.pow_le_mono_r; lia. }
  lia.
Qed.

Lemma trimmed_cmp_spec l r :
  all_bytes is_digit l = true → all_bytes is_digit r = true →
  trimmed_cmp l r = (digits_val l ?= digits_val r).
Proof.
  intros Hl Hr. unfold trimmed_cmp.
  rewrite <- (digits_val_trim l), <- (digits_val_trim r).
  apply (all_bytes_span_rest (ascii_eqb "0")) in Hl, Hr.
  fold (TrimLeft (ascii_eqb "0") l) in Hl. fold (TrimLeft (ascii_eqb "0") r) in Hr.
  pose proof (trim_left_idemp (ascii_eqb "0") l) as Tl.
  pose proof (trim_left_idemp (ascii_eqb "0") r) as Tr.
  set (l' := TrimLeft _ l) in *. set (r' := TrimLeft _ r) in *. clearbody l' r'.
  destruct (Z.compare_spec (Z.of_nat (String.length l')) (Z.of_nat (String.length r')))
    as [E|E|E]; simpl.
  - apply str_cmp_digits; [done..|lia].
  - symmetry. apply Z.compare_lt_iff. apply trimmed_shorter; [done..|lia].
  - symmetry. apply Z.compare_gt_iff. apply trimmed_shorter; [done..|lia].
Qed.

(** ** Lemmas on cuts *)

Lemma cut_byte_some c s a b :
  cut_byte c s = Some (a, b) → s = a +:+ String c b ∧ mem_byte c a = false.
Proof.
  revert a b; induction s as [|x s IH]; intros a b; simpl; [done|].
  destruct (ascii_eqb x c) eqn:E.
  - intros [= <- <-]. apply ascii_eqb_eq in E as ->. done.
  - destruct (cut_byte c s) as [[a' b']|]; simpl; [|done].
    intros [= <- <-]. destruct (IH a' b' eq_refl) as [-> Hm].
    rewrite str_app_cons. simpl. by rewrite E, Hm.
Qed.

Lemma cut_byte_none c s : cut_byte c s = None ↔ mem_byte c s = false.
Proof.
  induction s as [|x s IH]; simpl; [done|].
  destruct (ascii_eqb x c) eqn:E; simpl; [done|].
  rewrite <- IH. by destruct (cut_byte c s) as [[? ?]|].
Qed.

Lemma cut_last_byte_none c s : cut_last_byte c s = None ↔ mem_byte c s = false.
Proof.
  induction s as [|x s IH]; simpl; [done|].
  destruct (cut_last_byte c s) as [[? ?]|].
  - destruct IH as [_ IH]. destruct (mem_byte c s); [by rewrite orb_true_r|by specialize (IH eq_refl)].
  - destruct IH as [-> _]; [|done]. rewrite orb_false_r. by destruct (ascii_eqb x c).
Qed.

Lemma cut_last_byte_some c s a b :
  cut_last_byte c s = Some (a, b) → s = a +:+ String c b ∧ mem_byte c b = false.
Proof.
  revert a b; induction s as [|x s IH]; intros a b; simpl; [done|].
  destruct (cut_last_byte c s) as [[a' b']|] eqn:Hc.
  - intros [= <- <-]. destruct (IH a' b' eq_refl) as [-> Hm].
    by rewrite str_app_cons.
  - destruct (ascii_eqb x c) eqn:E; [|done]. intros [= <- <-].
    apply ascii_eqb_eq in E as ->. split; [done|]. by apply cut_last_byte_none.
Qed.

(** The bytes of both halves of a cut are bytes of the whole. *)
Lemma cut_byte_all p c s a b :
  cut_byte c s = Some (a, b) → all_bytes p s = true →
  all_bytes p a = true ∧ all_bytes p b = true.
Proof.
  intros [-> _]%cut_byte_some. rewrite all_bytes_app. simpl.
  by rewrite !andb_true_iff; intros (? & ? & ?).
Qed.

Lemma cut_last_byte_all p c s a b :
  cut_last_byte c s = Some (a, b) → all_bytes p s = true →
  all_bytes p a = true ∧ all_bytes p b = true.
Proof.
  intros [-> _]%cut_last_byte_some. rewrite all_bytes_app. simpl.
  by rewrite !andb_true_iff; intros (? & ? & ?).
Qed.

Lemma ContainsAny_false s chars (p : ascii → bool) :
  (∀ c, mem_byte c chars = false → p c = true) →
  ContainsAny s chars = false → all_bytes p s = true.
Proof.
  unfold ContainsAny. intros H Hs%negb_false_iff. revert Hs. apply all_bytes_impl.
  intros c Hc%negb_true_iff. by apply H.
Qed.

Lemma ParseUint_some s bits v :
  ParseUint s bits = Some v →
  all_bytes is_digit s = true ∧ s ≠ "" ∧ v = digits_val s ∧ 0 ≤ v < 2 ^ bits.
Proof.
  unfold ParseUint. destruct (bool_decide (s = "") || negb (all_bytes is_digit s)) eqn:E; [done|].
  apply orb_false_iff in E as [Hne%bool_decide_eq_false Hd%negb_false_iff].
  destruct (Z.ltb_spec (digits_val s) (2 ^ bits)); [|done]. intros [= <-].
  pose proof (digits_val_bound s Hd). repeat split; try done; lia.
Qed.

Lemma sdrop_stake_app s t :
  sdrop (String.length s) (s +:+ t) = t ∧ stake (String.length s) (s +:+ t) = s.
Proof.
  induction s as [|c s IH]; [by destruct t|]. rewrite str_app_cons. simpl. destruct IH as [-> ->]. done.
Qed.

Lemma HasSuffix_app s t : HasSuffix (s +:+ t) t = true.
Proof.
  unfold HasSuffix. rewrite str_length_app.
  replace (String.length s + String.length t - String.length t)%nat with (String.length s) by lia.
  rewrite (proj1 (sdrop_stake_app s t)), bool_decide_eq_true_2 by done.
  by rewrite (proj2 (Nat.leb_le _ _)) by lia.
Qed.

Lemma TrimSuffix_app s t : TrimSuffix (s +:+ t) t = s.
Proof.
  unfold TrimSuffix. rewrite HasSuffix_app, str_length_app.
  replace (String.length s + String.length t - String.length t)%nat with (String.length s) by lia.
  apply sdrop_stake_app.
Qed.

(** ** Slash-separated paths: Go's [path] and, on Unix, [path/filepath] *)

(** The component stack [path.Clean] builds, most recent first. *)
Definition clean_push (rooted : bool) (stack : list string) (component : string) : list string :=
  if bool_decide (component = "") || bool_decide (component = ".") then stack
  else if bool_decide (component = "..") then
    match stack with
    | top :: rest => if bool_decide (top = "..") then ".." :: stack else rest
    | [] => if rooted then [] else [".."]
    end
  else component :: stack.

Definition Clean (p : string) : string :=
  let rooted := HasPrefix p "/" in
  let body := Join (reverse (foldl (clean_push rooted) [] (Split "/" p))) "/" in
  if rooted then String "/" body
  else if bool_decide (body = "") then "." else body.

(** [path.Base]. *)
Definition Base (p : string) : string :=
  if bool_decide (p = "") then "."
  else
    let p := TrimRight (ascii_eqb "/") p in
    if bool_decide (p = "") then "/"
    else match cut_last_byte "/" p with Some (_, base) => base | None => p end.

(** [strings.IndexFunc(s, unicode.IsControl) >= 0]: C0 and DEL are single bytes,
    C1 is the byte 0xC2 followed by 0x80 to 0x9F. *)
Fixpoint HasControl (s : string) : bool :=
  match s with
  | "" => false
  | String c s' =>
      (byte_val c <? 32) || (byte_val c =? 127) ||
      ((byte_val c =? 194) &&
       match s' with String d _ => (128 <=? byte_val d) && (byte_val d <=? 159) | "" => false end) ||
      HasControl s'
  end.

(** Joining with a NUL byte is injective on NUL-free components. *)
Definition nul : string := String "000" "".
Definition nul_free (s : string) : bool := negb (mem_byte "000" s).

Lemma nul_join_inj a b c d :
  nul_free a = true → nul_free c = true →
  a +:+ nul +:+ b = c +:+ nul +:+ d → a = c ∧ b = d.
Proof.
  unfold nul_free. rewrite !negb_true_iff. revert c.
  induction a as [|x a IH]; intros [|y c] Ha Hc; rewrite ?str_app_cons; simpl in *.
  - intros H. by injection H.
  - intros H. injection H as <- _. by rewrite ascii_eqb_refl in Hc.
  - intros H. injection H as -> _. by rewrite ascii_eqb_refl in Ha.
  - apply orb_false_iff in Ha as [_ Ha], Hc as [_ Hc].
    intros [= -> H]. destruct (IH c Ha Hc H) as [-> ->]. done.
Qed.

Example path_examples :
  Clean "a/../b//c/." = "b/c" ∧ Clean "../../x" = "../../x" ∧ Clean "/../x/" = "/x" ∧
  Clean "" = "." ∧ Clean "a/.." = "." ∧ Base "a/b.deb" = "b.deb" ∧ Base "b/" = "b" ∧ Base "//" = "/".
Proof. vm_compute. repeat split. Qed.

(** * Time

    An instant is a number of nanoseconds on one time line; [ParseRFC3339] is
    [time.Parse(time.RFC3339, value)], about which nothing is assumed.  [time.Time.UTC]
    and [Before] are then the identity and [<], and adding a duration is [+]. *)

Class TimeLib := {
  ParseRFC3339 : string → option Z;
}.

Definition Second : Z := 1000000000.
