(* ===== verification/GoSlices.v ===== *)
(** Go's [sort] package on slices, and the orders the program sorts by.

    [sort.Slice] promises a sorted permutation and leaves the order of equal
    elements open.  [sort_slice] is one such sort; [sort_slice_unique] shows that
    on elements with distinct keys every sorted permutation is the same list, so
    nothing proved here depends on which sort is used. *)

From S2P Require Import Prelude.

Section sorting.
Context {A : Type} (less : A → A → bool).

Fixpoint sort_insert (x : A) (l : list A) : list A :=
  match l with
  | [] => [x]
  | y :: l' => if less y x then y :: sort_insert x l' else x :: l
  end.

Definition sort_slice (l : list A) : list A := foldr sort_insert [] l.

(** [x] may stand before [y]. *)
Definition not_above (x y : A) : Prop := less y x = false.

Lemma sort_insert_perm x l : sort_insert x l ≡ₚ x :: l.
Proof.
  induction l as [|y l IH]; simpl; [done|].
  destruct (less y x); [|done]. rewrite IH. apply Permutation_swap.
Qed.

Lemma sort_slice_perm l : sort_slice l ≡ₚ l.
Proof. induction l as [|x l IH]; simpl; [done|]. by rewrite sort_insert_perm, IH. Qed.

Context (cmp : A → A → comparison) `{!CmpLaws cmp}.
Hypothesis less_spec : ∀ x y, less x y = true ↔ cmp x y = Lt.

Lemma not_above_spec x y : not_above x y ↔ cmp x y ≠ Gt.
Proof.
  unfold not_above. rewrite <- not_true_iff_false, less_spec.
  by rewrite (cmp_lt_gt cmp).
Qed.

Lemma sort_insert_sorted x l :
  StronglySorted not_above l → StronglySorted not_above (sort_insert x l).
Proof.
  induction 1 as [|y l Hl IH Hy]; simpl; [by repeat constructor|].
  destruct (less y x) eqn:E.
  - constructor; [done|]. rewrite sort_insert_perm. constructor; [|done].
    apply not_above_spec. apply less_spec in E. by rewrite E.
  - constructor; [by constructor|]. constructor; [done|].
    eapply Forall_impl; [exact Hy|]. intros z Hz.
    apply not_above_spec. apply (cmp_le_trans cmp x y z); by apply not_above_spec.
Qed.

Lemma sort_slice_sorted l : StronglySorted not_above (sort_slice l).
Proof. induction l; simpl; [constructor|by apply sort_insert_sorted]. Qed.

(** Every sort of a list whose elements have distinct keys is the same list. *)
Lemma sort_slice_unique l k :
  (∀ x y, x ∈ l → y ∈ l → cmp x y = Eq → x = y) →
  StronglySorted not_above k → k ≡ₚ l → sort_slice l = k.
Proof.
  intros Hkey Hk Hp. apply (StronglySorted_unique_strong not_above);
    [|apply sort_slice_sorted|done|by rewrite sort_slice_perm, Hp].
  intros x y Hx Hy. rewrite sort_slice_perm in Hx. rewrite Hp in Hy.
  rewrite !not_above_spec. intros Hxy Hyx. apply Hkey; [done..|].
  rewrite (cmp_antisym cmp x y) in Hyx. by destruct (cmp x y).
Qed.

Lemma sort_slice_perm_eq l k :
  (∀ x y, x ∈ l → y ∈ l → cmp x y = Eq → x = y) →
  l ≡ₚ k → sort_slice l = sort_slice k.
Proof.
  intros Hkey Hp. apply sort_slice_unique; [done|apply sort_slice_sorted|].
  by rewrite sort_slice_perm.
Qed.

(** Sorting a sorted list changes nothing. *)
Lemma sort_insert_min x l : Forall (not_above x) l → sort_insert x l = x :: l.
Proof. destruct 1 as [|y l Hy _]; simpl; [done|]. unfold not_above in Hy. by rewrite Hy. Qed.

Lemma sort_slice_fixed l : StronglySorted not_above l → sort_slice l = l.
Proof.
  induction 1 as [|x l Hl IH Hx]; simpl; [done|]. rewrite IH. by apply sort_insert_min.
Qed.

Lemma sort_slice_idemp l : sort_slice (sort_slice l) = sort_slice l.
Proof. apply sort_slice_fixed, sort_slice_sorted. Qed.
End sorting.

(** ** Orders on strings and on tuples of strings *)

Definition Strings (l : list string) : list string := sort_slice str_ltb l.

Lemma str_ltb_spec x y : str_ltb x y = true ↔ str_cmp x y = Lt.
Proof. unfold str_ltb. by destruct (str_cmp x y). Qed.

(** One rung of a Go comparison ladder,
    [if l != r { return l < r }; return rest]. *)
Definition less_then (l r : string) (rest : bool) : bool :=
  if bool_decide (l = r) then rest else str_ltb l r.

Lemma less_then_spec l r rest c :
  (rest = true ↔ c = Lt) → less_then l r rest = true ↔ cmp_then (str_cmp l r) c = Lt.
Proof.
  intros Hr. unfold less_then. case_bool_decide as E.
  - subst. by rewrite str_cmp_refl.
  - rewrite str_ltb_spec. rewrite <- str_cmp_eq in E. by destruct (str_cmp l r).
Qed.

Lemma cmp_then_eq c d : cmp_then c d = Eq ↔ c = Eq ∧ d = Eq.
Proof. destruct c; simpl; intuition congruence. Qed.

#[export] Instance str_cmp_on_laws {A} (f : A → string) : CmpLaws (λ x y, str_cmp (f x) (f y)).
Proof. apply (cmp_laws_on str_cmp). Qed.

Lemma Strings_perm l : Strings l ≡ₚ l.
Proof. apply sort_slice_perm. Qed.

Lemma Strings_perm_eq l k : l ≡ₚ k → Strings l = Strings k.
Proof.
  apply (sort_slice_perm_eq _ str_cmp str_ltb_spec).
  intros x y _ _. by rewrite str_cmp_eq.
Qed.

Lemma Strings_idemp l : Strings (Strings l) = Strings l.
Proof. apply (sort_slice_idemp _ str_cmp str_ltb_spec). Qed.

(** ** Loops that collect what they have seen

    [seen[x]] is tested and then set, element by element: the loop passes
    exactly when the elements are pairwise distinct and new. *)
Definition all_new {A} `{Countable A} (seen : gset A) (l : list A) : Prop :=
  NoDup l ∧ (∀ x, x ∈ l → x ∉ seen).

Lemma all_new_nil {A} `{Countable A} (seen : gset A) : all_new seen [].
Proof. split; [constructor|]. intros x Hx. by apply elem_of_nil in Hx. Qed.

Lemma all_new_cons {A} `{Countable A} (seen : gset A) x l :
  all_new seen (x :: l) ↔ (x ∉ seen) ∧ all_new ({[x]} ∪ seen) l.
Proof.
  unfold all_new. rewrite NoDup_cons. split.
  - intros [[Hx Hl] Hs]. set_solver.
  - intros [Hx [Hl Hs]]. set_solver.
Qed.

Lemma all_new_empty {A} `{Countable A} (l : list A) : all_new ∅ l ↔ NoDup l.
Proof. unfold all_new. set_solver. Qed.

(** Two keys that identify the same elements are distinct together. *)
Lemma NoDup_fmap_iff {A B C} (f : A → B) (g : A → C) l :
  (∀ x y, x ∈ l → y ∈ l → (f x = f y ↔ g x = g y)) →
  NoDup (f <$> l) ↔ NoDup (g <$> l).
Proof.
  induction l as [|a l IH]; intros Hk; [by split; intros; constructor|].
  rewrite !fmap_cons, !NoDup_cons, IH by eauto using list_elem_of_further.
  assert (f a ∈ f <$> l ↔ g a ∈ g <$> l) as ->; [|done].
  rewrite !list_elem_of_fmap. split; intros (y & E & Hy); exists y; (split; [|done]);
    apply Hk; eauto using list_elem_of_here, list_elem_of_further.
Qed.

Lemma NoDup_fmap_inj_on {A B} (f : A → B) l x y :
  NoDup (f <$> l) → x ∈ l → y ∈ l → f x = f y → x = y.
Proof.
  induction l as [|a l IH]; [by intros _ ?%elem_of_nil|].
  rewrite fmap_cons, NoDup_cons. intros [Ha Hl]. rewrite !elem_of_cons.
  intros [->|Hx] [->|Hy] E; [done| | |by apply IH]; exfalso; apply Ha.
  - rewrite E. by apply list_elem_of_fmap_2.
  - rewrite <- E. by apply list_elem_of_fmap_2.
Qed.

Lemma existsb_spec {A} (p : A → bool) l : existsb p l = true ↔ (∃ x, x ∈ l ∧ p x = true).
Proof.
  rewrite existsb_exists. split; intros (x & Hx & Hp); exists x; (split; [|done]);
    by apply list_elem_of_In.
Qed.

Lemma existsb_spec_false {A} (p : A → bool) l : existsb p l = false ↔ (∀ x, x ∈ l → p x = false).
Proof.
  rewrite <- not_true_iff_false, existsb_spec. split.
  - intros H x Hx. apply not_true_iff_false. intros ?. apply H. eauto.
  - intros H (x & Hx & Hp). by rewrite H in Hp.
Qed.

Lemma elem_of_List_filter {A} (p : A → bool) l x : x ∈ List.filter p l ↔ x ∈ l ∧ p x = true.
Proof. by rewrite !list_elem_of_In, filter_In. Qed.

#[export] Instance List_filter_perm {A} (p : A → bool) : Proper (Permutation ==> Permutation) (List.filter p).
Proof.
  induction 1 as [|x l k _ IH|x y l|l k m _ IH1 _ IH2]; simpl; [done|..].
  - by destruct (p x); [constructor|].
  - destruct (p x), (p y); by repeat constructor.
  - by etrans.
Qed.

Lemma List_filter_NoDup {A} (p : A → bool) l : NoDup l → NoDup (List.filter p l).
Proof.
  induction 1 as [|x l Hx Hl IH]; simpl; [constructor|].
  destruct (p x); [|done]. constructor; [|done]. by intros [? _]%elem_of_List_filter.
Qed.
