(* ===== verification/GoRegexp.v ===== *)
(** A model of Go's [regexp] on the patterns the program compiles.

    Go documents that [FindStringSubmatch] returns the match a backtracking
    engine finds first: alternatives in order, repetitions greedy.  [rmatch] is
    that engine in continuation-passing style, with a progress check in the
    repetition.  [matches] is the language of a pattern, and the file shows that
    the engine finds a match exactly when there is one. *)

From S2P Require Import Prelude GoStrings.

Inductive re :=
| Eps
| Chr (p : ascii → bool)
| Cat (a b : re)
| Alt (a b : re)
| Star (a : re)
| Group (i : nat) (a : re).

Definition Opt (a : re) : re := Alt a Eps.
Definition Plus (a : re) : re := Cat a (Star a).

(** [a{n}] and [a{0,n}]. *)
Fixpoint Times (n : nat) (a : re) : re :=
  match n with O => Eps | S n => Cat a (Times n a) end.
Fixpoint UpTo (n : nat) (a : re) : re :=
  match n with O => Eps | S n => Opt (Cat a (UpTo n a)) end.

Definition Byte (c : ascii) : re := Chr (ascii_eqb c).
Fixpoint Lit (s : string) : re :=
  match s with "" => Eps | String c s => Cat (Byte c) (Lit s) end.

(** The submatches; an unmatched group is the empty string, as in Go. *)
Definition captures := nat → string.
Definition no_captures : captures := λ _, "".
Definition set_capture (i : nat) (s : string) (m : captures) : captures :=
  λ j, if Nat.eqb i j then s else m j.

Section matcher.
Context {R : Type}.

Fixpoint rmatch (r : re) (s : string) (m : captures)
    (k : string → captures → option R) {struct r} : option R :=
  match r with
  | Eps => k s m
  | Chr p => match s with
             | String c s' => if p c then k s' m else None
             | "" => None
             end
  | Cat a b => rmatch a s m (λ s' m', rmatch b s' m' k)
  | Alt a b => match rmatch a s m k with
               | Some x => Some x
               | None => rmatch b s m k
               end
  | Star a =>
      (fix loop (n : nat) (s : string) (m : captures) : option R :=
         match n with
         | O => k s m
         | S n =>
             match rmatch a s m (λ s' m',
               if (String.length s' <? String.length s)%nat then loop n s' m' else None) with
             | Some x => Some x
             | None => k s m
             end
         end) (String.length s) s m
  | Group i a =>
      rmatch a s m (λ s' m',
        k s' (set_capture i (stake (String.length s - String.length s') s) m'))
  end.
End matcher.

(** [^r$]. *)
Definition full_match (r : re) (s : string) : option captures :=
  rmatch r s no_captures (λ s' m, if bool_decide (s' = "") then Some m else None).

Definition MatchFull (r : re) (s : string) : bool :=
  match full_match r s with Some _ => true | None => false end.

(** [r$], unanchored on the left. *)
Fixpoint MatchSuffix (r : re) (s : string) : bool :=
  MatchFull r s || match s with "" => false | String _ s' => MatchSuffix r s' end.

(** [r], unanchored on both sides. *)
Definition MatchPrefix (r : re) (s : string) : bool :=
  match rmatch r s no_captures (λ _ _, Some ()) with Some _ => true | None => false end.
Fixpoint MatchAnywhere (r : re) (s : string) : bool :=
  MatchPrefix r s || match s with "" => false | String _ s' => MatchAnywhere r s' end.

(** ** The language of a pattern *)

Inductive matches : re → string → Prop :=
| m_eps : matches Eps ""
| m_chr p c : p c = true → matches (Chr p) (String c "")
| m_cat a b s t : matches a s → matches b t → matches (Cat a b) (s +:+ t)
| m_alt_l a b s : matches a s → matches (Alt a b) s
| m_alt_r a b s : matches b s → matches (Alt a b) s
| m_star_nil a : matches (Star a) ""
| m_star_cons a s t : matches a s → matches (Star a) t → matches (Star a) (s +:+ t)
| m_group i a s : matches a s → matches (Group i a) s.
#[export] Hint Constructors matches : go.

Section correctness.
Context {R : Type}.
Implicit Types k : string → captures → option R.

Lemma rmatch_sound r s m k x :
  rmatch r s m k = Some x →
  ∃ s1 s2 m', s = s1 +:+ s2 ∧ matches r s1 ∧ k s2 m' = Some x.
Proof.
  revert s m k; induction r as [|p|a IHa b IHb|a IHa b IHb|a IHa|i a IHa]; intros s m k; simpl.
  - intros H. exists "", s, m. eauto with go.
  - destruct s as [|c s]; [done|]. destruct (p c) eqn:E; [|done].
    intros H. exists (String c ""), s, m. eauto with go.
  - intros H. apply IHa in H as (s1 & s2 & m' & -> & Ha & H).
    apply IHb in H as (s3 & s4 & m'' & -> & Hb & H).
    exists (s1 +:+ s3), s4, m''. rewrite str_app_assoc. eauto with go.
  - destruct (rmatch a s m k) eqn:E.
    + intros [= ->]. apply IHa in E as (s1 & s2 & m' & ? & ? & ?).
      exists s1, s2, m'. eauto with go.
    + intros H. apply IHb in H as (s1 & s2 & m' & ? & ? & ?).
      exists s1, s2, m'. eauto with go.
  - generalize (String.length s) as n. intros n. revert s m.
    induction n as [|n IH]; intros s m; [intros H; exists "", s, m; eauto with go|].
    destruct (rmatch a s m _) eqn:E; [|intros H; exists "", s, m; eauto with go].
    intros [= ->]. apply IHa in E as (s1 & s2 & m' & -> & Ha & E).
    destruct (_ <? _)%nat; [|done]. apply IH in E as (s3 & s4 & m'' & -> & Hs & E).
    exists (s1 +:+ s3), s4, m''. rewrite str_app_assoc. eauto with go.
  - intros H. apply IHa in H as (s1 & s2 & m' & -> & Ha & H). eauto 8 with go.
Qed.

(** A star match can drop its empty iterations. *)
Lemma star_progress a s :
  matches (Star a) s → s = "" ∨
  ∃ s1 s2, s = s1 +:+ s2 ∧ s1 ≠ "" ∧ matches a s1 ∧ matches (Star a) s2.
Proof.
  intros H. remember (Star a) as r eqn:E. revert E.
  induction H; intros [= ->]; [by left|].
  destruct s as [|c s]; [by apply IHmatches2|]. right. by exists (String c s), t.
Qed.

Lemma rmatch_complete r s1 :
  matches r s1 → ∀ s2 m k, (∀ m', k s2 m' ≠ None) → rmatch r (s1 +:+ s2) m k ≠ None.
Proof.
  revert s1; induction r as [|p|a IHa b IHb|a IHa b IHb|a IHa|i a IHa]; intros s1 Hm s2 m k Hk.
  - inversion Hm; subst. simpl. apply Hk.
  - inversion Hm as [|? ? Hp| | | | | |]; subst. simpl. rewrite Hp. apply Hk.
  - inversion Hm; subst. rewrite str_app_assoc. simpl. apply IHa; [done|].
    intros m'. by apply IHb.
  - inversion Hm as [| | |? ? ? Ha|? ? ? Hb| | |]; subst; simpl.
    + pose proof (IHa s1 Ha s2 m k Hk). by destruct (rmatch a _ _ _).
    + pose proof (IHb s1 Hb s2 m k Hk). by destruct (rmatch a _ _ _).
  - simpl. remember (String.length (s1 +:+ s2)) as n eqn:En.
    assert (String.length (s1 +:+ s2) ≤ n)%nat as Hn by lia. clear En.
    revert s1 Hm m Hn. induction n as [|n IH]; intros s1 Hm m Hn.
    + destruct s1; [apply Hk|]. rewrite str_app_cons in Hn. simpl in Hn. lia.
    + apply star_progress in Hm as [->|(t1 & t2 & -> & Hne & Ha & Hs)].
      * destruct (rmatch a _ _ _); [done|apply Hk].
      * rewrite str_app_assoc in *. 
        match goal with |- match ?e with _ => _ end ≠ _ => assert (e ≠ None) as He end.
        { apply IHa; [done|]. intros m'.
          assert (0 < String.length t1)%nat by (destruct t1; simpl; [done|lia]).
          rewrite (str_length_app t1) in Hn |- *.
          destruct (Nat.ltb_spec (String.length (t2 +:+ s2))
                      (String.length t1 + String.length (t2 +:+ s2))); [|lia].
          apply IH; [done|lia]. }
        by destruct (rmatch a _ _ _).
  - inversion Hm; subst. simpl. by apply IHa.
Qed.
End correctness.

Lemma MatchFull_spec r s : MatchFull r s = true ↔ matches r s.
Proof.
  unfold MatchFull, full_match. split.
  - destruct (rmatch r s _ _) eqn:E; [|done]. intros _.
    apply rmatch_sound in E as (s1 & s2 & m' & -> & H & E).
    case_bool_decide; [|done]. subst. by rewrite str_app_nil_r.
  - intros H. rewrite <- (str_app_nil_r s).
    pose proof (rmatch_complete r s H "" no_captures
      (λ s' m, if bool_decide (s' = "") then Some m else None)) as Hc.
    destruct (rmatch r _ _ _); [done|]. exfalso. by apply Hc.
Qed.

(** ** Character-class patterns *)

Lemma matches_cat_inv a b s :
  matches (Cat a b) s → ∃ s1 s2, s = s1 +:+ s2 ∧ matches a s1 ∧ matches b s2.
Proof. inversion 1; subst; eauto. Qed.

Lemma matches_chr_inv p s : matches (Chr p) s → ∃ c, s = String c "" ∧ p c = true.
Proof. inversion 1; subst; eauto. Qed.

Lemma matches_star_chr p s : matches (Star (Chr p)) s ↔ all_bytes p s = true.
Proof.
  split.
  - intros H. remember (Star (Chr p)) as r eqn:E. revert E.
    induction H; intros [= ->]; [done|]. inversion H as [|? ? Hp| | | | | |]; subst.
    rewrite str_app_cons. simpl. rewrite Hp. simpl. by apply IHmatches2.
  - induction s as [|c s IH]; simpl; [constructor|].
    intros [Hc Hs]%andb_true_iff.
    change (String c s) with (String c "" +:+ s). eauto with go.
Qed.

Lemma MatchFull_chr_star p q c s :
  MatchFull (Cat (Chr p) (Star (Chr q))) (String c s) = p c && all_bytes q s.
Proof.
  apply eq_true_iff_eq. rewrite MatchFull_spec, andb_true_iff. split.
  - intros H. inversion H as [| |? ? s1 t Hc Hs E1 E2| | | | |]; subst.
    inversion Hc as [|? ? Hp| | | | | |]; subst.
    rewrite str_app_cons in E2. injection E2 as -> <-. split; [done|].
    by apply matches_star_chr in Hs.
  - intros [Hc Hs]. change (String c s) with (String c "" +:+ s).
    apply m_cat; [by constructor|]. by apply matches_star_chr.
Qed.

Lemma MatchFull_chr_star_nil p q : MatchFull (Cat (Chr p) (Star (Chr q))) "" = false.
Proof. done. Qed.

Lemma matches_times p n s :
  matches (Times n (Chr p)) s ↔ String.length s = n ∧ all_bytes p s = true.
Proof.
  revert s; induction n as [|n IH]; intros s; simpl.
  - split; [intros H; by inversion H|]. intros [H _]. destruct s; [constructor|done].
  - split.
    + intros H. inversion H as [| |? ? s1 t Hc Hs| | | | |]; subst.
      inversion Hc as [|? ? Hp| | | | | |]; subst.
      apply IH in Hs as [<- ?]. rewrite str_app_cons. simpl. by rewrite Hp.
    + intros [Hl Hs]. destruct s as [|c s]; [done|]. simpl in *.
      apply andb_true_iff in Hs as [Hc Hs].
      change (String c s) with (String c "" +:+ s). apply m_cat; [by constructor|].
      apply IH. by injection Hl.
Qed.

Lemma matches_upto p n s :
  matches (UpTo n (Chr p)) s ↔ (String.length s ≤ n)%nat ∧ all_bytes p s = true.
Proof.
  revert s; induction n as [|n IH]; intros s; simpl.
  - split; [intros H; by inversion H|]. intros [H _]. destruct s; [constructor|simpl in H; lia].
  - split.
    + intros H. inversion H as [| | |? ? ? Hc|? ? ? Hc| | |]; subst.
      * inversion Hc as [| |? ? s1 t Hc' Hs| | | | |]; subst.
        inversion Hc' as [|? ? Hp| | | | | |]; subst.
        apply IH in Hs as [? ?]. rewrite str_app_cons. change ("" +:+ t) with t. simpl. rewrite Hp. split; [lia|done].
      * inversion Hc; subst. simpl. split; [lia|done].
    + intros [Hl Hs]. destruct s as [|c s]; [apply m_alt_r; constructor|]. simpl in *.
      apply andb_true_iff in Hs as [Hc Hs]. apply m_alt_l.
      change (String c s) with (String c "" +:+ s). apply m_cat; [by constructor|].
      apply IH. split; [lia|done].
Qed.

(** [^[p][q]{0,n}$]. *)
Lemma MatchFull_chr_upto p q n s :
  MatchFull (Cat (Chr p) (UpTo n (Chr q))) s = true ↔
  ∃ c t, s = String c t ∧ p c = true ∧ (String.length t ≤ n)%nat ∧ all_bytes q t = true.
Proof.
  rewrite MatchFull_spec. split.
  - intros (s1 & t & -> & (c & -> & Hc)%matches_chr_inv & [? ?]%matches_upto)%matches_cat_inv.
    by exists c, t.
  - intros (c & t & -> & ? & ? & ?). change (String c t) with (String c "" +:+ t).
    apply m_cat; [by constructor|by apply matches_upto].
Qed.
