(* ===== verification/DebVersion.v ===== *)
(** Debian version ordering: [formats/deb/version.go] and [validVersion] of
    [formats/deb/inspect.go].

    [CompareVersions] walks two versions with nested loops; the loops are
    modelled with fuel, and the file shows that the fuel the entry point passes
    is always enough.  The specification is a key: every version part is read as
    the sequence of the orders of its non-digit bytes and the values of its
    digit runs, and two parts compare as these sequences do, padded with
    zeros. *)

From S2P Require Import Prelude GoStrings.

Open Scope Z_scope.
#[local] Arguments Z.compare : simpl never.

Module Deb.

Definition isDigit (value : ascii) : bool := is_digit value.

Definition versionOrder (value : ascii) : Z :=
  if ascii_eqb value "~" then -1
  else if ascii_eqb value "000" || isDigit value then 0
  else if is_letter value then byte_val value
  else byte_val value + 256.

Definition firstByte (value : string) : ascii :=
  match value with "" => "000"%char | String c _ => c end.

Definition takeDigits (value : string) : string * string := span isDigit value.

Definition compareNumeric (left right : string) : Z :=
  let left := TrimLeft (ascii_eqb "0") left in
  let right := TrimLeft (ascii_eqb "0") right in
  if (String.length left <? String.length right)%nat then -1
  else if (String.length right <? String.length left)%nat then 1
  else if str_ltb left right then -1
  else if str_ltb right left then 1
  else 0.

(** [len(value) != 0 && !isDigit(value[0])]. *)
Definition startsNonDigit (value : string) : bool :=
  match value with "" => false | String c _ => negb (isDigit c) end.

Definition dropNonDigit (value : string) : string :=
  if startsNonDigit value then sdrop 1 value else value.

(** The inner loop: [inl] is its early return, [inr] what it leaves. *)
Fixpoint compareNonDigits (fuel : nat) (left right : string)
  : option (Z + string * string) :=
  match fuel with
  | O => None
  | S fuel =>
      if startsNonDigit left || startsNonDigit right then
        let leftOrder := versionOrder (firstByte left) in
        let rightOrder := versionOrder (firstByte right) in
        if leftOrder <? rightOrder then Some (inl (-1))
        else if rightOrder <? leftOrder then Some (inl 1)
        else compareNonDigits fuel (dropNonDigit left) (dropNonDigit right)
      else Some (inr (left, right))
  end.

(** The outer loop. *)
Fixpoint compareVersionPart_loop (fuel : nat) (left right : string) : option Z :=
  match fuel with
  | O => None
  | S fuel =>
      if bool_decide (left = "") && bool_decide (right = "") then Some 0
      else
        match compareNonDigits (S (String.length left + String.length right)) left right with
        | None => None
        | Some (inl early) => Some early
        | Some (inr (left', right')) =>
            let '(leftDigits, leftRest) := takeDigits left' in
            let '(rightDigits, rightRest) := takeDigits right' in
            let comparison := compareNumeric leftDigits rightDigits in
            if comparison =? 0 then compareVersionPart_loop fuel leftRest rightRest
            else Some comparison
        end
  end.

Definition compareVersionPart (left right : string) : Z :=
  default 0 (compareVersionPart_loop (S (String.length left + String.length right)) left right).

Definition splitVersion (version : string) : string * string * string :=
  let '(epoch, version) :=
    match cut_byte ":" version with
    | Some (epoch, rest) => (TrimPrefix epoch "+", rest)
    | None => ("0", version)
    end in
  match cut_last_byte "-" version with
  | Some (upstream, revision) => (epoch, upstream, revision)
  | None => (epoch, version, "0")
  end.

Definition forbiddenVersionBytes : string :=
  String "000" (String "013" (String "010" (String " " (String "009" "/\")))).

Definition allowedVersionByte (c : ascii) : bool :=
  is_lower c || is_upper c || is_digit c || mem_byte c ".:+~-".

(** The checks [validVersion] makes on what follows the epoch. *)
Definition validRemainder (remainder : string) : bool :=
  match remainder with
  | "" => false
  | String c _ => is_digit c
  end &&
  negb (HasSuffix remainder "-") &&
  match cut_last_byte "-" remainder with
  | Some (_, revision) => negb (mem_byte ":" revision)
  | None => true
  end &&
  all_bytes allowedVersionByte remainder.

Definition validVersion (version : string) : bool :=
  if bool_decide (version = "") || ContainsAny version forbiddenVersionBytes then false
  else
    match cut_byte ":" version with
    | Some (epoch, remainder) =>
        if bool_decide (epoch = "") then false
        else
          let epoch := TrimPrefix epoch "+" in
          if bool_decide (epoch = "") then false
          else match ParseUint epoch 64 with
               | None => false
               | Some _ => validRemainder remainder
               end
    | None => validRemainder version
    end.

Definition CompareVersions (left right : string) : result Z :=
  refuse "invalid Debian version" when negb (validVersion left) || negb (validVersion right);
  let '(leftEpoch, leftUpstream, leftRevision) := splitVersion left in
  let '(rightEpoch, rightUpstream, rightRevision) := splitVersion right in
  let comparison := compareNumeric leftEpoch rightEpoch in
  if negb (comparison =? 0) then Ok comparison
  else
    let comparison := compareVersionPart leftUpstream rightUpstream in
    if negb (comparison =? 0) then Ok comparison
    else Ok (compareVersionPart leftRevision rightRevision).

(** ** Specification *)

(** [partKey num s]: [num] is the value of the digit run being read. *)
Fixpoint partKey (num : option Z) (s : string) : list Z :=
  match s with
  | "" => match num with None => [] | Some n => [n] end
  | String c s' =>
      match num, isDigit c with
      | None, true => 0 :: partKey (Some (digit_val c)) s'
      | Some n, true => partKey (Some (10 * n + digit_val c)) s'
      | None, false => versionOrder c :: partKey None s'
      | Some n, false => n :: versionOrder c :: partKey None s'
      end
  end.

Definition partCmp (left right : string) : comparison :=
  pad_cmp Z.compare 0 (partKey None left) (partKey None right).

Definition versionCmp (left right : string) : comparison :=
  let '(leftEpoch, leftUpstream, leftRevision) := splitVersion left in
  let '(rightEpoch, rightUpstream, rightRevision) := splitVersion right in
  cmp_then (digits_val leftEpoch ?= digits_val rightEpoch)
    (cmp_then (partCmp leftUpstream rightUpstream) (partCmp leftRevision rightRevision)).

(** ** Proofs *)

Lemma compareNumeric_spec left right :
  all_bytes isDigit left = true → all_bytes isDigit right = true →
  compareNumeric left right = c2z (digits_val left ?= digits_val right).
Proof. intros. unfold compareNumeric. by rewrite trimmed_cmp_code, trimmed_cmp_spec. Qed.

Lemma versionOrder_digit c : isDigit c = true → versionOrder c = 0.
Proof.
  intros H. unfold versionOrder. rewrite H, orb_true_r.
  destruct (ascii_eqb c "~") eqn:E; [|done]. by apply ascii_eqb_eq in E as ->.
Qed.

Definition notNul (c : ascii) : bool := negb (ascii_eqb c "000").

Lemma versionOrder_nonzero c :
  isDigit c = false → notNul c = true → versionOrder c ≠ 0.
Proof.
  unfold notNul, versionOrder. intros -> H%negb_true_iff. rewrite H. simpl.
  pose proof (byte_val_bound c).
  assert (byte_val c ≠ 0).
  { intros E. apply ascii_eqb_neq in H. apply H. by apply byte_val_inj. }
  destruct (ascii_eqb c "~"); [lia|]. destruct (is_letter c); lia.
Qed.

Lemma partKey_digits n s :
  partKey (Some n) s =
    digits_val_from n (span isDigit s).1 :: partKey None (span isDigit s).2.
Proof.
  revert n; induction s as [|c s IH]; intros n; [done|]. simpl.
  destruct (isDigit c) eqn:E; [|simpl; by rewrite E].
  rewrite IH. by destruct (span isDigit s).
Qed.

(** A part at the start of a digit run reads as a zero, the run's value and
    the key of what follows. *)
Lemma partKey_run s k :
  startsNonDigit s = false →
  pad_cmp Z.compare 0 (partKey None s) k =
  pad_cmp Z.compare 0 (0 :: digits_val (takeDigits s).1 :: partKey None (takeDigits s).2) k.
Proof.
  destruct s as [|c s].
  - intros _. by destruct k as [|a [|b k]].
  - cbn [startsNonDigit partKey]. rewrite negb_false_iff. intros E.
    rewrite E, partKey_digits. unfold takeDigits. cbn [span]. rewrite E.
    by destruct (span isDigit s).
Qed.

Lemma partKey_run_r s k :
  startsNonDigit s = false →
  pad_cmp Z.compare 0 k (partKey None s) =
  pad_cmp Z.compare 0 k (0 :: digits_val (takeDigits s).1 :: partKey None (takeDigits s).2).
Proof.
  intros H. rewrite !(cmp_antisym (pad_cmp Z.compare 0) _ k). by rewrite partKey_run.
Qed.

(** One turn of the inner loop compares the heads of the two keys. *)
Lemma partCmp_step left right :
  all_bytes notNul left = true → all_bytes notNul right = true →
  startsNonDigit left || startsNonDigit right = true →
  partCmp left right =
    cmp_then (versionOrder (firstByte left) ?= versionOrder (firstByte right))
      (partCmp (dropNonDigit left) (dropNonDigit right)).
Proof.
  unfold partCmp. intros Hl Hr Hs.
  destruct left as [|a left], right as [|b right]; simpl in *; [done|..];
    unfold dropNonDigit; simpl.
  - rewrite Hs. apply negb_true_iff in Hs. rewrite Hs. apply andb_true_iff in Hr as [Hb _].
    by change (versionOrder "000") with 0.
  - rewrite orb_false_r in Hs. rewrite Hs. apply negb_true_iff in Hs. rewrite Hs.
    apply andb_true_iff in Hl as [Ha _].
    by change (versionOrder "000") with 0.
  - apply andb_true_iff in Hl as [Ha _], Hr as [Hb _].
    destruct (isDigit a) eqn:Ea, (isDigit b) eqn:Eb; simpl in *; [done|..].
    + rewrite (versionOrder_digit a Ea). pose proof (versionOrder_nonzero b Eb Hb).
      destruct (Z.compare_spec 0 (versionOrder b)); [congruence|done|done].
    + rewrite (versionOrder_digit b Eb). pose proof (versionOrder_nonzero a Ea Ha).
      destruct (Z.compare_spec (versionOrder a) 0); [congruence|done|done].
    + done.
Qed.

Lemma dropNonDigit_notNul s :
  all_bytes notNul s = true → all_bytes notNul (dropNonDigit s) = true.
Proof.
  unfold dropNonDigit. destruct s as [|c s]; [done|]. simpl.
  destruct (negb (isDigit c)); [|done]. by intros [_ ?]%andb_true_iff.
Qed.

Lemma dropNonDigit_length s :
  String.length (dropNonDigit s) =
    (String.length s - if startsNonDigit s then 1 else 0)%nat.
Proof.
  unfold dropNonDigit. destruct s as [|c s]; simpl; [done|].
  destruct (negb (isDigit c)); simpl; lia.
Qed.

Lemma startsNonDigit_length s : startsNonDigit s = true → (0 < String.length s)%nat.
Proof. destruct s; simpl; [done|lia]. Qed.

(** The inner loop returns early with the comparison, or stops in front of two
    digit runs with the comparison still undecided. *)
Lemma compareNonDigits_spec fuel left right :
  all_bytes notNul left = true → all_bytes notNul right = true →
  (String.length left + String.length right < fuel)%nat →
  match compareNonDigits fuel left right with
  | None => False
  | Some (inl early) => early = c2z (partCmp left right)
  | Some (inr (left', right')) =>
      partCmp left right = partCmp left' right' ∧
      startsNonDigit left' = false ∧ startsNonDigit right' = false ∧
      all_bytes notNul left' = true ∧ all_bytes notNul right' = true ∧
      (String.length left' + String.length right' ≤ String.length left + String.length right)%nat ∧
      (startsNonDigit left || startsNonDigit right = true →
       (String.length left' + String.length right' < String.length left + String.length right)%nat)
  end.
Proof.
  revert left right; induction fuel as [|fuel IH]; intros left right Hl Hr Hf; [lia|].
  simpl. destruct (startsNonDigit left || startsNonDigit right) eqn:Hs.
  - rewrite (partCmp_step left right Hl Hr Hs).
    destruct (Z.ltb_spec (versionOrder (firstByte left)) (versionOrder (firstByte right))).
    { by rewrite (proj2 (Z.compare_lt_iff _ _)). }
    destruct (Z.ltb_spec (versionOrder (firstByte right)) (versionOrder (firstByte left))).
    { by rewrite (proj2 (Z.compare_gt_iff _ _)). }
    rewrite (proj2 (Z.compare_eq_iff _ _)) by lia. simpl.
    assert (String.length (dropNonDigit left) + String.length (dropNonDigit right)
            < String.length left + String.length right)%nat as Hlt.
    { rewrite !dropNonDigit_length. pose proof (startsNonDigit_length left).
      pose proof (startsNonDigit_length right).
      destruct (startsNonDigit left), (startsNonDigit right); simpl in *; try done; lia. }
    specialize (IH (dropNonDigit left) (dropNonDigit right)
                  (dropNonDigit_notNul _ Hl) (dropNonDigit_notNul _ Hr) ltac:(lia)).
    destruct (compareNonDigits fuel _ _) as [[early|[l' r']]|]; [done| |done].
    destruct IH as (-> & ? & ? & ? & ? & ? & _). repeat split; try done; lia.
  - apply orb_false_iff in Hs as [? ?]. repeat split; [done..|lia|].
    destruct (startsNonDigit left), (startsNonDigit right); done.
Qed.

Lemma takeDigits_progress s :
  startsNonDigit s = false → s ≠ "" →
  (String.length (takeDigits s).2 < String.length s)%nat.
Proof.
  destruct s as [|c s]; [done|]. unfold takeDigits. cbn [startsNonDigit span String.length]. rewrite negb_false_iff. intros E _. rewrite E.
  pose proof (span_length isDigit s). destruct (span isDigit s). simpl in *. lia.
Qed.

Lemma takeDigits_length s : (String.length (takeDigits s).2 ≤ String.length s)%nat.
Proof. pose proof (span_length isDigit s). unfold takeDigits. lia. Qed.

Lemma compareVersionPart_loop_spec fuel left right :
  all_bytes notNul left = true → all_bytes notNul right = true →
  (String.length left + String.length right < fuel)%nat →
  compareVersionPart_loop fuel left right = Some (c2z (partCmp left right)).
Proof.
  revert left right; induction fuel as [|fuel IH]; intros left right Hl Hr Hf; [lia|].
  cbn [compareVersionPart_loop].
  destruct (bool_decide (left = "") && bool_decide (right = "")) eqn:Hb.
  { apply andb_true_iff in Hb as [->%bool_decide_eq_true ->%bool_decide_eq_true]. done. }
  pose proof (compareNonDigits_spec (S (String.length left + String.length right))
                left right Hl Hr ltac:(lia)) as Hin.
  destruct (compareNonDigits _ left right) as [[early|[l' r']]|]; [by subst| |done].
  destruct Hin as (-> & Hsl & Hsr & Hl' & Hr' & Hle & Hlt).
  assert (String.length (takeDigits l').2 + String.length (takeDigits r').2 < fuel)%nat as Hfuel.
  { pose proof (takeDigits_length l'). pose proof (takeDigits_length r').
    pose proof (takeDigits_progress l' Hsl). pose proof (takeDigits_progress r' Hsr).
    destruct (decide (l' = "")), (decide (r' = "")); [subst; simpl in *|naive_solver lia..].
    destruct left, right; simpl in *; [done|lia..]. }
  unfold partCmp. rewrite partKey_run, partKey_run_r by done.
  pose proof (span_all isDigit l'). pose proof (span_all isDigit r').
  pose proof (all_bytes_span_rest isDigit notNul l' Hl').
  pose proof (all_bytes_span_rest isDigit notNul r' Hr').
  unfold takeDigits in *.
  destruct (span isDigit l') as [ld lr], (span isDigit r') as [rd rr]. simpl in *.
  rewrite compareNumeric_spec by done.
  destruct (digits_val ld ?= digits_val rd); simpl; [|done..].
  by rewrite IH.
Qed.

Lemma compareVersionPart_spec left right :
  all_bytes notNul left = true → all_bytes notNul right = true →
  compareVersionPart left right = c2z (partCmp left right).
Proof. intros. unfold compareVersionPart. rewrite compareVersionPart_loop_spec by (done || lia). done. Qed.

#[export] Instance partCmp_laws : CmpLaws partCmp.
Proof. apply (cmp_laws_on (pad_cmp Z.compare 0)). Qed.

#[export] Instance versionCmp_laws : CmpLaws versionCmp.
Proof.
  pose proof (cmp_laws_on Z.compare (λ v, digits_val (splitVersion v).1.1)) as He.
  pose proof (cmp_laws_on partCmp (λ v, (splitVersion v).1.2)) as Hu.
  pose proof (cmp_laws_on partCmp (λ v, (splitVersion v).2)) as Hr.
  pose proof (cmp_then_laws _ _ He (cmp_then_laws _ _ Hu Hr)) as [Ha Ht].
  assert (∀ l r, versionCmp l r =
    cmp_then (digits_val (splitVersion l).1.1 ?= digits_val (splitVersion r).1.1)
      (cmp_then (partCmp (splitVersion l).1.2 (splitVersion r).1.2)
         (partCmp (splitVersion l).2 (splitVersion r).2))) as E.
  { intros l r. unfold versionCmp.
    by destruct (splitVersion l) as [[? ?] ?], (splitVersion r) as [[? ?] ?]. }
  split; intros *; rewrite !E; [apply Ha|apply Ht].
Qed.

(** A valid version holds no NUL byte, and its epoch is a run of digits. *)
Lemma validVersion_parts v :
  validVersion v = true →
  all_bytes isDigit (splitVersion v).1.1 = true ∧
  all_bytes notNul (splitVersion v).1.2 = true ∧
  all_bytes notNul (splitVersion v).2 = true.
Proof.
  unfold validVersion, splitVersion.
  destruct (bool_decide (v = "") || ContainsAny v forbiddenVersionBytes) eqn:E; [done|].
  apply orb_false_iff in E as [_ Hn].
  apply (ContainsAny_false _ _ notNul) in Hn; [|by intros c Hc; unfold notNul;
    simpl in Hc; destruct (decide (c = "000"%char)) as [->|?]; [done|];
    rewrite negb_true_iff; apply ascii_eqb_neq].
  destruct (cut_byte ":" v) as [[epoch rest]|] eqn:Hc.
  - destruct (cut_byte_all notNul _ _ _ _ Hc Hn) as [_ Hrest].
    destruct (bool_decide (epoch = "")); [done|].
    destruct (bool_decide (TrimPrefix epoch "+" = "")); [done|].
    destruct (ParseUint (TrimPrefix epoch "+") 64) eqn:Hp; [|done]. intros _.
    apply ParseUint_some in Hp as (Hd & _).
    destruct (cut_last_byte "-" rest) as [[u r]|] eqn:Hl; [|done].
    by destruct (cut_last_byte_all notNul _ _ _ _ Hl Hrest).
  - intros _. destruct (cut_last_byte "-" v) as [[u r]|] eqn:Hl; [|done].
    by destruct (cut_last_byte_all notNul _ _ _ _ Hl Hn).
Qed.

Lemma deb_CompareVersions_valid left right :
  validVersion left = true → validVersion right = true →
  CompareVersions left right = Ok (c2z (versionCmp left right)).
Proof.
  intros Hl Hr. unfold CompareVersions. rewrite Hl, Hr. simpl.
  destruct (validVersion_parts left Hl) as (? & ? & ?).
  destruct (validVersion_parts right Hr) as (? & ? & ?).
  unfold versionCmp.
  destruct (splitVersion left) as [[le lu] lr], (splitVersion right) as [[re ru] rr].
  simpl in *. rewrite compareNumeric_spec, !compareVersionPart_spec by done.
  destruct (digits_val le ?= digits_val re); simpl; [|done..].
  by destruct (partCmp lu ru).
Qed.

#[export] Instance CompareVersions_lawful : LawfulComparator CompareVersions := {|
  comparable v := validVersion v = true;
  version_cmp := versionCmp;
  version_cmp_laws := versionCmp_laws;
  compare_spec := deb_CompareVersions_valid;
|}.

(** ** Properties *)

(** C36: [CompareVersions] refuses exactly the pairs with an invalid version
    and otherwise returns the reference order: epochs as numbers, then the
    upstream and the revision by their zero-padded keys. *)
Theorem deb_compare_reference left right :
  CompareVersions left right =
    if validVersion left && validVersion right
    then Ok (c2z (versionCmp left right)) else Err "invalid Debian version".
Proof.
  destruct (validVersion left) eqn:Hl, (validVersion right) eqn:Hr; simpl;
    [by apply deb_CompareVersions_valid|..]; unfold CompareVersions; by rewrite Hl, ?Hr.
Qed.

(** On valid versions [CompareVersions] always answers, and its answers
    are those of a total preorder. *)
Theorem deb_total_preorder :
  TotalPreorderOn (λ v, validVersion v = true) CompareVersions.
Proof. exact (lawful_total_preorder CompareVersions). Qed.

Lemma partKey_tilde num s t :
  partKey num (s +:+ String "~" t) = partKey num s ++ -1 :: partKey None t.
Proof.
  revert num; induction s as [|c s IH]; intros num; [by destruct num|].
  rewrite str_app_cons. cbn [partKey]. by destruct num, (isDigit c); rewrite IH.
Qed.

Lemma pad_cmp_app_l l a :
  pad_cmp Z.compare 0 (l ++ a) l = pad_cmp Z.compare 0 a [].
Proof.
  induction l as [|x l IH]; [by destruct a|]. simpl. by rewrite Z.compare_refl.
Qed.

(** Inside a version part a tilde sorts below the end of the part, so a
    prerelease suffix ["~..."] always lowers the part it is appended to. *)
Theorem deb_tilde_below s t :
  all_bytes notNul (s +:+ String "~" t) = true →
  compareVersionPart (s +:+ String "~" t) s = -1.
Proof.
  intros H. pose proof H as Hs. rewrite all_bytes_app in Hs. apply andb_true_iff in Hs as [Hs _].
  rewrite compareVersionPart_spec by done. unfold partCmp.
  by rewrite partKey_tilde, pad_cmp_app_l.
Qed.

Lemma deb_tilde_below_witness :
  all_bytes notNul ("1.0" +:+ String "~" "rc1") = true ∧ compareVersionPart "1.0~rc1" "1.0" = -1.
Proof.
  split; [vm_compute; reflexivity|].
  apply (deb_tilde_below "1.0" "rc1"). vm_compute; reflexivity.
Defined.

Example deb_examples :
  CompareVersions "1:1.0-1" "2.0-1" = Ok 1 ∧ CompareVersions "1.10" "1.9" = Ok 1 ∧
  CompareVersions "1.0" "1.0-0" = Ok 0 ∧ CompareVersions "1.0+b1" "1.0a" = Ok 1 ∧
  CompareVersions "v1" "1" = Err "invalid Debian version".
Proof. vm_compute. repeat split. Qed.

End Deb.
