(* ===== verification/RpmVersion.v ===== *)
(** RPM version ordering: [formats/rpm/version.go].

    [CompareSegments] is rpmvercmp.  Its loop is modelled with fuel, and the
    specification reads each string as a list of tokens in which the end of the
    string is a token of its own, between the tilde and the caret. *)

From S2P Require Import Prelude GoStrings.

Open Scope Z_scope.
#[local] Arguments Z.compare : simpl never.

Module Rpm.

Definition isDigit (character : ascii) : bool := is_digit character.
Definition isAlpha (character : ascii) : bool := is_lower character || is_upper character.

Definition takeWhile (value : string) (accept : ascii → bool) : string * string :=
  span accept value.

Definition isSeparator (c : ascii) : bool :=
  negb (isDigit c) && negb (isAlpha c) && negb (ascii_eqb c "~") && negb (ascii_eqb c "^").

Definition trimSeparators (value : string) : string := TrimLeft isSeparator value.

(** How one turn of the loop ends: [return], [continue] or [break]. *)
Inductive turn :=
| Return (z : Z)
| Continue (one two : string)
| Break (one two : string).

Definition compareSegmentPair (numeric : bool) (segmentOne segmentTwo : string) : option Z :=
  let compared (a b : string) :=
    let result := c2z (str_cmp a b) in if result =? 0 then None else Some result in
  if numeric then
    let segmentOne := TrimLeft (ascii_eqb "0") segmentOne in
    let segmentTwo := TrimLeft (ascii_eqb "0") segmentTwo in
    if negb (String.length segmentOne =? String.length segmentTwo)%nat then
      if (String.length segmentTwo <? String.length segmentOne)%nat then Some 1 else Some (-1)
    else compared segmentOne segmentTwo
  else compared segmentOne segmentTwo.

(** The loop body of [CompareSegments], on trimmed strings. *)
Definition segmentTurn (one two : string) : turn :=
  if HasPrefix one "~" || HasPrefix two "~" then
    if negb (HasPrefix one "~") then Return 1
    else if negb (HasPrefix two "~") then Return (-1)
    else Continue (sdrop 1 one) (sdrop 1 two)
  else if HasPrefix one "^" || HasPrefix two "^" then
    if bool_decide (one = "") then Return (-1)
    else if bool_decide (two = "") then Return 1
    else if negb (HasPrefix one "^") then Return 1
    else if negb (HasPrefix two "^") then Return (-1)
    else Continue (sdrop 1 one) (sdrop 1 two)
  else
    match one with
    | "" => Break one two
    | String c _ =>
        if bool_decide (two = "") then Break one two
        else
          let numeric := isDigit c in
          let accept := if numeric then isDigit else isAlpha in
          let '(segmentOne, one') := takeWhile one accept in
          let '(segmentTwo, two') := takeWhile two accept in
          if bool_decide (segmentTwo = "") then
            if numeric then Return 1 else Return (-1)
          else match compareSegmentPair numeric segmentOne segmentTwo with
               | Some result => Return result
               | None => Continue one' two'
               end
    end.

(** The [switch] after the loop. *)
Definition segmentRemainder (one two : string) : Z :=
  if bool_decide (one = "") && bool_decide (two = "") then 0
  else if bool_decide (one = "") then -1
  else 1.

Fixpoint CompareSegments_loop (fuel : nat) (one two : string) : option Z :=
  match fuel with
  | O => None
  | S fuel =>
      if bool_decide (one = "") && bool_decide (two = "") then Some (segmentRemainder one two)
      else match segmentTurn (trimSeparators one) (trimSeparators two) with
           | Return z => Some z
           | Continue one two => CompareSegments_loop fuel one two
           | Break one two => Some (segmentRemainder one two)
           end
  end.

(** A loop that ran out of its bound is an answer of its own, [loopBound], so
    that a theorem that names the answer also says that the loop ends. *)
Definition loopBound : string := "the segment loop did not end".

Definition CompareSegments (left right : string) : result Z :=
  if bool_decide (left = right) then Ok 0
  else match CompareSegments_loop (S (String.length left + String.length right)) left right with
       | Some result => Ok result
       | None => Err loopBound
       end.

Definition splitEVR (value : string) : result (Z * string * string) :=
  refuse "rpm version is empty" when bool_decide (value = "");
  '(epoch, value) ←
     match cut_byte ":" value with
     | Some (prefix, rest) =>
         match ParseInt prefix 32 with
         | Some parsed =>
             if parsed <? 0 then Err "rpm version %q has an invalid epoch" else Ok (parsed, rest)
         | None => Err "rpm version %q has an invalid epoch"
         end
     | None => Ok (0, value)
     end;
  let '(version, release) :=
    match cut_byte "-" value with
    | Some (version, release) => (version, release)
    | None => (value, "")
    end in
  refuse "rpm version %q has no version part" when bool_decide (version = "");
  Ok (epoch, version, release).

Definition CompareVersions (left right : string) : result Z :=
  '(leftEpoch, leftVersion, leftRelease) ← splitEVR left;
  '(rightEpoch, rightVersion, rightRelease) ← splitEVR right;
  if negb (leftEpoch =? rightEpoch) then
    if leftEpoch <? rightEpoch then Ok (-1) else Ok 1
  else
    result ← CompareSegments leftVersion rightVersion;
    if negb (result =? 0) then Ok result
    else CompareSegments leftRelease rightRelease.

(** ** Specification *)

Inductive token :=
| Tilde
| End
| Caret
| Alpha (letters : string)
| Number (n : Z).

Definition rank (t : token) : Z :=
  match t with Tilde => 0 | End => 1 | Caret => 2 | Alpha _ => 3 | Number _ => 4 end.

Definition letters_of (t : token) : string := match t with Alpha s => s | _ => "" end.
Definition number_of (t : token) : Z := match t with Number n => n | _ => 0 end.

Definition token_cmp (a b : token) : comparison :=
  cmp_then (rank a ?= rank b)
    (cmp_then (str_cmp (letters_of a) (letters_of b)) (number_of a ?= number_of b)).

(** The run of digits or letters being read. *)
Inductive reading := Nothing | InNumber (n : Z) | InAlpha (s : string).

Definition flushRun (r : reading) : list token :=
  match r with Nothing => [] | InNumber n => [Number n] | InAlpha s => [Alpha s] end.

Fixpoint tokens (r : reading) (s : string) : list token :=
  match s with
  | "" => flushRun r ++ [End]
  | String c s' =>
      if isDigit c then
        match r with
        | InNumber n => tokens (InNumber (10 * n + digit_val c)) s'
        | _ => flushRun r ++ tokens (InNumber (digit_val c)) s'
        end
      else if isAlpha c then
        match r with
        | InAlpha t => tokens (InAlpha (t +:+ String c "")) s'
        | _ => flushRun r ++ tokens (InAlpha (String c "")) s'
        end
      else flushRun r ++
           (if ascii_eqb c "~" then Tilde :: tokens Nothing s'
            else if ascii_eqb c "^" then Caret :: tokens Nothing s'
            else tokens Nothing s')
  end.

Definition segmentsCmp (left right : string) : comparison :=
  list_cmp token_cmp (tokens Nothing left) (tokens Nothing right).

(** ** Proofs *)

#[export] Instance token_cmp_laws : CmpLaws token_cmp.
Proof.
  apply (cmp_then_laws _ _ (cmp_laws_on Z.compare rank)
           (cmp_then_laws _ _ (cmp_laws_on str_cmp letters_of)
              (cmp_laws_on Z.compare number_of))).
Qed.

#[export] Instance segmentsCmp_laws : CmpLaws segmentsCmp.
Proof. apply (cmp_laws_on (list_cmp token_cmp)). Qed.

Lemma tokens_number n s :
  tokens (InNumber n) s =
    Number (digits_val_from n (span isDigit s).1) :: tokens Nothing (span isDigit s).2.
Proof.
  revert n; induction s as [|c s IH]; intros n; [done|].
  cbn [tokens span]. destruct (isDigit c) eqn:E.
  - rewrite IH. by destruct (span isDigit s).
  - cbn [fst snd tokens flushRun app]. rewrite E. by destruct (isAlpha c).
Qed.

Lemma alpha_not_digit c : isAlpha c = true → isDigit c = false.
Proof.
  unfold isAlpha, isDigit, is_lower, is_upper, is_digit, byte_between.
  change (byte_val "a") with 97. change (byte_val "z") with 122.
  change (byte_val "A") with 65. change (byte_val "Z") with 90.
  change (byte_val "0") with 48. change (byte_val "9") with 57.
  destruct (Z.leb_spec 97 (byte_val c)), (Z.leb_spec 65 (byte_val c)),
    (Z.leb_spec (byte_val c) 57); simpl; try done; try lia; by rewrite andb_false_r.
Qed.

Lemma tokens_alpha t s :
  tokens (InAlpha t) s =
    Alpha (t +:+ (span isAlpha s).1) :: tokens Nothing (span isAlpha s).2.
Proof.
  revert t; induction s as [|c s IH]; intros t; [cbn; by rewrite str_app_nil_r|].
  cbn [tokens span]. destruct (isAlpha c) eqn:E.
  - rewrite (alpha_not_digit c E), IH. destruct (span isAlpha s). cbn [fst snd].
    by rewrite str_app_assoc.
  - cbn [fst snd]. rewrite str_app_nil_r. cbn [tokens flushRun app]. rewrite E.
    by destruct (isDigit c).
Qed.

Lemma tokens_trim s : tokens Nothing (trimSeparators s) = tokens Nothing s.
Proof.
  unfold trimSeparators, TrimLeft. induction s as [|c s IH]; [done|].
  cbn [span]. destruct (isSeparator c) eqn:E; [|done].
  transitivity (tokens Nothing s); [by destruct (span isSeparator s)|].
  unfold isSeparator in E. split_bools. cbn [tokens flushRun app].
  by repeat match goal with H : _ = false |- _ => rewrite H; clear H end.
Qed.

(** What a trimmed string starts with. *)
Inductive trimmed : string → Prop :=
| trimmed_nil : trimmed ""
| trimmed_tilde s : trimmed (String "~" s)
| trimmed_caret s : trimmed (String "^" s)
| trimmed_digit c s : isDigit c = true → trimmed (String c s)
| trimmed_alpha c s : isAlpha c = true → trimmed (String c s).

Lemma trimSeparators_trimmed s : trimmed (trimSeparators s).
Proof.
  unfold trimSeparators, TrimLeft.
  destruct (span_rest isSeparator s) as [->|(c & t & -> & H)]; [constructor|].
  unfold isSeparator in H.
  destruct (isDigit c) eqn:?; [by constructor|]. destruct (isAlpha c) eqn:?; [by constructor|].
  destruct (ascii_eqb c "~") eqn:E; [apply ascii_eqb_eq in E as ->; constructor|].
  destruct (ascii_eqb c "^") eqn:E'; [apply ascii_eqb_eq in E' as ->; constructor|done].
Qed.

Lemma trimSeparators_length s : (String.length (trimSeparators s) ≤ String.length s)%nat.
Proof. unfold trimSeparators, TrimLeft. pose proof (span_length isSeparator s). lia. Qed.

Lemma digit_prefix c s : isDigit c = true →
  HasPrefix (String c s) "~" = false ∧ HasPrefix (String c s) "^" = false.
Proof. intros H. simpl. rewrite !andb_true_r. split; apply ascii_eqb_neq; by intros ->. Qed.

Lemma alpha_prefix c s : isAlpha c = true →
  HasPrefix (String c s) "~" = false ∧ HasPrefix (String c s) "^" = false.
Proof. intros H. simpl. rewrite !andb_true_r. split; apply ascii_eqb_neq; by intros ->. Qed.

Lemma tokens_digit_run c s : isDigit c = true →
  tokens Nothing (String c s) =
    Number (digits_val (span isDigit (String c s)).1)
      :: tokens Nothing (span isDigit (String c s)).2.
Proof.
  intros H. cbn [tokens span]. rewrite H. cbn [flushRun app]. rewrite tokens_number.
  by destruct (span isDigit s).
Qed.

Lemma tokens_alpha_run c s : isAlpha c = true →
  tokens Nothing (String c s) =
    Alpha (span isAlpha (String c s)).1 :: tokens Nothing (span isAlpha (String c s)).2.
Proof.
  intros H. cbn [tokens span]. rewrite H, (alpha_not_digit c H). cbn [flushRun app].
  rewrite tokens_alpha. by destruct (span isAlpha s).
Qed.

Lemma compareSegmentPair_number one two :
  all_bytes isDigit one = true → all_bytes isDigit two = true →
  compareSegmentPair true one two =
    match digits_val one ?= digits_val two with Eq => None | c => Some (c2z c) end.
Proof.
  intros H1 H2. rewrite <- (trimmed_cmp_spec one two H1 H2). unfold compareSegmentPair, trimmed_cmp.
  set (l := TrimLeft _ one). set (r := TrimLeft _ two). clearbody l r.
  destruct (Nat.eqb_spec (String.length l) (String.length r)) as [E|E].
  - rewrite E, Z.compare_refl. simpl. by destruct (str_cmp l r).
  - simpl. destruct (Nat.ltb_spec (String.length r) (String.length l)),
      (Z.compare_spec (Z.of_nat (String.length l)) (Z.of_nat (String.length r)));
      simpl; try done; lia.
Qed.

Lemma compareSegmentPair_alpha one two :
  compareSegmentPair false one two =
    match str_cmp one two with Eq => None | c => Some (c2z c) end.
Proof. unfold compareSegmentPair. by destruct (str_cmp one two). Qed.

Lemma tokens_nil : tokens Nothing "" = [End].
Proof. done. Qed.
Lemma tokens_tilde s : tokens Nothing (String "~" s) = Tilde :: tokens Nothing s.
Proof. done. Qed.
Lemma tokens_caret s : tokens Nothing (String "^" s) = Caret :: tokens Nothing s.
Proof. done. Qed.

(** The head of the token list of a trimmed string. *)
Ltac token_heads :=
  repeat first
    [ rewrite tokens_nil | rewrite tokens_tilde | rewrite tokens_caret
    | rewrite tokens_digit_run by done | rewrite tokens_alpha_run by done ].

Ltac prefixes :=
  repeat match goal with
  | H : isDigit ?c = true |- context [HasPrefix (String ?c ?s) _] =>
      rewrite (proj1 (digit_prefix c s H)), (proj2 (digit_prefix c s H))
  | H : isAlpha ?c = true |- context [HasPrefix (String ?c ?s) _] =>
      rewrite (proj1 (alpha_prefix c s H)), (proj2 (alpha_prefix c s H))
  end.

Definition turn_ok (one two : string) (t : turn) : Prop :=
  match t with
  | Return z => z = c2z (segmentsCmp one two)
  | Continue one' two' =>
      segmentsCmp one two = segmentsCmp one' two' ∧
      (String.length one' + String.length two' < String.length one + String.length two)%nat
  | Break one' two' => segmentRemainder one' two' = c2z (segmentsCmp one two)
  end.

(** Two segments of the same kind. *)
Lemma segmentTurn_digits a one b two :
  isDigit a = true → isDigit b = true →
  turn_ok (String a one) (String b two) (segmentTurn (String a one) (String b two)).
Proof.
  intros Ha Hb. unfold segmentTurn. prefixes. cbn [orb]. rewrite Ha.
  rewrite bool_decide_eq_false_2 by done. unfold takeWhile.
  pose proof (span_cons_true isDigit a one Ha) as Lo.
  pose proof (span_cons_true isDigit b two Hb) as Lt.
  pose proof (span_all isDigit (String a one)) as Ao.
  pose proof (span_all isDigit (String b two)) as At.
  assert (segmentsCmp (String a one) (String b two) =
    cmp_then (digits_val (span isDigit (String a one)).1 ?= digits_val (span isDigit (String b two)).1)
      (segmentsCmp (span isDigit (String a one)).2 (span isDigit (String b two)).2)) as E.
  { unfold segmentsCmp. token_heads. done. }
  assert ((span isDigit (String b two)).1 ≠ "") as Hne.
  { cbn [span]. rewrite Hb. by destruct (span isDigit two). }
  destruct (span isDigit (String a one)) as [so ro], (span isDigit (String b two)) as [st rt].
  cbn [fst snd] in *. rewrite bool_decide_eq_false_2 by done.
  rewrite compareSegmentPair_number by done.
  destruct (digits_val so ?= digits_val st); cbn [turn_ok]; rewrite E; [|done..].
  split; [done|]. cbn [String.length]. lia.
Qed.

Lemma segmentTurn_alphas a one b two :
  isAlpha a = true → isAlpha b = true →
  turn_ok (String a one) (String b two) (segmentTurn (String a one) (String b two)).
Proof.
  intros Ha Hb. unfold segmentTurn. prefixes. cbn [orb]. rewrite (alpha_not_digit a Ha).
  rewrite bool_decide_eq_false_2 by done. unfold takeWhile.
  pose proof (span_cons_true isAlpha a one Ha) as Lo.
  pose proof (span_cons_true isAlpha b two Hb) as Lt.
  assert (segmentsCmp (String a one) (String b two) =
    cmp_then (str_cmp (span isAlpha (String a one)).1 (span isAlpha (String b two)).1)
      (segmentsCmp (span isAlpha (String a one)).2 (span isAlpha (String b two)).2)) as E.
  { unfold segmentsCmp. token_heads. cbn [list_cmp]. unfold token_cmp. simpl rank. simpl letters_of.
    simpl number_of. rewrite Z.compare_refl. simpl. rewrite Z.compare_refl.
    by destruct (str_cmp _ _). }
  assert ((span isAlpha (String b two)).1 ≠ "") as Hne.
  { cbn [span]. rewrite Hb. by destruct (span isAlpha two). }
  destruct (span isAlpha (String a one)) as [so ro], (span isAlpha (String b two)) as [st rt].
  cbn [fst snd] in *. rewrite bool_decide_eq_false_2 by done.
  rewrite compareSegmentPair_alpha.
  destruct (str_cmp so st); cbn [turn_ok]; rewrite E; [|done..].
  split; [done|]. cbn [String.length]. lia.
Qed.

(** Segments of different kinds. *)
Lemma segmentTurn_mixed a one b two :
  isDigit a = true → isAlpha b = true →
  turn_ok (String a one) (String b two) (segmentTurn (String a one) (String b two)) ∧
  turn_ok (String b two) (String a one) (segmentTurn (String b two) (String a one)).
Proof.
  intros Ha Hb. pose proof (alpha_not_digit b Hb) as Hb'.
  assert (isAlpha a = false) as Ha'.
  { destruct (isAlpha a) eqn:E; [|done]. by rewrite (alpha_not_digit a E) in Ha. }
  unfold segmentTurn. prefixes. cbn [orb]. rewrite Ha, Hb'.
  rewrite !bool_decide_eq_false_2 by done. unfold takeWhile.
  rewrite (span_cons_false isDigit b two Hb'), (span_cons_false isAlpha a one Ha').
  destruct (span isDigit (String a one)) as [so ro] eqn:E1.
  destruct (span isAlpha (String b two)) as [st rt] eqn:E2.
  rewrite bool_decide_eq_true_2 by done.
  split; cbn [turn_ok]; unfold segmentsCmp; token_heads; done.
Qed.

Lemma segmentTurn_spec one two :
  trimmed one → trimmed two → turn_ok one two (segmentTurn one two).
Proof.
  intros Ho Ht. destruct Ho, Ht;
    try (by apply segmentTurn_digits); try (by apply segmentTurn_alphas);
    try (by apply (proj1 (segmentTurn_mixed _ _ _ _ ltac:(eassumption) ltac:(eassumption))));
    try (by apply (proj2 (segmentTurn_mixed _ _ _ _ ltac:(eassumption) ltac:(eassumption))));
    unfold segmentTurn; prefixes; simpl HasPrefix; simpl orb; cbv iota; simpl negb; cbv iota;
    repeat (rewrite bool_decide_eq_false_2 by done);
    repeat (rewrite bool_decide_eq_true_2 by done);
    cbn [turn_ok]; unfold segmentRemainder;
    repeat (rewrite bool_decide_eq_false_2 by done);
    repeat (rewrite bool_decide_eq_true_2 by done);
    unfold segmentsCmp; token_heads; try done;
    (split; [done|simpl; lia]).
Qed.

Lemma CompareSegments_loop_spec fuel one two :
  (String.length one + String.length two < fuel)%nat →
  CompareSegments_loop fuel one two = Some (c2z (segmentsCmp one two)).
Proof.
  revert one two; induction fuel as [|fuel IH]; intros one two Hf; [lia|].
  cbn [CompareSegments_loop].
  destruct (bool_decide (one = "") && bool_decide (two = "")) eqn:E.
  { apply andb_true_iff in E as [->%bool_decide_eq_true ->%bool_decide_eq_true]. done. }
  pose proof (segmentTurn_spec _ _ (trimSeparators_trimmed one) (trimSeparators_trimmed two)) as Ht.
  pose proof (trimSeparators_length one). pose proof (trimSeparators_length two).
  assert (segmentsCmp (trimSeparators one) (trimSeparators two) = segmentsCmp one two) as Htrim.
  { unfold segmentsCmp. by rewrite !tokens_trim. }
  destruct (segmentTurn _ _) as [z|one' two'|one' two']; cbn [turn_ok] in Ht;
    rewrite Htrim in Ht; [by rewrite Ht| |by rewrite Ht].
  destruct Ht as [-> ?]. apply IH. lia.
Qed.

Lemma CompareSegments_spec left right :
  CompareSegments left right = Ok (c2z (segmentsCmp left right)).
Proof.
  unfold CompareSegments. case_bool_decide as E.
  - subst. by rewrite (cmp_refl segmentsCmp).
  - by rewrite CompareSegments_loop_spec by lia.
Qed.

(** [splitEVR] as a total function on the versions it accepts. *)
Definition evr (v : string) : Z * string * string :=
  match splitEVR v with Ok t => t | Err _ => (0, "", "") end.

Definition versionCmp (left right : string) : comparison :=
  cmp_then ((evr left).1.1 ?= (evr right).1.1)
    (cmp_then (segmentsCmp (evr left).1.2 (evr right).1.2)
       (segmentsCmp (evr left).2 (evr right).2)).

#[export] Instance versionCmp_laws : CmpLaws versionCmp.
Proof.
  apply (cmp_then_laws _ _ (cmp_laws_on Z.compare (λ v, (evr v).1.1))
           (cmp_then_laws _ _ (cmp_laws_on segmentsCmp (λ v, (evr v).1.2))
              (cmp_laws_on segmentsCmp (λ v, (evr v).2)))).
Qed.

Lemma rpm_CompareVersions_valid left right :
  is_ok (splitEVR left) = true → is_ok (splitEVR right) = true →
  CompareVersions left right = Ok (c2z (versionCmp left right)).
Proof.
  unfold CompareVersions, versionCmp, evr.
  destruct (splitEVR left) as [[[le lv] lr]|]; [|done].
  destruct (splitEVR right) as [[[re rv] rr]|]; [|done]. intros _ _. simpl.
  rewrite !CompareSegments_spec.
  destruct (Z.eqb_spec le re) as [->|Hne]; simpl.
  - rewrite Z.compare_refl. simpl. by destruct (segmentsCmp lv rv).
  - destruct (Z.ltb_spec le re), (Z.compare_spec le re); simpl; try done; lia.
Qed.

#[export] Instance CompareVersions_lawful : LawfulComparator CompareVersions := {|
  comparable v := is_ok (splitEVR v) = true;
  version_cmp := versionCmp;
  version_cmp_laws := versionCmp_laws;
  compare_spec := rpm_CompareVersions_valid;
|}.

(** ** Properties *)

(** C37: [CompareVersions] refuses exactly the pairs in which [splitEVR]
    refuses a version, with its error, and otherwise its loops end and it
    returns the reference order: epochs as numbers, then the version and the
    release as lists of tokens compared one by one, where a tilde is below the
    end of the string, the end below a caret, a caret below letters, letters
    (compared as text) below numbers (compared by value). *)
Theorem rpm_compare_reference left right :
  CompareVersions left right =
    match splitEVR left, splitEVR right with
    | Err e, _ => Err e
    | Ok _, Err e => Err e
    | Ok _, Ok _ => Ok (c2z (versionCmp left right))
    end.
Proof.
  destruct (splitEVR left) as [l|e] eqn:Hl; [destruct (splitEVR right) as [r|e] eqn:Hr|].
  - apply rpm_CompareVersions_valid; by rewrite ?Hl, ?Hr.
  - unfold CompareVersions. rewrite Hl, Hr. by destruct l as [[] ?].
  - unfold CompareVersions. by rewrite Hl.
Qed.

(** On the versions [splitEVR] accepts the order is a total preorder. *)
Theorem rpm_total_preorder :
  TotalPreorderOn (λ v, is_ok (splitEVR v) = true) CompareVersions.
Proof. exact (lawful_total_preorder CompareVersions). Qed.

(** [CompareSegments] is the lexicographic order of the
    token lists, for all strings. *)
Theorem rpm_segments_reference left right :
  CompareSegments left right = Ok (c2z (segmentsCmp left right)).
Proof. apply CompareSegments_spec. Qed.

Lemma tokens_suffix r s t :
  ∃ l, tokens r (s +:+ String "~" t) = l ++ Tilde :: tokens Nothing t ∧
       tokens r s = l ++ [End].
Proof.
  revert r; induction s as [|c s IH]; intros r.
  - exists (flushRun r). done.
  - rewrite str_app_cons. cbn [tokens].
    destruct (isDigit c); [|destruct (isAlpha c); [|destruct (ascii_eqb c "~"), (ascii_eqb c "^")]].
    all: destruct r; edestruct IH as (l & E1 & E2); rewrite E1, E2.
    all: rewrite ?app_comm_cons, ?(assoc_L (++)); eexists; split; reflexivity.
Qed.

Lemma list_cmp_app {A} (cmp : A → A → comparison) `{!CmpLaws cmp} l a b :
  list_cmp cmp (l ++ a) (l ++ b) = list_cmp cmp a b.
Proof. induction l as [|x l IH]; [done|]. simpl. by rewrite (cmp_refl cmp). Qed.

(** A tilde suffix sorts below the version it is appended to. *)
Theorem rpm_tilde_below s t : CompareSegments (s +:+ String "~" t) s = Ok (-1).
Proof.
  rewrite CompareSegments_spec. unfold segmentsCmp.
  destruct (tokens_suffix Nothing s t) as (l & -> & ->).
  by rewrite (list_cmp_app token_cmp).
Qed.

End Rpm.
