(* ===== verification/ApkVersion.v ===== *)
(** Alpine version ordering: [formats/apk/version.go].

    [parseVersion] and [compare] are translated as they are.  The comparison of
    dotted components falls back to text when a component does not fit an
    [int64]: below that bound the order is the reference order, a total
    preorder; beyond it [apk_compare_cycle] exhibits a cycle. *)

From S2P Require Import Prelude GoStrings.

Open Scope Z_scope.
#[local] Arguments Z.compare : simpl never.

Module Apk.

(** The ranks of the suffix names; [None] is an unknown suffix. *)
Definition suffixRank (name : string) : option Z :=
  if bool_decide (name = "alpha") then Some (-5)
  else if bool_decide (name = "beta") then Some (-4)
  else if bool_decide (name = "pre") then Some (-3)
  else if bool_decide (name = "rc") then Some (-2)
  else if bool_decide (name = "cvs") then Some 1
  else if bool_decide (name = "svn") then Some 2
  else if bool_decide (name = "git") then Some 3
  else if bool_decide (name = "hg") then Some 4
  else if bool_decide (name = "p") then Some 5
  else None.

Record suffix := mkSuffix { rank : Z; number : Z }.

Record version := mkVersion {
  numbers : list string;
  letter : string;
  suffixes : list suffix;
  revision : Z;
  hasRevision : bool;
}.

Definition compareNumber (left right : string) : Z :=
  if (HasPrefix left "0" || HasPrefix right "0") &&
     ((1 <? String.length left)%nat || (1 <? String.length right)%nat) then
    c2z (str_cmp (TrimRight (ascii_eqb "0") left) (TrimRight (ascii_eqb "0") right))
  else
    match ParseInt left 64, ParseInt right 64 with
    | Some leftValue, Some rightValue =>
        if leftValue <? rightValue then -1 else if rightValue <? leftValue then 1 else 0
    | _, _ => c2z (str_cmp left right)
    end.

(** The first loop of [compare]: a missing component is ["0"]. *)
Fixpoint compareNumbers (left right : list string) : Z :=
  match left with
  | [] => (fix rest right := match right with
                             | [] => 0
                             | r :: right' =>
                                 let result := compareNumber "0" r in
                                 if result =? 0 then rest right' else result
                             end) right
  | l :: left' =>
      match right with
      | [] => let result := compareNumber l "0" in
              if result =? 0 then compareNumbers left' [] else result
      | r :: right' => let result := compareNumber l r in
                       if result =? 0 then compareNumbers left' right' else result
      end
  end.

Definition compareSuffix (leftSuffix rightSuffix : suffix) : Z :=
  if negb (rank leftSuffix =? rank rightSuffix) then
    if rank leftSuffix <? rank rightSuffix then -1 else 1
  else if negb (number leftSuffix =? number rightSuffix) then
    if number leftSuffix <? number rightSuffix then -1 else 1
  else 0.

Definition noSuffix : suffix := mkSuffix 0 0.

(** The second loop of [compare]: a missing suffix is the zero value. *)
Fixpoint compareSuffixes (left right : list suffix) : Z :=
  match left with
  | [] => (fix rest right := match right with
                             | [] => 0
                             | r :: right' =>
                                 let result := compareSuffix noSuffix r in
                                 if result =? 0 then rest right' else result
                             end) right
  | l :: left' =>
      match right with
      | [] => let result := compareSuffix l noSuffix in
              if result =? 0 then compareSuffixes left' [] else result
      | r :: right' => let result := compareSuffix l r in
                       if result =? 0 then compareSuffixes left' right' else result
      end
  end.

Definition compare (left right : version) : Z :=
  let result := compareNumbers (numbers left) (numbers right) in
  if negb (result =? 0) then result
  else
    let result := c2z (str_cmp (letter left) (letter right)) in
    if negb (result =? 0) then result
    else
      let result := compareSuffixes (suffixes left) (suffixes right) in
      if negb (result =? 0) then result
      else if xorb (hasRevision left) (hasRevision right) then
        if hasRevision right then -1 else 1
      else if negb (revision left =? revision right) then
        if revision left <? revision right then -1 else 1
      else 0.

(** One [_name123] part. *)
Definition parseSuffix (part : string) : result suffix :=
  let name := TrimRight is_digit part in
  match suffixRank name with
  | None => Err "apk version %q has unknown suffix %q"
  | Some rank =>
      let digits := sdrop (String.length name) part in
      if bool_decide (digits = "") then Ok (mkSuffix rank 0)
      else match ParseInt digits 64 with
           | None => Err "apk version %q has an invalid suffix number"
           | Some number => Ok (mkSuffix rank number)
           end
  end.

Fixpoint parseSuffixes (parts : list string) : result (list suffix) :=
  match parts with
  | [] => Ok []
  | part :: parts => s ← parseSuffix part; rest ← parseSuffixes parts; Ok (s :: rest)
  end.

Fixpoint parseNumbers (parts : list string) : result (list string) :=
  match parts with
  | [] => Ok []
  | part :: parts =>
      refuse "apk version %q has a non-numeric component %q"
        when bool_decide (part = "") || negb (bool_decide (TrimLeft is_digit part = ""));
      rest ← parseNumbers parts; Ok (part :: rest)
  end.

(** [remainder[len(remainder)-1]] and [remainder[:len(remainder)-1]]. *)
Fixpoint unsnoc_string (s : string) : option (string * ascii) :=
  match s with
  | "" => None
  | String c s' =>
      match unsnoc_string s' with
      | None => Some ("", c)
      | Some (init, last) => Some (String c init, last)
      end
  end.

Definition parseVersion (value : string) : result version :=
  refuse "apk version is empty" when bool_decide (value = "");
  '(revision, hasRevision, remainder) ←
     match cut_last "-r" value with
     | Some (before, after) =>
         match ParseInt after 64 with
         | Some revision =>
             if revision <? 0 then Err "apk version %q has an invalid revision"
             else Ok (revision, true, before)
         | None => Err "apk version %q has an invalid revision"
         end
     | None => Ok (0, false, value)
     end;
  refuse "apk version %q has a stray dash" when Contains remainder "-";
  '(suffixes, remainder) ←
     match cut_byte "_" remainder with
     | Some (before, after) => s ← parseSuffixes (Split "_" after); Ok (s, before)
     | None => Ok ([], remainder)
     end;
  let '(letter, remainder) :=
    match unsnoc_string remainder with
    | Some (init, last) =>
        if is_lower last then (String last "", init) else ("", remainder)
    | None => ("", remainder)
    end in
  refuse "apk version %q has no numeric part" when bool_decide (remainder = "");
  numbers ← parseNumbers (Split "." remainder);
  Ok (mkVersion numbers letter suffixes revision hasRevision).

Definition CompareVersions (left right : string) : result Z :=
  parsedLeft ← parseVersion left;
  parsedRight ← parseVersion right;
  Ok (compare parsedLeft parsedRight).

(** ** Specification *)

(** A component with a leading zero is a fraction: it sorts below every other
    component, and among such components by text without trailing zeros. *)
Definition numberCmp (left right : string) : comparison :=
  cmp_then (Z.b2z (negb (HasPrefix left "0")) ?= Z.b2z (negb (HasPrefix right "0")))
    (if HasPrefix left "0"
     then str_cmp (TrimRight (ascii_eqb "0") left) (TrimRight (ascii_eqb "0") right)
     else digits_val left ?= digits_val right).

Definition suffixCmp (left right : suffix) : comparison :=
  cmp_then (rank left ?= rank right) (number left ?= number right).

Definition versionCmp (left right : version) : comparison :=
  cmp_then (pad_cmp numberCmp "0" (numbers left) (numbers right))
    (cmp_then (str_cmp (letter left) (letter right))
       (cmp_then (pad_cmp suffixCmp noSuffix (suffixes left) (suffixes right))
          (cmp_then (Z.b2z (hasRevision left) ?= Z.b2z (hasRevision right))
             (revision left ?= revision right)))).

(** A component the code reads as an [int64]. *)
Definition fits (part : string) : bool :=
  negb (bool_decide (part = "")) && all_bytes is_digit part && (digits_val part <? 2 ^ 63).

(** ** Proofs *)

#[export] Instance numberCmp_laws : CmpLaws numberCmp.
Proof.
  set (lead (s : string) := HasPrefix s "0").
  pose proof (cmp_then_laws _ _ (cmp_laws_on Z.compare (λ s, Z.b2z (negb (lead s))))
    (cmp_then_laws _ _
       (cmp_laws_on str_cmp (λ s, if lead s then TrimRight (ascii_eqb "0") s else ""))
       (cmp_laws_on Z.compare (λ s, if lead s then 0 else digits_val s)))) as H.
  eapply cmp_laws_ext; [|exact H]. intros x y. unfold numberCmp, lead. cbv beta.
  destruct (HasPrefix x "0"), (HasPrefix y "0"); try done.
  by destruct (str_cmp (TrimRight _ x) (TrimRight _ y)).
Qed.

#[export] Instance suffixCmp_laws : CmpLaws suffixCmp.
Proof.
  apply (cmp_then_laws _ _ (cmp_laws_on Z.compare rank) (cmp_laws_on Z.compare number)).
Qed.

#[export] Instance versionCmp_laws : CmpLaws versionCmp.
Proof.
  apply (cmp_then_laws _ _ (cmp_laws_on (pad_cmp numberCmp "0") numbers)
    (cmp_then_laws _ _ (cmp_laws_on str_cmp letter)
      (cmp_then_laws _ _ (cmp_laws_on (pad_cmp suffixCmp noSuffix) suffixes)
        (cmp_then_laws _ _ (cmp_laws_on Z.compare (λ v, Z.b2z (hasRevision v)))
          (cmp_laws_on Z.compare revision))))).
Qed.

Lemma fits_spec s :
  fits s = true → ∃ c t, s = String c t ∧ is_digit c = true ∧
    all_bytes is_digit s = true ∧ ParseInt s 64 = Some (digits_val s).
Proof.
  unfold fits. intros H. split_bools. destruct s as [|c t]; [done|].
  exists c, t. pose proof H1 as Hd. cbn [all_bytes] in H1. apply andb_true_iff in H1 as [Hc _].
  repeat split; try done. unfold ParseInt.
  assert (c ≠ "-"%char ∧ c ≠ "+"%char) as [? ?] by (split; intros ->; done).
  replace (match c with "+"%char => (false, t) | "-"%char => (true, t) | _ => (false, String c t) end)
    with (false, String c t).
  2:{ destruct c as [[] [] [] [] [] [] [] []]; done. }
  rewrite bool_decide_eq_false_2, Hd by done. cbn [orb negb].
  change (2 ^ (64 - 1)) with (2 ^ 63). by rewrite H0.
Qed.

Lemma TrimRight_cons p c s : p c = false → ∃ t, TrimRight p (String c s) = String c t.
Proof. intros H. simpl. rewrite H. destruct (TrimRight p s); eauto. Qed.

(** A component without a leading zero is textually above every fraction. *)
Lemma trimmed_above c s t :
  is_digit c = true → c ≠ "0"%char → HasPrefix t "0" = true →
  str_cmp (TrimRight (ascii_eqb "0") (String c s)) (TrimRight (ascii_eqb "0") t) = Gt.
Proof.
  intros Hc Hne Ht. destruct t as [|d t]; [done|]. simpl in Ht. rewrite andb_true_r in Ht.
  apply ascii_eqb_eq in Ht as ->.
  destruct (TrimRight_cons (ascii_eqb "0") c s) as [u ->]; [by apply ascii_eqb_neq|].
  assert ((N_of_ascii c ?= N_of_ascii "0")%N = Gt) as E.
  { apply N.compare_gt_iff. apply digit_val_bound in Hc.
    assert (byte_val c ≠ 48) by (intros E; apply Hne; by apply byte_val_inj).
    unfold digit_val, byte_val in *. change (N_of_ascii "0") with 48%N. lia. }
  cbn [TrimRight]. destruct (TrimRight _ t); cbn [ascii_eqb]; [done|].
  cbn [str_cmp]. by rewrite E.
Qed.

Lemma compareNumber_spec left right :
  fits left = true → fits right = true →
  compareNumber left right = c2z (numberCmp left right).
Proof.
  intros Hl Hr.
  destruct (fits_spec left Hl) as (a & l & -> & Ha & Hal & Pl).
  destruct (fits_spec right Hr) as (b & r & -> & Hb & Hbr & Pr).
  unfold compareNumber, numberCmp. rewrite Pl, Pr.
  assert (∀ c s, HasPrefix (String c s) "0" = ascii_eqb c "0") as Hpre
    by (intros; simpl; by rewrite andb_true_r).
  rewrite !Hpre.
  destruct (ascii_eqb a "0") eqn:Ea, (ascii_eqb b "0") eqn:Eb; simpl orb; simpl negb; simpl Z.b2z.
  - rewrite Z.compare_refl. simpl cmp_then.
    destruct (_ || _)%bool eqn:E; [done|]. apply orb_false_iff in E as [E1 E2].
    apply Nat.ltb_ge in E1, E2. destruct l, r; simpl in E1, E2; try lia.
    apply ascii_eqb_eq in Ea as ->, Eb as ->. done.
  - apply ascii_eqb_eq in Ea as ->. apply ascii_eqb_neq in Eb.
    destruct (_ || _)%bool eqn:E; simpl andb; cbv iota.
    + rewrite (cmp_antisym str_cmp), trimmed_above; done.
    + apply orb_false_iff in E as [E1 E2].
      apply Nat.ltb_ge in E1, E2. destruct l, r; simpl in E1, E2; try lia.
      destruct b as [[] [] [] [] [] [] [] []]; done.
  - apply ascii_eqb_eq in Eb as ->. apply ascii_eqb_neq in Ea.
    destruct (_ || _)%bool eqn:E; simpl andb; cbv iota.
    + rewrite trimmed_above; done.
    + apply orb_false_iff in E as [E1 E2].
      apply Nat.ltb_ge in E1, E2. destruct l, r; simpl in E1, E2; try lia.
      destruct a as [[] [] [] [] [] [] [] []]; done.
  - rewrite Z.compare_refl. simpl cmp_then. simpl andb. cbv iota.
    destruct (Z.ltb_spec (digits_val (String a l)) (digits_val (String b r))),
      (Z.ltb_spec (digits_val (String b r)) (digits_val (String a l))),
      (Z.compare_spec (digits_val (String a l)) (digits_val (String b r))); try done; lia.
Qed.

Lemma fits_zero : fits "0" = true.
Proof. done. Qed.

Lemma compareNumbers_spec left right :
  Forall (λ p, fits p = true) left → Forall (λ p, fits p = true) right →
  compareNumbers left right = c2z (pad_cmp numberCmp "0" left right).
Proof.
  intros Hl; revert right; induction Hl as [|l left Hf Hl IH]; intros right Hr.
  - induction Hr as [|r right Hf Hr IHr]; [done|]. simpl.
    rewrite compareNumber_spec by done. by apply c2z_step.
  - destruct Hr as [|r right Hfr Hr]; simpl;
      rewrite compareNumber_spec by done; apply c2z_step; by apply IH.
Qed.

Lemma compareSuffix_spec left right : compareSuffix left right = c2z (suffixCmp left right).
Proof.
  unfold compareSuffix, suffixCmp.
  destruct (Z.eqb_spec (rank left) (rank right)) as [->|]; simpl.
  - rewrite Z.compare_refl. simpl.
    destruct (Z.eqb_spec (number left) (number right)) as [->|]; simpl; [by rewrite Z.compare_refl|].
    destruct (Z.ltb_spec (number left) (number right)),
      (Z.compare_spec (number left) (number right)); simpl; try done; lia.
  - destruct (Z.ltb_spec (rank left) (rank right)),
      (Z.compare_spec (rank left) (rank right)); simpl; try done; lia.
Qed.

Lemma compareSuffixes_spec left right :
  compareSuffixes left right = c2z (pad_cmp suffixCmp noSuffix left right).
Proof.
  revert right; induction left as [|l left IH]; intros right.
  - induction right as [|r right IHr]; [done|]. simpl.
    rewrite compareSuffix_spec. by apply c2z_step.
  - destruct right as [|r right]; simpl; rewrite compareSuffix_spec; by apply c2z_step.
Qed.

Definition fitting (v : version) : bool := forallb fits (numbers v).

Lemma compare_spec' left right :
  fitting left = true → fitting right = true →
  compare left right = c2z (versionCmp left right).
Proof.
  unfold fitting. rewrite !forallb_forall, <- !Stdlib.Lists.List.Forall_forall. intros Hl Hr.
  unfold compare, versionCmp. rewrite compareNumbers_spec, compareSuffixes_spec by done.
  do 3 apply c2z_return.
  destruct (hasRevision left), (hasRevision right); simpl; try done;
    (destruct (Z.eqb_spec (revision left) (revision right)) as [->|]; simpl;
     [by rewrite Z.compare_refl|
      destruct (Z.ltb_spec (revision left) (revision right)),
        (Z.compare_spec (revision left) (revision right)); simpl; try done; lia]).
Qed.

(** The parse of a version, and whether it parses with components that fit. *)
Definition parsed (v : string) : version :=
  match parseVersion v with Ok p => p | Err _ => mkVersion [] "" [] 0 false end.

Definition comparableVersion (v : string) : bool :=
  match parseVersion v with Ok p => fitting p | Err _ => false end.

Lemma CompareVersions_fitting left right :
  comparableVersion left = true → comparableVersion right = true →
  CompareVersions left right = Ok (c2z (versionCmp (parsed left) (parsed right))).
Proof.
  unfold comparableVersion, CompareVersions, parsed.
  destruct (parseVersion left) as [l|]; [|done].
  destruct (parseVersion right) as [r|]; [|done].
  intros. simpl. by rewrite compare_spec'.
Qed.

#[export] Instance CompareVersions_lawful : LawfulComparator CompareVersions := {|
  comparable v := comparableVersion v = true;
  version_cmp l r := versionCmp (parsed l) (parsed r);
  version_cmp_laws := cmp_laws_on versionCmp parsed;
  compare_spec := CompareVersions_fitting;
|}.

(** The suffixes [parseVersion] knows. *)
Lemma suffixRank_names name :
  is_Some (suffixRank name) ↔
  name ∈ ["alpha"; "beta"; "pre"; "rc"; "cvs"; "svn"; "git"; "hg"; "p"].
Proof.
  rewrite !elem_of_cons. unfold suffixRank.
  repeat case_bool_decide; subst; split; intros Hn; try (by eauto 12).
  exfalso. destruct Hn as [|[|[|[|[|[|[|[|[|Hn]]]]]]]]]; try done. by apply elem_of_nil in Hn.
Qed.

(** ** Properties *)

(** C38: [CompareVersions] refuses exactly the pairs in which [parseVersion]
    refuses a version, with its error; on versions whose dotted components fit
    an [int64] it returns the reference order, which is a total preorder:
    components padded with ["0"], each with a leading zero below each without,
    the former by text without trailing zeros and the latter by value; then
    the letter; then the suffixes padded with "no suffix", by rank and number;
    then the presence of a revision and its number.  The ranks are
    alpha < beta < pre < rc < no suffix < cvs < svn < git < hg < p. *)
Theorem apk_compare_reference :
  (∀ left right,
     match parseVersion left, parseVersion right with
     | Err e, _ => CompareVersions left right = Err e
     | Ok _, Err e => CompareVersions left right = Err e
     | Ok l, Ok r =>
         fitting l = true → fitting r = true →
         CompareVersions left right = Ok (c2z (versionCmp l r))
     end) ∧
  CmpLaws versionCmp ∧
  StronglySorted Z.lt
    (omap suffixRank ["alpha"; "beta"; "pre"; "rc"] ++ rank noSuffix ::
     omap suffixRank ["cvs"; "svn"; "git"; "hg"; "p"]) ∧
  (∀ name, is_Some (suffixRank name) ↔
     name ∈ ["alpha"; "beta"; "pre"; "rc"; "cvs"; "svn"; "git"; "hg"; "p"]).
Proof.
  split; [|split; [apply versionCmp_laws|split]].
  - intros left right. unfold CompareVersions.
    destruct (parseVersion left), (parseVersion right); [|done..].
    intros. simpl. by rewrite compare_spec'.
  - vm_compute. repeat constructor.
  - apply suffixRank_names.
Qed.

(** On versions that fit, [CompareVersions] always answers, as a total
    preorder. *)
Theorem apk_total_preorder :
  TotalPreorderOn (λ v, comparableVersion v = true) CompareVersions.
Proof. exact (lawful_total_preorder CompareVersions). Qed.

(** A component beyond an [int64] is compared as text, and the order is no
    longer transitive: three versions that all parse form a cycle. *)
Theorem apk_compare_cycle :
  CompareVersions "10" "10000000000000000000" = Ok (-1) ∧
  CompareVersions "10000000000000000000" "5" = Ok (-1) ∧
  CompareVersions "5" "10" = Ok (-1).
Proof. vm_compute. repeat split. Qed.

(** [parseVersion] keeps only runs of digits as components. *)
Lemma parseNumbers_digits parts ns :
  parseNumbers parts = Ok ns → ns = parts ∧ Forall (λ p, p ≠ "" ∧ all_bytes is_digit p = true) ns.
Proof.
  revert ns; induction parts as [|p parts IH]; intros ns; simpl; [intros [= <-]; by split|].
  destruct (_ || _)%bool eqn:E; [done|]. apply orb_false_iff in E as [E1 E2]. split_bools.
  destruct (parseNumbers parts) as [rest|]; simpl; [|done]. intros [= <-].
  destruct (IH rest eq_refl) as [-> ?]. split; [done|]. constructor; [|done]. split; [done|].
  pose proof (span_app is_digit p) as Ha. unfold TrimLeft in E2. rewrite E2, str_app_nil_r in Ha.
  rewrite <- Ha. apply span_all.
Qed.

Example apk_examples :
  CompareVersions "1.0_rc1" "1.0" = Ok (-1) ∧ CompareVersions "1.0_p1" "1.0" = Ok 1 ∧
  CompareVersions "1.0-r0" "1.0" = Ok 1 ∧ CompareVersions "1.05" "1.1" = Ok (-1) ∧
  CompareVersions "1.2" "1.2.0" = Ok 0 ∧ CompareVersions "1.2a" "1.2" = Ok 1 ∧
  CompareVersions "1-2" "1" = Err "apk version %q has a stray dash".
Proof. vm_compute. repeat split. Qed.

End Apk.
