(* ===== verification/PypiVersion.v ===== *)
(** PEP 440 version ordering: [formats/pypi/version.go].

    [pep440Pattern] is written out as a pattern of [GoRegexp], including the two
    non-ASCII runes that fold to ASCII letters under [(?i)]. *)

From S2P Require Import Prelude GoStrings GoRegexp.

Open Scope Z_scope.
#[local] Arguments Z.compare : simpl never.

Module Pypi.

(** ** The pattern *)

(** U+017F folds to [s] and U+212A folds to [k] under [(?i)]. *)
Definition longS : string := bytes_of [197; 191]%N.
Definition kelvin : string := bytes_of [226; 132; 170]%N.

Definition fold_byte (c : ascii) : re :=
  let base := Chr (λ x, ascii_eqb (to_lower_byte x) c) in
  if ascii_eqb c "s" then Alt base (Lit longS)
  else if ascii_eqb c "k" then Alt base (Lit kelvin)
  else base.
Fixpoint fold_lit (s : string) : re :=
  match s with "" => Eps | String c s => Cat (fold_byte c) (fold_lit s) end.
Fixpoint fold_alts (l : list string) : re :=
  match l with
  | [] => Chr (λ _, false)
  | [s] => fold_lit s
  | s :: l => Alt (fold_lit s) (fold_alts l)
  end.

Definition digit : re := Chr is_digit.
Definition separator : re := Opt (Chr (λ c, mem_byte c "._-")).
(** [[a-z0-9]] under [(?i)]. *)
Definition alnum : re :=
  Alt (Chr (λ c, is_letter c || is_digit c)) (Alt (Lit longS) (Lit kelvin)).

Definition pep440Pattern : re :=
  Cat (Opt (fold_byte "v"))
  (Cat (Opt (Cat (Group 1 (Plus digit)) (Byte "!")))
  (Cat (Group 2 (Cat (Plus digit) (Star (Cat (Byte ".") (Plus digit)))))
  (Cat (Opt (Cat separator
         (Cat (Group 3 (fold_alts ["alpha"; "beta"; "preview"; "pre"; "a"; "b"; "c"; "rc"]))
            (Cat separator (Group 4 (Star digit))))))
  (Cat (Opt (Alt (Cat (Byte "-") (Group 5 (Plus digit)))
               (Cat separator
                  (Cat (Group 6 (fold_alts ["post"; "rev"; "r"]))
                     (Cat separator (Group 7 (Star digit)))))))
  (Cat (Opt (Cat separator
         (Cat (Group 8 (fold_lit "dev")) (Cat separator (Group 9 (Star digit))))))
       (Opt (Cat (Byte "+")
          (Group 10 (Cat (Plus alnum)
             (Star (Cat (Chr (λ c, mem_byte c "._-")) (Plus alnum)))))))))))).

(** ** The code *)

Record pep440Version := mkVersion {
  epoch : string; preNumber : string; postNumber : string; devNumber : string;
  release : list string;
  prePhase : Z;
  hasPre : bool; hasPost : bool; hasDev : bool;
  local : list string;
}.

Definition defaultNumber (value : string) : string :=
  if bool_decide (value = "") then "0" else value.

Fixpoint numericBytes (value : string) : bool :=
  match value with
  | "" => true
  | String c value => is_digit c && numericBytes value
  end.
Definition numericSegment (value : string) : bool :=
  if bool_decide (value = "") then false else numericBytes value.

(** [strings.ToLower] on what the local group matches: ASCII letters, U+017F,
    which is lower case, and U+212A, which maps to [k]. *)
Fixpoint toLowerLocal (fuel : nat) (value : string) : string :=
  match fuel with
  | O => value
  | S fuel =>
      if HasPrefix value kelvin then String "k" (toLowerLocal fuel (sdrop 3 value))
      else match value with
           | "" => ""
           | String c value => String (to_lower_byte c) (toLowerLocal fuel value)
           end
  end.

Definition parsePEP440 (value : string) : result pep440Version :=
  match full_match pep440Pattern (TrimSpace value) with
  | None => Err "invalid PEP 440 version"
  | Some matches =>
      let pre := negb (bool_decide (matches 3%nat = "")) in
      let phase := ToLower (matches 3%nat) in
      let post := negb (bool_decide (matches 5%nat = "")) || negb (bool_decide (matches 6%nat = "")) in
      let dev := negb (bool_decide (matches 8%nat = "")) in
      Ok {| epoch := defaultNumber (matches 1%nat);
            release := Split "." (matches 2%nat);
            hasPre := pre;
            preNumber := if pre then defaultNumber (matches 4%nat) else "";
            prePhase :=
              if pre then
                if bool_decide (phase = "a") || bool_decide (phase = "alpha") then 0
                else if bool_decide (phase = "b") || bool_decide (phase = "beta") then 1
                else 2
              else 0;
            hasPost := post;
            postNumber :=
              if post then
                if bool_decide (matches 5%nat = "") then defaultNumber (matches 7%nat)
                else defaultNumber (matches 5%nat)
              else "";
            hasDev := dev;
            devNumber := if dev then defaultNumber (matches 9%nat) else "";
            local :=
              if bool_decide (matches 10%nat = "") then []
              else FieldsFunc (λ c, mem_byte c ".-_")
                     (toLowerLocal (String.length (matches 10%nat)) (matches 10%nat)) |}
  end.

Definition compareNumericString (left right : string) : Z :=
  let left := TrimLeft (ascii_eqb "0") left in
  let right := TrimLeft (ascii_eqb "0") right in
  if (String.length left <? String.length right)%nat then -1
  else if (String.length right <? String.length left)%nat then 1
  else if str_ltb left right then -1
  else if str_ltb right left then 1
  else 0.

(** The loop runs to the longer length; a missing part is ["0"]. *)
Fixpoint compareRelease (left right : list string) : Z :=
  match left with
  | [] => (fix rest right := match right with
                             | [] => 0
                             | r :: right' =>
                                 let comparison := compareNumericString "0" r in
                                 if comparison =? 0 then rest right' else comparison
                             end) right
  | l :: left' =>
      match right with
      | [] => let comparison := compareNumericString l "0" in
              if comparison =? 0 then compareRelease left' [] else comparison
      | r :: right' => let comparison := compareNumericString l r in
                       if comparison =? 0 then compareRelease left' right' else comparison
      end
  end.

Definition preRank (version : pep440Version) : Z :=
  if hasPre version then 0
  else if hasDev version && negb (hasPost version) then -1
  else 1.

Definition comparePre (left right : pep440Version) : Z :=
  let leftRank := preRank left in
  let rightRank := preRank right in
  if leftRank <? rightRank then -1
  else if rightRank <? leftRank then 1
  else if negb (leftRank =? 0) then 0
  else if prePhase left <? prePhase right then -1
  else if prePhase right <? prePhase left then 1
  else compareNumericString (preNumber left) (preNumber right).

Definition compareOptionalNumber (leftPresent : bool) (left : string)
    (rightPresent : bool) (right : string) (absentRank presentRank : Z) : Z :=
  let leftRank := if leftPresent then presentRank else absentRank in
  let rightRank := if rightPresent then presentRank else absentRank in
  if leftRank <? rightRank then -1
  else if rightRank <? leftRank then 1
  else if negb leftPresent then 0
  else compareNumericString left right.

Definition compareLocalSegment (left right : string) : Z :=
  let leftNumeric := numericSegment left in
  let rightNumeric := numericSegment right in
  if leftNumeric && negb rightNumeric then 1
  else if negb leftNumeric && rightNumeric then -1
  else if leftNumeric then compareNumericString left right
  else if str_ltb left right then -1
  else if str_ltb right left then 1
  else 0.

(** The common prefix segment by segment, then the lengths. *)
Fixpoint compareLocalLoop (left right : list string) : Z :=
  match left, right with
  | l :: left', r :: right' =>
      let comparison := compareLocalSegment l r in
      if comparison =? 0 then compareLocalLoop left' right' else comparison
  | [], [] => 0
  | [], _ => -1
  | _, [] => 1
  end.

Definition compareLocal (left right : list string) : Z :=
  match left, right with
  | [], [] => 0
  | [], _ => -1
  | _, [] => 1
  | _, _ => compareLocalLoop left right
  end.

Definition CompareVersions (left right : string) : result Z :=
  leftVersion ← parsePEP440 left;
  rightVersion ← parsePEP440 right;
  let comparison := compareNumericString (epoch leftVersion) (epoch rightVersion) in
  if negb (comparison =? 0) then Ok comparison
  else let comparison := compareRelease (release leftVersion) (release rightVersion) in
  if negb (comparison =? 0) then Ok comparison
  else let comparison := comparePre leftVersion rightVersion in
  if negb (comparison =? 0) then Ok comparison
  else let comparison := compareOptionalNumber (hasPost leftVersion) (postNumber leftVersion)
                           (hasPost rightVersion) (postNumber rightVersion) (-1) 1 in
  if negb (comparison =? 0) then Ok comparison
  else let comparison := compareOptionalNumber (hasDev leftVersion) (devNumber leftVersion)
                           (hasDev rightVersion) (devNumber rightVersion) 1 (-1) in
  if negb (comparison =? 0) then Ok comparison
  else Ok (compareLocal (local leftVersion) (local rightVersion)).

Example pypi_examples :
  CompareVersions "1.0.dev1" "1.0a1" = Ok (-1) ∧ CompareVersions "1.0rc1" "1.0" = Ok (-1) ∧
  CompareVersions "1.0" "1.0-1" = Ok (-1) ∧ CompareVersions "1.0.post1" "1.0-1" = Ok 0 ∧
  CompareVersions "1!0.1" "2.0" = Ok 1 ∧ CompareVersions "V1.0" "1.0.0" = Ok 0 ∧
  CompareVersions "1.0+abc.10" "1.0+abc.9" = Ok 1 ∧ CompareVersions "1.0+1" "1.0+a" = Ok 1 ∧
  CompareVersions "1.0.post1.dev2" "1.0.post1" = Ok (-1) ∧
  CompareVersions "1.x" "1.0" = Err "invalid PEP 440 version".
Proof. vm_compute. repeat split. Qed.

(** ** Specification *)

(** A version with neither a pre-release nor a bare development segment ranks
    above both; among pre-releases the phase and then the number decide. *)
Definition preCmp (left right : pep440Version) : comparison :=
  cmp_then (preRank left ?= preRank right)
    (cmp_then ((if hasPre left then prePhase left else 0)
               ?= (if hasPre right then prePhase right else 0))
       (trimmed_cmp (if hasPre left then preNumber left else "")
          (if hasPre right then preNumber right else ""))).

Definition optionalCmp (present : pep440Version → bool) (number : pep440Version → string)
    (absentRank presentRank : Z) (left right : pep440Version) : comparison :=
  cmp_then ((if present left then presentRank else absentRank)
            ?= (if present right then presentRank else absentRank))
    (trimmed_cmp (if present left then number left else "")
       (if present right then number right else "")).

Definition segmentCmp (left right : string) : comparison :=
  cmp_then (Z.b2z (numericSegment left) ?= Z.b2z (numericSegment right))
    (cmp_then (trimmed_cmp (if numericSegment left then left else "")
                 (if numericSegment right then right else ""))
       (str_cmp (if numericSegment left then "" else left)
          (if numericSegment right then "" else right))).

Definition versionCmp (left right : pep440Version) : comparison :=
  cmp_then (trimmed_cmp (epoch left) (epoch right))
    (cmp_then (pad_cmp trimmed_cmp "0" (release left) (release right))
       (cmp_then (preCmp left right)
          (cmp_then (optionalCmp hasPost postNumber (-1) 1 left right)
             (cmp_then (optionalCmp hasDev devNumber 1 (-1) left right)
                (list_cmp segmentCmp (local left) (local right)))))).

(** ** Proofs *)

#[export] Instance preCmp_laws : CmpLaws preCmp.
Proof.
  apply (cmp_then_laws _ _ (cmp_laws_on Z.compare preRank)
    (cmp_then_laws _ _ (cmp_laws_on Z.compare (λ v, if hasPre v then prePhase v else 0))
       (cmp_laws_on trimmed_cmp (λ v, if hasPre v then preNumber v else "")))).
Qed.

#[export] Instance optionalCmp_laws present number a p :
  CmpLaws (optionalCmp present number a p).
Proof.
  apply (cmp_then_laws _ _ (cmp_laws_on Z.compare (λ v : pep440Version, if present v then p else a))
    (cmp_laws_on trimmed_cmp (λ v, if present v then number v else ""))).
Qed.

#[export] Instance segmentCmp_laws : CmpLaws segmentCmp.
Proof.
  apply (cmp_then_laws _ _ (cmp_laws_on Z.compare (λ s, Z.b2z (numericSegment s)))
    (cmp_then_laws _ _ (cmp_laws_on trimmed_cmp (λ s, if numericSegment s then s else ""))
       (cmp_laws_on str_cmp (λ s, if numericSegment s then "" else s)))).
Qed.

#[export] Instance versionCmp_laws : CmpLaws versionCmp.
Proof.
  apply (cmp_then_laws _ _ (cmp_laws_on trimmed_cmp epoch)
    (cmp_then_laws _ _ (cmp_laws_on (pad_cmp trimmed_cmp "0") release)
      (cmp_then_laws _ _ preCmp_laws
        (cmp_then_laws _ _ (optionalCmp_laws hasPost postNumber (-1) 1)
          (cmp_then_laws _ _ (optionalCmp_laws hasDev devNumber 1 (-1))
            (cmp_laws_on (list_cmp segmentCmp) local)))))).
Qed.

Lemma compareNumericString_spec left right :
  compareNumericString left right = c2z (trimmed_cmp left right).
Proof. apply trimmed_cmp_code. Qed.

Lemma compareRelease_spec left right :
  compareRelease left right = c2z (pad_cmp trimmed_cmp "0" left right).
Proof.
  revert right; induction left as [|l left IH]; intros right.
  - induction right as [|r right IHr]; [done|]. cbn [compareRelease].
    rewrite compareNumericString_spec. by apply c2z_step.
  - destruct right as [|r right]; cbn [compareRelease];
      rewrite compareNumericString_spec; by apply c2z_step.
Qed.

Lemma preRank_zero v : preRank v = 0 ↔ hasPre v = true.
Proof. unfold preRank. by destruct (hasPre v), (hasDev v), (hasPost v). Qed.

Lemma comparePre_spec left right : comparePre left right = c2z (preCmp left right).
Proof.
  unfold comparePre, preCmp. apply Z_ladder. intros Er.
  pose proof (preRank_zero left) as Hl. pose proof (preRank_zero right) as Hr.
  rewrite <- Er in Hr. destruct (Z.eqb_spec (preRank left) 0) as [E|E]; cbn [negb].
  - rewrite (proj1 Hl E), (proj1 Hr E). apply Z_ladder. intros _. apply compareNumericString_spec.
  - destruct (hasPre left), (hasPre right);
      [by destruct (E (proj2 Hl eq_refl))|by destruct (E (proj2 Hl eq_refl))
      |by destruct (E (proj2 Hr eq_refl))|done].
Qed.

Lemma compareOptionalNumber_spec present number a p left right :
  a ≠ p →
  compareOptionalNumber (present left) (number left) (present right) (number right) a p =
    c2z (optionalCmp present number a p left right).
Proof.
  intros Hne. unfold compareOptionalNumber, optionalCmp. apply Z_ladder. intros E.
  destruct (present left), (present right); try congruence; [|done].
  apply compareNumericString_spec.
Qed.

Lemma compareLocalSegment_spec left right :
  compareLocalSegment left right = c2z (segmentCmp left right).
Proof.
  unfold compareLocalSegment, segmentCmp.
  destruct (numericSegment left), (numericSegment right); cbn [andb negb]; try done.
  - rewrite compareNumericString_spec. by destruct (trimmed_cmp left right).
  - simpl. unfold str_ltb. rewrite (cmp_antisym str_cmp left right).
    by destruct (str_cmp left right).
Qed.

Lemma compareLocal_spec left right :
  compareLocal left right = c2z (list_cmp segmentCmp left right).
Proof.
  transitivity (compareLocalLoop left right); [by destruct left, right|].
  revert right; induction left as [|l left IH]; intros [|r right]; try done.
  cbn [compareLocalLoop list_cmp]. rewrite compareLocalSegment_spec. by apply c2z_step.
Qed.

Definition parsed (v : string) : pep440Version :=
  match parsePEP440 v with Ok p => p | Err _ => mkVersion "" "" "" "" [] 0 false false false [] end.

Lemma Ok_return (c : comparison) (r : result Z) d :
  r = Ok (c2z d) → (if negb (c2z c =? 0) then Ok (c2z c) else r) = Ok (c2z (cmp_then c d)).
Proof. intros ->. by destruct c. Qed.

Lemma CompareVersions_parsed left right :
  is_ok (parsePEP440 left) = true → is_ok (parsePEP440 right) = true →
  CompareVersions left right = Ok (c2z (versionCmp (parsed left) (parsed right))).
Proof.
  unfold CompareVersions, parsed.
  destruct (parsePEP440 left) as [l|]; [|done].
  destruct (parsePEP440 right) as [r|]; [|done]. intros _ _.
  cbn [mbind result_bind]. unfold versionCmp.
  rewrite compareNumericString_spec, compareRelease_spec, comparePre_spec, compareLocal_spec.
  rewrite (compareOptionalNumber_spec hasPost postNumber) by done.
  rewrite (compareOptionalNumber_spec hasDev devNumber) by done.
  by do 5 apply Ok_return.
Qed.

#[export] Instance CompareVersions_lawful : LawfulComparator CompareVersions := {|
  comparable v := is_ok (parsePEP440 v) = true;
  version_cmp l r := versionCmp (parsed l) (parsed r);
  version_cmp_laws := cmp_laws_on versionCmp parsed;
  compare_spec := CompareVersions_parsed;
|}.

(** ** Properties *)

(** on the versions [parsePEP440] accepts, [CompareVersions] always
    answers, and its answers are those of a total preorder. *)
Theorem pypi_total_preorder :
  TotalPreorderOn (λ v, is_ok (parsePEP440 v) = true) CompareVersions.
Proof. exact (lawful_total_preorder CompareVersions). Qed.

(** [parsePEP440] succeeds exactly on the strings whose trimmed form is in
    the language of the PEP 440 pattern. *)
Theorem pypi_parse_language v :
  is_ok (parsePEP440 v) = true ↔ matches pep440Pattern (TrimSpace v).
Proof.
  rewrite <- MatchFull_spec. unfold MatchFull, parsePEP440.
  by destruct (full_match pep440Pattern (TrimSpace v)).
Qed.

End Pypi.
