(* ===== verification/RawVersion.v ===== *)
(** Helm and raw version ordering: [formats/helm/version.go] and
    [formats/raw/version.go].

    Both call github.com/Masterminds/semver, which is not part of this
    repository: the class [SemVer] is what they call of it and [SemVerLaws] what
    they rely on, that [Compare] is a total preorder. *)

From S2P Require Import Prelude GoStrings.

Open Scope Z_scope.
#[local] Arguments Z.compare : simpl never.

(** The library calls: [semver.NewVersion] and the [Compare] method of its versions. *)
Class SemVer := {
  sv : Type;
  NewVersion : string → result sv;
  Compare : sv → sv → Z;
}.

(** [Compare] returns -1, 0 or 1 and orders versions by precedence. *)
Class SemVerLaws `{SemVer} (precedence : sv → sv → comparison) : Prop := {
  precedence_laws :: CmpLaws precedence;
  Compare_precedence a b : Compare a b = c2z (precedence a b);
}.

Module Helm.
Section helm.
Context `{SemVer}.

Definition CompareVersions (left right : string) : result Z :=
  leftVersion ← NewVersion left;
  rightVersion ← NewVersion right;
  Ok (Compare leftVersion rightVersion).

(** On versions SemVer parses, Helm's comparator is a total preorder. *)
Theorem helm_total_preorder precedence (Hlaws : SemVerLaws precedence) :
  TotalPreorderOn (λ v, is_ok (NewVersion v) = true) CompareVersions.
Proof.
  unfold TotalPreorderOn, CompareVersions. split; [|split].
  - intros a b Ha Hb.
    destruct (NewVersion a) as [va|]; [|done]. destruct (NewVersion b) as [vb|]; [|done].
    simpl. rewrite !Compare_precedence, (cmp_antisym precedence va vb), c2z_opp.
    eexists; split; [done|split; [done|]]. destruct (precedence va vb); simpl; lia.
  - intros a Ha. destruct (NewVersion a) as [va|]; [|done]. simpl.
    by rewrite Compare_precedence, (cmp_refl precedence).
  - intros a b c x y Ha Hb Hc.
    destruct (NewVersion a) as [va|]; [|done]. destruct (NewVersion b) as [vb|]; [|done].
    destruct (NewVersion c) as [vc|]; [|done].
    simpl. rewrite !Compare_precedence. intros [= <-] [= <-] Hx Hy.
    eexists; split; [done|]. pose proof (cmp_le_trans precedence va vb vc) as Ht.
    destruct (precedence va vb), (precedence vb vc), (precedence va vc); simpl in *;
      try lia; exfalso; by apply Ht.
Qed.
End helm.
End Helm.

Module Raw.

Definition splitVersion (version : string) : list string :=
  FieldsFunc (λ c, mem_byte c ".-+~_") version.

(** One turn of the loop of [compareNatural]; [None] moves to the next field. *)
Definition compareField (leftField rightField : string) : option Z :=
  if bool_decide (leftField = "") then Some (-1)
  else if bool_decide (rightField = "") then Some 1
  else
    match ParseUint leftField 64, ParseUint rightField 64 with
    | Some leftNumber, Some rightNumber =>
        if leftNumber =? rightNumber then None
        else if leftNumber <? rightNumber then Some (-1) else Some 1
    | Some _, None => Some 1
    | None, Some _ => Some (-1)
    | None, None =>
        if bool_decide (leftField = rightField) then None
        else if str_ltb leftField rightField then Some (-1) else Some 1
    end.

(** The loop, to the longer of the two lists; a missing field is empty. *)
Fixpoint compareFields (leftFields rightFields : list string) : Z :=
  match leftFields with
  | [] => (fix rest rightFields :=
             match rightFields with
             | [] => 0
             | r :: rightFields' =>
                 match compareField "" r with Some z => z | None => rest rightFields' end
             end) rightFields
  | l :: leftFields' =>
      match rightFields with
      | [] => match compareField l "" with Some z => z | None => compareFields leftFields' [] end
      | r :: rightFields' =>
          match compareField l r with Some z => z | None => compareFields leftFields' rightFields' end
      end
  end.

Definition compareNatural (left right : string) : Z :=
  compareFields (splitVersion left) (splitVersion right).

Definition CompareVersions `{SemVer} (left right : string) : result Z :=
  match NewVersion left, NewVersion right with
  | Ok leftSemver, Ok rightSemver => Ok (Compare leftSemver rightSemver)
  | Ok _, Err _ => Ok (-1)
  | Err _, Ok _ => Ok 1
  | Err _, Err _ => Ok (compareNatural left right)
  end.

(** ** Specification *)

(** Numbers that fit an [uint64] rank above text and compare by value. *)
Definition fieldNumber (field : string) : Z := default (-1) (ParseUint field 64).
Definition fieldText (field : string) : string :=
  match ParseUint field 64 with Some _ => "" | None => field end.
Definition fieldCmp (left right : string) : comparison :=
  cmp_then (fieldNumber left ?= fieldNumber right) (str_cmp (fieldText left) (fieldText right)).

Definition naturalCmp (left right : string) : comparison :=
  list_cmp fieldCmp (splitVersion left) (splitVersion right).

#[export] Instance fieldCmp_laws : CmpLaws fieldCmp.
Proof.
  apply (cmp_then_laws _ _ (cmp_laws_on Z.compare fieldNumber) (cmp_laws_on str_cmp fieldText)).
Qed.

#[export] Instance naturalCmp_laws : CmpLaws naturalCmp.
Proof. apply (cmp_laws_on (list_cmp fieldCmp)). Qed.

Lemma compareField_spec left right :
  left ≠ "" → right ≠ "" →
  compareField left right =
    match fieldCmp left right with Eq => None | c => Some (c2z c) end.
Proof.
  intros Hl Hr. unfold compareField, fieldCmp, fieldNumber, fieldText.
  rewrite !bool_decide_eq_false_2 by done.
  destruct (ParseUint left 64) as [a|] eqn:Ea, (ParseUint right 64) as [b|] eqn:Eb; simpl.
  - destruct (Z.eqb_spec a b) as [->|]; [by rewrite Z.compare_refl|].
    destruct (Z.ltb_spec a b), (Z.compare_spec a b); simpl; try done; lia.
  - apply ParseUint_some in Ea as (_ & _ & _ & ? & _).
    by rewrite (proj2 (Z.compare_gt_iff a (-1))) by lia.
  - apply ParseUint_some in Eb as (_ & _ & _ & ? & _).
    by rewrite (proj2 (Z.compare_lt_iff (-1) b)) by lia.
  - change (-1 ?= -1) with Eq. cbn [cmp_then]. case_bool_decide as E.
    + subst. by rewrite str_cmp_refl.
    + unfold str_ltb. destruct (str_cmp left right) eqn:Ec; [|done..].
      by apply str_cmp_eq in Ec.
Qed.

Lemma compareFields_spec left right :
  Forall (λ f, f ≠ "") left → Forall (λ f, f ≠ "") right →
  compareFields left right = c2z (list_cmp fieldCmp left right).
Proof.
  intros Hl; revert right; induction Hl as [|l left Hf Hl IH]; intros right Hr.
  - by destruct Hr.
  - destruct Hr as [|r right Hfr Hr]; cbn [compareFields list_cmp].
    + unfold compareField. by rewrite bool_decide_eq_false_2 by done.
    + rewrite compareField_spec by done. by destruct (fieldCmp l r); [apply IH| |].
Qed.

Lemma splitVersion_nonempty v : Forall (λ f, f ≠ "") (splitVersion v).
Proof. unfold splitVersion, FieldsFunc. apply list.Forall_forall. intros f. rewrite list_elem_of_filter. by intros [? _]. Qed.

Lemma compareNatural_spec left right :
  compareNatural left right = c2z (naturalCmp left right).
Proof. apply compareFields_spec; apply splitVersion_nonempty. Qed.

Section raw.
Context `{SemVer} (precedence : sv → sv → comparison) `{!SemVerLaws precedence}.

(** SemVer versions below everything else, each kind by its own order. *)
Definition versionCmp (left right : string) : comparison :=
  match NewVersion left, NewVersion right with
  | Ok l, Ok r => precedence l r
  | Ok _, Err _ => Lt
  | Err _, Ok _ => Gt
  | Err _, Err _ => naturalCmp left right
  end.

#[export] Instance versionCmp_laws : CmpLaws versionCmp.
Proof.
  split; unfold versionCmp.
  - intros x y. destruct (NewVersion x), (NewVersion y); try done;
      [apply (cmp_antisym precedence)|apply (cmp_antisym naturalCmp)].
  - intros x y z. destruct (NewVersion x), (NewVersion y), (NewVersion z); try done;
      [apply (cmp_le_trans precedence)|apply (cmp_le_trans naturalCmp)].
Qed.

Lemma CompareVersions_spec left right :
  CompareVersions left right = Ok (c2z (versionCmp left right)).
Proof.
  unfold CompareVersions, versionCmp.
  destruct (NewVersion left), (NewVersion right); [by rewrite Compare_precedence|done..|].
  by rewrite compareNatural_spec.
Qed.

#[export] Instance CompareVersions_lawful : LawfulComparator CompareVersions := {|
  comparable _ := True;
  version_cmp := versionCmp;
  version_cmp_laws := versionCmp_laws;
  compare_spec a b _ _ := CompareVersions_spec a b;
|}.
End raw.

(** Raw's comparator never fails and is a total preorder on all strings,
    across SemVer and non-SemVer versions, given that SemVer precedence is. *)
Theorem raw_total_preorder `{SemVer} precedence (Hlaws : SemVerLaws precedence) :
  TotalPreorderOn (λ _, True) CompareVersions.
Proof. exact (lawful_total_preorder CompareVersions (LawfulComparator0 := CompareVersions_lawful precedence)). Qed.

End Raw.

(** ** A concrete library *)

Module SemVerExample.
(** Three dotted decimal numbers, compared in turn. *)
Definition triple := (Z * Z * Z)%type.

Definition parse (s : string) : result triple :=
  match Split "." s with
  | [a; b; c] =>
      match ParseUint a 64, ParseUint b 64, ParseUint c 64 with
      | Some a, Some b, Some c => Ok (a, b, c)
      | _, _, _ => Err "Invalid Semantic Version"
      end
  | _ => Err "Invalid Semantic Version"
  end.

Definition order (l r : triple) : comparison :=
  cmp_then (l.1.1 ?= r.1.1) (cmp_then (l.1.2 ?= r.1.2) (l.2 ?= r.2)).

#[local] Instance lib : SemVer :=
  {| sv := triple; NewVersion := parse; Compare l r := c2z (order l r) |}.

#[local] Instance lib_laws : SemVerLaws (H := lib) order.
Proof.
  split; [|done].
  apply (cmp_then_laws _ _ (cmp_laws_on Z.compare (λ t : triple, t.1.1))
    (cmp_then_laws _ _ (cmp_laws_on Z.compare (λ t : triple, t.1.2))
       (cmp_laws_on Z.compare (λ t : triple, t.2)))).
Qed.

Lemma helm_total_preorder_witness :
  TotalPreorderOn (λ v, is_ok (parse v) = true) (Helm.CompareVersions (H := lib)) ∧
  Helm.CompareVersions (H := lib) "1.10.0" "1.9.3" = Ok 1.
Proof.
  split; [|vm_compute; reflexivity]. exact (Helm.helm_total_preorder order lib_laws).
Defined.

Lemma raw_total_preorder_witness :
  TotalPreorderOn (λ _, True) (Raw.CompareVersions (H := lib)) ∧
  Raw.CompareVersions (H := lib) "1.0.0" "20240115" = Ok (-1) ∧
  Raw.CompareVersions (H := lib) "1.2.3.10" "1.2.3.4" = Ok 1.
Proof.
  split; [|vm_compute; split; reflexivity]. exact (Raw.raw_total_preorder order lib_laws).
Defined.
End SemVerExample.
