(* ===== verification/BuildVersion.v ===== *)
(** What a binary says about its own provenance: [internal/version/version.go].

    The stamp set at link time and the build information the Go toolchain
    embeds are arguments. *)

From S2P Require Import Prelude GoStrings GoRegexp.

Module BuildVersion.

Definition lowerHex (c : ascii) : bool := is_digit c || byte_between "a" "f" c.

Definition releaseTag : re :=
  Cat (Chr is_digit) (UpTo 127 (Chr (λ c, is_letter c || is_digit c || mem_byte c ".+~-"))).
Definition snapshot : re :=
  Cat (Byte "-") (Cat (Plus (Chr is_digit))
    (Cat (Lit "-g") (Cat (Times 7 (Chr lowerHex)) (Star (Chr lowerHex))))).
Definition hashLike : re := Cat (Times 7 (Chr lowerHex)) (UpTo 33 (Chr lowerHex)).
Definition pseudoVersion : re :=
  Cat (Byte "-") (Cat (Times 14 (Chr is_digit)) (Cat (Byte "-") (Times 12 (Chr lowerHex)))).

Record Build := mkBuild {
  Version : string;
  Describe : string;
  Revision : string;
  Modified : bool;
}.

Definition IsRelease (build : Build) : bool := negb (bool_decide (Version build = "")).

Definition render (build : Build) : string :=
  if IsRelease build then Version build
  else if negb (bool_decide (Describe build = "")) then Describe build
  else if negb (bool_decide (Revision build = "")) then
    let revision := if (12 <? String.length (Revision build))%nat
                    then stake 12 (Revision build) else Revision build in
    if Modified build then revision +:+ "-dirty" else revision
  else "unknown".

Definition releaseVersion (describe : string) : string :=
  if bool_decide (describe = "") || HasSuffix describe "-dirty" then ""
  else if MatchSuffix snapshot describe then ""
  else
    let candidate := TrimPrefix describe "v" in
    if negb (MatchFull releaseTag candidate) || MatchFull hashLike candidate then ""
    else candidate.

Definition moduleReleaseVersion (moduleVersion : string) : string :=
  if bool_decide (moduleVersion = "") || bool_decide (moduleVersion = "(devel)") then ""
  else if Contains moduleVersion "+" || MatchAnywhere pseudoVersion moduleVersion then ""
  else releaseVersion moduleVersion.

(** [debug.BuildInfo]: the settings and the version of the main module. *)
Record BuildInfo := mkBuildInfo {
  Settings : list (string * string);
  MainVersion : string;
}.

Definition applySetting (stamped : string) (build : Build) (setting : string * string) : Build :=
  let '(key, value) := setting in
  if bool_decide (key = "vcs.revision") then
    if bool_decide (Revision build = "")
    then mkBuild (Version build) (Describe build) value (Modified build) else build
  else if bool_decide (key = "vcs.modified") then
    if bool_decide (stamped = "") && bool_decide (value = "true")
    then mkBuild (Version build) (Describe build) (Revision build) true else build
  else build.

Definition readBuildInfo (stamped : string) (info : option BuildInfo) (build : Build) : Build :=
  match info with
  | None => build
  | Some info =>
      let build := foldl (applySetting stamped) build (Settings info) in
      if negb (bool_decide (stamped = "")) then build
      else
        let resolved := moduleReleaseVersion (MainVersion info) in
        if negb (bool_decide (resolved = "")) && negb (Modified build)
        then mkBuild resolved (MainVersion info) (Revision build) (Modified build)
        else build
  end.

Definition Current (stamped : string) (info : option BuildInfo) : Build :=
  let build :=
    if bool_decide (stamped = "") then mkBuild "" stamped "" false
    else mkBuild (releaseVersion stamped) stamped "" (HasSuffix stamped "-dirty") in
  readBuildInfo stamped info build.

Definition PackageVersionOf (tag : string) : string * bool :=
  let resolved := releaseVersion (TrimSpace tag) in
  (resolved, negb (bool_decide (resolved = ""))).

(** ** Proofs *)

Lemma releaseVersion_nonempty describe :
  releaseVersion describe ≠ "" →
  HasSuffix describe "-dirty" = false ∧ MatchSuffix snapshot describe = false ∧
  releaseVersion describe = TrimPrefix describe "v" ∧
  MatchFull releaseTag (TrimPrefix describe "v") = true ∧
  MatchFull hashLike (TrimPrefix describe "v") = false.
Proof.
  unfold releaseVersion. destruct (_ || _)%bool eqn:E1; [done|].
  apply orb_false_iff in E1 as [_ E1].
  destruct (MatchSuffix snapshot describe); [done|].
  destruct (negb _ || _)%bool eqn:E2; [done|].
  apply orb_false_iff in E2 as [E2%negb_false_iff E3]. done.
Qed.

Lemma applySettings_stamp stamped settings build :
  stamped ≠ "" →
  Version (foldl (applySetting stamped) build settings) = Version build ∧
  Modified (foldl (applySetting stamped) build settings) = Modified build.
Proof.
  intros Hs. revert build; induction settings as [|[k v] l IH]; intros build; [done|].
  cbn [foldl]. destruct (IH (applySetting stamped build (k, v))) as [-> ->].
  unfold applySetting. rewrite (bool_decide_eq_false_2 (stamped = "")) by done.
  case_bool_decide; [by case_bool_decide|]. by case_bool_decide.
Qed.

Lemma applySettings_version stamped settings build :
  Version (foldl (applySetting stamped) build settings) = Version build.
Proof.
  revert build; induction settings as [|[k v] l IH]; intros build; [done|].
  cbn [foldl]. rewrite IH. unfold applySetting.
  case_bool_decide; [by case_bool_decide|]. case_bool_decide; [|done]. by destruct (_ && _).
Qed.

(** ** Properties *)

(** A binary that reports itself a release was built from a clean tree:
    from a stamp that names a release, or, with no stamp, from a module version
    that does. *)
Theorem release_is_clean stamped info :
  IsRelease (Current stamped info) = true → Modified (Current stamped info) = false.
Proof.
  unfold IsRelease, Current. rewrite negb_true_iff, bool_decide_eq_false.
  destruct (decide (stamped = "")) as [->|Hs].
  - rewrite bool_decide_eq_true_2 by done. unfold readBuildInfo.
    destruct info as [info|]; [|done]. rewrite bool_decide_eq_true_2 by done. cbn [negb].
    destruct (negb _ && negb _) eqn:E; cbn [Version Modified].
    + by apply andb_true_iff in E as [_ ->%negb_true_iff].
    + by rewrite applySettings_version.
  - rewrite bool_decide_eq_false_2 by done. unfold readBuildInfo.
    destruct info as [info|].
    + rewrite bool_decide_eq_false_2 by done. cbn [negb].
      destruct (applySettings_stamp stamped (Settings info)
        (mkBuild (releaseVersion stamped) stamped "" (HasSuffix stamped "-dirty")) Hs) as [-> ->].
      cbn [Version Modified]. by intros (H & _)%releaseVersion_nonempty.
    + cbn [Version Modified]. by intros (H & _)%releaseVersion_nonempty.
Qed.

Lemma release_is_clean_witness :
  IsRelease (Current "v1.2.3" None) = true ∧ Modified (Current "v1.2.3" None) = false.
Proof.
  split; [vm_compute; reflexivity|].
  apply (release_is_clean "v1.2.3" None). vm_compute; reflexivity.
Defined.

(** A stamp decides alone whether the binary is a release: whatever the
    toolchain embedded, the version is the stamp's. *)
Theorem stamp_is_authoritative stamped info :
  stamped ≠ "" → Version (Current stamped info) = releaseVersion stamped.
Proof.
  intros Hs. unfold Current. rewrite bool_decide_eq_false_2 by done. unfold readBuildInfo.
  destruct info as [info|]; [|done]. rewrite bool_decide_eq_false_2 by done. cbn [negb].
  by rewrite applySettings_version.
Qed.

Lemma stamp_is_authoritative_witness :
  Version (Current "v1.2.3-4-gabcdef0" (Some (mkBuildInfo [] "v9.9.9"))) = "".
Proof.
  rewrite (stamp_is_authoritative "v1.2.3-4-gabcdef0" (Some (mkBuildInfo [] "v9.9.9")));
    [vm_compute; reflexivity|done].
Defined.

(** Every version [PackageVersionOf] reports as a release is one a raw
    repository may publish: it starts with a digit, has at most 128 bytes, all of
    them from the version alphabet, and is the tag itself or the tag without its
    leading [v]. *)
Theorem package_version_publishable tag v :
  PackageVersionOf tag = (v, true) →
  (∃ c s, v = String c s ∧ is_digit c = true ∧ (String.length s ≤ 127)%nat ∧
     all_bytes (λ c, is_letter c || is_digit c || mem_byte c ".+~-") s = true) ∧
  (TrimSpace tag = v ∨ TrimSpace tag = String "v" v).
Proof.
  unfold PackageVersionOf. intros [= Hv Hn%negb_true_iff%bool_decide_eq_false].
  apply releaseVersion_nonempty in Hn as (_ & _ & Hr & Ht & _). rewrite <- Hr, Hv in Ht.
  split.
  - by apply MatchFull_chr_upto in Ht.
  - rewrite Hr in Hv. unfold TrimPrefix in Hv. destruct (TrimSpace tag) as [|c s]; [by left|].
    simpl in Hv. rewrite andb_true_r in Hv. destruct (ascii_eqb c "v") eqn:E; [|by left].
    apply ascii_eqb_eq in E as ->. right. by rewrite <- Hv; destruct s.
Qed.

Lemma package_version_publishable_witness :
  PackageVersionOf "v2024.01.15" = ("2024.01.15", true) ∧
  (TrimSpace "v2024.01.15" = "2024.01.15" ∨ TrimSpace "v2024.01.15" = String "v" "2024.01.15").
Proof.
  split; [vm_compute; reflexivity|].
  apply (package_version_publishable "v2024.01.15"). vm_compute; reflexivity.
Defined.

Example version_examples :
  PackageVersionOf "v1.2.3" = ("1.2.3", true) ∧ PackageVersionOf "20240115" = ("", false) ∧
  PackageVersionOf "v1.2.3-dirty" = ("", false) ∧
  moduleReleaseVersion "v0.0.0-20240115120000-abcdef012345" = "" ∧
  render (mkBuild "" "" "0123456789abcdef" true) = "0123456789ab-dirty".
Proof. vm_compute. repeat split. Qed.

End BuildVersion.
