(* ===== verification/Model.v ===== *)
(** The records of [internal/state/model.go], with the Go field names, prefixed
    where two records share a name.  A Go map keyed by strings is a [gmap]; a
    pointer that may be nil is an [option]; an [int] or [int64] is a [Z].  The
    file also holds the digest provenance order and [internal/hexdigest]. *)

From S2P Require Import Prelude GoStrings.

Open Scope Z_scope.

Definition ManifestSchema : Z := 7.
Definition LockSchema : Z := 2.
Definition PlanSchema : Z := 10.
Definition LedgerSchema : Z := 1.
Definition DeploymentSchema : Z := 2.

(** ** Locks *)

Definition DigestProvenance := string.

Record ArtifactOrigin := mkOrigin {
  origin_Kind : string;
  origin_URL : string;
  origin_Provenance : DigestProvenance;
}.
#[export] Instance ArtifactOrigin_eq_dec : EqDecision ArtifactOrigin.
Proof. solve_decision. Defined.

Record LockedBlob := mkBlob {
  Filename : string;
  Architecture : string;
  Size : Z;
  MD5 : string;
  SHA1 : string;
  SHA256 : string;
  Added : string;
  Origin : option ArtifactOrigin;
}.
#[export] Instance LockedBlob_eq_dec : EqDecision LockedBlob.
Proof. solve_decision. Defined.

Record PackageVersion := mkPackageVersion {
  pv_Package : string;
  pv_Version : string;
  pv_State : string;
  pv_Blobs : list LockedBlob;
}.
#[export] Instance PackageVersion_eq_dec : EqDecision PackageVersion.
Proof. solve_decision. Defined.

Record Placement := mkPlacement {
  pl_Package : string;
  pl_Version : string;
  pl_Track : string;
  pl_Distro : string;
}.
#[export] Instance Placement_eq_dec : EqDecision Placement.
Proof. solve_decision. Defined.

Record RepositoryLock := mkLock {
  lock_SchemaVersion : Z;
  lock_Repository : string;
  lock_PackageVersion : list PackageVersion;
  lock_Placement : list Placement;
}.
#[export] Instance RepositoryLock_eq_dec : EqDecision RepositoryLock.
Proof. solve_decision. Defined.

Definition set_versions (pvs : list PackageVersion) (lock : RepositoryLock) : RepositoryLock :=
  mkLock (lock_SchemaVersion lock) (lock_Repository lock) pvs (lock_Placement lock).
Definition set_placements (pls : list Placement) (lock : RepositoryLock) : RepositoryLock :=
  mkLock (lock_SchemaVersion lock) (lock_Repository lock) (lock_PackageVersion lock) pls.
Definition set_blobs (blobs : list LockedBlob) (pv : PackageVersion) : PackageVersion :=
  mkPackageVersion (pv_Package pv) (pv_Version pv) (pv_State pv) blobs.
Definition set_origin (origin : option ArtifactOrigin) (b : LockedBlob) : LockedBlob :=
  mkBlob (Filename b) (Architecture b) (Size b) (MD5 b) (SHA1 b) (SHA256 b) (Added b) origin.

(** ** Publications *)

Record PublicationRecord := mkPublication {
  pub_SchemaVersion : Z;
  pub_PlanID : string;
  pub_ChangeID : string;
  pub_Repository : string;
  pub_Package : string;
  pub_Version : string;
  pub_BlobSHA256 : list string;
  pub_TreeSHA256 : string;
  pub_RecordedAt : string;
}.
#[export] Instance PublicationRecord_eq_dec : EqDecision PublicationRecord.
Proof. solve_decision. Defined.

Record DeploymentRecord := mkDeployment {
  dep_SchemaVersion : Z;
  dep_Repository : string;
  dep_PlanID : string;
  dep_ChangeID : string;
  dep_TreeSHA256 : string;
  dep_ManifestSHA256 : string;
  dep_NativeRevision : string;
  dep_DeployedAt : string;
  dep_ActiveSigningFingerprint : string;
  dep_TrustedSigningFingerprints : list string;
  dep_SigningKeyringPath : string;
  dep_SigningRotationPhase : string;
  dep_SigningMinimumRefreshSeconds : Z;
  dep_TrustSince : string;
}.
#[export] Instance DeploymentRecord_eq_dec : EqDecision DeploymentRecord.
Proof. solve_decision. Defined.

(** ** The workspace manifest *)

Record Workspace := mkWorkspace {
  ws_Name : string;
  ws_ID : string;
  ws_Forge : string;
  ws_ForgeRepository : string;
  ws_ForgeHost : string;
}.

Record BlobStoreConfig := mkBlobStore {
  bs_Type : string;
  bs_Bucket : string;
  bs_Prefix : string;
  bs_Region : string;
  bs_Endpoint : string;
  bs_UsePathStyle : bool;
}.

Record SigningRotation := mkRotation {
  SuccessorKey : string;
  Phase : string;
  MinimumRefreshSeconds : Z;
}.

Record KeyRef := mkKeyRef { ref_Backend : string; ref_ID : string }.

Record SigningKey := mkSigningKey {
  key_Algorithm : string;
  key_Usage : string;
  key_Fingerprint : string;
  key_CreatedAt : string;
  key_ExpiresAt : string;
  key_PublicKeyPath : string;
  key_PublicKeySHA256 : string;
  key_PublicArmorPath : string;
  key_PublicArmorSHA256 : string;
  key_Ref : KeyRef;
}.

Record HostConfig := mkHost {
  host_Type : string;
  host_Path : string;
  host_Target : string;
  host_Bucket : string;
  host_Prefix : string;
  host_Region : string;
  host_Endpoint : string;
  host_CanonicalEndpoint : string;
  host_UsePathStyle : bool;
  host_ReadAuth : string;
  host_CredentialBroker : string;
  host_Repository : string;
  host_Branch : string;
  host_PreviewRepository : string;
  host_PreviewBranch : string;
  host_PreviewEndpoint : string;
}.

Record Repository := mkRepository {
  repo_Format : string;
  repo_Lock : string;
  repo_Host : HostConfig;
  repo_Visibility : string;
  repo_Gate : string;
  repo_ApprovalKeys : list string;
  repo_SigningKeys : list string;
  repo_SigningKeyring : string;
  repo_SigningRotation : option SigningRotation;
  repo_Keep : Z;
  repo_Track : string;
  repo_Suite : string;
  repo_Component : string;
  repo_Architectures : list string;
}.

Record Manifest := mkManifest {
  man_SchemaVersion : Z;
  man_Workspace : Workspace;
  man_BlobStore : BlobStoreConfig;
  man_Keys : gmap string SigningKey;
  man_Repositories : gmap string Repository;
}.

#[export] Instance SigningRotation_eq_dec : EqDecision SigningRotation.
Proof. solve_decision. Defined.
#[export] Instance HostConfig_eq_dec : EqDecision HostConfig.
Proof. solve_decision. Defined.
#[export] Instance Repository_eq_dec : EqDecision Repository.
Proof. solve_decision. Defined.

(** ** Digest provenance *)

Definition provenanceStrength (provenance : DigestProvenance) : option Z :=
  if bool_decide (provenance = "computed") then Some 1
  else if bool_decide (provenance = "index-stated") then Some 2
  else if bool_decide (provenance = "index-chain") then Some 3
  else if bool_decide (provenance = "operator") then Some 4
  else if bool_decide (provenance = "signed-index") then Some 5
  else None.

Definition ValidProvenance (provenance : DigestProvenance) : bool :=
  match provenanceStrength provenance with Some _ => true | None => false end.

(** A missing map entry reads as the zero value. *)
Definition AtLeast (provenance floor : DigestProvenance) : bool :=
  default 0 (provenanceStrength floor) <=? default 0 (provenanceStrength provenance).

Definition DigestProvenanceOf (blob : LockedBlob) : DigestProvenance :=
  match Origin blob with
  | None => "operator"
  | Some origin =>
      if bool_decide (origin_Provenance origin = "") then "operator" else origin_Provenance origin
  end.

(** ** Hex digests *)

Definition is_hex (c : ascii) : bool :=
  is_digit c || byte_between "a" "f" c || byte_between "A" "F" c.

(** [hex.DecodeString] succeeds on an even number of hex digits and returns half
    as many bytes. *)
Definition DecodeHexLen (value : string) : option nat :=
  if all_bytes is_hex value && Nat.even (String.length value)
  then Some (Nat.div2 (String.length value)) else None.

Definition validLowerHex (value : string) (size : nat) : bool :=
  match DecodeHexLen value with
  | Some n => Nat.eqb n size && bool_decide (value = ToLower value)
  | None => false
  end.

Definition ValidSHA256 (value : string) : bool := validLowerHex value 32.
Definition ValidFingerprint (value : string) : bool := validLowerHex value 20.

(** ** Lemmas *)

(** A provenance with an unknown name sits below every known floor. *)
Lemma AtLeast_unknown p floor :
  ValidProvenance p = false → ValidProvenance floor = true → AtLeast p floor = false.
Proof.
  unfold ValidProvenance, AtLeast. destruct (provenanceStrength p); [done|].
  unfold provenanceStrength. intros _.
  repeat (case_bool_decide; [intros; by subst|]). done.
Qed.

Lemma to_lower_fixed c : to_lower_byte c = c ↔ is_upper c = false.
Proof.
  unfold to_lower_byte. destruct (is_upper c) eqn:E; [|done]. split; [|done].
  intros H. exfalso. assert (N_of_ascii (ascii_of_N (N_of_ascii c + 32)) = N_of_ascii c) as H' by (by rewrite H).
  assert (N_of_ascii c ≤ 90)%N.
  { unfold is_upper, byte_between, byte_val in E. apply andb_true_iff in E as [_ E%Z.leb_le].
    change (Z.of_N (N_of_ascii "Z")) with 90 in E. lia. }
  rewrite N_ascii_embedding in H' by lia. lia.
Qed.

Lemma ToLower_fixed s : s = ToLower s ↔ all_bytes (λ c, negb (is_upper c)) s = true.
Proof.
  induction s as [|c s IH]; simpl; [done|]. rewrite andb_true_iff, negb_true_iff, <- IH.
  rewrite <- to_lower_fixed. split; [intros [= H1 H2]; done|intros [-> <-]]. done.
Qed.

Definition is_lower_hex (c : ascii) : bool := is_digit c || byte_between "a" "f" c.

Lemma is_hex_lower c : is_hex c && negb (is_upper c) = is_lower_hex c.
Proof. destruct c as [[] [] [] [] [] [] [] []]; vm_compute; reflexivity. Qed.

(** A digest passes exactly when it is [2 * size] lower-case hex digits. *)
Lemma validLowerHex_spec value size :
  validLowerHex value size = true ↔
  String.length value = (2 * size)%nat ∧ all_bytes is_lower_hex value = true.
Proof.
  unfold validLowerHex, DecodeHexLen.
  assert (all_bytes is_lower_hex value = true ↔
          all_bytes is_hex value = true ∧ value = ToLower value) as Hb.
  { rewrite ToLower_fixed. induction value as [|c v IH]; simpl; [done|].
    rewrite <- is_hex_lower, !andb_true_iff, IH. tauto. }
  rewrite Hb. clear Hb. destruct (all_bytes is_hex value) eqn:Ea; [|split; [done|by intros (_ & ? & _)]]. cbn [andb].
  destruct (Nat.even (String.length value)) eqn:Ee.
  - apply Nat.even_spec in Ee as [k Hk]. rewrite Hk, Nat.div2_double.
    rewrite andb_true_iff, Nat.eqb_eq, bool_decide_eq_true. split; [intros [-> ?]|intros [? [_ ?]]]; split; try done; lia.
  - split; [done|]. intros [H _]. rewrite H, (proj2 (Nat.even_spec _)) in Ee; [done|by exists size].
Qed.
