(* ===== verification/Formats.v ===== *)
(** The format registry of [formats/format.go] and the format-by-host support
    matrix of [host/support.go].

    A [Format] value is an interface with six implementations; [Format] is the
    enumeration of them and each interface method a function by cases.  [Inspect]
    and [Build] belong to the format packages and are not part of this file. *)

From S2P Require Import Prelude GoStrings Model.
From S2P Require Import DebVersion RpmVersion ApkVersion PypiVersion RawVersion.

Open Scope Z_scope.

Inductive Format := pypiFormat | debFormat | helmFormat | rawFormat | rpmFormat | apkFormat.
#[export] Instance Format_eq_dec : EqDecision Format.
Proof. solve_decision. Defined.

(** ** The registry *)

Definition registry : list (string * Format) :=
  [("pypi", pypiFormat); ("deb", debFormat); ("helm", helmFormat);
   ("raw", rawFormat); ("rpm", rpmFormat); ("apk", apkFormat)].

Fixpoint assoc {A} (key : string) (l : list (string * A)) : option A :=
  match l with
  | [] => None
  | (k, a) :: l => if bool_decide (k = key) then Some a else assoc key l
  end.

Definition For (name : string) : result Format :=
  match assoc name registry with
  | Some format => Ok format
  | None => Err "unsupported repository format %q"
  end.

Definition Supported (name : string) : bool :=
  match assoc name registry with Some _ => true | None => false end.

Definition Name (f : Format) : string :=
  match f with
  | pypiFormat => "pypi" | debFormat => "deb" | helmFormat => "helm"
  | rawFormat => "raw" | rpmFormat => "rpm" | apkFormat => "apk"
  end.

Definition MaxArtifactSize (f : Format) : Z :=
  match f with
  | pypiFormat => 2 ^ 30 | debFormat => 256 * 2 ^ 20 | helmFormat => 256 * 2 ^ 20
  | rawFormat => 2 * 2 ^ 30 | rpmFormat => 3 * 2 ^ 30 | apkFormat => 2 ^ 30
  end.

Definition DerivesIdentityFromBytes (f : Format) : bool :=
  match f with rawFormat => false | _ => true end.

Definition RequiresLegacyDigests (f : Format) : bool :=
  match f with debFormat => true | _ => false end.

Definition SupportsDistros (f : Format) : bool :=
  match f with debFormat => true | _ => false end.

(** [pypi.NormalizeName]: runs of dash, underscore and dot become one dash. *)
Fixpoint collapseSeparators (inRun : bool) (name : string) : string :=
  match name with
  | "" => ""
  | String c rest =>
      if mem_byte c "-_." then (if inRun then collapseSeparators true rest else String "-" (collapseSeparators true rest))
      else String c (collapseSeparators false rest)
  end.
Definition NormalizeName (name : string) : string := ToLower (collapseSeparators false name).

(** The method [NormalizeName] of a format. *)
Definition NormalizedName (f : Format) (name : string) : string := match f with pypiFormat => NormalizeName name | _ => name end.

Definition SigningAlgorithm (f : Format) : string :=
  match f with
  | pypiFormat | rawFormat => ""
  | debFormat | helmFormat | rpmFormat => "openpgp-rsa4096"
  | apkFormat => "apk-rsa4096"
  end.

Definition ImplementsSigning (f : Format) : bool :=
  match f with pypiFormat | rawFormat => false | _ => true end.

Record Artifact := mkArtifact { art_Filename : string; art_Architecture : string }.

(** What distinguishes two artifacts of one package version. *)
Definition ArtifactCoordinate (f : Format) (artifact : Artifact) : string :=
  match f with
  | pypiFormat | rawFormat => art_Filename artifact
  | debFormat | rpmFormat | apkFormat => art_Architecture artifact
  | helmFormat => "chart"
  end.

Definition CompareVersions `{SemVer} (f : Format) (l r : string) : result Z :=
  match f with
  | pypiFormat => Pypi.CompareVersions l r
  | debFormat => Deb.CompareVersions l r
  | helmFormat => Helm.CompareVersions l r
  | rawFormat => Raw.CompareVersions l r
  | rpmFormat => Rpm.CompareVersions l r
  | apkFormat => Apk.CompareVersions l r
  end.

Record Identity := mkIdentity { id_Name : string; id_Version : string }.

Definition Supplied (identity : Identity) : bool :=
  negb (bool_decide (id_Name identity = "")) || negb (bool_decide (id_Version identity = "")).

(** A nil [Format] is [None]. *)
Definition IdentityFor (selected : option Format) (name version : string) : Identity :=
  match selected with
  | None => mkIdentity "" ""
  | Some f => if DerivesIdentityFromBytes f then mkIdentity "" "" else mkIdentity name version
  end.

(** The part of [formats.Repository] that [CommitPaths] reads. *)
Record RepositoryView := mkView {
  view_Suite : string;
  view_Architectures : list string;
  view_Signed : bool;
}.

(** [path.Join]: the non-empty elements joined and cleaned. *)
Definition PathJoin (elements : list string) : string :=
  let elements := filter (λ e, e ≠ "") elements in
  match elements with [] => "" | _ => Clean (Join elements "/") end.

(** [path.Split] and [path.Dir]. *)
Definition PathSplit (p : string) : string * string :=
  match cut_last_byte "/" p with Some (directory, file) => (directory +:+ "/", file) | None => ("", p) end.
Definition PathDir (p : string) : string := Clean (PathSplit p).1.

Definition CommitPaths (f : Format) (repository : RepositoryView) : list string :=
  match f with
  | pypiFormat => ["simple/index.html"]
  | helmFormat => ["index.yaml"]
  | rawFormat => ["SHA256SUMS"]
  | debFormat =>
      let release := PathJoin ["dists"; view_Suite repository; "Release"] in
      if view_Signed repository then
        [PathJoin ["dists"; view_Suite repository; "InRelease"]; release;
         PathJoin ["dists"; view_Suite repository; "Release.gpg"]]
      else [release]
  | rpmFormat =>
      if view_Signed repository
      then ["repodata/repomd.xml"; "repodata/repomd.xml.asc"] else ["repodata/repomd.xml"]
  | apkFormat => map (λ a, PathJoin [a; "APKINDEX.tar.gz"]) (view_Architectures repository)
  end.

(** ** The support matrix *)

Record FormatSupport := mkSupport {
  Publish : bool;
  RemoteClientVerification : bool;
  InstallDocument : bool;
}.

Definition noSupport : FormatSupport := mkSupport false false false.
Definition publishOnly : FormatSupport := mkSupport true false false.
Definition fullSupport : FormatSupport := mkSupport true true true.

Definition formatSupport : list (string * list (string * FormatSupport)) :=
  [("local", [("pypi", publishOnly); ("deb", publishOnly); ("helm", publishOnly);
              ("raw", publishOnly); ("rpm", publishOnly); ("apk", publishOnly)]);
   ("s3", [("pypi", fullSupport); ("helm", fullSupport); ("rpm", fullSupport); ("raw", fullSupport)]);
   ("rsync", [("pypi", fullSupport); ("deb", fullSupport); ("helm", fullSupport);
              ("raw", fullSupport); ("rpm", fullSupport); ("apk", fullSupport)]);
   ("github-pages", [("pypi", fullSupport); ("deb", fullSupport); ("helm", fullSupport);
                     ("raw", fullSupport); ("rpm", fullSupport); ("apk", fullSupport)])].

(** An unknown host type or format reads the zero value. *)
Definition Supports (hostType format : string) : FormatSupport :=
  match assoc hostType formatSupport with
  | None => noSupport
  | Some byFormat => default noSupport (assoc format byFormat)
  end.

(** ** Joining two path elements *)

Lemma clean_push_plain rooted stack x :
  x ≠ "" → x ≠ "." → x ≠ ".." → clean_push rooted stack x = x :: stack.
Proof. intros. unfold clean_push. by rewrite !bool_decide_eq_false_2. Qed.

(** A path of one directory and one file, neither special, is clean. *)
Lemma Clean_two a b :
  mem_byte "/" a = false → mem_byte "/" b = false → a ≠ "" → b ≠ "" → a ≠ "." → b ≠ "." →
  a ≠ ".." → b ≠ ".." → Clean (a +:+ "/" +:+ b) = a +:+ "/" +:+ b.
Proof.
  intros Sa Sb Ea Eb Da Db Pa Pb.
  assert (∀ s t, mem_byte "/" s = false → Split "/" (s +:+ String "/" t) = s :: Split "/" t) as Hsplit.
  { induction s as [|c s IH]; intros t; [done|]. cbn [mem_byte]. rewrite str_app_cons.
    intros [Hc Hs]%orb_false_iff. cbn [Split]. by rewrite (IH _ Hs), Hc. }
  assert (∀ s, mem_byte "/" s = false → Split "/" s = [s]) as Hsplit1.
  { induction s as [|c s IH]; [done|]. cbn [mem_byte]. intros [Hc Hs]%orb_false_iff. cbn [Split].
    by rewrite (IH Hs), Hc. }
  unfold Clean. change ("/" +:+ b) with (String "/" b). rewrite Hsplit, Hsplit1 by done.
  cbn [foldl]. rewrite (clean_push_plain _ _ a), (clean_push_plain _ _ b) by done.
  assert (HasPrefix (a +:+ String "/" b) "/" = false) as ->.
  { destruct a as [|c a]; [done|]. cbn [mem_byte] in Sa. apply orb_false_iff in Sa as [Sa _].
    rewrite str_app_cons. cbn [HasPrefix]. by rewrite Sa. }
  change (reverse [b; a]) with [a; b]. cbn [Join].
  rewrite bool_decide_eq_false_2; [done|]. destruct a; done.
Qed.

Lemma PathJoin_two a b : a ≠ "" → b ≠ "" → PathJoin [a; b] = Clean (a +:+ "/" +:+ b).
Proof. intros Ha Hb. unfold PathJoin. by rewrite !filter_cons_True. Qed.

Lemma all_bytes_mem p c s : p c = false → all_bytes p s = true → mem_byte c s = false.
Proof.
  intros Hp. induction s as [|x s IH]; simpl; [done|]. rewrite andb_true_iff. intros [Hx Hs].
  rewrite (IH Hs), orb_false_r. apply ascii_eqb_neq. intros ->. congruence.
Qed.

Lemma mem_byte_app c s t : mem_byte c (s +:+ t) = mem_byte c s || mem_byte c t.
Proof. induction s as [|x s IH]; [done|]. rewrite str_app_cons. simpl. rewrite IH. apply orb_assoc. Qed.

(** ** Properties *)

Lemma assoc_In {A} key (l : list (string * A)) a : assoc key l = Some a → In (key, a) l.
Proof.
  induction l as [|[k b] l IH]; simpl; [done|].
  case_bool_decide; [intros [= ->]; subst; by left|]. intros H'. right. by apply IH.
Qed.

Lemma For_Name name f : For name = Ok f ↔ name = Name f.
Proof.
  unfold For. split.
  - destruct (assoc name registry) eqn:E; [|done]. intros [= ->].
    apply assoc_In in E. simpl in E.
    repeat destruct E as [E|E]; try (by injection E as <- <-); done.
  - intros ->. by destruct f.
Qed.

(** Every pair the matrix lets an object store publish switches on a single
    object: for the formats [Supports] allows on [s3] an unsigned repository has
    exactly one commit path, and every other host type may serve a format with
    several. *)
Theorem s3_single_commit_path f view :
  Publish (Supports "s3" (Name f)) = true → view_Signed view = false →
  length (CommitPaths f view) = 1%nat.
Proof. destruct f; simpl; try done; intros _ ->; done. Qed.

Lemma s3_single_commit_path_witness :
  length (CommitPaths rpmFormat (mkView "" [] false)) = 1%nat.
Proof. apply (s3_single_commit_path rpmFormat (mkView "" [] false)); vm_compute; reflexivity. Defined.

(** The matrix only names registered formats, and a pair offers remote
    verification or an install document only if it publishes. *)
Theorem support_matrix_sound hostType format :
  (Publish (Supports hostType format) = true → Supported format = true) ∧
  (RemoteClientVerification (Supports hostType format) = true →
     Publish (Supports hostType format) = true) ∧
  (InstallDocument (Supports hostType format) = true →
     Publish (Supports hostType format) = true).
Proof.
  unfold Supports. destruct (assoc hostType formatSupport) as [l|] eqn:E; [|done].
  destruct (assoc format l) as [support|] eqn:E2; [|done]. cbn [default].
  apply assoc_In in E, E2. simpl in E.
  repeat destruct E as [E|E]; [injection E as <- <-..|done];
    simpl in E2; repeat (destruct E2 as [E2|E2]; [by injection E2 as <- <-|]); done.
Qed.
