(* ===== verification/Source.v ===== *)
(** Origin URLs and public addresses: [source/source.go].

    Parsing a URL and parsing an address are Go's [net/url] and [net/netip]: the
    class [NetLib] holds the two parsers, about which nothing is assumed.  An
    address is its bits, and the [netip.Addr] predicates are defined on them. *)

From S2P Require Import Prelude GoStrings.

Open Scope Z_scope.

(** The fields of [url.URL] and the results of its methods the code reads. *)
Record URL := mkURL {
  Scheme : string;
  Host : string;
  Hostname : string;
  HasUser : bool;
  RawQuery : string;
  Fragment : string;
  Path : string;
  RawPath : string;
  EscapedPath : string;
  Rendered : string;
}.

Inductive Addr :=
| V4 (bits : Z)
| V6 (bits : Z) (zone : string).

Class NetLib := {
  ParseURL : string → option URL;
  ParseAddr : string → option Addr;
}.

(** ** [netip.Addr] *)

(** [bits] lies in the prefix [base/len] of a [width]-bit address space. *)
Definition in_prefix (width base len bits : Z) : bool :=
  Z.shiftr bits (width - len) =? Z.shiftr base (width - len).

Definition v4 (a b c d : Z) : Z := ((a * 256 + b) * 256 + c) * 256 + d.
(** An IPv6 address by its first four 16-bit groups and the value of the rest. *)
Definition v6 (a b c d rest : Z) : Z :=
  (((a * 2 ^ 16 + b) * 2 ^ 16 + c) * 2 ^ 16 + d) * 2 ^ 64 + rest.

Definition Unmap (address : Addr) : Addr :=
  match address with
  | V6 bits _ => if in_prefix 128 (v6 0 0 0 0 (65535 * 2 ^ 32)) 96 bits
                 then V4 (bits mod 2 ^ 32) else address
  | V4 _ => address
  end.

Definition IsLoopback (address : Addr) : bool :=
  match address with
  | V4 bits => in_prefix 32 (v4 127 0 0 0) 8 bits
  | V6 bits _ => bits =? 1
  end.
Definition IsMulticast (address : Addr) : bool :=
  match address with
  | V4 bits => in_prefix 32 (v4 224 0 0 0) 4 bits
  | V6 bits _ => in_prefix 128 (v6 65280 0 0 0 0) 8 bits
  end.
Definition IsLinkLocalUnicast (address : Addr) : bool :=
  match address with
  | V4 bits => in_prefix 32 (v4 169 254 0 0) 16 bits
  | V6 bits _ => in_prefix 128 (v6 65152 0 0 0 0) 10 bits
  end.
Definition IsLinkLocalMulticast (address : Addr) : bool :=
  match address with
  | V4 bits => in_prefix 32 (v4 224 0 0 0) 24 bits
  | V6 bits _ => Z.land (Z.shiftr bits 112) 65295 =? 65282
  end.
Definition IsPrivate (address : Addr) : bool :=
  match address with
  | V4 bits => in_prefix 32 (v4 10 0 0 0) 8 bits || in_prefix 32 (v4 172 16 0 0) 12 bits ||
               in_prefix 32 (v4 192 168 0 0) 16 bits
  | V6 bits _ => in_prefix 128 (v6 64512 0 0 0 0) 7 bits
  end.
(** Compared as values: a zone makes the IPv6 address a different one. *)
Definition IsUnspecified (address : Addr) : bool :=
  match address with
  | V4 bits => bits =? 0
  | V6 bits zone => (bits =? 0) && bool_decide (zone = "")
  end.
Definition IsGlobalUnicast (address : Addr) : bool :=
  negb (IsUnspecified address) &&
  match address with V4 bits => negb (bits =? v4 255 255 255 255) | V6 _ _ => true end &&
  negb (IsLoopback address) && negb (IsMulticast address) && negb (IsLinkLocalUnicast address).

(** ** The code *)

Inductive Prefix :=
| Prefix4 (base len : Z)
| Prefix6 (base len : Z).

(** [netip.Prefix.Contains]: never an address with a zone. *)
Definition Contains (prefix : Prefix) (address : Addr) : bool :=
  match prefix, address with
  | Prefix4 base len, V4 bits => in_prefix 32 base len bits
  | Prefix6 base len, V6 bits zone => bool_decide (zone = "") && in_prefix 128 base len bits
  | _, _ => false
  end.

Definition deniedPublicPrefixes : list Prefix :=
  [Prefix4 (v4 0 0 0 0) 8; Prefix4 (v4 100 64 0 0) 10; Prefix4 (v4 192 0 0 0) 24;
   Prefix4 (v4 192 88 99 0) 24; Prefix4 (v4 192 0 2 0) 24; Prefix4 (v4 198 18 0 0) 15;
   Prefix4 (v4 198 51 100 0) 24; Prefix4 (v4 203 0 113 0) 24; Prefix4 (v4 240 0 0 0) 4;
   Prefix6 (v6 100 65435 0 0 0) 96; Prefix6 (v6 100 65435 1 0 0) 48; Prefix6 (v6 256 0 0 0 0) 64;
   Prefix6 (v6 8193 0 0 0 0) 32; Prefix6 (v6 8193 2 0 0 0) 48; Prefix6 (v6 8193 16 0 0 0) 28;
   Prefix6 (v6 8193 32 0 0 0) 28; Prefix6 (v6 8193 3512 0 0 0) 32; Prefix6 (v6 8194 0 0 0 0) 16;
   Prefix6 (v6 16383 0 0 0 0) 20; Prefix6 (v6 24320 0 0 0 0) 16; Prefix6 (v6 65216 0 0 0 0) 10].

Definition IsPublicAddress (address : Addr) : bool :=
  let address := Unmap address in
  if negb (IsGlobalUnicast address) || IsPrivate address || IsLoopback address ||
     IsLinkLocalUnicast address || IsLinkLocalMulticast address || IsMulticast address ||
     IsUnspecified address
  then false
  else negb (existsb (λ prefix, Contains prefix address) deniedPublicPrefixes).

Definition unsafeURLBytes : string :=
  String "000" (String "013" (String "010" "\")).

Definition validateURL `{NetLib} (value : option URL) : result () :=
  match value with
  | None => Err "source URL must be an absolute HTTPS URL"
  | Some value =>
      refuse "source URL must be an absolute HTTPS URL"
        when negb (bool_decide (Scheme value = "https")) || bool_decide (Host value = "") ||
             bool_decide (Hostname value = "");
      refuse "source URL must not contain credentials, query, or fragment"
        when HasUser value || negb (bool_decide (Fragment value = ""));
      let hostname := TrimSuffix (ToLower (Hostname value)) "." in
      refuse "source URL host is not public"
        when bool_decide (hostname = "localhost") || HasSuffix hostname ".localhost";
      refuse "source URL address is not public"
        when match ParseAddr hostname with
             | Some address => negb (IsPublicAddress address)
             | None => false
             end;
      refuse "source URL contains unsafe path characters"
        when ContainsAny (Rendered value) unsafeURLBytes || mem_byte "\" (Path value) ||
             HasControl (Path value) || GoStrings.Contains (ToLower (RawPath value)) "%2f" ||
             GoStrings.Contains (ToLower (RawPath value)) "%5c";
      refuse "source URL contains unsafe dot segments"
        when existsb (λ segment, bool_decide (segment = ".") || bool_decide (segment = ".."))
               (Split "/" (Path value));
      Ok ()
  end.

Definition ValidatePublicURL `{NetLib} (value : option URL) : result () :=
  refuse "source URL must not contain credentials, query, or fragment"
    when match value with Some v => negb (bool_decide (RawQuery v = "")) | None => false end;
  validateURL value.

Definition ValidateRedirectURL `{NetLib} (value : option URL) : result () := validateURL value.

(** ** Properties *)

(** The address ranges that are never public, with the reason the code gives. *)
Definition reservedV4 : list (Z * Z) :=
  [(v4 0 0 0 0, 8); (v4 10 0 0 0, 8); (v4 100 64 0 0, 10); (v4 127 0 0 0, 8);
   (v4 169 254 0 0, 16); (v4 172 16 0 0, 12); (v4 192 0 0 0, 24); (v4 192 0 2 0, 24);
   (v4 192 88 99 0, 24); (v4 192 168 0 0, 16); (v4 198 18 0 0, 15); (v4 198 51 100 0, 24);
   (v4 203 0 113 0, 24); (v4 224 0 0 0, 4); (v4 240 0 0 0, 4)].

Ltac public_cases H :=
  repeat match type of H with
  | (if ?c then _ else _) = true => destruct c eqn:?; [discriminate H|]
  end; split_bools.

(** no IPv4 address of a private, loopback, link-local, multicast,
    shared or otherwise reserved range passes as public, written as IPv4 or as an
    IPv4-mapped IPv6 address. *)
Theorem public_address_not_reserved bits zone base len :
  0 ≤ bits < 2 ^ 32 → In (base, len) reservedV4 → in_prefix 32 base len bits = true →
  IsPublicAddress (V4 bits) = false ∧
  IsPublicAddress (V6 (v6 0 0 0 0 (65535 * 2 ^ 32 + bits)) zone) = false.
Proof.
  intros Hb Hin Hp.
  assert (IsPublicAddress (V4 bits) = false) as H4.
  { unfold IsPublicAddress, IsGlobalUnicast, IsPrivate, IsLoopback, IsLinkLocalUnicast,
      IsLinkLocalMulticast, IsMulticast, IsUnspecified, Unmap, deniedPublicPrefixes, Contains.
    cbn [existsb].
    repeat (destruct Hin as [[= <- <-]|Hin]; [rewrite Hp; cbn [negb orb andb];
      rewrite ?orb_true_r, ?andb_false_r; cbn [negb orb andb]; rewrite ?orb_true_r;
      try done; by destruct (_ || _)%bool|]).
    destruct Hin. }
  split; [done|].
  assert (Unmap (V6 (v6 0 0 0 0 (65535 * 2 ^ 32 + bits)) zone) = V4 bits) as Hu.
  { unfold Unmap, v6.
    replace ((((0 * 2 ^ 16 + 0) * 2 ^ 16 + 0) * 2 ^ 16 + 0) * 2 ^ 64 + (65535 * 2 ^ 32 + bits))
      with (bits + 65535 * 2 ^ 32) by lia.
    unfold in_prefix. rewrite !Z.shiftr_div_pow2 by lia.
    change (128 - 96) with 32. rewrite Z.div_add by lia.
    rewrite (Z.div_small bits) by lia. rewrite Z.mod_add by lia.
    by rewrite (Z.mod_small bits) by lia. }
  unfold IsPublicAddress in *. rewrite Hu. exact H4.
Qed.

Lemma public_address_not_reserved_witness :
  IsPublicAddress (V4 (v4 10 1 2 3)) = false ∧
  IsPublicAddress (V6 (v6 0 0 0 0 (65535 * 2 ^ 32 + v4 10 1 2 3)) "") = false.
Proof.
  apply (public_address_not_reserved (v4 10 1 2 3) "" (v4 10 0 0 0) 8).
  - vm_compute. split; [discriminate|reflexivity].
  - right. left. reflexivity.
  - vm_compute. reflexivity.
Defined.

(** A zone disables the denied IPv6 prefixes: an address of the
    documentation prefix 2001:db8::/32, refused without a zone, is accepted as
    public with one, and so is the unspecified address. *)
Theorem public_address_zone_bypass bits zone :
  zone ≠ "" → 0 ≤ bits < 2 ^ 96 →
  IsPublicAddress (V6 (v6 8193 3512 0 0 0 + bits) "") = false ∧
  IsPublicAddress (V6 (v6 8193 3512 0 0 0 + bits) zone) = true.
Proof.
  intros Hz Hb. set (a := v6 8193 3512 0 0 0 + bits).
  assert (Z.shiftr a 96 = Z.shiftr (v6 8193 3512 0 0 0) 96) as Ha.
  { unfold a. rewrite !Z.shiftr_div_pow2 by lia.
    change (v6 8193 3512 0 0 0) with (536939960 * 2 ^ 96).
    rewrite Z.add_comm, Z.div_add, Z.div_small, Z.div_mul by lia. done. }
  assert (∀ base len, 0 ≤ len ≤ 32 →
    in_prefix 128 base len a = (Z.shiftr 536939960 (32 - len) =? Z.shiftr base (128 - len))) as Hin.
  { intros base len Hl. unfold in_prefix. f_equal.
    replace (128 - len) with (96 + (32 - len)) at 1 by lia.
    rewrite <- Z.shiftr_shiftr by lia. by rewrite Ha. }
  assert (in_prefix 128 (v6 0 0 0 0 (65535 * 2 ^ 32)) 96 a = false) as Hm.
  { unfold in_prefix. apply Z.eqb_neq. intros H.
    apply (f_equal (λ z, Z.shiftr z 64)) in H. rewrite !Z.shiftr_shiftr in H by lia.
    change (128 - 96 + 64) with 96 in H. rewrite Ha in H. by vm_compute in H. }
  assert ((a =? 1) = false ∧ (a =? 0) = false) as [H1 H0].
  { unfold a. change (v6 8193 3512 0 0 0) with (536939960 * 2 ^ 96). split; apply Z.eqb_neq; lia. }
  assert ((Z.land (Z.shiftr a 112) 65295 =? 65282) = false) as Hl.
  { replace 112 with (96 + 16) by lia. rewrite <- Z.shiftr_shiftr, Ha by lia. by vm_compute. }
  assert (bool_decide (zone = "") = false) as Hzd by (by apply bool_decide_eq_false).
  split.
  - unfold IsPublicAddress, Unmap. rewrite Hm. destruct (_ || _)%bool; [done|].
    apply negb_false_iff, existsb_exists. exists (Prefix6 (v6 8193 3512 0 0 0) 32).
    split; [unfold deniedPublicPrefixes; simpl; tauto|].
    cbn [Contains]. rewrite bool_decide_eq_true_2 by done. rewrite Hin by lia. by vm_compute.
  - unfold IsPublicAddress, Unmap. rewrite Hm.
    unfold IsGlobalUnicast, IsPrivate, IsLoopback, IsLinkLocalUnicast, IsLinkLocalMulticast,
      IsMulticast, IsUnspecified, deniedPublicPrefixes, Contains. cbn [existsb].
    rewrite Hzd, !Hin, H1, H0, Hl by lia. by vm_compute.
Qed.

Lemma public_address_zone_bypass_witness :
  IsPublicAddress (V6 (v6 8193 3512 0 0 0 + 1) "") = false ∧
  IsPublicAddress (V6 (v6 8193 3512 0 0 0 + 1) "eth0") = true.
Proof.
  apply (public_address_zone_bypass 1 "eth0"); [discriminate|lia].
Defined.
