(* ===== verification/Lock.v ===== *)
(** The repository lock: the lock half of [internal/state/store.go] and
    [internal/state/prune.go].

    An operation takes the lock and returns the lock it leaves behind together
    with its result, so that what an error path has already changed is visible.
    A Go [map[string]bool] is a [gset string]. *)

From S2P Require Import Prelude GoStrings GoSlices GoRegexp Model Formats Source.

Open Scope Z_scope.

(** ** Patterns *)

Definition is_alnum (c : ascii) : bool := is_digit c || is_letter c.
Definition is_coordinate_byte (c : ascii) : bool := is_alnum c || mem_byte c "._+-".

(** [^[A-Za-z0-9][A-Za-z0-9._+-]{0,127}$] *)
Definition placementCoordinatePattern : re :=
  Cat (Chr is_alnum) (UpTo 127 (Chr is_coordinate_byte)).

Definition validatePlacementCoordinates (format track distro : string) : result () :=
  refuse "invalid placement track" when negb (MatchFull placementCoordinatePattern track);
  selected ← For format;
  if SupportsDistros selected then
    refuse "invalid Debian placement distro" when negb (MatchFull placementCoordinatePattern distro);
    Ok ()
  else
    refuse "format does not support placement distros" when negb (bool_decide (distro = ""));
    Ok ().

Definition packageVersionExists (lock : RepositoryLock) (packageName version : string) : bool :=
  existsb (λ pv, bool_decide (pv_Package pv = packageName) && bool_decide (pv_Version pv = version))
    (lock_PackageVersion lock).

Definition legacyDigestConflict (existing derived : LockedBlob) : bool :=
  if negb (bool_decide (MD5 existing = "")) && negb (bool_decide (MD5 derived = "")) &&
     negb (bool_decide (MD5 existing = MD5 derived))
  then true
  else negb (bool_decide (SHA1 existing = "")) && negb (bool_decide (SHA1 derived = "")) &&
       negb (bool_decide (SHA1 existing = SHA1 derived)).

(** ** Canonical order *)

Definition blobLess (l r : LockedBlob) : bool :=
  less_then (Architecture l) (Architecture r)
    (less_then (Filename l) (Filename r) (str_ltb (SHA256 l) (SHA256 r))).

Definition versionLess (l r : PackageVersion) : bool :=
  less_then (pv_Package l) (pv_Package r) (str_ltb (pv_Version l) (pv_Version r)).

Definition placementLess (l r : Placement) : bool :=
  less_then (pl_Package l) (pl_Package r)
    (less_then (pl_Version l) (pl_Version r)
       (less_then (pl_Track l) (pl_Track r) (str_ltb (pl_Distro l) (pl_Distro r)))).

Definition canonicalizeLock (lock : RepositoryLock) : RepositoryLock :=
  let sorted_blobs := map (λ pv, set_blobs (sort_slice blobLess (pv_Blobs pv)) pv)
                        (lock_PackageVersion lock) in
  set_placements (sort_slice placementLess (lock_Placement lock))
    (set_versions (sort_slice versionLess sorted_blobs) lock).

(** ** Operations *)

Definition coordinateOf (selected : Format) (blob : LockedBlob) : string :=
  ArtifactCoordinate selected (mkArtifact (Filename blob) (Architecture blob)).

Definition placementAt (packageName version track distro : string) (p : Placement) : bool :=
  bool_decide (pl_Package p = packageName) && bool_decide (pl_Version p = version) &&
  bool_decide (pl_Track p = track) && bool_decide (pl_Distro p = distro).

(** The loop over the blobs already bound: whether the added blob is one of
    them, or the reason it may not be added. *)
Fixpoint matchExisting (selected : Format) (blob : LockedBlob) (blobs : list LockedBlob) : result bool :=
  match blobs with
  | [] => Ok false
  | existing :: rest =>
      if bool_decide (SHA256 existing = SHA256 blob) && bool_decide (Filename existing = Filename blob) then
        refuse "package has inconsistent metadata for existing bytes"
          when negb (Size existing =? Size blob) || legacyDigestConflict existing blob ||
               negb (bool_decide (Architecture existing = Architecture blob));
        Ok true
      else
        refuse "package is already bound to different bytes"
          when bool_decide (Filename existing = Filename blob) ||
               bool_decide (coordinateOf selected existing = coordinateOf selected blob);
        matchExisting selected blob rest
  end.

(** The first recorded version with this name and version, and its index. *)
Definition findVersion (packageName version : string) (pvs : list PackageVersion)
    : option (nat * PackageVersion) :=
  list_find (λ pv, pv_Package pv = packageName ∧ pv_Version pv = version) pvs.

Definition AddBlob (lock : RepositoryLock) (format track distro : string) (blob : LockedBlob)
    (packageName version : string) : RepositoryLock * result bool :=
  match For format with
  | Err e => (lock, Err e)
  | Ok selected =>
      let track := if bool_decide (track = "") then "stable" else track in
      match validatePlacementCoordinates format track distro with
      | Err e => (lock, Err e)
      | Ok _ =>
          if negb (bool_decide (Base (Filename blob) = Filename blob)) || bool_decide (Filename blob = "")
          then (lock, Err "unsafe artifact filename")
          else
            let '(index, packageVersion, pvs) :=
              match findVersion packageName version (lock_PackageVersion lock) with
              | Some (i, pv) => (i, pv, lock_PackageVersion lock)
              | None =>
                  let pv := mkPackageVersion packageName version "draft" [] in
                  (length (lock_PackageVersion lock), pv, lock_PackageVersion lock ++ [pv])
              end in
            let lock := set_versions pvs lock in
            match matchExisting selected blob (pv_Blobs packageVersion) with
            | Err e => (lock, Err e)
            | Ok blobExists =>
                let packageVersion :=
                  if blobExists then packageVersion
                  else set_blobs (pv_Blobs packageVersion ++ [blob]) packageVersion in
                let lock := set_versions (<[index := packageVersion]> pvs) lock in
                let placementExists :=
                  existsb (placementAt packageName version track distro) (lock_Placement lock) in
                let lock :=
                  if placementExists then lock
                  else set_placements
                         (lock_Placement lock ++ [mkPlacement packageName version track distro]) lock in
                (lock, Ok (negb blobExists || negb placementExists))
            end
      end
  end.

(** The inner loop of [SetBlobOrigin]: [None] when no blob matches. *)
Fixpoint setOriginInBlobs (filename digest : string) (origin : ArtifactOrigin) (blobs : list LockedBlob)
    : option (list LockedBlob * result bool) :=
  match blobs with
  | [] => None
  | locked :: rest =>
      if negb (bool_decide (Filename locked = filename)) || negb (bool_decide (SHA256 locked = digest)) then
        match setOriginInBlobs filename digest origin rest with
        | Some (rest', r) => Some (locked :: rest', r)
        | None => None
        end
      else
        match Origin locked with
        | Some recorded =>
            if bool_decide (recorded = origin) then Some (blobs, Ok false)
            else Some (blobs, Err "artifact already records a different origin")
        | None => Some (set_origin (Some origin) locked :: rest, Ok true)
        end
  end.

Fixpoint setOriginInVersions (packageName version filename digest : string) (origin : ArtifactOrigin)
    (pvs : list PackageVersion) : list PackageVersion * result bool :=
  match pvs with
  | [] => ([], Err "artifact is not recorded in the lock")
  | pv :: rest =>
      let '(rest', r) := setOriginInVersions packageName version filename digest origin rest in
      if negb (bool_decide (pv_Package pv = packageName)) || negb (bool_decide (pv_Version pv = version))
      then (pv :: rest', r)
      else match setOriginInBlobs filename digest origin (pv_Blobs pv) with
           | Some (blobs', done) => (set_blobs blobs' pv :: rest, done)
           | None => (pv :: rest', r)
           end
  end.

Definition SetBlobOrigin (lock : RepositoryLock) (packageName version filename digest : string)
    (origin : ArtifactOrigin) : RepositoryLock * result bool :=
  let '(pvs, r) :=
    setOriginInVersions packageName version filename digest origin (lock_PackageVersion lock) in
  (set_versions pvs lock, r).

Definition PromotePlacement (lock : RepositoryLock) (format packageName version track distro : string)
    : RepositoryLock * result bool :=
  match validatePlacementCoordinates format track distro with
  | Err e => (lock, Err e)
  | Ok _ =>
      if negb (packageVersionExists lock packageName version)
      then (lock, Err "package version is not recorded")
      else if existsb (placementAt packageName version track distro) (lock_Placement lock)
      then (lock, Ok false)
      else
        let lock := set_placements
                      (lock_Placement lock ++ [mkPlacement packageName version track distro]) lock in
        (canonicalizeLock lock, Ok true)
  end.

Definition yankMatches (packageName version track distro : string) (all : bool) (p : Placement) : bool :=
  let matches := bool_decide (pl_Package p = packageName) && bool_decide (pl_Version p = version) in
  if all then matches
  else matches && bool_decide (pl_Track p = track) && bool_decide (pl_Distro p = distro).

Definition YankPlacements (lock : RepositoryLock) (format packageName version track distro : string)
    (all : bool) : RepositoryLock * result Z :=
  if negb (packageVersionExists lock packageName version)
  then (lock, Err "package version is not recorded")
  else
    match
      (if all then
         refuse "all-placement yank cannot select a track or distro"
           when negb (bool_decide (track = "")) || negb (bool_decide (distro = ""));
         Ok ()
       else validatePlacementCoordinates format track distro)
    with
    | Err e => (lock, Err e)
    | Ok _ =>
        let matches := yankMatches packageName version track distro all in
        let kept := List.filter (λ p, negb (matches p)) (lock_Placement lock) in
        let removed := length (List.filter matches (lock_Placement lock)) in
        (canonicalizeLock (set_placements kept lock), Ok (Z.of_nat removed))
    end.

(** ** Validation *)

Definition ValidateArtifactOrigin `{NetLib} (origin : ArtifactOrigin) : result () :=
  let parsed := ParseURL (origin_URL origin) in
  refuse "invalid artifact origin"
    when negb (bool_decide (origin_Kind origin = "https")) || bool_decide (parsed = None) ||
         negb (is_ok (ValidatePublicURL parsed));
  refuse "artifact origin records digest provenance, which is not one snailmail knows"
    when negb (bool_decide (origin_Provenance origin = "")) && negb (ValidProvenance (origin_Provenance origin));
  Ok ().

(** The checks on one blob that do not look at the others. *)
Definition validateBlob `{NetLib} (blob : LockedBlob) : result () :=
  refuse "invalid locked blob filename or size"
    when bool_decide (Filename blob = "") || negb (bool_decide (Base (Filename blob) = Filename blob)) ||
         HasControl (Filename blob) || (Size blob <? 0);
  refuse "invalid locked blob SHA-256" when negb (validLowerHex (SHA256 blob) 32);
  refuse "invalid locked blob origin"
    when match Origin blob with
         | Some origin => negb (is_ok (ValidateArtifactOrigin origin))
         | None => false
         end;
  Ok ().

(** The inner loop of [ValidateLock], [coordinates] being those already seen. *)
Fixpoint validateBlobs `{NetLib} (selected : Format) (coordinates : gset string)
    (blobs : list LockedBlob) : result () :=
  match blobs with
  | [] => Ok ()
  | blob :: rest =>
      _ ← validateBlob blob;
      refuse "duplicate blob coordinate" when bool_decide (coordinateOf selected blob ∈ coordinates);
      validateBlobs selected ({[coordinateOf selected blob]} ∪ coordinates) rest
  end.

Definition versionIdentity (packageName version : string) : string :=
  packageName +:+ nul +:+ version.

(** The loop over package versions; the identities seen are its result. *)
Fixpoint validateVersions `{NetLib} (selected : Format) (versions : gset string)
    (pvs : list PackageVersion) : result (gset string) :=
  match pvs with
  | [] => Ok versions
  | pv :: rest =>
      refuse "invalid package version"
        when bool_decide (pv_Package pv = "") || bool_decide (pv_Version pv = "") ||
             negb (bool_decide (pv_State pv = "draft")) || bool_decide (pv_Blobs pv = []);
      let identity := versionIdentity (pv_Package pv) (pv_Version pv) in
      refuse "duplicate package version" when bool_decide (identity ∈ versions);
      _ ← validateBlobs selected ∅ (pv_Blobs pv);
      validateVersions selected ({[identity]} ∪ versions) rest
  end.

Definition placementIdentity (p : Placement) : string :=
  versionIdentity (pl_Package p) (pl_Version p) +:+ nul +:+ pl_Track p +:+ nul +:+ pl_Distro p.

Fixpoint validatePlacements (versions placements : gset string) (pls : list Placement) : result () :=
  match pls with
  | [] => Ok ()
  | p :: rest =>
      refuse "dangling or invalid placement"
        when negb (bool_decide (versionIdentity (pl_Package p) (pl_Version p) ∈ versions)) ||
             bool_decide (pl_Track p = "");
      refuse "duplicate placement" when bool_decide (placementIdentity p ∈ placements);
      validatePlacements versions ({[placementIdentity p]} ∪ placements) rest
  end.

Definition ValidateLock `{NetLib} (lock : RepositoryLock) (expectedRepository format : string) : result () :=
  refuse "lock repository identity does not match"
    when negb (lock_SchemaVersion lock =? LockSchema) ||
         negb (bool_decide (lock_Repository lock = expectedRepository));
  selected ← For format;
  versions ← validateVersions selected ∅ (lock_PackageVersion lock);
  validatePlacements versions ∅ (lock_Placement lock).
