(* ===== verification/LockInvariant.v ===== *)
(** What a valid lock is, that [ValidateLock] decides it, and that every
    operation of [Lock] keeps it.

    [lock_wf] speaks of tuples where the code joins strings with NUL bytes; on
    NUL-free names the two agree ([validate_lock_exact]). *)

From S2P Require Import Prelude GoStrings GoSlices GoRegexp Model Formats Source Lock.

Open Scope Z_scope.

Section wf.
Context `{NetLib} (selected : Format).

Record blob_wf (b : LockedBlob) : Prop := {
  bw_nonempty : Filename b ≠ "";
  bw_base : Base (Filename b) = Filename b;
  bw_control : HasControl (Filename b) = false;
  bw_size : 0 ≤ Size b;
  bw_digest : String.length (SHA256 b) = 64%nat ∧ all_bytes is_lower_hex (SHA256 b) = true;
  bw_origin : ∀ o, Origin b = Some o → ValidateArtifactOrigin o = Ok ();
}.

Record version_wf (pv : PackageVersion) : Prop := {
  vw_package : pv_Package pv ≠ "";
  vw_version : pv_Version pv ≠ "";
  vw_state : pv_State pv = "draft";
  vw_nonempty : pv_Blobs pv ≠ [];
  vw_blobs : Forall blob_wf (pv_Blobs pv);
  vw_coordinates : NoDup (coordinateOf selected <$> pv_Blobs pv);
}.

Definition version_key (pv : PackageVersion) : string * string := (pv_Package pv, pv_Version pv).
Definition placed_version (p : Placement) : string * string := (pl_Package p, pl_Version p).

Record lock_wf (repository : string) (lock : RepositoryLock) : Prop := {
  lw_schema : lock_SchemaVersion lock = LockSchema;
  lw_repository : lock_Repository lock = repository;
  lw_versions : Forall version_wf (lock_PackageVersion lock);
  lw_distinct : NoDup (version_key <$> lock_PackageVersion lock);
  lw_placed : Forall (λ p, placed_version p ∈ version_key <$> lock_PackageVersion lock ∧ pl_Track p ≠ "")
                (lock_Placement lock);
  lw_placements : NoDup (lock_Placement lock);
}.

(** ** Validation decides well-formedness *)

Lemma validateBlob_spec b : validateBlob b = Ok () ↔ blob_wf b.
Proof.
  unfold validateBlob. split.
  - intros Hv. case_guards Hv. split_bools. split; try done; [lia| |].
    + by apply (validLowerHex_spec _ 32).
    + intros o Ho. rewrite Ho in *. split_bools.
      destruct (ValidateArtifactOrigin o) as [[]|]; [done|discriminate].
  - intros [Hn Hb Hc Hs Hd Ho].
    rewrite !bool_decide_eq_false_2, bool_decide_eq_true_2, Hc by done. simpl.
    destruct (Z.ltb_spec (Size b) 0); [lia|]. simpl.
    apply (validLowerHex_spec _ 32) in Hd. rewrite Hd. simpl.
    destruct (Origin b); [|done]. by rewrite Ho.
Qed.

Lemma validateBlobs_spec seen blobs :
  validateBlobs selected seen blobs = Ok () ↔
  Forall blob_wf blobs ∧ all_new seen (coordinateOf selected <$> blobs).
Proof.
  revert seen; induction blobs as [|b blobs IH]; intros seen.
  - simpl. split; [|done]. split; [constructor|apply all_new_nil].
  - rewrite fmap_cons, all_new_cons, Forall_cons, <- validateBlob_spec. simpl.
    destruct (validateBlob b) as [[]|] eqn:E; simpl; [|naive_solver].
    case_bool_decide; [naive_solver|]. rewrite IH. naive_solver.
Qed.

Definition identityOf (pv : PackageVersion) : string := versionIdentity (pv_Package pv) (pv_Version pv).

Lemma validateVersions_spec seen pvs vs :
  validateVersions selected seen pvs = Ok vs ↔
  Forall version_wf pvs ∧ all_new seen (identityOf <$> pvs) ∧ vs = list_to_set (identityOf <$> pvs) ∪ seen.
Proof.
  revert seen; induction pvs as [|pv pvs IH]; intros seen.
  - simpl. rewrite (left_id_L ∅ (∪)). split; [intros [= <-]|by intros (_ & _ & ->)].
    split; [constructor|]. split; [apply all_new_nil|done].
  - rewrite fmap_cons, all_new_cons, Forall_cons. simpl.
    assert (version_wf pv ↔ bool_decide (pv_Package pv = "") || bool_decide (pv_Version pv = "") ||
      negb (bool_decide (pv_State pv = "draft")) || bool_decide (pv_Blobs pv = []) = false ∧
      validateBlobs selected ∅ (pv_Blobs pv) = Ok ()) as ->.
    { rewrite validateBlobs_spec, all_new_empty. rewrite !orb_false_iff, negb_false_iff, !bool_decide_eq_false, bool_decide_eq_true.
      split; [by intros []|]. intros ((((?&?)&?)&?)&?&?). by split. }
    destruct (_ || _); [naive_solver|].
    change (versionIdentity _ _) with (identityOf pv).
    case_bool_decide; [naive_solver|].
    destruct (validateBlobs selected ∅ (pv_Blobs pv)) as [[]|] eqn:Eb; simpl;
      [|split; [done|intros ([[_ ?] _] & _); congruence]].
    rewrite IH, (assoc_L (∪)), (comm_L (∪) (list_to_set _) {[identityOf pv]}).
    naive_solver.
Qed.

Lemma validatePlacements_spec versions seen pls :
  validatePlacements versions seen pls = Ok () ↔
  Forall (λ p, versionIdentity (pl_Package p) (pl_Version p) ∈ versions ∧ pl_Track p ≠ "") pls ∧
  all_new seen (placementIdentity <$> pls).
Proof.
  revert seen; induction pls as [|p pls IH]; intros seen.
  - simpl. split; [|done]. split; [constructor|apply all_new_nil].
  - rewrite fmap_cons, all_new_cons, Forall_cons. simpl.
    case_bool_decide; simpl; [|naive_solver].
    case_bool_decide; simpl; [naive_solver|].
    case_bool_decide; simpl; [naive_solver|]. rewrite IH. naive_solver.
Qed.
End wf.

(** The names the joined identities are built from carry no NUL byte. *)
Definition lock_nul_free (lock : RepositoryLock) : Prop :=
  Forall (λ pv, nul_free (pv_Package pv) = true ∧ nul_free (pv_Version pv) = true)
    (lock_PackageVersion lock) ∧
  Forall (λ p, nul_free (pl_Package p) = true ∧ nul_free (pl_Version p) = true ∧
               nul_free (pl_Track p) = true) (lock_Placement lock).

Lemma versionIdentity_inj a b c d :
  nul_free a = true → nul_free c = true → versionIdentity a b = versionIdentity c d → (a, b) = (c, d).
Proof. intros Ha Hc E. by destruct (nul_join_inj a b c d Ha Hc E) as [-> ->]. Qed.

Lemma placementIdentity_inj p q :
  nul_free (pl_Package p) = true ∧ nul_free (pl_Version p) = true ∧ nul_free (pl_Track p) = true →
  nul_free (pl_Package q) = true ∧ nul_free (pl_Version q) = true ∧ nul_free (pl_Track q) = true →
  placementIdentity p = placementIdentity q → p = q.
Proof.
  destruct p as [a b c d], q as [a' b' c' d']. simpl. intros (Ha & Hb & Hc) (Ha' & Hb' & Hc').
  unfold placementIdentity, versionIdentity; cbn [pl_Package pl_Version pl_Track pl_Distro].
  rewrite !str_app_assoc. intros E.
  apply nul_join_inj in E as [-> E]; [|done..].
  apply nul_join_inj in E as [-> E]; [|done..].
  by apply nul_join_inj in E as [-> ->].
Qed.

(** [ValidateLock] in terms of the joined identities. *)
Lemma ValidateLock_joined `{NetLib} lock repository format selected :
  For format = Ok selected →
  ValidateLock lock repository format = Ok () ↔
  lock_SchemaVersion lock = LockSchema ∧ lock_Repository lock = repository ∧
  Forall (version_wf selected) (lock_PackageVersion lock) ∧
  NoDup (identityOf <$> lock_PackageVersion lock) ∧
  Forall (λ p, versionIdentity (pl_Package p) (pl_Version p) ∈ identityOf <$> lock_PackageVersion lock ∧
               pl_Track p ≠ "") (lock_Placement lock) ∧
  NoDup (placementIdentity <$> lock_Placement lock).
Proof.
  intros Hf. unfold ValidateLock. rewrite Hf. cbn [mbind result_bind].
  destruct (Z.eqb_spec (lock_SchemaVersion lock) LockSchema); simpl; [|naive_solver].
  case_bool_decide; simpl; [|naive_solver].
  destruct (validateVersions selected ∅ (lock_PackageVersion lock)) as [vs|] eqn:Ev; simpl.
  - apply validateVersions_spec in Ev as (Hv & Hd & ->). rewrite all_new_empty in Hd.
    rewrite validatePlacements_spec, all_new_empty, (right_id_L ∅ (∪)).
    setoid_rewrite elem_of_list_to_set. naive_solver.
  - split; [done|]. intros (_ & _ & Hv & Hd & _). exfalso.
    assert (validateVersions selected ∅ (lock_PackageVersion lock) =
      Ok (list_to_set (identityOf <$> lock_PackageVersion lock) ∪ ∅)) as E; [|congruence].
    apply validateVersions_spec. by rewrite all_new_empty.
Qed.

(** [ValidateLock] decides well-formedness of a lock without NUL bytes. *)
Lemma ValidateLock_exact `{NetLib} lock repository format selected :
  For format = Ok selected → lock_nul_free lock →
  ValidateLock lock repository format = Ok () ↔ lock_wf selected repository lock.
Proof.
  intros Hf [Hpv Hpl]. rewrite (ValidateLock_joined _ _ _ selected Hf).
  rewrite Forall_forall in Hpv. rewrite Forall_forall in Hpl.
  assert (NoDup (identityOf <$> lock_PackageVersion lock) ↔ NoDup (version_key <$> lock_PackageVersion lock)) as ->.
  { apply NoDup_fmap_iff. intros x y Hx Hy. split; [|by intros [= E1 E2]; unfold identityOf; rewrite E1, E2].
    apply versionIdentity_inj; by apply Hpv. }
  assert (NoDup (placementIdentity <$> lock_Placement lock) ↔ NoDup (id <$> lock_Placement lock)) as ->.
  { apply NoDup_fmap_iff. intros x y Hx Hy. split; [|by intros [= ->]].
    apply placementIdentity_inj; by apply Hpl. }
  rewrite list_fmap_id.
  assert (∀ p, p ∈ lock_Placement lock →
    versionIdentity (pl_Package p) (pl_Version p) ∈ identityOf <$> lock_PackageVersion lock ↔
    placed_version p ∈ version_key <$> lock_PackageVersion lock) as Hin.
  { intros p Hp. rewrite !list_elem_of_fmap. split; intros (x & E & Hx); exists x; (split; [|done]).
    - apply versionIdentity_inj; [apply (Hpl _ Hp)|apply (Hpv _ Hx)|done].
    - injection E as E1 E2. unfold identityOf. by rewrite E1, E2. }
  assert (∀ p, p ∈ lock_Placement lock →
    (versionIdentity (pl_Package p) (pl_Version p) ∈ identityOf <$> lock_PackageVersion lock ∧ pl_Track p ≠ "") ↔
    (placed_version p ∈ version_key <$> lock_PackageVersion lock ∧ pl_Track p ≠ "")) as Hin'.
  { intros p Hp. by rewrite Hin. }
  split.
  - intros (? & ? & ? & ? & Hpls & ?). split; try done.
    apply Forall_forall. intros p Hp. apply Hin'; [done|]. by apply (proj1 (Forall_forall _ _) Hpls).
  - intros [? ? Hv ? Hpls ?]. repeat (split; [done|]). split; [|done].
    apply Forall_forall. intros p Hp. apply Hin'; [done|]. by apply (proj1 (Forall_forall _ _) Hpls).
Qed.

(** C35: On a lock whose package names, versions and tracks are free of NUL bytes
    (the separator of the joined identities), [ValidateLock] accepts
    exactly the well-formed locks: the recorded identity, non-empty draft versions
    recorded once each, blobs with safe names, a size that is not negative, a
    lower-case SHA-256, a valid origin and one blob per artifact coordinate, and
    placements that are distinct, on a track, and name a recorded version. *)
Theorem validate_lock_exact `{NetLib} lock repository format selected :
  For format = Ok selected → lock_nul_free lock →
  ValidateLock lock repository format = Ok () ↔ lock_wf selected repository lock.
Proof. apply ValidateLock_exact. Qed.

(** ** Canonical order *)

Definition blobCmp (l r : LockedBlob) : comparison :=
  cmp_then (str_cmp (Architecture l) (Architecture r))
    (cmp_then (str_cmp (Filename l) (Filename r)) (str_cmp (SHA256 l) (SHA256 r))).
Definition versionCmp (l r : PackageVersion) : comparison :=
  cmp_then (str_cmp (pv_Package l) (pv_Package r)) (str_cmp (pv_Version l) (pv_Version r)).
Definition placementCmp (l r : Placement) : comparison :=
  cmp_then (str_cmp (pl_Package l) (pl_Package r))
    (cmp_then (str_cmp (pl_Version l) (pl_Version r))
       (cmp_then (str_cmp (pl_Track l) (pl_Track r)) (str_cmp (pl_Distro l) (pl_Distro r)))).

#[export] Instance blobCmp_laws : CmpLaws blobCmp.
Proof. unfold blobCmp. repeat apply cmp_then_laws; apply _. Qed.
#[export] Instance versionCmp_laws : CmpLaws versionCmp.
Proof. unfold versionCmp. repeat apply cmp_then_laws; apply _. Qed.
#[export] Instance placementCmp_laws : CmpLaws placementCmp.
Proof. unfold placementCmp. repeat apply cmp_then_laws; apply _. Qed.

Lemma blobLess_spec x y : blobLess x y = true ↔ blobCmp x y = Lt.
Proof. repeat apply less_then_spec. apply str_ltb_spec. Qed.
Lemma versionLess_spec x y : versionLess x y = true ↔ versionCmp x y = Lt.
Proof. repeat apply less_then_spec. apply str_ltb_spec. Qed.
Lemma placementLess_spec x y : placementLess x y = true ↔ placementCmp x y = Lt.
Proof. repeat apply less_then_spec. apply str_ltb_spec. Qed.

Lemma blobCmp_coordinate selected x y :
  blobCmp x y = Eq → coordinateOf selected x = coordinateOf selected y.
Proof.
  unfold blobCmp. rewrite !cmp_then_eq, !str_cmp_eq. intros (Ea & Ef & _).
  unfold coordinateOf. by rewrite Ea, Ef.
Qed.
Lemma versionCmp_eq x y : versionCmp x y = Eq ↔ version_key x = version_key y.
Proof.
  unfold versionCmp, version_key. rewrite cmp_then_eq, !str_cmp_eq.
  split; [by intros [-> ->]|by intros [= -> ->]].
Qed.
Lemma placementCmp_eq x y : placementCmp x y = Eq ↔ x = y.
Proof.
  unfold placementCmp. rewrite !cmp_then_eq, !str_cmp_eq.
  destruct x, y; simpl. split; [by intros (-> & -> & -> & ->)|by intros [= -> -> -> ->]].
Qed.

(** Two locks with the same content in any order. *)
Definition version_equiv (p q : PackageVersion) : Prop :=
  version_key p = version_key q ∧ pv_State p = pv_State q ∧ pv_Blobs p ≡ₚ pv_Blobs q.

Record lock_equiv (l r : RepositoryLock) : Prop := {
  le_schema : lock_SchemaVersion l = lock_SchemaVersion r;
  le_repository : lock_Repository l = lock_Repository r;
  le_versions : ∃ k, Forall2 version_equiv (lock_PackageVersion l) k ∧ k ≡ₚ lock_PackageVersion r;
  le_placements : lock_Placement l ≡ₚ lock_Placement r;
}.

Definition sortBlobs (pv : PackageVersion) : PackageVersion :=
  set_blobs (sort_slice blobLess (pv_Blobs pv)) pv.

Lemma sortBlobs_equiv pv : version_equiv pv (sortBlobs pv).
Proof. split; [done|]. split; [done|]. simpl. by rewrite sort_slice_perm. Qed.

Lemma canonicalizeLock_equiv lock : lock_equiv lock (canonicalizeLock lock).
Proof.
  split; simpl; [done..| |by rewrite sort_slice_perm].
  exists (map sortBlobs (lock_PackageVersion lock)). split; [|by rewrite sort_slice_perm].
  apply Forall2_fmap_r, Forall_Forall2_diag, Forall_true. apply sortBlobs_equiv.
Qed.

#[export] Instance version_equiv_equiv : Equivalence version_equiv.
Proof.
  split.
  - done.
  - intros p q (? & ? & ?). by split; [|split].
  - intros p q r (? & ? & ?) (? & ? & ?). split; [by etrans|]. split; by etrans.
Qed.

#[export] Instance lock_equiv_equiv : Equivalence lock_equiv.
Proof.
  split.
  - intros l. split; [done..| |done]. by exists (lock_PackageVersion l).
  - intros l r [Hs Hr (k & Hk & Hp) Hpl]. split; [done..| |done].
    symmetry in Hk. destruct (Permutation_Forall2 Hp Hk) as (l' & Hl & Hl').
    exists l'. by split.
  - intros l m r [? ? (k1 & Hk1 & Hp1) ?] [? ? (k2 & Hk2 & Hp2) ?].
    split; [congruence..| |by etrans].
    symmetry in Hp1. destruct (Permutation_Forall2 Hp1 Hk2) as (k & Hk & Hk').
    exists k. split; [by etrans|]. by rewrite <- Hk.
Qed.

Lemma lock_equiv_keys l r :
  lock_equiv l r → version_key <$> lock_PackageVersion l ≡ₚ version_key <$> lock_PackageVersion r.
Proof.
  intros [_ _ (k & Hk & Hp) _]. rewrite <- Hp.
  assert (version_key <$> lock_PackageVersion l = version_key <$> k) as ->; [|done].
  clear Hp. induction Hk as [|p q ps qs (E & _ & _) _ IH]; [done|]. rewrite !fmap_cons. by rewrite E, IH.
Qed.

Section canonical.
Context `{NetLib} (selected : Format).

Lemma version_wf_equiv p q : version_equiv p q → version_wf selected p → version_wf selected q.
Proof.
  intros ([= E1 E2] & E3 & E4) [? ? ? Hn Hb Hc].
  rewrite E1, E2, E3 in *. split; try done.
  - intros E. rewrite E in E4. by apply Permutation_nil_r in E4.
  - by rewrite <- E4.
  - by rewrite <- E4.
Qed.

(** Validity does not depend on the order of a lock's content. *)
#[export] Instance lock_wf_proper repository :
  Proper (lock_equiv ==> iff) (lock_wf selected repository).
Proof.
  assert (∀ l r, lock_equiv l r → lock_wf selected repository l → lock_wf selected repository r) as Hp.
  { intros l r E [Hs Hr Hv Hd Hpl Hpd]. pose proof (lock_equiv_keys l r E) as Hk.
    destruct E as [E1 E2 (k & E3 & E4) E5]. split; [congruence..| | | |].
    - rewrite <- E4. rewrite Forall_forall. rewrite Forall_forall in Hv. intros q Hq.
      apply list_elem_of_lookup in Hq as [i Hi].
      destruct (Forall2_lookup_r _ _ _ _ _ E3 Hi) as (p & Hp & Hpq).
      apply (version_wf_equiv p q Hpq), Hv. by eapply list_elem_of_lookup_2.
    - by rewrite <- Hk.
    - rewrite <- E5. setoid_rewrite <- Hk. done.
    - by rewrite <- E5. }
  intros l r E. split; apply Hp; [done|by symmetry].
Qed.

Lemma canonicalizeLock_wf repository lock :
  lock_wf selected repository lock ↔ lock_wf selected repository (canonicalizeLock lock).
Proof. apply lock_wf_proper, canonicalizeLock_equiv. Qed.

Lemma sortBlobs_eq p q : version_equiv p q → version_wf selected p → sortBlobs p = sortBlobs q.
Proof.
  intros ([= E1 E2] & E3 & E4) Hp. destruct p as [a b c bs], q as [a' b' c' bs']; simpl in *. subst.
  unfold sortBlobs, set_blobs; simpl. f_equal.
  apply (sort_slice_perm_eq _ blobCmp blobLess_spec); [|done].
  intros x y Hx Hy E%(blobCmp_coordinate selected).
  eapply NoDup_fmap_inj_on; [apply (vw_coordinates _ _ Hp)|done..].
Qed.

Lemma canonicalizeLock_respects repository l r :
  lock_wf selected repository l → lock_equiv l r → canonicalizeLock l = canonicalizeLock r.
Proof.
  intros Hl E. destruct E as [E1 E2 (k & E3 & E4) E5].
  unfold canonicalizeLock, set_placements, set_versions; simpl. f_equal; [done..| |].
  - assert (map sortBlobs (lock_PackageVersion l) = map sortBlobs k) as Hmap.
    { pose proof (lw_versions _ _ _ Hl) as Hv. clear E4. induction E3 as [|p q ps qs Hpq _ IH]; simpl; [done|].
      apply Forall_cons in Hv as [Hp Hv]. by rewrite (sortBlobs_eq p q), IH. }
    apply (sort_slice_perm_eq _ versionCmp versionLess_spec).
    + intros x y Hx Hy Exy%versionCmp_eq. eapply (NoDup_fmap_inj_on version_key); [|done..].
      rewrite <- list_fmap_compose. apply (lw_distinct _ _ _ Hl).
    + change (map sortBlobs (lock_PackageVersion l) ≡ₚ map sortBlobs (lock_PackageVersion r)).
      rewrite Hmap. by apply fmap_Permutation.
  - apply (sort_slice_perm_eq _ placementCmp placementLess_spec); [|done].
    intros x y _ _. by rewrite placementCmp_eq.
Qed.
(** The canonical form depends only on the content of a valid lock: any two
    arrangements of the same versions, blobs and placements are written as the
    same lock, whichever sort is used. *)
Theorem canonical_form_unique repository l r :
  lock_wf selected repository l → lock_equiv l r →
  canonicalizeLock l = canonicalizeLock r ∧ canonicalizeLock (canonicalizeLock l) = canonicalizeLock l.
Proof.
  intros Hl E. split; [by eapply canonicalizeLock_respects|].
  symmetry. by eapply canonicalizeLock_respects; [|apply canonicalizeLock_equiv].
Qed.
End canonical.
