(* ===== verification/LockOps.v ===== *)
(** The operations on a lock: each keeps [lock_wf], an error leaves the lock as
    it was, and the bytes bound to a coordinate never change. *)

From S2P Require Import Prelude GoStrings GoSlices GoRegexp Model Formats Source Lock LockInvariant.

Open Scope Z_scope.

(** ** [AddBlob] *)

Definition same_bytes (x y : LockedBlob) : Prop :=
  Filename x = Filename y ∧ SHA256 x = SHA256 y ∧ Size x = Size y ∧ Architecture x = Architecture y.

Lemma matchExisting_false selected blob blobs :
  matchExisting selected blob blobs = Ok false →
  Forall (λ b, coordinateOf selected b ≠ coordinateOf selected blob ∧ Filename b ≠ Filename blob) blobs.
Proof.
  induction blobs as [|b blobs IH]; simpl; [constructor|].
  destruct (_ && _); [by destruct (_ || _)|].
  destruct (_ || _) eqn:E; [done|]. split_bools. constructor; [done|by apply IH].
Qed.

Lemma matchExisting_true selected blob blobs :
  matchExisting selected blob blobs = Ok true → ∃ b, b ∈ blobs ∧ same_bytes b blob.
Proof.
  induction blobs as [|b blobs IH]; simpl; [done|].
  destruct (_ && _) eqn:E.
  - destruct (_ || _) eqn:E'; [done|]. split_bools. intros _. exists b.
    split; [apply list_elem_of_here|]. repeat split; try done. by apply Z.eqb_eq.
  - destruct (_ || _); [done|]. intros (b' & ? & ?)%IH. exists b'. eauto using list_elem_of_further.
Qed.

(** The version an addition goes to, with what stands before and after it: a
    recorded one, or a new empty one at the end. *)
Inductive target (packageName version : string) :
    list PackageVersion → list PackageVersion → PackageVersion → list PackageVersion → Prop :=
| target_recorded pvs1 pv pvs2 :
    version_key pv = (packageName, version) →
    target packageName version (pvs1 ++ pv :: pvs2) pvs1 pv pvs2
| target_new pvs :
    (packageName, version) ∉ version_key <$> pvs →
    target packageName version pvs pvs (mkPackageVersion packageName version "draft" []) [].

Definition addTo (existed : bool) (blob : LockedBlob) (pv : PackageVersion) : PackageVersion :=
  if existed then pv else set_blobs (pv_Blobs pv ++ [blob]) pv.
Definition defaultTrack (track : string) : string := if bool_decide (track = "") then "stable" else track.
Definition placeAt (p : Placement) (pls : list Placement) : list Placement :=
  if bool_decide (p ∈ pls) then pls else pls ++ [p].

Lemma placementAt_spec packageName version track distro pls :
  existsb (placementAt packageName version track distro) pls =
  bool_decide (mkPlacement packageName version track distro ∈ pls).
Proof.
  apply Bool.eq_iff_eq_true. rewrite existsb_spec, bool_decide_eq_true. split.
  - intros (p & Hp & E). unfold placementAt in E. split_bools. subst. by destruct p.
  - intros Hp. eexists; split; [done|]. unfold placementAt; simpl. by rewrite !bool_decide_eq_true_2.
Qed.

Lemma findVersion_target packageName version pvs :
  match findVersion packageName version pvs with
  | Some (i, pv) => target packageName version pvs (take i pvs) pv (drop (S i) pvs) ∧
      ∀ pv', <[i := pv']> pvs = take i pvs ++ pv' :: drop (S i) pvs
  | None => (packageName, version) ∉ version_key <$> pvs
  end.
Proof.
  unfold findVersion. destruct (list_find _ pvs) as [[i pv]|] eqn:E.
  - apply list_find_Some in E as (Hi & [E1 E2] & _). split.
    + rewrite <- (take_drop_middle pvs i pv Hi) at 1. constructor. unfold version_key. by rewrite E1, E2.
    + intros pv'. apply insert_take_drop. by eapply lookup_lt_Some.
  - apply list_find_None in E. rewrite list_elem_of_fmap. intros (pv & [= E1 E2] & Hpv).
    rewrite Forall_forall in E. by apply (E pv).
Qed.

(** What a successful addition does, and that a refused one does nothing. *)
Lemma AddBlob_inv lock format track distro blob packageName version lock' r :
  AddBlob lock format track distro blob packageName version = (lock', r) →
  match r with
  | Err _ => lock' = lock
  | Ok changed =>
      ∃ selected pvs1 pv pvs2 existed,
        let placement := mkPlacement packageName version (defaultTrack track) distro in
        For format = Ok selected ∧
        validatePlacementCoordinates format (defaultTrack track) distro = Ok () ∧
        target packageName version (lock_PackageVersion lock) pvs1 pv pvs2 ∧
        matchExisting selected blob (pv_Blobs pv) = Ok existed ∧
        lock' = mkLock (lock_SchemaVersion lock) (lock_Repository lock)
                  (pvs1 ++ addTo existed blob pv :: pvs2) (placeAt placement (lock_Placement lock)) ∧
        changed = negb (existed && bool_decide (placement ∈ lock_Placement lock))
  end.
Proof.
  unfold AddBlob. destruct (For format) as [selected|] eqn:Hf; [|by intros [= <- <-]].
  fold (defaultTrack track).
  destruct (validatePlacementCoordinates _ _ _) as [[]|] eqn:Hc; [|by intros [= <- <-]].
  destruct (_ || _); [by intros [= <- <-]|].
  pose proof (findVersion_target packageName version (lock_PackageVersion lock)) as Ht.
  destruct (findVersion _ _ _) as [[i pv]|].
  - destruct Ht as [Ht Hins]. destruct (matchExisting _ _ _) as [existed|] eqn:Hm;
      intros [= <- <-]; [|by destruct lock].
    exists selected, (take i (lock_PackageVersion lock)), pv, (drop (S i) (lock_PackageVersion lock)), existed.
    repeat (split; [done|]). rewrite placementAt_spec, Hins. unfold placeAt.
    split; [by case_bool_decide|by rewrite negb_andb].
  - simpl. intros [= <- <-].
    exists selected, (lock_PackageVersion lock), (mkPackageVersion packageName version "draft" []), [], false.
    repeat (split; [done|]). split; [by constructor|]. split; [done|].
    rewrite placementAt_spec. unfold placeAt. rewrite insert_app_r_alt, Nat.sub_diag by done. simpl.
    split; [by case_bool_decide|done].
Qed.

Lemma AddBlob_err lock format track distro blob packageName version e :
  (AddBlob lock format track distro blob packageName version).2 = Err e →
  (AddBlob lock format track distro blob packageName version).1 = lock.
Proof.
  destruct (AddBlob _ _ _ _ _ _ _) as [lock' r] eqn:E. simpl. intros ->.
  by apply AddBlob_inv in E.
Qed.

Lemma validatePlacementCoordinates_track format track distro :
  validatePlacementCoordinates format track distro = Ok () → track ≠ "".
Proof.
  intros Hv ->. unfold validatePlacementCoordinates in Hv.
  change (MatchFull placementCoordinatePattern "") with false in Hv. done.
Qed.

Lemma placeAt_elem p q pls : q ∈ placeAt p pls ↔ q = p ∨ q ∈ pls.
Proof.
  unfold placeAt. case_bool_decide; [naive_solver|].
  rewrite elem_of_app, list_elem_of_singleton. naive_solver.
Qed.

Lemma placeAt_NoDup p pls : NoDup pls → NoDup (placeAt p pls).
Proof.
  unfold placeAt. case_bool_decide; [done|]. intros Hn. apply NoDup_app.
  split; [done|]. split; [|apply NoDup_singleton].
  intros q Hq ->%list_elem_of_singleton. done.
Qed.

(** The target's replacement records every key recorded before and the target's. *)
Lemma target_keys packageName version pvs pvs1 pv pvs2 pv' :
  target packageName version pvs pvs1 pv pvs2 → version_key pv' = version_key pv →
  (∀ k, k ∈ version_key <$> (pvs1 ++ pv' :: pvs2) ↔ k = (packageName, version) ∨ k ∈ version_key <$> pvs) ∧
  (NoDup (version_key <$> pvs) → NoDup (version_key <$> (pvs1 ++ pv' :: pvs2))).
Proof.
  intros [pvs1' pv1 pvs2' Hk|pvs' Hk] Hk'; rewrite !fmap_app, !fmap_cons, Hk', ?Hk.
  - split; [|done]. intros k. rewrite !elem_of_app, !elem_of_cons. naive_solver.
  - simpl. split.
    + intros k. rewrite elem_of_app, list_elem_of_singleton. naive_solver.
    + intros Hn. apply NoDup_app. split; [done|]. split; [|apply NoDup_singleton].
      intros k Hin ->%list_elem_of_singleton. done.
Qed.

Lemma addTo_key existed blob pv : version_key (addTo existed blob pv) = version_key pv.
Proof. by destruct existed. Qed.

Section ops.
Context `{NetLib} (selected : Format) (repository : string).

Lemma addTo_wf packageName version pvs pvs1 pv pvs2 blob existed :
  target packageName version pvs pvs1 pv pvs2 → Forall (version_wf selected) pvs →
  matchExisting selected blob (pv_Blobs pv) = Ok existed →
  blob_wf blob → packageName ≠ "" → version ≠ "" →
  Forall (version_wf selected) (pvs1 ++ addTo existed blob pv :: pvs2).
Proof.
  intros Ht Hv Hm Hb Hp Hver.
  assert (Forall (version_wf selected) pvs1 ∧ Forall (version_wf selected) pvs2 ∧
          version_wf selected (addTo existed blob pv)) as (? & ? & ?);
    [|by apply Forall_app; split; [|constructor]].
  destruct Ht as [pvs1 pv pvs2 Hk|pvs Hk].
  - apply Forall_app in Hv as [? [Hpv ?]%Forall_cons]. repeat (split; [done|]).
    destruct existed; [done|]. apply matchExisting_false in Hm. destruct Hpv as [? ? ? ? Hbs Hc].
    split; simpl; [done..| | |].
    + intros E. by apply app_eq_nil in E as [_ ?].
    + apply Forall_app; split; [done|by constructor].
    + rewrite fmap_app. apply NoDup_app. split; [done|]. split; [|apply NoDup_singleton].
      intros c (b & -> & Hin)%list_elem_of_fmap E%list_elem_of_singleton.
      rewrite Forall_forall in Hm. by destruct (Hm b Hin).
  - simpl in Hm. injection Hm as <-. split; [done|]. split; [constructor|].
    split; simpl; try done; [by constructor|apply NoDup_singleton].
Qed.

Lemma AddBlob_wf lock format track distro blob packageName version :
  For format = Ok selected → lock_wf selected repository lock →
  blob_wf blob → packageName ≠ "" → version ≠ "" →
  lock_wf selected repository (AddBlob lock format track distro blob packageName version).1.
Proof.
  intros Hf Hl Hb Hp Hver. destruct (AddBlob _ _ _ _ _ _ _) as [lock' r] eqn:E.
  apply AddBlob_inv in E. destruct r as [changed|e]; simpl; [|by subst].
  destruct E as (selected' & pvs1 & pv & pvs2 & existed & Hf' & Hc & Ht & Hm & -> & _).
  rewrite Hf in Hf'. injection Hf' as <-. destruct Hl as [? ? Hv Hd Hpl Hn].
  destruct (target_keys _ _ _ _ _ _ (addTo existed blob pv) Ht (addTo_key _ _ _)) as [Hkeys Hnd].
  split; simpl; [done..|by eapply addTo_wf|by apply Hnd| |by apply placeAt_NoDup].
  apply Forall_forall. intros p [->|Hin]%placeAt_elem.
  - split; [|by eapply validatePlacementCoordinates_track]. apply Hkeys. by left.
  - rewrite Forall_forall in Hpl. destruct (Hpl p Hin). split; [|done]. apply Hkeys. by right.
Qed.
End ops.

(** ** What a lock binds *)

(** [x] is one of the blobs recorded for a package version. *)
Definition holds (lock : RepositoryLock) (packageName version : string) (x : LockedBlob) : Prop :=
  ∃ pv, pv ∈ lock_PackageVersion lock ∧ version_key pv = (packageName, version) ∧ x ∈ pv_Blobs pv.

(** Everything bound before is bound after, to the same bytes. *)
Definition bytes_kept (l r : RepositoryLock) : Prop :=
  ∀ packageName version x, holds l packageName version x →
    ∃ y, holds r packageName version y ∧ same_bytes x y.

#[export] Instance bytes_kept_preorder : PreOrder bytes_kept.
Proof.
  split; [intros l p v x Hx; by exists x|].
  intros l m r Hlm Hmr p v x Hx. destruct (Hlm p v x Hx) as (y & Hy & ? & ? & ? & ?).
  destruct (Hmr p v y Hy) as (z & Hz & ? & ? & ? & ?). exists z. split; [done|].
  repeat split; by etrans.
Qed.

Lemma holds_equiv l r packageName version x :
  lock_equiv l r → holds l packageName version x → holds r packageName version x.
Proof.
  intros [_ _ (k & Hk & Hp) _] (pv & Hpv & Hkey & Hx).
  apply list_elem_of_lookup in Hpv as [i Hi].
  destruct (Forall2_lookup_l _ _ _ _ _ Hk Hi) as (q & Hq & E & _ & Hb).
  exists q. rewrite <- Hp, <- Hb, <- E. split; [by eapply list_elem_of_lookup_2|done].
Qed.

Lemma lock_equiv_bytes_kept l r : lock_equiv l r → bytes_kept l r.
Proof. intros E p v x Hx. exists x. split; [by eapply holds_equiv|done]. Qed.

Lemma target_elem packageName version pvs pvs1 pv pvs2 q :
  target packageName version pvs pvs1 pv pvs2 → q ∈ pvs → q ∈ pvs1 ∨ q = pv ∨ q ∈ pvs2.
Proof. intros []; [rewrite elem_of_app, elem_of_cons; tauto|by left]. Qed.

Lemma target_key packageName version pvs pvs1 pv pvs2 :
  target packageName version pvs pvs1 pv pvs2 → version_key pv = (packageName, version).
Proof. by intros []. Qed.

Lemma AddBlob_kept lock format track distro blob packageName version :
  bytes_kept lock (AddBlob lock format track distro blob packageName version).1.
Proof.
  destruct (AddBlob _ _ _ _ _ _ _) as [lock' r] eqn:E.
  apply AddBlob_inv in E. destruct r as [changed|e]; simpl; [|by subst].
  destruct E as (selected & pvs1 & pv & pvs2 & existed & _ & _ & Ht & _ & -> & _).
  intros p v x (q & Hq & Hk & Hx). exists x. split; [|done].
  destruct (target_elem _ _ _ _ _ _ q Ht Hq) as [Hin|[->|Hin]].
  - exists q. simpl. rewrite elem_of_app. auto.
  - exists (addTo existed blob pv). simpl. rewrite elem_of_app, elem_of_cons, addTo_key.
    split; [auto|]. split; [done|]. destruct existed; [done|]. simpl. rewrite elem_of_app. by left.
  - exists q. simpl. rewrite elem_of_app, elem_of_cons. auto.
Qed.

(** A successful [AddBlob] records the artifact: afterwards the version holds
    a blob with the added name, digest, size and architecture, and the version is
    placed at the requested track (or "stable") and distro. *)
Theorem add_blob_records lock format track distro blob packageName version changed :
  (AddBlob lock format track distro blob packageName version).2 = Ok changed →
  let lock' := (AddBlob lock format track distro blob packageName version).1 in
  (∃ b, holds lock' packageName version b ∧ same_bytes b blob) ∧
  mkPlacement packageName version (defaultTrack track) distro ∈ lock_Placement lock'.
Proof.
  destruct (AddBlob _ _ _ _ _ _ _) as [lock' r] eqn:E. simpl. intros ->.
  apply AddBlob_inv in E as (selected & pvs1 & pv & pvs2 & existed & _ & _ & Ht & Hm & -> & _).
  split; [|simpl; apply placeAt_elem; by left].
  assert (∃ b, b ∈ pv_Blobs (addTo existed blob pv) ∧ same_bytes b blob) as (b & Hb & Hs).
  { destruct existed; [by eapply matchExisting_true|].
    exists blob. split; [|done]. simpl. apply elem_of_app. right. by apply list_elem_of_singleton. }
  exists b. split; [|done]. exists (addTo existed blob pv). simpl.
  rewrite elem_of_app, elem_of_cons, addTo_key. split; [auto|]. by rewrite (target_key _ _ _ _ _ _ Ht).
Qed.

Lemma legacyDigestConflict_refl b : legacyDigestConflict b b = false.
Proof.
  unfold legacyDigestConflict.
  by rewrite (bool_decide_eq_true_2 (MD5 b = MD5 b)), (bool_decide_eq_true_2 (SHA1 b = SHA1 b)), !andb_false_r.
Qed.

Lemma matchExisting_addTo selected blob pv existed :
  matchExisting selected blob (pv_Blobs pv) = Ok existed →
  matchExisting selected blob (pv_Blobs (addTo existed blob pv)) = Ok true.
Proof.
  destruct existed; [done|]. simpl. induction (pv_Blobs pv) as [|b blobs IH]; simpl.
  - intros _. rewrite !bool_decide_eq_true_2, Z.eqb_refl, legacyDigestConflict_refl by done. done.
  - destruct (_ && _); [by destruct (_ || _)|]. by destruct (_ || _).
Qed.

Lemma findVersion_middle packageName version pvs1 pv pvs2 :
  NoDup (version_key <$> (pvs1 ++ pv :: pvs2)) → version_key pv = (packageName, version) →
  findVersion packageName version (pvs1 ++ pv :: pvs2) = Some (length pvs1, pv).
Proof.
  rewrite fmap_app, fmap_cons, NoDup_app. intros (_ & Hd & _) [= Ep Ev].
  apply list_find_Some. split; [by rewrite list_lookup_middle|]. split; [done|].
  intros j q Hj Hlt [E1 E2]. rewrite lookup_app_l in Hj by done.
  apply (Hd (version_key q)).
  - apply list_elem_of_fmap_2. by eapply list_elem_of_lookup_2.
  - unfold version_key. rewrite E1, E2, <- Ep, <- Ev. apply list_elem_of_here.
Qed.

Lemma placeAt_idem p pls : bool_decide (p ∈ placeAt p pls) = true.
Proof. apply bool_decide_eq_true, placeAt_elem. by left. Qed.

(** Adding is idempotent: a second [AddBlob] of an artifact that was just
    added succeeds, reports no change and leaves the lock as it is. *)
Theorem add_blob_idempotent lock format track distro blob packageName version changed :
  NoDup (version_key <$> lock_PackageVersion lock) →
  (AddBlob lock format track distro blob packageName version).2 = Ok changed →
  let lock' := (AddBlob lock format track distro blob packageName version).1 in
  AddBlob lock' format track distro blob packageName version = (lock', Ok false).
Proof.
  intros Hnd Hok. destruct (AddBlob _ _ _ _ _ _ _) as [lock' r] eqn:E. simpl in *. subst r.
  assert (negb (bool_decide (Base (Filename blob) = Filename blob)) || bool_decide (Filename blob = "") = false) as Hn.
  { unfold AddBlob in E. destruct (For format); [|done].
    destruct (validatePlacementCoordinates _ _ _); [|done]. by destruct (_ || _). }
  apply AddBlob_inv in E as (selected & pvs1 & pv & pvs2 & existed & Hf & Hc & Ht & Hm & -> & _).
  unfold AddBlob. rewrite Hf, Hn. fold (defaultTrack track). rewrite Hc.
  cbn [lock_PackageVersion lock_Placement].
  rewrite findVersion_middle;
    [|eapply target_keys; eauto using addTo_key|rewrite addTo_key; by eapply target_key].
  rewrite (matchExisting_addTo _ _ _ _ Hm), placementAt_spec.
  cbn [set_versions lock_Placement lock_PackageVersion lock_SchemaVersion lock_Repository].
  rewrite placeAt_idem. simpl. by rewrite list_insert_id by by apply list_lookup_middle.
Qed.

(** ** [SetBlobOrigin] *)

(** A blob keeps what it had, except that a missing origin may be filled in. *)
Definition origin_filled (origin : ArtifactOrigin) (x y : LockedBlob) : Prop :=
  y = x ∨ (Origin x = None ∧ y = set_origin (Some origin) x).
Definition origins_filled (origin : ArtifactOrigin) (p q : PackageVersion) : Prop :=
  version_key q = version_key p ∧ pv_State q = pv_State p ∧
  Forall2 (origin_filled origin) (pv_Blobs p) (pv_Blobs q).

Lemma Forall2_origin_refl origin blobs : Forall2 (origin_filled origin) blobs blobs.
Proof. induction blobs; constructor; [by left|done]. Qed.

Lemma setOriginInBlobs_filled filename digest origin blobs blobs' r :
  setOriginInBlobs filename digest origin blobs = Some (blobs', r) →
  Forall2 (origin_filled origin) blobs blobs' ∧ (r ≠ Ok true → blobs' = blobs).
Proof.
  revert blobs'; induction blobs as [|b blobs IH]; intros blobs'; simpl; [done|].
  destruct (_ || _).
  - destruct (setOriginInBlobs _ _ _ blobs) as [[rest r']|]; [|done]. intros [= <- <-].
    destruct (IH _ eq_refl) as [Hf He]. split; [by constructor; [left|]|]. intros Hr. by rewrite He.
  - destruct (Origin b) as [o|] eqn:Eo; [case_bool_decide|]; intros [= <- <-].
    + split; [apply (Forall2_origin_refl _ (b :: blobs))|done].
    + split; [apply (Forall2_origin_refl _ (b :: blobs))|done].
    + split; [|done]. constructor; [by right|apply Forall2_origin_refl].
Qed.

Lemma setOriginInVersions_filled packageName version filename digest origin pvs pvs' r :
  setOriginInVersions packageName version filename digest origin pvs = (pvs', r) →
  Forall2 (origins_filled origin) pvs pvs' ∧ (r ≠ Ok true → pvs' = pvs).
Proof.
  assert (∀ pv, origins_filled origin pv pv) as Hrefl.
  { intros pv. split; [done|]. split; [done|]. apply Forall2_origin_refl. }
  assert (∀ l, Forall2 (origins_filled origin) l l) as Hrefls.
  { induction l; by constructor. }
  revert pvs' r; induction pvs as [|pv pvs IH]; intros pvs' r; simpl.
  { intros [= <- <-]. by split. }
  destruct (setOriginInVersions _ _ _ _ _ pvs) as [rest r'] eqn:Er.
  destruct (IH _ _ eq_refl) as [Hf He].
  destruct (_ || _).
  - intros [= <- <-]. split; [by constructor|]. intros Hr. by rewrite He.
  - destruct (setOriginInBlobs _ _ _ _) as [[blobs' d]|] eqn:Eb; intros [= <- <-].
    + destruct (setOriginInBlobs_filled _ _ _ _ _ _ Eb) as [Hb Hd]. split.
      * by constructor.
      * intros Hr. rewrite Hd by done. f_equal. by destruct pv.
    + split; [by constructor|]. intros Hr. by rewrite He.
Qed.

(** [SetBlobOrigin] writes an origin once: it changes nothing but a missing
    origin of recorded blobs, never replaces a recorded one, and unless it
    reports a change the lock is untouched. *)
Theorem set_origin_write_once lock packageName version filename digest origin :
  let out := SetBlobOrigin lock packageName version filename digest origin in
  Forall2 (origins_filled origin) (lock_PackageVersion lock) (lock_PackageVersion out.1) ∧
  lock_Placement out.1 = lock_Placement lock ∧
  (out.2 ≠ Ok true → out.1 = lock).
Proof.
  unfold SetBlobOrigin. destruct (setOriginInVersions _ _ _ _ _ _) as [pvs r] eqn:E. simpl.
  destruct (setOriginInVersions_filled _ _ _ _ _ _ _ _ E) as [Hf He].
  split; [done|]. split; [done|]. intros Hr. rewrite He by done. by destruct lock.
Qed.

Lemma Forall2_fmap_eq {A B} (R : A → A → Prop) (f : A → B) l k :
  (∀ x y, R x y → f y = f x) → Forall2 R l k → f <$> k = f <$> l.
Proof. intros Hf. induction 1; [done|]. rewrite !fmap_cons. f_equal; auto. Qed.

Lemma origin_filled_same origin x y : origin_filled origin x y → same_bytes x y.
Proof. by intros [->|[_ ->]]. Qed.

Lemma origins_filled_wf `{NetLib} selected origin p q :
  ValidateArtifactOrigin origin = Ok () →
  origins_filled origin p q → version_wf selected p → version_wf selected q.
Proof.
  intros Ho ([= E1 E2] & E3 & Hb) [? ? ? Hn Hbs Hc]. rewrite <- E1, <- E2, <- E3 in *. split; try done.
  - intros E. rewrite E in Hb. by apply Forall2_nil_inv_r in Hb.
  - clear Hn Hc. induction Hb as [|x y xs ys Hxy _ IH]; [done|].
    apply Forall_cons in Hbs as [Hx Hxs]. constructor; [|by apply IH].
    destruct Hxy as [->|[_ ->]]; [done|]. destruct Hx. split; try done. by intros o [= <-].
  - rewrite (Forall2_fmap_eq (origin_filled origin) (coordinateOf selected) (pv_Blobs p)); [done| |done].
    by intros x y [->|[_ ->]].
Qed.

Lemma SetBlobOrigin_wf `{NetLib} selected repository lock packageName version filename digest origin :
  ValidateArtifactOrigin origin = Ok () → lock_wf selected repository lock →
  lock_wf selected repository (SetBlobOrigin lock packageName version filename digest origin).1.
Proof.
  intros Ho [? ? Hv Hd Hpl Hn]. unfold SetBlobOrigin.
  destruct (setOriginInVersions _ _ _ _ _ _) as [pvs r] eqn:E. simpl.
  apply setOriginInVersions_filled in E as [Hf _].
  assert (version_key <$> pvs = version_key <$> lock_PackageVersion lock) as Hk.
  { apply (Forall2_fmap_eq (origins_filled origin)); [|done]. by intros p q (? & _ & _). }
  split; simpl; rewrite ?Hk; try done.
  clear -Hv Hf Ho. induction Hf as [|p q ps qs Hpq _ IH]; [done|].
  apply Forall_cons in Hv as [? ?]. constructor; [by eapply origins_filled_wf|auto].
Qed.

Lemma SetBlobOrigin_kept lock packageName version filename digest origin :
  bytes_kept lock (SetBlobOrigin lock packageName version filename digest origin).1.
Proof.
  unfold SetBlobOrigin. destruct (setOriginInVersions _ _ _ _ _ _) as [pvs r] eqn:E. simpl.
  apply setOriginInVersions_filled in E as [Hf _]. intros p v x (pv & Hpv & Hk & Hx).
  apply list_elem_of_lookup in Hpv as [i Hi].
  destruct (Forall2_lookup_l _ _ _ _ _ Hf Hi) as (q & Hq & Eq & _ & Hb).
  apply list_elem_of_lookup in Hx as [j Hj].
  destruct (Forall2_lookup_l _ _ _ _ _ Hb Hj) as (y & Hy & Hxy).
  exists y. split; [|by eapply origin_filled_same].
  exists q. rewrite Eq. eauto using list_elem_of_lookup_2.
Qed.

(** ** Placements *)

Lemma packageVersionExists_spec lock packageName version :
  packageVersionExists lock packageName version = true ↔
  (packageName, version) ∈ version_key <$> lock_PackageVersion lock.
Proof.
  unfold packageVersionExists. rewrite existsb_spec, list_elem_of_fmap. split.
  - intros (pv & Hpv & E). split_bools. exists pv. unfold version_key. split; [congruence|done].
  - intros (pv & [= E1 E2] & Hpv). exists pv. split; [done|]. by rewrite !bool_decide_eq_true_2.
Qed.

(** A change of placements that keeps the rest of a well-formed lock. *)
Lemma set_placements_wf `{NetLib} selected repository lock pls :
  lock_wf selected repository lock → NoDup pls →
  (∀ p, p ∈ pls → p ∈ lock_Placement lock ∨
     (placed_version p ∈ version_key <$> lock_PackageVersion lock ∧ pl_Track p ≠ "")) →
  lock_wf selected repository (set_placements pls lock).
Proof.
  intros [? ? ? ? Hpl _] Hn Hp. rewrite Forall_forall in Hpl.
  split; simpl; try done. apply Forall_forall. intros p Hin.
  destruct (Hp p Hin) as [?|?]; [by apply Hpl|done].
Qed.

Lemma PromotePlacement_wf `{NetLib} selected repository lock format packageName version track distro :
  lock_wf selected repository lock →
  lock_wf selected repository (PromotePlacement lock format packageName version track distro).1.
Proof.
  intros Hl. unfold PromotePlacement.
  destruct (validatePlacementCoordinates _ _ _) as [[]|] eqn:Hc; [|done].
  destruct (packageVersionExists lock packageName version) eqn:He; simpl; [|done].
  rewrite placementAt_spec. case_bool_decide as Hin; [done|]. simpl. rewrite <- canonicalizeLock_wf.
  apply set_placements_wf; [done| |].
  - pose proof (placeAt_NoDup (mkPlacement packageName version track distro) _ (lw_placements _ _ _ Hl)) as Hn.
    unfold placeAt in Hn. by rewrite bool_decide_eq_false_2 in Hn by exact Hin.
  - intros p [?|Hp%list_elem_of_singleton]%elem_of_app; [by left|right; subst p]. simpl.
    split; [by apply packageVersionExists_spec|by eapply validatePlacementCoordinates_track].
Qed.

Lemma filter_placements_wf `{NetLib} selected repository lock keep :
  lock_wf selected repository lock →
  lock_wf selected repository (set_placements (List.filter keep (lock_Placement lock)) lock).
Proof.
  intros Hl. apply set_placements_wf; [done|apply List_filter_NoDup, (lw_placements _ _ _ Hl)|].
  intros p [? _]%elem_of_List_filter. by left.
Qed.

Lemma YankPlacements_wf `{NetLib} selected repository lock format packageName version track distro all :
  lock_wf selected repository lock →
  lock_wf selected repository (YankPlacements lock format packageName version track distro all).1.
Proof.
  intros Hl. unfold YankPlacements. destruct (negb _); [done|].
  destruct (if all then _ else _) as [[]|]; [|done]. simpl.
  rewrite <- canonicalizeLock_wf. by apply filter_placements_wf.
Qed.

(** A lock whose versions are another's binds what it binds. *)
Lemma same_versions_kept l r : lock_PackageVersion r = lock_PackageVersion l → bytes_kept l r.
Proof. intros E p v x (pv & Hpv & Hk & Hx). exists x. split; [|done]. exists pv. by rewrite E. Qed.

Lemma canonicalize_placements_kept lock pls : bytes_kept lock (canonicalizeLock (set_placements pls lock)).
Proof.
  etrans; [apply (same_versions_kept lock (set_placements pls lock)); done|].
  apply lock_equiv_bytes_kept, canonicalizeLock_equiv.
Qed.

Lemma PromotePlacement_kept lock format packageName version track distro :
  bytes_kept lock (PromotePlacement lock format packageName version track distro).1.
Proof.
  unfold PromotePlacement. destruct (validatePlacementCoordinates _ _ _); [|done].
  destruct (negb _); [done|]. destruct (existsb _ _); [done|]. apply canonicalize_placements_kept.
Qed.

Lemma YankPlacements_kept lock format packageName version track distro all :
  bytes_kept lock (YankPlacements lock format packageName version track distro all).1.
Proof.
  unfold YankPlacements. destruct (negb _); [done|].
  destruct (if all then _ else _); [|done]. apply canonicalize_placements_kept.
Qed.

Lemma yankMatches_one packageName version track distro p :
  yankMatches packageName version track distro false p = true ↔
  p = mkPlacement packageName version track distro.
Proof.
  unfold yankMatches. rewrite !andb_true_iff, !bool_decide_eq_true.
  destruct p; simpl. split; [by intros [[[-> ->] ->] ->]|by intros [= -> -> -> ->]].
Qed.

Lemma remove_one_perm (p : Placement) l :
  NoDup l → p ∈ l → List.filter (λ q, negb (bool_decide (q = p))) l ++ [p] ≡ₚ l.
Proof.
  intros Hn Hp. apply NoDup_Permutation; [|done|].
  - apply NoDup_app. split; [by apply List_filter_NoDup|]. split; [|apply NoDup_singleton].
    intros q [_ Hq]%elem_of_List_filter ->%list_elem_of_singleton. split_bools. done.
  - intros q. rewrite elem_of_app, elem_of_List_filter, list_elem_of_singleton, negb_true_iff.
    case_bool_decide; naive_solver.
Qed.

(** Yanking one placement and promoting the version back restores the lock:
    the round trip ends in the canonical form of the lock it began with. *)
Theorem yank_promote_roundtrip `{NetLib} selected repository lock format packageName version track distro :
  lock_wf selected repository lock →
  validatePlacementCoordinates format track distro = Ok () →
  mkPlacement packageName version track distro ∈ lock_Placement lock →
  let yanked := YankPlacements lock format packageName version track distro false in
  yanked.2 = Ok 1 ∧
  PromotePlacement yanked.1 format packageName version track distro = (canonicalizeLock lock, Ok true).
Proof.
  intros Hl Hc Hp. pose proof (lw_placed _ _ _ Hl) as Hpl. rewrite Forall_forall in Hpl.
  destruct (Hpl _ Hp) as [Hv _].
  apply (packageVersionExists_spec lock packageName version) in Hv.
  unfold YankPlacements. rewrite Hv, Hc. cbn [negb fst snd].
  set (p := mkPlacement packageName version track distro) in *.
  set (kept := List.filter (λ q, negb (yankMatches packageName version track distro false q)) (lock_Placement lock)).
  assert (kept ++ [p] ≡ₚ lock_Placement lock) as Hkept.
  { etrans; [|by apply (remove_one_perm p); [apply (lw_placements _ _ _ Hl)|]].
    apply Permutation_app_tail. unfold kept. rewrite (List.filter_ext _ (λ q, negb (bool_decide (q = p)))); [done|].
    intros q. f_equal. apply Bool.eq_iff_eq_true. by rewrite yankMatches_one, bool_decide_eq_true. }
  split.
  - pose proof (List.filter_length (yankMatches packageName version track distro false) (lock_Placement lock)) as Hlen.
    fold kept in Hlen. apply Permutation_length in Hkept. rewrite length_app in Hkept. simpl in Hkept.
    f_equal. lia.
  - unfold PromotePlacement. rewrite Hc.
    assert (packageVersionExists (canonicalizeLock (set_placements kept lock)) packageName version = true) as ->.
    { apply packageVersionExists_spec. rewrite <- (lock_equiv_keys _ _ (canonicalizeLock_equiv _)).
      by apply packageVersionExists_spec. }
    rewrite placementAt_spec, bool_decide_eq_false_2; cbn [negb].
    2: { simpl. rewrite sort_slice_perm. intros [_ Hq]%elem_of_List_filter. apply negb_true_iff in Hq.
         rewrite (proj2 (yankMatches_one _ _ _ _ p)) in Hq; done. }
    f_equal. symmetry. eapply canonicalizeLock_respects; [done|]. symmetry.
    pose proof (canonicalizeLock_equiv (set_placements kept lock)) as [E1 E2 E3 E4].
    symmetry. split; [done..|exact E3|]. simpl. rewrite sort_slice_perm. by symmetry.
Qed.

(** A yank removes exactly the placements it selects and counts them, keeps
    every other placement and every recorded byte, and keeps the version
    recorded: none of the selected placements is left. *)
Theorem yank_exact lock format packageName version track distro all removed :
  (YankPlacements lock format packageName version track distro all).2 = Ok removed →
  let lock' := (YankPlacements lock format packageName version track distro all).1 in
  let selects := yankMatches packageName version track distro all in
  (∀ p, p ∈ lock_Placement lock' ↔ p ∈ lock_Placement lock ∧ selects p = false) ∧
  Z.of_nat (length (lock_Placement lock)) = Z.of_nat (length (lock_Placement lock')) + removed ∧
  lock_equiv lock' (set_placements (lock_Placement lock') lock) ∧
  packageVersionExists lock' packageName version = true.
Proof.
  unfold YankPlacements. destruct (packageVersionExists lock packageName version) eqn:He; [|done].
  simpl. destruct (if all then _ else _); [|done]. intros [= <-]. simpl.
  set (m := yankMatches _ _ _ _ _). split; [|split; [|split]].
  - intros p. rewrite sort_slice_perm, elem_of_List_filter, negb_true_iff. done.
  - rewrite sort_slice_perm. rewrite <- (List.filter_length m (lock_Placement lock)) at 1. lia.
  - symmetry. pose proof (canonicalizeLock_equiv (set_placements (List.filter (λ p, negb (m p)) (lock_Placement lock)) lock)) as [_ _ Hv _].
    split; [done..|exact Hv|done].
  - apply packageVersionExists_spec.
    rewrite <- (lock_equiv_keys _ _ (canonicalizeLock_equiv _)). by apply packageVersionExists_spec.
Qed.
