(* ===== verification/Prune.v ===== *)
(** Retention: [internal/state/prune.go].

    The comparator is a parameter, [None] standing for a nil function.  The
    theorems are proved against [LawfulComparator], the interface the version
    comparators of the formats implement. *)

From S2P Require Import Prelude GoStrings GoSlices Model Formats Source Lock LockInvariant LockOps.

Open Scope Z_scope.

Definition VersionComparator := string → string → result Z.

Definition partitionKey : Type := string * string * string.
Definition partitionOf (p : Placement) : partitionKey := (pl_Package p, pl_Track p, pl_Distro p).

Definition partitionLess (l r : partitionKey) : bool :=
  less_then l.1.1 r.1.1 (less_then l.1.2 r.1.2 (str_ltb l.2 r.2)).

Definition partitionVersions (pls : list Placement) (partition : partitionKey) : list string :=
  pl_Version <$> List.filter (λ p, bool_decide (partitionOf p = partition)) pls.

(** The map's keys, each once, in the order the code sorts them into. *)
Definition partitionNames (pls : list Placement) : list partitionKey :=
  sort_slice partitionLess (remove_dups (partitionOf <$> pls)).

(** The inner loop: [x] moves towards the front while it is newer than its
    neighbour.  [before] is the sorted part read backwards from [x]. *)
Fixpoint sift (compare : VersionComparator) (x : string) (before : list string) : result (list string) :=
  match before with
  | [] => Ok [x]
  | y :: rest =>
      comparison ← compare x y;
      if (comparison <? 0) || ((comparison =? 0) && str_leb y x) then Ok (x :: before)
      else rest' ← sift compare x rest; Ok (y :: rest')
  end.

(** The outer loop, on the sorted part read backwards. *)
Fixpoint sortFrom (compare : VersionComparator) (before versions : list string) : result (list string) :=
  match versions with
  | [] => Ok (reverse before)
  | x :: rest => before' ← sift compare x before; sortFrom compare before' rest
  end.

(** The versions behind the cutoff that do not tie with it. *)
Fixpoint behindCutoff (compare : VersionComparator) (cutoff : string) (versions : list string)
    : result (list string) :=
  match versions with
  | [] => Ok []
  | version :: rest =>
      comparison ← compare version cutoff;
      removed ← behindCutoff compare cutoff rest;
      Ok (if comparison =? 0 then removed else version :: removed)
  end.

Definition expired (compare : VersionComparator) (keep : nat) (versions : list string) : result (list string) :=
  versions ← sortFrom compare [] versions;
  if (length versions <=? keep)%nat then Ok []
  else match versions !! (keep - 1)%nat with
       | Some cutoff => behindCutoff compare cutoff (drop keep versions)
       | None => Ok []
       end.

Fixpoint expiredIn (compare : VersionComparator) (keep : nat) (pls : list Placement)
    (partitions : list partitionKey) : result (list (partitionKey * string)) :=
  match partitions with
  | [] => Ok []
  | partition :: rest =>
      versions ← expired compare keep (partitionVersions pls partition);
      remove ← expiredIn compare keep pls rest;
      Ok (((λ version, (partition, version)) <$> versions) ++ remove)
  end.

Definition placementKey (p : Placement) : partitionKey * string := (partitionOf p, pl_Version p).

Definition PrunePlacements (lock : RepositoryLock) (keep : Z) (compare : option VersionComparator)
    : RepositoryLock * result Z :=
  if keep <? 1 then (lock, Err "prune retention must keep at least one version")
  else match compare with
  | None => (lock, Err "version comparator is required")
  | Some compare =>
      match expiredIn compare (Z.to_nat keep) (lock_Placement lock) (partitionNames (lock_Placement lock)) with
      | Err e => (lock, Err e)
      | Ok remove =>
          if bool_decide (remove = []) then (lock, Ok 0)
          else
            let gone := λ p, bool_decide (placementKey p ∈ remove) in
            let kept := List.filter (λ p, negb (gone p)) (lock_Placement lock) in
            let removed := length (List.filter gone (lock_Placement lock)) in
            (canonicalizeLock (set_placements kept lock), Ok (Z.of_nat removed))
      end
  end.

(** ** Retention keeps the newest *)

Section retention.
Context (compare : VersionComparator) `{!LawfulComparator compare}.

Let cmp := version_cmp (compare := compare).

(** Oldest first, as [sift] sees the sorted part. *)
Definition oldest_first : list string → Prop := StronglySorted (λ a b, cmp a b ≠ Gt).
Definition newest_first : list string → Prop := StronglySorted (λ a b, cmp b a ≠ Gt).

Lemma sift_spec x before :
  comparable x → Forall comparable before → oldest_first before →
  ∃ out, sift compare x before = Ok out ∧ out ≡ₚ x :: before ∧ oldest_first out.
Proof.
  intros Hx Hc Hs. induction Hs as [|y rest Hrest IH Hy]; simpl.
  { exists [x]. split; [done|]. split; [done|]. by repeat constructor. }
  apply Forall_cons in Hc as [Hcy Hcr]. rewrite compare_spec by done. fold cmp. cbn [mbind result_bind].
  assert (oldest_first (y :: rest)) as Hsorted by by constructor.
  assert (cmp x y ≠ Gt → oldest_first (x :: y :: rest)) as Hstop.
  { intros Hxy. constructor; [done|]. constructor; [done|].
    eapply Forall_impl; [exact Hy|]. intros z. by apply (cmp_le_trans cmp). }
  destruct (IH Hcr) as (out & Eo & Hp & Ho). rewrite Eo. cbn [mbind result_bind].
  destruct (_ || _) eqn:E.
  - exists (x :: y :: rest). split; [done|]. split; [done|]. apply Hstop.
    intros Eg. rewrite Eg in E. done.
  - exists (y :: out). split; [done|]. split; [rewrite Hp; apply Permutation_swap|].
    constructor; [done|]. rewrite Hp. constructor; [|done].
    rewrite (cmp_antisym cmp x y). destruct (cmp x y); done.
Qed.

Lemma sortFrom_spec before versions :
  Forall comparable before → Forall comparable versions → oldest_first before →
  ∃ out, sortFrom compare before versions = Ok out ∧ out ≡ₚ before ++ versions ∧ newest_first out.
Proof.
  revert before; induction versions as [|x versions IH]; intros before Hb Hv Hs; simpl.
  - exists (reverse before). split; [done|].
    split; [by rewrite reverse_Permutation, (right_id_L [] (++))|].
    clear -Hs. induction Hs as [|y rest _ IH Hy]; [constructor|]. rewrite reverse_cons.
    apply StronglySorted_app. split; [|split; [done|by repeat constructor]].
    intros a b Ha ->%list_elem_of_singleton. rewrite reverse_Permutation in Ha.
    rewrite Forall_forall in Hy. by apply Hy.
  - apply Forall_cons in Hv as [Hx Hv].
    destruct (sift_spec x before Hx Hb Hs) as (b' & Eb & Hp & Hs'). rewrite Eb. cbn [mbind result_bind].
    destruct (IH b') as (out & Eo & Hpo & Ho); [by rewrite Hp; constructor|done|done|].
    exists out. split; [done|]. split; [|done]. rewrite Hpo, Hp. apply Permutation_middle.
Qed.

Lemma behindCutoff_spec cutoff versions :
  comparable cutoff → Forall comparable versions →
  ∃ removed, behindCutoff compare cutoff versions = Ok removed ∧
    ∀ v, v ∈ removed ↔ v ∈ versions ∧ cmp v cutoff ≠ Eq.
Proof.
  intros Hc. induction versions as [|v versions IH]; simpl; intros Hv.
  { exists []. split; [done|]. intros v. rewrite elem_of_nil. tauto. }
  apply Forall_cons in Hv as [Hcv Hv]. destruct (IH Hv) as (removed & E & Hr).
  rewrite compare_spec, E by done. fold cmp. cbn [mbind result_bind]. eexists. split; [done|].
  intros w. rewrite elem_of_cons. destruct (cmp v cutoff) eqn:Ev; simpl; rewrite ?elem_of_cons, Hr;
    intuition congruence.
Qed.

(** How many of [versions] are strictly newer than [v]. *)
Definition newer (v : string) (versions : list string) : nat :=
  length (List.filter (λ u, bool_decide (cmp u v = Gt)) versions).

Lemma newer_perm v l k : l ≡ₚ k → newer v l = newer v k.
Proof. intros Hp. unfold newer. by rewrite Hp. Qed.

Lemma newer_app v l k : newer v (l ++ k) = (newer v l + newer v k)%nat.
Proof. unfold newer. by rewrite List.filter_app, length_app. Qed.

Lemma newer_le v l : (newer v l ≤ length l)%nat.
Proof. apply List.filter_length_le. Qed.

Lemma newer_all v l : Forall (λ u, cmp u v = Gt) l → newer v l = length l.
Proof.
  unfold newer. induction 1 as [|u l Hu _ IH]; simpl; [done|].
  rewrite bool_decide_eq_true_2 by done. simpl. by rewrite IH.
Qed.

Lemma newer_none v l : Forall (λ u, cmp u v ≠ Gt) l → newer v l = 0%nat.
Proof.
  unfold newer. induction 1 as [|u l Hu _ IH]; simpl; [done|]. by rewrite bool_decide_eq_false_2.
Qed.

(** A version that is present is not newer than itself. *)
Lemma newer_lt v l : v ∈ l → (newer v l < length l)%nat.
Proof.
  intros [i Hi]%list_elem_of_lookup. rewrite <- (take_drop_middle l i v Hi), newer_app, length_app.
  pose proof (newer_le v (take i l)). pose proof (newer_le v (drop (S i) l)).
  assert (newer v (v :: drop (S i) l) = newer v (drop (S i) l)) as ->.
  { unfold newer. simpl. rewrite bool_decide_eq_false_2; [done|]. by rewrite (cmp_refl cmp). }
  simpl. lia.
Qed.

(** Ranked newest first, a version is behind the cutoff exactly when at least
    [keep] versions are newer. *)
Lemma cutoff_rank keep versions cutoff v :
  newest_first versions → versions !! (keep - 1)%nat = Some cutoff → (1 ≤ keep)%nat →
  v ∈ versions → (v ∈ drop keep versions ∧ cmp v cutoff ≠ Eq) ↔ (keep ≤ newer v versions)%nat.
Proof.
  intros Hs Hcut Hk Hv.
  pose proof (take_drop_middle versions _ _ Hcut) as Hsplit. replace (S (keep - 1)) with keep in Hsplit by lia.
  assert (length (take (keep - 1) versions) = (keep - 1)%nat) as Hlen.
  { rewrite length_take. apply lookup_lt_Some in Hcut. lia. }
  set (front := take (keep - 1) versions) in *. set (back := drop keep versions) in *.
  unfold newest_first in Hs. rewrite <- Hsplit in Hs.
  apply StronglySorted_app in Hs as (Hfront & _ & Hs). apply StronglySorted_cons in Hs as [Hback _].
  assert (Forall (λ u, cmp cutoff u ≠ Gt) front) as Hf.
  { apply Forall_forall. intros u Hu. apply Hfront; [done|apply list_elem_of_here]. }
  split.
  - intros [Hin Hne]. rewrite Forall_forall in Hback. specialize (Hback v Hin).
    assert (cmp v cutoff = Lt) as Hlt by by destruct (cmp v cutoff).
    rewrite <- Hsplit, (cons_middle cutoff front back), app_assoc, newer_app, newer_all; [rewrite length_app; simpl; lia|].
    apply Forall_app. split; [|constructor; [|constructor]].
    + eapply Forall_impl; [exact Hf|]. intros u Hu. apply (cmp_lt_gt cmp).
      by eapply (cmp_lt_le_trans cmp).
    + by apply (cmp_lt_gt cmp).
  - intros Hn. assert (cmp v cutoff = Lt) as Hlt.
    { destruct (cmp v cutoff) eqn:E; [exfalso|done|exfalso];
      (assert (cmp cutoff v ≠ Gt) as Hcv by (rewrite (cmp_antisym cmp v cutoff), E; done);
       rewrite <- Hsplit, newer_app, (newer_none v (cutoff :: back)) in Hn;
       [pose proof (newer_le v front); lia|];
       constructor; [done|]; eapply Forall_impl; [exact Hback|]; intros u Hu;
       by apply (cmp_le_trans cmp u cutoff v)). }
    rewrite Hlt. split; [|done]. rewrite <- Hsplit in Hv.
    apply elem_of_app in Hv as [Hv|[->|Hv]%elem_of_cons]; [exfalso|exfalso|done].
    + rewrite Forall_forall in Hf. specialize (Hf v Hv). rewrite (cmp_antisym cmp v cutoff), Hlt in Hf. done.
    + by rewrite (cmp_refl cmp) in Hlt.
Qed.

Lemma expired_spec keep versions :
  (1 ≤ keep)%nat → Forall comparable versions →
  ∃ removed, expired compare keep versions = Ok removed ∧
    ∀ v, v ∈ removed ↔ v ∈ versions ∧ (keep ≤ newer v versions)%nat.
Proof.
  intros Hk Hc. destruct (sortFrom_spec [] versions) as (sorted & E & Hp & Hs); [done|done|constructor|].
  simpl in Hp. unfold expired. rewrite E. cbn [mbind result_bind].
  enough (∃ removed, (if (length sorted <=? keep)%nat then Ok []
      else match sorted !! (keep - 1)%nat with
           | Some cutoff => behindCutoff compare cutoff (drop keep sorted)
           | None => Ok []
           end) = Ok removed ∧
      ∀ v, v ∈ removed ↔ v ∈ sorted ∧ (keep ≤ newer v sorted)%nat) as (removed & Er & Hr).
  { exists removed. split; [done|]. intros v. by rewrite Hr, (newer_perm v _ _ Hp), Hp. }
  rewrite <- Hp in Hc. clear E Hp versions.
  destruct (Nat.leb_spec (length sorted) keep) as [Hle|Hlt].
  - exists []. split; [done|]. intros v. rewrite elem_of_nil. split; [done|].
    intros [Hv Hn]. pose proof (newer_lt v sorted Hv). lia.
  - destruct (lookup_lt_is_Some_2 sorted (keep - 1)) as [cutoff Hcut]; [lia|]. rewrite Hcut.
    destruct (behindCutoff_spec cutoff (drop keep sorted)) as (removed & E & Hr).
    + by eapply Forall_lookup_1.
    + by apply Forall_drop.
    + exists removed. split; [done|]. intros v. rewrite Hr. split.
      * intros [Hin Hne]. assert (v ∈ sorted) as Hv by by eapply subseteq_drop.
        split; [done|]. by apply (cutoff_rank keep sorted cutoff v).
      * intros [Hv Hn]. by apply (cutoff_rank keep sorted cutoff v).
Qed.

Lemma expiredIn_spec keep pls partitions :
  (1 ≤ keep)%nat → Forall (λ p, comparable (pl_Version p)) pls →
  ∃ remove, expiredIn compare keep pls partitions = Ok remove ∧
    ∀ partition v, (partition, v) ∈ remove ↔ partition ∈ partitions ∧
      v ∈ partitionVersions pls partition ∧ (keep ≤ newer v (partitionVersions pls partition))%nat.
Proof.
  intros Hk Hc. induction partitions as [|part partitions (remove & E & Hr)]; simpl.
  { exists []. split; [done|]. intros. rewrite !elem_of_nil. tauto. }
  destruct (expired_spec keep (partitionVersions pls part) Hk) as (versions & Ev & Hv).
  { apply Forall_fmap, Forall_forall. intros p [Hp _]%elem_of_List_filter.
    rewrite Forall_forall in Hc. by apply Hc. }
  rewrite Ev, E. cbn [mbind result_bind]. eexists. split; [done|]. intros q v.
  rewrite elem_of_app, elem_of_cons, Hr, list_elem_of_fmap. split.
  - intros [(w & [= -> ->] & Hw)|?]; [|tauto]. apply Hv in Hw. tauto.
  - intros [[->|?] [??]]; [|tauto]. left. exists v. split; [done|]. by apply Hv.
Qed.

Lemma partitionNames_elem pls p : p ∈ pls → partitionOf p ∈ partitionNames pls.
Proof.
  intros Hp. unfold partitionNames. rewrite sort_slice_perm, elem_of_remove_dups.
  by apply list_elem_of_fmap_2.
Qed.

(** The placements of [p]'s package, track and distro with a newer version. *)
Definition newerPlacements (lock : RepositoryLock) (p : Placement) : nat :=
  newer (pl_Version p) (partitionVersions (lock_Placement lock) (partitionOf p)).
Definition retained (lock : RepositoryLock) (keep : Z) (p : Placement) : bool :=
  (newerPlacements lock p <? Z.to_nat keep)%nat.

Lemma PrunePlacements_spec lock keep :
  1 ≤ keep → Forall (λ p, comparable (pl_Version p)) (lock_Placement lock) →
  let gone := List.filter (λ p, negb (retained lock keep p)) (lock_Placement lock) in
  PrunePlacements lock keep (Some compare) =
    (if bool_decide (gone = []) then lock
     else canonicalizeLock (set_placements (List.filter (retained lock keep) (lock_Placement lock)) lock),
     Ok (Z.of_nat (length gone))).
Proof.
  intros Hk Hc. cbn zeta. unfold PrunePlacements. destruct (Z.ltb_spec keep 1); [lia|].
  destruct (expiredIn_spec (Z.to_nat keep) (lock_Placement lock) (partitionNames (lock_Placement lock)))
    as (remove & E & Hr); [lia|done|]. rewrite E.
  assert (∀ p, p ∈ lock_Placement lock → bool_decide (placementKey p ∈ remove) = negb (retained lock keep p)) as Hgone.
  { intros p Hp. apply Bool.eq_iff_eq_true. unfold placementKey, retained.
    rewrite bool_decide_eq_true, negb_true_iff, Nat.ltb_ge, Hr. split; [tauto|].
    intros Hn. split; [by apply partitionNames_elem|]. split; [|done].
    unfold partitionVersions. apply list_elem_of_fmap. exists p. split; [done|].
    apply elem_of_List_filter. by rewrite bool_decide_eq_true_2. }
  rewrite (List.filter_ext_in (λ p, negb (bool_decide (placementKey p ∈ remove))) (retained lock keep)).
  2: { intros p Hp%list_elem_of_In. rewrite Hgone by done. apply negb_involutive. }
  rewrite (List.filter_ext_in (λ p, bool_decide (placementKey p ∈ remove)) (λ p, negb (retained lock keep p))).
  2: { intros p Hp%list_elem_of_In. by apply Hgone. }
  assert (remove = [] ↔ List.filter (λ p, negb (retained lock keep p)) (lock_Placement lock) = []) as Hempty.
  { split.
    - intros ->. destruct (List.filter _ _) as [|p l] eqn:Ef; [done|exfalso].
      assert (p ∈ List.filter (λ p, negb (retained lock keep p)) (lock_Placement lock)) as Hp by (rewrite Ef; apply list_elem_of_here).
      apply elem_of_List_filter in Hp as [Hp Hn]. rewrite <- Hgone in Hn by done.
      rewrite bool_decide_eq_false_2 in Hn; [done|]. by intros ?%elem_of_nil.
    - intros Ef. destruct remove as [|[part v] remove]; [done|exfalso].
      destruct (Hr part v) as [Hin _]. destruct Hin as (_ & Hv & Hn); [apply list_elem_of_here|].
      apply list_elem_of_fmap in Hv as (p & -> & [Hp Ep]%elem_of_List_filter).
      apply bool_decide_eq_true in Ep. subst part.
      assert (p ∈ List.filter (λ p, negb (retained lock keep p)) (lock_Placement lock)) as Hbad.
      { apply elem_of_List_filter. split; [done|]. by apply negb_true_iff, Nat.ltb_ge. }
      rewrite Ef in Hbad. by apply elem_of_nil in Hbad. }
  rewrite (bool_decide_ext _ _ Hempty). case_bool_decide as Eg; [|done]. by rewrite Eg.
Qed.
End retention.

(** C29: With a lawful comparator, pruning to [keep] versions always succeeds and
    keeps exactly the placements with fewer than [keep] strictly newer versions in
    their package, track and distro: the newest [keep] and everything that ties
    with the last of them stay.  The count reported is the number removed, and no
    package version or byte leaves the lock. *)
Theorem prune_keeps_newest (compare : VersionComparator) `{!LawfulComparator compare} lock keep :
  1 ≤ keep → Forall (λ p, comparable (pl_Version p)) (lock_Placement lock) →
  let lock' := (PrunePlacements lock keep (Some compare)).1 in
  (∀ p, p ∈ lock_Placement lock' ↔ p ∈ lock_Placement lock ∧ retained compare lock keep p = true) ∧
  (∃ removed, (PrunePlacements lock keep (Some compare)).2 = Ok removed ∧
     Z.of_nat (length (lock_Placement lock)) = Z.of_nat (length (lock_Placement lock')) + removed) ∧
  lock_equiv lock' (set_placements (lock_Placement lock') lock).
Proof.
  intros Hk Hc. cbn zeta. rewrite (PrunePlacements_spec compare lock keep Hk Hc). cbn [fst snd].
  pose proof (List.filter_length (retained compare lock keep) (lock_Placement lock)) as Hlen.
  case_bool_decide as Eg.
  - rewrite Eg in *. split; [|split].
    + intros p. split; [|tauto]. intros Hp. split; [done|].
      destruct (retained compare lock keep p) eqn:Er; [done|].
      assert (p ∈ List.filter (λ p, negb (retained compare lock keep p)) (lock_Placement lock)) as Hbad.
      { apply elem_of_List_filter. by rewrite Er. }
      rewrite Eg in Hbad. by apply elem_of_nil in Hbad.
    + exists 0. split; [done|lia].
    + by destruct lock.
  - split; [|split].
    + intros p. simpl. by rewrite sort_slice_perm, elem_of_List_filter.
    + eexists. split; [done|]. simpl. rewrite sort_slice_perm. lia.
    + symmetry. pose proof (canonicalizeLock_equiv (set_placements (List.filter (retained compare lock keep) (lock_Placement lock)) lock)) as [_ _ Hv _].
      split; [done..|exact Hv|done].
Qed.
