(* ===== verification/LockHistory.v ===== *)
(** Sequences of lock operations: what holds of every lock an operator can reach. *)

From S2P Require Import Prelude GoStrings GoSlices GoRegexp DebVersion RawVersion Model Formats Source Lock LockInvariant LockOps Prune.

Open Scope Z_scope.

Lemma PrunePlacements_filter lock keep compare :
  (PrunePlacements lock keep compare).1 = lock ∨
  ∃ kept, (PrunePlacements lock keep compare).1 =
    canonicalizeLock (set_placements (List.filter kept (lock_Placement lock)) lock).
Proof.
  unfold PrunePlacements. destruct (keep <? 1); [by left|]. destruct compare as [compare|]; [|by left].
  destruct (expiredIn _ _ _ _); [|by left]. case_bool_decide; [by left|]. right. by eexists.
Qed.

Section history.
Context `{NetLib} (format : string) (selected : Format) (Hformat : For format = Ok selected).

(** One operation on a lock, successful or refused.  What an operation is given
    is checked by its callers: an added blob was inspected, an origin validated. *)
Inductive lock_step : RepositoryLock → RepositoryLock → Prop :=
| step_add lock track distro blob packageName version :
    blob_wf blob → packageName ≠ "" → version ≠ "" →
    lock_step lock (AddBlob lock format track distro blob packageName version).1
| step_origin lock packageName version filename digest origin :
    ValidateArtifactOrigin origin = Ok () →
    lock_step lock (SetBlobOrigin lock packageName version filename digest origin).1
| step_promote lock packageName version track distro :
    lock_step lock (PromotePlacement lock format packageName version track distro).1
| step_yank lock packageName version track distro all :
    lock_step lock (YankPlacements lock format packageName version track distro all).1
| step_prune lock keep compare :
    lock_step lock (PrunePlacements lock keep compare).1
| step_canonicalize lock :
    lock_step lock (canonicalizeLock lock).

Lemma lock_step_wf repository l r :
  lock_step l r → lock_wf selected repository l → lock_wf selected repository r.
Proof.
  intros Hs Hl. destruct Hs.
  - by apply AddBlob_wf.
  - by apply SetBlobOrigin_wf.
  - by apply PromotePlacement_wf.
  - by apply YankPlacements_wf.
  - destruct (PrunePlacements_filter lock keep compare) as [->|[kept ->]]; [done|].
    rewrite <- canonicalizeLock_wf. by apply filter_placements_wf.
  - by rewrite <- canonicalizeLock_wf.
Qed.

Lemma lock_step_kept l r : lock_step l r → bytes_kept l r.
Proof.
  intros []; auto using AddBlob_kept, SetBlobOrigin_kept, PromotePlacement_kept, YankPlacements_kept.
  - destruct (PrunePlacements_filter lock keep compare) as [->|[kept ->]]; [done|].
    apply canonicalize_placements_kept.
  - apply lock_equiv_bytes_kept, canonicalizeLock_equiv.
Qed.

Lemma lock_steps_wf repository l r :
  rtc lock_step l r → lock_wf selected repository l → lock_wf selected repository r.
Proof. induction 1; eauto using lock_step_wf. Qed.

Lemma lock_steps_kept l r : rtc lock_step l r → bytes_kept l r.
Proof. induction 1 as [|l m r Hlm _ IH]; [done|]. etrans; [by apply lock_step_kept|done]. Qed.

(** In a well-formed lock a coordinate of a version names one blob. *)
Lemma holds_unique repository lock packageName version x y :
  lock_wf selected repository lock →
  holds lock packageName version x → holds lock packageName version y →
  coordinateOf selected x = coordinateOf selected y → x = y.
Proof.
  intros Hl (p & Hp & Ep & Hx) (q & Hq & Eq & Hy) E.
  assert (p = q) as <-.
  { eapply (NoDup_fmap_inj_on version_key); [apply (lw_distinct _ _ _ Hl)|done..|congruence]. }
  pose proof (lw_versions _ _ _ Hl) as Hv. rewrite Forall_forall in Hv.
  eapply (NoDup_fmap_inj_on (coordinateOf selected)); [apply (vw_coordinates _ _ (Hv p Hp))|done..].
Qed.

(** C2: Every lock reached from a new repository's lock by any sequence of
    additions, origin records, promotions, yanks, prunes and rewrites, refused
    ones included, is well-formed, and [ValidateLock] accepts it when its names
    are free of NUL bytes.  An addition is of a blob that is well-formed on its
    own (a safe file name, a size, a lower-case SHA-256, a valid origin) under a
    non-empty package and version, and a recorded origin is valid; promotions,
    yanks, prunes and rewrites are of any arguments. *)
Theorem reachable_lock_valid repository lock :
  rtc lock_step (mkLock LockSchema repository [] []) lock →
  lock_wf selected repository lock ∧
  (lock_nul_free lock → ValidateLock lock repository format = Ok ()).
Proof.
  intros Hr. assert (lock_wf selected repository lock) as Hwf.
  { eapply lock_steps_wf; [done|]. split; simpl; try done; constructor. }
  split; [done|]. intros Hn. by apply (ValidateLock_exact _ _ _ selected).
Qed.

(** C16: Published bytes are immutable: once a version's coordinate is bound to
    an artifact, no sequence of operations binds it to another name, digest, size
    or architecture, and none removes it. *)
Theorem bound_bytes_immutable repository l r packageName version x :
  lock_wf selected repository l → rtc lock_step l r → holds l packageName version x →
  (∃ y, holds r packageName version y ∧ same_bytes x y) ∧
  (∀ y, holds r packageName version y → coordinateOf selected y = coordinateOf selected x → same_bytes x y).
Proof.
  intros Hl Hr Hx. destruct (lock_steps_kept l r Hr packageName version x Hx) as (y & Hy & Hs).
  split; [by exists y|]. intros z Hz E.
  assert (z = y) as ->; [|done]. eapply holds_unique; [by eapply lock_steps_wf|done..|].
  rewrite E. destruct Hs as (E1 & _ & _ & E2). unfold coordinateOf. by rewrite E1, E2.
Qed.
End history.

(** An operation that reports an error has changed nothing. *)
Theorem failed_operation_changes_nothing lock format packageName version track distro :
  (∀ blob e, (AddBlob lock format track distro blob packageName version).2 = Err e →
     (AddBlob lock format track distro blob packageName version).1 = lock) ∧
  (∀ filename digest origin e, (SetBlobOrigin lock packageName version filename digest origin).2 = Err e →
     (SetBlobOrigin lock packageName version filename digest origin).1 = lock) ∧
  (∀ e, (PromotePlacement lock format packageName version track distro).2 = Err e →
     (PromotePlacement lock format packageName version track distro).1 = lock) ∧
  (∀ all e, (YankPlacements lock format packageName version track distro all).2 = Err e →
     (YankPlacements lock format packageName version track distro all).1 = lock) ∧
  (∀ keep compare e, (PrunePlacements lock keep compare).2 = Err e →
     (PrunePlacements lock keep compare).1 = lock).
Proof.
  split; [by eauto using AddBlob_err|]. split; [|split; [|split]].
  - intros filename digest origin e. unfold SetBlobOrigin.
    destruct (setOriginInVersions _ _ _ _ _ _) as [pvs r] eqn:E. simpl. intros ->.
    apply setOriginInVersions_filled in E as [_ He]. rewrite He by done. by destruct lock.
  - intros e. unfold PromotePlacement. destruct (validatePlacementCoordinates _ _ _); [|done].
    destruct (negb _); [done|]. by destruct (existsb _ _).
  - intros all e. unfold YankPlacements. destruct (negb _); [done|]. by destruct (if all then _ else _).
  - intros keep compare e. unfold PrunePlacements. destruct (keep <? 1); [done|].
    destruct compare; [|done]. destruct (expiredIn _ _ _ _); [|done]. by case_bool_decide.
Qed.

(** * Concrete locks *)

(** A URL library that knows one address. *)
Definition exampleURL : URL :=
  mkURL "https" "example.org" "example.org" false "" "" "/tool_1.0_amd64.deb" "" "/tool_1.0_amd64.deb"
    "https://example.org/tool_1.0_amd64.deb".
#[local] Instance exampleNet : NetLib := {|
  ParseURL s := if bool_decide (s = Rendered exampleURL) then Some exampleURL else None;
  ParseAddr _ := None;
|}.

Definition digestA : string := "aaaaaaaaaaaaaaaaaaaaaaaaaaaaaaaaaaaaaaaaaaaaaaaaaaaaaaaaaaaaaaaa".
Definition digestB : string := "bbbbbbbbbbbbbbbbbbbbbbbbbbbbbbbbbbbbbbbbbbbbbbbbbbbbbbbbbbbbbbbb".
Definition blobA : LockedBlob := mkBlob "tool_1.0_amd64.deb" "amd64" 10 "" "" digestA "" None.
Definition blobB : LockedBlob := mkBlob "tool_1.0_arm64.deb" "arm64" 12 "" "" digestB "" None.
Definition blobC : LockedBlob := mkBlob "tool_1.1_amd64.deb" "amd64" 11 "" "" digestB "" None.
Definition placeA : Placement := mkPlacement "tool" "1.0" "stable" "bookworm".
Definition placeC : Placement := mkPlacement "tool" "1.1" "stable" "bookworm".
Definition placeD : Placement := mkPlacement "tool" "1.1~rc1" "stable" "bookworm".

Definition emptyLock : RepositoryLock := mkLock LockSchema "apt" [] [].
Definition lockA : RepositoryLock :=
  mkLock LockSchema "apt" [mkPackageVersion "tool" "1.0" "draft" [blobA]] [placeA].
Definition lockAB : RepositoryLock :=
  mkLock LockSchema "apt"
    [mkPackageVersion "tool" "1.1" "draft" [blobC]; mkPackageVersion "tool" "1.0" "draft" [blobB; blobA]]
    [placeC; placeA].
Definition lockBA : RepositoryLock :=
  mkLock LockSchema "apt"
    [mkPackageVersion "tool" "1.0" "draft" [blobA; blobB]; mkPackageVersion "tool" "1.1" "draft" [blobC]]
    [placeA; placeC].

Lemma blobA_wf : blob_wf blobA.
Proof. apply validateBlob_spec. vm_compute. reflexivity. Qed.
Lemma blobB_wf : blob_wf blobB.
Proof. apply validateBlob_spec. vm_compute. reflexivity. Qed.
Lemma blobC_wf : blob_wf blobC.
Proof. apply validateBlob_spec. vm_compute. reflexivity. Qed.

Ltac decide_true := apply (bool_decide_unpack _); vm_compute; exact I.

(** The validator's loop as a decision procedure. *)
Lemma versions_by_validation `{NetLib} selected pvs :
  is_ok (validateVersions selected ∅ pvs) = true → Forall (version_wf selected) pvs.
Proof.
  destruct (validateVersions selected ∅ pvs) as [vs|] eqn:E; [|done]. intros _.
  by apply validateVersions_spec in E as [? _].
Qed.

Ltac example_wf :=
  split; [reflexivity|reflexivity|apply versions_by_validation; vm_compute; reflexivity|decide_true..].

Lemma lockA_wf : lock_wf debFormat "apt" lockA.
Proof. example_wf. Qed.
Lemma lockAB_wf : lock_wf debFormat "apt" lockAB.
Proof. example_wf. Qed.

Lemma lockAB_equiv : lock_equiv lockAB lockBA.
Proof.
  split; [done..| |].
  - exists [mkPackageVersion "tool" "1.1" "draft" [blobC]; mkPackageVersion "tool" "1.0" "draft" [blobA; blobB]].
    split; [|apply Permutation_swap].
    repeat apply List.Forall2_cons; [done| |constructor].
    split; [done|]. split; [done|]. apply Permutation_swap.
  - apply Permutation_swap.
Qed.

Lemma validate_lock_exact_witness :
  ValidateLock lockAB "apt" "deb" = Ok () ↔ lock_wf debFormat "apt" lockAB.
Proof.
  apply validate_lock_exact; [reflexivity|]. split; decide_true.
Defined.

Lemma canonical_form_unique_witness :
  canonicalizeLock lockAB = canonicalizeLock lockBA ∧
  canonicalizeLock (canonicalizeLock lockAB) = canonicalizeLock lockAB.
Proof. exact (canonical_form_unique debFormat "apt" lockAB lockBA lockAB_wf lockAB_equiv). Defined.

Lemma add_blob_records_witness :
  let lock' := (AddBlob emptyLock "deb" "" "bookworm" blobA "tool" "1.0").1 in
  (∃ b, holds lock' "tool" "1.0" b ∧ same_bytes b blobA) ∧ placeA ∈ lock_Placement lock'.
Proof. apply (add_blob_records emptyLock "deb" "" "bookworm" blobA "tool" "1.0" true). vm_compute. reflexivity. Defined.

Lemma add_blob_idempotent_witness :
  AddBlob lockA "deb" "stable" "bookworm" blobA "tool" "1.0" = (lockA, Ok false).
Proof.
  change lockA with (AddBlob emptyLock "deb" "stable" "bookworm" blobA "tool" "1.0").1.
  apply (add_blob_idempotent emptyLock "deb" "stable" "bookworm" blobA "tool" "1.0" true);
    [constructor|vm_compute; reflexivity].
Defined.

Lemma yank_exact_witness :
  let lock' := (YankPlacements lockAB "deb" "tool" "1.1" "stable" "bookworm" false).1 in
  (∀ p, p ∈ lock_Placement lock' ↔
     p ∈ lock_Placement lockAB ∧ yankMatches "tool" "1.1" "stable" "bookworm" false p = false) ∧
  2 = Z.of_nat (length (lock_Placement lock')) + 1 ∧
  lock_equiv lock' (set_placements (lock_Placement lock') lockAB) ∧
  packageVersionExists lock' "tool" "1.1" = true.
Proof. apply (yank_exact lockAB "deb" "tool" "1.1" "stable" "bookworm" false 1). vm_compute. reflexivity. Defined.

Lemma yank_promote_roundtrip_witness :
  let yanked := YankPlacements lockAB "deb" "tool" "1.1" "stable" "bookworm" false in
  yanked.2 = Ok 1 ∧
  PromotePlacement yanked.1 "deb" "tool" "1.1" "stable" "bookworm" = (canonicalizeLock lockAB, Ok true).
Proof.
  apply (yank_promote_roundtrip debFormat "apt"); [exact lockAB_wf|vm_compute; reflexivity|decide_true].
Defined.

#[local] Existing Instance Deb.CompareVersions_lawful.

Definition lockThree : RepositoryLock := set_placements [placeA; placeC; placeD] lockAB.

Lemma prune_keeps_newest_witness :
  let lock' := (PrunePlacements lockThree 2 (Some Deb.CompareVersions)).1 in
  (∀ p, p ∈ lock_Placement lock' ↔
     p ∈ lock_Placement lockThree ∧ retained Deb.CompareVersions lockThree 2 p = true) ∧
  (∃ removed, (PrunePlacements lockThree 2 (Some Deb.CompareVersions)).2 = Ok removed ∧
     3 = Z.of_nat (length (lock_Placement lock')) + removed) ∧
  lock_equiv lock' (set_placements (lock_Placement lock') lockThree).
Proof.
  apply (prune_keeps_newest Deb.CompareVersions lockThree 2); [lia|].
  repeat apply List.Forall_cons; [vm_compute; reflexivity..|constructor].
Defined.

Lemma reachable_lock_valid_witness :
  lock_wf debFormat "apt" lockA ∧ (lock_nul_free lockA → ValidateLock lockA "apt" "deb" = Ok ()).
Proof.
  apply (reachable_lock_valid "deb" debFormat eq_refl "apt").
  apply rtc_once. change lockA with (AddBlob emptyLock "deb" "stable" "bookworm" blobA "tool" "1.0").1.
  apply (step_add "deb" emptyLock); [exact blobA_wf|discriminate..].
Defined.

Lemma bound_bytes_immutable_witness :
  (∃ y, holds (AddBlob lockA "deb" "" "trixie" blobB "tool" "1.0").1 "tool" "1.0" y ∧ same_bytes blobA y) ∧
  (∀ y, holds (AddBlob lockA "deb" "" "trixie" blobB "tool" "1.0").1 "tool" "1.0" y →
     coordinateOf debFormat y = coordinateOf debFormat blobA → same_bytes blobA y).
Proof.
  apply (bound_bytes_immutable "deb" debFormat eq_refl "apt" lockA).
  - exact lockA_wf.
  - apply rtc_once. apply (step_add "deb" lockA); [exact blobB_wf|discriminate..].
  - exists (mkPackageVersion "tool" "1.0" "draft" [blobA]). split; [apply list_elem_of_here|].
    split; [reflexivity|apply list_elem_of_here].
Defined.

(** ** Identities joined with NUL *)

(** The version recorded is 1.0 of a package whose name ends in NUL and an x; the
    placement names version x NUL 1.0 of the package tool. *)
Definition nulLock : RepositoryLock :=
  mkLock LockSchema "apt"
    [mkPackageVersion ("tool" +:+ nul +:+ "x") "1.0" "draft" [blobA]]
    [mkPlacement "tool" ("x" +:+ nul +:+ "1.0") "stable" "bookworm"].

(** The NUL-joined identities are ambiguous: [ValidateLock] accepts a lock
    whose placement names a version that is not recorded. *)
Theorem validate_lock_nul_dangling :
  ValidateLock nulLock "apt" "deb" = Ok () ∧ ¬ lock_wf debFormat "apt" nulLock.
Proof.
  split; [vm_compute; reflexivity|]. intros [_ _ _ _ Hp _].
  apply Forall_cons in Hp as [[Hin _] _]. revert Hin.
  apply (bool_decide_unpack _). vm_compute. exact I.
Qed.
