(* ===== verification/JsonStrict.v ===== *)
(** Strict JSON decoding: [internal/jsonstrict/jsonstrict.go].

    Go's [encoding/json] is a parameter: [JsonLib.Tokens] is the sequence of
    tokens a [json.Decoder] yields on some bytes, with whether it ended at the end
    of the input rather than in an error.  The scan for duplicate keys, which is
    the program's own, is defined on that sequence.

    [json] is the tree a token sequence spells; [scanValue] accepts exactly the
    spellings of trees whose objects have distinct keys. *)

From S2P Require Import Prelude GoStrings GoSlices.

Inductive token :=
| Open (array : bool)
| Close (array : bool)
| TString (s : string)
| TAtom (literal : string).
#[export] Instance token_eq_dec : EqDecision token.
Proof. solve_decision. Defined.

Class JsonLib := {
  Tokens : string → list token * bool;
}.

(** [decoder.More()]: another element of the current array or object follows. *)
Definition More (ts : list token) : bool :=
  match ts with
  | [] | Close _ :: _ => false
  | _ => true
  end.

(** [decoder.Token()] at the end of a loop, its token ignored. *)
Definition skipToken (ts : list token) : result (list token) :=
  match ts with [] => Err "unexpected end of JSON input" | _ :: rest => Ok rest end.

(** [scanValue] on the tokens still to be read; the result is what it leaves.
    The fuel bounds the recursion of the two loops and of nested values, one unit
    each, and twice the number of tokens is always enough ([scan_spec_all]). *)
Fixpoint scanValue (fuel : nat) (ts : list token) : result (list token) :=
  match fuel with
  | O => Err "out of fuel"
  | S fuel =>
      match ts with
      | [] => Err "unexpected end of JSON input"
      | TString _ :: rest | TAtom _ :: rest => Ok rest
      | Open false :: rest => scanObject fuel ∅ rest
      | Open true :: rest => scanArray fuel rest
      | Close _ :: _ => Err "invalid JSON delimiter"
      end
  end
with scanObject (fuel : nat) (seen : gset string) (ts : list token) : result (list token) :=
  match fuel with
  | O => Err "out of fuel"
  | S fuel =>
      if More ts then
        match ts with
        | TString key :: rest =>
            refuse "JSON contains duplicate key" when bool_decide (key ∈ seen);
            rest ← scanValue fuel rest;
            scanObject fuel ({[key]} ∪ seen) rest
        | _ => Err "JSON object key is not a string"
        end
      else skipToken ts
  end
with scanArray (fuel : nat) (ts : list token) : result (list token) :=
  match fuel with
  | O => Err "out of fuel"
  | S fuel =>
      if More ts then rest ← scanValue fuel ts; scanArray fuel rest else skipToken ts
  end.

Definition rejectDuplicateKeys `{JsonLib} (content : string) : result () :=
  let '(ts, clean) := Tokens content in
  rest ← scanValue (2 * length ts + 1) ts;
  refuse "JSON contains trailing data" when negb (bool_decide (rest = []) && clean);
  Ok ().

(** [jsonstrict.Decode] into a destination: [unmarshal] is the typed decoding of
    [encoding/json], trailing data included in its errors. *)
Definition Decode `{JsonLib} {A} (unmarshal : string → result A) (content : string) (maximum : nat) : result A :=
  refuse "JSON exceeds the limit" when (maximum <? String.length content)%nat;
  _ ← rejectDuplicateKeys content;
  unmarshal content.

(** ** Trees *)

Inductive json :=
| JAtom (literal : string)
| JString (s : string)
| JArray (items : list json)
| JObject (fields : list (string * json)).

(** Induction that reaches the values nested in arrays and objects. *)
Section json_ind.
Context (P : json → Prop).
Hypothesis Hatom : ∀ l, P (JAtom l).
Hypothesis Hstring : ∀ s, P (JString s).
Hypothesis Harray : ∀ items, Forall P items → P (JArray items).
Hypothesis Hobject : ∀ fields, Forall (λ f, P f.2) fields → P (JObject fields).

Fixpoint json_nested_ind (v : json) : P v :=
  match v with
  | JAtom l => Hatom l
  | JString s => Hstring s
  | JArray items =>
      Harray items ((fix go l : Forall P l := match l with
        | [] => Forall_nil_2 P
        | x :: l => Forall_cons_2 P x l (json_nested_ind x) (go l)
        end) items)
  | JObject fields =>
      Hobject fields ((fix go l : Forall (λ f, P f.2) l := match l with
        | [] => Forall_nil_2 (λ f, P f.2)
        | f :: l => Forall_cons_2 (λ f, P f.2) f l (json_nested_ind f.2) (go l)
        end) fields)
  end.
End json_ind.

Fixpoint tokens (v : json) : list token :=
  match v with
  | JAtom l => [TAtom l]
  | JString s => [TString s]
  | JArray items => Open true :: concat (map tokens items) ++ [Close true]
  | JObject fields =>
      Open false :: concat (map (λ f, TString f.1 :: tokens f.2) fields) ++ [Close false]
  end.

(** No object of the tree has two fields of one name. *)
Inductive unique_keys : json → Prop :=
| unique_atom l : unique_keys (JAtom l)
| unique_string s : unique_keys (JString s)
| unique_array items : Forall unique_keys items → unique_keys (JArray items)
| unique_object fields :
    NoDup (fields.*1) → Forall (λ f, unique_keys f.2) fields → unique_keys (JObject fields).

(** ** The scan accepts the trees with distinct keys *)

Definition scans (ok : Prop) (r : result (list token)) (rest : list token) : Prop :=
  (ok ∧ r = Ok rest) ∨ (¬ ok ∧ ∃ e, r = Err e).

Lemma scans_iff ok ok' r rest : (ok ↔ ok') → scans ok r rest → scans ok' r rest.
Proof. unfold scans. tauto. Qed.

Lemma tokens_more v ts : More (tokens v ++ ts) = true ∧ (1 ≤ length (tokens v))%nat.
Proof. destruct v; simpl; split; try done; lia. Qed.

(** What the scan of one value does on every spelling that is long enough. *)
Definition scan_spec (v : json) : Prop :=
  ∀ rest fuel, (2 * length (tokens v) ≤ fuel)%nat →
    scans (unique_keys v) (scanValue fuel (tokens v ++ rest)) rest.

Lemma scanArray_spec items rest fuel :
  Forall scan_spec items → (2 * length (concat (map tokens items)) + 1 ≤ fuel)%nat →
  scans (Forall unique_keys items)
    (scanArray fuel (concat (map tokens items) ++ Close true :: rest)) rest.
Proof.
  revert fuel; induction items as [|x items IH]; intros [|fuel] Hs Hf; simpl in *; try lia.
  { by left. }
  apply Forall_cons in Hs as [Hx Hs]. rewrite length_app in Hf.
  rewrite <- app_assoc. destruct (tokens_more x (concat (map tokens items) ++ Close true :: rest)) as [-> Hlen].
  destruct (Hx (concat (map tokens items) ++ Close true :: rest) fuel) as [[Hu ->]|[Hu [e ->]]]; [lia| |].
  - eapply scans_iff; [|apply (IH fuel Hs); lia]. rewrite Forall_cons. tauto.
  - right. rewrite Forall_cons. split; [tauto|]. by exists e.
Qed.

Definition fieldTokens (f : string * json) : list token := TString f.1 :: tokens f.2.

Lemma scanObject_spec fields seen rest fuel :
  Forall (λ f, scan_spec f.2) fields →
  (2 * length (concat (map fieldTokens fields)) + 1 ≤ fuel)%nat →
  scans (all_new seen (fields.*1) ∧ Forall (λ f, unique_keys f.2) fields)
    (scanObject fuel seen (concat (map fieldTokens fields) ++ Close false :: rest)) rest.
Proof.
  revert seen fuel; induction fields as [|[k x] fields IH]; intros seen [|fuel] Hs Hf; simpl in *; try lia.
  { left. split; [|done]. split; [apply all_new_nil|done]. }
  apply Forall_cons in Hs as [Hx Hs]. simpl in Hx. rewrite length_app in Hf. rewrite <- app_assoc.
  destruct (tokens_more x []) as [_ Hlen].
  eapply (scans_iff ((k ∉ seen) ∧ unique_keys x ∧ all_new ({[k]} ∪ seen) (fields.*1) ∧ Forall (λ f, unique_keys f.2) fields)).
  { rewrite all_new_cons, Forall_cons. simpl. tauto. }
  case_bool_decide as Hk; simpl; [right; split; [tauto|by eexists]|].
  destruct (Hx (concat (map fieldTokens fields) ++ Close false :: rest) fuel) as [[Hu Hv]|[Hu [e Hv]]]; [lia| |];
    simpl in Hv; rewrite Hv.
  - eapply scans_iff; [|apply (IH ({[k]} ∪ seen) fuel Hs); lia]. tauto.
  - right. split; [tauto|]. by exists e.
Qed.

Lemma scan_spec_all v : scan_spec v.
Proof.
  induction v as [l|s|items IH|fields IH] using json_nested_ind; intros rest [|fuel] Hf; simpl in *; try lia.
  - left. split; [constructor|done].
  - left. split; [constructor|done].
  - rewrite length_app in Hf. rewrite <- app_assoc.
    eapply scans_iff; [|apply scanArray_spec; [done|simpl in *; lia]].
    split; [apply unique_array|by inversion 1].
  - rewrite length_app in Hf. rewrite <- app_assoc.
    eapply scans_iff; [|apply (scanObject_spec fields ∅); [done|unfold fieldTokens; simpl in *; lia]].
    rewrite all_new_empty. split; [intros []; by constructor|by inversion 1].
Qed.

(** On bytes that spell a JSON value, strict decoding refuses exactly the
    values in which some object repeats a key, and otherwise returns what the
    typed decoder returns; the scan never runs out of fuel. *)
Theorem decode_rejects_duplicate_keys `{JsonLib} {A} (unmarshal : string → result A) content maximum v :
  Tokens content = (tokens v, true) → (String.length content ≤ maximum)%nat →
  (unique_keys v ∧ Decode unmarshal content maximum = unmarshal content) ∨
  (¬ unique_keys v ∧ ∃ e, Decode unmarshal content maximum = Err e).
Proof.
  intros Ht Hm. unfold Decode, rejectDuplicateKeys. rewrite (proj2 (Nat.ltb_ge _ _) Hm), Ht.
  destruct (scan_spec_all v [] (2 * length (tokens v) + 1)%nat) as [[Hu E]|[Hu [e E]]];
    [lia| |]; rewrite (right_id_L [] (++)) in E; rewrite E; [by left|right].
  split; [done|]. by exists e.
Qed.

(** A tokenizer that knows two documents. *)
Module JsonExample.
Definition good : json := JObject [("a", JAtom "1"); ("b", JArray [JString "x"])].
Definition bad : json := JObject [("a", JAtom "1"); ("b", JObject [("c", JAtom "2"); ("c", JAtom "3")])].
#[local] Instance lib : JsonLib := {|
  Tokens s := if bool_decide (s = "good") then (tokens good, true)
              else if bool_decide (s = "bad") then (tokens bad, true) else ([], false) |}.

Lemma decode_rejects_duplicate_keys_witness :
  ((unique_keys good ∧ Decode Ok "good" 10 = Ok "good") ∨
   (¬ unique_keys good ∧ ∃ e, Decode (A := string) Ok "good" 10 = Err e)) ∧
  Decode Ok "good" 10 = Ok "good" ∧ Decode Ok "bad" 10 = Err "JSON contains duplicate key".
Proof.
  split; [|vm_compute; split; reflexivity].
  apply (decode_rejects_duplicate_keys Ok "good" 10 good); [reflexivity|vm_compute; lia].
Defined.
End JsonExample.
