(* ===== verification/Ledger.v ===== *)
(** The publication ledger: [internal/state/ledger.go].

    A ledger is one JSON record per line.  The JSON codec and [time.Parse] are
    parameters ([LedgerLib], [TimeLib]); the records, the line splitting, the checks, the
    replay of history and the update are the program's.  What git yields, the
    ledger's bytes at each commit, is an argument of [loadLedgerHistory]. *)

From S2P Require Import Prelude GoStrings GoSlices Model Formats Source Lock LockInvariant JsonStrict.

Open Scope Z_scope.

Class LedgerLib `{JsonLib, TimeLib} := {
  MarshalRecord : PublicationRecord → result string;
  UnmarshalRecord : string → result PublicationRecord;
}.

Definition publicationRecordKey (record : PublicationRecord) : string :=
  pub_PlanID record +:+ nul +:+ pub_ChangeID record +:+ nul +:+ pub_Package record +:+ nul +:+ pub_Version record.

Fixpoint equalStrings (l r : list string) : bool :=
  match l, r with
  | [], [] => true
  | x :: l', y :: r' => bool_decide (x = y) && equalStrings l' r'
  | _, _ => false
  end.

Definition publicationRecordEqual (l r : PublicationRecord) : bool :=
  (pub_SchemaVersion l =? pub_SchemaVersion r) && bool_decide (pub_PlanID l = pub_PlanID r) &&
  bool_decide (pub_ChangeID l = pub_ChangeID r) && bool_decide (pub_Repository l = pub_Repository r) &&
  bool_decide (pub_Package l = pub_Package r) && bool_decide (pub_Version l = pub_Version r) &&
  bool_decide (pub_TreeSHA256 l = pub_TreeSHA256 r) && bool_decide (pub_RecordedAt l = pub_RecordedAt r) &&
  equalStrings (pub_BlobSHA256 l) (pub_BlobSHA256 r).

Definition blobDigests (packageVersion : PackageVersion) : list string :=
  Strings (SHA256 <$> pv_Blobs packageVersion).

(** The loop over [record.BlobSHA256]: valid digests in strictly rising order. *)
Fixpoint validBinding (previous : string) (digests : list string) : bool :=
  match digests with
  | [] => true
  | digest :: rest =>
      ValidSHA256 digest && negb (negb (bool_decide (previous = "")) && str_leb digest previous) &&
      validBinding digest rest
  end.

Definition validatePublicationRecord `{LedgerLib} (record : PublicationRecord) (repository : string) : result () :=
  refuse "unsupported publication ledger schema" when negb (pub_SchemaVersion record =? LedgerSchema);
  refuse "invalid publication ledger record"
    when bool_decide (pub_Repository record = "") ||
         (negb (bool_decide (repository = "")) && negb (bool_decide (pub_Repository record = repository))) ||
         negb (ValidSHA256 (pub_PlanID record)) || negb (ValidSHA256 (pub_TreeSHA256 record)) ||
         negb (bool_decide (pub_ChangeID record = pub_Repository record +:+ ":" +:+ stake 12 (pub_TreeSHA256 record))) ||
         bool_decide (pub_Package record = "") || bool_decide (pub_Version record = "") ||
         bool_decide (pub_BlobSHA256 record = []);
  refuse "invalid publication ledger blob binding" when negb (validBinding "" (pub_BlobSHA256 record));
  refuse "invalid publication ledger timestamp" when bool_decide (ParseRFC3339 (pub_RecordedAt record) = None);
  Ok ().

(** ** Bytes *)

Definition maximumLine : nat := Z.to_nat (4 * 2 ^ 20).
Definition newline : ascii := "010".
Definition dropCR (line : string) : string := TrimSuffix line (String "013" "").

(** [bufio.Scanner] with [ScanLines] and the 4 MiB buffer: each line without its
    newline and one trailing carriage return, and whether the scan ended in
    [ErrTooLong].  A line and its newline must fit the buffer, an unterminated
    last line must leave room in it. *)
Fixpoint scanLines (pieces : list string) : list string * bool :=
  match pieces with
  | [] => ([], false)
  | [last] =>
      if bool_decide (last = "") then ([], false)
      else if (maximumLine <=? String.length last)%nat then ([], true) else ([dropCR last], false)
  | line :: rest =>
      if (maximumLine <=? String.length line)%nat then ([], true)
      else let '(lines, tooLong) := scanLines rest in (dropCR line :: lines, tooLong)
  end.

Fixpoint parseLines `{LedgerLib} (lines : list string) : result (list PublicationRecord) :=
  match lines with
  | [] => Ok []
  | line :: rest =>
      record ← Decode UnmarshalRecord line maximumLine;
      _ ← validatePublicationRecord record "";
      records ← parseLines rest;
      Ok (record :: records)
  end.

Definition parseLedger `{LedgerLib} (content : string) : result (list PublicationRecord) :=
  let '(lines, tooLong) := scanLines (Split newline content) in
  records ← parseLines lines;
  refuse "bufio.Scanner: token too long" when tooLong;
  Ok records.

Fixpoint encodeLedger `{LedgerLib} (records : list PublicationRecord) : result string :=
  match records with
  | [] => Ok ""
  | record :: rest =>
      line ← MarshalRecord record;
      content ← encodeLedger rest;
      Ok (line +:+ String newline content)
  end.

(** ** Validation of a history *)

Fixpoint validateHistory `{LedgerLib} (repository : string) (seen : gset string)
    (records : list PublicationRecord) : result () :=
  match records with
  | [] => Ok ()
  | record :: rest =>
      _ ← validatePublicationRecord record repository;
      refuse "publication ledger contains a duplicate record key"
        when bool_decide (publicationRecordKey record ∈ seen);
      validateHistory repository ({[publicationRecordKey record]} ∪ seen) rest
  end.

Definition ValidatePublicationHistory `{LedgerLib} (repository : string) (records : list PublicationRecord) : result () :=
  validateHistory repository ∅ records.

(** The first loop of [ValidatePublishedBindings]. *)
Fixpoint publishedBindings (bindings : gmap string (list string)) (records : list PublicationRecord)
    : result (gmap string (list string)) :=
  match records with
  | [] => Ok bindings
  | record :: rest =>
      let key := versionIdentity (pub_Package record) (pub_Version record) in
      let digests := Strings (pub_BlobSHA256 record) in
      refuse "publication ledger has conflicting binding"
        when match bindings !! key with
             | Some existing => negb (bool_decide (existing = [])) && negb (equalStrings existing digests)
             | None => false
             end;
      publishedBindings (<[key := digests]> bindings) rest
  end.

(** A nil slice and a missing key read alike: [append(nil, ...)] of no digests is
    nil, so an empty binding is no binding. *)
Definition boundDigests (bindings : gmap string (list string)) (key : string) : option (list string) :=
  match bindings !! key with Some [] | None => None | Some digests => Some digests end.

Fixpoint checkLockBindings (bindings lockBindings : gmap string (list string)) (pvs : list PackageVersion)
    : result (gmap string (list string)) :=
  match pvs with
  | [] => Ok lockBindings
  | pv :: rest =>
      let key := versionIdentity (pv_Package pv) (pv_Version pv) in
      let lockBindings := <[key := blobDigests pv]> lockBindings in
      refuse "published package cannot change bytes"
        when match boundDigests bindings key with
             | Some published => negb (equalStrings published (blobDigests pv))
             | None => false
             end;
      checkLockBindings bindings lockBindings rest
  end.

(** [blobDigests] never returns nil, so only a missing key fails the last loop. *)
Definition ValidatePublishedBindings (lock : RepositoryLock) (records : list PublicationRecord) : result () :=
  bindings ← publishedBindings ∅ records;
  lockBindings ← checkLockBindings bindings ∅ (lock_PackageVersion lock);
  refuse "published package cannot be removed from the lock"
    when negb (bool_decide (map_Forall (λ key _, is_Some (lockBindings !! key)) bindings));
  Ok ().

(** ** Replaying history *)

(** What git answers for the ledger's path: that the log failed, with whether the
    revision names a commit, or for each commit that touched the ledger the
    object's id, empty when it is missing, and its bytes. *)
Inductive LedgerLog :=
| LogFailed (revisionExists : bool)
| LogObjects (objects : list (string * string)).

Fixpoint indexCurrent (current : gmap string PublicationRecord) (records : list PublicationRecord)
    : result (gmap string PublicationRecord) :=
  match records with
  | [] => Ok current
  | record :: rest =>
      refuse "publication ledger contains a duplicate record key"
        when bool_decide (is_Some (current !! publicationRecordKey record));
      indexCurrent (<[publicationRecordKey record := record]> current) rest
  end.

(** The records of one historical ledger, against everything seen so far. *)
Fixpoint replayRecords (historicalKeys : gset string) (records : list PublicationRecord)
    (all : gmap string PublicationRecord) (historical : list PublicationRecord)
    : result (list PublicationRecord * gmap string PublicationRecord) :=
  match historical with
  | [] => Ok (records, all)
  | record :: rest =>
      let key := publicationRecordKey record in
      refuse "publication ledger history contains a duplicate record key"
        when bool_decide (key ∈ historicalKeys);
      match all !! key with
      | Some existing =>
          refuse "publication ledger history changed an immutable record"
            when negb (publicationRecordEqual existing record);
          replayRecords ({[key]} ∪ historicalKeys) records all rest
      | None => replayRecords ({[key]} ∪ historicalKeys) (records ++ [record]) (<[key := record]> all) rest
      end
  end.

Fixpoint replayObjects `{LedgerLib} (replayed : gset string) (records : list PublicationRecord)
    (all : gmap string PublicationRecord) (objects : list (string * string))
    : result (list PublicationRecord * gmap string PublicationRecord) :=
  match objects with
  | [] => Ok (records, all)
  | (id, content) :: rest =>
      refuse "read publication ledger" when bool_decide (id = "");
      if bool_decide (id ∈ replayed) then replayObjects replayed records all rest
      else
        historical ← parseLedger content;
        out ← replayRecords ∅ records all historical;
        replayObjects ({[id]} ∪ replayed) out.1 out.2 rest
  end.

(** [content] is the ledger file, [None] when it does not exist. *)
Definition LoadLedger `{LedgerLib} (content : option string) : result (list PublicationRecord) :=
  match content with Some content => parseLedger content | None => Ok [] end.

Definition loadLedgerHistory `{LedgerLib} (content : option string) (log : LedgerLog)
    : result (list PublicationRecord) :=
  records ← LoadLedger content;
  current ← indexCurrent ∅ records;
  match log with
  | LogFailed false => Ok records
  | LogFailed true => Err "read publication history"
  | LogObjects objects =>
      out ← replayObjects ∅ records current objects;
      refuse "publication ledger removed an immutable record"
        when negb (bool_decide (map_Forall (λ key _, is_Some (current !! key)) out.2));
      Ok out.1
  end.

(** ** Recording a publication *)

Definition lastRecords (records : list PublicationRecord) : gmap string PublicationRecord :=
  foldl (λ seen record, <[publicationRecordKey record := record]> seen) ∅ records.

Definition candidateRecord (repository planID changeID treeSHA recordedAt : string) (pv : PackageVersion)
    : PublicationRecord :=
  mkPublication LedgerSchema planID changeID repository (pv_Package pv) (pv_Version pv) (blobDigests pv)
    treeSHA recordedAt.

Fixpoint appendCandidates (seen : gmap string PublicationRecord) (candidates records : list PublicationRecord)
    : result (list PublicationRecord) :=
  match candidates with
  | [] => Ok records
  | candidate :: rest =>
      match seen !! publicationRecordKey candidate with
      | Some previous =>
          refuse "publication record is not idempotent" when negb (publicationRecordEqual previous candidate);
          appendCandidates seen rest records
      | None => appendCandidates seen rest (records ++ [candidate])
      end
  end.

Definition updatedPublicationRecords (existing : list PublicationRecord)
    (repository planID changeID treeSHA recordedAt : string) (lock : RepositoryLock)
    : result (list PublicationRecord) :=
  appendCandidates (lastRecords existing)
    (candidateRecord repository planID changeID treeSHA recordedAt <$> lock_PackageVersion lock) existing.

Definition expectedPublicationLedger `{LedgerLib} (base : string)
    (repository planID changeID treeSHA recordedAt : string) (lock : RepositoryLock) : result string :=
  baseRecords ← (if bool_decide (base = "") then Ok [] else parseLedger base);
  expected ← updatedPublicationRecords baseRecords repository planID changeID treeSHA recordedAt lock;
  encodeLedger expected.

(** [AppendPublicationRecords]: the ledger file it leaves behind. *)
Definition AppendPublicationRecords `{LedgerLib} (content : option string)
    (repository planID changeID treeSHA recordedAt : string) (lock : RepositoryLock)
    : option string * result () :=
  match
    existing ← LoadLedger content;
    records ← updatedPublicationRecords existing repository planID changeID treeSHA recordedAt lock;
    encodeLedger records
  with
  | Ok written => (Some written, Ok ())
  | Err e => (content, Err e)
  end.

(** [PreparePublicationRecords]: [base] is the ledger at the reviewed revision, empty
    when it is absent there; the result is the ledger file it leaves behind. *)
Definition PreparePublicationRecords `{LedgerLib} (base : string) (content : option string)
    (repository planID changeID treeSHA recordedAt : string) (lock : RepositoryLock)
    : option string * result () :=
  match expectedPublicationLedger base repository planID changeID treeSHA recordedAt lock with
  | Err e => (content, Err e)
  | Ok expected =>
      let actual := default "" content in
      if bool_decide (actual = expected) then (content, Ok ())
      else if negb (bool_decide (actual = base))
      then (content, Err "publication ledger differs from the reviewed base")
      else (Some expected, Ok ())
  end.

Definition comparePublicationLedger (expected actual : string) : result () :=
  refuse "committed publication ledger does not match plan" when negb (bool_decide (expected = actual));
  Ok ().

Definition ValidateCommittedPublicationLedger `{LedgerLib} (base committed : string)
    (repository planID changeID treeSHA recordedAt : string) (lock : RepositoryLock) : result () :=
  expected ← expectedPublicationLedger base repository planID changeID treeSHA recordedAt lock;
  comparePublicationLedger expected committed.
