(* ===== verification/LedgerProofs.v ===== *)
(** The ledger is append-only, its update is idempotent, and it reads back what it
    wrote. *)

From S2P Require Import Prelude GoStrings GoSlices Model Formats Source Lock LockInvariant JsonStrict Ledger.

Open Scope Z_scope.

Lemma equalStrings_spec l r : equalStrings l r = true ↔ l = r.
Proof.
  revert r; induction l as [|x l IH]; intros [|y r]; simpl; try done.
  rewrite andb_true_iff, bool_decide_eq_true, IH. split; [by intros [-> ->]|by intros [= -> ->]].
Qed.

Lemma publicationRecordEqual_spec l r : publicationRecordEqual l r = true ↔ l = r.
Proof.
  unfold publicationRecordEqual. rewrite !andb_true_iff, Z.eqb_eq, !bool_decide_eq_true, equalStrings_spec.
  destruct l, r; simpl. split.
  - by intros [[[[[[[[-> ->] ->] ->] ->] ->] ->] ->] ->].
  - by intros [= -> -> -> -> -> -> -> -> ->].
Qed.

(** ** History *)

Lemma indexCurrent_spec current records out :
  indexCurrent current records = Ok out →
  current ⊆ out ∧
  (∀ key record, out !! key = Some record → current !! key = Some record ∨
     (record ∈ records ∧ publicationRecordKey record = key)).
Proof.
  revert current; induction records as [|r records IH]; intros current; simpl.
  { intros [= <-]. split; [done|]. by left. }
  case_bool_decide as Hs; [done|]. intros [Hsub Hout]%IH.
  apply eq_None_not_Some in Hs. split; [etrans; [by apply insert_subseteq|done]|].
  intros key record [H|[Hin Hk]]%Hout; [|by right; split; [apply list_elem_of_further|]].
  apply lookup_insert_Some in H as [[<- <-]|[_ ?]]; [|by left].
  right. split; [apply list_elem_of_here|done].
Qed.

Lemma replayRecords_spec keys records all historical records' all' :
  replayRecords keys records all historical = Ok (records', all') →
  all ⊆ all' ∧
  (∀ r, r ∈ historical → all' !! publicationRecordKey r = Some r) ∧
  ∃ added, records' = records ++ added ∧
    Forall (λ r, all !! publicationRecordKey r = None ∧ is_Some (all' !! publicationRecordKey r)) added.
Proof.
  revert keys records all; induction historical as [|h historical IH]; intros keys records all; simpl.
  { intros [= <- <-]. split; [done|]. split; [by intros r ?%elem_of_nil|].
    exists []. by rewrite (right_id_L [] (++)). }
  case_bool_decide; [done|]. destruct (all !! publicationRecordKey h) as [existing|] eqn:Ea.
  - destruct (publicationRecordEqual existing h) eqn:Ee; simpl; [|done].
    apply publicationRecordEqual_spec in Ee as ->. intros (Hsub & Hin & Hadd)%IH.
    split; [done|]. split; [|done]. intros r [->|Hr]%elem_of_cons; [|by apply Hin].
    by eapply lookup_weaken.
  - intros (Hsub & Hin & added & -> & Hadd)%IH.
    pose proof (insert_subseteq all (publicationRecordKey h) h Ea) as Hs.
    assert (all' !! publicationRecordKey h = Some h) as Hh.
    { eapply lookup_weaken; [|done]. apply lookup_insert_eq. }
    split; [by etrans|]. split.
    + intros r [->|Hr]%elem_of_cons; [done|by apply Hin].
    + exists (h :: added). rewrite <- app_assoc. split; [done|]. constructor; [by rewrite Hh|].
      eapply Forall_impl; [exact Hadd|]. intros r [Hr ?]. split; [|done].
      by apply lookup_insert_None in Hr as [? _].
Qed.

Section history.
Context `{LedgerLib}.

Lemma replayObjects_spec replayed records all objects records' all' :
  replayObjects replayed records all objects = Ok (records', all') →
  all ⊆ all' ∧
  (∀ id content, (id, content) ∈ objects → id ∉ replayed →
     ∃ content' historical, (id, content') ∈ objects ∧ parseLedger content' = Ok historical ∧
       ∀ r, r ∈ historical → all' !! publicationRecordKey r = Some r) ∧
  ∃ added, records' = records ++ added ∧
    Forall (λ r, all !! publicationRecordKey r = None ∧ is_Some (all' !! publicationRecordKey r)) added.
Proof.
  revert replayed records all; induction objects as [|[id content] objects IH]; intros replayed records all; simpl.
  { intros [= <- <-]. split; [done|]. split; [by intros ?? ?%elem_of_nil|].
    exists []. by rewrite (right_id_L [] (++)). }
  case_bool_decide; [done|]. case_bool_decide as Hrep.
  - intros (Hsub & Hin & Hadd)%IH. split; [done|]. split; [|done].
    intros id' c' [[= -> ->]|Hc]%elem_of_cons Hn; [done|].
    destruct (Hin id' c' Hc Hn) as (c'' & h & ? & ? & ?). exists c'', h.
    split; [by apply list_elem_of_further|done].
  - destruct (parseLedger content) as [historical|] eqn:Ep; simpl; [|done].
    destruct (replayRecords ∅ records all historical) as [[records1 all1]|] eqn:Er; simpl; [|done].
    apply replayRecords_spec in Er as (Hsub1 & Hin1 & added1 & -> & Hadd1).
    intros (Hsub2 & Hin2 & added2 & -> & Hadd2)%IH. split; [by etrans|]. split.
    + intros id' c' Hc Hn. destruct (decide (id' = id)) as [->|Hne].
      * exists content, historical. split; [apply list_elem_of_here|]. split; [done|].
        intros r Hr. by eapply lookup_weaken; [apply Hin1|].
      * apply elem_of_cons in Hc as [[= -> ->]|Hc]; [done|].
        destruct (Hin2 id' c' Hc) as (c'' & h & ? & ? & ?); [set_solver|].
        exists c'', h. split; [by apply list_elem_of_further|done].
    + exists (added1 ++ added2). rewrite app_assoc. split; [done|]. apply Forall_app. split.
      * eapply Forall_impl; [exact Hadd1|]. intros r [? [x Hx]]. split; [done|].
        exists x. by eapply lookup_weaken.
      * eapply Forall_impl; [exact Hadd2|]. intros r [Hr ?]. split; [|done].
        by eapply lookup_weaken_None.
Qed.

(** C17: Replaying history enforces an append-only ledger: when it succeeds, the
    records returned are exactly those of the ledger in the worktree, and every
    record of every ledger committed on the line of history is one of them,
    unchanged.  Git names each ledger object once per content; records the
    worktree has and no commit has yet are allowed. *)
Theorem ledger_history_append_only content objects out :
  (∀ id c c', (id, c) ∈ objects → (id, c') ∈ objects → c = c') →
  loadLedgerHistory content (LogObjects objects) = Ok out →
  LoadLedger content = Ok out ∧
  ∀ id c, (id, c) ∈ objects → ∃ historical, parseLedger c = Ok historical ∧ ∀ r, r ∈ historical → r ∈ out.
Proof.
  intros Hids. unfold loadLedgerHistory. destruct (LoadLedger content) as [records|]; simpl; [|done].
  destruct (indexCurrent ∅ records) as [current|] eqn:Ei; simpl; [|done].
  destruct (replayObjects ∅ records current objects) as [[records' all]|] eqn:Er; simpl; [|done].
  destruct (bool_decide _) eqn:Eb; simpl; [|done]. intros [= <-]. apply bool_decide_eq_true in Eb.
  apply indexCurrent_spec in Ei as [_ Hcur].
  apply replayObjects_spec in Er as (Hsub & Hin & added & -> & Hadd).
  assert (added = []) as ->.
  { destruct added as [|r added]; [done|]. apply Forall_cons in Hadd as [[Hn [x Hx]] _].
    destruct (Eb _ _ Hx) as [y Hy]. congruence. }
  rewrite (right_id_L [] (++)). split; [done|]. intros id c Hc.
  destruct (Hin id c Hc) as (c' & historical & Hc' & Hp & Hall); [set_solver|].
  rewrite (Hids id c c' Hc Hc'). exists historical. split; [done|]. intros r Hr.
  pose proof (Hall r Hr) as Hr'. destruct (Eb _ _ Hr') as [y Hy].
  assert (y = r) as ->; [by eapply lookup_weaken in Hy; [|exact Hsub]; congruence|].
  destruct (Hcur _ _ Hy) as [?|[? _]]; [|done]. by rewrite lookup_empty in *.
Qed.
End history.

(** ** Update *)

Lemma lastRecords_snoc records r :
  lastRecords (records ++ [r]) = <[publicationRecordKey r := r]> (lastRecords records).
Proof. unfold lastRecords. by rewrite foldl_snoc. Qed.

Lemma lastRecords_elem records key r :
  lastRecords records !! key = Some r → r ∈ records ∧ publicationRecordKey r = key.
Proof.
  induction records as [|x records IH] using rev_ind; [done|].
  rewrite lastRecords_snoc, elem_of_app, lookup_insert_Some, list_elem_of_singleton.
  intros [[<- <-]|[_ [? ?]%IH]]; auto.
Qed.

Lemma lastRecords_app_other records added key :
  key ∉ publicationRecordKey <$> added → lastRecords (records ++ added) !! key = lastRecords records !! key.
Proof.
  induction added as [|x added IH] using rev_ind; [by rewrite (right_id_L [] (++))|].
  rewrite fmap_app, elem_of_app, app_assoc, lastRecords_snoc. intros Hk.
  rewrite lookup_insert_ne; [apply IH; tauto|]. intros E. apply Hk. right. simpl.
  rewrite E. by apply list_elem_of_singleton.
Qed.

Lemma lastRecords_added records added r :
  NoDup (publicationRecordKey <$> added) → r ∈ added →
  lastRecords (records ++ added) !! publicationRecordKey r = Some r.
Proof.
  induction added as [|x added IH] using rev_ind; [by intros _ ?%elem_of_nil|].
  rewrite fmap_app, app_assoc, lastRecords_snoc, elem_of_app, list_elem_of_singleton.
  intros (Hn & Hd & _)%NoDup_app [Hr| ->]; [|apply lookup_insert_eq].
  rewrite lookup_insert_ne; [by apply IH|]. intros E. apply (Hd (publicationRecordKey r)).
  - by apply list_elem_of_fmap_2.
  - simpl. rewrite E. by apply list_elem_of_singleton.
Qed.

(** Which candidates are appended, and that the others are there already. *)
Lemma appendCandidates_spec seen candidates records out :
  appendCandidates seen candidates records = Ok out →
  let new := List.filter (λ c, bool_decide (seen !! publicationRecordKey c = None)) candidates in
  out = records ++ new ∧ ∀ c, c ∈ candidates → c ∈ new ∨ seen !! publicationRecordKey c = Some c.
Proof.
  revert records; induction candidates as [|c candidates IH]; intros records; simpl.
  { intros [= <-]. rewrite (right_id_L [] (++)). split; [done|]. by intros c ?%elem_of_nil. }
  destruct (seen !! publicationRecordKey c) as [previous|] eqn:E.
  - destruct (publicationRecordEqual previous c) eqn:Ee; simpl; [|done].
    apply publicationRecordEqual_spec in Ee as ->. intros [-> Hc]%IH. simpl. split; [done|].
    intros d [->|Hd]%elem_of_cons; [by right|by apply Hc].
  - intros [-> Hc]%IH. simpl. rewrite <- app_assoc. split; [done|].
    intros d [->|Hd]%elem_of_cons; [left; apply list_elem_of_here|].
    destruct (Hc d Hd); [left; by apply list_elem_of_further|by right].
Qed.

Lemma appendCandidates_known seen candidates records :
  (∀ c, c ∈ candidates → seen !! publicationRecordKey c = Some c) →
  appendCandidates seen candidates records = Ok records.
Proof.
  induction candidates as [|c candidates IH]; intros Hc; simpl; [done|].
  rewrite Hc by apply list_elem_of_here. rewrite (proj2 (publicationRecordEqual_spec c c)) by done.
  apply IH. intros d Hd. apply Hc. by apply list_elem_of_further.
Qed.

Lemma candidate_keys repository planID changeID treeSHA recordedAt pvs :
  NoDup (identityOf <$> pvs) →
  NoDup (publicationRecordKey <$> (candidateRecord repository planID changeID treeSHA recordedAt <$> pvs)).
Proof.
  intros Hn. rewrite <- list_fmap_compose. eapply (NoDup_fmap_iff identityOf); [|exact Hn].
  assert (∀ p s t, p +:+ s = p +:+ t → s = t) as Hinj.
  { induction p as [|a p IH]; intros s t; [done|]. rewrite !str_app_cons. intros [= ?]. by apply IH. }
  intros x y _ _. unfold compose, publicationRecordKey, identityOf, versionIdentity; simpl.
  split; [by intros ->|]. intros E. by do 4 apply Hinj in E.
Qed.

Section update.
Context (repository planID changeID treeSHA recordedAt : string) (lock : RepositoryLock).
Let candidates := candidateRecord repository planID changeID treeSHA recordedAt <$> lock_PackageVersion lock.

(** Recording a publication only appends, records every version of the lock
    with its digests, and is idempotent: run again on its own result, as a retried
    apply does, it returns that result. *)
Theorem ledger_update_idempotent existing out :
  NoDup (identityOf <$> lock_PackageVersion lock) →
  updatedPublicationRecords existing repository planID changeID treeSHA recordedAt lock = Ok out →
  (∃ added, out = existing ++ added ∧ added ⊆ candidates) ∧
  (∀ pv, pv ∈ lock_PackageVersion lock →
     candidateRecord repository planID changeID treeSHA recordedAt pv ∈ out) ∧
  updatedPublicationRecords out repository planID changeID treeSHA recordedAt lock = Ok out.
Proof.
  intros Hn. unfold updatedPublicationRecords. fold candidates.
  set (new := List.filter (λ c, bool_decide (lastRecords existing !! publicationRecordKey c = None)) candidates).
  intros [-> Hc]%appendCandidates_spec. fold new in Hc |- *.
  assert (NoDup (publicationRecordKey <$> candidates)) as Hkeys by by apply candidate_keys.
  assert (NoDup (publicationRecordKey <$> new)) as Hnew.
  { unfold new. clear -Hkeys. induction candidates as [|c cs IH]; simpl; [constructor|].
    rewrite fmap_cons, NoDup_cons in Hkeys. destruct Hkeys as [Hc Hkeys]. case_bool_decide; [|by apply IH].
    rewrite fmap_cons. constructor; [|by apply IH].
    intros (d & E & [Hd _]%elem_of_List_filter)%list_elem_of_fmap. apply Hc. rewrite E.
    by apply list_elem_of_fmap_2. }
  assert (new ⊆ candidates) as Hsub by by intros c [? _]%elem_of_List_filter.
  split; [by exists new|]. split.
  - intros pv Hpv. assert (candidateRecord repository planID changeID treeSHA recordedAt pv ∈ candidates) as Hin
      by by apply list_elem_of_fmap_2.
    apply elem_of_app. destruct (Hc _ Hin) as [?|Hs]; [by right|left].
    by apply lastRecords_elem in Hs as [? _].
  - apply appendCandidates_known. intros c Hin. destruct (Hc c Hin) as [?|Hs]; [by apply lastRecords_added|].
    rewrite lastRecords_app_other; [done|].
    intros (d & E & [_ Hd]%elem_of_List_filter)%list_elem_of_fmap. apply bool_decide_eq_true in Hd.
    rewrite <- E in Hd. congruence.
Qed.
End update.

(** ** Round trip *)

(** What the ledger relies on in [encoding/json]: a record's encoding decodes to
    the record, spells an object with distinct keys, and is one line. *)
Class LedgerLaws `{LedgerLib} : Prop := {
  marshal_unmarshal r line : MarshalRecord r = Ok line → UnmarshalRecord line = Ok r;
  marshal_tokens r line :
    MarshalRecord r = Ok line → ∃ v, Tokens line = (tokens v, true) ∧ unique_keys v;
  marshal_line r line :
    MarshalRecord r = Ok line → mem_byte newline line = false ∧ HasSuffix line (String "013" "") = false;
}.

Lemma Split_line line rest :
  mem_byte newline line = false → Split newline (line +:+ String newline rest) = line :: Split newline rest.
Proof.
  induction line as [|c line IH]; [done|]. cbn [mem_byte]. rewrite str_app_cons.
  intros [Hc Hl]%orb_false_iff. cbn [Split]. by rewrite (IH Hl), Hc.
Qed.

Lemma Split_nonempty c s : Split c s ≠ [].
Proof. destruct s; simpl; [done|]. destruct (ascii_eqb _ _); [done|]. by destruct (Split c s). Qed.

Lemma dropCR_id line : HasSuffix line (String "013" "") = false → dropCR line = line.
Proof. unfold dropCR, TrimSuffix. by intros ->. Qed.

Lemma scanLines_cons line rest :
  rest ≠ [] → (String.length line < maximumLine)%nat →
  scanLines (line :: rest) = (dropCR line :: (scanLines rest).1, (scanLines rest).2).
Proof.
  intros Hr Hl. destruct rest as [|x rest]; [done|].
  change (scanLines (line :: x :: rest)) with
    (if (maximumLine <=? String.length line)%nat then ([], true)
     else let '(lines, tooLong) := scanLines (x :: rest) in (dropCR line :: lines, tooLong)).
  rewrite (proj2 (Nat.leb_gt _ _) Hl). by destruct (scanLines (x :: rest)).
Qed.

(** A record whose encoding fits the line limit. *)
Definition fits `{LedgerLib} (r : PublicationRecord) : Prop :=
  ∀ line, MarshalRecord r = Ok line → (String.length line < maximumLine)%nat.

Section roundtrip.
Context `{LedgerLaws}.

Lemma Decode_marshalled r line :
  MarshalRecord r = Ok line → (String.length line < maximumLine)%nat →
  Decode UnmarshalRecord line maximumLine = Ok r.
Proof.
  intros Hm Hl. destruct (marshal_tokens r line Hm) as (v & Ht & Hu).
  unfold Decode, rejectDuplicateKeys. rewrite (proj2 (Nat.ltb_ge _ _)) by lia. rewrite Ht.
  destruct (scan_spec_all v [] (2 * length (tokens v) + 1)%nat) as [[_ E]|[Hn _]]; [lia| |done].
  rewrite (right_id_L [] (++)) in E. rewrite E. simpl. by apply marshal_unmarshal.
Qed.

(** A ledger reads back exactly as written: parsing the encoding of valid
    records whose lines fit the scanner's buffer returns the records. *)
Theorem ledger_roundtrip records content :
  Forall (λ r, validatePublicationRecord r "" = Ok ()) records → Forall fits records →
  encodeLedger records = Ok content → parseLedger content = Ok records.
Proof.
  intros Hv Hf Hc. unfold parseLedger.
  enough ((scanLines (Split newline content)).2 = false ∧
          parseLines (scanLines (Split newline content)).1 = Ok records) as [Ht Hp].
  { destruct (scanLines _) as [lines tooLong]. simpl in *. subst. by rewrite Hp. }
  revert content Hc. induction records as [|r records IH]; intros content; simpl.
  { intros [= <-]. done. }
  apply Forall_cons in Hv as [Hr Hv], Hf as [Hfr Hf].
  destruct (MarshalRecord r) as [line|] eqn:Em; simpl; [|done].
  destruct (encodeLedger records) as [rest|] eqn:Ee; simpl; [|done]. intros [= <-].
  destruct (marshal_line r line Em) as [Hnl Hcr]. destruct (IH Hv Hf rest eq_refl) as [Ht Hp].
  rewrite Split_line, scanLines_cons by (done || apply Split_nonempty || by apply Hfr).
  simpl. rewrite dropCR_id by done. rewrite (Decode_marshalled r) by (done || by apply Hfr).
  simpl. by rewrite Hr, Hp.
Qed.
End roundtrip.

(** ** Publishing *)

(** Preparing the ledger for a plan is safe to retry and to check: it writes
    only over the reviewed base, what it leaves is what the committed-ledger check
    accepts, and preparing again changes nothing. *)
Theorem prepare_ledger_retry `{LedgerLib} base content repository planID changeID treeSHA recordedAt lock content' :
  PreparePublicationRecords base content repository planID changeID treeSHA recordedAt lock = (content', Ok ()) →
  ValidateCommittedPublicationLedger base (default "" content') repository planID changeID treeSHA recordedAt lock = Ok () ∧
  PreparePublicationRecords base content' repository planID changeID treeSHA recordedAt lock = (content', Ok ()) ∧
  (content' ≠ content → default "" content = base).
Proof.
  unfold PreparePublicationRecords, ValidateCommittedPublicationLedger, comparePublicationLedger.
  destruct (expectedPublicationLedger _ _ _ _ _ _ _) as [expected|]; simpl; [|done].
  case_bool_decide as E1.
  - intros [= <-]. rewrite (bool_decide_eq_true_2 _ E1). rewrite bool_decide_eq_true_2 by done. done.
  - case_bool_decide as E2; simpl; [|done]. intros [= <-]. simpl.
    rewrite !bool_decide_eq_true_2 by done. done.
Qed.

(** ** Bindings *)

Lemma publishedBindings_spec bindings records out :
  publishedBindings bindings records = Ok out →
  (∀ key d, bindings !! key = Some d → d ≠ [] → out !! key = Some d) ∧
  ∀ r, r ∈ records → pub_BlobSHA256 r ≠ [] →
    out !! versionIdentity (pub_Package r) (pub_Version r) = Some (Strings (pub_BlobSHA256 r)).
Proof.
  revert bindings; induction records as [|r records IH]; intros bindings; simpl.
  { intros [= <-]. split; [done|]. by intros r ?%elem_of_nil. }
  set (key := versionIdentity _ _).
  destruct (match bindings !! key with Some _ => _ | None => _ end) eqn:Ec; [done|].
  intros [Hkeep Hr]%IH. split.
  - intros k d Hk Hd. destruct (decide (k = key)) as [->|Hne].
    + rewrite Hk in Ec. rewrite bool_decide_eq_false_2 in Ec by done.
      apply negb_false_iff, equalStrings_spec in Ec as ->.
      apply Hkeep; [by rewrite lookup_insert_eq|done].
    + apply Hkeep; [by rewrite lookup_insert_ne|done].
  - intros r' [->|Hin]%elem_of_cons Hd; [|by apply Hr].
    apply Hkeep; [by rewrite lookup_insert_eq|].
    intros E. apply Hd. pose proof (Strings_perm (pub_BlobSHA256 r)) as Hp. rewrite E in Hp.
    by apply Permutation_nil_l in Hp.
Qed.

Lemma checkLockBindings_spec bindings lockBindings pvs out :
  checkLockBindings bindings lockBindings pvs = Ok out →
  (∀ key, is_Some (out !! key) → is_Some (lockBindings !! key) ∨ ∃ pv, pv ∈ pvs ∧ identityOf pv = key) ∧
  ∀ pv digests, pv ∈ pvs → boundDigests bindings (identityOf pv) = Some digests → blobDigests pv = digests.
Proof.
  revert lockBindings; induction pvs as [|pv pvs IH]; intros lockBindings; simpl.
  { intros [= <-]. split; [by left|]. by intros pv d ?%elem_of_nil. }
  change (versionIdentity (pv_Package pv) (pv_Version pv)) with (identityOf pv).
  destruct (match boundDigests bindings (identityOf pv) with Some _ => _ | None => _ end) eqn:Ec; [done|].
  intros [Hkeys Hpv]%IH. split.
  - intros key Hk. destruct (Hkeys key Hk) as [Hl|(q & Hq & Eq)].
    + destruct (decide (key = identityOf pv)) as [->|Hne].
      * right. exists pv. split; [apply list_elem_of_here|done].
      * left. by rewrite lookup_insert_ne in Hl.
    + right. exists q. split; [by apply list_elem_of_further|done].
  - intros q d [->|Hq]%elem_of_cons Hd; [|by eapply Hpv].
    rewrite Hd in Ec. by apply negb_false_iff, equalStrings_spec in Ec.
Qed.

(** A lock that passes the binding check still carries every publication: for
    each published record the lock records that package version, with exactly the
    digests that were published, so published bytes can be neither changed nor
    dropped. *)
Theorem published_bindings_kept lock records r :
  lock_nul_free lock → nul_free (pub_Package r) = true →
  ValidatePublishedBindings lock records = Ok () → r ∈ records → pub_BlobSHA256 r ≠ [] →
  ∃ pv, pv ∈ lock_PackageVersion lock ∧ version_key pv = (pub_Package r, pub_Version r) ∧
    blobDigests pv = Strings (pub_BlobSHA256 r).
Proof.
  intros [Hnul _] Hr. unfold ValidatePublishedBindings.
  destruct (publishedBindings ∅ records) as [bindings|] eqn:Eb; simpl; [|done].
  destruct (checkLockBindings bindings ∅ (lock_PackageVersion lock)) as [lockBindings|] eqn:El; simpl; [|done].
  destruct (bool_decide _) eqn:Ed; simpl; [|done]. intros _ Hin Hne. apply bool_decide_eq_true in Ed.
  apply publishedBindings_spec in Eb as [_ Hb]. apply checkLockBindings_spec in El as [Hk Hpv].
  specialize (Hb r Hin Hne). set (key := versionIdentity _ _) in Hb.
  destruct (Hk key (Ed _ _ Hb)) as [Hl|(pv & Hin' & E)].
  { rewrite lookup_empty in Hl. by destruct Hl. }
  exists pv. split; [done|]. rewrite Forall_forall in Hnul. split.
  - apply versionIdentity_inj; [by apply Hnul|done|exact E].
  - apply Hpv; [done|]. rewrite E. unfold boundDigests. rewrite Hb.
    destruct (Strings (pub_BlobSHA256 r)) eqn:Es; [|done]. exfalso. apply Hne.
    pose proof (Strings_perm (pub_BlobSHA256 r)) as Hp. rewrite Es in Hp. by apply Permutation_nil_l in Hp.
Qed.

(** A binding that passes is strictly rising, so no digest repeats. *)
Lemma validBinding_rising previous digests :
  previous ≠ "" → validBinding previous digests = true →
  Forall (λ d, str_cmp previous d = Lt) digests ∧ NoDup digests.
Proof.
  revert previous; induction digests as [|d l IH]; intros previous Hp; simpl; [by split; constructor|].
  rewrite bool_decide_eq_false_2 by done. simpl. intros Hv. split_bools.
  assert (d ≠ "") as Hd by (intros ->; done). destruct (IH d Hd) as [Hl Hn]; [done|].
  assert (str_cmp previous d = Lt) as Hlt.
  { unfold str_leb in *. apply (cmp_lt_gt str_cmp). by destruct (str_cmp d previous). }
  split.
  - constructor; [done|]. eapply Forall_impl; [exact Hl|]. intros z Hz.
    eapply (cmp_lt_le_trans str_cmp); [done|by rewrite Hz].
  - constructor; [|done]. intros Hin. rewrite Forall_forall in Hl. specialize (Hl d Hin).
    by rewrite str_cmp_refl in Hl.
Qed.

Lemma validBinding_NoDup digests : validBinding "" digests = true → NoDup digests.
Proof.
  destruct digests as [|d l]; [constructor|]. simpl. intros Hv. split_bools.
  assert (d ≠ "") as Hd by (intros ->; done). destruct (validBinding_rising d l Hd) as [Hl Hn]; [done|].
  constructor; [|done]. intros Hin. rewrite Forall_forall in Hl. specialize (Hl d Hin).
  by rewrite str_cmp_refl in Hl.
Qed.

(** Two artifacts of one version with the same bytes make a ledger record the
    program itself refuses: whatever else holds of the record, its digest list
    repeats and every later load of the ledger fails. *)
Theorem duplicate_digest_record_refused `{LedgerLib} repository planID changeID treeSHA recordedAt pv x y pvs1 pvs2 pvs3 :
  pv_Blobs pv = pvs1 ++ x :: pvs2 ++ y :: pvs3 → SHA256 x = SHA256 y →
  ∃ e, validatePublicationRecord (candidateRecord repository planID changeID treeSHA recordedAt pv) "" = Err e.
Proof.
  intros Hb E.
  assert (validBinding "" (blobDigests pv) = false) as Hv.
  { apply not_true_iff_false. intros Hn%validBinding_NoDup.
    unfold blobDigests in Hn. rewrite Strings_perm, Hb, fmap_app, fmap_cons, fmap_app, fmap_cons in Hn.
    apply NoDup_app in Hn as (_ & _ & Hn). apply NoDup_cons in Hn as [Hx _]. apply Hx.
    rewrite E, elem_of_app. right. apply list_elem_of_here. }
  unfold validatePublicationRecord. cbn [candidateRecord pub_BlobSHA256]. rewrite Hv.
  destruct (negb _); [by eexists|]. destruct (_ || _); by eexists.
Qed.

(** ** A concrete codec *)

(** Records are spelled by their package and version alone, enough to tell the
    records of one plan apart. *)
Module LedgerExample.
Definition digestA : string := "aaaaaaaaaaaaaaaaaaaaaaaaaaaaaaaaaaaaaaaaaaaaaaaaaaaaaaaaaaaaaaaa".
Definition digestB : string := "bbbbbbbbbbbbbbbbbbbbbbbbbbbbbbbbbbbbbbbbbbbbbbbbbbbbbbbbbbbbbbbb".
Definition record1 : PublicationRecord :=
  mkPublication LedgerSchema digestA "apt:bbbbbbbbbbbb" "apt" "tool" "1.0" [digestA] digestB "2024-01-01T00:00:00Z".
Definition record2 : PublicationRecord :=
  mkPublication LedgerSchema digestA "apt:bbbbbbbbbbbb" "apt" "tool" "1.1" [digestA; digestB] digestB "2024-01-01T00:00:00Z".

#[local] Instance json_lib : JsonLib := {| Tokens s := ([TString s], true) |}.
#[local] Instance time_lib : TimeLib := {|
  ParseRFC3339 s := if bool_decide (s = "2024-01-01T00:00:00Z") then Some (1704067200 * Second) else None |}.
#[local] Instance lib : LedgerLib := {|
  MarshalRecord r := if bool_decide (r = record1) then Ok "one" else if bool_decide (r = record2) then Ok "two"
                     else Err "unknown record";
  UnmarshalRecord s := if bool_decide (s = "one") then Ok record1 else if bool_decide (s = "two") then Ok record2
                       else Err "unknown record" |}.


Lemma marshal_cases r line :
  MarshalRecord r = Ok line → (r = record1 ∧ line = "one") ∨ (r = record2 ∧ line = "two").
Proof. simpl. do 2 (case_bool_decide; [intros [= <-]; auto|]). done. Qed.

#[local] Instance laws : LedgerLaws.
Proof.
  split; intros r line [[-> ->]|[-> ->]]%marshal_cases; try (vm_compute; by auto).
  - exists (JString "one"). split; [done|constructor].
  - exists (JString "two"). split; [done|constructor].
Qed.

Definition ledger : string := "one" +:+ String newline ("two" +:+ String newline "").
Definition older : string := "one" +:+ String newline "".

Lemma ledger_roundtrip_witness : parseLedger ledger = Ok [record1; record2].
Proof.
  apply ledger_roundtrip; [| |vm_compute; reflexivity].
  - repeat apply List.Forall_cons; [vm_compute; reflexivity..|constructor].
  - repeat apply List.Forall_cons; [..|constructor];
      intros line [[_ ->]|[_ ->]]%marshal_cases; apply Nat.ltb_lt; vm_compute; reflexivity.
Defined.

Lemma ledger_history_append_only_witness :
  LoadLedger (Some ledger) = Ok [record1; record2] ∧
  ∀ id c, (id, c) ∈ [("i1", older); ("i2", ledger)] →
    ∃ historical, parseLedger c = Ok historical ∧ ∀ r, r ∈ historical → r ∈ [record1; record2].
Proof.
  apply ledger_history_append_only; [|vm_compute; reflexivity].
  intros id c c'. rewrite !elem_of_cons, !elem_of_nil.
  intros [E|[E|[]]] [E'|[E'|[]]]; simplify_eq; reflexivity.
Defined.

Definition blob (f d : string) : LockedBlob := mkBlob f "" 1 "" "" d "" None.
Definition lock : RepositoryLock :=
  mkLock LockSchema "apt"
    [mkPackageVersion "tool" "1.0" "draft" [blob "a" digestA];
     mkPackageVersion "tool" "1.1" "draft" [blob "c" digestB; blob "b" digestA]] [].

Lemma ledger_update_idempotent_witness :
  (∃ added, [record1; record2] = [record1] ++ added ∧
     added ⊆ candidateRecord "apt" digestA "apt:bbbbbbbbbbbb" digestB "2024-01-01T00:00:00Z" <$> lock_PackageVersion lock) ∧
  (∀ pv, pv ∈ lock_PackageVersion lock →
     candidateRecord "apt" digestA "apt:bbbbbbbbbbbb" digestB "2024-01-01T00:00:00Z" pv ∈ [record1; record2]) ∧
  updatedPublicationRecords [record1; record2] "apt" digestA "apt:bbbbbbbbbbbb" digestB "2024-01-01T00:00:00Z" lock =
    Ok [record1; record2].
Proof.
  apply ledger_update_idempotent; [|vm_compute; reflexivity].
  apply (bool_decide_unpack _). vm_compute. exact I.
Defined.

Lemma prepare_ledger_retry_witness :
  ValidateCommittedPublicationLedger older ledger "apt" digestA "apt:bbbbbbbbbbbb" digestB "2024-01-01T00:00:00Z" lock = Ok () ∧
  PreparePublicationRecords older (Some ledger) "apt" digestA "apt:bbbbbbbbbbbb" digestB "2024-01-01T00:00:00Z" lock =
    (Some ledger, Ok ()) ∧
  (Some ledger ≠ Some older → older = older).
Proof.
  apply (prepare_ledger_retry older (Some older) "apt" digestA "apt:bbbbbbbbbbbb" digestB
    "2024-01-01T00:00:00Z" lock (Some ledger)).
  vm_compute. reflexivity.
Defined.

Lemma published_bindings_kept_witness :
  ∃ pv, pv ∈ lock_PackageVersion lock ∧ version_key pv = ("tool", "1.1") ∧
    blobDigests pv = Strings [digestA; digestB].
Proof.
  apply (published_bindings_kept lock [record1; record2] record2); [|reflexivity|vm_compute; reflexivity| |discriminate].
  - split; apply (bool_decide_unpack _); vm_compute; exact I.
  - apply (bool_decide_unpack _). vm_compute. exact I.
Defined.

(** A lock of a raw repository that validates, whose publication does not. *)
Definition twins : PackageVersion := mkPackageVersion "tool" "1.0" "draft" [blob "tool" digestA; blob "tool-latest" digestA].

Lemma duplicate_digest_record_refused_witness :
  (∃ e, validatePublicationRecord (candidateRecord "files" digestA "files:bbbbbbbbbbbb" digestB "2024-01-01T00:00:00Z" twins) "" = Err e) ∧
  ∀ net : NetLib, ValidateLock (mkLock LockSchema "files" [twins] []) "files" "raw" = Ok ().
Proof.
  split; [|intros net; vm_compute; reflexivity].
  apply (duplicate_digest_record_refused _ _ _ _ _ twins (blob "tool" digestA) (blob "tool-latest" digestA) [] [] []);
    reflexivity.
Defined.
End LedgerExample.
