(* ===== verification/PlanJson.v ===== *)
(** Plans and their identity: [internal/state/plan.go].

    A plan's ID is the SHA-256 of its payload in canonical JSON.  Parameters: the
    hash, the JSON string encoder, the tree [encoding/json] makes of a payload and
    the typed decoder ([PlanLib]).  The canonical writer is the program's own.

    [canon] sorts the fields of every object of a tree: the canonical text
    determines it and is determined by it ([write_canonical_exact]), so a plan ID
    binds the payload up to the order of object fields, short of a collision of
    the hash ([plan_id_binds_payload]). *)

From S2P Require Import Prelude GoStrings GoSlices Model JsonStrict.

Class HashLib := { SHA256Hex : string → string }.

Class PlanLib `{JsonLib} := {
  PlanPayload : Type;
  (** [json.NewEncoder] with HTML escaping off, on a string. *)
  EncodeString : string → string;
  (** [json.Marshal] followed by decoding with [UseNumber]. *)
  PayloadTree : PlanPayload → result json;
  UnmarshalPlan : string → result (Z * string * PlanPayload);
}.

Record Plan `{PlanLib} := mkPlan {
  plan_SchemaVersion : Z;
  plan_PlanID : string;
  plan_Payload : PlanPayload;
}.

Definition sortFields {A} (fields : list (string * A)) : list (string * A) :=
  sort_slice (λ l r, str_ltb l.1 r.1) fields.

Section writer.
Context `{PlanLib}.

Definition quoteJSON (s : string) : string := TrimSuffix (EncodeString s) (String "010" "").

Fixpoint writeCanonicalJSON (value : json) : string :=
  match value with
  | JAtom literal => literal
  | JString s => quoteJSON s
  | JArray items => "[" +:+ Join (map writeCanonicalJSON items) "," +:+ "]"
  | JObject fields =>
      let written := map (λ f, (f.1, writeCanonicalJSON f.2)) fields in
      "{" +:+ Join (map (λ f, quoteJSON f.1 +:+ ":" +:+ f.2) (sortFields written)) "," +:+ "}"
  end.

Definition canonicalJSON (payload : PlanPayload) : result string :=
  generic ← PayloadTree payload;
  Ok (writeCanonicalJSON generic).

Definition FinalizePlan `{HashLib} (payload : PlanPayload) : result Plan :=
  encoded ← canonicalJSON payload;
  Ok (mkPlan _ _ PlanSchema (SHA256Hex encoded) payload).

Definition maximumPlan : nat := Z.to_nat (16 * 2 ^ 20).

Definition LoadPlan `{HashLib} (content : string) : result Plan :=
  decoded ← Decode UnmarshalPlan content maximumPlan;
  let plan := mkPlan _ _ decoded.1.1 decoded.1.2 decoded.2 in
  refuse "unsupported plan schema" when negb (plan_SchemaVersion plan =? PlanSchema)%Z;
  expected ← FinalizePlan (plan_Payload plan);
  refuse "plan ID does not match its payload"
    when negb (bool_decide (plan_PlanID expected = plan_PlanID plan));
  Ok plan.
End writer.

(** ** Canonical trees *)

Fixpoint canon (v : json) : json :=
  match v with
  | JAtom l => JAtom l
  | JString s => JString s
  | JArray items => JArray (map canon items)
  | JObject fields => JObject (sortFields (map (λ f, (f.1, canon f.2)) fields))
  end.

Definition is_atom_byte (c : ascii) : bool := is_digit c || is_letter c || mem_byte c "+-.".

(** What the writer relies on in [encoding/json]: the encoder writes a quoted
    string and a newline, and the quoted forms of valid text are self-delimiting. *)
Class PlanLaws `{PlanLib} (text : string → Prop) (quoted : string → string) : Prop := {
  encode_line s : EncodeString s = quoted s +:+ String "010" "";
  quote_open s : ∃ q, quoted s = String "034" q;
  quote_prefix s t u v : text s → text t → quoted s +:+ u = quoted t +:+ v → s = t ∧ u = v;
}.

(** The trees the decoder makes: literals of the JSON alphabet, valid text. *)
Inductive decoded (text : string → Prop) : json → Prop :=
| decoded_atom l : l ≠ "" → all_bytes is_atom_byte l = true → decoded text (JAtom l)
| decoded_string s : text s → decoded text (JString s)
| decoded_array items : Forall (decoded text) items → decoded text (JArray items)
| decoded_object fields :
    NoDup (fields.*1) → Forall (λ f, text f.1 ∧ decoded text f.2) fields → decoded text (JObject fields).

(** ** Lemmas on sorting fields and joining *)

Lemma sort_slice_fmap {A B} (less : A → A → bool) (less' : B → B → bool) (f : A → B) l :
  (∀ x y, less' (f x) (f y) = less x y) → sort_slice less' (map f l) = map f (sort_slice less l).
Proof.
  intros Hf. induction l as [|x l IH]; simpl; [done|]. rewrite IH. clear IH.
  induction (sort_slice less l) as [|y k IH]; simpl; [done|]. rewrite Hf.
  destruct (less y x); simpl; [by rewrite IH|done].
Qed.

Lemma sortFields_fmap {A B} (f : A → B) (fields : list (string * A)) :
  sortFields (map (λ p, (p.1, f p.2)) fields) = map (λ p, (p.1, f p.2)) (sortFields fields).
Proof. by apply (sort_slice_fmap (λ l r : string * A, str_ltb l.1 r.1)). Qed.

Lemma sortFields_perm {A} (fields : list (string * A)) : sortFields fields ≡ₚ fields.
Proof. apply sort_slice_perm. Qed.

Lemma sortFields_idemp {A} (fields : list (string * A)) : sortFields (sortFields fields) = sortFields fields.
Proof.
  apply (sort_slice_idemp (λ l r : string * A, str_ltb l.1 r.1) (λ x y, str_cmp x.1 y.1)).
  intros x y. apply str_ltb_spec.
Qed.

(** The elements after the first, each behind its comma. *)
Fixpoint commas (l : list string) : string :=
  match l with [] => "" | s :: l => String "," (s +:+ commas l) end.

Lemma Join_commas s l : Join (s :: l) "," = s +:+ commas l.
Proof.
  revert s; induction l as [|t l IH]; intros s; [by rewrite str_app_nil_r|].
  change (Join (s :: t :: l) ",") with (s +:+ "," +:+ Join (t :: l) ","). by rewrite IH.
Qed.

(** ** The canonical text determines the tree *)

(** The text that may follow a value: nothing, or a byte that ends it. *)
Definition stops (r : string) : Prop :=
  r = "" ∨ ∃ c t, r = String c t ∧ (c = "," ∨ c = "]" ∨ c = "}")%char.

Lemma atom_span l l' r r' :
  all_bytes is_atom_byte l = true → all_bytes is_atom_byte l' = true → stops r → stops r' →
  l +:+ r = l' +:+ r' → l = l' ∧ r = r'.
Proof.
  assert (∀ c t u x, stops (String x u) → is_atom_byte c = true → String x u = String c t → False) as Hclash.
  { intros c t u x [|(c' & t' & [= <- <-] & Hc)] Ha [= -> ->]; [done|].
    destruct Hc as [->|[->| ->]]; done. }
  revert l'; induction l as [|c l IH]; intros [|c' l']; rewrite ?str_app_cons; simpl; intros Hl Hl' Hr Hr' E.
  - done.
  - exfalso. apply andb_true_iff in Hl' as [Hc _]. destruct r as [|x u]; [done|]. by eapply Hclash.
  - exfalso. apply andb_true_iff in Hl as [Hc _]. destruct r' as [|x u]; [done|]. by eapply Hclash.
  - apply andb_true_iff in Hl as [_ Hl], Hl' as [_ Hl']. injection E as -> E.
    destruct (IH l' Hl Hl' Hr Hr' E) as [-> ->]. done.
Qed.

Section injective.
Context `{PlanLib} (text : string → Prop) (quoted : string → string) `{!PlanLaws text quoted}.

Lemma quoteJSON_quoted s : quoteJSON s = quoted s.
Proof. unfold quoteJSON. rewrite encode_line. apply TrimSuffix_app. Qed.

(** The first byte of a written value is not a closing bracket or a comma. *)
Lemma write_head v : decoded text v →
  ∃ c t, writeCanonicalJSON v = String c t ∧ c ≠ "]"%char ∧ c ≠ "}"%char ∧ c ≠ ","%char.
Proof.
  destruct 1 as [l Hl Ha|s Hs|items Hi|fields Hn Hf]; simpl.
  - destruct l as [|c t]; [done|]. exists c, t. split; [done|].
    simpl in Ha. apply andb_true_iff in Ha as [Ha _]. repeat split; intros ->; done.
  - rewrite quoteJSON_quoted. destruct (quote_open s) as [q ->]. by exists "034"%char, q.
  - by eexists _, _.
  - by eexists _, _.
Qed.

(** What the induction proves of one value. *)
Definition injects (v : json) : Prop :=
  decoded text v → ∀ w r r', decoded text w → stops r → stops r' →
    writeCanonicalJSON v +:+ r = writeCanonicalJSON w +:+ r' → canon v = canon w ∧ r = r'.

(** Lists of printed elements behind commas, up to the closing byte. *)
Lemma commas_inj {A B} (print : A → string) (norm : A → B) (close : ascii) l k r r' :
  (close = "]" ∨ close = "}")%char →
  Forall (λ x, ∀ y t t', y ∈ k → stops t → stops t' → print x +:+ t = print y +:+ t' → norm x = norm y ∧ t = t') l →
  commas (map print l) +:+ String close r = commas (map print k) +:+ String close r' →
  map norm l = map norm k ∧ r = r'.
Proof.
  intros Hclose. assert (∀ m t, stops (commas (map print m) +:+ String close t)) as Hstop.
  { intros [|x m] t; right; simpl; eexists _, _; (split; [reflexivity|]); [by right|by left]. }
  revert k; induction l as [|x l IH]; intros [|y k] Hl; simpl.
  - intros [= ->]. done.
  - intros [= E _]. exfalso. by destruct Hclose; subst.
  - intros [= E _]. exfalso. by destruct Hclose; subst.
  - apply Forall_cons in Hl as [Hx Hl]. rewrite !str_app_cons, !str_app_assoc. intros E.
    injection E as E. destruct (Hx y _ _ (list_elem_of_here _ _) (Hstop _ _) (Hstop _ _) E) as [-> E'].
    destruct (IH k) as [-> ->]; [|done..].
    eapply Forall_impl; [exact Hl|]. intros z Hz w t t' Hw. apply Hz. by apply list_elem_of_further.
Qed.

(** The same for a whole bracketed list. *)
Lemma bracket_inj {A B} (print : A → string) (norm : A → B) (close : ascii) l k r r' :
  (close = "]" ∨ close = "}")%char →
  (∀ x, x ∈ l ∨ x ∈ k → ∃ c t, print x = String c t ∧ c ≠ close) →
  Forall (λ x, ∀ y t t', y ∈ k → stops t → stops t' → print x +:+ t = print y +:+ t' → norm x = norm y ∧ t = t') l →
  Join (map print l) "," +:+ String close r = Join (map print k) "," +:+ String close r' →
  map norm l = map norm k ∧ r = r'.
Proof.
  intros Hclose Hhead Hl. destruct l as [|x l], k as [|y k]; cbn [map].
  - intros [= ->]. done.
  - rewrite Join_commas. destruct (Hhead y) as (c & t & -> & Hc); [right; apply list_elem_of_here|].
    intros [= E _]. by subst.
  - rewrite Join_commas. destruct (Hhead x) as (c & t & -> & Hc); [left; apply list_elem_of_here|].
    intros [= E _]. by subst.
  - rewrite !Join_commas, !str_app_assoc. apply Forall_cons in Hl as [Hx Hl]. intros E.
    assert (∀ m t, stops (commas (map print m) +:+ String close t)) as Hstop.
    { intros [|z m] t; right; simpl; eexists _, _; (split; [reflexivity|]); [by right|by left]. }
    destruct (Hx y _ _ (list_elem_of_here _ _) (Hstop _ _) (Hstop _ _) E) as [-> E'].
    destruct (commas_inj print norm close l k r r' Hclose) as [-> ->]; [|done..].
    eapply Forall_impl; [exact Hl|]. intros z Hz w t t' Hw. apply Hz. by apply list_elem_of_further.
Qed.

Definition writeField (f : string * json) : string := quoteJSON f.1 +:+ ":" +:+ writeCanonicalJSON f.2.
Definition canonField (f : string * json) : string * json := (f.1, canon f.2).

Lemma write_object fields :
  writeCanonicalJSON (JObject fields) = "{" +:+ Join (map writeField (sortFields fields)) "," +:+ "}".
Proof. simpl. by rewrite sortFields_fmap, map_map. Qed.

Lemma canon_object fields : canon (JObject fields) = JObject (map canonField (sortFields fields)).
Proof. simpl. by rewrite sortFields_fmap. Qed.

Lemma injects_array items : Forall injects items → injects (JArray items).
Proof.
  intros IH Hd w r r' Hw Hr Hr'. inversion Hd as [| |? Hi|]; subst.
  destruct Hw as [l Hl Ha|s Hs|items' Hi'|fields Hn Hf]; cbn [writeCanonicalJSON]; rewrite ?str_app_cons.
  - destruct l as [|c l]; [done|]. intros [= <- _]. done.
  - rewrite quoteJSON_quoted. destruct (quote_open s) as [q ->]. done.
  - rewrite !str_app_assoc. intros E. injection E as E.
    apply (bracket_inj writeCanonicalJSON canon "]" items items' r r') in E as [E ->]; [|by left| |].
    + split; [|done]. simpl. by rewrite E.
    + rewrite Forall_forall in Hi, Hi'. intros x Hx.
      destruct (write_head x) as (c & t & E' & Hc & _); [destruct Hx; auto|]. by exists c, t.
    + rewrite Forall_forall in IH, Hi, Hi'. apply Forall_forall. intros x Hx y t t' Hy Ht Ht'.
      by apply IH; auto.
  - done.
Qed.

Lemma injects_object fields : Forall (λ f, injects f.2) fields → injects (JObject fields).
Proof.
  intros IH Hd w r r' Hw Hr Hr'. inversion Hd as [| | |? Hn Hf]; subst.
  destruct Hw as [l Hl Ha|s Hs|items' Hi'|fields' Hn' Hf']; rewrite write_object, !str_app_cons.
  - destruct l as [|c l]; [done|]. intros [= <- _]. done.
  - simpl. rewrite quoteJSON_quoted. destruct (quote_open s) as [q ->]. done.
  - done.
  - rewrite write_object, !str_app_cons, !str_app_assoc. intros E. injection E as E.
    rewrite <- (sortFields_perm fields) in IH, Hf. rewrite <- (sortFields_perm fields') in Hf'.
    rewrite Forall_forall in IH. rewrite Forall_forall in Hf. rewrite Forall_forall in Hf'.
    apply (bracket_inj writeField canonField "}" (sortFields fields) (sortFields fields') r r') in E as [E ->];
      [|by right| |].
    + split; [|done]. by rewrite !canon_object, E.
    + intros x _. unfold writeField. rewrite quoteJSON_quoted.
      destruct (quote_open x.1) as [q ->]. by eexists _, _.
    + apply Forall_forall. intros x Hx y t t' Hy Ht Ht'. unfold writeField.
      rewrite !quoteJSON_quoted, !str_app_assoc. destruct (Hf x Hx) as [Tx Dx], (Hf' y Hy) as [Ty Dy].
      intros E'. apply quote_prefix in E' as [Ek E']; [|done..]. rewrite !str_app_cons in E'. injection E' as E'.
      destruct (IH x Hx Dx y.2 t t' Dy Ht Ht' E') as [Ev ->]. split; [|done]. unfold canonField. by rewrite Ek, Ev.
Qed.

Lemma injects_all v : injects v.
Proof.
  induction v as [l|s|items IH|fields IH] using json_nested_ind;
    [| |by apply injects_array|by apply injects_object]; intros Hd w r r' Hw Hr Hr'.
  - inversion Hd as [? Hl Ha| | |]; subst.
    destruct Hw as [l' Hl' Ha'|s Hs|items' Hi'|fields' Hn' Hf']; cbn [writeCanonicalJSON].
    + intros E. destruct (atom_span l l' r r' Ha Ha' Hr Hr' E) as [-> ->]. done.
    + rewrite quoteJSON_quoted. destruct (quote_open s) as [q ->]. destruct l as [|c l]; [done|].
      intros [= -> _]. done.
    + destruct l as [|c l]; [done|]. rewrite !str_app_cons. intros [= -> _]. done.
    + destruct l as [|c l]; [done|]. rewrite !str_app_cons. intros [= -> _]. done.
  - inversion Hd as [|? Hs| |]; subst. cbn [writeCanonicalJSON]. rewrite quoteJSON_quoted.
    destruct Hw as [l' Hl' Ha'|s' Hs'|items' Hi'|fields' Hn' Hf']; cbn [writeCanonicalJSON].
    + destruct (quote_open s) as [q ->]. destruct l' as [|c l']; [done|]. intros [= <- _]. done.
    + rewrite quoteJSON_quoted. intros E. by apply quote_prefix in E as [-> ->].
    + destruct (quote_open s) as [q ->]. done.
    + destruct (quote_open s) as [q ->]. done.
Qed.

Lemma write_canon v : writeCanonicalJSON (canon v) = writeCanonicalJSON v.
Proof.
  induction v as [l|s|items IH|fields IH] using json_nested_ind; [done..| |].
  - simpl. rewrite map_map. do 2 f_equal. f_equal. apply map_ext_Forall. done.
  - rewrite canon_object, !write_object. do 2 f_equal. f_equal.
    change (map canonField (sortFields fields)) with (map (λ p, (p.1, canon p.2)) (sortFields fields)).
    rewrite sortFields_fmap, sortFields_idemp, map_map. apply map_ext_Forall.
    rewrite sortFields_perm. eapply Forall_impl; [exact IH|]. intros f Hf. unfold writeField; simpl. by rewrite Hf.
Qed.

Lemma write_inj v w : decoded text v → decoded text w →
  writeCanonicalJSON v = writeCanonicalJSON w → canon v = canon w.
Proof.
  intros Hv Hw E. apply (injects_all v Hv w "" "" Hw); [by left..|]. by rewrite E.
Qed.
End injective.

(** The order of an object's fields is lost in [canon], and nothing else of a field. *)
Lemma canon_fields_perm fields fields' :
  NoDup (fields.*1) → fields ≡ₚ fields' → canon (JObject fields) = canon (JObject fields').
Proof.
  intros Hn Hp. rewrite !canon_object. do 2 f_equal.
  apply (sort_slice_perm_eq (λ l r : string * json, str_ltb l.1 r.1) (λ x y, str_cmp x.1 y.1));
    [intros x y; apply str_ltb_spec| |done].
  intros x y Hx Hy E%str_cmp_eq. by eapply (NoDup_fmap_inj_on fst).
Qed.

(** The canonical writer is exact: two decoded values have the same canonical
    text exactly when they are the same value up to the order of object fields,
    and reordering the fields of an object does not change the text. *)
Theorem write_canonical_exact `{PlanLib} text quoted `{!PlanLaws text quoted} :
  (∀ v w, decoded text v → decoded text w →
     writeCanonicalJSON v = writeCanonicalJSON w ↔ canon v = canon w) ∧
  (∀ fields fields', NoDup (fields.*1) → fields ≡ₚ fields' →
     writeCanonicalJSON (JObject fields) = writeCanonicalJSON (JObject fields')).
Proof.
  split.
  - intros v w Hv Hw. split; [by apply (write_inj text quoted)|].
    intros E. by rewrite <- (write_canon v), <- (write_canon w), E.
  - intros fields fields' Hn Hp.
    rewrite <- (write_canon (JObject fields)), <- (write_canon (JObject fields')).
    by rewrite (canon_fields_perm _ _ Hn Hp).
Qed.

Lemma LoadPlan_finalized `{PlanLib, HashLib} content plan :
  LoadPlan content = Ok plan → FinalizePlan (plan_Payload plan) = Ok plan.
Proof.
  unfold LoadPlan. destruct (Decode _ _ _) as [[[schema id] payload]|]; [|done]. cbn [mbind result_bind fst snd].
  cbn [plan_SchemaVersion plan_Payload plan_PlanID].
  destruct (Z.eqb_spec schema PlanSchema) as [->|]; cbn [negb]; [|done].
  unfold FinalizePlan. destruct (canonicalJSON payload) as [encoded|] eqn:E; [|done].
  cbn [mbind result_bind plan_PlanID]. case_bool_decide as Hid; [|done]. intros [= <-].
  cbn [plan_Payload]. rewrite E. cbn [mbind result_bind]. by rewrite Hid.
Qed.

(** C31: A plan that loads is the one its payload finalizes to, and its ID binds
    the payload: two loaded plans with one ID carry the same payload value up to
    the order of object fields, or their canonical texts are a collision of the
    hash. *)
Theorem plan_id_binds_payload `{PlanLib, HashLib} text quoted `{!PlanLaws text quoted}
    content content' plan plan' tree tree' :
  LoadPlan content = Ok plan → LoadPlan content' = Ok plan' → plan_PlanID plan = plan_PlanID plan' →
  PayloadTree (plan_Payload plan) = Ok tree → PayloadTree (plan_Payload plan') = Ok tree' →
  decoded text tree → decoded text tree' →
  FinalizePlan (plan_Payload plan) = Ok plan ∧
  (canon tree = canon tree' ∨
   (writeCanonicalJSON tree ≠ writeCanonicalJSON tree' ∧
    SHA256Hex (writeCanonicalJSON tree) = SHA256Hex (writeCanonicalJSON tree'))).
Proof.
  intros Hl%LoadPlan_finalized Hl'%LoadPlan_finalized Hid Ht Ht' Hd Hd'. split; [done|].
  unfold FinalizePlan, canonicalJSON in Hl, Hl'. rewrite Ht in Hl. rewrite Ht' in Hl'.
  injection Hl as Hl. injection Hl' as Hl'.
  apply (f_equal plan_PlanID) in Hl, Hl'. cbn [plan_PlanID] in Hl, Hl'. rewrite <- Hl, <- Hl' in Hid.
  destruct (decide (writeCanonicalJSON tree = writeCanonicalJSON tree')) as [E|E]; [left|by right].
  by apply (write_inj text quoted).
Qed.

(** ** A concrete encoder *)

(** Text over letters and digits needs no escapes: quote it. *)
Module PlanExample.
Definition alnum (c : ascii) : bool := is_digit c || is_letter c.
Definition text (s : string) : Prop := all_bytes alnum s = true.
Definition quoted (s : string) : string := String "034" (s +:+ String "034" "").

#[local] Instance json_lib : JsonLib := {| Tokens s := ([TString s], true) |}.
#[local] Instance hash_lib : HashLib := {| SHA256Hex s := "digest of " +:+ s |}.
Definition tree : json := JObject [("name", JString "apt"); ("keep", JAtom "3")].
Definition tree' : json := JObject [("keep", JAtom "3"); ("name", JString "apt")].
Definition canonical : string :=
  "{" +:+ quoted "keep" +:+ ":3," +:+ quoted "name" +:+ ":" +:+ quoted "apt" +:+ "}".
#[local] Instance plan_lib : PlanLib := {|
  PlanPayload := bool;
  EncodeString s := quoted s +:+ String "010" "";
  PayloadTree b := Ok (if b then tree else tree');
  UnmarshalPlan s := Ok (PlanSchema, "digest of " +:+ canonical, bool_decide (s = "one"));
|}.

Lemma quoted_prefix s t u v :
  text s → text t → quoted s +:+ u = quoted t +:+ v → s = t ∧ u = v.
Proof.
  unfold quoted. rewrite !str_app_cons, !str_app_assoc. intros Hs Ht E. injection E as E.
  revert t Ht E; induction s as [|c s IH]; intros [|d t] Ht; rewrite ?str_app_cons; simpl.
  - intros E. injection E as E. done.
  - intros E. injection E as <- _. done.
  - intros E. injection E as -> _. done.
  - intros E. injection E as -> E. apply andb_true_iff in Hs as [_ Hs], Ht as [_ Ht].
    destruct (IH Hs t Ht E) as [-> ->]. done.
Qed.

#[local] Instance laws : PlanLaws text quoted.
Proof. split; [done|intros s; by eexists|apply quoted_prefix]. Qed.

Lemma tree_decoded : decoded text tree ∧ decoded text tree'.
Proof.
  split; (apply decoded_object; [apply (bool_decide_unpack _); vm_compute; exact I|]);
    repeat apply List.Forall_cons; try apply List.Forall_nil; (split; [vm_compute; reflexivity|]);
    solve [apply decoded_string; vm_compute; reflexivity | apply decoded_atom; vm_compute; done].
Qed.

Lemma write_canonical_exact_witness :
  (∀ v w, decoded text v → decoded text w →
     writeCanonicalJSON v = writeCanonicalJSON w ↔ canon v = canon w) ∧
  (∀ fields fields', NoDup (fields.*1) → fields ≡ₚ fields' →
     writeCanonicalJSON (JObject fields) = writeCanonicalJSON (JObject fields')).
Proof. exact (write_canonical_exact text quoted). Defined.

Lemma plan_id_binds_payload_witness :
  FinalizePlan (H0 := plan_lib) true = Ok (mkPlan json_lib plan_lib PlanSchema ("digest of " +:+ canonical) true) ∧
  (canon tree = canon tree' ∨
   (writeCanonicalJSON tree ≠ writeCanonicalJSON tree' ∧
    SHA256Hex (writeCanonicalJSON tree) = SHA256Hex (writeCanonicalJSON tree'))).
Proof.
  apply (plan_id_binds_payload text quoted "one" "two"
    (mkPlan json_lib plan_lib PlanSchema ("digest of " +:+ canonical) true)
    (mkPlan json_lib plan_lib PlanSchema ("digest of " +:+ canonical) false) tree tree');
    try (vm_compute; reflexivity); apply tree_decoded.
Defined.
End PlanExample.
