(* ===== verification/LockShard.v ===== *)
(** How a lock is stored: [internal/state/lockshard.go], [locksize.go], and
    [LoadLock] and [WriteLock] of [internal/state/store.go].

    The files a lock lives in are a [LockFiles]: the lock file, and the files of the
    shard directory by their path relative to it.  TOML and SHA-256 are parameters.
    The parallel reader places its results by index, so it is modelled by the
    sequence of the root's entries. *)

From S2P Require Import Prelude GoStrings GoSlices Model Formats Source Lock LockInvariant LockOps JsonStrict PlanJson.

Open Scope Z_scope.

Definition LockShardSchema : Z := 3.
Definition LockShardThreshold : nat := Z.to_nat 2000.

Record lockShardEntry := mkEntry {
  entry_Package : string;
  entry_Path : string;
  entry_SHA256 : string;
}.
#[export] Instance lockShardEntry_eq_dec : EqDecision lockShardEntry.
Proof. solve_decision. Defined.

Record lockRoot := mkRoot {
  root_SchemaVersion : Z;
  root_Repository : string;
  root_Placement : list Placement;
  root_MerkleRoot : string;
  root_Shard : list lockShardEntry;
}.

Record lockShard := mkShard {
  shard_Package : string;
  shard_PackageVersion : list PackageVersion;
}.

Class TomlLib := {
  MarshalLock : RepositoryLock → result string;
  UnmarshalLock : string → result RepositoryLock;
  MarshalRoot : lockRoot → result string;
  UnmarshalRoot : string → option lockRoot;
  MarshalShard : lockShard → result string;
  UnmarshalShard : string → option lockShard;
}.

(** ** Size limit *)

Definition DefaultMaxLockBytes : Z := Z.shiftl 128 20.

(** [given] is the value of SNAILMAIL_MAX_LOCK_BYTES, empty when unset. *)
Definition maxLockBytes (given : string) : Z :=
  if bool_decide (given = "") then DefaultMaxLockBytes
  else match ParseInt given 64 with
       | Some parsed => if parsed <=? 0 then DefaultMaxLockBytes else parsed
       | None => DefaultMaxLockBytes
       end.

Definition requireLockWithinLimit (given : string) (size : Z) : result () :=
  if size <=? maxLockBytes given then Ok () else Err "repository has a lock over the limit".

(** ** Paths and digests *)

(** [filepath.Ext] of the last path element. *)
Definition Ext (path : string) : string :=
  match cut_last_byte "." path with
  | Some (_, suffix) => if mem_byte "/" suffix then "" else String "." suffix
  | None => ""
  end.

Definition shardDirectory (lockPath : string) : string := TrimSuffix lockPath (Ext lockPath) +:+ ".d".

(** The loop of [shardSlug] over the runes of the lower-cased name.  A rune outside
    ASCII is dropped, except the two whose lower case is ASCII: the Kelvin sign and
    the dotted capital I. *)
Fixpoint slugBytes (room : nat) (name : string) {struct name} : string :=
  match room, name with
  | S room', String c rest =>
      let c := to_lower_byte c in
      if is_lower c || is_digit c then String c (slugBytes room' rest)
      else if mem_byte c "-_.+" then String "-" (slugBytes room' rest)
      else match rest with
      | String d rest' =>
          if ascii_eqb c "196" && ascii_eqb d "176" then String "i" (slugBytes room' rest')
          else match rest' with
          | String e rest'' =>
              if ascii_eqb c "226" && ascii_eqb d "132" && ascii_eqb e "170"
              then String "k" (slugBytes room' rest'') else slugBytes room rest
          | "" => slugBytes room rest
          end
      | "" => ""
      end
  | _, _ => ""
  end.

Definition shardSlug (packageName : string) : string := TrimByte "-" (slugBytes 48 packageName).

Section files.
Context `{HashLib, TomlLib}.

Definition shardRelativePath (packageName : string) : string :=
  let digest := SHA256Hex packageName in
  let slug := shardSlug packageName in
  if bool_decide (slug = "") then PathJoin [stake 2 digest; stake 12 digest +:+ ".toml"]
  else PathJoin [stake 2 digest; slug +:+ "-" +:+ stake 12 digest +:+ ".toml"].

Definition entryLess (l r : lockShardEntry) : bool := str_ltb (entry_Package l) (entry_Package r).

Definition entryLine (entry : lockShardEntry) : string :=
  entry_Package entry +:+ nul +:+ entry_Path entry +:+ nul +:+ entry_SHA256 entry +:+ String "010" "".

Definition indexText (entries : list lockShardEntry) : string :=
  foldr (λ entry text, entryLine entry +:+ text) "" (sort_slice entryLess entries).

Definition merkleRoot (entries : list lockShardEntry) : string := SHA256Hex (indexText entries).

(** ** Files *)

Record LockFiles := mkFiles {
  files_Lock : option string;
  files_ShardDirectory : bool;
  files_Shards : gmap string string;
}.

Definition shouldShard (files : LockFiles) (lock : RepositoryLock) : bool :=
  if (LockShardThreshold <? length (lock_PackageVersion lock))%nat then true
  else files_ShardDirectory files.

Definition looksSharded (content : string) : option lockRoot :=
  match UnmarshalRoot content with
  | Some root => if root_SchemaVersion root =? LockShardSchema then Some root else None
  | None => None
  end.

Definition previousShardDigests (files : LockFiles) : gmap string string :=
  match files_Lock files with
  | None => ∅
  | Some content =>
      match looksSharded content with
      | None => ∅
      | Some root => foldl (λ digests entry, <[entry_Path entry := entry_SHA256 entry]> digests) ∅ (root_Shard root)
      end
  end.

(** The names of [byPackage]; its iteration order shows only in which error of
    several is reported. *)
Definition packageNames (pvs : list PackageVersion) : list string := remove_dups (pv_Package <$> pvs).
Definition versionsOf (pvs : list PackageVersion) (packageName : string) : list PackageVersion :=
  List.filter (λ pv, bool_decide (pv_Package pv = packageName)) pvs.

(** The loop of [writeShardedLock]: shards written as it goes, entries collected. *)
Fixpoint writeShards (previous : gmap string string) (pvs : list PackageVersion) (names : list string)
    (shards : gmap string string) : gmap string string * result (list lockShardEntry) :=
  match names with
  | [] => (shards, Ok [])
  | packageName :: rest =>
      let relative := shardRelativePath packageName in
      match MarshalShard (mkShard packageName (versionsOf pvs packageName)) with
      | Err e => (shards, Err e)
      | Ok encoded =>
          let digest := SHA256Hex encoded in
          let shards := if bool_decide (previous !! relative = Some digest) then shards
                        else <[relative := encoded]> shards in
          let '(shards, entries) := writeShards previous pvs rest shards in
          (shards, entries ← entries; Ok (mkEntry packageName relative digest :: entries))
      end
  end.

Definition removeStaleShards (keep : list string) (shards : gmap string string) : gmap string string :=
  filter (λ file, HasSuffix file.1 ".toml" = false ∨ file.1 ∈ keep) shards.

Definition writeShardedLock (files : LockFiles) (lock : RepositoryLock) : LockFiles * result () :=
  let pvs := lock_PackageVersion lock in
  let '(shards, entries) :=
    writeShards (previousShardDigests files) pvs (packageNames pvs) (files_Shards files) in
  let directory := files_ShardDirectory files || negb (bool_decide (pvs = [])) in
  match entries with
  | Err e => (mkFiles (files_Lock files) directory shards, Err e)
  | Ok entries =>
      let shards := removeStaleShards (entry_Path <$> entries) shards in
      let entries := sort_slice entryLess entries in
      let root := mkRoot LockShardSchema (lock_Repository lock) (lock_Placement lock) (merkleRoot entries) entries in
      match MarshalRoot root with
      | Err e => (mkFiles (files_Lock files) directory shards, Err e)
      | Ok encoded => (mkFiles (Some encoded) directory shards, Ok ())
      end
  end.

Definition WriteLock (files : LockFiles) (lock : RepositoryLock) : LockFiles * result () :=
  let lock := canonicalizeLock (mkLock LockSchema (lock_Repository lock) (lock_PackageVersion lock) (lock_Placement lock)) in
  if shouldShard files lock then writeShardedLock files lock
  else match MarshalLock lock with
       | Err e => (files, Err e)
       | Ok encoded => (mkFiles (Some encoded) (files_ShardDirectory files) (files_Shards files), Ok ())
       end.

(** One shard, as a worker reads it: its versions and its size. *)
Definition readShard (shards : gmap string string) (entry : lockShardEntry) : result (list PackageVersion * Z) :=
  match shards !! entry_Path entry with
  | None => Err "shard cannot be read"
  | Some content =>
      refuse "shard does not match the digest the root states for it"
        when negb (bool_decide (SHA256Hex content = entry_SHA256 entry));
      match UnmarshalShard content with
      | None => Err "decode shard"
      | Some shard =>
          refuse "the indexed shard holds another package"
            when negb (bool_decide (shard_Package shard = entry_Package entry));
          Ok (shard_PackageVersion shard, Z.of_nat (String.length content))
      end
  end.

Fixpoint readShards (given : string) (shards : gmap string string) (total : Z) (entries : list lockShardEntry)
    : result (list PackageVersion) :=
  match entries with
  | [] => Ok []
  | entry :: rest =>
      shard ← readShard shards entry;
      let total := total + shard.2 in
      _ ← requireLockWithinLimit given total;
      pvs ← readShards given shards total rest;
      Ok (shard.1 ++ pvs)
  end.

Definition readShardedLock (given : string) (shards : gmap string string) (root : lockRoot) : result RepositoryLock :=
  refuse "the shard index does not match its Merkle root"
    when negb (bool_decide (merkleRoot (root_Shard root) = root_MerkleRoot root));
  refuse "shard path leaves the lock directory"
    when existsb (λ entry, GoStrings.Contains (entry_Path entry) ".." || HasPrefix (entry_Path entry) "/") (root_Shard root);
  pvs ← readShards given shards 0 (root_Shard root);
  Ok (mkLock LockSchema (root_Repository root) pvs (root_Placement root)).

Definition LoadLock (given : string) (files : LockFiles) : result RepositoryLock :=
  match files_Lock files with
  | None => Err "lock cannot be read"
  | Some content =>
      _ ← requireLockWithinLimit given (Z.of_nat (String.length content));
      match looksSharded content with
      | Some root =>
          lock ← readShardedLock given (files_Shards files) root;
          refuse "invalid repository lock schema" when bool_decide (lock_Repository lock = "");
          Ok (canonicalizeLock lock)
      | None =>
          lock ← UnmarshalLock content;
          refuse "lock schema 1 cannot contain artifact origins"
            when (lock_SchemaVersion lock =? 1) &&
                 existsb (λ pv, existsb (λ b, bool_decide (is_Some (Origin b))) (pv_Blobs pv)) (lock_PackageVersion lock);
          let lock := if lock_SchemaVersion lock =? 1
                      then mkLock LockSchema (lock_Repository lock) (lock_PackageVersion lock) (lock_Placement lock)
                      else lock in
          refuse "invalid repository lock schema"
            when negb (lock_SchemaVersion lock =? LockSchema) || bool_decide (lock_Repository lock = "");
          Ok (canonicalizeLock lock)
      end
  end.
End files.
