(* ===== verification/LockShardProofs.v ===== *)
(** Storing a lock and loading it gives the lock back, whole or sharded, and a
    sharded root fixes the packages it indexes. *)

From S2P Require Import Prelude GoStrings GoSlices Model Formats Source Lock LockInvariant LockOps JsonStrict PlanJson LockShard.

Open Scope Z_scope.

(** These two texts differ and have one digest. *)
Definition collides `{HashLib} (x y : string) : Prop := x ≠ y ∧ SHA256Hex x = SHA256Hex y.

(** What the storage relies on: TOML decodes what it encodes, a whole lock read as
    a root shows its schema, and a digest is 64 lower-case hex digits. *)
Class StorageLaws `{HashLib, TomlLib} : Prop := {
  toml_lock l c : MarshalLock l = Ok c → UnmarshalLock c = Ok l;
  toml_lock_schema l c root :
    MarshalLock l = Ok c → UnmarshalRoot c = Some root → root_SchemaVersion root = lock_SchemaVersion l;
  toml_root r c : MarshalRoot r = Ok c → UnmarshalRoot c = Some r;
  toml_shard s c : MarshalShard s = Ok c → UnmarshalShard c = Some s;
  digest_length s : String.length (SHA256Hex s) = 64%nat;
  digest_hex s : all_bytes is_lower_hex (SHA256Hex s) = true;
}.

(** ** Shard paths *)

Lemma stake_all p n s : all_bytes p s = true → all_bytes p (stake n s) = true.
Proof.
  revert s; induction n as [|n IH]; intros [|c s]; simpl; try done.
  rewrite !andb_true_iff. intros [? ?]. split; [done|by apply IH].
Qed.

Lemma stake_length n s : (n ≤ String.length s)%nat → String.length (stake n s) = n.
Proof. revert s; induction n as [|n IH]; intros [|c s] Hn; simpl in *; try done; [lia|]. rewrite IH; lia. Qed.

Definition is_slug_byte (c : ascii) : bool := is_lower c || is_digit c || ascii_eqb c "-".

Lemma slugBytes_all room name : all_bytes is_slug_byte (slugBytes room name) = true.
Proof.
  assert (∀ n room name, (String.length name ≤ n)%nat → all_bytes is_slug_byte (slugBytes room name) = true) as Hn;
    [|by eapply Hn].
  clear. induction n as [|n IH]; intros [|room] [|c rest] Hl; cbn [slugBytes String.length] in *; try done; try lia.
  destruct (is_lower (to_lower_byte c) || is_digit (to_lower_byte c)) eqn:E.
  { simpl. unfold is_slug_byte at 1. rewrite E. apply IH. lia. }
  destruct (mem_byte (to_lower_byte c) _); [apply IH; lia|]. destruct rest as [|d rest]; [done|]. simpl in Hl.
  destruct (_ && ascii_eqb d _); [apply IH; lia|].
  destruct rest as [|e rest]; [apply (IH (S room)); simpl; lia|]. simpl in Hl.
  destruct (_ && ascii_eqb e _); [apply IH; lia|apply (IH (S room)); simpl; lia].
Qed.

Lemma TrimRight_all p q s : all_bytes q s = true → all_bytes q (TrimRight p s) = true.
Proof.
  induction s as [|c s IH]; simpl; [done|]. rewrite andb_true_iff. intros [Hc Hs]. specialize (IH Hs).
  destruct (TrimRight p s); [destruct (p c); [done|simpl; by rewrite Hc]|]. simpl in *. by rewrite Hc.
Qed.

Lemma shardSlug_all name : all_bytes is_slug_byte (shardSlug name) = true.
Proof.
  unfold shardSlug, TrimByte. apply TrimRight_all, all_bytes_span_rest, slugBytes_all.
Qed.

(** A name whose only dot starts its extension contains no double dot. *)
Lemma Contains_dotdot u : mem_byte "." u = false → GoStrings.Contains (u +:+ ".toml") ".." = false.
Proof.
  induction u as [|c u IH]; [done|]. cbn [mem_byte]. rewrite str_app_cons. intros [Hc Hu]%orb_false_iff.
  cbn [GoStrings.Contains HasPrefix]. rewrite Hc. cbn [andb orb]. by apply IH.
Qed.

Section paths.
Context `{StorageLaws}.

(** The name of a shard's file, and the path it makes. *)
Definition shardFile (name : string) : string :=
  if bool_decide (shardSlug name = "") then stake 12 (SHA256Hex name)
  else shardSlug name +:+ "-" +:+ stake 12 (SHA256Hex name).

Lemma shardFile_bytes name : all_bytes (λ c, is_slug_byte c || is_lower_hex c) (shardFile name) = true.
Proof.
  assert (all_bytes (λ c, is_slug_byte c || is_lower_hex c) (stake 12 (SHA256Hex name)) = true) as Hd.
  { apply stake_all. eapply all_bytes_impl; [|apply digest_hex]. intros c ->. apply orb_true_r. }
  unfold shardFile. case_bool_decide; [done|]. rewrite !all_bytes_app, Hd, !andb_true_r.
  eapply all_bytes_impl; [|apply shardSlug_all]. by intros c ->.
Qed.

Lemma shardRelativePath_eq name :
  shardRelativePath name = stake 2 (SHA256Hex name) +:+ "/" +:+ shardFile name +:+ ".toml".
Proof.
  assert (shardRelativePath name = PathJoin [stake 2 (SHA256Hex name); shardFile name +:+ ".toml"]) as ->.
  { unfold shardRelativePath, shardFile. case_bool_decide; [done|]. by rewrite !str_app_assoc. }
  pose proof (shardFile_bytes name) as Hf.
  assert (all_bytes is_lower_hex (stake 2 (SHA256Hex name)) = true) as Hd by apply stake_all, digest_hex.
  assert (String.length (stake 2 (SHA256Hex name)) = 2%nat) as Hl.
  { apply stake_length. rewrite digest_length. lia. }
  assert (∀ s, all_bytes is_lower_hex s = true → s ≠ ".") as Hdot1 by (intros s Hs ->; done).
  assert (∀ s, all_bytes is_lower_hex s = true → s ≠ "..") as Hdot2 by (intros s Hs ->; done).
  rewrite PathJoin_two; [apply Clean_two; auto| |].
  - by eapply all_bytes_mem; [|exact Hd].
  - rewrite mem_byte_app. rewrite (all_bytes_mem _ "/" _ eq_refl Hf). done.
  - intros E. by rewrite E in Hl.
  - destruct (shardFile name); done.
  - destruct (shardFile name) as [|c [|]]; done.
  - destruct (shardFile name) as [|c [|d [|]]]; done.
  - intros E. by rewrite E in Hl.
  - destruct (shardFile name); done.
Qed.

(** The path a shard is written at is one the reader accepts and the
    directory sweep recognises: it never holds a double dot, is relative, and
    ends in .toml. *)
Lemma shardRelativePath_safe name :
  GoStrings.Contains (shardRelativePath name) ".." = false ∧
  HasPrefix (shardRelativePath name) "/" = false ∧ HasSuffix (shardRelativePath name) ".toml" = true.
Proof.
  rewrite shardRelativePath_eq. pose proof (shardFile_bytes name) as Hf.
  assert (all_bytes is_lower_hex (stake 2 (SHA256Hex name)) = true) as Hd by apply stake_all, digest_hex.
  assert (String.length (stake 2 (SHA256Hex name)) = 2%nat) as Hl.
  { apply stake_length. rewrite digest_length. lia. }
  split; [|split].
  - rewrite <- !str_app_assoc. apply Contains_dotdot. rewrite !mem_byte_app.
    rewrite (all_bytes_mem _ "." _ eq_refl Hd), (all_bytes_mem _ "." _ eq_refl Hf). done.
  - destruct (stake 2 (SHA256Hex name)) as [|c d]; [done|]. simpl in Hd. apply andb_true_iff in Hd as [Hc _].
    rewrite str_app_cons. cbn [HasPrefix]. rewrite andb_true_r. apply ascii_eqb_neq. intros ->. done.
  - rewrite <- !str_app_assoc. apply HasSuffix_app.
Qed.
End paths.

(** ** Grouping by package *)

Lemma versionsOf_cons pv pvs name :
  versionsOf (pv :: pvs) name =
  if bool_decide (pv_Package pv = name) then pv :: versionsOf pvs name else versionsOf pvs name.
Proof. unfold versionsOf. simpl. by case_bool_decide. Qed.

Lemma concat_versionsOf_cons pv pvs names :
  NoDup names → pv_Package pv ∈ names →
  concat (map (versionsOf (pv :: pvs)) names) ≡ₚ pv :: concat (map (versionsOf pvs) names).
Proof.
  induction 1 as [|n names Hn Hnd IH]; [by intros ?%elem_of_nil|]. cbn [map concat].
  rewrite versionsOf_cons. intros [E|Hin]%elem_of_cons.
  - rewrite bool_decide_eq_true_2 by done. simpl. constructor. apply Permutation_app_head.
    clear IH Hnd. revert Hn. rewrite <- E. clear E. induction names as [|m names IH]; intros Hn; [done|].
    cbn [map concat]. rewrite versionsOf_cons, bool_decide_eq_false_2.
    + apply Permutation_app_head, IH. intros ?. apply Hn. by apply list_elem_of_further.
    + intros E. apply Hn. rewrite E. apply list_elem_of_here.
  - rewrite bool_decide_eq_false_2 by (intros E; rewrite E in Hin; done). rewrite (IH Hin).
    rewrite Permutation_middle. done.
Qed.

(** The shards of all packages hold all versions. *)
Lemma concat_versionsOf pvs names :
  NoDup names → (∀ pv, pv ∈ pvs → pv_Package pv ∈ names) → concat (map (versionsOf pvs) names) ≡ₚ pvs.
Proof.
  intros Hn. induction pvs as [|pv pvs IH]; intros Hin.
  - clear. induction names; simpl; [done|]. done.
  - rewrite concat_versionsOf_cons by (done || apply Hin, list_elem_of_here).
    constructor. apply IH. intros q Hq. apply Hin. by apply list_elem_of_further.
Qed.

Lemma packageNames_spec pvs : NoDup (packageNames pvs) ∧ ∀ pv, pv ∈ pvs → pv_Package pv ∈ packageNames pvs.
Proof.
  split; [apply NoDup_remove_dups|]. intros pv Hpv. apply elem_of_remove_dups. by apply list_elem_of_fmap_2.
Qed.

(** ** Writing shards *)

Section storage.
Context `{StorageLaws}.

(** An entry of the written index, and the file it stands for: the digest is that
    of the package's encoding, and the file has it, being the encoding itself or
    the text that was [before] at the path of the shard. *)
Definition indexed (before : gmap string string) (pvs : list PackageVersion) (shards : gmap string string)
    (name : string) (e : lockShardEntry) : Prop :=
  ∃ encoded content,
    MarshalShard (mkShard name (versionsOf pvs name)) = Ok encoded ∧
    e = mkEntry name (shardRelativePath name) (SHA256Hex encoded) ∧
    shards !! shardRelativePath name = Some content ∧ SHA256Hex content = SHA256Hex encoded ∧
    (content = encoded ∨ before !! shardRelativePath name = Some content).

Lemma writeShards_spec before previous pvs names shards shards' entries :
  NoDup (shardRelativePath <$> names) →
  (∀ name, name ∈ names → shards !! shardRelativePath name = before !! shardRelativePath name) →
  (∀ name d, name ∈ names → previous !! shardRelativePath name = Some d →
     ∃ c, shards !! shardRelativePath name = Some c ∧ SHA256Hex c = d) →
  writeShards previous pvs names shards = (shards', Ok entries) →
  (∀ path, path ∉ shardRelativePath <$> names → shards' !! path = shards !! path) ∧
  Forall2 (indexed before pvs shards') names entries.
Proof.
  revert shards entries; induction names as [|name names IH]; intros shards entries Hnd Hbef Hprev; cbn [writeShards].
  { intros [= <- <-]. split; [done|constructor]. }
  rewrite fmap_cons, NoDup_cons in Hnd. destruct Hnd as [Hname Hnd].
  destruct (MarshalShard _) as [encoded|] eqn:Em; [|done].
  set (digest := SHA256Hex encoded).
  set (shards1 := if bool_decide _ then shards else _).
  destruct (writeShards previous pvs names shards1) as [shards2 [entries2|]] eqn:Ew; [|done].
  cbn [mbind result_bind]. intros [= <- <-].
  assert (∀ path, path ≠ shardRelativePath name → shards1 !! path = shards !! path) as Hother.
  { intros path Hp. unfold shards1. case_bool_decide; [done|]. by rewrite lookup_insert_ne. }
  assert (∃ c, shards1 !! shardRelativePath name = Some c ∧ SHA256Hex c = digest ∧
            (c = encoded ∨ before !! shardRelativePath name = Some c)) as (c & Hc & Hd & Hkept).
  { unfold shards1. case_bool_decide as Hp.
    - destruct (Hprev name digest (list_elem_of_here _ _) Hp) as (c & Hc & Hd). exists c.
      rewrite <- Hbef by apply list_elem_of_here. auto.
    - exists encoded. rewrite lookup_insert_eq. auto. }
  apply IH in Ew as [Hout Hidx]; [|done| |].
  2: { intros n Hn. rewrite Hother; [by apply Hbef, list_elem_of_further|].
       intros E. apply Hname. rewrite <- E. by apply list_elem_of_fmap_2. }
  2: { intros n d Hn Hp. rewrite Hother; [by apply Hprev; [apply list_elem_of_further|]|].
       intros E. apply Hname. rewrite <- E. by apply list_elem_of_fmap_2. }
  split.
  - intros path Hp. rewrite fmap_cons, not_elem_of_cons in Hp. destruct Hp as [Hp1 Hp2].
    by rewrite Hout, Hother.
  - constructor; [|done]. exists encoded, c. split; [done|]. split; [done|].
    split; [by rewrite Hout|done].
Qed.

Lemma removeStale_keeps keep shards path :
  path ∈ keep → removeStaleShards keep shards !! path = shards !! path.
Proof.
  intros Hp. unfold removeStaleShards. destruct (shards !! path) as [c|] eqn:E.
  - apply map_lookup_filter_Some. split; [done|by right].
  - apply map_lookup_filter_None. by left.
Qed.

(** ** Reading shards *)

Definition shardSize (shards : gmap string string) (entry : lockShardEntry) : Z :=
  match shards !! entry_Path entry with Some content => Z.of_nat (String.length content) | None => 0 end.
Definition indexSize (shards : gmap string string) (entries : list lockShardEntry) : Z :=
  foldr (λ entry total, shardSize shards entry + total) 0 entries.

Lemma indexSize_nonneg shards entries : 0 ≤ indexSize shards entries.
Proof.
  induction entries as [|e entries IH]; simpl; [done|]. unfold shardSize.
  destruct (shards !! entry_Path e); lia.
Qed.

(** The encoding of a package's shard collides with the different text that was at
    the path of the shard. *)
Definition shardCollides (before : gmap string string) (pvs : list PackageVersion) (names : list string) : Prop :=
  ∃ name encoded content, name ∈ names ∧
    MarshalShard (mkShard name (versionsOf pvs name)) = Ok encoded ∧
    before !! shardRelativePath name = Some content ∧ collides content encoded.

(** The files of an index hold the encodings themselves, or one of them collides. *)
Lemma indexed_or_collides before pvs shards names entries :
  Forall2 (indexed before pvs shards) names entries →
  shardCollides before pvs names ∨ Forall2 (λ name e, e = mkEntry name (entry_Path e) (entry_SHA256 e) ∧
    ∃ content, shards !! entry_Path e = Some content ∧ SHA256Hex content = entry_SHA256 e ∧
      UnmarshalShard content = Some (mkShard name (versionsOf pvs name))) names entries.
Proof.
  induction 1 as [|name e names entries (encoded & content & Hm & -> & Hs & Hd & Hk) _ [Hc|IH]];
    [right; constructor| |].
  { destruct Hc as (n & x & y & Hn & Hc). left. exists n, x, y. split; [by apply list_elem_of_further|done]. }
  destruct (decide (content = encoded)) as [->|Hne].
  2: { left. exists name, encoded, content. destruct Hk as [?|Hk]; [done|].
       split; [apply list_elem_of_here|]. done. }
  right. constructor; [|done]. split; [done|]. exists encoded. split; [done|]. split; [done|].
  by apply toml_shard.
Qed.

Lemma readShards_spec given pvs shards total names entries :
  Forall2 (λ name e, e = mkEntry name (entry_Path e) (entry_SHA256 e) ∧
    ∃ content, shards !! entry_Path e = Some content ∧ SHA256Hex content = entry_SHA256 e ∧
      UnmarshalShard content = Some (mkShard name (versionsOf pvs name))) names entries →
  total + indexSize shards entries ≤ maxLockBytes given →
  readShards given shards total entries = Ok (concat (map (versionsOf pvs) names)).
Proof.
  intros Hidx. revert total.
  induction Hidx as [|name e names entries (He & content & Hs & Hd & Hu) _ IH]; intros total Hsize; [done|].
  cbn [readShards indexSize foldr] in *. unfold readShard. rewrite Hs, Hd, bool_decide_eq_true_2, Hu by done.
  rewrite He. cbn [negb entry_Package shard_Package]. rewrite bool_decide_eq_true_2 by done.
  cbn [negb mbind result_bind snd fst shard_PackageVersion].
  change (foldr _ 0 entries) with (indexSize shards entries) in Hsize.
  unfold shardSize in Hsize. rewrite Hs in Hsize.
  pose proof (indexSize_nonneg shards entries).
  unfold requireLockWithinLimit. rewrite (proj2 (Z.leb_le _ _)) by lia. cbn [mbind result_bind].
  rewrite IH by lia. done.
Qed.

(** ** The round trip *)

(** The files of the shards the current root records are as it records them, which
    is what loading the lock checks. *)
Definition consistent (files : LockFiles) : Prop :=
  ∀ path d, previousShardDigests files !! path = Some d →
    ∃ c, files_Shards files !! path = Some c ∧ SHA256Hex c = d.

(** The stored lock is within the size limit. *)
Definition within_limit (given : string) (files : LockFiles) : Prop :=
  ∀ content, files_Lock files = Some content →
    Z.of_nat (String.length content) ≤ maxLockBytes given ∧
    ∀ root, looksSharded content = Some root →
      indexSize (files_Shards files) (root_Shard root) ≤ maxLockBytes given.

Lemma entryLess_spec x y : entryLess x y = true ↔ str_cmp (entry_Package x) (entry_Package y) = Lt.
Proof. apply str_ltb_spec. Qed.

Lemma merkleRoot_sorted entries : merkleRoot (sort_slice entryLess entries) = merkleRoot entries.
Proof.
  unfold merkleRoot, indexText.
  by rewrite (sort_slice_idemp entryLess (λ x y, str_cmp (entry_Package x) (entry_Package y)) entryLess_spec).
Qed.

Lemma Forall2_entry_paths before pvs shards names entries :
  Forall2 (indexed before pvs shards) names entries →
  entry_Path <$> entries = shardRelativePath <$> names.
Proof.
  induction 1 as [|name e names entries (? & ? & _ & -> & _) _ IH]; [done|].
  rewrite !fmap_cons. by rewrite IH.
Qed.

Lemma indexed_keep before pvs shards names entries :
  Forall2 (indexed before pvs shards) names entries →
  Forall2 (indexed before pvs (removeStaleShards (entry_Path <$> entries) shards)) names entries.
Proof.
  intros Hidx. rewrite (Forall2_entry_paths _ _ _ _ _ Hidx).
  assert (∀ name, name ∈ names → shardRelativePath name ∈ shardRelativePath <$> names) as Hin.
  { intros name Hn. by apply list_elem_of_fmap_2. }
  revert Hin. generalize (shardRelativePath <$> names) as keep. intros keep.
  induction Hidx as [|name e names entries (enc & c & ? & -> & Hs & ?) _ IH]; intros Hin; constructor.
  - exists enc, c. rewrite removeStale_keeps by apply Hin, list_elem_of_here. done.
  - apply IH. intros n Hn. apply Hin. by apply list_elem_of_further.
Qed.

(** Reading back an index that was written, in the sorted order of the root. *)
Lemma readShardedLock_written given before files lock names entries root :
  Forall2 (indexed before (lock_PackageVersion lock) (files_Shards files)) names entries →
  NoDup names → (∀ pv, pv ∈ lock_PackageVersion lock → pv_Package pv ∈ names) →
  root = mkRoot LockShardSchema (lock_Repository lock) (lock_Placement lock)
           (merkleRoot (sort_slice entryLess entries)) (sort_slice entryLess entries) →
  indexSize (files_Shards files) (root_Shard root) ≤ maxLockBytes given →
  shardCollides before (lock_PackageVersion lock) names ∨ ∃ pvs, readShardedLock given (files_Shards files) root =
    Ok (mkLock LockSchema (lock_Repository lock) pvs (lock_Placement lock)) ∧ pvs ≡ₚ lock_PackageVersion lock.
Proof.
  intros Hidx Hnd Hcover -> Hsize. unfold readShardedLock. cbn [root_Shard root_MerkleRoot root_Repository root_Placement] in *.
  rewrite bool_decide_eq_true_2 by done. cbn [negb].
  assert (existsb (λ entry, GoStrings.Contains (entry_Path entry) ".." || HasPrefix (entry_Path entry) "/")
            (sort_slice entryLess entries) = false) as ->.
  { apply existsb_spec_false. intros e. rewrite sort_slice_perm. intros He.
    apply (list_elem_of_fmap_2 entry_Path) in He. rewrite (Forall2_entry_paths _ _ _ _ _ Hidx) in He.
    apply list_elem_of_fmap in He as (name & -> & _).
    by destruct (shardRelativePath_safe name) as (-> & -> & _). }
  apply Forall2_flip in Hidx.
  destruct (Permutation_Forall2 (symmetry (sort_slice_perm entryLess entries)) Hidx) as (names' & Hp & Hidx').
  apply Forall2_flip in Hidx'. destruct (indexed_or_collides _ _ _ _ _ Hidx') as [Hc|Hread]; [left|right].
  { destruct Hc as (n & x & y & Hn & Hc). exists n, x, y. by rewrite Hp. }
  rewrite (readShards_spec given _ _ 0 _ _ Hread) by lia. eexists. split; [done|].
  apply concat_versionsOf; [by rewrite <- Hp|]. intros pv Hpv. rewrite <- Hp. by apply Hcover.
Qed.

Lemma writeShardedLock_inv files lock files' :
  NoDup (shardRelativePath <$> packageNames (lock_PackageVersion lock)) → consistent files →
  writeShardedLock files lock = (files', Ok ()) →
  ∃ entries content root,
    Forall2 (indexed (files_Shards files) (lock_PackageVersion lock) (files_Shards files')) (packageNames (lock_PackageVersion lock)) entries ∧
    root = mkRoot LockShardSchema (lock_Repository lock) (lock_Placement lock)
             (merkleRoot (sort_slice entryLess entries)) (sort_slice entryLess entries) ∧
    files_Lock files' = Some content ∧ looksSharded content = Some root.
Proof.
  intros Hnd Hcons. unfold writeShardedLock.
  destruct (writeShards _ _ _ _) as [shards [entries|]] eqn:Ew; [|done].
  destruct (MarshalRoot _) as [encoded|] eqn:Em; [|done]. intros [= <-].
  apply (writeShards_spec (files_Shards files)) in Ew as [_ Hidx]; [|done|done|intros name d _; apply Hcons].
  exists entries, encoded. eexists. split; [by apply indexed_keep|]. split; [done|]. split; [done|].
  unfold looksSharded. by rewrite (toml_root _ _ Em).
Qed.

(** An encoder refused a part of the lock. *)
Definition encodingFails (lock : RepositoryLock) (e : string) : Prop :=
  MarshalLock lock = Err e ∨
  (∃ name, name ∈ packageNames (lock_PackageVersion lock) ∧
     MarshalShard (mkShard name (versionsOf (lock_PackageVersion lock) name)) = Err e) ∨
  (∃ root, root_Repository root = lock_Repository lock ∧ root_Placement root = lock_Placement lock ∧
     MarshalRoot root = Err e).

Lemma writeShards_error previous pvs names shards shards' e :
  writeShards previous pvs names shards = (shards', Err e) →
  ∃ name, name ∈ names ∧ MarshalShard (mkShard name (versionsOf pvs name)) = Err e.
Proof.
  revert shards; induction names as [|name names IH]; intros shards; cbn [writeShards]; [done|].
  destruct (MarshalShard _) as [encoded|] eqn:Em.
  - destruct (writeShards _ _ names _) as [shards2 [?|]] eqn:Ew; [done|]. intros [= <- <-].
    apply IH in Ew as (n & ? & ?). exists n. split; [by apply list_elem_of_further|done].
  - intros [= <- <-]. exists name. split; [apply list_elem_of_here|done].
Qed.

(** A lock is refused only when an encoder refuses it. *)
Lemma WriteLock_error files lock files' e :
  lock_SchemaVersion lock = LockSchema →
  WriteLock files lock = (files', Err e) → encodingFails (canonicalizeLock lock) e.
Proof.
  intros Hs. unfold WriteLock.
  replace (mkLock LockSchema (lock_Repository lock) (lock_PackageVersion lock) (lock_Placement lock)) with lock
    by (rewrite <- Hs; by destruct lock).
  destruct (shouldShard _ _).
  - unfold writeShardedLock. destruct (writeShards _ _ _ _) as [shards [entries|]] eqn:Ew.
    + destruct (MarshalRoot _) eqn:Em; [done|]. intros [= <- <-]. right. right. eexists. split; [|split; [|exact Em]]; done.
    + intros [= <- <-]. right. left. by eapply writeShards_error.
  - destruct (MarshalLock _) eqn:Em; [done|]. intros [= <- <-]. by left.
Qed.

(** Loading a lock that was written gives it back. *)
Lemma written_lock_loads `{NetLib} given selected repository lock files files' :
  lock_wf selected repository lock → repository ≠ "" → consistent files →
  NoDup (shardRelativePath <$> packageNames (lock_PackageVersion (canonicalizeLock lock))) →
  WriteLock files lock = (files', Ok ()) → within_limit given files' →
  shardCollides (files_Shards files) (lock_PackageVersion (canonicalizeLock lock))
    (packageNames (lock_PackageVersion (canonicalizeLock lock))) ∨
  LoadLock given files' = Ok (canonicalizeLock lock).
Proof.
  intros Hwf Hrepo Hcons Hnd. unfold WriteLock.
  replace (mkLock LockSchema (lock_Repository lock) (lock_PackageVersion lock) (lock_Placement lock)) with lock
    by (rewrite <- (lw_schema _ _ _ Hwf); by destruct lock).
  assert (lock_Repository (canonicalizeLock lock) = repository) as Hr by apply (lw_repository _ _ _ Hwf).
  pose proof (lw_schema _ _ _ Hwf) as Hs. destruct (shouldShard files _).
  - intros Hw Hlim. destruct (writeShardedLock_inv _ _ _ Hnd Hcons Hw) as (entries & content & root & Hidx & Eroot & Hl & Hlook).
    destruct (Hlim content Hl) as [Hc Hsize]. specialize (Hsize root Hlook).
    destruct (packageNames_spec (lock_PackageVersion (canonicalizeLock lock))) as [Hn Hcover].
    destruct (readShardedLock_written given (files_Shards files) files' (canonicalizeLock lock) _ _ root Hidx Hn Hcover Eroot Hsize)
      as [?|(pvs & Hread & Hp)]; [by left|right].
    unfold LoadLock, requireLockWithinLimit. rewrite Hl, (proj2 (Z.leb_le _ _) Hc). cbn [mbind result_bind].
    rewrite Hlook, Hread. cbn [mbind result_bind lock_Repository]. rewrite Hr, bool_decide_eq_false_2 by done.
    f_equal. symmetry. eapply canonicalizeLock_respects; [done|].
    etrans; [apply canonicalizeLock_equiv|]. split; [done|by rewrite Hr| |done].
    exists (lock_PackageVersion (canonicalizeLock lock)). split; [|by symmetry]. done.
  - destruct (MarshalLock (canonicalizeLock lock)) as [encoded|] eqn:Em; [|done]. intros [= <-] Hlim. right.
    destruct (Hlim encoded eq_refl) as [Hc _].
    unfold LoadLock, requireLockWithinLimit. cbn [files_Lock]. rewrite (proj2 (Z.leb_le _ _) Hc). cbn [mbind result_bind].
    assert (looksSharded encoded = None) as ->.
    { unfold looksSharded. destruct (UnmarshalRoot encoded) as [root|] eqn:Eu; [|done].
      rewrite (toml_lock_schema _ _ _ Em Eu). cbn [canonicalizeLock set_placements set_versions lock_SchemaVersion].
      by rewrite Hs. }
    rewrite (toml_lock _ _ Em). cbn [mbind result_bind].
    assert (lock_SchemaVersion (canonicalizeLock lock) = LockSchema) as Hs' by done.
    rewrite Hs'. change (LockSchema =? 1) with false. cbn [andb]. rewrite Hs', Hr.
    rewrite bool_decide_eq_false_2 by done. change (LockSchema =? LockSchema) with true. cbn [negb orb].
    f_equal. symmetry. eapply canonicalizeLock_respects; [done|apply canonicalizeLock_equiv].
Qed.


(** ** What the Merkle root fixes *)

(** A shard's versions, as the file at the entry's path holds them. *)
Definition holds_versions (shards : gmap string string) (e : lockShardEntry) (pvs : list PackageVersion) : Prop :=
  ∃ content, shards !! entry_Path e = Some content ∧ SHA256Hex content = entry_SHA256 e ∧ UnmarshalShard content = Some (mkShard (entry_Package e) pvs).

Lemma readShards_inv given shards total entries pvs :
  readShards given shards total entries = Ok pvs →
  ∃ vss, Forall2 (holds_versions shards) entries vss ∧ pvs = concat vss.
Proof.
  revert total pvs; induction entries as [|e entries IH]; intros total pvs; cbn [readShards].
  { intros [= <-]. by exists []. }
  unfold readShard. destruct (shards !! entry_Path e) as [content|] eqn:Es; [|done].
  case_bool_decide as Hd; cbn [negb]; [|done].
  destruct (UnmarshalShard content) as [[p vs]|] eqn:Eu; [|done]. cbn [shard_Package].
  case_bool_decide as Hp; cbn [negb]; [|done]. subst p. cbn [mbind result_bind fst snd shard_PackageVersion].
  destruct (requireLockWithinLimit _ _); cbn [mbind result_bind]; [|done].
  destruct (readShards _ _ _ entries) as [rest|] eqn:Er; cbn [mbind result_bind]; [|done].
  intros [= <-]. destruct (IH _ _ Er) as (vss & Hf & ->). exists (vs :: vss). split; [|done].
  constructor; [by exists content|done].
Qed.

(** The two files of an indexed shard collide. *)
Definition filesCollide (shards shards' : gmap string string) (entries : list lockShardEntry) : Prop :=
  ∃ e content content', e ∈ entries ∧ shards !! entry_Path e = Some content ∧
    shards' !! entry_Path e = Some content' ∧ collides content content'.

Lemma holds_versions_all shards shards' entries vss vss' :
  Forall2 (holds_versions shards) entries vss → Forall2 (holds_versions shards') entries vss' →
  filesCollide shards shards' entries ∨ vss = vss'.
Proof.
  intros Hf. revert vss'. induction Hf as [|e vs entries vss (c & Hs & Hc & Hu) _ IH]; intros vss' Hf'.
  - apply Forall2_nil_inv_l in Hf' as ->. by right.
  - apply Forall2_cons_inv_l in Hf' as (vs' & vss'' & (c' & Hs' & Hc' & Hu') & Hf' & ->).
    destruct (decide (c = c')) as [->|Hne].
    2: { left. exists e, c, c'. split; [apply list_elem_of_here|]. repeat split; congruence. }
    destruct (IH _ Hf') as [(e0 & x & y & Hin & Hx)| ->].
    + left. exists e0, x, y. split; [by apply list_elem_of_further|done].
    + right. congruence.
Qed.

(** A line of the index is read off the front of the text. *)
Definition plain_entry (e : lockShardEntry) : Prop :=
  nul_free (entry_Package e) = true ∧ nul_free (entry_Path e) = true ∧ String.length (entry_SHA256 e) = 64%nat.

Lemma entryLine_inj e e' t t' :
  plain_entry e → plain_entry e' → entryLine e +:+ t = entryLine e' +:+ t' → e = e' ∧ t = t'.
Proof.
  destruct e as [a b c], e' as [a' b' c']. intros (Ha & Hb & Hc) (Ha' & Hb' & Hc').
  unfold entryLine; cbn [entry_Package entry_Path entry_SHA256] in *. rewrite !str_app_assoc. intros E.
  apply nul_join_inj in E as [-> E]; [|done..]. apply nul_join_inj in E as [-> E]; [|done..].
  assert (∀ s s' u u', String.length s = String.length s' → s +:+ u = s' +:+ u' → s = s' ∧ u = u') as Hsame.
  { induction s as [|x s IH]; intros [|y s'] u u' Hl; try done. rewrite !str_app_cons.
    intros E'. injection E' as -> E'. injection Hl as Hl. by destruct (IH s' u u' Hl E') as [-> ->]. }
  apply Hsame in E as [-> E]; [|congruence]. rewrite !str_app_cons in E. injection E as E. done.
Qed.

Lemma indexText_inj entries entries' :
  Forall plain_entry entries → Forall plain_entry entries' →
  indexText entries = indexText entries' → entries ≡ₚ entries'.
Proof.
  unfold indexText. rewrite <- (sort_slice_perm entryLess entries) at 1.
  rewrite <- (sort_slice_perm entryLess entries') at 1. intros Hp Hp' E.
  enough (sort_slice entryLess entries = sort_slice entryLess entries') as Es.
  { by rewrite <- (sort_slice_perm entryLess entries), Es, sort_slice_perm. }
  revert Hp Hp' E. generalize (sort_slice entryLess entries) (sort_slice entryLess entries').
  induction l as [|e l IH]; intros [|e' l']; cbn [foldr]; intros Hp Hp' E; [done| | |].
  - exfalso. destruct e' as [[|] ? ?]; done.
  - exfalso. destruct e as [[|] ? ?]; done.
  - apply Forall_cons in Hp as [He Hp]. apply Forall_cons in Hp' as [He' Hp'].
    apply entryLine_inj in E as [-> E]; [|done..]. f_equal. by apply IH.
Qed.

Lemma holds_versions_plain shards e vs :
  nul_free (entry_Package e) = true ∧ nul_free (entry_Path e) = true → holds_versions shards e vs → plain_entry e.
Proof.
  intros [? ?] (c & _ & Hc & _). unfold plain_entry. rewrite <- Hc. split; [done|]. split; [done|]. apply digest_length.
Qed.

Lemma holds_versions_plain_all shards entries vss :
  Forall (λ e, nul_free (entry_Package e) = true ∧ nul_free (entry_Path e) = true) entries →
  Forall2 (holds_versions shards) entries vss → Forall plain_entry entries.
Proof.
  intros He Hv. induction Hv; [constructor|]. apply Forall_cons in He as [? ?].
  constructor; [by eapply holds_versions_plain|auto].
Qed.

Lemma readShardedLock_inv given shards root l :
  readShardedLock given shards root = Ok l →
  merkleRoot (root_Shard root) = root_MerkleRoot root ∧
  ∃ vss, Forall2 (holds_versions shards) (root_Shard root) vss ∧ lock_PackageVersion l = concat vss.
Proof.
  unfold readShardedLock. case_bool_decide as Er; cbn [negb]; [|done]. destruct (existsb _ _); [done|].
  destruct (readShards _ _ _ _) as [pvs|] eqn:Ep; cbn [mbind result_bind]; [|done].
  intros [= <-]. split; [done|]. by apply readShards_inv in Ep.
Qed.

(** C34: The Merkle root fixes the packages: two sharded locks that load under one
    Merkle root, whatever directories they are read from, have the same entries in
    their indexes (packages, paths and shard digests) and record the same package
    versions, when no package name or path of the indexes holds a NUL byte.  The
    exceptions are that the two index texts at hand, or the two files of one of
    the shards at hand, are different texts with one digest. *)
Theorem merkle_root_binds_packages given given' shards shards' root root' l l' :
  Forall (λ e, nul_free (entry_Package e) = true ∧ nul_free (entry_Path e) = true) (root_Shard root) →
  Forall (λ e, nul_free (entry_Package e) = true ∧ nul_free (entry_Path e) = true) (root_Shard root') →
  root_MerkleRoot root = root_MerkleRoot root' →
  readShardedLock given shards root = Ok l → readShardedLock given' shards' root' = Ok l' →
  collides (indexText (root_Shard root)) (indexText (root_Shard root')) ∨
  (root_Shard root ≡ₚ root_Shard root' ∧
   (filesCollide shards shards' (root_Shard root) ∨ lock_PackageVersion l ≡ₚ lock_PackageVersion l')).
Proof.
  intros Hn Hn' Em (Er & vss & Hf & ->)%readShardedLock_inv (Er' & vss' & Hf' & ->)%readShardedLock_inv.
  destruct (decide (indexText (root_Shard root) = indexText (root_Shard root'))) as [E|E].
  - right. apply indexText_inj in E; [|by eapply holds_versions_plain_all..]. split; [done|].
    destruct (Permutation_Forall2 E Hf) as (vss2 & Hp & Hf2).
    destruct (holds_versions_all _ _ _ _ _ Hf2 Hf') as [(e & x & y & Hin & Hx)| ->]; [left|right].
    + exists e, x, y. by rewrite E.
    + by rewrite Hp.
  - left. split; [done|]. unfold merkleRoot in Er, Er'. congruence.
Qed.
End storage.

(** ** A concrete store *)

(** A hash that is the first 32 bytes in hex, and an encoding of one lock and its
    one shard. *)
Module StorageExample.
Definition hex_digit (n : N) : ascii :=
  default "0"%char (nth_error (String.list_ascii_of_string "0123456789abcdef") (N.to_nat n)).
Fixpoint hex (s : string) : string :=
  match s with
  | "" => ""
  | String c s => String (hex_digit (N.div (N_of_ascii c) 16)) (String (hex_digit (N.modulo (N_of_ascii c) 16)) (hex s))
  end.
Fixpoint pad (n : nat) (s : string) : string :=
  match n with
  | O => ""
  | S n => match s with "" => String "0" (pad n "") | String c s => String c (pad n s) end
  end.

#[local] Instance hash_lib : HashLib := {| SHA256Hex s := pad 64 (hex s) |}.

Definition blob : LockedBlob := mkBlob "tool" "" 1 "" "" (pad 64 "") "" None.
Definition lock : RepositoryLock :=
  mkLock LockSchema "files" [mkPackageVersion "tool" "1.0" "draft" [blob]] [mkPlacement "tool" "1.0" "stable" ""].
Definition shard : lockShard := mkShard "tool" (lock_PackageVersion lock).
Definition entry : lockShardEntry := mkEntry "tool" "74/tool-746f6f6c0000.toml" (SHA256Hex "shard").
Definition root : lockRoot := mkRoot LockShardSchema "files" (lock_Placement lock) (merkleRoot [entry]) [entry].

#[local] Instance lockRoot_eq_dec : EqDecision lockRoot.
Proof. solve_decision. Defined.
#[local] Instance lockShard_eq_dec : EqDecision lockShard.
Proof. solve_decision. Defined.

#[local] Instance toml_lib : TomlLib := {|
  MarshalLock l := if bool_decide (l = lock) then Ok "lock" else Err "unknown";
  UnmarshalLock c := if bool_decide (c = "lock") then Ok lock else Err "unknown";
  MarshalRoot r := if bool_decide (r = root) then Ok "root" else Err "unknown";
  UnmarshalRoot c := if bool_decide (c = "root") then Some root else None;
  MarshalShard s := if bool_decide (s = shard) then Ok "shard" else Err "unknown";
  UnmarshalShard c := if bool_decide (c = "shard") then Some shard else None |}.

Lemma hex_digit_ok n : is_lower_hex (hex_digit n) = true.
Proof.
  unfold hex_digit. generalize (N.to_nat n). intros k.
  do 16 (destruct k as [|k]; [done|]). by destruct k.
Qed.

Lemma hex_all s : all_bytes is_lower_hex (hex s) = true.
Proof. induction s as [|c s IH]; cbn [hex all_bytes]; [done|]. by rewrite !hex_digit_ok, IH. Qed.

Lemma pad_ok n s : String.length (pad n s) = n ∧ (all_bytes is_lower_hex s = true → all_bytes is_lower_hex (pad n s) = true).
Proof.
  revert s; induction n as [|n IH]; intros [|c s]; simpl; try done.
  - destruct (IH "") as [-> H]. split; [done|]. intros _. by apply H.
  - destruct (IH s) as [-> H]. split; [done|]. rewrite !andb_true_iff. intros [? ?]. auto.
Qed.

#[local] Instance laws : StorageLaws.
Proof.
  split; cbn [MarshalLock UnmarshalLock MarshalRoot UnmarshalRoot MarshalShard UnmarshalShard SHA256Hex toml_lib hash_lib].
  - intros l c. case_bool_decide; [|done]. by intros [= <-]; subst.
  - intros l c r. case_bool_decide; [|done]. by intros [= <-].
  - intros r c. case_bool_decide; [|done]. by intros [= <-]; subst.
  - intros s c. case_bool_decide; [|done]. by intros [= <-]; subst.
  - intros s. apply pad_ok.
  - intros s. apply pad_ok, hex_all.
Qed.

#[local] Instance net : NetLib := {| ParseURL _ := None; ParseAddr _ := None |}.

Lemma lock_valid : lock_wf rawFormat "files" lock.
Proof.
  split; [reflexivity|reflexivity| |apply (bool_decide_unpack _); vm_compute; exact I..].
  apply (validateVersions_spec rawFormat ∅ _ (list_to_set (identityOf <$> lock_PackageVersion lock) ∪ ∅)).
  vm_compute. reflexivity.
Qed.

Definition empty : LockFiles := mkFiles None true ∅.
Definition stored : LockFiles := mkFiles (Some "root") true {[ entry_Path entry := "shard" ]}.


Lemma merkle_root_binds_packages_witness :
  collides (indexText (root_Shard root)) (indexText (root_Shard root)) ∨
  (root_Shard root ≡ₚ root_Shard root ∧
   (filesCollide (files_Shards stored) (files_Shards stored) (root_Shard root) ∨
    lock_PackageVersion lock ≡ₚ lock_PackageVersion lock)).
Proof.
  apply (merkle_root_binds_packages "" "" (files_Shards stored) (files_Shards stored) root root lock lock);
    try (vm_compute; reflexivity); apply (bool_decide_unpack _); vm_compute; exact I.
Defined.
End StorageExample.
