(* ===== verification/Forge.v ===== *)
(** The forge port: [forge/forge.go] and [forge/provider.go].

    A provider adapter is a record of its three questions; what an adapter answers
    is the provider's and is a parameter. *)

From S2P Require Import Prelude GoStrings Formats.

Record ForgeRepository := mkForgeRepository {
  fr_Name : string;
  fr_Provider : string;
  fr_Host : string;
  fr_WorkingDirectory : string;
}.

Record RepositoryInfo := mkInfo { info_Name : string; info_DefaultBranch : string }.

Record PullRequest := mkPullRequest { pr_Number : Z; pr_Merged : bool; pr_BaseBranch : string }.

Record Ancestry := mkAncestry { anc_Contains : bool; anc_MergeBase : string }.

(** The interface [Forge], and [Resolver] as a function. *)
Record Forge := mkForge {
  RepositoryOf : ForgeRepository → result RepositoryInfo;
  PullRequestsForRevision : ForgeRepository → string → result (list PullRequest);
  RevisionAncestry : ForgeRepository → string → string → result Ancestry;
}.
Definition Resolver := ForgeRepository → result Forge.

(** ** Providers *)

Definition ProviderNone : string := "none".
Definition DefaultProvider : string := "github".

Record providerRule := mkRule { minSegments : nat; maxSegments : nat; rule_defaultHost : string }.

Definition providerRules : list (string * providerRule) :=
  [("github", mkRule 2 2 "github.com"); ("gitlab", mkRule 2 20 "gitlab.com");
   ("forgejo", mkRule 2 2 ""); ("gitea", mkRule 2 2 ""); ("none", mkRule 1 1 "")].

Definition KnownProvider (name : string) : bool :=
  match assoc name providerRules with Some _ => true | None => false end.

Definition DefaultHost (provider : string) : string :=
  match assoc provider providerRules with Some rule => rule_defaultHost rule | None => "" end.

Definition is_segment_byte (c : ascii) : bool := is_letter c || is_digit c || mem_byte c "-_.".

Definition validPathSegment (value : string) : bool :=
  negb (bool_decide (value = "") || (100 <? String.length value)%nat || HasPrefix value "." || HasSuffix value ".") &&
  all_bytes is_segment_byte value.

(** The loop over the segments: only the last may not end in .git. *)
Fixpoint validSegments (segments : list string) : bool :=
  match segments with
  | [] => true
  | [last] => validPathSegment last && negb (HasSuffix (ToLower last) ".git")
  | segment :: rest => validPathSegment segment && validSegments rest
  end.

Definition spaceBytes : string := String " " (String "009" (String "013" (String "010" ""))).

Definition ValidRepositoryReference (provider reference : string) : bool :=
  match assoc provider providerRules with
  | None => false
  | Some rule =>
      if bool_decide (reference = "") || (512 <? String.length reference)%nat then false
      else if bool_decide (provider = ProviderNone) then negb (ContainsAny reference spaceBytes)
      else
        let segments := Split "/" reference in
        if (length segments <? minSegments rule)%nat || (maxSegments rule <? length segments)%nat then false
        else validSegments segments
  end.

Definition ValidHost (host : string) : bool :=
  negb (bool_decide (host = "")) && (String.length host <=? 253)%nat &&
  negb (ContainsAny host (spaceBytes +:+ "/\?#@")) && negb (HasPrefix host ".") && negb (HasSuffix host ".").

Example reference_examples :
  ValidRepositoryReference "github" "owner/name" = true ∧
  ValidRepositoryReference "github" "group/sub/name" = false ∧
  ValidRepositoryReference "gitlab" "group/sub/name" = true ∧
  ValidRepositoryReference "github" "owner/name.git" = false ∧
  ValidRepositoryReference "github" "owner/../name" = false ∧
  ValidRepositoryReference "none" "/srv/state" = true.
Proof. vm_compute. repeat split. Qed.
