(* ===== verification/Gate.v ===== *)
(** Publication gates: [gate/gate.go].

    Ed25519, base64 and JSON are parameters ([GateLib]).  The evidence file is its
    bytes, and the clock is the requirement's [Now]. *)

From S2P Require Import Prelude GoStrings GoSlices JsonStrict PlanJson Forge.

Open Scope Z_scope.

Definition ApprovalSchema : Z := 1.

Record Requirement := mkRequirement {
  req_Policy : string;
  req_PlanID : string;
  req_Repository : string;
  req_GitRevision : string;
  req_Root : string;
  req_Now : Z;
  req_ForgeRepository : string;
  req_Forge : string;
  req_ForgeHost : string;
  req_ApprovalKeys : list string;
}.

Record Approval := mkApproval {
  app_PlanID : string;
  app_Repository : string;
  app_Approver : string;
  app_ExpiresAt : string;
  app_Signature : string;
}.

Record ApprovalFile := mkApprovalFile {
  file_SchemaVersion : Z;
  file_Approvals : list Approval;
}.

Class GateLib `{JsonLib} := {
  UnmarshalApprovals : string → result ApprovalFile;
  DecodeBase64 : string → option string;
  EncodeBase64 : string → string;
  Ed25519Verify : string → string → string → bool;
  Ed25519Sign : string → string → string;
  Ed25519Public : string → string;
  (** The private key a key file holds, base64-encoded, with its schema. *)
  UnmarshalKey : string → result (Z * string);
}.

Definition SignatureSize : nat := 64.
Definition PublicKeySize : nat := 32.
Definition PrivateKeySize : nat := 64.
Definition maximumEvidence : nat := Z.to_nat (2 ^ 20).

Section gate.
Context `{JsonLib, TimeLib, HashLib, !GateLib}.

Definition approvalMessage (approval : Approval) : string :=
  "snailmail-approval/v1" +:+ nul +:+ app_PlanID approval +:+ nul +:+ app_Repository approval +:+ nul +:+
  app_Approver approval +:+ nul +:+ app_ExpiresAt approval.

Definition approvalKeyID (publicKey : string) : string := "ed25519:" +:+ SHA256Hex publicKey.

Definition keyApproves (approval : Approval) (signature encoded : string) : bool :=
  match DecodeBase64 encoded with
  | Some publicKey =>
      (String.length publicKey =? PublicKeySize)%nat && bool_decide (app_Approver approval = approvalKeyID publicKey) &&
      Ed25519Verify publicKey (approvalMessage approval) signature
  | None => false
  end.

Definition verifyApproval (approval : Approval) (allowedKeys : list string) : bool :=
  match DecodeBase64 (app_Signature approval) with
  | Some signature =>
      if negb (String.length signature =? SignatureSize)%nat then false
      else existsb (keyApproves approval signature) allowedKeys
  | None => false
  end.

Definition LoadApprovals (content : result string) : result ApprovalFile :=
  content ← content;
  evidence ← Decode UnmarshalApprovals content maximumEvidence;
  refuse "unsupported approval evidence schema" when negb (file_SchemaVersion evidence =? ApprovalSchema);
  Ok evidence.

(** One turn of the loop over the evidence. *)
Definition approvalCounts (requirement : Requirement) (approval : Approval) : bool :=
  if negb (bool_decide (app_PlanID approval = req_PlanID requirement)) ||
     negb (bool_decide (app_Repository approval = req_Repository requirement)) ||
     bool_decide (app_Approver approval = "")
  then false
  else match ParseRFC3339 (app_ExpiresAt approval) with
       | Some expiresAt => (req_Now requirement <? expiresAt) && verifyApproval approval (req_ApprovalKeys requirement)
       | None => false
       end.

(** [evidence] is the evidence file's bytes, [None] when no file was given. *)
Definition requireApproval (evidence : option (result string)) (requirement : Requirement) : result () :=
  match evidence with
  | None => Err "approval gate requires an approval evidence file"
  | Some content =>
      evidence ← LoadApprovals content;
      if existsb (approvalCounts requirement) (file_Approvals evidence) then Ok ()
      else Err "repository lacks unexpired approval bound to plan"
  end.

(** One turn of the loop over the pull requests. *)
Definition pullRequestCounts (provider : Forge) (target : ForgeRepository) (repository : RepositoryInfo)
    (revision : string) (pullRequest : PullRequest) : bool :=
  if (pr_Number pullRequest <=? 0) || negb (pr_Merged pullRequest) ||
     negb (bool_decide (pr_BaseBranch pullRequest = info_DefaultBranch repository))
  then false
  else match RevisionAncestry provider target revision (info_DefaultBranch repository) with
       | Ok ancestry => anc_Contains ancestry && bool_decide (anc_MergeBase ancestry = revision)
       | Err _ => false
       end.

Definition verifyMergedPR (forges : option Resolver) (requirement : Requirement) (revision : string) : result () :=
  refuse "PR gate has no reviewed forge repository" when bool_decide (req_ForgeRepository requirement = "");
  match forges with
  | None => Err "PR gate has no configured forge"
  | Some resolve =>
      let target := mkForgeRepository (req_ForgeRepository requirement) (req_Forge requirement)
                      (req_ForgeHost requirement) (req_Root requirement) in
      provider ← resolve target;
      repository ← RepositoryOf provider target;
      pullRequests ← PullRequestsForRevision provider target revision;
      if existsb (pullRequestCounts provider target repository revision) pullRequests then Ok ()
      else Err "Git revision was not merged through a PR"
  end.

Definition requireMergedPR (forges : option Resolver) (requirement : Requirement) : result () :=
  verifyMergedPR forges requirement (req_GitRevision requirement).

Definition Authorize (evidence : option (result string)) (forges : option Resolver) (requirement : Requirement)
    : result () :=
  if bool_decide (req_Policy requirement = "auto") then Ok ()
  else if bool_decide (req_Policy requirement = "pr") then requireMergedPR forges requirement
  else if bool_decide (req_Policy requirement = "approval") then requireApproval evidence requirement
  else Err "unsupported publication gate".

(** Signing, with the key file's bytes: the approval and the public key. *)
Definition SignApproval (content planID repository expiresAt : string) : result (Approval * string) :=
  match Decode UnmarshalKey content maximumEvidence with
  | Ok (schema, privateKey) =>
      refuse "invalid approval private key file" when negb (schema =? ApprovalSchema);
      match DecodeBase64 privateKey with
      | Some decoded =>
          refuse "invalid approval private key" when negb (String.length decoded =? PrivateKeySize)%nat;
          let publicKey := Ed25519Public decoded in
          let approval := mkApproval planID repository (approvalKeyID publicKey) expiresAt "" in
          let signature := EncodeBase64 (Ed25519Sign decoded (approvalMessage approval)) in
          Ok (mkApproval planID repository (approvalKeyID publicKey) expiresAt signature, EncodeBase64 publicKey)
      | None => Err "invalid approval private key"
      end
  | Err _ => Err "invalid approval private key file"
  end.
End gate.
