(* ===== verification/GateProofs.v ===== *)
(** A gate authorizes only on the evidence it asks for, and honours evidence that
    was properly made. *)

From S2P Require Import Prelude GoStrings GoSlices JsonStrict PlanJson Forge Gate.

Open Scope Z_scope.

Section proofs.
Context `{JsonLib, TimeLib, HashLib, !GateLib}.

(** The review the PR gate asks for: a merged pull request into the default branch
    which still contains the revision. *)
Definition reviewed (forges : option Resolver) (requirement : Requirement) : Prop :=
  req_ForgeRepository requirement ≠ "" ∧
  ∃ resolve provider info pullRequests pullRequest ancestry,
    let target := mkForgeRepository (req_ForgeRepository requirement) (req_Forge requirement)
                    (req_ForgeHost requirement) (req_Root requirement) in
    forges = Some resolve ∧ resolve target = Ok provider ∧ RepositoryOf provider target = Ok info ∧
    PullRequestsForRevision provider target (req_GitRevision requirement) = Ok pullRequests ∧
    pullRequest ∈ pullRequests ∧ 0 < pr_Number pullRequest ∧ pr_Merged pullRequest = true ∧
    pr_BaseBranch pullRequest = info_DefaultBranch info ∧
    RevisionAncestry provider target (req_GitRevision requirement) (info_DefaultBranch info) = Ok ancestry ∧
    anc_Contains ancestry = true ∧ anc_MergeBase ancestry = req_GitRevision requirement.

Lemma pullRequestCounts_spec provider target info revision pullRequest :
  pullRequestCounts provider target info revision pullRequest = true ↔
  0 < pr_Number pullRequest ∧ pr_Merged pullRequest = true ∧
  pr_BaseBranch pullRequest = info_DefaultBranch info ∧
  ∃ ancestry, RevisionAncestry provider target revision (info_DefaultBranch info) = Ok ancestry ∧
    anc_Contains ancestry = true ∧ anc_MergeBase ancestry = revision.
Proof.
  unfold pullRequestCounts. destruct (Z.leb_spec (pr_Number pullRequest) 0); simpl.
  { split; [done|]. intros (? & _). lia. }
  destruct (pr_Merged pullRequest); simpl; [|split; [done|by intros (_ & ? & _)]].
  case_bool_decide; simpl; [|split; [done|by intros (_ & _ & ? & _)]].
  destruct (RevisionAncestry _ _ _ _) as [ancestry|].
  - rewrite andb_true_iff, bool_decide_eq_true. split.
    + intros [? ?]. repeat (split; [done|]). by exists ancestry.
    + by intros (_ & _ & _ & a & [= <-] & ? & ?).
  - split; [done|]. by intros (_ & _ & _ & a & ? & _).
Qed.

(** C39: For a forge whose answers do not change during the check, the pull-request gate
    opens exactly when a forge repository is named, the forge can be selected and
    identifies the repository and lists the pull requests of the revision, one of these
    has a number and is merged into the default branch, and the forge answers that this
    branch still contains the revision, as its own merge base. *)
Theorem pr_gate_exact evidence forges requirement :
  req_Policy requirement = "pr" →
  Authorize evidence forges requirement = Ok () ↔ reviewed forges requirement.
Proof.
  intros Hp. unfold Authorize, requireMergedPR, verifyMergedPR. rewrite Hp.
  change (bool_decide ("pr" = "auto")) with false. change (bool_decide ("pr" = "pr")) with true. cbv iota.
  unfold reviewed. case_bool_decide as Hr; [split; [done|by intros [? _]]|].
  destruct forges as [resolve|]; [|split; [done|by intros (_ & ? & ? & ? & ? & ? & ? & [=] & _)]].
  set (target := mkForgeRepository _ _ _ _).
  destruct (resolve target) as [provider|] eqn:E1; cbn [mbind result_bind];
    [|split; [done|intros (_ & ? & ? & ? & ? & ? & ? & [= <-] & ? & _); congruence]].
  destruct (RepositoryOf provider target) as [info|] eqn:E2; cbn [mbind result_bind];
    [|split; [done|intros (_ & ? & ? & ? & ? & ? & ? & [= <-] & ? & ? & _); congruence]].
  destruct (PullRequestsForRevision provider target _) as [prs|] eqn:E3; cbn [mbind result_bind];
    [|split; [done|intros (_ & ? & ? & ? & ? & ? & ? & [= <-] & ? & ? & ? & _); congruence]].
  destruct (existsb _ prs) eqn:E4.
  - split; [intros _|done]. apply existsb_spec in E4 as (pr & Hin & Hc).
    apply pullRequestCounts_spec in Hc as (? & ? & ? & ancestry & ? & ? & ?).
    split; [done|]. exists resolve, provider, info, prs, pr, ancestry. done.
  - split; [done|]. intros (_ & resolve' & provider' & info' & prs' & pr & ancestry & [= <-] & H1' & H2' & H3' & Hin & ? & ? & ? & ? & ? & ?).
    assert (provider' = provider) as -> by congruence. assert (info' = info) as -> by congruence.
    assert (prs' = prs) as -> by congruence. exfalso.
    rewrite existsb_spec_false in E4. specialize (E4 pr Hin). apply not_true_iff_false in E4. apply E4.
    apply pullRequestCounts_spec. repeat (split; [done|]). by exists ancestry.
Qed.

(** ** Approvals *)

(** Evidence in which [message] approves what is required: an approval of the plan
    and the repository that names the key of an allowed public key, has not
    expired, and carries that key's signature of [message], its own message. *)
Definition approves (evidence : option (result string)) (requirement : Requirement) (message : string) : Prop :=
  ∃ content file a encoded publicKey signature expiresAt,
    evidence = Some content ∧ LoadApprovals content = Ok file ∧ a ∈ file_Approvals file ∧
    app_PlanID a = req_PlanID requirement ∧ app_Repository a = req_Repository requirement ∧
    ParseRFC3339 (app_ExpiresAt a) = Some expiresAt ∧ req_Now requirement < expiresAt ∧
    encoded ∈ req_ApprovalKeys requirement ∧ DecodeBase64 encoded = Some publicKey ∧
    String.length publicKey = PublicKeySize ∧ app_Approver a = approvalKeyID publicKey ∧
    DecodeBase64 (app_Signature a) = Some signature ∧ String.length signature = SignatureSize ∧
    message = approvalMessage a ∧ Ed25519Verify publicKey message signature = true.

Lemma keyApproves_spec a signature encoded :
  keyApproves a signature encoded = true ↔
  ∃ publicKey, DecodeBase64 encoded = Some publicKey ∧ String.length publicKey = PublicKeySize ∧
    app_Approver a = approvalKeyID publicKey ∧ Ed25519Verify publicKey (approvalMessage a) signature = true.
Proof.
  unfold keyApproves. destruct (DecodeBase64 encoded) as [publicKey|]; [|naive_solver].
  rewrite !andb_true_iff, bool_decide_eq_true, Nat.eqb_eq. naive_solver.
Qed.

Lemma verifyApproval_spec a keys :
  verifyApproval a keys = true ↔
  ∃ encoded publicKey signature, encoded ∈ keys ∧ DecodeBase64 encoded = Some publicKey ∧
    String.length publicKey = PublicKeySize ∧ app_Approver a = approvalKeyID publicKey ∧
    DecodeBase64 (app_Signature a) = Some signature ∧ String.length signature = SignatureSize ∧
    Ed25519Verify publicKey (approvalMessage a) signature = true.
Proof.
  unfold verifyApproval. destruct (DecodeBase64 (app_Signature a)) as [signature|]; [|naive_solver].
  destruct (Nat.eqb_spec (String.length signature) SignatureSize) as [E|E]; cbn [negb]; [|naive_solver].
  rewrite existsb_spec. setoid_rewrite keyApproves_spec. naive_solver.
Qed.

Lemma approvalCounts_spec requirement a :
  approvalCounts requirement a = true ↔
  app_PlanID a = req_PlanID requirement ∧ app_Repository a = req_Repository requirement ∧
  (∃ expiresAt, ParseRFC3339 (app_ExpiresAt a) = Some expiresAt ∧ req_Now requirement < expiresAt) ∧
  verifyApproval a (req_ApprovalKeys requirement) = true.
Proof.
  unfold approvalCounts.
  case_bool_decide; cbn [negb orb]; [|naive_solver]. case_bool_decide; cbn [negb orb]; [|naive_solver].
  case_bool_decide as Ea.
  - split; [done|]. rewrite verifyApproval_spec. intros (_ & _ & _ & ? & ? & ? & _ & _ & _ & E & _).
    rewrite Ea in E. done.
  - destruct (ParseRFC3339 _) as [expiresAt|]; [|naive_solver]. rewrite andb_true_iff, Z.ltb_lt. naive_solver.
Qed.

Lemma requireApproval_exact evidence requirement :
  requireApproval evidence requirement = Ok () ↔ ∃ message, approves evidence requirement message.
Proof.
  unfold requireApproval. destruct evidence as [content|]; [|split; [done|by intros (? & ? & ? & ? & ? & ? & ? & ? & [=] & _)]].
  destruct (LoadApprovals content) as [file|] eqn:El; cbn [mbind result_bind].
  2: { split; [done|]. intros (? & ? & ? & ? & ? & ? & ? & ? & [= <-] & ? & _). congruence. }
  destruct (existsb _ _) eqn:E; (split; [|try done]); [|done|].
  - intros _. apply existsb_spec in E as (a & Hin & Hc).
    apply approvalCounts_spec in Hc as (E1 & E2 & (expiresAt & E3 & E4) & Hv).
    apply verifyApproval_spec in Hv as (encoded & publicKey & signature & ? & ? & ? & ? & ? & ? & ?).
    exists (approvalMessage a), content, file, a, encoded, publicKey, signature, expiresAt. done.
  - intros (m & c & f & a & encoded & publicKey & signature & expiresAt & [= <-] & Hf & Hin & E1 & E2 & E3 & E4 & ? & ? & ? & ? & ? & ? & -> & Hv).
    assert (f = file) as -> by congruence. exfalso.
    rewrite existsb_spec_false in E. specialize (E a Hin). apply not_true_iff_false in E. apply E.
    apply approvalCounts_spec. split; [done|]. split; [done|]. split; [by exists expiresAt|].
    apply verifyApproval_spec. by exists encoded, publicKey, signature.
Qed.

(** A message is bound to the plan and the repository it was made for. *)
Lemma approvalMessage_binds a b :
  nul_free (app_PlanID a) = true → nul_free (app_Repository a) = true →
  nul_free (app_PlanID b) = true → nul_free (app_Repository b) = true →
  approvalMessage a = approvalMessage b → app_PlanID a = app_PlanID b ∧ app_Repository a = app_Repository b.
Proof.
  intros ? ? ? ? E. unfold approvalMessage in E.
  apply nul_join_inj in E as [_ E]; [|done..]. apply nul_join_inj in E as [E1 E]; [|done..].
  by apply nul_join_inj in E as [E2 _].
Qed.

(** C18: The approval gate opens exactly when the evidence file loads and holds an
    approval of this plan and this repository, still to expire, that names the key
    of an allowed public key and carries that key's signature of the approval's own
    message; and a signed message cannot be replayed: one message approves, in
    whatever evidence, under whatever keys and at whatever time, for one plan and
    one repository only (plan identifiers and repository names being free of NUL
    bytes). *)
Theorem approval_gate_no_replay evidence forges requirement :
  req_Policy requirement = "approval" →
  (Authorize evidence forges requirement = Ok () ↔ ∃ message, approves evidence requirement message) ∧
  ∀ evidence' requirement' message,
    nul_free (req_PlanID requirement) = true → nul_free (req_Repository requirement) = true →
    nul_free (req_PlanID requirement') = true → nul_free (req_Repository requirement') = true →
    approves evidence requirement message → approves evidence' requirement' message →
    req_PlanID requirement' = req_PlanID requirement ∧ req_Repository requirement' = req_Repository requirement.
Proof.
  intros Hp. split.
  - unfold Authorize. rewrite Hp. change (bool_decide ("approval" = "auto")) with false.
    change (bool_decide ("approval" = "pr")) with false. change (bool_decide ("approval" = "approval")) with true.
    apply requireApproval_exact.
  - intros evidence' requirement' message N1 N2 N3 N4
      (? & ? & a & ? & ? & ? & ? & _ & _ & _ & E1 & E2 & _ & _ & _ & _ & _ & _ & _ & _ & Em & _)
      (? & ? & b & ? & ? & ? & ? & _ & _ & _ & F1 & F2 & _ & _ & _ & _ & _ & _ & _ & _ & Em' & _).
    rewrite <- E1, <- E2, <- F1, <- F2 in *. by apply approvalMessage_binds; try congruence.
Qed.

(** What signing relies on: base64 decodes what it encodes, and an Ed25519
    signature verifies and has its documented size. *)
Class GateLaws : Prop := {
  base64_roundtrip s : DecodeBase64 (EncodeBase64 s) = Some s;
  sign_size key message : String.length (Ed25519Sign key message) = SignatureSize;
  public_size key : String.length (Ed25519Public key) = PublicKeySize;
  sign_verifies key message :
    Ed25519Verify (Ed25519Public key) message (Ed25519Sign key message) = true;
}.

(** A signed approval opens the gate: evidence holding the approval
    [SignApproval] made for the plan and repository satisfies the approval gate
    while it has not expired and its public key is allowed. *)
Theorem signed_approval_authorizes `{!GateLaws} content file requirement expiresAt approval publicKey instant :
  SignApproval content (req_PlanID requirement) (req_Repository requirement) expiresAt = Ok (approval, publicKey) →
  ParseRFC3339 expiresAt = Some instant → req_Now requirement < instant →
  publicKey ∈ req_ApprovalKeys requirement →
  LoadApprovals file = Ok (mkApprovalFile ApprovalSchema [approval]) →
  requireApproval (Some file) requirement = Ok ().
Proof.
  intros Hs Ht Hnow Hin Hfile. unfold requireApproval. rewrite Hfile. cbn [mbind result_bind file_Approvals].
  enough (approvalCounts requirement approval = true) as Hc by (cbn [existsb]; by rewrite Hc).
  unfold SignApproval in Hs. destruct (Decode _ _ _) as [[schema privateKey]|]; [|done].
  destruct (negb _); [done|]. destruct (DecodeBase64 privateKey) as [key|]; [|done].
  destruct (negb _); [done|]. injection Hs as <- <-.
  unfold approvalCounts. cbn [app_PlanID app_Repository app_Approver app_ExpiresAt].
  rewrite (bool_decide_eq_true_2 (req_PlanID requirement = _)), (bool_decide_eq_true_2 (req_Repository requirement = _)) by done.
  rewrite bool_decide_eq_false_2 by done. cbn [negb orb]. rewrite Ht, (proj2 (Z.ltb_lt _ _) Hnow). cbn [andb].
  unfold verifyApproval. cbn [app_Signature]. rewrite base64_roundtrip, sign_size. cbn [negb Nat.eqb SignatureSize].
  apply existsb_spec. eexists. split; [exact Hin|]. unfold keyApproves. rewrite base64_roundtrip, public_size.
  cbn [app_Approver]. rewrite bool_decide_eq_true_2 by done. apply sign_verifies.
Qed.
End proofs.

(** ** Concrete libraries *)

Module GateExample.
Fixpoint pad (n : nat) (s : string) : string :=
  match n with
  | O => ""
  | S n => match s with "" => String "0" (pad n "") | String c s => String c (pad n s) end
  end.
Lemma pad_length n s : String.length (pad n s) = n.
Proof. revert s; induction n as [|n IH]; intros [|c s]; simpl; by rewrite ?IH. Qed.

#[local] Instance json_lib : JsonLib := {| Tokens s := ([TString s], true) |}.
#[local] Instance time_lib : TimeLib := {| ParseRFC3339 s := if bool_decide (s = "noon") then Some 12 else None |}.
#[local] Instance hash_lib : HashLib := {| SHA256Hex _ := "key" |}.

Definition approval0 : Approval := mkApproval "plan" "apt" "ed25519:key" "noon" "signature".
(** The approval as it is made with the key below. *)
Definition approval1 : Approval := mkApproval "plan" "apt" "ed25519:key" "noon" (pad 64 (pad 32 "secret" +:+ approvalMessage approval0)).
Definition requirement0 (keys : list string) : Requirement :=
  mkRequirement "approval" "plan" "apt" "revision" "." 11 "owner/state" "github" "" keys.

(** Keys of a toy scheme: a signature is the public key and the message's start. *)
#[local] Instance gate_lib : GateLib := {|
  UnmarshalApprovals _ := Ok (mkApprovalFile ApprovalSchema [approval1]);
  DecodeBase64 s := Some s;
  EncodeBase64 s := s;
  Ed25519Verify key message signature := bool_decide (signature = pad 64 (key +:+ message));
  Ed25519Sign key message := pad 64 (pad 32 key +:+ message);
  Ed25519Public key := pad 32 key;
  UnmarshalKey s := Ok (ApprovalSchema, pad 64 s) |}.

#[local] Instance gate_laws : GateLaws.
Proof.
  split; cbn [DecodeBase64 EncodeBase64 Ed25519Sign Ed25519Public Ed25519Verify gate_lib]; intros.
  - done.
  - apply pad_length.
  - apply pad_length.
  - by apply bool_decide_eq_true.
Qed.

Lemma signed_approval_authorizes_witness :
  requireApproval (Some (Ok "evidence")) (requirement0 ["other"; pad 32 (pad 64 "secret")]) = Ok ().
Proof.
  apply (signed_approval_authorizes "secret" (Ok "evidence") (requirement0 ["other"; pad 32 (pad 64 "secret")])
    "noon" approval1 (pad 32 (pad 64 "secret")) 12); try (vm_compute; reflexivity).
  apply (bool_decide_unpack _). vm_compute. exact I.
Defined.

Lemma approval_gate_no_replay_witness :
  let requirement := requirement0 [pad 32 "secret"] in
  (∃ message, approves (Some (Ok "evidence")) requirement message) ∧
  ∀ evidence' requirement' message,
    nul_free (req_PlanID requirement') = true → nul_free (req_Repository requirement') = true →
    approves (Some (Ok "evidence")) requirement message → approves evidence' requirement' message →
    req_PlanID requirement' = "plan" ∧ req_Repository requirement' = "apt".
Proof.
  cbn zeta. destruct (approval_gate_no_replay (Some (Ok "evidence")) None (requirement0 [pad 32 "secret"]) eq_refl) as [Ho Hr].
  split.
  - apply Ho. vm_compute. reflexivity.
  - intros evidence' requirement' message Hp Hq. by apply Hr.
Defined.

Definition forge0 : Forge :=
  mkForge (λ _, Ok (mkInfo "owner/state" "main")) (λ _ _, Ok [mkPullRequest 7 true "main"])
    (λ _ revision _, Ok (mkAncestry true revision)).
Definition requirement1 : Requirement :=
  mkRequirement "pr" "plan" "apt" "revision" "." 11 "owner/state" "github" "" [].

Lemma pr_gate_exact_witness :
  (Authorize None (Some (λ _, Ok forge0)) requirement1 = Ok () ↔ reviewed (Some (λ _, Ok forge0)) requirement1) ∧
  Authorize None (Some (λ _, Ok forge0)) requirement1 = Ok () ∧ Authorize None None requirement1 ≠ Ok ().
Proof.
  split; [|vm_compute; split; [reflexivity|discriminate]].
  apply pr_gate_exact. reflexivity.
Defined.
End GateExample.
