(* ===== verification/Manifest.v ===== *)
(** The workspace manifest: the manifest half of [internal/state/store.go].

    TOML, URL parsing, base64 and Unicode case folding are parameters.  Go iterates
    a map in no fixed order; a loop that only checks entries and stops at the first
    error is [checkAll], whose success does not depend on the order.  The part of
    the file system [Setup] touches is a [WorkspaceFiles]. *)

From S2P Require Import Prelude GoStrings GoSlices GoRegexp Model Formats Source Lock Forge PlanJson.

Open Scope Z_scope.

Record legacyRepository := mkLegacyRepository {
  legacy_Format : string;
  legacy_Lock : string;
  legacy_Output : string;
  legacy_Gate : string;
  legacy_Suite : string;
  legacy_Component : string;
  legacy_Architectures : list string;
}.
Record legacyManifest := mkLegacyManifest {
  legacy_SchemaVersion : Z;
  legacy_Workspace : Workspace;
  legacy_Repositories : gmap string legacyRepository;
}.

Class ManifestLib := {
  UnmarshalHeader : string → result Z;
  UnmarshalManifest : string → result Manifest;
  UnmarshalLegacy : string → result legacyManifest;
  MarshalManifest : Manifest → result string;
  StdDecodeBase64 : string → option string;
  EqualFold : string → string → bool;
}.

Definition is_identifier_byte (c : ascii) : bool := is_lower c || is_digit c || ascii_eqb c "-".
(** [^[a-z][a-z0-9-]*$] and [^[a-f0-9]{40}$] *)
Definition identifierPattern : re := Cat (Chr is_lower) (Star (Chr is_identifier_byte)).
Definition fingerprintPattern : re := Times 40 (Chr is_lower_hex).

Definition MinimumSigningRefreshSeconds : Z := 7 * 24 * 60 * 60.

Fixpoint checkAll {A} (check : string → A → result ()) (entries : list (string * A)) : result () :=
  match entries with
  | [] => Ok ()
  | (name, a) :: rest => _ ← check name a; checkAll check rest
  end.

(** ** Paths and names *)

Definition pathControl : string := String "000" (String "013" (String "010" "")).

Definition validateRelativePath (name : string) : result () :=
  refuse "path must be non-empty and relative" when bool_decide (name = "") || HasPrefix name "/";
  refuse "path contains a control character" when ContainsAny name pathControl;
  let clean := Clean name in
  refuse "path escapes the workspace"
    when bool_decide (clean = ".") || bool_decide (clean = "..") || HasPrefix clean "../";
  Ok ().

Definition ValidateRepositoryName (name : string) : result () :=
  refuse "repository name must use lowercase letters, digits, and hyphens"
    when negb (MatchFull identifierPattern name);
  Ok ().

Definition isLoopbackHost (value : string) : bool :=
  bool_decide (value = "localhost") || bool_decide (value = "127.0.0.1") || bool_decide (value = "::1").

Definition validGitHubName (value : string) : bool :=
  negb (bool_decide (value = "") || (100 <? String.length value)%nat || HasPrefix value "." || HasSuffix value ".") &&
  all_bytes is_segment_byte value.

Definition validGitHubRepository (value : string) : bool :=
  match Split "/" value with
  | [owner; name] => validGitHubName owner && validGitHubName name && negb (HasSuffix (ToLower name) ".git")
  | _ => false
  end.

Definition branchByte (c : ascii) : bool :=
  negb ((byte_val c <=? 32) || (byte_val c =? 127) || mem_byte c "~^:?*[\").

Definition validGitBranch (value : string) : bool :=
  negb (bool_decide (value = "") || bool_decide (value = "@") || HasPrefix value "/" || HasSuffix value "/" ||
        HasSuffix value "." || HasSuffix value ".lock" || GoStrings.Contains value ".." ||
        GoStrings.Contains value "@{" || GoStrings.Contains value "//") &&
  forallb (λ component, negb (bool_decide (component = "") || HasPrefix component ".")) (Split "/" value) &&
  all_bytes branchByte value.

Definition validGate (value : string) : bool :=
  bool_decide (value = "auto") || bool_decide (value = "pr") || bool_decide (value = "approval").

Section manifest.
Context `{NetLib, TimeLib, HashLib, !ManifestLib}.

Definition validateHTTPURL (value : string) : result () :=
  refuse "must not contain control characters" when ContainsAny value pathControl;
  refuse "must be an HTTP(S) URL without credentials, query, or fragment"
    when match ParseURL value with
         | Some parsed =>
             (negb (bool_decide (Scheme parsed = "http")) && negb (bool_decide (Scheme parsed = "https"))) ||
             bool_decide (Host parsed = "") || HasUser parsed || negb (bool_decide (RawQuery parsed = "")) ||
             negb (bool_decide (Fragment parsed = ""))
         | None => true
         end;
  Ok ().

(** HTTPS, or plain HTTP to a loopback host; only asked of a URL that parsed. *)
Definition secureEndpoint (value : string) : bool :=
  match ParseURL value with
  | Some parsed => bool_decide (Scheme parsed = "https") ||
                   (bool_decide (Scheme parsed = "http") && isLoopbackHost (Hostname parsed))
  | None => false
  end.

Definition sameConfiguredEndpoint (l r : string) : bool :=
  match ParseURL l, ParseURL r with
  | Some lu, Some ru =>
      EqualFold (Scheme lu) (Scheme ru) && EqualFold (Host lu) (Host ru) &&
      EqualFold (TrimSuffix (EscapedPath lu) "/") (TrimSuffix (EscapedPath ru) "/")
  | _, _ => false
  end.

Definition validateForgeIdentity (workspace : Workspace) : result () :=
  let provider := if bool_decide (ws_Forge workspace = "") then DefaultProvider else ws_Forge workspace in
  refuse "workspace forge is not known" when negb (KnownProvider provider);
  refuse "forge repository is not how the provider addresses a repository"
    when negb (bool_decide (ws_ForgeRepository workspace = "")) &&
         negb (ValidRepositoryReference provider (ws_ForgeRepository workspace));
  refuse "forge host is not a hostname"
    when negb (bool_decide (ws_ForgeHost workspace = "")) && negb (ValidHost (ws_ForgeHost workspace));
  refuse "forge is self-hosted and needs forge_host"
    when bool_decide (ws_ForgeHost workspace = "") && negb (bool_decide (ws_ForgeRepository workspace = "")) &&
         negb (bool_decide (provider = ProviderNone)) && bool_decide (DefaultHost provider = "");
  refuse "workspace forge has no forge_repository to read"
    when negb (bool_decide (ws_Forge workspace = "")) && negb (bool_decide (ws_Forge workspace = ProviderNone)) &&
         bool_decide (ws_ForgeRepository workspace = "");
  Ok ().

(** The loop over the approval keys. *)
Fixpoint sortedApprovalKeys (previous : string) (keys : list string) : bool :=
  match keys with
  | [] => true
  | encoded :: rest =>
      match StdDecodeBase64 encoded with
      | Some decoded =>
          (String.length decoded =? 32)%nat &&
          negb (negb (bool_decide (previous = "")) && str_leb encoded previous) &&
          sortedApprovalKeys encoded rest
      | None => false
      end
  end.

Definition ValidateGateConfiguration (policy : string) (approvalKeys : list string) (forgeRepository : string) : result () :=
  refuse "invalid gate" when negb (validGate policy);
  refuse "PR gate requires workspace forge_repository"
    when bool_decide (policy = "pr") && bool_decide (forgeRepository = "");
  if negb (bool_decide (policy = "approval")) then
    refuse "approval keys require an approval gate" when negb (bool_decide (approvalKeys = []));
    Ok ()
  else
    refuse "approval gate requires at least one Ed25519 public key" when bool_decide (approvalKeys = []);
    refuse "invalid or unsorted approval keys" when negb (sortedApprovalKeys "" approvalKeys);
    Ok ().

Definition validateGateConfiguration (repository : Repository) (forgeRepository : string) : result () :=
  ValidateGateConfiguration (repo_Gate repository) (repo_ApprovalKeys repository) forgeRepository.

Definition ValidateBlobStore (configuration : BlobStoreConfig) : result () :=
  if bool_decide (bs_Type configuration = "local") then
    refuse "local blob store has S3-only configuration"
      when negb (bool_decide (bs_Bucket configuration = "")) || negb (bool_decide (bs_Prefix configuration = "")) ||
           negb (bool_decide (bs_Region configuration = "")) || negb (bool_decide (bs_Endpoint configuration = "")) ||
           bs_UsePathStyle configuration;
    Ok ()
  else if bool_decide (bs_Type configuration = "s3") then
    refuse "S3 blob store requires a valid bucket"
      when bool_decide (bs_Bucket configuration = "") ||
           ContainsAny (bs_Bucket configuration +:+ bs_Region configuration) pathControl;
    let prefix := TrimByte "/" (bs_Prefix configuration) in
    refuse "S3 blob store prefix is invalid"
      when negb (bool_decide (prefix = bs_Prefix configuration)) || mem_byte "\" prefix ||
           (negb (bool_decide (prefix = "")) && (negb (bool_decide (Clean prefix = prefix)) || HasPrefix prefix "../"));
    if bool_decide (bs_Endpoint configuration = "") then Ok ()
    else
      _ ← validateHTTPURL (bs_Endpoint configuration);
      refuse "S3 blob endpoint must use HTTPS" when negb (secureEndpoint (bs_Endpoint configuration));
      refuse "S3 blob endpoint must not contain a path"
        when match ParseURL (bs_Endpoint configuration) with
             | Some parsed => negb (bool_decide (Path parsed = "")) && negb (bool_decide (Path parsed = "/"))
             | None => true
             end;
      Ok ()
  else Err "unsupported blob store type".

(** ** Hosts *)

Definition requireHostServesFormat (repository : Repository) : result () :=
  if Publish (Supports (host_Type (repo_Host repository)) (repo_Format repository)) then Ok ()
  else Err "host does not serve format".

Definition nonEmpty (s : string) : bool := negb (bool_decide (s = "")).

Definition validateLocalHost (repository : Repository) : result () :=
  let host := repo_Host repository in
  _ ← validateRelativePath (host_Path host);
  refuse "local host has S3-only configuration"
    when nonEmpty (host_Bucket host) || nonEmpty (host_Prefix host) || nonEmpty (host_Endpoint host) ||
         nonEmpty (host_ReadAuth host) || nonEmpty (host_CredentialBroker host) || nonEmpty (host_Repository host) ||
         nonEmpty (host_PreviewRepository host) || nonEmpty (host_PreviewEndpoint host) || nonEmpty (host_Branch host) ||
         nonEmpty (host_PreviewBranch host);
  if nonEmpty (host_CanonicalEndpoint host) then validateHTTPURL (host_CanonicalEndpoint host) else Ok ().

Definition rsyncTargetBytes : string := String " " (String "009" (String "013" (String "010" (String "000" "")))).

Definition validateRsyncHost (repository : Repository) : result () :=
  let host := repo_Host repository in
  _ ← requireHostServesFormat repository;
  refuse "rsync host requires an ssh target" when bool_decide (host_Target host = "");
  refuse "rsync host target is not a valid ssh destination" when ContainsAny (host_Target host) rsyncTargetBytes;
  refuse "rsync host path must be an absolute path below the filesystem root"
    when negb (HasPrefix (host_Path host) "/") || bool_decide (Clean (host_Path host) = "/");
  refuse "rsync host has configuration belonging to another host type"
    when nonEmpty (host_Bucket host) || nonEmpty (host_Prefix host) || nonEmpty (host_Repository host) ||
         nonEmpty (host_Branch host);
  refuse "rsync hosting supports public repositories only" when negb (bool_decide (repo_Visibility repository = "public"));
  if nonEmpty (host_CanonicalEndpoint host) then validateHTTPURL (host_CanonicalEndpoint host) else Ok ().

Definition validateS3Host (repository : Repository) : result () :=
  let host := repo_Host repository in
  _ ← requireHostServesFormat repository;
  refuse "private S3 hosting requires Basic read auth and a credential broker"
    when bool_decide (repo_Visibility repository = "private") &&
         (negb (bool_decide (host_ReadAuth host = "basic")) || negb (bool_decide (host_CredentialBroker host = "default")));
  refuse "public S3 hosting must not configure private read credentials"
    when bool_decide (repo_Visibility repository = "public") &&
         (nonEmpty (host_ReadAuth host) || nonEmpty (host_CredentialBroker host));
  refuse "S3 host requires bucket and canonical endpoint, without a local path"
    when nonEmpty (host_Path host) || bool_decide (host_Bucket host = "") ||
         bool_decide (host_CanonicalEndpoint host = "") || nonEmpty (host_Repository host) ||
         nonEmpty (host_PreviewRepository host) || nonEmpty (host_PreviewEndpoint host) || nonEmpty (host_Branch host) ||
         nonEmpty (host_PreviewBranch host);
  let prefix := TrimByte "/" (host_Prefix host) in
  refuse "invalid S3 prefix"
    when negb (bool_decide (prefix = host_Prefix host)) ||
         (nonEmpty prefix && (negb (bool_decide (Clean prefix = prefix)) || HasPrefix prefix "../"));
  _ ← validateHTTPURL (host_CanonicalEndpoint host);
  refuse "client endpoint must use HTTPS" when negb (secureEndpoint (host_CanonicalEndpoint host));
  if nonEmpty (host_Endpoint host) then
    _ ← validateHTTPURL (host_Endpoint host);
    refuse "S3 API endpoint must use HTTPS" when negb (secureEndpoint (host_Endpoint host));
    Ok ()
  else Ok ().

(** The canonical endpoint, then the preview's when one is configured. *)
Fixpoint validateEndpoints (endpoints : list string) : result () :=
  match endpoints with
  | [] => Ok ()
  | endpoint :: rest =>
      _ ← validateHTTPURL endpoint;
      refuse "endpoint must use HTTPS" when negb (secureEndpoint endpoint);
      validateEndpoints rest
  end.

Definition configuredPreview (host : HostConfig) : bool :=
  nonEmpty (host_PreviewRepository host) || nonEmpty (host_PreviewBranch host) || nonEmpty (host_PreviewEndpoint host).

Definition validatePreview (host : HostConfig) : result () :=
  refuse "GitHub Pages host requires distinct production and preview owner/name repositories"
    when negb (validGitHubRepository (host_PreviewRepository host)) ||
         EqualFold (host_Repository host) (host_PreviewRepository host);
  refuse "GitHub Pages production and preview endpoints must be distinct"
    when sameConfiguredEndpoint (host_CanonicalEndpoint host) (host_PreviewEndpoint host);
  refuse "GitHub Pages host has an invalid branch" when negb (validGitBranch (host_PreviewBranch host));
  Ok ().

Definition validatePagesHost (repository : Repository) : result () :=
  let host := repo_Host repository in
  _ ← requireHostServesFormat repository;
  refuse "GitHub Pages currently supports public repositories only"
    when negb (bool_decide (repo_Visibility repository = "public"));
  refuse "GitHub Pages host has incompatible configuration"
    when nonEmpty (host_Path host) || nonEmpty (host_Bucket host) || nonEmpty (host_Prefix host) ||
         nonEmpty (host_Region host) || nonEmpty (host_Endpoint host) || host_UsePathStyle host ||
         nonEmpty (host_ReadAuth host) || nonEmpty (host_CredentialBroker host);
  refuse "GitHub Pages host requires an owner/name production repository"
    when negb (validGitHubRepository (host_Repository host));
  refuse "GitHub Pages host has an invalid branch" when negb (validGitBranch (host_Branch host));
  refuse "gate reviews a preview, so a companion preview repository is required"
    when negb (configuredPreview host) && negb (bool_decide (repo_Gate repository = "auto")) && nonEmpty (repo_Gate repository);
  if configuredPreview host then
    _ ← validatePreview host;
    validateEndpoints [host_CanonicalEndpoint host; host_PreviewEndpoint host]
  else validateEndpoints [host_CanonicalEndpoint host].

Definition validateRepositoryHost (repository : Repository) : result () :=
  refuse "keep is not a number of publications" when repo_Keep repository <? 0;
  refuse "invalid visibility"
    when negb (bool_decide (repo_Visibility repository = "public")) && negb (bool_decide (repo_Visibility repository = "private"));
  let type := host_Type (repo_Host repository) in
  if bool_decide (type = "local") then validateLocalHost repository
  else if bool_decide (type = "rsync") then validateRsyncHost repository
  else if bool_decide (type = "s3") then validateS3Host repository
  else if bool_decide (type = "github-pages") then validatePagesHost repository
  else Err "unsupported host type".

(** ** Signing *)

Definition validateSigningKey (workspaceID name : string) (key : SigningKey) : result () :=
  let apk := bool_decide (key_Algorithm key = "apk-rsa4096") in
  let binaryPath := PathJoin ["keys"; name +:+ (if apk then ".rsa.pub" else ".gpg")] in
  let armorPath := if apk then binaryPath else PathJoin ["keys"; name +:+ ".asc"] in
  refuse "signing key has invalid identity or public forms"
    when negb (MatchFull identifierPattern name) ||
         (negb (bool_decide (key_Algorithm key = "openpgp-rsa4096")) && negb apk) ||
         negb (bool_decide (key_Usage key = "sign")) || negb (MatchFull fingerprintPattern (key_Fingerprint key)) ||
         negb (ValidSHA256 (key_PublicKeySHA256 key)) || negb (ValidSHA256 (key_PublicArmorSHA256 key)) ||
         negb (bool_decide (key_PublicKeyPath key = binaryPath)) || negb (bool_decide (key_PublicArmorPath key = armorPath)) ||
         negb (bool_decide (ref_Backend (key_Ref key) = "file")) ||
         negb (bool_decide (ref_ID (key_Ref key) = workspaceID +:+ "/" +:+ name));
  match ParseRFC3339 (key_CreatedAt key), ParseRFC3339 (key_ExpiresAt key) with
  | Some createdAt, Some expiresAt =>
      refuse "signing key has invalid validity" when negb (createdAt <? expiresAt); Ok ()
  | _, _ => Err "signing key has invalid validity"
  end.

(** The loop over the keys, [fingerprints] being those already seen. *)
Fixpoint validateKeys (workspaceID : string) (fingerprints : gset string) (keys : list (string * SigningKey)) : result () :=
  match keys with
  | [] => Ok ()
  | (name, key) :: rest =>
      _ ← validateSigningKey workspaceID name key;
      refuse "signing keys have the same fingerprint" when bool_decide (key_Fingerprint key ∈ fingerprints);
      validateKeys workspaceID ({[key_Fingerprint key]} ∪ fingerprints) rest
  end.

Definition validateSigningKeys (manifest : Manifest) : result () :=
  validateKeys (ws_ID (man_Workspace manifest)) ∅ (map_to_list (man_Keys manifest)).

Definition validateRotation (active : string) (keys : gmap string SigningKey) (rotation : SigningRotation) : result () :=
  refuse "invalid signing rotation"
    when bool_decide (SuccessorKey rotation = active) ||
         (negb (bool_decide (Phase rotation = "introducing")) && negb (bool_decide (Phase rotation = "activated"))) ||
         (MinimumRefreshSeconds rotation <? MinimumSigningRefreshSeconds);
  refuse "rotation references unknown successor key" when bool_decide (keys !! SuccessorKey rotation = None);
  Ok ().

(** With exactly one key the loop over the keys runs once, from an empty name. *)
Definition validateRepositorySigning (repository : Repository) (keys : gmap string SigningKey) : result () :=
  match repo_SigningKeys repository with
  | [] =>
      refuse "repository has signing trust without an active key"
        when nonEmpty (repo_SigningKeyring repository) || negb (bool_decide (repo_SigningRotation repository = None));
      Ok ()
  | signingKeys =>
      selected ← For (repo_Format repository);
      refuse "snailmail does not produce repository signatures for the format" when negb (ImplementsSigning selected);
      match signingKeys with
      | [signingKey] =>
          match keys !! signingKey with
          | None => Err "repository references unknown signing key"
          | Some configured =>
              refuse "clients verify another key algorithm"
                when negb (bool_decide (key_Algorithm configured = SigningAlgorithm selected));
              refuse "signing keys must be unique and sorted" when bool_decide (signingKey = "");
              refuse "invalid signing keyring path"
                when negb (is_ok (validateRelativePath (repo_SigningKeyring repository))) ||
                     negb (HasPrefix (repo_SigningKeyring repository) "keys/") ||
                     negb (HasSuffix (repo_SigningKeyring repository) ".gpg");
              match repo_SigningRotation repository with
              | Some rotation => validateRotation signingKey keys rotation
              | None => Ok ()
              end
          end
      | _ => Err "repository must have exactly one active signing key"
      end
  end.
End manifest.
