(* ===== verification/ManifestOps.v ===== *)
(** Loading, writing and extending the workspace manifest: [LoadManifest],
    [WriteManifest], [Setup] and the publication targets of
    [internal/state/store.go].

    The files [Setup] writes are a [WorkspaceFiles]; resolving a path inside the
    workspace (symbolic links) and writing the install document are parameters. *)

From S2P Require Import Prelude GoStrings GoSlices GoRegexp Model Formats Source Lock Forge PlanJson Manifest.

Open Scope Z_scope.

(** ** Publication targets *)

Definition publicationTargets (repository : Repository) : list string :=
  let host := repo_Host repository in
  if bool_decide (host_Type host = "s3") then
    ["s3 bucket " +:+ host_Bucket host +:+ " under prefix /" +:+ TrimByte "/" (host_Prefix host)]
  else if bool_decide (host_Type host = "rsync") then [host_Target host +:+ ":" +:+ host_Path host]
  else if bool_decide (host_Type host = "github-pages") then
    ("GitHub Pages branch " +:+ host_Branch host +:+ " of " +:+ host_Repository host) ::
    (if nonEmpty (host_PreviewRepository host)
     then ["GitHub Pages branch " +:+ host_PreviewBranch host +:+ " of " +:+ host_PreviewRepository host] else [])
  else ["directory " +:+ Clean (host_Path host)].

Definition targetsOverlap (l r : string) : bool :=
  if bool_decide (l = r) then true else HasPrefix l (r +:+ "/") || HasPrefix r (l +:+ "/").

Definition repositoriesOverlap (candidate existing : Repository) : bool :=
  existsb (λ target, existsb (targetsOverlap target) (publicationTargets existing)) (publicationTargets candidate).

Definition checkPublicationTargets (manifest : Manifest) (name : string) (candidate : Repository) : result () :=
  checkAll (λ existingName existing,
      if bool_decide (existingName = name) then Ok ()
      else if repositoriesOverlap candidate existing
      then Err "repository would publish where another repository already does" else Ok ())
    (map_to_list (man_Repositories manifest)).

Definition set_repositories (repositories : gmap string Repository) (manifest : Manifest) : Manifest :=
  mkManifest (man_SchemaVersion manifest) (man_Workspace manifest) (man_BlobStore manifest) (man_Keys manifest) repositories.

Definition set_track (track : string) (r : Repository) : Repository :=
  mkRepository (repo_Format r) (repo_Lock r) (repo_Host r) (repo_Visibility r) (repo_Gate r) (repo_ApprovalKeys r)
    (repo_SigningKeys r) (repo_SigningKeyring r) (repo_SigningRotation r) (repo_Keep r) track (repo_Suite r)
    (repo_Component r) (repo_Architectures r).
Definition set_keyring (keyring : string) (r : Repository) : Repository :=
  mkRepository (repo_Format r) (repo_Lock r) (repo_Host r) (repo_Visibility r) (repo_Gate r) (repo_ApprovalKeys r)
    (repo_SigningKeys r) keyring (repo_SigningRotation r) (repo_Keep r) (repo_Track r) (repo_Suite r)
    (repo_Component r) (repo_Architectures r).
Definition set_workspace_id (id : string) (w : Workspace) : Workspace :=
  mkWorkspace (ws_Name w) id (ws_Forge w) (ws_ForgeRepository w) (ws_ForgeHost w).

Definition localBlobStore : BlobStoreConfig := mkBlobStore "local" "" "" "" "" false.
Definition localHost (path : string) : HostConfig :=
  mkHost "local" path "" "" "" "" "" "" false "" "" "" "" "" "" "".

Section ops.
Context `{NetLib, TimeLib, HashLib, !ManifestLib}.

Definition legacyWorkspaceID (name : string) : string := SHA256Hex ("snailmail-workspace" +:+ nul +:+ name).

(** ** Writing *)

Definition checkWritten (manifest : Manifest) (name : string) (repository : Repository) : result () :=
  refuse "repository has invalid name or gate"
    when negb (MatchFull identifierPattern name) || negb (validGate (repo_Gate repository)) ||
         negb (MatchFull placementCoordinatePattern (repo_Track repository));
  _ ← validateRepositoryHost repository;
  _ ← validateGateConfiguration repository (ws_ForgeRepository (man_Workspace manifest));
  validateRepositorySigning repository (man_Keys manifest).

(** The manifest [WriteManifest] encodes: identity and blob store filled in. *)
Definition completeManifest (manifest : Manifest) : Manifest :=
  let workspace := man_Workspace manifest in
  let workspace := if bool_decide (ws_ID workspace = "")
                   then set_workspace_id (legacyWorkspaceID (ws_Name workspace)) workspace else workspace in
  let store := man_BlobStore manifest in
  let store := if bool_decide (bs_Type store = "")
               then mkBlobStore "local" (bs_Bucket store) (bs_Prefix store) (bs_Region store) (bs_Endpoint store) (bs_UsePathStyle store)
               else store in
  mkManifest ManifestSchema workspace store (man_Keys manifest) (man_Repositories manifest).

Definition checkManifest (manifest : Manifest) : result () :=
  refuse "invalid workspace name or identity"
    when negb (MatchFull identifierPattern (ws_Name (man_Workspace manifest))) ||
         negb (ValidSHA256 (ws_ID (man_Workspace manifest)));
  _ ← validateForgeIdentity (man_Workspace manifest);
  _ ← ValidateBlobStore (man_BlobStore manifest);
  validateSigningKeys manifest.

(** The bytes written to the manifest file. *)
Definition WriteManifest (manifest : Manifest) : result string :=
  let manifest := completeManifest manifest in
  _ ← checkManifest manifest;
  _ ← checkAll (checkWritten manifest) (map_to_list (man_Repositories manifest));
  MarshalManifest manifest.

(** ** Loading *)

Definition migrateLegacyManifest (legacy : legacyManifest) : Manifest :=
  let workspace := legacy_Workspace legacy in
  mkManifest ManifestSchema (set_workspace_id (legacyWorkspaceID (ws_Name workspace)) workspace) localBlobStore ∅
    ((λ r, mkRepository (legacy_Format r) (legacy_Lock r) (localHost (legacy_Output r)) "public" (legacy_Gate r) [] []
             "" None 0 "" (legacy_Suite r) (legacy_Component r) (legacy_Architectures r)) <$> legacy_Repositories legacy).

Definition defaultKeyring (keys : gmap string SigningKey) (r : Repository) : Repository :=
  match repo_SigningKeys r with
  | [key] =>
      if bool_decide (repo_SigningKeyring r = "")
      then set_keyring (match keys !! key with Some k => key_PublicKeyPath k | None => "" end) r else r
  | _ => r
  end.

(** What the schemas 2 to 6 lack, filled in. *)
Definition upgradeManifest (schema : Z) (manifest : Manifest) : Manifest :=
  if bool_decide (schema ∈ [2; 3; 4; 5; 6]) then
    let workspace := man_Workspace manifest in
    let workspace := if schema =? 2 then set_workspace_id (legacyWorkspaceID (ws_Name workspace)) workspace else workspace in
    let store := if schema =? 2 then localBlobStore else man_BlobStore manifest in
    let repositories := if schema =? 5 then defaultKeyring (man_Keys manifest) <$> man_Repositories manifest
                        else man_Repositories manifest in
    mkManifest ManifestSchema workspace store (man_Keys manifest) repositories
  else manifest.

Definition defaultTracks (schema : Z) (manifest : Manifest) : Manifest :=
  if schema <? ManifestSchema
  then set_repositories
         ((λ r, if bool_decide (repo_Track r = "") then set_track "stable" r else r) <$> man_Repositories manifest) manifest
  else manifest.

Definition checkLoaded (manifest : Manifest) (name : string) (repository : Repository) : result () :=
  refuse "invalid repository name" when negb (MatchFull identifierPattern name);
  refuse "repository has unsupported format" when negb (Supported (repo_Format repository));
  refuse "repository has invalid rendered track"
    when negb (MatchFull placementCoordinatePattern (repo_Track repository));
  refuse "repository has invalid gate" when negb (validGate (repo_Gate repository));
  _ ← validateGateConfiguration repository (ws_ForgeRepository (man_Workspace manifest));
  _ ← validateRelativePath (repo_Lock repository);
  _ ← validateRepositoryHost repository;
  validateRepositorySigning repository (man_Keys manifest).

Definition LoadManifest (content : string) : result Manifest :=
  schema ← UnmarshalHeader content;
  manifest ← (if schema =? 1 then legacy ← UnmarshalLegacy content; Ok (migrateLegacyManifest legacy)
              else manifest ← UnmarshalManifest content; Ok (upgradeManifest schema manifest));
  let manifest := defaultTracks schema manifest in
  refuse "invalid workspace manifest schema or name" when negb (man_SchemaVersion manifest =? ManifestSchema);
  _ ← checkManifest manifest;
  _ ← checkAll (checkLoaded manifest) (map_to_list (man_Repositories manifest));
  Ok manifest.

(** ** Setup *)

Record SetupOptions := mkSetup {
  opt_Name : string; opt_Format : string; opt_Output : string; opt_HostType : string; opt_Gate : string;
  opt_ApprovalKeys : list string; opt_SigningKeys : list string; opt_AllowUnsigned : bool; opt_Keep : Z;
  opt_Track : string; opt_Visibility : string; opt_Target : string; opt_Bucket : string; opt_Prefix : string;
  opt_Region : string; opt_Endpoint : string; opt_CanonicalEndpoint : string; opt_UsePathStyle : bool;
  opt_ReadAuth : string; opt_CredentialBroker : string; opt_Repository : string; opt_Branch : string;
  opt_PreviewRepository : string; opt_PreviewBranch : string; opt_PreviewEndpoint : string; opt_Suite : string;
  opt_Component : string; opt_Architectures : list string;
}.

Definition orElse (value fallback : string) : string := if bool_decide (value = "") then fallback else value.

(** The repository [Setup] assembles, before the format's own fields. *)
Definition setupHost (o : SetupOptions) : HostConfig :=
  let type := orElse (opt_HostType o) "local" in
  let pages := bool_decide (type = "github-pages") in
  mkHost type (opt_Output o) (opt_Target o) (opt_Bucket o) (opt_Prefix o) (opt_Region o) (opt_Endpoint o)
    (opt_CanonicalEndpoint o) (opt_UsePathStyle o) (opt_ReadAuth o) (opt_CredentialBroker o) (opt_Repository o)
    (if pages then orElse (opt_Branch o) "gh-pages" else opt_Branch o)
    (opt_PreviewRepository o)
    (if pages && nonEmpty (opt_PreviewRepository o) then orElse (opt_PreviewBranch o) "gh-pages" else opt_PreviewBranch o)
    (opt_PreviewEndpoint o).

Definition setupRepository (o : SetupOptions) : Repository :=
  mkRepository (opt_Format o) (PathJoin ["repos"; opt_Name o +:+ ".lock.toml"]) (setupHost o)
    (orElse (opt_Visibility o) "public") (orElse (opt_Gate o) "auto") (opt_ApprovalKeys o) (opt_SigningKeys o)
    "" None (opt_Keep o) (orElse (opt_Track o) "stable") "" "" [].

(** The fields of Alpine and Debian repositories, and the keyring of a signed one. *)
Definition setupFormat (o : SetupOptions) (r : Repository) : Repository :=
  let deb := bool_decide (opt_Format o = "deb") in
  let architectures :=
    if bool_decide (opt_Format o = "apk") then opt_Architectures o
    else if deb then (if bool_decide (opt_Architectures o = []) then ["amd64"] else opt_Architectures o) else [] in
  let keyring := if (length (repo_SigningKeys r) =? 1)%nat
                 then PathJoin ["keys"; opt_Name o +:+ "-archive-keyring.gpg"] else "" in
  mkRepository (repo_Format r) (repo_Lock r) (repo_Host r) (repo_Visibility r) (repo_Gate r) (repo_ApprovalKeys r)
    (repo_SigningKeys r) keyring None (repo_Keep r) (repo_Track r)
    (if deb then orElse (opt_Suite o) "stable" else "") (if deb then orElse (opt_Component o) "main" else "") architectures.

(** The manifest file and, by path, the lock files. *)
Record WorkspaceFiles := mkWorkspaceFiles {
  wf_Manifest : string;
  wf_Locks : gmap string RepositoryLock;
}.

(** What [Setup] checks before it writes anything; [workspacePath] resolves a path
    inside the workspace. *)
Definition setupChecks (workspacePath : string → result ()) (files : WorkspaceFiles) (o : SetupOptions)
    : result (Manifest * Repository) :=
  _ ← ValidateRepositoryName (opt_Name o);
  refuse "unsupported repository format" when negb (Supported (opt_Format o));
  manifest ← LoadManifest (wf_Manifest files);
  selected ← For (opt_Format o);
  refuse "a new repository requires a signing key or explicit unsigned opt-out"
    when ImplementsSigning selected && bool_decide (opt_SigningKeys o = []) && negb (opt_AllowUnsigned o);
  refuse "repository already exists" when negb (bool_decide (man_Repositories manifest !! opt_Name o = None));
  let repository := setupRepository o in
  _ ← checkPublicationTargets manifest (opt_Name o) repository;
  _ ← validateRepositoryHost repository;
  _ ← validateGateConfiguration repository (ws_ForgeRepository (man_Workspace manifest));
  let repository := setupFormat o repository in
  _ ← validateRepositorySigning repository (man_Keys manifest);
  _ ← workspacePath (repo_Lock repository);
  refuse "refusing to overwrite existing lock" when negb (bool_decide (wf_Locks files !! repo_Lock repository = None));
  _ ← (if bool_decide (host_Type (repo_Host repository) = "local") then workspacePath (host_Path (repo_Host repository)) else Ok ());
  Ok (manifest, repository).

(** [installDocument] is the writing of the install document. *)
Definition Setup (workspacePath : string → result ()) (installDocument : string → Repository → result ())
    (files : WorkspaceFiles) (o : SetupOptions) : WorkspaceFiles * result () :=
  match setupChecks workspacePath files o with
  | Err e => (files, Err e)
  | Ok (manifest, repository) =>
      let locks := <[repo_Lock repository := mkLock LockSchema (opt_Name o) [] []]> (wf_Locks files) in
      let files := mkWorkspaceFiles (wf_Manifest files) locks in
      match
        _ ← installDocument (opt_Name o) repository;
        WriteManifest (set_repositories (<[opt_Name o := repository]> (man_Repositories manifest)) manifest)
      with
      | Err e => (files, Err e)
      | Ok encoded => (mkWorkspaceFiles encoded locks, Ok ())
      end
  end.
End ops.
