(* ===== verification/ManifestProofs.v ===== *)
(** The manifest reads back what it wrote, paths stay in the workspace, and no two
    repositories set up through it publish to overlapping directories.  The file
    also records where the overlap check falls short. *)

From S2P Require Import Prelude GoStrings GoSlices GoRegexp Model Formats Source Lock Forge PlanJson Manifest ManifestOps.

Open Scope Z_scope.

(** ** Checks over a map *)

Lemma checkAll_spec {A} (check : string → A → result ()) entries :
  checkAll check entries = Ok () ↔ Forall (λ e, check e.1 e.2 = Ok ()) entries.
Proof.
  induction entries as [|[name a] entries IH]; cbn [checkAll]; [by split|].
  rewrite Forall_cons. cbn [fst snd]. destruct (check name a) as [[]|]; cbn [mbind result_bind].
  - rewrite IH. tauto.
  - split; [done|by intros [? _]].
Qed.

Lemma checkAll_map {A} (check : string → A → result ()) (m : gmap string A) :
  checkAll check (map_to_list m) = Ok () ↔ map_Forall (λ name a, check name a = Ok ()) m.
Proof.
  rewrite checkAll_spec, map_Forall_to_list. split; intros H; eapply Forall_impl; try exact H; by intros [].
Qed.

(** ** Paths stay in the workspace *)

(** A component that names an entry of the directory it is in. *)
Definition plain_component (c : string) : Prop := c ≠ "" ∧ c ≠ "." ∧ c ≠ ".." ∧ mem_byte "/" c = false.

Lemma Split_no_slash s c : c ∈ Split "/" s → mem_byte "/" c = false.
Proof.
  revert c; induction s as [|x s IH]; intros c; cbn [Split].
  { by intros ->%list_elem_of_singleton. }
  destruct (ascii_eqb x "/") eqn:E.
  - intros [->|Hc]%elem_of_cons; [done|by apply IH].
  - destruct (Split "/" s) as [|h t] eqn:Es.
    + intros ->%list_elem_of_singleton. cbn [mem_byte]. by rewrite E.
    + intros [->|Hc]%elem_of_cons; [|apply IH; by right].
      cbn [mem_byte]. rewrite E. apply IH. by left.
Qed.

(** The stack of a relative path: plain components above a run of parents. *)
Lemma clean_stack components :
  Forall (λ c, mem_byte "/" c = false) components →
  ∃ plain n, foldl (clean_push false) [] components = plain ++ replicate n ".." ∧ Forall plain_component plain.
Proof.
  assert (∀ stack, (∃ plain n, stack = plain ++ replicate n ".." ∧ Forall plain_component plain) →
    Forall (λ c, mem_byte "/" c = false) components →
    ∃ plain n, foldl (clean_push false) stack components = plain ++ replicate n ".." ∧ Forall plain_component plain) as Hgen.
  { induction components as [|c components IH]; intros stack (plain & n & -> & Hp) Hc; [by exists plain, n|].
    apply Forall_cons in Hc as [Hs Hc]. cbn [foldl]. apply IH; [|done]. unfold clean_push.
    case_bool_decide as E1; [by exists plain, n|]. case_bool_decide as E2; [by exists plain, n|]. cbn [orb].
    case_bool_decide as E3; [|exists (c :: plain), n; split; [done|by constructor]].
    destruct plain as [|p plain].
    - destruct n as [|n]; cbn [replicate app]; [by exists [], 1%nat|].
      rewrite bool_decide_eq_true_2 by done. by exists [], (S (S n)).
    - apply Forall_cons in Hp as [(? & ? & Hp & ?) Hps]. cbn [app]. rewrite bool_decide_eq_false_2 by done.
      by exists plain, n. }
  apply Hgen. exists [], 0%nat. split; [done|constructor].
Qed.

Lemma HasPrefix_app s t : HasPrefix (s +:+ t) s = true.
Proof. induction s as [|c s IH]; [by destruct t|]. rewrite str_app_cons. cbn [HasPrefix]. by rewrite ascii_eqb_refl, IH. Qed.

(** A path the manifest accepts stays below the workspace: it cleans to one or
    more plain components, none of them a parent, so joining it to the root can
    never leave the root. *)
Theorem relative_path_contained name :
  validateRelativePath name = Ok () →
  ∃ components, components ≠ [] ∧ Forall plain_component components ∧ Clean name = Join components "/".
Proof.
  unfold validateRelativePath. destruct (_ || _) eqn:E1; [done|]. destruct (ContainsAny _ _); [done|].
  cbn zeta. destruct (_ || _ || _) eqn:E2; [done|]. intros _.
  apply orb_false_iff in E1 as [_ Hrel]. apply orb_false_iff in E2 as [[Hd Hdd]%orb_false_iff Hup].
  apply bool_decide_eq_false in Hd, Hdd. unfold Clean in *. rewrite Hrel in *.
  destruct (clean_stack (Split "/" name)) as (plain & n & Hs & Hp).
  { apply Forall_forall. intros c. apply Split_no_slash. }
  rewrite Hs, reverse_app, reverse_replicate in *.
  destruct n as [|n]; cbn [replicate app] in *.
  - exists (reverse plain). case_bool_decide as Ej; [done|].
    split; [by intros E; rewrite E in Ej|]. split; [by apply Forall_reverse|done].
  - exfalso. destruct (replicate n ".." ++ reverse plain) as [|c rest] eqn:Er; [done|].
    rewrite bool_decide_eq_false_2 in Hup by done.
    pose proof (HasPrefix_app "../" (Join (c :: rest) "/")) as Hx.
    assert (true = false) as E by (rewrite <- Hx; exact Hup). done.
Qed.

Lemma relative_path_contained_witness :
  ∃ components, components ≠ [] ∧ Forall plain_component components ∧ Clean "repos//a/../apt.lock.toml" = Join components "/".
Proof. apply relative_path_contained. vm_compute. reflexivity. Defined.

(** ** Publication targets *)

Lemma HasPrefix_spec s p : HasPrefix s p = true ↔ ∃ t, s = p +:+ t.
Proof.
  split; [|intros [t ->]; apply HasPrefix_app].
  revert s; induction p as [|c p IH]; intros s; [by exists s|]. destruct s as [|x s]; cbn [HasPrefix]; [done|].
  intros [->%ascii_eqb_eq [t ->]%IH]%andb_true_iff. exists t. done.
Qed.

Lemma str_app_inj_l p s t : p +:+ s = p +:+ t ↔ s = t.
Proof.
  split; [|by intros ->]. induction p as [|c p IH]; [done|]. rewrite !str_app_cons.
  intros E. injection E as E. by apply IH.
Qed.

Lemma Split_ne s : Split "/" s ≠ [].
Proof.
  destruct s as [|c s]; cbn [Split]; [done|]. destruct (ascii_eqb c "/"); [done|]. by destruct (Split "/" s).
Qed.

Lemma Split_app s t : Split "/" (s +:+ String "/" t) = Split "/" s ++ Split "/" t.
Proof.
  induction s as [|c s IH]; [done|]. rewrite str_app_cons. cbn [Split]. rewrite IH.
  destruct (ascii_eqb c "/"); [done|]. pose proof (Split_ne s). by destruct (Split "/" s).
Qed.

Lemma Join_Split s : Join (Split "/" s) "/" = s.
Proof.
  induction s as [|c s IH]; [done|]. cbn [Split].
  destruct (Split "/" s) as [|h t] eqn:E; [by apply Split_ne in E|]. destruct (ascii_eqb c "/") eqn:Ec.
  - apply ascii_eqb_eq in Ec as ->. change (Join ("" :: h :: t) "/") with ("" +:+ "/" +:+ Join (h :: t) "/").
    by rewrite IH.
  - destruct t as [|x t]; cbn [Join] in *; by rewrite <- IH.
Qed.

Lemma Join_app l k : l ≠ [] → k ≠ [] → Join (l ++ k) "/" = Join l "/" +:+ "/" +:+ Join k "/".
Proof.
  intros Hl Hk. induction l as [|x l IH]; [done|]. destruct l as [|y l]; cbn [app].
  - by destruct k.
  - change (Join (x :: y :: l ++ k) "/") with (x +:+ "/" +:+ Join (y :: l ++ k) "/").
    cbn [app] in IH. rewrite IH by done. change (Join (x :: y :: l) "/") with (x +:+ "/" +:+ Join (y :: l) "/").
    by rewrite !str_app_assoc.
Qed.

(** Nesting of slash-separated paths, as the check tests it and as it is meant. *)
Lemma nested_spec a b : HasPrefix a (b +:+ "/") = true ↔ ∃ k, k ≠ [] ∧ Split "/" a = Split "/" b ++ k.
Proof.
  rewrite HasPrefix_spec. split.
  - intros [t ->]. exists (Split "/" t). split; [apply Split_ne|].
    rewrite str_app_assoc. apply Split_app.
  - intros (k & Hk & E). exists (Join k "/").
    rewrite <- (Join_Split a), E, Join_app by (done || apply Split_ne). by rewrite Join_Split, str_app_assoc.
Qed.

Lemma targetsOverlap_prefixed p a b :
  targetsOverlap (p +:+ a) (p +:+ b) = targetsOverlap a b.
Proof.
  unfold targetsOverlap. rewrite (bool_decide_ext _ _ (str_app_inj_l p a b)).
  assert (∀ x y, HasPrefix (p +:+ x) ((p +:+ y) +:+ "/") = HasPrefix x (y +:+ "/")) as Hp.
  { intros x y. rewrite str_app_assoc. induction p as [|c p IH]; [done|].
    rewrite !str_app_cons. cbn [HasPrefix]. by rewrite ascii_eqb_refl. }
  by rewrite !Hp.
Qed.

Lemma targetsOverlap_nested a b :
  targetsOverlap a b = true ↔ Split "/" a `prefix_of` Split "/" b ∨ Split "/" b `prefix_of` Split "/" a.
Proof.
  unfold targetsOverlap. case_bool_decide as E; [subst; split; [by left|done]|].
  rewrite orb_true_iff, !nested_spec. split.
  - intros [(k & _ & ->)|(k & _ & ->)]; [right|left]; by exists k.
  - intros [[k Hk]|[k Hk]]; [right|left]; exists k; (split; [|done]); intros ->;
      rewrite (right_id_L [] (++)) in Hk; apply E; by rewrite <- (Join_Split a), <- (Join_Split b), Hk.
Qed.

Lemma targetsOverlap_sym a b : targetsOverlap a b = targetsOverlap b a.
Proof. apply Bool.eq_iff_eq_true. rewrite !targetsOverlap_nested. tauto. Qed.

Lemma repositoriesOverlap_sym r s : repositoriesOverlap r s = repositoriesOverlap s r.
Proof.
  apply Bool.eq_iff_eq_true. unfold repositoriesOverlap. rewrite !existsb_spec.
  split; intros (t & Ht & (o & Ho & E)%existsb_spec); exists o; (split; [done|]); apply existsb_spec;
    exists t; (split; [done|]); by rewrite targetsOverlap_sym.
Qed.

(** For local repositories the overlap check is exact: two directories overlap
    exactly when the components of one cleaned path begin the components of the
    other, so a repository is refused exactly when it would publish over, into or
    around another. *)
Theorem local_targets_exact r s :
  host_Type (repo_Host r) = "local" → host_Type (repo_Host s) = "local" →
  let a := Split "/" (Clean (host_Path (repo_Host r))) in
  let b := Split "/" (Clean (host_Path (repo_Host s))) in
  repositoriesOverlap r s = true ↔ a `prefix_of` b ∨ b `prefix_of` a.
Proof.
  intros Hr Hs. cbn zeta.
  assert (∀ x, host_Type (repo_Host x) = "local" →
    publicationTargets x = ["directory " +:+ Clean (host_Path (repo_Host x))]) as Ht.
  { intros x Hx. unfold publicationTargets. by rewrite Hx. }
  unfold repositoriesOverlap. rewrite (Ht r Hr), (Ht s Hs). cbn [existsb]. rewrite !orb_false_r.
  rewrite targetsOverlap_prefixed. apply targetsOverlap_nested.
Qed.

Definition localRepository (path : string) : Repository :=
  mkRepository "raw" "repos/x.lock.toml" (localHost path) "public" "auto" [] [] "" None 0 "stable" "" "" [].

Lemma local_targets_exact_witness :
  repositoriesOverlap (localRepository "site") (localRepository "site/./apt/") = true ↔
  Split "/" (Clean "site") `prefix_of` Split "/" (Clean "site/./apt/") ∨
  Split "/" (Clean "site/./apt/") `prefix_of` Split "/" (Clean "site").
Proof. apply (local_targets_exact (localRepository "site") (localRepository "site/./apt/")); reflexivity. Defined.

(** ** Writing, loading and setting up *)

Section setup.
Context `{NetLib, TimeLib, HashLib, !ManifestLib}.

(** TOML decodes the manifests it encodes. *)
Class ManifestLaws : Prop := {
  manifest_header m c : MarshalManifest m = Ok c → UnmarshalHeader c = Ok (man_SchemaVersion m);
  manifest_decode m c : MarshalManifest m = Ok c → UnmarshalManifest c = Ok m;
}.

(** What only loading checks of a repository. *)
Definition loadable (manifest : Manifest) : Prop :=
  map_Forall (λ _ r, Supported (repo_Format r) = true ∧ validateRelativePath (repo_Lock r) = Ok ()) (man_Repositories manifest).

Lemma checkWritten_loaded manifest name r :
  Supported (repo_Format r) = true → validateRelativePath (repo_Lock r) = Ok () →
  checkWritten manifest name r = Ok () → checkLoaded manifest name r = Ok ().
Proof.
  intros Hs Hl. unfold checkWritten, checkLoaded. rewrite Hs, Hl. destruct (_ || _) eqn:E; [done|]. split_bools.
  rewrite !(proj2 (negb_false_iff _)) by done. cbn [negb].
  destruct (validateRepositoryHost r) as [[]|]; cbn [mbind result_bind]; [|done].
  by destruct (validateGateConfiguration _ _) as [[]|].
Qed.

Lemma WriteManifest_load `{!ManifestLaws} manifest content :
  loadable manifest → WriteManifest manifest = Ok content → LoadManifest content = Ok (completeManifest manifest).
Proof.
  intros Hload. unfold WriteManifest. destruct (checkManifest _) as [[]|] eqn:Ec; cbn [mbind result_bind]; [|done].
  destruct (checkAll _ _) as [[]|] eqn:Ea; cbn [mbind result_bind]; [|done]. intros Hm.
  unfold LoadManifest. rewrite (manifest_header _ _ Hm). cbn [mbind result_bind].
  change (man_SchemaVersion (completeManifest manifest)) with ManifestSchema. change (ManifestSchema =? 1) with false. cbv iota. rewrite (manifest_decode _ _ Hm). cbn [mbind result_bind].
  change (upgradeManifest ManifestSchema (completeManifest manifest)) with (completeManifest manifest).
  change (defaultTracks ManifestSchema (completeManifest manifest)) with (completeManifest manifest).
  change (man_SchemaVersion (completeManifest manifest)) with ManifestSchema.
  change (negb (ManifestSchema =? ManifestSchema)) with false. cbv iota.
  rewrite Ec. cbn [mbind result_bind].
  assert (checkAll (checkLoaded (completeManifest manifest)) (map_to_list (man_Repositories (completeManifest manifest))) = Ok ()) as Hall;
    [|by rewrite Hall].
  apply checkAll_map. apply checkAll_map in Ea. intros name r Hr.
  destruct (Hload name r Hr) as [? ?]. apply checkWritten_loaded; [done..|]. by apply Ea.
Qed.

Lemma LoadManifest_loadable content manifest : LoadManifest content = Ok manifest → loadable manifest.
Proof.
  unfold LoadManifest. destruct (UnmarshalHeader content) as [schema|]; cbn [mbind result_bind]; [|done].
  destruct (if schema =? 1 then _ else _) as [m|]; cbn [mbind result_bind]; [|done].
  destruct (negb _); [done|]. destruct (checkManifest _); cbn [mbind result_bind]; [|done].
  destruct (checkAll _ _) as [[]|] eqn:Ea; cbn [mbind result_bind]; [|done]. intros [= <-].
  apply checkAll_map in Ea. intros name r Hr. specialize (Ea name r Hr). cbn beta in Ea. revert Ea. unfold checkLoaded.
  destruct (negb (MatchFull identifierPattern _)); [done|]. destruct (Supported _) eqn:Es; cbn [negb]; [|done].
  destruct (negb _); [done|]. destruct (negb _); [done|].
  destruct (validateGateConfiguration _ _); cbn [mbind result_bind]; [|done].
  by destruct (validateRelativePath _) as [[]|] eqn:El.
Qed.

(** No two repositories of the manifest publish to overlapping targets. *)
Definition disjoint_targets (manifest : Manifest) : Prop :=
  ∀ n m r s, n ≠ m → man_Repositories manifest !! n = Some r → man_Repositories manifest !! m = Some s →
    repositoriesOverlap r s = false.

Lemma checkPublicationTargets_spec manifest name candidate :
  checkPublicationTargets manifest name candidate = Ok () ↔
  ∀ m s, m ≠ name → man_Repositories manifest !! m = Some s → repositoriesOverlap candidate s = false.
Proof.
  unfold checkPublicationTargets. rewrite checkAll_map. split.
  - intros Hc m s Hne Hm. specialize (Hc m s Hm). cbn beta in Hc. rewrite bool_decide_eq_false_2 in Hc by done.
    by destruct (repositoriesOverlap candidate s).
  - intros Hc m s Hm. cbn beta. case_bool_decide as E; [done|]. by rewrite (Hc m s).
Qed.

(** The checks of [Setup], step by step. *)
Lemma setupChecks_ok workspacePath files o manifest repository :
  setupChecks workspacePath files o = Ok (manifest, repository) →
  repository = setupFormat o (setupRepository o) ∧ LoadManifest (wf_Manifest files) = Ok manifest ∧
  Supported (opt_Format o) = true ∧ MatchFull identifierPattern (opt_Name o) = true ∧
  man_Repositories manifest !! opt_Name o = None ∧
  checkPublicationTargets manifest (opt_Name o) (setupRepository o) = Ok () ∧
  wf_Locks files !! repo_Lock repository = None.
Proof.
  unfold setupChecks, ValidateRepositoryName. cbn zeta.
  destruct (MatchFull identifierPattern (opt_Name o)) eqn:E1; cbn [negb mbind result_bind]; [|done].
  destruct (Supported (opt_Format o)) eqn:E2; cbn [negb]; [|done].
  destruct (LoadManifest (wf_Manifest files)) as [m|] eqn:E3; cbn [mbind result_bind]; [|done].
  destruct (For (opt_Format o)) as [selected|]; cbn [mbind result_bind]; [|done]. destruct (_ && negb _); [done|].
  destruct (bool_decide (man_Repositories m !! opt_Name o = None)) eqn:E4; cbn [negb]; [|done].
  destruct (checkPublicationTargets _ _ _) as [[]|] eqn:E5; cbn [mbind result_bind]; [|done].
  destruct (validateRepositoryHost _); cbn [mbind result_bind]; [|done].
  destruct (validateGateConfiguration _ _); cbn [mbind result_bind]; [|done].
  destruct (validateRepositorySigning _ _); cbn [mbind result_bind]; [|done].
  destruct (workspacePath (repo_Lock _)); cbn [mbind result_bind]; [|done].
  destruct (bool_decide (wf_Locks files !! _ = None)) eqn:E6; cbn [negb]; [|done].
  destruct (if bool_decide (host_Type _ = "local") then _ else _); cbn [mbind result_bind]; [|done].
  intros [= <- <-]. apply bool_decide_eq_true in E4, E6. done.
Qed.

(** A successful [Setup], step by step. *)
Lemma Setup_ok workspacePath installDocument files o files' :
  Setup workspacePath installDocument files o = (files', Ok ()) →
  ∃ manifest repository, setupChecks workspacePath files o = Ok (manifest, repository) ∧
    wf_Locks files' = <[repo_Lock repository := mkLock LockSchema (opt_Name o) [] []]> (wf_Locks files) ∧
    WriteManifest (set_repositories (<[opt_Name o := repository]> (man_Repositories manifest)) manifest) = Ok (wf_Manifest files').
Proof.
  unfold Setup. destruct (setupChecks _ _ _) as [[manifest repository]|]; [|done]. cbn zeta.
  destruct (installDocument _ _); cbn [mbind result_bind]; [|done].
  destruct (WriteManifest _) as [encoded|] eqn:E7; [|done]. intros [= <-]. by exists manifest, repository.
Qed.

Lemma ContainsAny_none s chars (p : ascii → bool) :
  (∀ c, p c = true → mem_byte c chars = false) → all_bytes p s = true → ContainsAny s chars = false.
Proof.
  unfold ContainsAny. intros Hp Hs. apply negb_false_iff. revert Hs. apply all_bytes_impl.
  intros c Hc. by rewrite (Hp c Hc).
Qed.

Lemma setupLock_relative name :
  MatchFull identifierPattern name = true → validateRelativePath (PathJoin ["repos"; name +:+ ".lock.toml"]) = Ok ().
Proof.
  intros Hn. assert (all_bytes is_identifier_byte name = true) as Hb.
  { unfold identifierPattern in Hn. destruct name as [|c name]; [done|].
    rewrite MatchFull_chr_star in Hn. apply andb_true_iff in Hn as [Hc Hn]. cbn [all_bytes]. rewrite Hn, andb_true_r.
    unfold is_identifier_byte. by rewrite Hc. }
  set (file := name +:+ ".lock.toml").
  assert (file ≠ "") as Hne by (unfold file; by destruct name).
  assert (mem_byte "/" file = false) as Hs.
  { unfold file. by rewrite mem_byte_app, (all_bytes_mem _ "/" _ eq_refl Hb). }
  assert (String.length file ≥ 10)%nat as Hlen by (unfold file; rewrite str_length_app; simpl; lia).
  assert (Clean ("repos" +:+ "/" +:+ file) = "repos" +:+ "/" +:+ file) as Hclean.
  { apply Clean_two; try done; intros E; rewrite E in Hlen; simpl in Hlen; lia. }
  rewrite PathJoin_two by done. rewrite Hclean. unfold validateRelativePath. rewrite Hclean.
  rewrite bool_decide_eq_false_2 by done. change (HasPrefix ("repos" +:+ "/" +:+ file) "/") with false. cbn [orb].
  rewrite (ContainsAny_none _ _ (λ c, is_identifier_byte c || mem_byte c "/.reposlcktm")).
  - rewrite !bool_decide_eq_false_2 by (intros E; apply (f_equal String.length) in E; rewrite !str_length_app in E; simpl in E; lia). done.
  - intros c Hc. destruct c as [[] [] [] [] [] [] [] []]; vm_compute in Hc |- *; congruence.
  - unfold file. rewrite !all_bytes_app. rewrite (all_bytes_impl is_identifier_byte _ name); [done| |done]. by intros c ->.
Qed.

(** A repository that [Setup] accepts extends the workspace soundly: the new
    manifest file loads, it is the old manifest with just this repository added,
    an empty lock is created for it where there was none, and if no two
    repositories published to overlapping targets before, none do now. *)
Theorem setup_extends_manifest `{!ManifestLaws} workspacePath installDocument files o files' manifest :
  LoadManifest (wf_Manifest files) = Ok manifest → disjoint_targets manifest →
  Setup workspacePath installDocument files o = (files', Ok ()) →
  let repository := setupFormat o (setupRepository o) in
  ∃ manifest', LoadManifest (wf_Manifest files') = Ok manifest' ∧
    man_Repositories manifest' = <[opt_Name o := repository]> (man_Repositories manifest) ∧
    man_Repositories manifest !! opt_Name o = None ∧
    wf_Locks files !! repo_Lock repository = None ∧
    wf_Locks files' !! repo_Lock repository = Some (mkLock LockSchema (opt_Name o) [] []) ∧
    disjoint_targets manifest'.
Proof.
  intros Hload Hdis Hset. cbn zeta.
  apply Setup_ok in Hset as (m & repository & Hchecks & Hlocks & Hwrite).
  apply setupChecks_ok in Hchecks as (Hrep & Hm & Hsup & Hname & Hnew & Htargets & Hlock).
  rewrite Hload in Hm. injection Hm as <-. subst repository. set (repository := setupFormat o (setupRepository o)) in *.
  set (manifest' := set_repositories _ _) in Hwrite. exists (completeManifest manifest').
  split; [|split; [done|split; [done|split; [done|split]]]].
  - apply WriteManifest_load; [|done]. apply LoadManifest_loadable in Hload.
    apply map_Forall_insert; [done|]. split; [|done]. split; [done|]. by apply setupLock_relative.
  - rewrite Hlocks. apply lookup_insert_eq.
  - assert (∀ m s, m ≠ opt_Name o → man_Repositories manifest !! m = Some s → repositoriesOverlap repository s = false) as Ht.
    { exact (proj1 (checkPublicationTargets_spec _ _ _) Htargets). }
    intros n k r s Hne Hr Hs. cbn in Hr, Hs.
    apply lookup_insert_Some in Hr as [[<- <-]|[Hn Hr]], Hs as [[<- <-]|[Hk Hs]].
    + done.
    + by apply (Ht k).
    + rewrite repositoriesOverlap_sym. by apply (Ht n).
    + by apply (Hdis n k).
Qed.

Definition with_track (track : string) (o : SetupOptions) : SetupOptions :=
  mkSetup (opt_Name o) (opt_Format o) (opt_Output o) (opt_HostType o) (opt_Gate o) (opt_ApprovalKeys o)
    (opt_SigningKeys o) (opt_AllowUnsigned o) (opt_Keep o) track (opt_Visibility o) (opt_Target o) (opt_Bucket o)
    (opt_Prefix o) (opt_Region o) (opt_Endpoint o) (opt_CanonicalEndpoint o) (opt_UsePathStyle o) (opt_ReadAuth o)
    (opt_CredentialBroker o) (opt_Repository o) (opt_Branch o) (opt_PreviewRepository o) (opt_PreviewBranch o)
    (opt_PreviewEndpoint o) (opt_Suite o) (opt_Component o) (opt_Architectures o).

(** Nothing [Setup] checks before it writes looks at the track. *)
Lemma setupChecks_track workspacePath files o track :
  setupChecks workspacePath files (with_track track o) =
  '(manifest, repository) ← setupChecks workspacePath files o;
  Ok (manifest, set_track (orElse track "stable") repository).
Proof.
  unfold setupChecks. cbn zeta.
  change (ValidateRepositoryName (opt_Name (with_track track o))) with (ValidateRepositoryName (opt_Name o)).
  destruct (ValidateRepositoryName _) as [[]|]; cbn [mbind result_bind]; [|done].
  change (opt_Format (with_track track o)) with (opt_Format o).
  destruct (negb (Supported _)); [done|].
  destruct (LoadManifest _) as [manifest|]; cbn [mbind result_bind]; [|done].
  destruct (For _) as [selected|]; cbn [mbind result_bind]; [|done].
  change (opt_AllowUnsigned (with_track track o)) with (opt_AllowUnsigned o).
  change (opt_SigningKeys (with_track track o)) with (opt_SigningKeys o).
  destruct (_ && negb _); [done|].
  change (opt_Name (with_track track o)) with (opt_Name o).
  destruct (negb (bool_decide (man_Repositories _ !! _ = None))); [done|].
  change (checkPublicationTargets manifest (opt_Name o) (setupRepository (with_track track o)))
    with (checkPublicationTargets manifest (opt_Name o) (setupRepository o)).
  destruct (checkPublicationTargets _ _ _); cbn [mbind result_bind]; [|done].
  change (validateRepositoryHost (setupRepository (with_track track o))) with (validateRepositoryHost (setupRepository o)).
  destruct (validateRepositoryHost _); cbn [mbind result_bind]; [|done].
  set (r := setupFormat o (setupRepository o)).
  assert (setupFormat (with_track track o) (setupRepository (with_track track o)) = set_track (orElse track "stable") r)
    as -> by reflexivity.
  change (validateGateConfiguration (setupRepository (with_track track o))) with (validateGateConfiguration (setupRepository o)).
  destruct (validateGateConfiguration _ _); cbn [mbind result_bind]; [|done].
  change (validateRepositorySigning (set_track (orElse track "stable") r)) with (validateRepositorySigning r).
  destruct (validateRepositorySigning _ _); cbn [mbind result_bind]; [|done].
  change (repo_Lock (set_track _ r)) with (repo_Lock r). change (repo_Host (set_track _ r)) with (repo_Host r).
  destruct (workspacePath (repo_Lock r)); cbn [mbind result_bind]; [|done].
  destruct (negb (bool_decide (wf_Locks files !! _ = None))); [done|].
  by destruct (if bool_decide (host_Type _ = "local") then _ else _).
Qed.

Lemma WriteManifest_track manifest name repository :
  MatchFull placementCoordinatePattern (repo_Track repository) = false →
  man_Repositories manifest !! name = Some repository → ∃ e, WriteManifest manifest = Err e.
Proof.
  intros Ht Hr. unfold WriteManifest. destruct (checkManifest _) as [[]|e]; cbn [mbind result_bind]; [|by exists e].
  destruct (checkAll _ _) as [[]|e] eqn:Ea; cbn [mbind result_bind]; [|by exists e].
  apply checkAll_map in Ea. specialize (Ea name repository Hr). cbn beta in Ea. revert Ea. unfold checkWritten.
  by rewrite Ht, orb_true_r.
Qed.

(** A [Setup] whose track the manifest does not accept strands its lock.  The
    lock is written before the manifest checks the track, so where the same options
    would set the repository up with any good track, a bad one leaves the manifest
    as it was and an empty lock behind, and from then on no [Setup] of that name
    succeeds, whatever its options. *)
Theorem setup_invalid_track_strands_lock workspacePath installDocument files o ok track :
  Setup workspacePath installDocument files o = (ok, Ok ()) →
  (∀ name r t, installDocument name (set_track t r) = installDocument name r) →
  track ≠ "" → MatchFull placementCoordinatePattern track = false →
  ∃ files' e, Setup workspacePath installDocument files (with_track track o) = (files', Err e) ∧
    wf_Manifest files' = wf_Manifest files ∧
    wf_Locks files' = wf_Locks ok ∧ wf_Locks files' ≠ wf_Locks files ∧
    ∀ o', opt_Name o' = opt_Name o → (Setup workspacePath installDocument files' o').2 ≠ Ok ().
Proof.
  intros Hset Hdoc Hne Ht. pose proof (Setup_ok _ _ _ _ _ Hset) as (manifest & repository & Hchecks & Hlocks & Hwrite).
  pose proof (setupChecks_ok _ _ _ _ _ Hchecks) as (Hrep & _ & _ & _ & _ & _ & Hlock).
  unfold Setup at 1. rewrite setupChecks_track, Hchecks. cbn [mbind result_bind]. cbn zeta. rewrite Hdoc.
  change (opt_Name (with_track track o)) with (opt_Name o).
  assert (orElse track "stable" = track) as -> by (unfold orElse; by rewrite bool_decide_eq_false_2).
  revert Hset. unfold Setup at 1. rewrite Hchecks. cbn zeta.
  destruct (installDocument _ repository) as [[]|]; cbn [mbind result_bind]; [|done]. intros _.
  destruct (WriteManifest_track (set_repositories (<[opt_Name o:=set_track track repository]> (man_Repositories manifest)) manifest)
    (opt_Name o) (set_track track repository)) as [e ->]; [done|apply lookup_insert_eq|].
  eexists _, e. split; [done|]. split; [done|]. split; [by rewrite Hlocks|]. split.
  { cbn [wf_Locks]. intros E. apply (f_equal (.!! repo_Lock repository)) in E.
    change (repo_Lock (set_track track repository)) with (repo_Lock repository) in E.
    by rewrite lookup_insert_eq, Hlock in E. }
  intros o' Hname. destruct (Setup _ _ _ o') as [later r] eqn:El. cbn [snd]. intros ->.
  apply Setup_ok in El as (m & r' & Hc' & _). apply setupChecks_ok in Hc' as (Hr' & _ & _ & _ & _ & _ & Hl').
  assert (repo_Lock r' = repo_Lock repository) as E by (subst; unfold setupFormat, setupRepository; cbn; by rewrite Hname).
  rewrite E in Hl'. cbn [wf_Locks] in Hl'. change (repo_Lock (set_track track repository)) with (repo_Lock repository) in Hl'.
  by rewrite lookup_insert_eq in Hl'.
Qed.
End setup.

(** ** Where the overlap check falls short *)

Definition hostRepository (host : HostConfig) : Repository :=
  mkRepository "raw" "repos/x.lock.toml" host "public" "auto" [] [] "" None 0 "stable" "" "" [].
Definition s3Repository (bucket prefix : string) : Repository :=
  hostRepository (mkHost "s3" "" "" bucket prefix "" "" "https://cdn.example/" false "" "" "" "" "" "" "").
Definition rsyncRepository (target path : string) : Repository :=
  hostRepository (mkHost "rsync" path target "" "" "" "" "" false "" "" "" "" "" "" "").
Definition pagesRepository (repository : string) : Repository :=
  hostRepository (mkHost "github-pages" "" "" "" "" "" "" "https://o.github.io/" false "" "" repository "gh-pages" "" "" "").

Lemma targetsOverlap_slash p a :
  HasPrefix a "/" = false → a ≠ "" → targetsOverlap (p +:+ "/") (p +:+ "/" +:+ a) = false.
Proof.
  intros Ha Hne. rewrite targetsOverlap_prefixed. destruct a as [|c a]; [done|].
  unfold targetsOverlap. rewrite bool_decide_eq_false_2 by done.
  assert (ascii_eqb c "/" = false) as Hc.
  { revert Ha. cbn [HasPrefix]. by destruct (ascii_eqb c "/"), a. }
  change (HasPrefix ("/" +:+ String c a) ("/" +:+ "/")) with (ascii_eqb c "/" && HasPrefix a "").
  rewrite Hc. reflexivity.
Qed.

(** The check that no two repositories publish to the same place misses nesting
    outside local directories: a repository on a whole S3 bucket and any repository
    on a prefix of that bucket are not seen to overlap, nor are an rsync directory
    written with a final slash, which the manifest accepts, and any directory
    inside it, nor two spellings of one GitHub repository. *)
Theorem publication_overlap_missed `{NetLib} :
  (∀ bucket prefix, prefix ≠ "" → HasPrefix prefix "/" = false → TrimByte "/" prefix = prefix →
     repositoriesOverlap (s3Repository bucket "") (s3Repository bucket prefix) = false) ∧
  (∀ target path sub, sub ≠ "" → HasPrefix sub "/" = false →
     repositoriesOverlap (rsyncRepository target (path +:+ "/")) (rsyncRepository target (path +:+ "/" +:+ sub)) = false) ∧
  validateRsyncHost (rsyncRepository "deploy@mirror" "/srv/www/") = Ok () ∧
  repositoriesOverlap (pagesRepository "Owner/site") (pagesRepository "owner/site") = false.
Proof.
  split; [|split; [|by split; vm_compute]].
  - intros bucket prefix Hne Hs Hp. unfold repositoriesOverlap, publicationTargets.
    cbn [s3Repository hostRepository repo_Host host_Type host_Bucket host_Prefix existsb].
    rewrite bool_decide_eq_true_2 by done. cbn [existsb]. rewrite !orb_false_r, Hp.
    change (TrimByte "/" "") with "". rewrite 2!targetsOverlap_prefixed.
    exact (targetsOverlap_slash " under prefix " prefix Hs Hne).
  - intros target path sub Hne Hs. unfold repositoriesOverlap, publicationTargets.
    cbn [rsyncRepository hostRepository repo_Host host_Type host_Target host_Path existsb].
    rewrite bool_decide_eq_false_2, bool_decide_eq_true_2 by done. cbn [existsb]. rewrite !orb_false_r.
    rewrite 2!targetsOverlap_prefixed. by apply targetsOverlap_slash.
Qed.

(** ** A workspace to set repositories up in *)

Module SetupExample.
#[local] Instance Workspace_eq_dec : EqDecision Workspace.
Proof. solve_decision. Defined.
#[local] Instance BlobStoreConfig_eq_dec : EqDecision BlobStoreConfig.
Proof. solve_decision. Defined.
#[local] Instance KeyRef_eq_dec : EqDecision KeyRef.
Proof. solve_decision. Defined.
#[local] Instance SigningKey_eq_dec : EqDecision SigningKey.
Proof. solve_decision. Defined.
#[local] Instance Manifest_eq_dec : EqDecision Manifest.
Proof. solve_decision. Defined.

#[local] Instance net_lib : NetLib := {| ParseURL _ := None; ParseAddr _ := None |}.
#[local] Instance time_lib : TimeLib := {| ParseRFC3339 _ := None |}.
#[local] Instance hash_lib : HashLib :=
  {| SHA256Hex _ := "0123456789abcdef0123456789abcdef0123456789abcdef0123456789abcdef" |}.

Definition options (track : string) : SetupOptions :=
  mkSetup "files" "raw" "public/files" "" "" [] [] true 0 track "" "" "" "" "" "" "" false "" "" "" "" "" "" "" "" "" [].
Definition before : Manifest :=
  mkManifest ManifestSchema (mkWorkspace "shop" (SHA256Hex "") "" "" "") localBlobStore ∅
    {[ "site" := localRepository "public/site" ]}.
Definition after : Manifest :=
  set_repositories (<["files" := setupFormat (options "") (setupRepository (options ""))]> (man_Repositories before)) before.

(** An encoding of just these two manifests. *)
#[local] Instance manifest_lib : ManifestLib := {|
  UnmarshalHeader _ := Ok ManifestSchema;
  UnmarshalManifest c := if bool_decide (c = "before") then Ok before else if bool_decide (c = "after") then Ok after else Err "unknown";
  UnmarshalLegacy _ := Err "unknown";
  MarshalManifest m := if bool_decide (m = before) then Ok "before" else if bool_decide (m = after) then Ok "after" else Err "unknown";
  StdDecodeBase64 _ := None;
  EqualFold l r := bool_decide (l = r);
|}.

#[local] Instance manifest_laws : ManifestLaws.
Proof.
  split; intros m c; cbn [MarshalManifest manifest_lib]; (case_bool_decide as E; [|case_bool_decide as E'; [|done]]);
    intros [= <-]; subst; done.
Qed.

Definition files : WorkspaceFiles := mkWorkspaceFiles "before" ∅.
Definition setup := Setup (λ _, Ok ()) (λ _ _, Ok ()).

Lemma setup_extends_manifest_witness :
  ∃ files', setup files (options "") = (files', Ok ()) ∧
  ∃ manifest', LoadManifest (wf_Manifest files') = Ok manifest' ∧ disjoint_targets manifest'.
Proof.
  destruct (setup files (options "")) as [files' r] eqn:E. exists files'.
  assert (r = Ok ()) as -> by (apply (f_equal snd) in E; vm_compute in E; congruence). split; [done|].
  destruct (setup_extends_manifest (λ _, Ok ()) (λ _ _, Ok ()) files (options "") files' before) as (m & Hl & _ & _ & _ & _ & Hd).
  - vm_compute. reflexivity.
  - intros n m a b Hne Ha Hb. cbn [before man_Repositories] in Ha, Hb.
    apply lookup_singleton_Some in Ha as [<- _], Hb as [<- _]. by destruct (Hne eq_refl).
  - exact E.
  - exists m. split; [exact Hl|exact Hd].
Defined.

Lemma setup_invalid_track_strands_lock_witness :
  ∃ files' e, setup files (options "bad track") = (files', Err e) ∧
  ∀ o, opt_Name o = "files" → (setup files' o).2 ≠ Ok ().
Proof.
  destruct (setup_invalid_track_strands_lock (λ _, Ok ()) (λ _ _, Ok ()) files (options "")
    (setup files (options "")).1 "bad track") as (f & e & Hs & _ & _ & _ & Hr).
  - vm_compute. reflexivity.
  - done.
  - done.
  - vm_compute. reflexivity.
  - exists f, e. split; [exact Hs|exact Hr].
Defined.
End SetupExample.
