(* ===== verification/Host.v ===== *)
(** The types of [host/host.go] and [host/collect.go]: what a host reports of a
    published revision, what a publication expects to replace, what a commit
    returns, and the retention a collection is given. *)

From S2P Require Import Prelude GoStrings Model.

Open Scope Z_scope.

Record PublishedRevision := mkRevision {
  rev_NativeRevision : string; rev_TreeSHA256 : string; rev_PlanID : string; rev_ChangeID : string;
  rev_RestoreID : string; rev_ReleaseSHA256 : string; rev_ManifestSHA256 : string; rev_RestoreSHA256 : string;
  rev_RestoreRootSHA256 : string;
}.
#[export] Instance PublishedRevision_eq_dec : EqDecision PublishedRevision.
Proof. solve_decision. Defined.
Definition noRevision : PublishedRevision := mkRevision "" "" "" "" "" "" "" "" "".

Record ExpectedRevision := mkExpected {
  exp_NativeRevision : string; exp_TreeSHA256 : string; exp_PlanID : string; exp_ChangeID : string;
  exp_ReleaseSHA256 : string; exp_ManifestSHA256 : string; exp_RestoreID : string; exp_RestoreSHA256 : string;
  exp_RestoreRootSHA256 : string;
}.
#[export] Instance ExpectedRevision_eq_dec : EqDecision ExpectedRevision.
Proof. solve_decision. Defined.

Record RestoreRef := mkRestoreRef {
  restore_ID : string; restore_PlanID : string; restore_ChangeID : string; restore_FailedTree : string;
  restore_DescriptorSHA256 : string; restore_RootSHA256 : string;
}.

Record Capabilities := mkCapabilities {
  FaithfulPreview : bool; ConditionalCommit : bool; ConditionalRestore : bool; PrivateRead : bool;
  CredentialBrokerIdentity : string;
}.

(** The part of [host.CommitResult] the engine reads: the access it carries is
    opaque. *)
Record CommitResult := mkCommitResult {
  com_Revision : PublishedRevision;
  com_CanonicalEndpoint : string;
  com_RestoreRef : option RestoreRef;
}.

Record Retention := mkRetention { KeepTrees : list string; DryRun : bool }.
Record CollectResult := mkCollectResult {
  Removed : Z; RemovedBytes : Z; KeptRevisions : Z; col_DryRun : bool;
}.
