(* ===== verification/Deployment.v ===== *)
(** Deployment receipts: [internal/state/deployment.go].

    A receipt is the JSON file [deployments/<repository>.json]; the JSON codec is a
    parameter ([DeploymentLib]).  The files are a map from repository name to
    content.  [CommitDeployments] takes the git commit it ends in as an argument;
    [canWrite] says which files can be replaced, a replacement being atomic. *)

From S2P Require Import Prelude GoStrings GoSlices GoRegexp Model Formats JsonStrict Manifest.

Open Scope Z_scope.

Class DeploymentLib `{JsonLib, TimeLib} := {
  UnmarshalDeployment : string → result DeploymentRecord;
  MarshalDeployment : DeploymentRecord → result string;
}.

Definition noDeployment : DeploymentRecord := mkDeployment 0 "" "" "" "" "" "" "" "" [] "" "" 0 "".

Definition set_schema (schema : Z) (r : DeploymentRecord) : DeploymentRecord :=
  mkDeployment schema (dep_Repository r) (dep_PlanID r) (dep_ChangeID r) (dep_TreeSHA256 r) (dep_ManifestSHA256 r)
    (dep_NativeRevision r) (dep_DeployedAt r) (dep_ActiveSigningFingerprint r) (dep_TrustedSigningFingerprints r)
    (dep_SigningKeyringPath r) (dep_SigningRotationPhase r) (dep_SigningMinimumRefreshSeconds r) (dep_TrustSince r).

(** ** Validity *)

Definition validDeploymentIdentity (record : DeploymentRecord) : bool :=
  ValidSHA256 (dep_PlanID record) && ValidSHA256 (dep_TreeSHA256 record) &&
  (bool_decide (dep_ManifestSHA256 record = "") || ValidSHA256 (dep_ManifestSHA256 record)) &&
  negb (bool_decide (dep_NativeRevision record = "")) &&
  bool_decide (dep_ChangeID record = dep_Repository record +:+ ":" +:+ stake 12 (dep_TreeSHA256 record)).

(** No signing state at all. *)
Definition unsignedDeployment (record : DeploymentRecord) : bool :=
  bool_decide (dep_TrustedSigningFingerprints record = []) && bool_decide (dep_SigningKeyringPath record = "") &&
  bool_decide (dep_SigningRotationPhase record = "") && (dep_SigningMinimumRefreshSeconds record =? 0) &&
  bool_decide (dep_TrustSince record = "").

(** The loop over the trusted fingerprints. *)
Fixpoint distinctFingerprints (seen : gset string) (fingerprints : list string) : bool :=
  match fingerprints with
  | [] => true
  | fingerprint :: rest =>
      MatchFull fingerprintPattern fingerprint && negb (bool_decide (fingerprint ∈ seen)) &&
      distinctFingerprints ({[fingerprint]} ∪ seen) rest
  end.

Section deployment.
Context `{DeploymentLib}.

Definition validDeploymentSigning (record : DeploymentRecord) : bool :=
  let active := dep_ActiveSigningFingerprint record in
  let trusted := dep_TrustedSigningFingerprints record in
  let phase := dep_SigningRotationPhase record in
  let refresh := dep_SigningMinimumRefreshSeconds record in
  let path := dep_SigningKeyringPath record in
  if dep_SchemaVersion record =? 1 then bool_decide (active = "") && unsignedDeployment record
  else if bool_decide (active = "") then unsignedDeployment record
  else if negb (MatchFull fingerprintPattern active) || bool_decide (trusted = []) ||
          negb (is_ok (validateRelativePath path)) || negb (HasPrefix path "keys/") || negb (HasSuffix path ".gpg") ||
          (negb (bool_decide (phase = "")) && negb (bool_decide (phase = "introducing")) && negb (bool_decide (phase = "activated")))
  then false
  else if (bool_decide (phase = "") && negb (refresh =? 0)) ||
          (negb (bool_decide (phase = "")) && (refresh <? MinimumSigningRefreshSeconds))
  then false
  else if (bool_decide (phase = "") && (negb (length trusted =? 1)%nat || negb (bool_decide (trusted !! 0%nat = Some active)))) ||
          (bool_decide (phase = "introducing") && (negb (length trusted =? 2)%nat || negb (bool_decide (trusted !! 0%nat = Some active)))) ||
          (bool_decide (phase = "activated") && (negb (length trusted =? 2)%nat || negb (bool_decide (trusted !! 1%nat = Some active))))
  then false
  else distinctFingerprints ∅ trusted && bool_decide (active ∈ trusted) &&
       negb (bool_decide (ParseRFC3339 (dep_TrustSince record) = None)).

Definition ValidateDeploymentRecord (record : DeploymentRecord) (repository : string) : result () :=
  if bool_decide (record = noDeployment) then Ok ()
  else
    refuse "invalid deployment record"
      when (negb (dep_SchemaVersion record =? 1) && negb (dep_SchemaVersion record =? DeploymentSchema)) ||
           negb (bool_decide (dep_Repository record = repository)) || negb (validDeploymentIdentity record) ||
           negb (validDeploymentSigning record);
    refuse "invalid deployment timestamp" when bool_decide (ParseRFC3339 (dep_DeployedAt record) = None);
    Ok ().

(** ** Loading *)

Definition maximumDeployment : nat := Z.to_nat (2 ^ 20).

(** The canonical bytes of a receipt. *)
Definition encodeDeployment (record : DeploymentRecord) : result string :=
  content ← MarshalDeployment record;
  Ok (content +:+ String "010" "").

(** [content] is the file's bytes, [None] when there is no file. *)
Definition LoadDeployment (repository : string) (content : option string) : result DeploymentRecord :=
  _ ← ValidateRepositoryName repository;
  match content with
  | None => Ok noDeployment
  | Some content =>
      record ← Decode UnmarshalDeployment content maximumDeployment;
      _ ← ValidateDeploymentRecord record repository;
      canonical ← encodeDeployment record;
      refuse "deployment record is not canonical" when negb (bool_decide (content = canonical));
      Ok record
  end.

(** A zero [time.Time], the first instant of year 1. *)
Definition zeroTime : Z := -62135596800 * Second.

(** [committedAt] is the time of the managed commit that recorded the receipt. *)
Definition AuthoritativeDeploymentTrustSince (record : DeploymentRecord) (committedAt : result Z) : result Z :=
  if bool_decide (dep_TrustSince record = "") then Ok zeroTime
  else match ParseRFC3339 (dep_TrustSince record) with
       | None => Err "invalid deployment trust timestamp"
       | Some trustSince =>
           committedAt ← committedAt;
           Ok (if trustSince <? committedAt then committedAt else trustSince)
       end.

(** ** Committing *)

(** How a write ends: [Done]; [Failed] before the file is replaced; [Unsynced],
    an error of [atomicWrite] after the rename, when the directory cannot be
    synced.  A removal that is not [Done] leaves the file. *)
Inductive writing := Done | Failed | Unsynced.

(** What goes wrong in one call: which files cannot be read, how the write of
    each ends, and how putting each back ends. *)
Record Faults := mkFaults {
  readable : string → bool;
  writes : string → writing;
  restores : string → writing;
}.

Definition restoreFailed : string := "; restore deployment record: %w".
Definition removeFailed : string := "; remove deployment record: %w".

(** The deferred function, on an error: the files are put back in the order they
    were displaced, and each failure is appended to the error. *)
Definition restorePriors (faults : Faults) (priors : list (string * option string)) (files : gmap string string)
    (resultErr : string) : gmap string string * string :=
  foldl (λ state p,
    let '(files, resultErr) := state in
    match p.2 with
    | Some content =>
        match restores faults p.1 with
        | Done => (<[p.1 := content]> files, resultErr)
        | Failed => (files, resultErr +:+ restoreFailed)
        | Unsynced => (<[p.1 := content]> files, resultErr +:+ restoreFailed)
        end
    | None =>
        match restores faults p.1 with
        | Done => (delete p.1 files, resultErr)
        | _ => (files, resultErr +:+ removeFailed)
        end
    end) (files, resultErr) priors.

(** The loop over the sorted records: the files, the displaced ones, the paths
    changed, and whether an early return stopped it. *)
Fixpoint writeDeployments (faults : Faults) (previous : option string) (records : list DeploymentRecord)
    (files : gmap string string) (priors : list (string * option string)) (paths : list string)
    : gmap string string * list (string * option string) * result (list string) :=
  match records with
  | [] => (files, priors, Ok paths)
  | record :: rest =>
      let name := dep_Repository record in
      let checked :=
        refuse "duplicate deployment record" when bool_decide (previous = Some name);
        let record := set_schema DeploymentSchema record in
        refuse "invalid deployment record" when negb (is_ok (ValidateRepositoryName name));
        _ ← ValidateDeploymentRecord record name;
        content ← encodeDeployment record;
        refuse "read deployment record" when negb (readable faults name);
        Ok content
      in
      match checked with
      | Err e => (files, priors, Err e)
      | Ok content =>
          if bool_decide (files !! name = Some content)
          then writeDeployments faults (Some name) rest files priors paths
          else
            let priors := priors ++ [(name, files !! name)] in
            match writes faults name with
            | Done => writeDeployments faults (Some name) rest (<[name := content]> files) priors
                        (paths ++ ["deployments/" +:+ name +:+ ".json"])
            | Failed => (files, priors, Err "write deployment record")
            | Unsynced => (<[name := content]> files, priors, Err "write deployment record")
            end
      end
  end.

Definition recordLess (l r : DeploymentRecord) : bool := str_ltb (dep_Repository l) (dep_Repository r).

(** [commitManagedPaths] makes the commit from the files and the changed paths. *)
Definition CommitDeployments (faults : Faults) (commitManagedPaths : gmap string string → list string → result string)
    (baseRevision : string) (records : list DeploymentRecord) (files : gmap string string)
    : gmap string string * result string :=
  match records with
  | [] => (files, Ok baseRevision)
  | _ =>
      let '(written, priors, outcome) := writeDeployments faults None (sort_slice recordLess records) files [] [] in
      let committed :=
        paths ← outcome;
        if bool_decide (paths = []) then Ok baseRevision else commitManagedPaths written paths
      in
      match committed with
      | Ok revision => (written, Ok revision)
      | Err e => let '(restored, resultErr) := restorePriors faults priors written e in (restored, Err resultErr)
      end
  end.
End deployment.
