(* ===== verification/DeploymentProofs.v ===== *)
(** Committing deployment receipts is all or nothing, and a committed receipt
    loads back as it was recorded. *)

From S2P Require Import Prelude GoStrings GoSlices GoRegexp Model Formats JsonStrict Manifest Deployment.

Open Scope Z_scope.

Section proofs.
Context `{DeploymentLib}.

(** ** Putting displaced files back *)

(** The files written so far differ from the original ones only at displaced
    names, which remember what was there. *)
Definition displaced (original written : gmap string string) (priors : list (string * option string)) : Prop :=
  (∀ name prior, (name, prior) ∈ priors → prior = original !! name) ∧
  (∀ name, name ∉ priors.*1 → written !! name = original !! name).

(** Restoring a file whose restoration does not fail, and any other one. *)
Definition restoredFile (faults : Faults) (files : gmap string string) (p : string * option string) : gmap string string :=
  match p.2, restores faults p.1 with
  | Some content, (Done | Unsynced) => <[p.1 := content]> files
  | None, Done => delete p.1 files
  | _, _ => files
  end.

Definition reported (faults : Faults) (resultErr : string) (p : string * option string) : string :=
  match p.2, restores faults p.1 with
  | _, Done => resultErr
  | Some _, _ => resultErr +:+ restoreFailed
  | None, _ => resultErr +:+ removeFailed
  end.

Lemma restorePriors_eq faults priors files resultErr :
  restorePriors faults priors files resultErr =
  (foldl (restoredFile faults) files priors, foldl (reported faults) resultErr priors).
Proof.
  unfold restorePriors. revert files resultErr. induction priors as [|p priors IH]; intros files resultErr; [done|].
  cbn [foldl]. rewrite <- IH. unfold restoredFile, reported.
  destruct (p.2), (restores faults p.1); done.
Qed.

Lemma restoredFile_lookup faults files p n :
  restoredFile faults files p !! n = files !! n ∨ (n = p.1 ∧ restoredFile faults files p !! n = p.2).
Proof.
  unfold restoredFile. destruct (decide (n = p.1)) as [->|Hne].
  - destruct p.2, (restores faults p.1); rewrite ?lookup_insert_eq, ?lookup_delete_eq; auto.
  - left. destruct p.2, (restores faults p.1); by rewrite ?lookup_insert_ne, ?lookup_delete_ne.
Qed.

(** Each file is as it was or as it was written; it is as it was when it is
    displaced and restoring it does not fail. *)
Lemma restored_lookup faults (original written : gmap string string) priors n :
  (∀ p, p ∈ priors → p.2 = original !! p.1) →
  let files' := foldl (restoredFile faults) written priors in
  (files' !! n = original !! n ∨ files' !! n = written !! n) ∧
  (n ∈ priors.*1 → restores faults n = Done → files' !! n = original !! n) ∧
  (n ∉ priors.*1 → files' !! n = written !! n).
Proof.
  cbn zeta. induction priors as [|p priors IH] using rev_ind; intros Hp; [set_solver|].
  rewrite foldl_app, fmap_app. cbn [foldl]. set (files1 := foldl _ written priors) in *.
  destruct IH as (IH1 & IH2 & IH3); [intros q Hq; apply Hp; set_solver|].
  assert (p.2 = original !! p.1) as Ep by (apply Hp; set_solver).
  destruct (restoredFile_lookup faults files1 p n) as [E|[-> E]].
  - rewrite E. split; [done|]. split; [|set_solver]. intros Hn Hd.
    destruct (decide (n ∈ priors.*1)) as [|Hout]; [by apply IH2|].
    assert (n = p.1) as -> by set_solver. rewrite <- E, <- Ep. unfold restoredFile. rewrite Hd.
    destruct p.2; [apply lookup_insert_eq|apply lookup_delete_eq].
  - rewrite E, Ep. split; [by left|]. split; [done|set_solver].
Qed.

(** When every restoration succeeds the error is the cause alone, and otherwise it
    ends with the last failure. *)
Lemma reported_failures faults resultErr (priors : list (string * option string)) :
  let e := foldl (reported faults) resultErr priors in
  ((∀ n, n ∈ priors.*1 → restores faults n = Done) ∧ e = resultErr) ∨
  HasSuffix e restoreFailed = true ∨ HasSuffix e removeFailed = true.
Proof.
  cbn zeta. induction priors as [|p priors IH] using rev_ind; [left; set_solver|].
  rewrite foldl_app. cbn [foldl]. unfold reported at 1 3 5.
  destruct (restores faults p.1) eqn:Er;
    [|destruct p.2; right; [left|right]; apply HasSuffix_app..].
  destruct IH as [[Hd E]|IH]; [left|by destruct p.2; right].
  rewrite E. split; [|by destruct p.2]. intros n. rewrite fmap_app, elem_of_app. intros [?|Hn]; [by apply Hd|].
  assert (n = p.1) as -> by set_solver. done.
Qed.

(** ** The loop *)

Definition stored (files : gmap string string) (record : DeploymentRecord) : Prop :=
  ValidateRepositoryName (dep_Repository record) = Ok () ∧
  ValidateDeploymentRecord (set_schema DeploymentSchema record) (dep_Repository record) = Ok () ∧
  ∃ content, encodeDeployment (set_schema DeploymentSchema record) = Ok content ∧
    files !! dep_Repository record = Some content.

(** Names in rising order, all of them at or above what came before. *)
Definition rising (previous : option string) (records : list DeploymentRecord) : Prop :=
  StronglySorted (λ l r, str_cmp (dep_Repository l) (dep_Repository r) ≠ Gt) records ∧
  ∀ p, previous = Some p → Forall (λ r, str_cmp p (dep_Repository r) ≠ Gt) records.

Lemma rising_tail previous record records :
  rising previous (record :: records) → rising (Some (dep_Repository record)) records.
Proof. intros [Hs _]. apply StronglySorted_inv in Hs as [Hs Hf]. split; [done|]. by intros p [= <-]. Qed.

Lemma str_le_antisym x y : str_cmp x y ≠ Gt → str_cmp y x ≠ Gt → x = y.
Proof. rewrite (cmp_antisym str_cmp x y). intros Hl Hr. apply str_cmp_eq. by destruct (str_cmp x y). Qed.

(** A name that is not the one before it is above everything before it. *)
Lemma rising_new previous record records (names : list string) :
  rising previous (record :: records) → previous ≠ Some (dep_Repository record) →
  (∀ n, n ∈ names → ∃ p, previous = Some p ∧ str_cmp n p ≠ Gt) → dep_Repository record ∉ names.
Proof.
  intros [_ Hp] Hne Hn Hin. destruct (Hn _ Hin) as (p & -> & Hle). apply Hne. f_equal.
  specialize (Hp p eq_refl). apply Forall_cons in Hp as [Hp _]. by apply str_le_antisym.
Qed.

Lemma writeDeployments_fresh faults name records files priors paths files' priors' paths' :
  rising (Some name) records →
  writeDeployments faults (Some name) records files priors paths = (files', priors', Ok paths') →
  name ∉ dep_Repository <$> records.
Proof.
  destruct records as [|r records]; [set_solver|]. intros [Hs Hp]. cbn [writeDeployments].
  case_bool_decide as E; [done|]. intros _ [Hin|Hin]%elem_of_cons; [congruence|].
  apply list_elem_of_fmap in Hin as (x & -> & Hx). apply StronglySorted_inv in Hs as [_ Hs].
  specialize (Hp _ eq_refl). apply Forall_cons in Hp as [Hp _]. rewrite Forall_forall in Hs.
  apply E. f_equal. by apply str_le_antisym; [|apply Hs].
Qed.

(** Remembering a file that was not displaced yet, then replacing it. *)
Lemma displaced_write original files priors name content :
  displaced original files priors → name ∉ priors.*1 →
  displaced original files (priors ++ [(name, files !! name)]) ∧
  displaced original (<[name := content]> files) (priors ++ [(name, files !! name)]).
Proof.
  intros [Hd1 Hd2] Hnew.
  assert (∀ n prior, (n, prior) ∈ priors ++ [(name, files !! name)] → prior = original !! n) as Hp.
  { intros n prior. rewrite elem_of_app. intros [Hin|Hin%list_elem_of_singleton]; [by apply Hd1|].
    injection Hin as -> ->. by apply Hd2. }
  split; (split; [done|]); intros n; rewrite fmap_app, elem_of_app; intros Hn.
  - apply Hd2. tauto.
  - rewrite lookup_insert_ne; [apply Hd2; tauto|]. intros <-. apply Hn. right. set_solver.
Qed.

Lemma before_note (previous : option string) name (names : list string) :
  (∀ n, n ∈ names → ∃ p, previous = Some p ∧ str_cmp n p ≠ Gt) →
  (∀ p, previous = Some p → str_cmp p name ≠ Gt) →
  ∀ n, n ∈ names ++ [name] → ∃ p, Some name = Some p ∧ str_cmp n p ≠ Gt.
Proof.
  intros Hn Hp n. rewrite elem_of_app. intros [Hin|Hin%list_elem_of_singleton]; exists name; (split; [done|]).
  - destruct (Hn n Hin) as (p & E & Hle). apply (cmp_le_trans str_cmp n p); [done|by apply Hp].
  - subst n. by rewrite str_cmp_refl.
Qed.

Lemma writeDeployments_spec faults original records : ∀ previous files priors paths files' priors' out,
  writeDeployments faults previous records files priors paths = (files', priors', out) →
  rising previous records → (∀ n, n ∈ priors.*1 → ∃ p, previous = Some p ∧ str_cmp n p ≠ Gt) →
  displaced original files priors →
  displaced original files' priors' ∧
  (∀ n, n ∉ dep_Repository <$> records → files' !! n = files !! n) ∧
  ∀ paths', out = Ok paths' → Forall (stored files') records.
Proof.
  induction records as [|r records IH]; intros previous files priors paths files' priors' out Hw Hr Hn Hd.
  { injection Hw as <- <- <-. by split. }
  cbn [writeDeployments] in Hw. cbn zeta in Hw. set (name := dep_Repository r) in *.
  destruct (bool_decide (previous = Some name)) eqn:E1; [injection Hw as <- <- <-; by split|].
  apply bool_decide_eq_false in E1.
  destruct (ValidateRepositoryName _) as [[]|] eqn:E2; cbn [is_ok negb] in Hw; [|injection Hw as <- <- <-; by split].
  destruct (ValidateDeploymentRecord _ _) as [[]|] eqn:E3; cbn [mbind result_bind] in Hw; [|injection Hw as <- <- <-; by split].
  destruct (encodeDeployment _) as [content|] eqn:E4; cbn [mbind result_bind] in Hw; [|injection Hw as <- <- <-; by split].
  destruct (readable faults _); cbn [negb] in Hw; [|injection Hw as <- <- <-; by split].
  pose proof (rising_new _ _ _ _ Hr E1 Hn) as Hnew. pose proof (rising_tail _ _ _ Hr) as Hr'.
  assert (∀ n, n ∈ priors.*1 ++ [name] → ∃ p, Some name = Some p ∧ str_cmp n p ≠ Gt) as Hn'.
  { apply (before_note previous); [done|]. intros p Ep. destruct Hr as [_ Hp]. specialize (Hp p Ep).
    by apply Forall_cons in Hp as [Hp _]. }
  assert (∀ f : gmap string string, f !! name = Some content → (∀ n, n ∉ dep_Repository <$> records → files' !! n = f !! n) →
    Forall (stored files') records → name ∉ dep_Repository <$> records →
    Forall (stored files') (r :: records)) as Hstored.
  { intros f Ef Hkeep Hst Hfresh. constructor; [|done]. split; [done|]. split; [done|].
    exists content. split; [done|]. by rewrite <- Ef, <- (Hkeep name Hfresh). }
  rewrite fmap_cons. case_bool_decide as E5.
  - assert (∀ n, n ∈ priors.*1 → ∃ p, Some name = Some p ∧ str_cmp n p ≠ Gt) as Hn'' by (intros n ?; apply Hn'; set_solver).
    specialize (IH _ _ _ _ _ _ _ Hw Hr' Hn'' Hd) as (Hd' & Hkeep & Hok). split; [done|].
    split; [set_solver|]. intros paths' ->.
    by eapply Hstored; [exact E5|done|eauto|eapply writeDeployments_fresh].
  - destruct (displaced_write _ _ _ name content Hd Hnew) as [Hd1 Hd2].
    assert (∀ n, n ∉ name :: (dep_Repository <$> records) → <[name := content]> files !! n = files !! n) as Hins.
    { intros n Hnin. apply lookup_insert_ne. set_solver. }
    destruct (writes faults _); [|injection Hw as <- <- <-; by split..].
    assert (∀ n, n ∈ (priors ++ [(name, files !! name)]).*1 → ∃ p, Some name = Some p ∧ str_cmp n p ≠ Gt) as Hn''
      by (rewrite fmap_app; exact Hn').
    specialize (IH _ _ _ _ _ _ _ Hw Hr' Hn'' Hd2) as (Hd' & Hkeep & Hok). split; [done|].
    split; [intros n Hnin; rewrite Hkeep by set_solver; by apply Hins|]. intros paths' ->.
    by eapply Hstored; [apply lookup_insert_eq|done|eauto|eapply writeDeployments_fresh].
Qed.

Lemma rising_sorted records : rising None (sort_slice recordLess records).
Proof.
  split; [|done]. pose (cmp l r := str_cmp (dep_Repository l) (dep_Repository r)).
  assert (CmpLaws cmp) as Hlaws by apply str_cmp_on_laws.
  assert (∀ l r, recordLess l r = true ↔ cmp l r = Lt) as Hless by (intros l r; apply str_ltb_spec).
  pose proof (sort_slice_sorted recordLess cmp Hless records) as Hs.
  induction Hs as [|r l _ IH Hf]; constructor; [done|]. eapply Forall_impl; [exact Hf|].
  intros x. apply (not_above_spec recordLess cmp Hless).
Qed.

(** The receipts are in order: each valid and encodable, no repository twice. *)
Definition commitable (records : list DeploymentRecord) : Prop :=
  NoDup (dep_Repository <$> records) ∧
  ∀ r, r ∈ records →
    ValidateRepositoryName (dep_Repository r) = Ok () ∧
    ValidateDeploymentRecord (set_schema DeploymentSchema r) (dep_Repository r) = Ok () ∧
    is_ok (encodeDeployment (set_schema DeploymentSchema r)) = true.

Lemma writeDeployments_ok faults records previous files priors paths :
  commitable records → (∀ p, previous = Some p → p ∉ dep_Repository <$> records) →
  (∀ n, n ∈ dep_Repository <$> records → readable faults n = true ∧ writes faults n = Done) →
  is_ok (writeDeployments faults previous records files priors paths).2 = true.
Proof.
  revert previous files priors paths; induction records as [|r records IH]; intros previous files priors paths;
    [done|]. intros [Hnd Hv] Hp Hf. rewrite fmap_cons in *. apply NoDup_cons in Hnd as [Hr Hnd].
  destruct (Hv r (list_elem_of_here _ _)) as (Hr1 & Hr2 & Hr3). destruct (Hf (dep_Repository r) ltac:(set_solver)) as [Hr4 Hr5].
  cbn [writeDeployments]. cbn zeta. rewrite bool_decide_eq_false_2 by (intros E; apply (Hp _ E); set_solver).
  rewrite Hr1, Hr2. cbn [is_ok negb mbind result_bind]. destruct (encodeDeployment _) as [content|]; [|done].
  cbn [mbind result_bind]. rewrite Hr4, Hr5. cbn [negb].
  assert (∀ previous files priors paths, previous = Some (dep_Repository r) →
    is_ok (writeDeployments faults previous records files priors paths).2 = true) as Hnext.
  { intros ? ? ? ? ->. apply IH; [|by intros p [= <-]|set_solver]. split; [done|]. intros x Hx. apply Hv. set_solver. }
  case_bool_decide; by apply Hnext.
Qed.

(** What a commit leaves. *)
Definition committed (faults : Faults) (commit : gmap string string → list string → result string) (base : string)
    (records : list DeploymentRecord) (files files' : gmap string string) (out : result string) : Prop :=
  match out with
  | Ok revision =>
      Forall (stored files') records ∧ (∀ n, n ∉ dep_Repository <$> records → files' !! n = files !! n) ∧
      (revision = base ∨ ∃ paths, commit files' paths = Ok revision)
  | Err e =>
      (∀ n, n ∉ dep_Repository <$> records ∨ restores faults n = Done → files' !! n = files !! n) ∧
      (files' ≠ files → HasSuffix e restoreFailed = true ∨ HasSuffix e removeFailed = true)
  end.

Lemma restored_committed faults commit base records files written priors e :
  displaced files written priors → (∀ n, n ∉ dep_Repository <$> records → written !! n = files !! n) →
  committed faults commit base records files (restorePriors faults priors written e).1
    (Err (restorePriors faults priors written e).2).
Proof.
  intros [Hp Hw] Hout. rewrite restorePriors_eq. cbn [committed fst snd].
  assert (∀ n, n ∉ dep_Repository <$> records ∨ restores faults n = Done →
    foldl (restoredFile faults) written priors !! n = files !! n) as Hback.
  { intros n Hn. destruct (restored_lookup faults files written priors n) as (Hr1 & Hr2 & Hr3).
    { intros [] Hq. by apply Hp. }
    destruct (decide (n ∈ priors.*1)) as [Hin|Hnin]; [|by rewrite Hr3, Hw].
    destruct Hn as [Hn|Hn]; [|by apply Hr2]. destruct Hr1 as [->| ->]; [done|by apply Hout]. }
  split; [done|]. intros Hne. destruct (reported_failures faults e priors) as [[Hd _]|]; [exfalso|done].
  apply Hne, map_eq. intros n. destruct (decide (n ∈ priors.*1)) as [Hin|Hnin]; [apply Hback; right; by apply Hd|].
  destruct (restored_lookup faults files written priors n) as (_ & _ & Hr3); [intros [] Hq; by apply Hp|].
  by rewrite Hr3, Hw.
Qed.

Lemma CommitDeployments_cases faults commit base records files files' out :
  CommitDeployments faults commit base records files = (files', out) →
  committed faults commit base records files files' out.
Proof.
  unfold CommitDeployments. destruct records as [|r records]; [intros [= <- <-]; split; [constructor|]; by split; [|left]|].
  set (all := r :: records). destruct (writeDeployments _ _ _ _ _ _) as [[written priors] outcome] eqn:Ew.
  destruct (writeDeployments_spec faults files _ _ _ _ _ _ _ _ Ew (rising_sorted all)) as (Hd & Hother & Hok);
    [set_solver|by split; [set_solver|]|].
  assert (∀ n, n ∉ dep_Repository <$> all → written !! n = files !! n) as Hother'.
  { intros n Hn. apply Hother. by rewrite (sort_slice_perm recordLess all). }
  pose proof (restored_committed faults commit base all files written priors) as Hback.
  destruct outcome as [paths|e]; cbn [mbind result_bind].
  - pose proof (Hok paths eq_refl) as Hst. rewrite (sort_slice_perm recordLess all) in Hst.
    case_bool_decide; [intros [= <- <-]; by split; [|split; [|left]]|].
    destruct (commit written paths) as [revision|e] eqn:Ec.
    + intros [= <- <-]. split; [done|]. split; [done|]. right. by exists paths.
    + specialize (Hback e Hd Hother'). destruct (restorePriors _ _ _ _). by intros [= <- <-].
  - specialize (Hback e Hd Hother'). destruct (restorePriors _ _ _ _). by intros [= <- <-].
Qed.

Lemma CommitDeployments_ok faults commit base records files :
  commitable records → (∀ n, n ∈ dep_Repository <$> records → readable faults n = true ∧ writes faults n = Done) →
  (∀ files paths, is_ok (commit files paths) = true) →
  is_ok (CommitDeployments faults commit base records files).2 = true.
Proof.
  intros [Hnd Hv] Hf Hc. unfold CommitDeployments. destruct records as [|r records]; [done|].
  set (all := r :: records) in *.
  pose proof (writeDeployments_ok faults (sort_slice recordLess all) None files [] []) as Hw.
  destruct (writeDeployments _ _ _ _ _ _) as [[written priors] [paths|e]]; cbn [snd mbind result_bind] in *.
  - case_bool_decide; [done|]. specialize (Hc written paths). by destruct (commit written paths).
  - assert (is_ok (Err e : result (list string)) = true) as E; [|done]. apply Hw; [|done|].
    + split; [by rewrite (sort_slice_perm recordLess all)|]. intros x. rewrite (sort_slice_perm recordLess all). apply Hv.
    + intros n. rewrite (sort_slice_perm recordLess all). apply Hf.
Qed.

(** C33: Committing deployment receipts is all or nothing.  On success every
    receipt is stored in its canonical form, no other file changed, and the
    revision is the given one or that of a commit of these files.  On an error
    (an invalid or duplicate receipt, a file that cannot be read or written, a
    write that fails after it replaced the file, a failed commit) every file
    whose restoration does not fail is as it was, no file of another repository
    changed, and when a file is not as it was the error says that a restoration
    failed.  A commit of valid, distinct receipts whose files can be read and
    written and whose Git commit succeeds does succeed. *)
Theorem deployments_all_or_nothing faults commit base records files :
  let '(files', out) := CommitDeployments faults commit base records files in
  match out with
  | Ok revision =>
      Forall (stored files') records ∧ (∀ n, n ∉ dep_Repository <$> records → files' !! n = files !! n) ∧
      (revision = base ∨ ∃ paths, commit files' paths = Ok revision)
  | Err e =>
      (∀ n, n ∉ dep_Repository <$> records ∨ restores faults n = Done → files' !! n = files !! n) ∧
      (files' ≠ files → HasSuffix e restoreFailed = true ∨ HasSuffix e removeFailed = true)
  end ∧
  (commitable records → (∀ n, n ∈ dep_Repository <$> records → readable faults n = true ∧ writes faults n = Done) →
   (∀ files paths, is_ok (commit files paths) = true) → is_ok out = true).
Proof.
  pose proof (CommitDeployments_ok faults commit base records files) as Hok.
  destruct (CommitDeployments faults commit base records files) as [files' out] eqn:E.
  split; [exact (CommitDeployments_cases _ _ _ _ _ _ _ E)|exact Hok].
Qed.

(** The JSON decoder reads what the encoder wrote, up to the size limit. *)
Class DeploymentLaws : Prop := {
  deployment_decode record content : encodeDeployment record = Ok content →
    (String.length content ≤ maximumDeployment)%nat → Decode UnmarshalDeployment content maximumDeployment = Ok record;
}.

(** A committed receipt loads back as the receipt that was committed, in the
    current schema. *)
Theorem deployment_roundtrip `{!DeploymentLaws} faults commit base records files files' revision record :
  CommitDeployments faults commit base records files = (files', Ok revision) → record ∈ records →
  (∀ content, files' !! dep_Repository record = Some content → (String.length content ≤ maximumDeployment)%nat) →
  LoadDeployment (dep_Repository record) (files' !! dep_Repository record) = Ok (set_schema DeploymentSchema record).
Proof.
  intros Hc Hin Hsize. apply CommitDeployments_cases in Hc as (Hst & _). rewrite Forall_forall in Hst.
  destruct (Hst record Hin) as (Hn & Hv & content & He & Hf). unfold LoadDeployment. rewrite Hn, Hf. cbn [mbind result_bind].
  rewrite (deployment_decode _ _ He) by by apply Hsize. cbn [mbind result_bind].
  rewrite Hv. cbn [mbind result_bind]. rewrite He. cbn [mbind result_bind]. by rewrite bool_decide_eq_true_2.
Qed.

Lemma distinctFingerprints_spec seen fingerprints :
  distinctFingerprints seen fingerprints = true →
  Forall (λ f, MatchFull fingerprintPattern f = true) fingerprints ∧ NoDup fingerprints ∧ ∀ f, f ∈ fingerprints → f ∉ seen.
Proof.
  revert seen; induction fingerprints as [|f l IH]; intros seen; cbn [distinctFingerprints].
  { intros _. split; [constructor|]. split; [constructor|set_solver]. }
  intros Hd. split_bools. destruct (IH _ ltac:(eassumption)) as (Hf & Hnd & Hs). split; [by constructor|].
  split; [constructor; [|done]; intros Hin; specialize (Hs f Hin); set_solver|].
  intros x [->|Hx]%elem_of_cons; [done|]. specialize (Hs x Hx). set_solver.
Qed.

(** The signing state of a valid receipt is one of the four of a rotation:
    unsigned, one trusted key that is active, the active key with its successor
    while it is introduced, or the base key with the active successor once it is
    activated; in a rotation the two keys differ and the refresh window is at least
    seven days. *)
Theorem deployment_signing_states record repository :
  ValidateDeploymentRecord record repository = Ok () → record ≠ noDeployment →
  let active := dep_ActiveSigningFingerprint record in
  let trusted := dep_TrustedSigningFingerprints record in
  let phase := dep_SigningRotationPhase record in
  let refresh := dep_SigningMinimumRefreshSeconds record in
  dep_NativeRevision record ≠ "" ∧
  ((active = "" ∧ trusted = [] ∧ phase = "" ∧ refresh = 0 ∧ dep_TrustSince record = "") ∨
   (active ≠ "" ∧ (∃ t, ParseRFC3339 (dep_TrustSince record) = Some t) ∧
    ((phase = "" ∧ trusted = [active] ∧ refresh = 0) ∨
     (phase = "introducing" ∧ MinimumSigningRefreshSeconds ≤ refresh ∧ ∃ successor, trusted = [active; successor] ∧ successor ≠ active) ∨
     (phase = "activated" ∧ MinimumSigningRefreshSeconds ≤ refresh ∧ ∃ base, trusted = [base; active] ∧ base ≠ active)))).
Proof.
  intros Hv Hne. cbn zeta. unfold ValidateDeploymentRecord in Hv. rewrite bool_decide_eq_false_2 in Hv by done.
  destruct (_ || _) eqn:E in Hv; [done|]. clear Hv. apply orb_false_iff in E as [E Hs%negb_false_iff].
  apply orb_false_iff in E as [_ Hid%negb_false_iff].
  split; [unfold validDeploymentIdentity in Hid; by split_bools|].
  assert (∀ b, b && unsignedDeployment record = true → unsignedDeployment record = true) as Hb by (by intros []).
  assert (dep_ActiveSigningFingerprint record = "" → unsignedDeployment record = true →
    dep_ActiveSigningFingerprint record = "" ∧ dep_TrustedSigningFingerprints record = [] ∧
    dep_SigningRotationPhase record = "" ∧ dep_SigningMinimumRefreshSeconds record = 0 ∧ dep_TrustSince record = "") as Hu.
  { intros ? Hu. unfold unsignedDeployment in Hu. split_bools. by rewrite Z.eqb_eq in *. }
  unfold validDeploymentSigning in Hs. cbn zeta in Hs.
  destruct (dep_SchemaVersion record =? 1); [left; split_bools; by apply Hu|].
  case_bool_decide as Ea; [left; by apply Hu|]. right. split; [done|].
  destruct (_ || _) eqn:E1 in Hs; [done|]. destruct (_ || _) eqn:E2 in Hs; [done|]. destruct (_ || _) eqn:E3 in Hs; [done|].
  apply andb_true_iff in Hs as [[Hd _]%andb_true_iff Ht]. apply negb_true_iff, bool_decide_eq_false in Ht.
  split; [destruct (ParseRFC3339 _) as [t|]; [by exists t|done]|].
  apply distinctFingerprints_spec in Hd as (_ & Hnd & _). split_bools.
  set (active := dep_ActiveSigningFingerprint record) in *. set (trusted := dep_TrustedSigningFingerprints record) in *.
  set (phase := dep_SigningRotationPhase record) in *. set (refresh := dep_SigningMinimumRefreshSeconds record) in *.
  clearbody active trusted phase refresh. clear Hu Hb Ea Hne Ht Hid.
  destruct (bool_decide (phase = "")) eqn:P1; [|destruct (bool_decide (phase = "introducing")) eqn:P2;
    [|destruct (bool_decide (phase = "activated")) eqn:P3; [|done]]]; cbn [negb andb] in *; split_bools; subst phase.
  - left. destruct trusted as [|x [|y trusted]]; try done. rewrite Z.eqb_eq in *. by simplify_eq/=.
  - right; left. split; [done|]. split; [by apply Z.ltb_ge|].
    destruct trusted as [|x [|y [|z trusted]]]; try done. simplify_eq/=. exists y. split; [done|].
    apply NoDup_cons in Hnd as [Hnd _]. set_solver.
  - right; right. split; [done|]. split; [by apply Z.ltb_ge|].
    destruct trusted as [|x [|y [|z trusted]]]; try done. simplify_eq/=. exists x. split; [done|].
    apply NoDup_cons in Hnd as [Hnd _]. set_solver.
Qed.
End proofs.

Module DeploymentExample.
#[local] Instance json_lib : JsonLib := {| Tokens _ := ([TAtom "receipt"], true) |}.
#[local] Instance time_lib : TimeLib := {| ParseRFC3339 s := if bool_decide (s = "2026-01-01T00:00:00Z") then Some 0 else None |}.

Definition digest : string := "0123456789abcdef0123456789abcdef0123456789abcdef0123456789abcdef".
Definition fingerprint : string := "0123456789abcdef0123456789abcdef01234567".
Definition receipt : DeploymentRecord :=
  mkDeployment DeploymentSchema "apt" digest "apt:0123456789ab" digest "" "r1" "2026-01-01T00:00:00Z" fingerprint
    [fingerprint] "keys/apt-archive-keyring.gpg" "" 0 "2026-01-01T00:00:00Z".

#[local] Instance deployment_lib : DeploymentLib := {|
  UnmarshalDeployment c := if bool_decide (c = "receipt" +:+ String "010" "") then Ok receipt else Err "unknown";
  MarshalDeployment r := if bool_decide (r = receipt) then Ok "receipt" else Err "unknown";
|}.
#[local] Instance deployment_laws : DeploymentLaws.
Proof.
  split. intros record content. unfold encodeDeployment. cbn [MarshalDeployment deployment_lib].
  case_bool_decide as E; [|done]. cbn [mbind result_bind]. intros [= <-] Hlen. subst.
  unfold Decode. rewrite (proj2 (Nat.ltb_ge _ _) Hlen). reflexivity.
Qed.

Definition noFaults : Faults := mkFaults (λ _, true) (λ _, Done) (λ _, Done).
Definition commit := CommitDeployments noFaults (λ _ _, Ok "c1") "c0" [receipt] ∅.

Lemma deployment_roundtrip_witness :
  LoadDeployment "apt" (commit.1 !! "apt") = Ok receipt.
Proof.
  apply (deployment_roundtrip noFaults (λ _ _, Ok "c1") "c0" [receipt] ∅ commit.1 "c1" receipt).
  - vm_compute. reflexivity.
  - apply list_elem_of_here.
  - intros content Hc. vm_compute in Hc. injection Hc as <-. apply Nat2Z.inj_le.
    unfold maximumDeployment. rewrite Z2Nat.id by lia. discriminate.
Defined.

Lemma deployment_signing_states_witness :
  dep_NativeRevision receipt ≠ "".
Proof.
  apply (deployment_signing_states receipt "apt").
  - vm_compute. reflexivity.
  - discriminate.
Defined.
End DeploymentExample.
