(* ===== verification/Signing.v ===== *)
(** What a repository's signatures are made over and where they go
    ([formats/signing.go], [engine/signing_recipe.go]), the signing part of a plan
    ([internal/state/model.go]) and how a plan's signatures are checked before its
    repository is rebuilt ([engine/signing.go]).

    A format's [Signer] is a function of its tag, as its [Format] is.  The payloads
    and the signatures themselves are bytes made and checked by signing libraries;
    the shape, the identities and the paths are what a reviewed plan is held to. *)

From S2P Require Import Prelude GoStrings GoSlices Model Formats Source Lock Forge PlanJson Manifest.

Open Scope Z_scope.

(** ** Planned signatures *)

Record SigningNode := mkSigningNode {
  node_ID : string; node_Kind : string; node_DependsOn : list string; node_Scheme : string;
  node_PayloadSHA256 : string; node_OutputPath : string; node_ContentSHA256 : string; node_Content : string;
}.
#[export] Instance SigningNode_eq_dec : EqDecision SigningNode.
Proof. solve_decision. Defined.

Record PlanPublicKey := mkPlanPublicKey {
  ppk_KeyName : string; ppk_Fingerprint : string; ppk_PublicKeyPath : string; ppk_PublicKeySHA256 : string;
}.
#[export] Instance PlanPublicKey_eq_dec : EqDecision PlanPublicKey.
Proof. solve_decision. Defined.

Record PlanSigning := mkPlanSigning {
  sig_KeyName : string; sig_Algorithm : string; sig_Fingerprint : string;
  sig_PublicKeyPath : string; sig_PublicKeySHA256 : string; sig_PublicArmorPath : string; sig_PublicArmorSHA256 : string;
  sig_SignatureTime : string; sig_RecipeSHA256 : string; sig_KeyringPath : string; sig_KeyringSHA256 : string;
  sig_TrustedKeys : list PlanPublicKey; sig_RotationPhase : string; sig_MinimumRefreshSeconds : Z;
  sig_Nodes : list SigningNode;
}.
#[export] Instance PlanSigning_eq_dec : EqDecision PlanSigning.
Proof. solve_decision. Defined.

(** ** The shape of a format's signatures *)

Definition SchemeOpenPGPCleartext : string := "openpgp-cleartext-v4".
Definition SchemeOpenPGPDetached : string := "openpgp-detached-armored-v4".
Definition SchemeAPKRSA256 : string := "apk-rsa-pkcs1-sha256-v1".

Record SigningOutput := mkSigningOutput { out_ID : string; out_Scheme : string; out_Path : string }.
Record SigningShape := mkSigningShape { shape_PayloadID : string; shape_Outputs : list SigningOutput }.
Record PublishedArtifact := mkPublishedArtifact { published_Filename : string; published_SHA256 : string }.

Definition defaulted (value fallback : string) : string := if bool_decide (value = "") then fallback else value.

Definition SignerFor (name : string) : result Format :=
  selected ← For name;
  if ImplementsSigning selected then Ok selected else Err "repository signing is not implemented for format".

(** The payload and the schemes a format declares. *)
Definition DeclaredNode (f : Format) : string * list string :=
  match f with
  | debFormat => ("deb-release", [SchemeOpenPGPCleartext; SchemeOpenPGPDetached])
  | rpmFormat => ("rpm-repomd", [SchemeOpenPGPDetached])
  | apkFormat => ("apk-index", [SchemeAPKRSA256])
  | helmFormat => ("helm-provenance", [SchemeOpenPGPCleartext])
  | pypiFormat | rawFormat => ("", [])
  end.

Definition debSigningShape (repository : RepositoryView) : SigningShape :=
  let suite := PathJoin ["dists"; defaulted (view_Suite repository) "stable"] in
  mkSigningShape "deb-release"
    [mkSigningOutput "deb-inrelease" SchemeOpenPGPCleartext (PathJoin [suite; "InRelease"]);
     mkSigningOutput "deb-release-gpg" SchemeOpenPGPDetached (PathJoin [suite; "Release.gpg"])].

Definition rpmSigningShape : SigningShape :=
  mkSigningShape "rpm-repomd" [mkSigningOutput "rpm-repomd-asc" SchemeOpenPGPDetached "repodata/repomd.xml.asc"].

Definition apkSigningShape (repository : RepositoryView) : result SigningShape :=
  let outputs := (λ architecture, mkSigningOutput ("apk-index-" +:+ architecture) SchemeAPKRSA256
                    (PathJoin [architecture; "APKINDEX.tar.gz"])) <$> view_Architectures repository in
  match outputs with
  | [] => Err "an Alpine repository must serve at least one architecture to be signed"
  | _ => Ok (mkSigningShape "apk-index" outputs)
  end.

Definition helmSigningShape (published : list string) : SigningShape :=
  mkSigningShape "helm-provenance"
    ((λ chart, mkSigningOutput ("helm-provenance-" +:+ chart) SchemeOpenPGPCleartext (chart +:+ ".prov")) <$> published).

(** [Signer.SigningShape]. *)
Definition ShapeOf (f : Format) (repository : RepositoryView) (published : list string) : result SigningShape :=
  match f with
  | debFormat => Ok (debSigningShape repository)
  | rpmFormat => Ok rpmSigningShape
  | apkFormat => apkSigningShape repository
  | helmFormat => Ok (helmSigningShape published)
  | pypiFormat | rawFormat => Err "not a signer"
  end.

Definition ChartPath (digest filename : string) : string := PathJoin ["charts"; digest; filename].

Fixpoint distinctPaths (seen : gset string) (paths : list string) : list string :=
  match paths with
  | [] => []
  | path :: rest =>
      if bool_decide (path ∈ seen) then distinctPaths seen rest else path :: distinctPaths ({[path]} ∪ seen) rest
  end.

Definition PublishedPaths (f : Format) (artifacts : list PublishedArtifact) : list string :=
  match f with
  | helmFormat => Strings (distinctPaths ∅ ((λ a, ChartPath (published_SHA256 a) (published_Filename a)) <$> artifacts))
  | _ => []
  end.

(** [signingRepositoryView]. *)
Definition signingRepositoryView (repository : Repository) : RepositoryView :=
  mkView (repo_Suite repository) (repo_Architectures repository) (negb (length (repo_SigningKeys repository) =? 0)%nat).

(** The engine's recipe is the shape without its payloads. *)
Definition signingShapeFor (repository : Repository) (published : list string) : result SigningShape :=
  signing ← SignerFor (repo_Format repository);
  ShapeOf signing (signingRepositoryView repository) published.

(** ** Checking planned signatures *)

(** [formats.Names], sorted. *)
Definition Names : list string := Strings registry.*1.

Definition knownSigningNode (scheme payloadID : string) : bool :=
  existsb (λ name, match SignerFor name with
                   | Ok signing => let '(declared, schemes) := DeclaredNode signing in
                                   bool_decide (declared = payloadID) && existsb (λ c, bool_decide (c = scheme)) schemes
                   | Err _ => false
                   end) Names.

(** [path.IsAbs(p) || path.Clean(p) != p || strings.HasPrefix(p, "../")]. *)
Definition unsafePath (p : string) : bool :=
  HasPrefix p "/" || negb (bool_decide (Clean p = p)) || HasPrefix p "../".

Fixpoint validateNodes (payloadID : string) (nodes : list SigningNode) (outputs : list SigningOutput) : result () :=
  match nodes, outputs with
  | node :: nodes, want :: outputs =>
      refuse "signing recipe has invalid node identity or dependencies"
        when negb (bool_decide (node_ID node = out_ID want)) || negb (bool_decide (node_Kind node = "sign")) ||
             negb (bool_decide (node_Scheme node = out_Scheme want)) || negb (bool_decide (node_OutputPath node = out_Path want));
      refuse "signing recipe has invalid node identity or dependencies"
        when negb (bool_decide (node_DependsOn node = [payloadID]));
      refuse "signing recipe has an unsafe output path" when unsafePath (node_OutputPath node);
      validateNodes payloadID nodes outputs
  | _, _ => Ok ()
  end.

Definition validateRecipeNodes (nodes : list SigningNode) (recipe : SigningShape) : result () :=
  refuse "signing recipe has a number of responses other than wanted"
    when negb (length nodes =? length (shape_Outputs recipe))%nat;
  validateNodes (shape_PayloadID recipe) nodes (shape_Outputs recipe).

Definition maxSigningNodes : nat := 1024.

(** [json.Marshal] of the recipe: the signing without its digest and the contents. *)
Class RecipeLib := { MarshalRecipe : PlanSigning → string }.

Definition signingRecipeDigest `{HashLib, RecipeLib} (signing : PlanSigning) : string :=
  SHA256Hex (MarshalRecipe
    (mkPlanSigning (sig_KeyName signing) (sig_Algorithm signing) (sig_Fingerprint signing) (sig_PublicKeyPath signing)
       (sig_PublicKeySHA256 signing) (sig_PublicArmorPath signing) (sig_PublicArmorSHA256 signing) (sig_SignatureTime signing)
       "" (sig_KeyringPath signing) (sig_KeyringSHA256 signing) (sig_TrustedKeys signing) (sig_RotationPhase signing)
       (sig_MinimumRefreshSeconds signing)
       ((λ n, mkSigningNode (node_ID n) (node_Kind n) (node_DependsOn n) (node_Scheme n) (node_PayloadSHA256 n)
                (node_OutputPath n) (node_ContentSHA256 n) "") <$> sig_Nodes signing))).

(** The loop over the trusted keys. *)
Fixpoint validTrustedKeys (signing : PlanSigning) (seen : gset string) (trusted : list PlanPublicKey) (foundActive : bool)
    : result bool :=
  match trusted with
  | [] => Ok foundActive
  | key :: rest =>
      refuse "signing recipe has invalid trusted key"
        when bool_decide (ppk_KeyName key = "") || bool_decide (ppk_KeyName key ∈ seen) ||
             negb (ValidFingerprint (ppk_Fingerprint key)) || negb (ValidSHA256 (ppk_PublicKeySHA256 key)) ||
             bool_decide (ppk_PublicKeyPath key = "");
      validTrustedKeys signing ({[ppk_KeyName key]} ∪ seen) rest
        (foundActive || (bool_decide (ppk_KeyName key = sig_KeyName signing) &&
                         bool_decide (ppk_Fingerprint key = sig_Fingerprint signing)))
  end.

(** A node of a plan read before its repository is rebuilt. *)
Definition validNode (node : SigningNode) : bool :=
  bool_decide (node_Kind node = "sign") &&
  match node_DependsOn node with
  | [payloadID] => knownSigningNode (node_Scheme node) payloadID
  | _ => false
  end &&
  negb (bool_decide (node_OutputPath node = "")) && negb (unsafePath (node_OutputPath node)).

Definition validateSigningRecipeMetadata `{HashLib, RecipeLib} (signing : PlanSigning) (recipe : option SigningShape)
    : result () :=
  let nodes := length (sig_Nodes signing) in
  let trusted := length (sig_TrustedKeys signing) in
  let phase := sig_RotationPhase signing in
  let rotating := bool_decide (phase = "introducing") || bool_decide (phase = "activated") in
  refuse "signing recipe digest does not match its nodes"
    when (nodes =? 0)%nat || (maxSigningNodes <? nodes)%nat ||
         negb (bool_decide (sig_RecipeSHA256 signing = signingRecipeDigest signing)) ||
         negb (ValidSHA256 (sig_KeyringSHA256 signing)) || HasPrefix (sig_KeyringPath signing) "/" ||
         negb (bool_decide (Clean (sig_KeyringPath signing) = sig_KeyringPath signing)) ||
         negb (HasPrefix (sig_KeyringPath signing) "keys/") || negb (HasSuffix (sig_KeyringPath signing) ".gpg") ||
         (trusted =? 0)%nat;
  refuse "signing recipe has invalid rotation trust state"
    when (bool_decide (phase = "") && (negb (sig_MinimumRefreshSeconds signing =? 0) || negb (trusted =? 1)%nat)) ||
         (rotating && ((sig_MinimumRefreshSeconds signing <? MinimumSigningRefreshSeconds) || negb (trusted =? 2)%nat)) ||
         (negb (bool_decide (phase = "")) && negb rotating);
  foundActive ← validTrustedKeys signing ∅ (sig_TrustedKeys signing) false;
  refuse "signing recipe trust set omits active signer" when negb foundActive;
  match recipe with
  | Some recipe => validateRecipeNodes (sig_Nodes signing) recipe
  | None =>
      refuse "signing recipe has invalid node identity or dependencies" when negb (forallb validNode (sig_Nodes signing));
      Ok ()
  end.
