(* ===== verification/Plan.v ===== *)
(** A plan's records ([internal/state/model.go]), what a repository publishes
    ([visiblePackageVersions] and the bindings and acquisitions derived from it in
    [engine/workspace.go]) and the check of a plan on its own before it is approved
    or applied ([validateApplyPlan]). *)

From S2P Require Import Prelude GoStrings GoSlices Model Formats Source Lock JsonStrict Ledger Forge PlanJson Gate Manifest.
From S2P Require Import Host Deployment Signing.

Open Scope Z_scope.

Record PlanPublicationBinding := mkBinding { binding_Package : string; binding_Version : string; binding_BlobSHA256 : list string }.
#[export] Instance PlanPublicationBinding_eq_dec : EqDecision PlanPublicationBinding.
Proof. solve_decision. Defined.

Record PlanAcquisition := mkAcquisition {
  acq_Package : string; acq_Version : string; acq_Filename : string; acq_SHA256 : string; acq_OriginURL : string;
}.
#[export] Instance PlanAcquisition_eq_dec : EqDecision PlanAcquisition.
Proof. solve_decision. Defined.

Record PlanRepository := mkPlanRepository {
  plan_Name : string; plan_Gate : string; plan_ApprovalKeys : list string; plan_Format : string; plan_LockSHA256 : string;
  plan_Host : HostConfig; plan_Visibility : string; plan_HostIdentitySHA256 : string; plan_CanonicalEndpoint : string;
  plan_InstallDocSHA256 : string; plan_ObservedRevision : string; plan_ObservedPlanID : string; plan_ObservedChangeID : string;
  plan_ObservedReleaseSHA256 : string; plan_ObservedManifestSHA256 : string; plan_ObservedRestoreID : string;
  plan_ObservedRestoreSHA256 : string; plan_ObservedRestoreRootSHA256 : string; plan_ObservedDeployment : DeploymentRecord;
  plan_FaithfulPreview : bool; plan_ConditionalCommit : bool; plan_ConditionalRestore : bool; plan_PrivateRead : bool;
  plan_CredentialBrokerIdentity : string; plan_Signing : list PlanSigning; plan_PublicationRecords : bool;
  plan_PublicationBindings : list PlanPublicationBinding; plan_Acquisitions : list PlanAcquisition;
  plan_ObservedTreeSHA256 : string; plan_DesiredTreeSHA256 : string; plan_DesiredManifestSHA256 : string;
  plan_ChangeID : string; plan_Action : string;
}.

(** [state.PlanPayload] with the identifier it is published under. *)
Record Payload := mkPayload {
  pay_PlanID : string; pay_EngineVersion : string; pay_GitRevision : string; pay_ManifestSHA256 : string; pay_WorkspaceID : string;
  pay_Forge : string; pay_ForgeRepository : string; pay_ForgeHost : string; pay_GeneratedAt : string; pay_CreatedAt : string;
  pay_ExpiresAt : string; pay_VerificationMode : string; pay_BlobStore : BlobStoreConfig; pay_BlobStoreIdentitySHA256 : string;
  pay_KnowledgeSHA256 : string; pay_Repositories : list PlanRepository;
}.

(** ** What a repository publishes *)

Definition versionKey (package version : string) : string := package +:+ nul +:+ version.

(** Whether a placement puts a version in the repository's view. *)
Definition placementActive (repository : Repository) (placement : Placement) : bool :=
  bool_decide (pl_Track placement = repo_Track repository) &&
  (if bool_decide (repo_Format repository = "deb") then bool_decide (pl_Distro placement = repo_Suite repository)
   else bool_decide (pl_Distro placement = "")).

Definition visiblePackageVersions (lock : RepositoryLock) (repository : Repository) : list PackageVersion :=
  let active : gset string :=
    list_to_set ((λ p, versionKey (pl_Package p) (pl_Version p)) <$> List.filter (placementActive repository) (lock_Placement lock)) in
  List.filter (λ pv, bool_decide (versionKey (pv_Package pv) (pv_Version pv) ∈ active)) (lock_PackageVersion lock).

Definition activeRepositoryLock (lock : RepositoryLock) (repository : Repository) : RepositoryLock :=
  mkLock (lock_SchemaVersion lock) (lock_Repository lock) (visiblePackageVersions lock repository) (lock_Placement lock).

(** The digests last recorded for a version: [None] is the nil slice of a version
    the ledger does not have. *)
Definition recordedDigests (records : list PublicationRecord) : gmap string (list string) :=
  foldl (λ m r, <[versionKey (pub_Package r) (pub_Version r) := Strings (pub_BlobSHA256 r)]> m) ∅ records.

Definition bindingOf (version : PackageVersion) : PlanPublicationBinding :=
  mkBinding (pv_Package version) (pv_Version version) (Strings (SHA256 <$> pv_Blobs version)).

(** [reflect.DeepEqual] tells the nil slice of a version the ledger lacks from an
    empty one; a record without digests is read back as a nil slice, and copying it
    keeps it nil. *)
Definition bindingRecorded (published : gmap string (list string)) (version : PackageVersion) : bool :=
  match published !! versionKey (pv_Package version) (pv_Version version) with
  | Some (d :: ds) => bool_decide (d :: ds = Strings (SHA256 <$> pv_Blobs version))
  | _ => false
  end.

Definition missingPublicationBindings (lock : RepositoryLock) (repository : Repository) (records : list PublicationRecord)
    : list PlanPublicationBinding :=
  let published := recordedDigests records in
  bindingOf <$> List.filter (λ v, negb (bindingRecorded published v)) (visiblePackageVersions lock repository).

Definition publicationBindingsComplete (lock : RepositoryLock) (repository : Repository) (records : list PublicationRecord) : bool :=
  (length (missingPublicationBindings lock repository records) =? 0)%nat.

Definition publicationBindingsForVersions (versions : list PackageVersion) : list PlanPublicationBinding := bindingOf <$> versions.

Definition acquisitionsOf (version : PackageVersion) : list PlanAcquisition :=
  omap (λ locked, (λ origin, mkAcquisition (pv_Package version) (pv_Version version) (Filename locked) (SHA256 locked) (origin_URL origin))
                    <$> Origin locked) (pv_Blobs version).

Definition acquisitionLess (l r : PlanAcquisition) : bool :=
  less_then (acq_Package l) (acq_Package r)
    (less_then (acq_Version l) (acq_Version r)
       (less_then (acq_Filename l) (acq_Filename r) (str_ltb (acq_SHA256 l) (acq_SHA256 r)))).

Definition planAcquisitionsForVersions (versions : list PackageVersion) : list PlanAcquisition :=
  sort_slice acquisitionLess (versions ≫= acquisitionsOf).

(** ** A plan on its own *)

(** [knowledge.SigningDigest], the digest of the embedded compatibility table, and
    [json.Marshal] of a workspace and its blob store. *)
Class PlanKnowledge := {
  SigningDigest : string;
  MarshalBlobIdentity : string → BlobStoreConfig → result string;
}.

Section plan.
Context `{DeploymentLib, NetLib, HashLib, !ManifestLib, RecipeLib, PlanKnowledge}.

Definition blobIdentity (workspaceID : string) (configuration : BlobStoreConfig) : result string :=
  encoded ← MarshalBlobIdentity workspaceID configuration;
  Ok (SHA256Hex encoded).

Definition formatSupportsSigning (name : string) : bool :=
  match For name with Ok selected => ImplementsSigning selected | Err _ => false end.

(** Digests in strictly ascending order. *)
Fixpoint ascendingDigests (previous : string) (digests : list string) : bool :=
  match digests with
  | [] => true
  | digest :: rest => ValidSHA256 digest && str_ltb previous digest && ascendingDigests digest rest
  end.

Fixpoint validBindings (previousBinding : string) (bindings : list PlanPublicationBinding) : bool :=
  match bindings with
  | [] => true
  | binding :: rest =>
      let identity := versionKey (binding_Package binding) (binding_Version binding) in
      negb (bool_decide (binding_Package binding = "")) && negb (bool_decide (binding_Version binding = "")) &&
      negb (length (binding_BlobSHA256 binding) =? 0)%nat && str_ltb previousBinding identity &&
      ascendingDigests "" (binding_BlobSHA256 binding) && validBindings identity rest
  end.

Definition acquisitionKey (acquisition : PlanAcquisition) : string :=
  acq_Package acquisition +:+ nul +:+ acq_Version acquisition +:+ nul +:+ acq_Filename acquisition +:+ nul +:+ acq_SHA256 acquisition.

Fixpoint validAcquisitions (previousAcquisition : string) (acquisitions : list PlanAcquisition) : bool :=
  match acquisitions with
  | [] => true
  | acquisition :: rest =>
      let identity := acquisitionKey acquisition in
      negb (bool_decide (acq_Package acquisition = "")) && negb (bool_decide (acq_Version acquisition = "")) &&
      negb (bool_decide (acq_Filename acquisition = "")) && ValidSHA256 (acq_SHA256 acquisition) &&
      str_ltb previousAcquisition identity &&
      is_ok (ValidateArtifactOrigin (mkOrigin "https" (acq_OriginURL acquisition) "")) && validAcquisitions identity rest
  end.

(** The size limit of a signing response: 8 MiB. *)
Definition maximumResponse : Z := 8 * 2 ^ 20.

Definition validPlanSigning (format : string) (signing : PlanSigning) : bool :=
  formatSupportsSigning format && negb (bool_decide (sig_KeyName signing = "")) &&
  (bool_decide (sig_Algorithm signing = "openpgp-rsa4096") || bool_decide (sig_Algorithm signing = "apk-rsa4096")) &&
  ValidFingerprint (sig_Fingerprint signing) && ValidSHA256 (sig_PublicKeySHA256 signing) &&
  ValidSHA256 (sig_PublicArmorSHA256 signing) && ValidSHA256 (sig_RecipeSHA256 signing) &&
  negb (bool_decide (sig_PublicKeyPath signing = "")) && negb (bool_decide (sig_PublicArmorPath signing = "")) &&
  negb (length (sig_Nodes signing) =? 0)%nat && (length (sig_Nodes signing) <=? maxSigningNodes)%nat &&
  match ParseRFC3339 (sig_SignatureTime signing) with Some _ => true | None => false end &&
  is_ok (validateSigningRecipeMetadata signing None) &&
  forallb (λ node, ValidSHA256 (node_PayloadSHA256 node) && ValidSHA256 (node_ContentSHA256 node) &&
                   negb (bool_decide (node_Content node = "")) &&
                   (Z.of_nat (String.length (node_Content node)) <=? maximumResponse)) (sig_Nodes signing).

(** A digest that may be absent. *)
Definition absentOrDigest (digest : string) : bool := bool_decide (digest = "") || ValidSHA256 digest.

(** [name + ":" + tree[:12]]. *)
Definition changeIDOf (name tree : string) : string := name +:+ ":" +:+ stake 12 tree.

Definition validObservation (repository : PlanRepository) : bool :=
  if bool_decide (plan_ObservedTreeSHA256 repository = "") then
    bool_decide (plan_ObservedPlanID repository = "") && bool_decide (plan_ObservedChangeID repository = "") &&
    bool_decide (plan_ObservedReleaseSHA256 repository = "") && bool_decide (plan_ObservedManifestSHA256 repository = "") &&
    bool_decide (plan_ObservedRestoreID repository = "") && bool_decide (plan_ObservedRestoreSHA256 repository = "") &&
    bool_decide (plan_ObservedRestoreRootSHA256 repository = "")
  else
    negb (bool_decide (plan_ObservedRevision repository = "")) && ValidSHA256 (plan_ObservedPlanID repository) &&
    bool_decide (plan_ObservedChangeID repository = changeIDOf (plan_Name repository) (plan_ObservedTreeSHA256 repository)) &&
    ValidSHA256 (plan_ObservedReleaseSHA256 repository) && ValidSHA256 (plan_ObservedManifestSHA256 repository) &&
    ValidSHA256 (plan_ObservedRestoreID repository) && ValidSHA256 (plan_ObservedRestoreSHA256 repository).

Definition hostTypeIs (repository : PlanRepository) (hostType : string) : bool :=
  bool_decide (host_Type (plan_Host repository) = hostType).

(** The body of the loop over a plan's repositories, after the duplicate check. *)
Definition validPlanRepository (forgeRepository : string) (repository : PlanRepository) : result () :=
  let managedRemote := hostTypeIs repository "s3" || hostTypeIs repository "github-pages" in
  let private := bool_decide (plan_Visibility repository = "private") in
  refuse "plan repository has invalid action"
    when negb (bool_decide (plan_Action repository ∈ ["create"; "update"; "noop"]));
  refuse "plan repository cannot record publications for a noop"
    when plan_PublicationRecords repository && bool_decide (plan_Action repository = "noop");
  refuse "plan repository has inconsistent publication bindings"
    when negb (Bool.eqb (plan_PublicationRecords repository) (negb (length (plan_PublicationBindings repository) =? 0)%nat));
  refuse "plan repository has invalid publication binding" when negb (validBindings "" (plan_PublicationBindings repository));
  refuse "plan repository has invalid adopted acquisition" when negb (validAcquisitions "" (plan_Acquisitions repository));
  _ ← ValidateGateConfiguration (plan_Gate repository) (plan_ApprovalKeys repository) forgeRepository;
  refuse "plan repository has invalid deployment observation"
    when negb (is_ok (ValidateDeploymentRecord (plan_ObservedDeployment repository) (plan_Name repository)));
  refuse "plan repository has an invalid digest"
    when negb (ValidSHA256 (plan_LockSHA256 repository)) || negb (ValidSHA256 (plan_DesiredTreeSHA256 repository)) ||
         negb (ValidSHA256 (plan_HostIdentitySHA256 repository)) || negb (absentOrDigest (plan_ObservedTreeSHA256 repository));
  refuse "plan repository has unsupported dual signing" when (1 <? length (plan_Signing repository))%nat;
  refuse "plan repository has invalid signing metadata"
    when negb (forallb (validPlanSigning (plan_Format repository)) (plan_Signing repository));
  refuse "plan repository has unsupported host type"
    when negb (hostTypeIs repository "local") && negb managedRemote;
  refuse "plan repository has no canonical endpoint" when bool_decide (plan_CanonicalEndpoint repository = "");
  refuse "plan repository has an invalid install document digest"
    when managedRemote && negb (ValidSHA256 (plan_InstallDocSHA256 repository));
  refuse "plan repository has an invalid desired manifest digest"
    when managedRemote && negb (ValidSHA256 (plan_DesiredManifestSHA256 repository));
  refuse "plan repository lacks private read capability" when private && negb (plan_PrivateRead repository);
  refuse "plan repository has an invalid credential broker identity"
    when private && negb (ValidSHA256 (plan_CredentialBrokerIdentity repository));
  refuse "plan repository has an invalid observed publication digest"
    when negb (forallb absentOrDigest [plan_ObservedReleaseSHA256 repository; plan_ObservedManifestSHA256 repository;
                                       plan_ObservedRestoreSHA256 repository; plan_ObservedRestoreRootSHA256 repository]);
  refuse "plan repository has an invalid observed publication"
    when hostTypeIs repository "s3" && negb (validObservation repository);
  refuse "plan repository has an invalid change ID"
    when negb (bool_decide (plan_ChangeID repository = changeIDOf (plan_Name repository) (plan_DesiredTreeSHA256 repository)));
  Ok ().

Fixpoint validPlanRepositories (forgeRepository : string) (seen : gset string) (repositories : list PlanRepository) : result () :=
  match repositories with
  | [] => Ok ()
  | repository :: rest =>
      _ ← ValidateRepositoryName (plan_Name repository);
      refuse "plan contains duplicate repository" when bool_decide (plan_Name repository ∈ seen);
      _ ← validPlanRepository forgeRepository repository;
      validPlanRepositories forgeRepository ({[plan_Name repository]} ∪ seen) rest
  end.

Definition validateApplyPlan (plan : Payload) : result () :=
  refuse "plan has an invalid manifest digest" when negb (ValidSHA256 (pay_ManifestSHA256 plan));
  refuse "plan signing compatibility knowledge is incompatible" when negb (bool_decide (pay_KnowledgeSHA256 plan = SigningDigest));
  refuse "plan has an invalid blob store binding"
    when negb (ValidSHA256 (pay_WorkspaceID plan)) || negb (ValidSHA256 (pay_BlobStoreIdentitySHA256 plan)) ||
         negb (is_ok (ValidateBlobStore (pay_BlobStore plan)));
  refuse "plan blob store identity does not match its configuration"
    when negb (bool_decide (blobIdentity (pay_WorkspaceID plan) (pay_BlobStore plan) = Ok (pay_BlobStoreIdentitySHA256 plan)));
  refuse "plan has an invalid verification mode"
    when negb (bool_decide (pay_VerificationMode plan = "structural")) && negb (bool_decide (pay_VerificationMode plan = "client"));
  match ParseRFC3339 (pay_CreatedAt plan), ParseRFC3339 (pay_ExpiresAt plan), ParseRFC3339 (pay_GeneratedAt plan) with
  | None, _, _ => Err "plan has an invalid creation time"
  | _, None, _ => Err "plan has an invalid expiry"
  | Some createdAt, Some expiresAt, generatedAt =>
      refuse "plan has an invalid expiry" when negb (createdAt <? expiresAt);
      match generatedAt with
      | None => Err "plan has an invalid generation time"
      | Some _ => validPlanRepositories (pay_ForgeRepository plan) ∅ (pay_Repositories plan)
      end
  end.

End plan.
