(* ===== verification/Rotation.v ===== *)
(** Repository signing and key rotation: the signing state of a repository, the
    transitions an apply accepts and the receipt it records
    ([engine/signing.go]), and the commands that start and advance a rotation
    ([engine/rotation.go]).

    Instants are nanoseconds; a [time.Duration] is an [int64], so products and sums
    of durations wrap around.  Formatting a time is a parameter. *)

From S2P Require Import Prelude GoStrings GoSlices GoRegexp Model Formats Source Forge PlanJson Manifest ManifestOps.
From S2P Require Import JsonStrict Host Deployment Signing Plan.

Open Scope Z_scope.

(** ** Durations *)

Definition int64 (z : Z) : Z := (z + 2 ^ 63) mod 2 ^ 64 - 2 ^ 63.
Definition Hour : Z := 3600 * Second.
(** [time.Duration(seconds) * time.Second] *)
Definition seconds (n : Z) : Z := int64 (n * Second).
(** [t.UTC().Truncate(time.Second)]; a zero time is a whole second. *)
Definition truncateSecond (t : Z) : Z := t - t mod Second.

(** ** The signing state of a repository *)

Record deploymentSigningState := mkSigningState {
  st_active : string; st_trusted : list string; st_keyring : string; st_phase : string; st_minimumRefresh : Z;
}.
Definition unsignedState : deploymentSigningState := mkSigningState "" [] "" "" 0.

(** The active key, the trusted keys, the phase and the refresh window. *)
Definition repositorySigningState (repository : Repository) : result (string * list string * string * Z) :=
  match repo_SigningKeys repository with
  | [] => Ok ("", [], "", 0)
  | [key] =>
      refuse "repository has invalid signing state" when bool_decide (repo_SigningKeyring repository = "");
      match repo_SigningRotation repository with
      | None => Ok (key, [key], "", 0)
      | Some rotation =>
          Ok (if bool_decide (Phase rotation = "activated") then SuccessorKey rotation else key,
              [key; SuccessorKey rotation], Phase rotation, MinimumRefreshSeconds rotation)
      end
  | _ => Err "repository has invalid signing state"
  end.

Fixpoint trustedFingerprints (keys : gmap string SigningKey) (names : list string) : result (list string) :=
  match names with
  | [] => Ok []
  | name :: rest =>
      match keys !! name with
      | None => Err "unknown trusted signing key"
      | Some key => fingerprints ← trustedFingerprints keys rest; Ok (key_Fingerprint key :: fingerprints)
      end
  end.

Definition repositoryDeploymentSigningState (repository : Repository) (keys : gmap string SigningKey)
    : result deploymentSigningState :=
  '(activeKey, trustedKeys, phase, minimumRefresh) ← repositorySigningState repository;
  if bool_decide (activeKey = "") then Ok unsignedState
  else match keys !! activeKey with
       | None => Err "unknown active signing key"
       | Some active =>
           trusted ← trustedFingerprints keys trustedKeys;
           Ok (mkSigningState (key_Fingerprint active) trusted (repo_SigningKeyring repository) phase minimumRefresh)
       end.

Definition deploymentSigningMatches (deployment : DeploymentRecord) (signing : deploymentSigningState) : bool :=
  bool_decide (dep_ActiveSigningFingerprint deployment = st_active signing) &&
  bool_decide (dep_TrustedSigningFingerprints deployment = st_trusted signing) &&
  bool_decide (dep_SigningRotationPhase deployment = st_phase signing) &&
  bool_decide (dep_SigningKeyringPath deployment = st_keyring signing) &&
  (dep_SigningMinimumRefreshSeconds deployment =? st_minimumRefresh signing) &&
  (bool_decide (st_active signing = "") || negb (bool_decide (dep_TrustSince deployment = ""))).

Definition deploymentMatchesDesired (deployment : DeploymentRecord) (observed : PublishedRevision)
    (treeSHA256 manifestSHA256 : string) (signing : deploymentSigningState) : bool :=
  ValidSHA256 treeSHA256 && bool_decide (dep_TreeSHA256 deployment = treeSHA256) &&
  bool_decide (dep_ManifestSHA256 deployment = manifestSHA256) && negb (bool_decide (dep_NativeRevision deployment = "")) &&
  bool_decide (dep_NativeRevision deployment = rev_NativeRevision observed) &&
  bool_decide (dep_ChangeID deployment = dep_Repository deployment +:+ ":" +:+ stake 12 treeSHA256) &&
  deploymentSigningMatches deployment signing.

Section signing.
Context `{TimeLib}.

(** A missing key reads as one whose dates do not parse. *)
Definition expiryOf (keys : gmap string SigningKey) (name : string) : option Z :=
  match keys !! name with Some key => ParseRFC3339 (key_ExpiresAt key) | None => ParseRFC3339 "" end.
Definition creationOf (keys : gmap string SigningKey) (name : string) : option Z :=
  match keys !! name with Some key => ParseRFC3339 (key_CreatedAt key) | None => ParseRFC3339 "" end.
Definition firstKey (repository : Repository) : string := default "" (head (repo_SigningKeys repository)).

Definition validateRotationKeyValidity (repository : Repository) (keys : gmap string SigningKey) (at_ : Z) : result () :=
  match repo_SigningRotation repository with
  | None => Ok ()
  | Some rotation =>
      let minimum := seconds (MinimumRefreshSeconds rotation) in
      let base := firstKey repository in
      match keys !! base, keys !! SuccessorKey rotation, expiryOf keys base, creationOf keys (SuccessorKey rotation),
            expiryOf keys (SuccessorKey rotation) with
      | Some _, Some _, Some baseExpires, Some successorCreated, Some successorExpires =>
          if bool_decide (Phase rotation = "introducing") then
            refuse "signing keys cannot remain valid through introduction and overlap"
              when (baseExpires <? at_ + int64 (minimum + 2 * Hour)) || (at_ + minimum <? successorCreated) ||
                   (successorExpires <? at_ + int64 (int64 (2 * minimum) + 2 * Hour));
            Ok ()
          else if bool_decide (Phase rotation = "activated") then
            refuse "successor signing key cannot remain valid through activated overlap"
              when successorExpires <? at_ + int64 (minimum + 2 * Hour);
            Ok ()
          else Ok ()
      | _, _, _, _, _ => Err "signing rotation key validity is invalid"
      end
  end.

(** The deployed state has stood for its refresh window. *)
Definition transitionReady (deployment : DeploymentRecord) (at_ trustNotBefore : Z) : bool :=
  negb (trustNotBefore =? zeroTime) && (MinimumSigningRefreshSeconds <=? dep_SigningMinimumRefreshSeconds deployment) &&
  negb (at_ <? trustNotBefore + seconds (dep_SigningMinimumRefreshSeconds deployment)).

(** The switch on the desired phase. *)
Definition phaseFollows (deployment : DeploymentRecord) (desired : deploymentSigningState) (at_ trustNotBefore : Z) : bool :=
  let deployed := dep_TrustedSigningFingerprints deployment in
  if bool_decide (st_phase desired = "introducing") then
    bool_decide (dep_SigningRotationPhase deployment = "") && (dep_SigningMinimumRefreshSeconds deployment =? 0) &&
    bool_decide (dep_ActiveSigningFingerprint deployment = st_active desired) &&
    bool_decide (deployed = take 1 (st_trusted desired))
  else if bool_decide (st_phase desired = "activated") then
    bool_decide (dep_SigningRotationPhase deployment = "introducing") &&
    (dep_SigningMinimumRefreshSeconds deployment =? st_minimumRefresh desired) &&
    (length (st_trusted desired) =? 2)%nat &&
    bool_decide (st_trusted desired !! 0%nat = Some (dep_ActiveSigningFingerprint deployment)) &&
    bool_decide (st_trusted desired !! 1%nat = Some (st_active desired)) &&
    bool_decide (deployed = st_trusted desired) && transitionReady deployment at_ trustNotBefore
  else if bool_decide (st_phase desired = "") then
    bool_decide (dep_SigningRotationPhase deployment = "activated") && (length deployed =? 2)%nat &&
    (length (st_trusted desired) =? 1)%nat && bool_decide (dep_ActiveSigningFingerprint deployment = st_active desired) &&
    bool_decide (st_trusted desired !! 0%nat = Some (st_active desired)) &&
    bool_decide (deployed !! 1%nat = Some (st_active desired)) && transitionReady deployment at_ trustNotBefore
  else false.

Definition validateRepositorySigningTransition (repository : Repository) (keys : gmap string SigningKey)
    (deployment : DeploymentRecord) (observed : PublishedRevision) (at_ trustNotBefore : Z) : result () :=
  desired ← repositoryDeploymentSigningState repository keys;
  _ ← validateRotationKeyValidity repository keys at_;
  if bool_decide (dep_NativeRevision deployment = "") then
    refuse "signing rotation requires a deployed stable signing state" when negb (bool_decide (st_phase desired = ""));
    Ok ()
  else if deploymentSigningMatches deployment desired then Ok ()
  else
    refuse "deployed signing state no longer matches the canonical repository"
      when negb (bool_decide (dep_NativeRevision deployment = rev_NativeRevision observed)) ||
           negb (bool_decide (dep_TreeSHA256 deployment = rev_TreeSHA256 observed)) ||
           (negb (bool_decide (dep_ManifestSHA256 deployment = "")) && negb (bool_decide (rev_ManifestSHA256 observed = "")) &&
            negb (bool_decide (dep_ManifestSHA256 deployment = rev_ManifestSHA256 observed)));
    refuse "removing repository signing is not an authorized transition" when bool_decide (st_active desired = "");
    refuse "repository signing keyring path cannot change after deployment"
      when negb (bool_decide (dep_ActiveSigningFingerprint deployment = "")) &&
           negb (bool_decide (dep_SigningKeyringPath deployment = st_keyring desired));
    if bool_decide (dep_ActiveSigningFingerprint deployment = "") && bool_decide (st_phase desired = "") then Ok ()
    else if phaseFollows deployment desired at_ trustNotBefore then Ok ()
    else Err "repository signing change skips a required deployed rotation phase or refresh window".

(** ** The receipt an apply records *)

Definition deploymentRecordFor (FormatRFC3339 : Z → string) (planned : PlanRepository) (previous : DeploymentRecord)
    (observed : PublishedRevision) (signing : deploymentSigningState) (nativeRevision planID deployedAt : string) (now : Z)
    : DeploymentRecord :=
  let continuousPublication :=
    bool_decide (dep_NativeRevision previous = rev_NativeRevision observed) &&
    bool_decide (dep_TreeSHA256 previous = rev_TreeSHA256 observed) &&
    (bool_decide (rev_ManifestSHA256 observed = "") || bool_decide (dep_ManifestSHA256 previous = rev_ManifestSHA256 observed)) in
  let trustSince :=
    if bool_decide (st_active signing = "") then ""
    else if continuousPublication && bool_decide (dep_ActiveSigningFingerprint previous = st_active signing) &&
            bool_decide (dep_TrustedSigningFingerprints previous = st_trusted signing) &&
            bool_decide (dep_SigningKeyringPath previous = st_keyring signing) &&
            bool_decide (dep_SigningRotationPhase previous = st_phase signing) &&
            (dep_SigningMinimumRefreshSeconds previous =? st_minimumRefresh signing) &&
            negb (bool_decide (dep_TrustSince previous = ""))
    then dep_TrustSince previous
    else FormatRFC3339 (truncateSecond now) in
  mkDeployment 0 (plan_Name planned) planID (plan_ChangeID planned) (plan_DesiredTreeSHA256 planned)
    (plan_DesiredManifestSHA256 planned) nativeRevision deployedAt (st_active signing) (st_trusted signing)
    (st_keyring signing) (st_phase signing) (st_minimumRefresh signing) trustSince.
End signing.

(** ** The rotation commands *)

Record RotateKeyRequest := mkRotateKey {
  rot_Repository : string; rot_Successor : string; rot_Advance : bool; rot_MinimumRefresh : Z; rot_ExpiresIn : Z;
}.
Record RotateKeyResult := mkRotateKeyResult {
  res_Repository : string; res_PreviousKey : string; res_SuccessorKey : string; res_Phase : string; res_ActiveKey : string;
  res_TrustedKeys : list string; res_EarliestAdvance : string; res_RequiresDeploy : bool;
}.

Definition defaultRotationRefresh : Z := 30 * 24 * Hour.

Definition set_rotation (rotation : option SigningRotation) (r : Repository) : Repository :=
  mkRepository (repo_Format r) (repo_Lock r) (repo_Host r) (repo_Visibility r) (repo_Gate r) (repo_ApprovalKeys r)
    (repo_SigningKeys r) (repo_SigningKeyring r) rotation (repo_Keep r) (repo_Track r) (repo_Suite r)
    (repo_Component r) (repo_Architectures r).
Definition set_signing_keys (signingKeys : list string) (r : Repository) : Repository :=
  mkRepository (repo_Format r) (repo_Lock r) (repo_Host r) (repo_Visibility r) (repo_Gate r) (repo_ApprovalKeys r)
    signingKeys (repo_SigningKeyring r) (repo_SigningRotation r) (repo_Keep r) (repo_Track r) (repo_Suite r)
    (repo_Component r) (repo_Architectures r).
Definition set_keys (keys : gmap string SigningKey) (manifest : Manifest) : Manifest :=
  mkManifest (man_SchemaVersion manifest) (man_Workspace manifest) (man_BlobStore manifest) keys (man_Repositories manifest).

(** An error of [repositorySigningState] is ignored, its other results being zero. *)
Definition rotationResult (repositoryName : string) (repository : Repository) (requiresDeploy : bool) : RotateKeyResult :=
  let '(active, trusted, phase, _) :=
    match repositorySigningState repository with Ok state => state | Err _ => ("", [], "", 0) end in
  match repo_SigningRotation repository with
  | Some rotation =>
      mkRotateKeyResult repositoryName (firstKey repository) (SuccessorKey rotation) phase active trusted "" requiresDeploy
  | None => mkRotateKeyResult repositoryName "" "" "stable" active trusted "" requiresDeploy
  end.
Definition set_earliest (earliest : string) (r : RotateKeyResult) : RotateKeyResult :=
  mkRotateKeyResult (res_Repository r) (res_PreviousKey r) (res_SuccessorKey r) (res_Phase r) (res_ActiveKey r)
    (res_TrustedKeys r) earliest (res_RequiresDeploy r).

(** The files a command reads: the manifest, the repository's receipt and the
    time of the commit that recorded it. *)
Record RotationFiles := mkRotationFiles {
  rf_Manifest : result Manifest;
  rf_Deployment : result DeploymentRecord;
  rf_CommittedAt : result Z;
}.

Section commands.
Context `{NetLib, TimeLib, HashLib, !ManifestLib}.
Context (FormatRFC3339 : Z → string).

Definition validateRotationAdvanceValidity (repository : Repository) (rotation : SigningRotation)
    (keys : gmap string SigningKey) (now : Z) : result () :=
  match expiryOf keys (firstKey repository), expiryOf keys (SuccessorKey rotation) with
  | Some baseExpires, Some successorExpires =>
      if bool_decide (Phase rotation = "introducing") then
        let minimum := seconds (MinimumRefreshSeconds rotation) in
        refuse "signing keys cannot remain valid through activated overlap"
          when (baseExpires <? now + 2 * Hour) || (successorExpires <? now + int64 (minimum + 2 * Hour));
        Ok ()
      else if bool_decide (Phase rotation = "activated") then
        refuse "successor signing key expires before retirement can be published" when successorExpires <? now + 2 * Hour;
        Ok ()
      else Ok ()
  | _, _ => Err "signing rotation key validity is invalid"
  end.

(** What a rotation moves to. *)
Definition nextPhase (repository : Repository) (rotation : SigningRotation) : result Repository :=
  if bool_decide (Phase rotation = "introducing") then
    Ok (set_rotation (Some (mkRotation (SuccessorKey rotation) "activated" (MinimumRefreshSeconds rotation))) repository)
  else if bool_decide (Phase rotation = "activated") then
    Ok (set_rotation None (set_signing_keys [SuccessorKey rotation] repository))
  else Err "repository has invalid signing rotation phase".

(** The manifest written, [None] when the command writes nothing. *)
Definition advanceKeyRotation (clean : result ()) (files : RotationFiles) (repositoryName : string) (now : Z)
    : result (option Manifest * RotateKeyResult) :=
  _ ← clean;
  manifest ← rf_Manifest files;
  match man_Repositories manifest !! repositoryName with
  | None => Err "repository has no signing rotation to advance"
  | Some repository =>
      refuse "repository has no signing rotation to advance" when negb (length (repo_SigningKeys repository) =? 1)%nat;
      deployment ← rf_Deployment files;
      desired ← repositoryDeploymentSigningState repository (man_Keys manifest);
      match repo_SigningRotation repository with
      | None => Ok (None, rotationResult repositoryName repository (negb (deploymentSigningMatches deployment desired)))
      | Some rotation =>
          refuse "current signing rotation state has not been successfully deployed"
            when negb (deploymentSigningMatches deployment desired);
          trustSince ← AuthoritativeDeploymentTrustSince deployment (rf_CommittedAt files);
          let earliest := trustSince + seconds (MinimumRefreshSeconds rotation) in
          refuse "signing rotation cannot advance before the refresh window" when now <? earliest;
          _ ← validateRotationAdvanceValidity repository rotation (man_Keys manifest) now;
          repository ← nextPhase repository rotation;
          let manifest := set_repositories (<[repositoryName := repository]> (man_Repositories manifest)) manifest in
          _ ← WriteManifest manifest;
          Ok (Some manifest, rotationResult repositoryName repository true)
      end
  end.

(** The branch for a repository that is already rotating. *)
Definition resumeRotation (files : RotationFiles) (request : RotateKeyRequest) (minimumRefresh : Z) (manifest : Manifest)
    (repository : Repository) (rotation : SigningRotation) : result RotateKeyResult :=
  refuse "repository already has a different signing rotation"
    when negb (bool_decide (SuccessorKey rotation = rot_Successor request)) ||
         negb (MinimumRefreshSeconds rotation =? minimumRefresh / Second);
  deployment ← rf_Deployment files;
  desired ← repositoryDeploymentSigningState repository (man_Keys manifest);
  let requiresDeploy := negb (deploymentSigningMatches deployment desired) in
  let result := rotationResult (rot_Repository request) repository requiresDeploy in
  if requiresDeploy then Ok result
  else
    trustSince ← AuthoritativeDeploymentTrustSince deployment (rf_CommittedAt files);
    Ok (set_earliest (FormatRFC3339 (trustSince + seconds (MinimumRefreshSeconds rotation))) result).

(** The successor key: the configured one, or one generated with the algorithm of
    the active key.  [generate] is [prepareSigningKey] and the writing of its public
    forms; the new manifest keys are the second component. *)
Definition successorKey (generate : option (string → string → Z → Z → result SigningKey)) (request : RotateKeyRequest)
    (minimumRefresh now : Z) (baseKey : SigningKey) (keys : gmap string SigningKey) : result (SigningKey * gmap string SigningKey) :=
  match keys !! rot_Successor request with
  | Some key => Ok (key, keys)
  | None =>
      match generate with
      | None => Err "signing key generator is required for a new successor"
      | Some generate =>
          let expiresIn := if rot_ExpiresIn request =? 0 then 2 * 365 * 24 * Hour else rot_ExpiresIn request in
          refuse "new successor validity is shorter than introduction and overlap"
            when expiresIn <? int64 (int64 (2 * minimumRefresh) + 2 * Hour);
          key ← generate (rot_Successor request) (key_Algorithm baseKey) now expiresIn;
          Ok (key, <[rot_Successor request := key]> keys)
      end
  end.

Definition startRotation (generate : option (string → string → Z → Z → result SigningKey)) (files : RotationFiles)
    (request : RotateKeyRequest) (minimumRefresh now : Z) (manifest : Manifest) (repository : Repository)
    : result (option Manifest * RotateKeyResult) :=
  refuse "successor signing key must differ from the active key"
    when bool_decide (rot_Successor request = firstKey repository);
  refuse "active signing key expires before the introduction window can complete"
    when match expiryOf (man_Keys manifest) (firstKey repository) with
         | Some baseExpires => baseExpires <? now + int64 (minimumRefresh + 2 * Hour)
         | None => true
         end;
  stable ← repositoryDeploymentSigningState repository (man_Keys manifest);
  deployment ← rf_Deployment files;
  refuse "rotation requires the stable signing state to be successfully deployed"
    when bool_decide (dep_NativeRevision deployment = "") || negb (deploymentSigningMatches deployment stable);
  _ ← AuthoritativeDeploymentTrustSince deployment (rf_CommittedAt files);
  match man_Keys manifest !! firstKey repository with
  | None => Err "active signing key expires before the introduction window can complete"
  | Some baseKey =>
      '(key, keys) ← successorKey generate request minimumRefresh now baseKey (man_Keys manifest);
      refuse "successor signing key expires before rotation overlap can complete"
        when match ParseRFC3339 (key_ExpiresAt key) with
             | Some successorExpires => successorExpires <? now + int64 (int64 (2 * minimumRefresh) + 2 * Hour)
             | None => true
             end;
      refuse "successor signing key is not valid by the end of the introduction window"
        when match ParseRFC3339 (key_CreatedAt key) with
             | Some successorCreated => now + minimumRefresh <? successorCreated
             | None => true
             end;
      let repository :=
        set_rotation (Some (mkRotation (rot_Successor request) "introducing" (minimumRefresh / Second))) repository in
      let manifest := set_repositories (<[rot_Repository request := repository]> (man_Repositories manifest)) (set_keys keys manifest) in
      _ ← WriteManifest manifest;
      Ok (Some manifest, rotationResult (rot_Repository request) repository true)
  end.

Definition RotateKey (generate : option (string → string → Z → Z → result SigningKey)) (clean : result ())
    (files : RotationFiles) (request : RotateKeyRequest) (clock : Z) : result (option Manifest * RotateKeyResult) :=
  _ ← ValidateRepositoryName (rot_Repository request);
  let now := truncateSecond clock in
  if rot_Advance request then advanceKeyRotation clean files (rot_Repository request) now
  else
    _ ← ValidateRepositoryName (rot_Successor request);
    let minimumRefresh := if rot_MinimumRefresh request =? 0 then defaultRotationRefresh else rot_MinimumRefresh request in
    refuse "minimum refresh must be a whole-second duration between seven days and one year"
      when (minimumRefresh <? seconds MinimumSigningRefreshSeconds) || (365 * 24 * Hour <? minimumRefresh) ||
           negb (minimumRefresh mod Second =? 0);
    _ ← clean;
    manifest ← rf_Manifest files;
    match man_Repositories manifest !! rot_Repository request with
    | None => Err "rotation requires a signed Debian repository"
    | Some repository =>
        refuse "rotation requires a signed Debian repository"
          when negb (bool_decide (repo_Format repository = "deb")) || negb (length (repo_SigningKeys repository) =? 1)%nat;
        match repo_SigningRotation repository with
        | Some rotation =>
            result ← resumeRotation files request minimumRefresh manifest repository rotation;
            Ok (None, result)
        | None => startRotation generate files request minimumRefresh now manifest repository
        end
    end.
End commands.
