(* ===== verification/RotationProofs.v ===== *)
(** Clients keep verifying through a key rotation. *)

From S2P Require Import Prelude GoStrings GoSlices GoRegexp Model Formats Source Forge PlanJson Manifest ManifestOps.
From S2P Require Import JsonStrict Host Deployment Signing Plan Rotation.

Open Scope Z_scope.

(** ** Durations *)

Lemma int64_small z : - 2 ^ 63 ≤ z < 2 ^ 63 → int64 z = z.
Proof. intros Hz. unfold int64. rewrite Z.mod_small; lia. Qed.

(** A refresh window whose nanoseconds fit an [int64], about 292 years. *)
Definition fits (n : Z) : Prop := n * Second < 2 ^ 63.

Lemma seconds_fits n : 0 ≤ n → fits n → seconds n = n * Second.
Proof. unfold fits, seconds, Second. intros. apply int64_small. lia. Qed.

Lemma truncateSecond_spec t : truncateSecond t ≤ t < truncateSecond t + Second ∧ truncateSecond t mod Second = 0.
Proof.
  unfold truncateSecond, Second. pose proof (Z.mod_pos_bound t 1000000000). split; [lia|].
  rewrite Zminus_mod_idemp_r. by rewrite Z.sub_diag.
Qed.

(** ** Signing states *)

Lemma trustedFingerprints_lookup keys names fingerprints name key :
  trustedFingerprints keys names = Ok fingerprints → name ∈ names → keys !! name = Some key →
  key_Fingerprint key ∈ fingerprints.
Proof.
  revert fingerprints; induction names as [|n names IH]; intros fingerprints; cbn [trustedFingerprints]; [set_solver|].
  destruct (keys !! n) as [k|] eqn:Ek; [|done]. destruct (trustedFingerprints keys names) as [fs|]; cbn [mbind result_bind]; [|done].
  intros [= <-] [->|Hin]%elem_of_cons Hk; [rewrite Ek in Hk; injection Hk as ->; left|]. right. by apply (IH fs).
Qed.

(** The active key of a signed state is trusted; an unsigned state trusts none. *)
Definition named_keys (keys : gmap string SigningKey) : Prop := map_Forall (λ _ k, key_Fingerprint k ≠ "") keys.

Lemma signing_state_active repository keys signing :
  named_keys keys → repositoryDeploymentSigningState repository keys = Ok signing →
  signing = unsignedState ∨ (st_active signing ≠ "" ∧ st_active signing ∈ st_trusted signing).
Proof.
  intros Hnamed. unfold repositoryDeploymentSigningState, repositorySigningState.
  destruct (repo_SigningKeys repository) as [|key [|? ?]]; cbn [mbind result_bind].
  - intros [= <-]. by left.
  - case_bool_decide; [done|].
    assert (∀ active trusted phase refresh, active ∈ trusted →
      (if bool_decide (active = "") then Ok unsignedState
       else match keys !! active with
            | None => Err "unknown active signing key"
            | Some k => fs ← trustedFingerprints keys trusted;
                Ok (mkSigningState (key_Fingerprint k) fs (repo_SigningKeyring repository) phase refresh)
            end) = Ok signing → signing = unsignedState ∨ (st_active signing ≠ "" ∧ st_active signing ∈ st_trusted signing)) as Hgen.
    { intros active trusted phase refresh Hin. case_bool_decide; [intros [= <-]; by left|].
      destruct (keys !! active) as [k|] eqn:Ek; [|done].
      destruct (trustedFingerprints keys trusted) as [fs|] eqn:Ef; cbn [mbind result_bind]; [|done]. intros [= <-].
      right. split; [by eapply Hnamed|by eapply trustedFingerprints_lookup]. }
    destruct (repo_SigningRotation repository) as [rotation|]; cbn [mbind result_bind]; apply Hgen; [|by left].
    case_bool_decide; [right; by left|by left].
  - done.
Qed.

(** ** The transitions an apply accepts *)

(** The five ways from a deployed state to a desired one. *)
Inductive follows (d : DeploymentRecord) (s : deploymentSigningState) (at_ trustNotBefore : Z) : Prop :=
| follows_first : dep_NativeRevision d = "" → follows d s at_ trustNotBefore
| follows_same : deploymentSigningMatches d s = true → follows d s at_ trustNotBefore
| follows_signed : dep_ActiveSigningFingerprint d = "" → follows d s at_ trustNotBefore
| follows_kept : dep_ActiveSigningFingerprint d = st_active s → follows d s at_ trustNotBefore
| follows_activated :
    dep_TrustedSigningFingerprints d = st_trusted s → st_active s ∈ st_trusted s →
    transitionReady d at_ trustNotBefore = true → follows d s at_ trustNotBefore.

Section history.
Context `{TimeLib} (FormatRFC3339 : Z → string).

Lemma phaseFollows_follows d s at_ trustNotBefore :
  phaseFollows d s at_ trustNotBefore = true → follows d s at_ trustNotBefore.
Proof.
  unfold phaseFollows. cbn zeta. case_bool_decide; [|case_bool_decide; [|case_bool_decide; [|done]]]; intros Hp; split_bools.
  - by apply follows_kept.
  - apply follows_activated; [done| |done]. by eapply list_elem_of_lookup_2.
  - by apply follows_kept.
Qed.

Lemma transition_follows repository keys d observed at_ trustNotBefore signing :
  validateRepositorySigningTransition repository keys d observed at_ trustNotBefore = Ok () →
  repositoryDeploymentSigningState repository keys = Ok signing →
  follows d signing at_ trustNotBefore ∧
  (dep_NativeRevision d ≠ "" → dep_ActiveSigningFingerprint d ≠ "" → st_active signing ≠ "").
Proof.
  unfold validateRepositorySigningTransition. intros Hv Hs. rewrite Hs in Hv. cbn [mbind result_bind] in Hv.
  destruct (validateRotationKeyValidity _ _ _); cbn [mbind result_bind] in Hv; [|done].
  destruct (bool_decide (dep_NativeRevision d = "")) eqn:E0.
  { apply bool_decide_eq_true in E0. by split; [apply follows_first|]. }
  destruct (deploymentSigningMatches d signing) eqn:E1.
  { split; [by apply follows_same|]. unfold deploymentSigningMatches in E1. split_bools. congruence. }
  destruct (_ || _) in Hv; [done|]. destruct (bool_decide (st_active signing = "")) eqn:E2; [done|].
  apply bool_decide_eq_false in E2. destruct (_ && _) in Hv; [done|].
  destruct (_ && _) eqn:E3 in Hv; [split_bools; by split; [apply follows_signed|]|].
  destruct (phaseFollows _ _ _ _) eqn:E4; [|done]. by split; [apply phaseFollows_follows|].
Qed.

(** ** Histories of applies *)

(** The instants RFC 3339 can write, whole seconds of the years 1 to 9999. *)
Definition writable (t : Z) : Prop := zeroTime ≤ t < 253402300800 * Second ∧ t mod Second = 0.
Hypothesis format_parses : ∀ t, writable t → ParseRFC3339 (FormatRFC3339 t) = Some t.

(** The deployments of one repository, the newest first, each with the instant it
    became public.  Every apply validates its transition at [at_], publishes at
    [published] and records its receipt at [now], against whatever the manifest
    says by then: [repository] and [keys] are unconstrained. *)
Inductive deploys : list (Z * DeploymentRecord) → Prop :=
| deploys_none : deploys []
| deploys_next history repository keys observed observed' planned nativeRevision planID deployedAt at_ published now
    committedAt trustNotBefore signing :
    deploys history →
    let previous := match history with [] => noDeployment | (_, d) :: _ => d end in
    named_keys keys →
    (if bool_decide (repo_SigningRotation repository = None) && bool_decide (dep_SigningRotationPhase previous = "")
     then trustNotBefore = zeroTime
     else AuthoritativeDeploymentTrustSince previous committedAt = Ok trustNotBefore) →
    validateRepositorySigningTransition repository keys previous observed at_ trustNotBefore = Ok () →
    repositoryDeploymentSigningState repository keys = Ok signing →
    nativeRevision ≠ "" → at_ ≤ published ≤ now → zeroTime ≤ now < 253402300800 * Second →
    (∀ c d h, history = (c, d) :: h → c ≤ published) →
    deploys ((published, deploymentRecordFor FormatRFC3339 planned previous observed' signing nativeRevision planID deployedAt now)
             :: history).

(** The keys a client trusts that last refreshed its keyring at [s]. *)
Fixpoint keyring_at (history : list (Z * DeploymentRecord)) (s : Z) : option (list string) :=
  match history with
  | [] => None
  | (published, d) :: older => if published <=? s then Some (dep_TrustedSigningFingerprints d) else keyring_at older s
  end.

(** The window of a history: no deployment states a refresh time that an activation could
    rest on (seven days or more) and that is shorter, and all of them are durations. *)
Context (window : Z).
Definition promises (d : DeploymentRecord) : Prop :=
  fits (dep_SigningMinimumRefreshSeconds d) ∧
  (MinimumSigningRefreshSeconds ≤ dep_SigningMinimumRefreshSeconds d → window ≤ dep_SigningMinimumRefreshSeconds d).

(** The window, less the second that receipts are truncated to. *)
Definition refreshWindow : Z := (window - 1) * Second.

(** What holds of the newest deployment against the older ones. *)
Record sound (c : Z) (d : DeploymentRecord) (older : list (Z * DeploymentRecord)) : Prop := {
  snd_native : dep_NativeRevision d ≠ "";
  snd_active : dep_ActiveSigningFingerprint d ≠ "" → dep_ActiveSigningFingerprint d ∈ dep_TrustedSigningFingerprints d;
  snd_unsigned : dep_ActiveSigningFingerprint d = "" →
    dep_TrustedSigningFingerprints d = [] ∧ ∀ s ring, keyring_at older s = Some ring → ring = [];
  snd_promises : promises d;
  snd_recent : ∀ s ring, s < c → c - s < refreshWindow → keyring_at older s = Some ring → ring ≠ [] →
    dep_ActiveSigningFingerprint d ∈ ring;
  snd_standing : ∀ s ring t, s < c → dep_ActiveSigningFingerprint d ≠ "" → ParseRFC3339 (dep_TrustSince d) = Some t →
    t + Second ≤ s → keyring_at older s = Some ring → ring = dep_TrustedSigningFingerprints d;
}.
(** A state that may follow keeps its active key in the deployed keyring. *)
Lemma follows_trusted d s at_ trustNotBefore :
  follows d s at_ trustNotBefore → dep_NativeRevision d ≠ "" → dep_ActiveSigningFingerprint d ≠ "" →
  dep_ActiveSigningFingerprint d ∈ dep_TrustedSigningFingerprints d →
  s = unsignedState ∨ (st_active s ≠ "" ∧ st_active s ∈ st_trusted s) →
  st_active s ∈ dep_TrustedSigningFingerprints d.
Proof.
  intros [?|Hm|?|E|Et ? _] Hn Ha Hin Hs; try congruence.
  unfold deploymentSigningMatches in Hm. split_bools. congruence.
Qed.

(** Once a successor may be activated, the deployed keyring has stood for the
    window. *)
Lemma ready_since d at_ trustNotBefore committedAt repository :
  (if bool_decide (repo_SigningRotation repository = None) && bool_decide (dep_SigningRotationPhase d = "")
   then trustNotBefore = zeroTime
   else AuthoritativeDeploymentTrustSince d committedAt = Ok trustNotBefore) →
  transitionReady d at_ trustNotBefore = true → fits (dep_SigningMinimumRefreshSeconds d) →
  MinimumSigningRefreshSeconds ≤ dep_SigningMinimumRefreshSeconds d ∧
  ∃ t, ParseRFC3339 (dep_TrustSince d) = Some t ∧ t + dep_SigningMinimumRefreshSeconds d * Second ≤ at_.
Proof.
  intros Htrust Hready Hfits. unfold transitionReady in Hready. split_bools.
  rewrite Z.eqb_neq, Z.leb_le, Z.ltb_ge in *. rewrite seconds_fits in * by (done || (unfold MinimumSigningRefreshSeconds in *; lia)).
  destruct (_ && _) in Htrust; [done|]. unfold AuthoritativeDeploymentTrustSince in Htrust.
  case_bool_decide; [congruence|]. destruct (ParseRFC3339 (dep_TrustSince d)) as [t|]; [|done].
  destruct committedAt as [c|]; cbn [mbind result_bind] in Htrust; [|done]. injection Htrust as E.
  split; [lia|]. exists t. split; [done|]. unfold Second in *. destruct (Z.ltb_spec t c); nia.
Qed.

Lemma keyring_at_cons c d older s ring :
  keyring_at ((c, d) :: older) s = Some ring →
  (c ≤ s ∧ ring = dep_TrustedSigningFingerprints d) ∨ (s < c ∧ keyring_at older s = Some ring).
Proof. cbn [keyring_at]. destruct (Z.leb_spec c s); [intros [= <-]; by left|by right]. Qed.

Lemma unsigned_follows c' d' h signing :
  sound c' d' h → (dep_NativeRevision d' ≠ "" → dep_ActiveSigningFingerprint d' ≠ "" → st_active signing ≠ "") →
  st_active signing = "" → ∀ s ring, keyring_at ((c', d') :: h) s = Some ring → ring = [].
Proof.
  intros Hs Hk Ha s ring Hr. destruct (decide (dep_ActiveSigningFingerprint d' = "")) as [E|E].
  - destruct (snd_unsigned _ _ _ Hs E) as [Ht Hu]. apply keyring_at_cons in Hr as [[_ ->]|[_ Hr]]; [done|by eapply Hu].
  - by destruct (Hk (snd_native _ _ _ Hs) E).
Qed.

Lemma recent_follows c' d' h signing at_ trustNotBefore committedAt repository published s ring :
  sound c' d' h → follows d' signing at_ trustNotBefore →
  (if bool_decide (repo_SigningRotation repository = None) && bool_decide (dep_SigningRotationPhase d' = "")
   then trustNotBefore = zeroTime
   else AuthoritativeDeploymentTrustSince d' committedAt = Ok trustNotBefore) →
  signing = unsignedState ∨ (st_active signing ≠ "" ∧ st_active signing ∈ st_trusted signing) →
  c' ≤ published → at_ ≤ published → published - s < refreshWindow →
  keyring_at ((c', d') :: h) s = Some ring → ring ≠ [] → st_active signing ∈ ring.
Proof.
  intros Hs Hf Htrust Hact Hc Hat Hw Hr Hne.
  assert (dep_ActiveSigningFingerprint d' ≠ "") as Ha.
  { intros E. destruct (snd_unsigned _ _ _ Hs E) as [Ht Hu].
    apply keyring_at_cons in Hr as [[_ ->]|[_ Hr]]; [done|]. by apply Hne, (Hu s). }
  pose proof (snd_native _ _ _ Hs) as Hnat. pose proof (snd_active _ _ _ Hs Ha) as Hin.
  apply keyring_at_cons in Hr as [[_ ->]|[Hsc Hr]]; [by eapply follows_trusted|].
  assert (dep_ActiveSigningFingerprint d' ∈ ring) as Hold by (apply (snd_recent _ _ _ Hs s); [done|lia|done|done]).
  destruct Hf as [?|Hm|?|E|Et Hin' Hready]; [done| |done|congruence|].
  - unfold deploymentSigningMatches in Hm. split_bools. congruence.
  - destruct (snd_promises _ _ _ Hs) as [Hfits Hwindow]. destruct (ready_since _ _ _ _ _ Htrust Hready Hfits) as (Hmin & t & Hp & Hle).
    assert (ring = dep_TrustedSigningFingerprints d') as ->; [|congruence].
    apply (snd_standing _ _ _ Hs s ring t); try done. specialize (Hwindow Hmin). unfold refreshWindow, Second in *. nia.
Qed.

Lemma standing_follows planned previous observed signing nativeRevision planID deployedAt now published s ring t c' d' h :
  let d := deploymentRecordFor FormatRFC3339 planned previous observed signing nativeRevision planID deployedAt now in
  previous = d' → sound c' d' h → c' ≤ published ≤ now → zeroTime ≤ now < 253402300800 * Second →
  s < published → st_active signing ≠ "" → ParseRFC3339 (dep_TrustSince d) = Some t → t + Second ≤ s →
  keyring_at ((c', d') :: h) s = Some ring → ring = st_trusted signing.
Proof.
  cbn zeta. intros -> Hs Hc Hnow Hsp Ha Hp Hts Hr. unfold deploymentRecordFor in Hp. cbn [dep_TrustSince] in Hp. cbn zeta in Hp.
  rewrite bool_decide_eq_false_2 in Hp by done. destruct (_ && _) eqn:E in Hp.
  - split_bools. assert (dep_TrustedSigningFingerprints d' = st_trusted signing) as <- by done.
    apply keyring_at_cons in Hr as [[_ ->]|[Hsc Hr]]; [done|].
    apply (snd_standing _ _ _ Hs s ring t); congruence || done.
  - destruct (truncateSecond_spec now) as [Hb Hm]. rewrite format_parses in Hp.
    + injection Hp as <-. lia.
    + split; [|done]. unfold truncateSecond, zeroTime, Second in *. pose proof (Z.mod_pos_bound now 1000000000). pose proof (Z.div_mod now 1000000000). lia.
Qed.

Lemma deploys_sound history :
  deploys history → Forall (λ e, promises e.2) history → match history with [] => True | (c, d) :: older => sound c d older end.
Proof.
  induction 1 as [|history repository keys observed observed' planned native planID deployedAt at_ published now
    committedAt trustNotBefore signing Hd IH previous Hnamed Htrust Hv Hs Hnative Htime Hyear Horder]; intros Hall; [done|].
  apply Forall_cons in Hall as [Hpromise Hall]. specialize (IH Hall).
  pose proof (signing_state_active _ _ _ Hnamed Hs) as Hact.
  destruct (transition_follows _ _ _ _ _ _ _ Hv Hs) as [Hf Hkeep].
  assert (st_active signing = "" → st_trusted signing = []) as Hun by (by destruct Hact as [->|[? _]]).
  assert (st_active signing ≠ "" → st_active signing ∈ st_trusted signing) as Hin by (by destruct Hact as [->|[_ ?]]).
  destruct history as [|[c' d'] h].
  - split; try done. intros E. split; [by apply Hun|done].
  - assert (c' ≤ published) as Hc by (by eapply Horder). destruct Htime as [Hat Hnow].
    split; [done|done| |done| |].
    + intros E. split; [by apply Hun|]. by apply (unsigned_follows _ _ _ signing).
    + intros s ring Hsp Hw Hr Hne. by eapply recent_follows.
    + intros s ring t Hsp Ha Hp Hts Hr. by eapply (standing_follows planned previous observed' signing native planID deployedAt now published).
Qed.

(** C11: A key rotation never locks out a client that refreshes its keyring within the
    configured window.  Whatever the manifest asked for at each apply, where [window] is
    the shortest refresh time (of seven days or more) that a deployment of the history
    states, a client whose keyring is less than [window] old (less the second that
    receipts are truncated to), and was signed at all, trusts the key that signs the
    repository now.  The refresh times must fit a [time.Duration], 292 years, which the
    manifest does not enforce; each apply is checked before it is published and published
    before its receipt is written, in the years 1 to 9999, and in the order of the
    history. *)
Theorem rotation_keeps_clients_trusting c d older now s ring :
  deploys ((c, d) :: older) → Forall (λ e, promises e.2) ((c, d) :: older) → c ≤ now → now - s < refreshWindow →
  keyring_at ((c, d) :: older) s = Some ring → ring ≠ [] → dep_ActiveSigningFingerprint d ∈ ring.
Proof.
  intros Hd Hp Hc Hw Hr Hne. pose proof (deploys_sound _ Hd Hp) as Hs. cbn beta iota in Hs.
  apply keyring_at_cons in Hr as [[Hsc ->]|[Hsc Hr]].
  - apply (snd_active _ _ _ Hs). intros E. by destruct (snd_unsigned _ _ _ Hs E) as [? _].
  - apply (snd_recent _ _ _ Hs s); [done|lia|done|done].
Qed.
End history.

(** A rotation from key [a] to key [b], with a toy notation for instants. *)
Module RotationExample.
Fixpoint digits (p : positive) : string :=
  match p with xH => "" | xO p => String "0" (digits p) | xI p => String "1" (digits p) end.
Fixpoint undigits (s : string) : option positive :=
  match s with
  | "" => Some xH
  | String c s => p ← undigits s; if ascii_eqb c "0" then Some (xO p) else if ascii_eqb c "1" then Some (xI p) else None
  end.
Definition format (t : Z) : string :=
  match t with Z0 => "0" | Zpos p => String "+" (digits p) | Zneg p => String "-" (digits p) end.
Definition parse (s : string) : option Z :=
  match s with
  | "" => None
  | String c s =>
      if ascii_eqb c "+" then Zpos <$> undigits s else if ascii_eqb c "-" then Zneg <$> undigits s
      else if ascii_eqb c "0" then Some 0 else None
  end.
#[local] Instance time_lib : TimeLib := {| ParseRFC3339 := parse |}.

Lemma undigits_digits p : undigits (digits p) = Some p.
Proof. induction p as [p IH|p IH|]; cbn [digits undigits]; [by rewrite IH..|done]. Qed.
Lemma format_parses t : writable t → ParseRFC3339 (format t) = Some t.
Proof. intros _. destruct t; cbn; [done|by rewrite undigits_digits..]. Qed.

Definition day : Z := 24 * Hour.
Definition aFingerprint : string := "aaaaaaaaaaaaaaaaaaaaaaaaaaaaaaaaaaaaaaaa".
Definition bFingerprint : string := "bbbbbbbbbbbbbbbbbbbbbbbbbbbbbbbbbbbbbbbb".
Definition key (name fingerprint algorithm : string) : SigningKey :=
  mkSigningKey algorithm "sign" fingerprint (format 0) (format (1000 * day)) ("keys/" +:+ name +:+ ".gpg")
    "" ("keys/" +:+ name +:+ ".asc") "" (mkKeyRef "file" name).
Definition keys : gmap string SigningKey :=
  {[ "a" := key "a" aFingerprint "openpgp-rsa4096"; "b" := key "b" bFingerprint "openpgp-rsa4096" ]}.
Definition signed (rotation : option SigningRotation) : Repository :=
  mkRepository "deb" "repos/apt.lock.toml" (localHost "public/apt") "public" "auto" [] ["a"] "keys/apt-archive-keyring.gpg"
    rotation 0 "stable" "stable" "main" ["amd64"].
Definition rotating (phase : string) : Repository := signed (Some (mkRotation "b" phase (8 * 86400))).
Definition state (repository : Repository) : deploymentSigningState :=
  match repositoryDeploymentSigningState repository keys with Ok s => s | Err _ => unsignedState end.

Definition revision (n : string) : PublishedRevision := mkRevision n n "" "" "" "" "" "" "".
Definition planned (tree : string) : PlanRepository :=
  mkPlanRepository "apt" "auto" [] "deb" "" (localHost "public/apt") "public" "" "public/apt" "" "" "" "" "" "" "" "" ""
    noDeployment false false false false "" [] true [] [] "" tree "" "apt:x" "update".
(** The receipt of the [n]-th publication over [previous] at [now]. *)
Definition receipt (previous : DeploymentRecord) (repository : Repository) (n : string) (now : Z) : DeploymentRecord :=
  deploymentRecordFor format (planned n) previous (revision (dep_NativeRevision previous))
    (state repository) n "p" "d" now.

Definition d0 : DeploymentRecord := receipt noDeployment (signed None) "r0" day.
Definition d1 : DeploymentRecord := receipt d0 (rotating "introducing") "r1" (10 * day).
Definition d2 : DeploymentRecord := receipt d1 (rotating "activated") "r2" (18 * day).

Lemma named : named_keys keys.
Proof. unfold named_keys. apply map_Forall_to_list. vm_compute. repeat constructor; discriminate. Qed.

Lemma published_bounds (t : Z) : 0 ≤ t ≤ 100 * day → t ≤ t ≤ t ∧ zeroTime ≤ t < 253402300800 * Second.
Proof. unfold day, Hour, zeroTime, Second. lia. Qed.

(** One accepted apply, its checks evaluated. *)
Lemma accepted older previous repository rotation planned n t committedAt trustNotBefore :
  previous = match older with [] => noDeployment | (_, d) :: _ => d end →
  deploys format older → 0 ≤ t ≤ 100 * day → n ≠ "" → repo_SigningRotation repository = rotation →
  (if bool_decide (rotation = None) && bool_decide (dep_SigningRotationPhase previous = "")
   then trustNotBefore = zeroTime else AuthoritativeDeploymentTrustSince previous committedAt = Ok trustNotBefore) →
  validateRepositorySigningTransition repository keys previous (revision (dep_NativeRevision previous)) t trustNotBefore = Ok () →
  repositoryDeploymentSigningState repository keys = Ok (state repository) →
  (∀ c d h, older = (c, d) :: h → c ≤ t) →
  deploys format ((t, deploymentRecordFor format planned previous (revision (dep_NativeRevision previous))
    (state repository) n "p" "d" t) :: older).
Proof.
  intros -> Hd Ht Hn <- Htrust Hv Hs Ho. destruct (published_bounds t Ht) as [Hb Hy].
  by eapply deploys_next; try done; exact named.
Qed.

Lemma history0 : deploys format [(day, d0)].
Proof.
  apply (accepted [] noDeployment (signed None) None _ "r0" day (Ok 0) zeroTime); try done.
  - constructor.
Qed.
Lemma history1 : deploys format [(10 * day, d1); (day, d0)].
Proof.
  apply (accepted [(day, d0)] d0 (rotating "introducing") (repo_SigningRotation (rotating "introducing")) _ "r1" (10 * day) (Ok day) day); try done.
  - exact history0.
  - intros c d h [= <- _ _]. vm_compute. congruence.
Qed.
Lemma history2 : deploys format [(18 * day, d2); (10 * day, d1); (day, d0)].
Proof.
  apply (accepted [(10 * day, d1); (day, d0)] d1 (rotating "activated") (repo_SigningRotation (rotating "activated")) _ "r2" (18 * day) (Ok (10 * day)) (10 * day)); try done.
  - exact history1.
  - intros c d h [= <- _ _]. vm_compute. congruence.
Qed.

(** Two days after the switch to [b], a keyring seven and a half days old lists it: the
    window is eight days. *)
Lemma rotation_keeps_clients_trusting_witness :
  dep_ActiveSigningFingerprint d2 = bFingerprint ∧ dep_ActiveSigningFingerprint d2 ∈ [aFingerprint; bFingerprint].
Proof.
  split; [vm_compute; reflexivity|].
  apply (rotation_keeps_clients_trusting format format_parses (8 * 86400) (18 * day) d2 [(10 * day, d1); (day, d0)]
    (20 * day) (25 * day / 2) [aFingerprint; bFingerprint]).
  - exact history2.
  - repeat constructor; vm_compute; congruence.
  - vm_compute. congruence.
  - vm_compute. reflexivity.
  - vm_compute. reflexivity.
  - discriminate.
Defined.
End RotationExample.
