(* ===== verification/RotationCommands.v ===== *)
(** The rotation commands agree with the transitions an apply accepts: what an
    advance writes, the next apply can deploy, and nothing advances twice on one
    deployment.  The file also records two ways the checks fall short. *)

From S2P Require Import Prelude GoStrings GoSlices GoRegexp Model Formats Source Lock Forge PlanJson Manifest ManifestOps ManifestProofs.
From S2P Require Import JsonStrict Host Deployment Rotation RotationProofs.

Open Scope Z_scope.

Section commands.
Context `{NetLib, TimeLib, HashLib, !ManifestLib}.
Context (FormatRFC3339 : Z → string).

(** Every repository a manifest is written with passed the signing checks. *)
Lemma WriteManifest_signing manifest content name repository :
  WriteManifest manifest = Ok content → man_Repositories manifest !! name = Some repository →
  validateRepositorySigning repository (man_Keys manifest) = Ok ().
Proof.
  unfold WriteManifest. destruct (checkManifest _) as [[]|]; cbn [mbind result_bind]; [|done].
  destruct (checkAll _ _) as [[]|] eqn:Ea; cbn [mbind result_bind]; [|done]. intros _ Hr.
  apply checkAll_map in Ea. specialize (Ea name repository Hr). cbn beta in Ea. revert Ea. unfold checkWritten.
  destruct (_ || _); [done|]. destruct (validateRepositoryHost _); cbn [mbind result_bind]; [|done].
  by destruct (validateGateConfiguration _ _); cbn [mbind result_bind].
Qed.

(** A successful advance, step by step. *)
Record advanced (files : RotationFiles) (name : string) (now : Z) (manifest : Manifest) (repository repository' : Repository)
    (rotation : SigningRotation) (deployment : DeploymentRecord) (desired : deploymentSigningState) (trustSince : Z) : Prop := {
  adv_manifest : rf_Manifest files = Ok manifest;
  adv_repository : man_Repositories manifest !! name = Some repository;
  adv_keys : length (repo_SigningKeys repository) = 1%nat;
  adv_deployment : rf_Deployment files = Ok deployment;
  adv_desired : repositoryDeploymentSigningState repository (man_Keys manifest) = Ok desired;
  adv_rotation : repo_SigningRotation repository = Some rotation;
  adv_matches : deploymentSigningMatches deployment desired = true;
  adv_trust : AuthoritativeDeploymentTrustSince deployment (rf_CommittedAt files) = Ok trustSince;
  adv_window : trustSince + seconds (MinimumRefreshSeconds rotation) ≤ now;
  adv_next : nextPhase repository rotation = Ok repository';
  adv_written : ∃ content,
    WriteManifest (set_repositories (<[name := repository']> (man_Repositories manifest)) manifest) = Ok content;
}.

Lemma advanceKeyRotation_ok clean files name now written result :
  advanceKeyRotation clean files name now = Ok (Some written, result) →
  ∃ manifest repository repository' rotation deployment desired trustSince,
    advanced files name now manifest repository repository' rotation deployment desired trustSince ∧
    written = set_repositories (<[name := repository']> (man_Repositories manifest)) manifest.
Proof.
  unfold advanceKeyRotation. destruct clean as [[]|]; cbn [mbind result_bind]; [|done].
  destruct (rf_Manifest files) as [manifest|] eqn:E1; cbn [mbind result_bind]; [|done].
  destruct (man_Repositories manifest !! name) as [repository|] eqn:E2; [|done].
  destruct (length (repo_SigningKeys repository) =? 1)%nat eqn:E3; cbn [negb]; [|done].
  destruct (rf_Deployment files) as [deployment|] eqn:E4; cbn [mbind result_bind]; [|done].
  destruct (repositoryDeploymentSigningState _ _) as [desired|] eqn:E5; cbn [mbind result_bind]; [|done].
  destruct (repo_SigningRotation repository) as [rotation|] eqn:E6; [|done].
  destruct (deploymentSigningMatches deployment desired) eqn:E7; cbn [negb]; [|done].
  destruct (AuthoritativeDeploymentTrustSince _ _) as [trustSince|] eqn:E8; cbn [mbind result_bind]; [|done].
  cbn zeta. destruct (Z.ltb_spec now (trustSince + seconds (MinimumRefreshSeconds rotation))) as [|E9]; [done|].
  destruct (validateRotationAdvanceValidity _ _ _ _); cbn [mbind result_bind]; [|done].
  destruct (nextPhase repository rotation) as [repository'|] eqn:E10; cbn [mbind result_bind]; [|done].
  destruct (WriteManifest _) as [content|] eqn:E11; cbn [mbind result_bind]; [|done]. intros [= <- <-].
  exists manifest, repository, repository', rotation, deployment, desired, trustSince. split; [|done].
  apply Nat.eqb_eq in E3. by split; try done; exists content.
Qed.
(** ** Signing states of a valid repository *)

Lemma state_stable repository keys a ka :
  repo_SigningKeys repository = [a] → repo_SigningKeyring repository ≠ "" → repo_SigningRotation repository = None →
  a ≠ "" → keys !! a = Some ka →
  repositoryDeploymentSigningState repository keys =
  Ok (mkSigningState (key_Fingerprint ka) [key_Fingerprint ka] (repo_SigningKeyring repository) "" 0).
Proof.
  intros Hk Hr Hn Ha Hka. unfold repositoryDeploymentSigningState, repositorySigningState. rewrite Hk, Hn.
  rewrite bool_decide_eq_false_2 by done. cbn [mbind result_bind]. rewrite bool_decide_eq_false_2 by done.
  cbn [trustedFingerprints]. by rewrite Hka.
Qed.

Lemma state_rotating repository keys rotation a ka kb :
  repo_SigningKeys repository = [a] → repo_SigningKeyring repository ≠ "" → repo_SigningRotation repository = Some rotation →
  a ≠ "" → SuccessorKey rotation ≠ "" → keys !! a = Some ka → keys !! SuccessorKey rotation = Some kb →
  repositoryDeploymentSigningState repository keys =
  Ok (mkSigningState (key_Fingerprint (if bool_decide (Phase rotation = "activated") then kb else ka))
        [key_Fingerprint ka; key_Fingerprint kb] (repo_SigningKeyring repository) (Phase rotation) (MinimumRefreshSeconds rotation)).
Proof.
  intros Hk Hr Hn Ha Hb Hka Hkb. unfold repositoryDeploymentSigningState, repositorySigningState. rewrite Hk, Hn.
  rewrite bool_decide_eq_false_2 by done. cbn [mbind result_bind]. cbn [trustedFingerprints]. rewrite Hka, Hkb.
  cbn [mbind result_bind]. destruct (bool_decide (Phase rotation = "activated")); rewrite bool_decide_eq_false_2 by done.
  - by rewrite Hkb.
  - by rewrite Hka.
Qed.

(** What the manifest checks say of a rotating repository. *)
Lemma rotating_valid repository keys rotation :
  validateRepositorySigning repository keys = Ok () → repo_SigningRotation repository = Some rotation →
  ∃ a ka kb, repo_SigningKeys repository = [a] ∧ a ≠ "" ∧ keys !! a = Some ka ∧ keys !! SuccessorKey rotation = Some kb ∧
    repo_SigningKeyring repository ≠ "" ∧ MinimumSigningRefreshSeconds ≤ MinimumRefreshSeconds rotation.
Proof.
  unfold validateRepositorySigning. intros Hv Hr. destruct (repo_SigningKeys repository) as [|a rest] eqn:Hk.
  { rewrite Hr in Hv. rewrite (bool_decide_eq_false_2 (Some rotation = None)) in Hv by done. cbn [negb] in Hv. by rewrite orb_true_r in Hv. }
  destruct (For _) as [selected|]; cbn [mbind result_bind] in Hv; [|done]. destruct (negb (ImplementsSigning _)); [done|].
  destruct rest as [|? ?]; [|done]. destruct (keys !! a) as [ka|] eqn:Hka; [|done].
  destruct (negb (bool_decide (key_Algorithm ka = _))); [done|]. case_bool_decide as Ha; [done|].
  destruct (_ || _) eqn:Ep in Hv; [done|]. rewrite Hr in Hv. unfold validateRotation in Hv.
  destruct (_ || _) eqn:Er in Hv; [done|]. case_bool_decide as Hs; [done|].
  destruct (keys !! SuccessorKey rotation) as [kb|] eqn:Hkb; [|done].
  exists a, ka, kb. repeat (split; [done|]). split.
  - intros E. by rewrite E in Ep.
  - apply orb_false_iff in Er as [_ Er]. by apply Z.ltb_ge.
Qed.

Lemma ready_window deployment at_ trustSince refresh :
  trustSince ≠ zeroTime → dep_SigningMinimumRefreshSeconds deployment = refresh → MinimumSigningRefreshSeconds ≤ refresh →
  trustSince + seconds refresh ≤ at_ → transitionReady deployment at_ trustSince = true.
Proof.
  intros Hz <- Hm Ha. unfold transitionReady. rewrite (proj2 (Z.eqb_neq _ _) Hz), (proj2 (Z.leb_le _ _) Hm).
  by rewrite (proj2 (Z.ltb_ge _ _) Ha).
Qed.

Lemma str_decide_refl (x : string) : bool_decide (x = x) = true.
Proof. by apply bool_decide_eq_true_2. Qed.

(** A desired state that follows the deployed one passes the transition check. *)
Lemma transition_passes repository keys deployment observed at_ trustSince desired :
  repositoryDeploymentSigningState repository keys = Ok desired → validateRotationKeyValidity repository keys at_ = Ok () →
  dep_NativeRevision deployment ≠ "" → rev_NativeRevision observed = dep_NativeRevision deployment →
  rev_TreeSHA256 observed = dep_TreeSHA256 deployment → rev_ManifestSHA256 observed = dep_ManifestSHA256 deployment →
  st_active desired ≠ "" → dep_SigningKeyringPath deployment = st_keyring desired →
  phaseFollows deployment desired at_ trustSince = true →
  validateRepositorySigningTransition repository keys deployment observed at_ trustSince = Ok ().
Proof.
  intros Hs Hk Hn E1 E2 E3 Ha Hr Hp. unfold validateRepositorySigningTransition. rewrite Hs, Hk. cbn [mbind result_bind].
  rewrite (bool_decide_eq_false_2 _ Hn). destruct (deploymentSigningMatches _ _); [done|].
  rewrite E1, E2, E3, Hr, !str_decide_refl. cbn [negb orb]. rewrite !andb_false_r.
  rewrite bool_decide_eq_false_2 by done. destruct (_ && _); [done|]. by rewrite Hp.
Qed.

Lemma phase_activates d fa fb ring m at_ since :
  dep_SigningRotationPhase d = "introducing" → dep_SigningMinimumRefreshSeconds d = m →
  dep_ActiveSigningFingerprint d = fa → dep_TrustedSigningFingerprints d = [fa; fb] → transitionReady d at_ since = true →
  phaseFollows d (mkSigningState fb [fa; fb] ring "activated" m) at_ since = true.
Proof.
  intros Hp Hm Ha Ht Hr. unfold phaseFollows. cbn. rewrite Hp, Hm, Ha, Ht, Hr, Z.eqb_refl.
  by repeat (case_bool_decide; try congruence).
Qed.

Lemma phase_retires d fa fb ring at_ since :
  dep_SigningRotationPhase d = "activated" → dep_ActiveSigningFingerprint d = fb →
  dep_TrustedSigningFingerprints d = [fa; fb] → transitionReady d at_ since = true →
  phaseFollows d (mkSigningState fb [fb] ring "" 0) at_ since = true.
Proof.
  intros Hp Ha Ht Hr. unfold phaseFollows. cbn. rewrite Hp, Ha, Ht, Hr. cbn.
  by repeat (case_bool_decide; try congruence).
Qed.

(** What an advance writes can be deployed: where the receipt is still what the
    host serves and the keys remain valid long enough, the transition to the new
    phase passes the check every later plan and apply makes. *)
Theorem advance_is_deployable clean files name now written result repository deployment observed at_ trustSince :
  advanceKeyRotation clean files name now = Ok (Some written, result) →
  (∀ manifest, rf_Manifest files = Ok manifest → man_Keys manifest !! "" = None ∧ named_keys (man_Keys manifest) ∧
     map_Forall (λ _ r, validateRepositorySigning r (man_Keys manifest) = Ok ()) (man_Repositories manifest)) →
  rf_Deployment files = Ok deployment → AuthoritativeDeploymentTrustSince deployment (rf_CommittedAt files) = Ok trustSince →
  trustSince ≠ zeroTime → rev_NativeRevision observed = dep_NativeRevision deployment → dep_NativeRevision deployment ≠ "" →
  rev_TreeSHA256 observed = dep_TreeSHA256 deployment → rev_ManifestSHA256 observed = dep_ManifestSHA256 deployment →
  man_Repositories written !! name = Some repository → now ≤ at_ →
  validateRotationKeyValidity repository (man_Keys written) at_ = Ok () →
  validateRepositorySigningTransition repository (man_Keys written) deployment observed at_ trustSince = Ok ().
Proof.
  intros Ha Hvalid Hdep Htrust Hzero Hobs Hnat Htree Hman Hrep Hat Hkeys.
  apply advanceKeyRotation_ok in Ha as (manifest & before & after & rotation & dep & desired & since & Hadv & ->).
  destruct Hadv as [Hm Hb Hl Hd Hs Hr Hmatch Ht Hw Hnext _]. destruct (Hvalid manifest Hm) as (Hempty & Hnamed & Hall).
  assert (dep = deployment) as -> by congruence. assert (since = trustSince) as -> by congruence.
  cbn [set_repositories man_Repositories man_Keys] in *. rewrite lookup_insert_eq in Hrep. injection Hrep as ->.
  destruct (rotating_valid _ _ _ (Hall name before Hb) Hr) as (a & ka & kb & Hk & Hane & Hka & Hkb & Hring & Hmin).
  assert (SuccessorKey rotation ≠ "") as Hbne by congruence.
  rewrite (state_rotating _ _ _ _ _ _ Hk Hring Hr Hane Hbne Hka Hkb) in Hs. injection Hs as <-.
  pose proof (ready_window deployment at_ trustSince (MinimumRefreshSeconds rotation) Hzero) as Hready.
  unfold deploymentSigningMatches in Hmatch. cbn [st_active st_trusted st_phase st_keyring st_minimumRefresh] in Hmatch.
  split_bools. rewrite Z.eqb_eq in *.
  unfold nextPhase in Hnext. case_bool_decide as Hphase; [|case_bool_decide as Hphase'; [|done]]; injection Hnext as <-.
  - rewrite Hphase in *.
    apply (transition_passes _ _ _ _ _ _ (mkSigningState (key_Fingerprint kb) [key_Fingerprint ka; key_Fingerprint kb]
      (repo_SigningKeyring before) "activated" (MinimumRefreshSeconds rotation))); try done; [|by eapply Hnamed|].
    + set (next := mkRotation (SuccessorKey rotation) "activated" (MinimumRefreshSeconds rotation)).
      exact (state_rotating (set_rotation (Some next) before) (man_Keys manifest) next a ka kb Hk Hring eq_refl Hane Hbne Hka Hkb).
    + apply phase_activates; try done. apply Hready; done || lia.
  - rewrite Hphase' in *.
    apply (transition_passes _ _ _ _ _ _ (mkSigningState (key_Fingerprint kb) [key_Fingerprint kb]
      (repo_SigningKeyring before) "" 0)); try done; [|by eapply Hnamed|].
    + exact (state_stable (set_rotation None (set_signing_keys [SuccessorKey rotation] before)) (man_Keys manifest)
        (SuccessorKey rotation) kb eq_refl Hring eq_refl Hbne Hkb).
    + apply (phase_retires _ (key_Fingerprint ka)); try done. apply Hready; done || lia.
Qed.
(** One deployment carries a rotation one step: after an advance, advancing
    again on the same receipt writes nothing, so no phase is skipped without having
    been deployed. *)
Theorem advance_needs_deployment clean clean' files name now now' committedAt written result second :
  advanceKeyRotation clean files name now = Ok (Some written, result) →
  (∀ manifest, rf_Manifest files = Ok manifest → man_Keys manifest !! "" = None ∧
     map_Forall (λ _ r, validateRepositorySigning r (man_Keys manifest) = Ok ()) (man_Repositories manifest)) →
  advanceKeyRotation clean' (mkRotationFiles (Ok written) (rf_Deployment files) committedAt) name now' = Ok second →
  second.1 = None.
Proof.
  intros Hfirst Hvalid Hsecond. destruct second as [[again|] r]; [exfalso|done].
  apply advanceKeyRotation_ok in Hfirst as (m & before & after & rotation & dep & desired & since & Hadv & ->).
  apply advanceKeyRotation_ok in Hsecond as (m' & before' & after' & rotation' & dep' & desired' & since' & Hadv' & ->).
  destruct Hadv as [Hm Hb _ Hd Hs Hr Hmatch _ _ Hnext _]. destruct Hadv' as [Hm' Hb' _ Hd' Hs' Hr' Hmatch' _ _ _ _].
  destruct (Hvalid m Hm) as [Hempty Hall]. cbn [rf_Manifest rf_Deployment] in *.
  injection Hm' as <-. assert (dep' = dep) as -> by congruence. cbn [set_repositories man_Repositories man_Keys] in *.
  rewrite lookup_insert_eq in Hb'. injection Hb' as ->.
  destruct (rotating_valid _ _ _ (Hall name before Hb) Hr) as (a & ka & kb & Hk & Hane & Hka & Hkb & Hring & _).
  assert (SuccessorKey rotation ≠ "") as Hbne by congruence.
  rewrite (state_rotating _ _ _ _ _ _ Hk Hring Hr Hane Hbne Hka Hkb) in Hs. injection Hs as <-.
  unfold nextPhase in Hnext. case_bool_decide as Hphase; [|case_bool_decide; [|done]]; injection Hnext as <-; [|done].
  set (next := mkRotation (SuccessorKey rotation) "activated" (MinimumRefreshSeconds rotation)) in *.
  rewrite (state_rotating (set_rotation (Some next) before) (man_Keys m) next a ka kb Hk Hring eq_refl Hane Hbne Hka Hkb) in Hs'.
  injection Hs' as <-. unfold deploymentSigningMatches in Hmatch, Hmatch'. cbn in Hmatch, Hmatch'. split_bools. congruence.
Qed.

(** A rotation to a key of another algorithm cannot finish: the command that
    starts a rotation does not compare the algorithm of an existing successor, but
    retiring the old key leaves the successor alone, which the manifest refuses, so
    no advance ever completes it. *)
Theorem mixed_algorithm_rotation_stuck clean manifest deployment committedAt name now repository rotation key selected out :
  man_Repositories manifest !! name = Some repository → repo_SigningRotation repository = Some rotation →
  Phase rotation = "activated" → man_Keys manifest !! SuccessorKey rotation = Some key →
  For (repo_Format repository) = Ok selected → key_Algorithm key ≠ SigningAlgorithm selected →
  advanceKeyRotation clean (mkRotationFiles (Ok manifest) deployment committedAt) name now = Ok out → False.
Proof.
  intros Hr Hrot Hphase Hkey Hfor Halg Hout. destruct out as [[written|] r].
  - apply advanceKeyRotation_ok in Hout as (m & before & after & rot & dep & desired & since & Hadv & ->).
    destruct Hadv as [Hm Hb _ _ _ Hr' _ _ _ Hnext [content Hw]]. cbn [rf_Manifest] in Hm. injection Hm as <-.
    assert (before = repository) as -> by congruence. assert (rot = rotation) as -> by congruence.
    unfold nextPhase in Hnext. rewrite Hphase in Hnext. cbn in Hnext. injection Hnext as <-.
    apply (WriteManifest_signing _ _ name (set_rotation None (set_signing_keys [SuccessorKey rotation] repository))) in Hw;
      [|apply lookup_insert_eq].
    unfold validateRepositorySigning in Hw. cbn [set_rotation set_signing_keys repo_SigningKeys repo_Format set_repositories man_Keys] in Hw.
    rewrite Hfor, Hkey in Hw. cbn [mbind result_bind] in Hw. destruct (negb (ImplementsSigning _)); [done|].
    by rewrite bool_decide_eq_false_2 in Hw.
  - unfold advanceKeyRotation in Hout. cbn [rf_Manifest rf_Deployment rf_CommittedAt] in Hout.
    destruct clean as [[]|]; cbn [mbind result_bind] in Hout; [|done]. rewrite Hr, Hrot in Hout. destruct (negb _) in Hout; [done|].
    destruct deployment; cbn [mbind result_bind] in Hout; [|done].
    destruct (repositoryDeploymentSigningState _ _); cbn [mbind result_bind] in Hout; [|done].
    destruct (negb _) in Hout; [done|]. destruct (AuthoritativeDeploymentTrustSince _ _); cbn [mbind result_bind] in Hout; [|done].
    destruct (_ <? _) in Hout; [done|]. destruct (validateRotationAdvanceValidity _ _ _ _); cbn [mbind result_bind] in Hout; [|done].
    destruct (nextPhase _ _); cbn [mbind result_bind] in Hout; [|done]. by destruct (WriteManifest _).
Qed.

(** A refresh window is not bounded above, and its nanoseconds wrap: a manifest
    that asks for [18446744074] seconds, some 585 years, passes the checks of a
    rotation, and the window it enforces is less than a second long. *)
Theorem refresh_window_wraps active keys successor key phase deployment at_ trustSince :
  successor ≠ active → keys !! successor = Some key → phase = "introducing" ∨ phase = "activated" →
  dep_SigningMinimumRefreshSeconds deployment = 18446744074 → trustSince ≠ zeroTime → trustSince + Second ≤ at_ →
  validateRotation active keys (mkRotation successor phase 18446744074) = Ok () ∧
  transitionReady deployment at_ trustSince = true.
Proof.
  intros Hne Hk Hp Hd Hz Ha. split.
  - unfold validateRotation. cbn [SuccessorKey Phase MinimumRefreshSeconds]. rewrite bool_decide_eq_false_2 by done.
    assert (negb (bool_decide (phase = "introducing")) && negb (bool_decide (phase = "activated")) = false) as ->
      by (by destruct Hp as [-> | ->]). by rewrite Hk.
  - apply (ready_window _ _ _ 18446744074); [done|done|by unfold MinimumSigningRefreshSeconds|].
    change (seconds 18446744074) with 290448384. unfold Second in Ha. lia.
Qed.
End commands.

(** A workspace with a signed repository and two keys, the second of either
    algorithm; every manifest is encoded by the same bytes. *)
Module CommandExample.
Import RotationExample.
#[local] Existing Instance RotationExample.time_lib.
#[local] Instance net_lib : NetLib := {| ParseURL _ := None; ParseAddr _ := None |}.
Definition digest : string := "0123456789abcdef0123456789abcdef0123456789abcdef0123456789abcdef".
#[local] Instance hash_lib : HashLib := {| SHA256Hex _ := digest |}.
#[local] Instance manifest_lib : ManifestLib := {|
  UnmarshalHeader _ := Err ""; UnmarshalManifest _ := Err ""; UnmarshalLegacy _ := Err "";
  MarshalManifest _ := Ok "manifest"; StdDecodeBase64 _ := None; EqualFold l r := bool_decide (l = r);
|}.

Definition openpgp (name fingerprint : string) : SigningKey :=
  mkSigningKey "openpgp-rsa4096" "sign" fingerprint (format 0) (format (1000 * day)) ("keys/" +:+ name +:+ ".gpg") digest
    ("keys/" +:+ name +:+ ".asc") digest (mkKeyRef "file" (digest +:+ "/" +:+ name)).
Definition apk (name fingerprint : string) : SigningKey :=
  mkSigningKey "apk-rsa4096" "sign" fingerprint (format 0) (format (1000 * day)) ("keys/" +:+ name +:+ ".rsa.pub") digest
    ("keys/" +:+ name +:+ ".rsa.pub") digest (mkKeyRef "file" (digest +:+ "/" +:+ name)).
Definition manifest (b : SigningKey) (repository : Repository) : Manifest :=
  mkManifest ManifestSchema (mkWorkspace "shop" digest "" "" "") localBlobStore
    {[ "a" := openpgp "a" aFingerprint; "b" := b ]} {[ "apt" := repository ]}.
Definition good : SigningKey := openpgp "b" bFingerprint.
Definition other : SigningKey := apk "b" bFingerprint.

Definition files (b : SigningKey) (repository : Repository) : RotationFiles :=
  mkRotationFiles (Ok (manifest b repository)) (Ok (receipt d0 repository "r1" (10 * day))) (Ok (10 * day)).
Definition introduced := files good (rotating "introducing").
Definition written : Manifest :=
  match advanceKeyRotation (Ok ()) introduced "apt" (20 * day) with Ok (Some m, _) => m | _ => manifest good (signed None) end.

Lemma valid_manifest phase m : phase = "introducing" ∨ phase = "activated" → rf_Manifest (files good (rotating phase)) = Ok m → man_Keys m !! "" = None ∧ named_keys (man_Keys m) ∧
  map_Forall (λ _ r, validateRepositorySigning r (man_Keys m) = Ok ()) (man_Repositories m).
Proof.
  intros Hp [= <-]. split; [vm_compute; reflexivity|]. split.
  - apply map_Forall_to_list. vm_compute. repeat constructor; discriminate.
  - intros name r Hr. cbn [manifest man_Repositories] in Hr. apply lookup_singleton_Some in Hr as [_ <-].
    destruct Hp as [-> | ->]; vm_compute; reflexivity.
Qed.

Lemma advance_is_deployable_witness :
  validateRepositorySigningTransition (rotating "activated") (man_Keys written) (receipt d0 (rotating "introducing") "r1" (10 * day))
    (revision "r1") (21 * day) (10 * day) = Ok ().
Proof.
  apply (advance_is_deployable (Ok ()) introduced "apt" (20 * day) written
    (rotationResult "apt" (rotating "activated") true) (rotating "activated")).
  - vm_compute. reflexivity.
  - intros m. apply valid_manifest. by left.
  - reflexivity.
  - vm_compute. reflexivity.
  - discriminate.
  - reflexivity.
  - discriminate.
  - reflexivity.
  - reflexivity.
  - vm_compute. reflexivity.
  - vm_compute. discriminate.
  - vm_compute. reflexivity.
Defined.

Definition activated := files good (rotating "activated").
Definition retired : Manifest :=
  match advanceKeyRotation (Ok ()) activated "apt" (20 * day) with Ok (Some m, _) => m | _ => manifest good (signed None) end.
Definition again := mkRotationFiles (Ok retired) (rf_Deployment activated) (Ok (10 * day)).

Lemma advance_needs_deployment_witness :
  ∃ second, advanceKeyRotation (Ok ()) again "apt" (40 * day) = Ok second ∧ second.1 = None.
Proof.
  destruct (advanceKeyRotation (Ok ()) again "apt" (40 * day)) as [second|] eqn:E; [|vm_compute in E; discriminate E].
  exists second. split; [reflexivity|].
  refine (advance_needs_deployment (Ok ()) (Ok ()) activated "apt" (20 * day) (40 * day) (Ok (10 * day)) retired
    (rotationResult "apt" (set_rotation None (set_signing_keys ["b"] (rotating "activated"))) true) second _ _ E).
  - vm_compute. reflexivity.
  - intros m Hm. destruct (valid_manifest "activated" m (or_intror eq_refl) Hm) as (H1 & _ & H2). by split.
Defined.

(** The rotation to the other algorithm starts, and is stuck once activated. *)
Definition start (b : SigningKey) :=
  RotateKey format None (Ok ())
    (mkRotationFiles (Ok (manifest b (signed None))) (Ok (receipt d0 (signed None) "r1" (10 * day))) (Ok (10 * day)))
    (mkRotateKey "apt" "b" false (8 * day) 0) (11 * day).

Lemma mixed_algorithm_rotation_starts : is_ok (start other) = true.
Proof. vm_compute. reflexivity. Qed.

Lemma mixed_algorithm_rotation_stuck_witness :
  ¬ ∃ out, advanceKeyRotation (Ok ()) (files other (rotating "activated")) "apt" (20 * day) = Ok out.
Proof.
  intros [out E].
  apply (mixed_algorithm_rotation_stuck (Ok ()) (manifest other (rotating "activated"))
    (rf_Deployment (files other (rotating "activated"))) (Ok (10 * day)) "apt" (20 * day) (rotating "activated")
    (mkRotation "b" "activated" (8 * 86400)) other debFormat out).
  - reflexivity.
  - reflexivity.
  - reflexivity.
  - reflexivity.
  - reflexivity.
  - discriminate.
  - exact E.
Defined.

Lemma refresh_window_wraps_witness :
  transitionReady (mkDeployment 2 "" "" "" "" "" "" "" "" [] "" "" 18446744074 "") (2 * Second) Second = true.
Proof.
  apply (refresh_window_wraps "a" (man_Keys (manifest good (signed None))) "b" good "introducing").
  - discriminate.
  - reflexivity.
  - by left.
  - reflexivity.
  - discriminate.
  - vm_compute. discriminate.
Defined.
End CommandExample.
