(* ===== verification/PlanProofs.v ===== *)
(** What a plan says is what an apply accepts: the effects derived from a valid lock
    pass the plan's own check, and the check made before a repository is rebuilt
    never refuses what the check against its shape allows. *)

From S2P Require Import Prelude GoStrings GoSlices GoRegexp Model Formats Source Lock LockInvariant JsonStrict Ledger Forge PlanJson Gate Manifest.
From S2P Require Import LockHistory Host Deployment Signing Plan.

Open Scope Z_scope.

(** ** Joined keys *)

Lemma ascii_nul_lt c : ascii_eqb c "000" = false → N.compare (N_of_ascii c) (N_of_ascii "000") = Gt.
Proof.
  intros Hc. apply N.compare_gt_iff. cbn [N_of_ascii]. destruct (N_of_ascii c) eqn:E; [|vm_compute; done].
  exfalso. apply (f_equal ascii_of_N) in E. rewrite ascii_N_embedding in E. subst c. by rewrite ascii_eqb_refl in Hc.
Qed.

(** Comparing NUL-joined strings compares their parts in turn. *)
Lemma nul_join_cmp a c : nul_free a = true → nul_free c = true → ∀ b d,
  str_cmp (a +:+ nul +:+ b) (c +:+ nul +:+ d) = cmp_then (str_cmp a c) (str_cmp b d).
Proof.
  unfold nul_free. rewrite !negb_true_iff. revert c. induction a as [|x a IH]; intros [|y c] Ha Hc b d; cbn [mem_byte] in *.
  - done.
  - apply orb_false_iff in Hc as [Hc _]. change (str_cmp (nul +:+ b) (String y (c +:+ nul +:+ d)) = Lt). cbn [str_cmp].
    change (nul +:+ b) with (String "000" b). cbn [str_cmp].
    by rewrite N.compare_antisym, (ascii_nul_lt y Hc).
  - apply orb_false_iff in Ha as [Ha _]. change (nul +:+ d) with (String "000" d).
    change (str_cmp (String x (a +:+ nul +:+ b)) ("" +:+ String "000" d) = Gt).
    change ("" +:+ String "000" d) with (String "000" d). cbn [str_cmp]. by rewrite (ascii_nul_lt x Ha).
  - apply orb_false_iff in Ha as [_ Ha], Hc as [_ Hc]. rewrite !str_app_cons. cbn [str_cmp].
    rewrite IH by done. by destruct (N.compare _ _).
Qed.

Lemma nul_free_mem s : all_bytes (λ c, negb (ascii_eqb c "000")) s = true → nul_free s = true.
Proof.
  unfold nul_free. rewrite negb_true_iff. induction s as [|c s IH]; [done|]. cbn [all_bytes mem_byte].
  intros [Hc Hs]%andb_true_iff. apply negb_true_iff in Hc. by rewrite Hc, IH.
Qed.

Lemma control_nul_free s : HasControl s = false → nul_free s = true.
Proof.
  intros Hc. apply nul_free_mem. induction s as [|c s IH]; [done|]. cbn [HasControl all_bytes] in *.
  apply orb_false_iff in Hc as [Hc Hs]. rewrite IH, andb_true_r by done.
  repeat (apply orb_false_iff in Hc as [Hc ?]). apply negb_true_iff. destruct (ascii_eqb c "000") eqn:E; [|done].
  apply ascii_eqb_eq in E as ->. by vm_compute in Hc.
Qed.

(** ** Strictly ascending slices *)

(** A sorted slice without two equal elements is strictly sorted. *)
Lemma sorted_strict {A B} (less : A → A → bool) (cmp : A → A → comparison) (f : A → B) l :
  (∀ x y, less x y = true ↔ cmp x y = Lt) → CmpLaws cmp → (∀ x y, cmp x y = Eq → f x = f y) →
  StronglySorted (not_above less) l → NoDup (f <$> l) → StronglySorted (λ x y, cmp x y = Lt) l.
Proof.
  intros Hspec Hlaws Hf. induction 1 as [|x l Hl IH Hx]; [constructor|]. rewrite fmap_cons, NoDup_cons.
  intros [Hn Hd]. constructor; [by apply IH|]. rewrite Forall_forall in *. intros y Hy.
  pose proof (proj1 (not_above_spec less cmp Hspec x y) (Hx y Hy)) as Hc. destruct (cmp x y) eqn:E; [|done|done].
  exfalso. apply Hn. rewrite (Hf _ _ E). by apply list_elem_of_fmap_2.
Qed.

Lemma StronglySorted_filter {A} (R : A → A → Prop) (p : A → bool) l :
  StronglySorted R l → StronglySorted R (List.filter p l).
Proof.
  induction 1 as [|x l Hl IH Hx]; cbn [List.filter]; [constructor|]. destruct (p x); [|done]. constructor; [done|].
  rewrite Forall_forall in *. intros y [Hy _]%elem_of_List_filter. by apply Hx.
Qed.

Lemma StronglySorted_head {A} (R : A → A → Prop) x l : StronglySorted R (x :: l) → ∀ y, y ∈ l → R x y.
Proof. intros [_ Hf]%StronglySorted_inv y Hy. rewrite Forall_forall in Hf. by apply Hf. Qed.

Lemma str_cmp_nonempty s : s ≠ "" → str_ltb "" s = true.
Proof. by destruct s. Qed.

Lemma ascendingDigests_sorted digests : ∀ previous,
  Forall (λ d, ValidSHA256 d = true) digests → StronglySorted (λ x y, str_cmp x y = Lt) (previous :: digests) →
  ascendingDigests previous digests = true.
Proof.
  induction digests as [|d digests IH]; intros previous Hv Hs; [done|]. cbn [ascendingDigests].
  apply Forall_cons in Hv as [-> Hv]. pose proof (StronglySorted_head _ _ _ Hs d ltac:(by left)) as Hlt.
  apply str_ltb_spec in Hlt as ->. apply StronglySorted_inv in Hs as [Hs _]. by apply IH.
Qed.

Lemma Strings_strict l : NoDup l → StronglySorted (λ x y, str_cmp x y = Lt) (Strings l).
Proof.
  intros Hd. apply (sorted_strict str_ltb str_cmp id); [apply str_ltb_spec|apply _|by intros ? ? ?%str_cmp_eq| |].
  - apply (sort_slice_sorted _ str_cmp str_ltb_spec).
  - by rewrite list_fmap_id, Strings_perm.
Qed.

(** ** Effects derived from a lock *)

Section effects.
Context `{DeploymentLib, NetLib, HashLib, !ManifestLib, RecipeLib, PlanKnowledge}.

(** What the effects of a plan need of a version: names without NUL bytes, and no
    two artifacts with the same bytes. *)
Definition version_plain (pv : PackageVersion) : Prop :=
  nul_free (pv_Package pv) = true ∧ nul_free (pv_Version pv) = true ∧ NoDup (SHA256 <$> pv_Blobs pv).

Lemma canonical_sorted selected repository lock :
  lock_wf selected repository lock → canonicalizeLock lock = lock →
  StronglySorted (λ x y, versionCmp x y = Lt) (lock_PackageVersion lock).
Proof.
  intros Hwf Hc. apply (sorted_strict versionLess versionCmp version_key); [apply versionLess_spec|apply _|apply versionCmp_eq| |apply Hwf].
  rewrite <- Hc. apply (sort_slice_sorted _ versionCmp versionLess_spec).
Qed.

Lemma visible_elem lock repository pv : pv ∈ visiblePackageVersions lock repository → pv ∈ lock_PackageVersion lock.
Proof. by intros [? _]%elem_of_List_filter. Qed.

Lemma versionKey_cmp x y :
  version_plain x → version_plain y →
  str_cmp (versionKey (pv_Package x) (pv_Version x)) (versionKey (pv_Package y) (pv_Version y)) = versionCmp x y.
Proof. intros (Hx & _) (Hy & _). by apply nul_join_cmp. Qed.

Lemma bindings_valid selected versions : ∀ previous,
  Forall (version_wf selected) versions → Forall version_plain versions →
  StronglySorted (λ x y, versionCmp x y = Lt) versions →
  (∀ v, v ∈ versions → str_ltb previous (versionKey (pv_Package v) (pv_Version v)) = true) →
  validBindings previous (bindingOf <$> versions) = true.
Proof.
  induction versions as [|v versions IH]; intros previous Hwf Hp Hs Hprev; [done|]. rewrite fmap_cons. cbn [validBindings].
  apply Forall_cons in Hwf as [Hv Hwf], Hp as [Hpv Hp]. destruct Hv as [Hpk Hve _ Hne Hbl _]. cbn [bindingOf binding_Package binding_Version binding_BlobSHA256].
  rewrite !bool_decide_eq_false_2, Hprev by (done || by left). cbn [negb andb]. rewrite (Permutation_length (Strings_perm _)), length_fmap.
  destruct (length (pv_Blobs v)) eqn:El; [by apply length_zero_iff_nil in El|]. cbn [Nat.eqb negb andb].
  rewrite ascendingDigests_sorted; cbn [andb].
  - apply StronglySorted_inv in Hs as Hs'. destruct Hs' as [Hs' _]. apply IH; [done..|].
    intros w Hw. apply str_ltb_spec. rewrite versionKey_cmp; [|done|by rewrite Forall_forall in Hp; apply Hp].
    by apply (StronglySorted_head _ _ _ Hs).
  - rewrite Strings_perm. apply Forall_fmap. eapply Forall_impl; [exact Hbl|]. intros b [_ _ _ _ Hd _]. by apply (validLowerHex_spec _ 32).
  - constructor; [apply Strings_strict, Hpv|]. rewrite Strings_perm. apply Forall_fmap.
    eapply Forall_impl; [exact Hbl|]. intros b [_ _ _ _ [Hd _] _]. cbn. by destruct (SHA256 b).
Qed.

Definition acquisitionCmp (l r : PlanAcquisition) : comparison :=
  cmp_then (str_cmp (acq_Package l) (acq_Package r))
    (cmp_then (str_cmp (acq_Version l) (acq_Version r))
       (cmp_then (str_cmp (acq_Filename l) (acq_Filename r)) (str_cmp (acq_SHA256 l) (acq_SHA256 r)))).
#[local] Instance acquisitionCmp_laws : CmpLaws acquisitionCmp.
Proof. unfold acquisitionCmp. repeat apply cmp_then_laws; apply _. Qed.

Lemma acquisitionLess_spec x y : acquisitionLess x y = true ↔ acquisitionCmp x y = Lt.
Proof. repeat apply less_then_spec. apply str_ltb_spec. Qed.

Definition acquisition_id (a : PlanAcquisition) : string * string * string := (acq_Package a, acq_Version a, acq_SHA256 a).

Lemma acquisitionCmp_eq x y : acquisitionCmp x y = Eq → acquisition_id x = acquisition_id y.
Proof. unfold acquisitionCmp, acquisition_id. rewrite !cmp_then_eq, !str_cmp_eq. by intros (-> & -> & _ & ->). Qed.

(** An acquisition is an artifact of a version with its origin. *)
Lemma acquisitionsOf_elem v a :
  a ∈ acquisitionsOf v ↔
  ∃ b o, b ∈ pv_Blobs v ∧ Origin b = Some o ∧ a = mkAcquisition (pv_Package v) (pv_Version v) (Filename b) (SHA256 b) (origin_URL o).
Proof.
  unfold acquisitionsOf. rewrite list_elem_of_omap. split.
  - intros (b & Hb & E). destruct (Origin b) as [o|] eqn:Eo; [|done]. injection E as <-. by exists b, o.
  - intros (b & o & Hb & Eo & ->). exists b. by rewrite Eo.
Qed.

Lemma acquisitionsOf_digests v : NoDup (SHA256 <$> pv_Blobs v) → NoDup (acquisition_id <$> acquisitionsOf v).
Proof.
  intros Hd. assert (∀ l, NoDup (SHA256 <$> l) → NoDup (acquisition_id <$> omap (λ locked,
    (λ origin, mkAcquisition (pv_Package v) (pv_Version v) (Filename locked) (SHA256 locked) (origin_URL origin)) <$> Origin locked) l)
    ∧ ∀ a, a ∈ omap (λ locked, (λ origin, mkAcquisition (pv_Package v) (pv_Version v) (Filename locked) (SHA256 locked) (origin_URL origin))
        <$> Origin locked) l → acq_SHA256 a ∈ SHA256 <$> l) as Hl; [|by apply Hl].
  clear Hd. induction l as [|b l IH]; [split; [constructor|by intros ? ?%not_elem_of_nil]|].
  rewrite fmap_cons, NoDup_cons. intros [Hn Hd]. destruct (IH Hd) as [Hd' Hin]. cbn [omap list_omap].
  destruct (Origin b) as [o|]; cbn [option_fmap option_map fmap]; [|split; [done|]; intros a Ha; right; by apply Hin].
  split.
  - rewrite fmap_cons. constructor; [|done]. intros (a & Ea & Ha)%list_elem_of_fmap. apply Hin in Ha.
    apply (f_equal snd) in Ea. cbn in Ea. by rewrite Ea in Hn.
  - intros a [->|Ha]%elem_of_cons; [by left|]. right. by apply Hin.
Qed.

Lemma acquisitions_distinct versions :
  NoDup (version_key <$> versions) → Forall version_plain versions →
  NoDup (acquisition_id <$> (versions ≫= acquisitionsOf)).
Proof.
  induction versions as [|v versions IH]; [constructor|]. rewrite fmap_cons, NoDup_cons, Forall_cons.
  intros [Hn Hd] [(_ & _ & Hv) Hp]. change ((v :: versions) ≫= acquisitionsOf) with (acquisitionsOf v ++ (versions ≫= acquisitionsOf)).
  rewrite fmap_app, NoDup_app. split; [by apply acquisitionsOf_digests|]. split; [|by apply IH].
  intros i (a & -> & Ha)%list_elem_of_fmap (a' & E & (w & Ha' & Hw)%list_elem_of_bind)%list_elem_of_fmap. apply Hn.
  apply acquisitionsOf_elem in Ha as (b & o & _ & _ & ->), Ha' as (b' & o' & _ & _ & ->). injection E as E1 E2 _.
  apply list_elem_of_fmap. exists w. unfold version_key. by rewrite E1, E2.
Qed.

(** What an acquisition of a well-formed version has. *)
Definition acquisition_wf (a : PlanAcquisition) : Prop :=
  acq_Package a ≠ "" ∧ acq_Version a ≠ "" ∧ acq_Filename a ≠ "" ∧ ValidSHA256 (acq_SHA256 a) = true ∧
  is_ok (ValidateArtifactOrigin (mkOrigin "https" (acq_OriginURL a) "")) = true ∧
  nul_free (acq_Package a) = true ∧ nul_free (acq_Version a) = true ∧ nul_free (acq_Filename a) = true.

Lemma origin_without_provenance o : ValidateArtifactOrigin o = Ok () → is_ok (ValidateArtifactOrigin (mkOrigin "https" (origin_URL o) "")) = true.
Proof.
  unfold ValidateArtifactOrigin. cbn [origin_URL origin_Kind origin_Provenance].
  destruct (_ || _ || _) eqn:E; [done|]. intros _. apply orb_false_iff in E as [[_ E1]%orb_false_iff E2].
  by rewrite E1, E2, !bool_decide_eq_true_2.
Qed.

Lemma acquisition_of_wf selected v a :
  version_wf selected v → version_plain v → a ∈ acquisitionsOf v → acquisition_wf a.
Proof.
  intros [Hp Hv _ _ Hb _] (Hnp & Hnv & _) (b & o & Hin & Eo & ->)%acquisitionsOf_elem.
  rewrite Forall_forall in Hb. destruct (Hb b Hin) as [Hf _ Hc _ Hd Ho]. repeat split; try done; cbn.
  - by apply (validLowerHex_spec _ 32).
  - by apply origin_without_provenance, Ho.
  - by apply control_nul_free.
Qed.

Lemma acquisitionKey_cmp x y :
  acquisition_wf x → acquisition_wf y → str_cmp (acquisitionKey x) (acquisitionKey y) = acquisitionCmp x y.
Proof.
  intros (_ & _ & _ & _ & _ & ? & ? & ?) (_ & _ & _ & _ & _ & ? & ? & ?). unfold acquisitionKey, acquisitionCmp.
  by rewrite !nul_join_cmp.
Qed.

Lemma acquisitions_valid acquisitions : ∀ previous,
  Forall acquisition_wf acquisitions → StronglySorted (λ x y, acquisitionCmp x y = Lt) acquisitions →
  (∀ a, a ∈ acquisitions → str_ltb previous (acquisitionKey a) = true) → validAcquisitions previous acquisitions = true.
Proof.
  induction acquisitions as [|a l IH]; intros previous Hwf Hs Hprev; [done|]. cbn [validAcquisitions].
  apply Forall_cons in Hwf as [Ha Hwf]. pose proof Ha as (Ep & Ev & Ef & Ed & Eo & _).
  rewrite !bool_decide_eq_false_2, Ed, Eo, Hprev by (done || by left). cbn [negb andb].
  pose proof Hs as [Hs' _]%StronglySorted_inv. apply IH; [done..|]. intros w Hw. apply str_ltb_spec.
  rewrite acquisitionKey_cmp; [|done|by rewrite Forall_forall in Hwf; apply Hwf]. by apply (StronglySorted_head _ _ _ Hs).
Qed.

(** What planning derives from a lock, applying accepts: the publication
    bindings and the adopted acquisitions of a valid canonical lock pass the check
    of the plan's effects, if names have no NUL byte and no version has two
    artifacts with the same bytes. *)
Theorem plan_effects_accepted selected name lock repository :
  lock_wf selected name lock → canonicalizeLock lock = lock → Forall version_plain (lock_PackageVersion lock) →
  validBindings "" (publicationBindingsForVersions (visiblePackageVersions lock repository)) = true ∧
  validAcquisitions "" (planAcquisitionsForVersions (visiblePackageVersions lock repository)) = true.
Proof.
  intros Hwf Hc Hp. pose proof (canonical_sorted _ _ _ Hwf Hc) as Hs. destruct Hwf as [_ _ Hv Hd _ _].
  set (visible := visiblePackageVersions lock repository).
  assert (∀ P, Forall P (lock_PackageVersion lock) → Forall P visible) as Hsub.
  { intros P. rewrite !Forall_forall. intros HP v Hin%visible_elem. by apply HP. }
  assert (NoDup (version_key <$> visible)) as Hdv.
  { apply (NoDup_fmap_iff version_key version_key) in Hd; [|done]. clear -Hd. unfold visible, visiblePackageVersions.
    induction (lock_PackageVersion lock) as [|v l IH]; [constructor|]. rewrite fmap_cons, NoDup_cons in Hd. destruct Hd as [Hn Hd].
    cbn [List.filter]. destruct (bool_decide _); [|by apply IH]. rewrite fmap_cons. constructor; [|by apply IH].
    intros (w & E & [Hw _]%elem_of_List_filter)%list_elem_of_fmap. apply Hn. rewrite E. by apply list_elem_of_fmap_2. }
  split.
  - apply (bindings_valid selected); [by apply Hsub|by apply Hsub|by apply StronglySorted_filter|].
    intros v Hin%visible_elem. rewrite Forall_forall in Hv. destruct (Hv v Hin) as [Hne _ _ _ _ _].
    unfold versionKey. by destruct (pv_Package v).
  - assert (Forall acquisition_wf (visible ≫= acquisitionsOf)) as Ha.
    { apply Forall_forall. intros a (v & Ha & Hin%visible_elem)%list_elem_of_bind. rewrite Forall_forall in Hv, Hp.
      eapply acquisition_of_wf; [by apply Hv|by apply Hp|done]. }
    apply acquisitions_valid.
    + by unfold planAcquisitionsForVersions; rewrite sort_slice_perm.
    + apply (sorted_strict acquisitionLess acquisitionCmp acquisition_id);
        [apply acquisitionLess_spec|apply _|apply acquisitionCmp_eq|apply (sort_slice_sorted _ acquisitionCmp acquisitionLess_spec)|].
      unfold planAcquisitionsForVersions. rewrite sort_slice_perm. apply acquisitions_distinct; [done|by apply Hsub].
    + intros a Hin. unfold planAcquisitionsForVersions in Hin. rewrite sort_slice_perm in Hin. rewrite Forall_forall in Ha.
      destruct (Ha a Hin) as [Hne _]. unfold acquisitionKey. by destruct (acq_Package a).
Qed.

(** ** Plans that are never accepted *)

Lemma ascendingDigests_nodup digests : ∀ previous,
  ascendingDigests previous digests = true → NoDup digests ∧ ∀ d, d ∈ digests → str_cmp previous d = Lt.
Proof.
  induction digests as [|d digests IH]; intros previous; cbn [ascendingDigests]; [split; [constructor|by intros ? ?%not_elem_of_nil]|].
  intros [[_ Hlt%str_ltb_spec]%andb_true_iff Hrest]%andb_true_iff. destruct (IH _ Hrest) as [Hd Hall]. split.
  - constructor; [|done]. intros Hin%Hall. by rewrite str_cmp_refl in Hin.
  - intros e [->|He%Hall]%elem_of_cons; [done|]. apply (cmp_lt_le_trans str_cmp previous d e); [done|by rewrite He].
Qed.

Lemma validBindings_nodup bindings : ∀ previous binding,
  validBindings previous bindings = true → binding ∈ bindings → NoDup (binding_BlobSHA256 binding).
Proof.
  induction bindings as [|b bindings IH]; intros previous binding; cbn [validBindings]; [by intros _ ?%not_elem_of_nil|].
  intros [[_ Hd]%andb_true_iff Hrest]%andb_true_iff [->|Hin]%elem_of_cons; [by eapply ascendingDigests_nodup|by eapply IH].
Qed.

(** A version with two artifacts of the same bytes, which the lock accepts,
    cannot be published: the bindings a plan derives from it are refused. *)
Theorem identical_artifacts_refused versions v :
  v ∈ versions → ¬ NoDup (SHA256 <$> pv_Blobs v) → validBindings "" (publicationBindingsForVersions versions) = false.
Proof.
  intros Hin Hd. apply not_true_iff_false. intros Hv. apply Hd.
  rewrite <- (Strings_perm (SHA256 <$> pv_Blobs v)). apply (validBindings_nodup _ _ (bindingOf v) Hv). by apply list_elem_of_fmap_2.
Qed.

Lemma validPlanRepositories_elem forgeRepository repositories : ∀ seen r,
  validPlanRepositories forgeRepository seen repositories = Ok () → r ∈ repositories → validPlanRepository forgeRepository r = Ok ().
Proof.
  induction repositories as [|repository rest IH]; intros seen r; cbn [validPlanRepositories]; [by intros _ ?%not_elem_of_nil|].
  destruct (ValidateRepositoryName _) as [[]|]; cbn [mbind result_bind]; [|done]. destruct (bool_decide _); [done|].
  destruct (validPlanRepository _ repository) as [[]|] eqn:E; cbn [mbind result_bind]; [|done].
  intros Hrest [->|Hin]%elem_of_cons; [done|by eapply IH].
Qed.

Lemma validateApplyPlan_repositories plan r :
  validateApplyPlan plan = Ok () → r ∈ pay_Repositories plan → validPlanRepository (pay_ForgeRepository plan) r = Ok ().
Proof.
  intros Hv Hin. unfold validateApplyPlan in Hv. case_guards Hv. destruct (ParseRFC3339 (pay_CreatedAt plan)); [|done].
  destruct (ParseRFC3339 (pay_ExpiresAt plan)); [|done]. case_guards Hv. destruct (ParseRFC3339 (pay_GeneratedAt plan)); [|done].
  by eapply validPlanRepositories_elem.
Qed.

(** What an accepted plan says of a repository. *)
Lemma accepted_repository forgeRepository r :
  validPlanRepository forgeRepository r = Ok () →
  plan_Action r ∈ ["create"; "update"; "noop"] ∧ (plan_PublicationRecords r = true → plan_Action r ≠ "noop") ∧
  host_Type (plan_Host r) ∈ ["local"; "s3"; "github-pages"] ∧ ValidSHA256 (plan_DesiredTreeSHA256 r) = true ∧
  plan_ChangeID r = changeIDOf (plan_Name r) (plan_DesiredTreeSHA256 r) ∧
  ValidateDeploymentRecord (plan_ObservedDeployment r) (plan_Name r) = Ok ().
Proof.
  intros Hv. unfold validPlanRepository in Hv. cbn zeta in Hv. unfold hostTypeIs in Hv. case_guards Hv.
  destruct (ValidateGateConfiguration _ _ _) as [[]|]; cbn [mbind result_bind] in Hv; [|done]. case_guards Hv. split_bools.
  destruct (ValidateDeploymentRecord _ _) as [[]|] eqn:Ed; [|done].
  split; [done|]. split.
  { intros Hr Hn. rewrite Hr, Hn in *. naive_solver. }
  split; [|by split_and!].
  destruct (decide (host_Type (plan_Host r) = "local")) as [->|E1]; [by left|].
  destruct (decide (host_Type (plan_Host r) = "s3")) as [->|E2]; [by right; left|].
  destruct (decide (host_Type (plan_Host r) = "github-pages")) as [->|E3]; [by right; right; left|].
  rewrite !bool_decide_eq_false_2 in * by done. done.
Qed.

(** An rsync host serves every format and its repositories can be configured,
    but no plan with such a repository is ever accepted: the check of a plan does
    not list the host type, so nothing can be approved or applied there. *)
Theorem rsync_plans_refused :
  (∀ f, Publish (Supports "rsync" (Name f)) = true) ∧
  ∀ plan r, r ∈ pay_Repositories plan → host_Type (plan_Host r) = "rsync" → is_ok (validateApplyPlan plan) = false.
Proof.
  split; [by intros []|]. intros plan r Hin Ht. destruct (validateApplyPlan plan) as [[]|] eqn:E; [|done].
  apply (validateApplyPlan_repositories _ r) in E; [|done]. apply accepted_repository in E as (_ & _ & Hh & _).
  rewrite Ht in Hh. by apply (bool_decide_unpack _) in Hh || (exfalso; clear -Hh; set_solver).
Qed.

(** ** Signatures before and after a rebuild *)

(** Every signature a format makes is one it declares. *)
Lemma shape_declared f view published shape :
  ShapeOf f view published = Ok shape →
  Forall (λ out, knownSigningNode (out_Scheme out) (shape_PayloadID shape) = true) (shape_Outputs shape).
Proof.
  destruct f; cbn [ShapeOf]; intros E; try discriminate E.
  - injection E as <-. repeat constructor.
  - injection E as <-. cbn [helmSigningShape shape_Outputs shape_PayloadID]. apply Forall_fmap, Forall_true. intros chart.
    cbn [compose out_Scheme]. by vm_compute.
  - injection E as <-. repeat constructor.
  - unfold apkSigningShape in E. assert (Forall (λ out, knownSigningNode (out_Scheme out) "apk-index" = true)
      ((λ architecture, mkSigningOutput ("apk-index-" +:+ architecture) SchemeAPKRSA256
          (PathJoin [architecture; "APKINDEX.tar.gz"])) <$> view_Architectures view)) as Hall.
    { apply Forall_fmap, Forall_true. intros architecture. cbn [compose out_Scheme]. by vm_compute. }
    destruct (_ <$> view_Architectures view) as [|o os]; [done|]. by injection E as <-.
Qed.

Lemma validateNodes_valid payloadID outputs : ∀ nodes,
  Forall (λ out, knownSigningNode (out_Scheme out) payloadID = true) outputs → length nodes = length outputs →
  validateNodes payloadID nodes outputs = Ok () → forallb validNode nodes = true.
Proof.
  induction outputs as [|want outputs IH]; intros [|node nodes] Hall Hlen; try done. cbn [validateNodes forallb].
  apply Forall_cons in Hall as [Hk Hall]. intros Hv. case_guards Hv. split_bools. rewrite (IH nodes) by (done || by injection Hlen).
  rewrite andb_true_r. unfold validNode.
  repeat match goal with E : _ = _ |- _ => progress rewrite E end. cbn [negb].
  rewrite bool_decide_eq_true_2 by done. cbn [andb negb]. rewrite !andb_true_r.
  match goal with E : unsafePath _ = false |- _ => rename E into Hu end. apply negb_true_iff, bool_decide_eq_false.
  intros Hp. match goal with E : node_OutputPath node = _ |- _ => rewrite E, Hp in Hu end. by vm_compute in Hu.
Qed.

(** The check of a plan's signatures made before anything is rebuilt never
    refuses what the check against the repository's own shape accepts, whatever the
    format signs. *)
Theorem recipe_check_before_rebuild f view published shape signing :
  ShapeOf f view published = Ok shape → validateSigningRecipeMetadata signing (Some shape) = Ok () →
  validateSigningRecipeMetadata signing None = Ok ().
Proof.
  intros Hs%shape_declared. unfold validateSigningRecipeMetadata. cbn zeta.
  destruct (_ || _); [done|]. destruct (_ || _ || _); [done|].
  destruct (validTrustedKeys _ _ _ _) as [found|]; cbn [mbind result_bind]; [|done]. destruct (negb found); [done|].
  unfold validateRecipeNodes. destruct (Nat.eqb_spec (length (sig_Nodes signing)) (length (shape_Outputs shape))); cbn [negb]; [|done].
  intros Hv. by rewrite (validateNodes_valid _ _ _ Hs e Hv).
Qed.

End effects.

Module PlanChecks.
#[local] Instance net_lib : NetLib := {|
  ParseURL s := if bool_decide (s = Rendered exampleURL) then Some exampleURL else None;
  ParseAddr _ := None;
|}.
#[local] Instance hash_lib : HashLib := {| SHA256Hex _ := digestA |}.
#[local] Instance recipe_lib : RecipeLib := {| MarshalRecipe s := sig_KeyName s |}.

Definition adopted : LockedBlob :=
  mkBlob "tool_1.0_amd64.deb" "amd64" 10 "" "" digestA "" (Some (mkOrigin "https" (Rendered exampleURL) "")).
Definition lock : RepositoryLock :=
  mkLock LockSchema "apt" [mkPackageVersion "tool" "1.0" "draft" [adopted; blobB]; mkPackageVersion "tool" "1.1" "draft" [blobC]]
    [placeA; placeC].
Definition repository : Repository :=
  mkRepository "deb" "repos/apt.lock.toml" (mkHost "local" "public/apt" "" "" "" "" "" "" false "" "" "" "" "" "" "") "public" "auto" []
    ["a"] "keys/apt.gpg" None 0 "stable" "bookworm" "main" ["amd64"].

Lemma plan_effects_accepted_witness :
  validBindings "" (publicationBindingsForVersions (visiblePackageVersions lock repository)) = true ∧
  validAcquisitions "" (planAcquisitionsForVersions (visiblePackageVersions lock repository)) = true.
Proof.
  apply (plan_effects_accepted debFormat "apt"); [example_wf|vm_compute; reflexivity|].
  repeat constructor; try decide_true; vm_compute; reflexivity.
Defined.

(** Two names for one file: a lock the validator accepts. *)
Definition twice : PackageVersion :=
  mkPackageVersion "tool" "1.0" "draft" [mkBlob "a.txt" "" 1 "" "" digestA "" None; mkBlob "b.txt" "" 1 "" "" digestA "" None].

Lemma identical_artifacts_refused_witness :
  ValidateLock (mkLock LockSchema "files" [twice] []) "files" "raw" = Ok () ∧
  validBindings "" (publicationBindingsForVersions [twice]) = false.
Proof.
  split; [vm_compute; reflexivity|]. apply (identical_artifacts_refused [twice] twice); [by left|].
  intros Hd. apply (bool_decide_eq_true_2 (NoDup _)) in Hd. vm_compute in Hd. discriminate Hd.
Defined.

Definition fingerprint : string := "0123456789abcdef0123456789abcdef01234567".
Definition node (id scheme path : string) : SigningNode := mkSigningNode id "sign" ["deb-release"] scheme digestA path digestA "x".
Definition signing : PlanSigning :=
  mkPlanSigning "a" "openpgp-rsa4096" fingerprint "keys/a.gpg" digestA "keys/a.asc" digestA "2026-01-01T00:00:00Z" digestA
    "keys/apt.gpg" digestA [mkPlanPublicKey "a" fingerprint "keys/a.gpg" digestA] "" 0
    [node "deb-inrelease" SchemeOpenPGPCleartext "dists/bookworm/InRelease";
     node "deb-release-gpg" SchemeOpenPGPDetached "dists/bookworm/Release.gpg"].

Lemma recipe_check_before_rebuild_witness : validateSigningRecipeMetadata signing None = Ok ().
Proof.
  apply (recipe_check_before_rebuild debFormat (signingRepositoryView repository) [] (debSigningShape (signingRepositoryView repository)));
    vm_compute; reflexivity.
Defined.

End PlanChecks.
