(* ===== verification/Prepare.v ===== *)
(** What a plan says of one repository ([planRepository]) and how an apply holds the
    plan to the workspace and the host again ([prepareRepository]), both of
    [engine/workspace.go].

    What the two functions read of the workspace and the host, and what a build of
    the repository gives, is the record [Reads]: an error, or the value.  Rendering,
    signing and the clients that verify a stage are behind [rd_Build] and
    [rd_verifyStaged].  The build takes the time the tree is stamped with, the time
    it is signed at and the signatures already planned, if any. *)

From S2P Require Import Prelude GoStrings GoSlices Model Formats Source Lock JsonStrict Ledger Forge PlanJson Gate Manifest.
From S2P Require Import Host Deployment Signing Plan Rotation.

Open Scope Z_scope.

Record BuildResult := mkBuildResult { build_TreeSHA256 : string; build_ManifestSHA256 : string; build_Signing : list PlanSigning }.

Record Reads := mkReads {
  rd_Lock : result RepositoryLock;
  rd_LockDigest : result string;
  rd_Ledger : result (list PublicationRecord);
  rd_Deployment : result DeploymentRecord;
  rd_CommittedAt : result Z;
  rd_HostIdentity : result string;
  rd_CanonicalEndpoint : string;
  rd_InstallDoc : result string;
  rd_Capabilities : result Capabilities;
  rd_Observed : result PublishedRevision;
  rd_Build : Z → Z → list PlanSigning → result BuildResult;
  rd_verifyStaged : result ();
}.

(** ** A plan's observation of the host *)

Definition publishedFromPlanObservation (planned : PlanRepository) : PublishedRevision :=
  mkRevision (plan_ObservedRevision planned) (plan_ObservedTreeSHA256 planned) (plan_ObservedPlanID planned)
    (plan_ObservedChangeID planned) (plan_ObservedRestoreID planned) (plan_ObservedReleaseSHA256 planned)
    (plan_ObservedManifestSHA256 planned) (plan_ObservedRestoreSHA256 planned) (plan_ObservedRestoreRootSHA256 planned).

Definition revisionMatchesPlanObservation (revision : PublishedRevision) (planned : PlanRepository) : bool :=
  bool_decide (rev_NativeRevision revision = plan_ObservedRevision planned) &&
  bool_decide (rev_TreeSHA256 revision = plan_ObservedTreeSHA256 planned) &&
  bool_decide (rev_PlanID revision = plan_ObservedPlanID planned) && bool_decide (rev_ChangeID revision = plan_ObservedChangeID planned) &&
  bool_decide (rev_ReleaseSHA256 revision = plan_ObservedReleaseSHA256 planned) &&
  bool_decide (rev_ManifestSHA256 revision = plan_ObservedManifestSHA256 planned) &&
  bool_decide (rev_RestoreID revision = plan_ObservedRestoreID planned) &&
  bool_decide (rev_RestoreSHA256 revision = plan_ObservedRestoreSHA256 planned) &&
  bool_decide (rev_RestoreRootSHA256 revision = plan_ObservedRestoreRootSHA256 planned).

Definition expectedRevisionFromPlan (planned : PlanRepository) : ExpectedRevision :=
  mkExpected (plan_ObservedRevision planned) (plan_ObservedTreeSHA256 planned) (plan_ObservedPlanID planned)
    (plan_ObservedChangeID planned) (plan_ObservedReleaseSHA256 planned) (plan_ObservedManifestSHA256 planned)
    (plan_ObservedRestoreID planned) (plan_ObservedRestoreSHA256 planned) (plan_ObservedRestoreRootSHA256 planned).

Definition expectedRevisionFromPublished (revision : PublishedRevision) : ExpectedRevision :=
  mkExpected (rev_NativeRevision revision) (rev_TreeSHA256 revision) (rev_PlanID revision) (rev_ChangeID revision)
    (rev_ReleaseSHA256 revision) (rev_ManifestSHA256 revision) (rev_RestoreID revision) (rev_RestoreSHA256 revision)
    (rev_RestoreRootSHA256 revision).

Definition managedRemote (repository : Repository) : bool :=
  bool_decide (host_Type (repo_Host repository) = "s3") || bool_decide (host_Type (repo_Host repository) = "github-pages").

(** The action a plan states, from what the host serves and what is recorded. *)
Definition actionFor (needed : bool) (observedRevision : string) : string :=
  if needed then if bool_decide (observedRevision = "") then "create" else "update" else "noop".

Section prepare.
Context `{DeploymentLib, !LedgerLib, NetLib, HashLib, RecipeLib}.

(** [time.Time{}] where neither the repository nor its receipt is rotating. *)
Definition trustNotBeforeOf (repository : Repository) (deployment : DeploymentRecord) (committedAt : result Z) : result Z :=
  if negb (bool_decide (repo_SigningRotation repository = None)) || negb (bool_decide (dep_SigningRotationPhase deployment = ""))
  then AuthoritativeDeploymentTrustSince deployment committedAt
  else Ok zeroTime.

Definition activeKeyOf (repository : Repository) : string :=
  match repositorySigningState repository with Ok (active, _, _, _) => active | Err _ => "" end.

(** ** Planning *)

Definition planRepository (reads : Reads) (keys : gmap string SigningKey) (repository : Repository) (name : string)
    (createdAt generatedAt expiresIn : Z) : result PlanRepository :=
  lock ← rd_Lock reads;
  _ ← ValidateLock lock name (repo_Format repository);
  ledger ← rd_Ledger reads;
  _ ← ValidatePublishedBindings lock ledger;
  _ ← validateRotationKeyValidity repository keys createdAt;
  deployment ← rd_Deployment reads;
  lockDigest ← rd_LockDigest reads;
  desired ← rd_Build reads generatedAt createdAt [];
  refuse "plan expires after its signing key"
    when negb (length (build_Signing desired) =? 0)%nat &&
         (negb (is_ok (repositorySigningState repository)) ||
          match expiryOf keys (activeKeyOf repository) with
          | Some keyExpiresAt => keyExpiresAt <? createdAt + expiresIn
          | None => true
          end);
  hostIdentity ← rd_HostIdentity reads;
  capabilities ← rd_Capabilities reads;
  refuse "host cannot provide verified conditional publication"
    when negb (FaithfulPreview capabilities) || negb (ConditionalCommit capabilities) ||
         (bool_decide (repo_Visibility repository = "private") && negb (PrivateRead capabilities));
  observed ← rd_Observed reads;
  trustNotBefore ← trustNotBeforeOf repository deployment (rd_CommittedAt reads);
  _ ← validateRepositorySigningTransition repository keys deployment observed createdAt trustNotBefore;
  desiredSigningState ← repositoryDeploymentSigningState repository keys;
  let acquisitions := planAcquisitionsForVersions (visiblePackageVersions lock repository) in
  let publicationBindings :=
    if publicationBindingsComplete lock repository ledger then []
    else publicationBindingsForVersions (visiblePackageVersions lock repository) in
  let publicationRecords := negb (length publicationBindings =? 0)%nat in
  let needed :=
    negb (bool_decide (rev_TreeSHA256 observed = build_TreeSHA256 desired)) ||
    (managedRemote repository && negb (bool_decide (rev_ManifestSHA256 observed = build_ManifestSHA256 desired))) ||
    publicationRecords ||
    negb (deploymentMatchesDesired deployment observed (build_TreeSHA256 desired) (build_ManifestSHA256 desired) desiredSigningState) in
  installDocDigest ← rd_InstallDoc reads;
  Ok (mkPlanRepository name (repo_Gate repository) (repo_ApprovalKeys repository) (repo_Format repository) lockDigest
        (repo_Host repository) (repo_Visibility repository) hostIdentity (rd_CanonicalEndpoint reads) installDocDigest
        (rev_NativeRevision observed) (rev_PlanID observed) (rev_ChangeID observed) (rev_ReleaseSHA256 observed)
        (rev_ManifestSHA256 observed) (rev_RestoreID observed) (rev_RestoreSHA256 observed) (rev_RestoreRootSHA256 observed)
        deployment (FaithfulPreview capabilities) (ConditionalCommit capabilities) (ConditionalRestore capabilities)
        (PrivateRead capabilities) (CredentialBrokerIdentity capabilities) (build_Signing desired) publicationRecords
        publicationBindings acquisitions (rev_TreeSHA256 observed) (build_TreeSHA256 desired) (build_ManifestSHA256 desired)
        (changeIDOf name (build_TreeSHA256 desired)) (actionFor needed (rev_NativeRevision observed))).

(** ** Preparing *)

(** What an apply carries of a prepared repository; [item_staged] says whether a
    stage was built for it. *)
Record applyRepository := mkApplyRepository {
  item_planned : PlanRepository; item_repository : Repository; item_lock : RepositoryLock; item_observed : PublishedRevision;
  item_current : bool; item_deployment : DeploymentRecord; item_signingState : deploymentSigningState; item_staged : bool;
}.

(** What an apply knows before it prepares a repository. *)
Record Preparation := mkPreparation {
  prep_PlanID : string; prep_Keys : gmap string SigningKey; prep_Repositories : gmap string Repository;
  prep_now : Z; prep_expiresAt : Z; prep_generatedAt : Z; prep_signatureTime : Z;
  prep_ledgerCommitted : bool; prep_StructuralOnly : bool;
  (** Whether the manifest, and the plan, write the approval keys of a repository as an
      empty array: the slice is then empty and not nil, as it is where they are left out. *)
  prep_manifestArray : string → bool; prep_planArray : string → bool;
}.

(** [reflect.DeepEqual] of two slices of strings, each with whether it is not nil where
    it is empty. *)
Definition deepEqualSlices (a b : list string) (allocatedA allocatedB : bool) : bool :=
  bool_decide (a = b) && (negb (bool_decide (a = [])) || Bool.eqb allocatedA allocatedB).

(** The loop over the planned signatures: there is at most one. *)
Definition checkPlannedSigning (p : Preparation) (repository : Repository) (lock : RepositoryLock) (activeSigningKey : string)
    (signing : PlanSigning) : result () :=
  refuse "stale plan: signing key changed" when negb (bool_decide (sig_KeyName signing = activeSigningKey));
  match prep_Keys p !! sig_KeyName signing with
  | None => Err "stale plan: signing key is missing"
  | Some key =>
      refuse "plan expires after its signing key"
        when match ParseRFC3339 (key_ExpiresAt key) with
             | Some keyExpiresAt => keyExpiresAt <? prep_expiresAt p
             | None => true
             end;
      let published :=
        match SignerFor (repo_Format repository) with
        | Ok signer => PublishedPaths signer
            (visiblePackageVersions lock repository ≫= λ v, (λ b, mkPublishedArtifact (Filename b) (SHA256 b)) <$> pv_Blobs v)
        | Err _ => []
        end in
      shape ← signingShapeFor repository published;
      validateSigningRecipeMetadata signing (Some shape)
  end.

Fixpoint checkAllSigning (p : Preparation) (repository : Repository) (lock : RepositoryLock) (activeSigningKey : string)
    (signings : list PlanSigning) : result () :=
  match signings with
  | [] => Ok ()
  | signing :: rest => _ ← checkPlannedSigning p repository lock activeSigningKey signing; checkAllSigning p repository lock activeSigningKey rest
  end.

(** Whether the host serves what this plan published. *)
Definition matchesApplied (p : Preparation) (repository : Repository) (planned : PlanRepository) (observed : PublishedRevision) : bool :=
  negb (bool_decide (plan_Action planned = "noop")) && bool_decide (rev_TreeSHA256 observed = plan_DesiredTreeSHA256 planned) &&
  (negb (managedRemote repository) ||
   (bool_decide (rev_PlanID observed = prep_PlanID p) && bool_decide (rev_ChangeID observed = plan_ChangeID planned) &&
    bool_decide (rev_ManifestSHA256 observed = plan_DesiredManifestSHA256 planned))).

(** Whether the receipt is the one this plan records. *)
Definition deploymentApplied (p : Preparation) (planned : PlanRepository) (observed : PublishedRevision)
    (deployment : DeploymentRecord) (signing : deploymentSigningState) : bool :=
  bool_decide (dep_PlanID deployment = prep_PlanID p) && bool_decide (dep_ChangeID deployment = plan_ChangeID planned) &&
  bool_decide (dep_TreeSHA256 deployment = plan_DesiredTreeSHA256 planned) &&
  bool_decide (dep_ManifestSHA256 deployment = plan_DesiredManifestSHA256 planned) &&
  bool_decide (dep_NativeRevision deployment = rev_NativeRevision observed) && deploymentSigningMatches deployment signing.

(** The checks of a plan against the configuration and the lock. *)
Definition checkConfiguration (p : Preparation) (reads : Reads) (repository : Repository) (planned : PlanRepository)
    : result (RepositoryLock * list PublicationRecord) :=
  refuse "stale plan: repository configuration changed"
    when negb (bool_decide (repo_Format repository = plan_Format planned)) ||
         negb (bool_decide (repo_Gate repository = plan_Gate planned)) ||
         negb (deepEqualSlices (repo_ApprovalKeys repository) (plan_ApprovalKeys planned)
                 (prep_manifestArray p (plan_Name planned)) (prep_planArray p (plan_Name planned))) ||
         (1 <? length (plan_Signing planned))%nat ||
         negb (Bool.eqb (length (plan_Signing planned) =? 0)%nat (length (repo_SigningKeys repository) =? 0)%nat);
  refuse "stale plan: lock changed" when negb (bool_decide (rd_LockDigest reads = Ok (plan_LockSHA256 planned)));
  lock ← rd_Lock reads;
  _ ← ValidateLock lock (plan_Name planned) (repo_Format repository);
  '(activeSigningKey, _, _, _) ← repositorySigningState repository;
  _ ← checkAllSigning p repository lock activeSigningKey (plan_Signing planned);
  refuse "stale plan: host changed"
    when negb (bool_decide (rd_HostIdentity reads = Ok (plan_HostIdentitySHA256 planned))) ||
         negb (bool_decide (repo_Host repository = plan_Host planned)) ||
         negb (bool_decide (repo_Visibility repository = plan_Visibility planned));
  refuse "stale plan: canonical endpoint changed"
    when negb (bool_decide (rd_CanonicalEndpoint reads = plan_CanonicalEndpoint planned));
  refuse "stale plan: install document changed"
    when negb (bool_decide (rd_InstallDoc reads = Ok (plan_InstallDocSHA256 planned)));
  capabilities ← rd_Capabilities reads;
  refuse "stale plan: host capabilities changed"
    when negb (Bool.eqb (FaithfulPreview capabilities) (plan_FaithfulPreview planned)) ||
         negb (Bool.eqb (ConditionalCommit capabilities) (plan_ConditionalCommit planned)) ||
         negb (Bool.eqb (ConditionalRestore capabilities) (plan_ConditionalRestore planned)) ||
         negb (Bool.eqb (PrivateRead capabilities) (plan_PrivateRead planned)) ||
         negb (bool_decide (CredentialBrokerIdentity capabilities = plan_CredentialBrokerIdentity planned));
  ledger ← rd_Ledger reads;
  _ ← ValidatePublicationHistory (plan_Name planned) ledger;
  _ ← ValidatePublishedBindings lock ledger;
  Ok (lock, ledger).

(** The checks of a plan's recorded effects. *)
Definition checkEffects (p : Preparation) (repository : Repository) (planned : PlanRepository) (lock : RepositoryLock)
    (ledger : list PublicationRecord) : result () :=
  let visible := visiblePackageVersions lock repository in
  let missing := negb (publicationBindingsComplete lock repository ledger) in
  let expectedBindings := if plan_PublicationRecords planned then publicationBindingsForVersions visible else [] in
  refuse "plan repository has inconsistent adopted acquisitions"
    when negb (bool_decide (plan_Acquisitions planned = planAcquisitionsForVersions visible));
  refuse "plan repository has inconsistent publication-record effects"
    when negb (Bool.eqb (plan_PublicationRecords planned) (negb (length (plan_PublicationBindings planned) =? 0)%nat)) ||
         negb (bool_decide (plan_PublicationBindings planned = expectedBindings)) ||
         (negb (prep_ledgerCommitted p) && negb (Bool.eqb (plan_PublicationRecords planned) missing)) ||
         (prep_ledgerCommitted p && negb (plan_PublicationRecords planned) && missing);
  Ok ().

Definition expectedAction (repository : Repository) (planned : PlanRepository) (complete : bool) (signing : deploymentSigningState)
    : string :=
  actionFor
    (negb (bool_decide (plan_ObservedTreeSHA256 planned = plan_DesiredTreeSHA256 planned)) ||
     (managedRemote repository && negb (bool_decide (plan_ObservedManifestSHA256 planned = plan_DesiredManifestSHA256 planned))) ||
     negb complete ||
     negb (deploymentMatchesDesired (plan_ObservedDeployment planned) (publishedFromPlanObservation planned)
             (plan_DesiredTreeSHA256 planned) (plan_DesiredManifestSHA256 planned) signing))
    (plan_ObservedRevision planned).

(** Rebuilding the stage and holding it to the plan. *)
Definition buildStage (p : Preparation) (reads : Reads) (planned : PlanRepository) : result () :=
  staged ← rd_Build reads (prep_generatedAt p) (prep_signatureTime p) (plan_Signing planned);
  refuse "stale plan: rebuilt tree digest changed"
    when negb (bool_decide (build_TreeSHA256 staged = plan_DesiredTreeSHA256 planned)) ||
         negb (bool_decide (build_ManifestSHA256 staged = plan_DesiredManifestSHA256 planned));
  refuse "stale plan: signing recipe changed" when negb (bool_decide (build_Signing staged = plan_Signing planned));
  rd_verifyStaged reads.

(** The decision an apply makes for a repository: whether it is current, or may be
    published, or the plan is stale. *)
Definition decideRepository (p : Preparation) (repository : Repository) (planned : PlanRepository) (complete : bool)
    (deployment : DeploymentRecord) (observed : PublishedRevision) (signing : deploymentSigningState) : result bool :=
  let matchesObserved := revisionMatchesPlanObservation observed planned in
  let applied := matchesApplied p repository planned observed in
  let receipted := deploymentApplied p planned observed deployment signing in
  let current := deploymentMatchesDesired deployment observed (plan_DesiredTreeSHA256 planned) (plan_DesiredManifestSHA256 planned) signing in
  let unchanged := bool_decide (deployment = plan_ObservedDeployment planned) in
  refuse "stale plan: deployment receipt changed" when negb unchanged && negb receipted;
  refuse "stale plan: native revision or target changed" when negb matchesObserved && negb applied;
  refuse "plan repository has inconsistent action metadata"
    when negb (bool_decide (plan_Action planned = expectedAction repository planned complete signing)) ||
         negb (bool_decide (plan_ChangeID planned = changeIDOf (plan_Name planned) (plan_DesiredTreeSHA256 planned)));
  Ok (bool_decide (rev_TreeSHA256 observed = plan_DesiredTreeSHA256 planned) &&
      (negb (managedRemote repository) || bool_decide (rev_ManifestSHA256 observed = plan_DesiredManifestSHA256 planned)) &&
      (receipted || (bool_decide (plan_Action planned = "noop") && current) || (applied && unchanged))).

Definition prepareRepository (p : Preparation) (reads : Reads) (planned : PlanRepository) : result applyRepository :=
  match prep_Repositories p !! plan_Name planned with
  | None => Err "stale plan: repository configuration changed"
  | Some repository =>
      '(lock, ledger) ← checkConfiguration p reads repository planned;
      _ ← checkEffects p repository planned lock ledger;
      deployment ← rd_Deployment reads;
      signing ← repositoryDeploymentSigningState repository (prep_Keys p);
      observed ← rd_Observed reads;
      trustNotBefore ← trustNotBeforeOf repository deployment (rd_CommittedAt reads);
      _ ← validateRepositorySigningTransition repository (prep_Keys p) deployment (publishedFromPlanObservation planned)
            (prep_now p) trustNotBefore;
      current ← decideRepository p repository planned (publicationBindingsComplete lock repository ledger) deployment observed signing;
      let noop := bool_decide (plan_Action planned = "noop") in
      let item := mkApplyRepository planned repository lock observed current deployment signing in
      if current && (prep_StructuralOnly p || noop) && negb (negb noop && negb (length (plan_Signing planned) =? 0)%nat)
      then Ok (item false)
      else _ ← buildStage p reads planned; Ok (item true)
  end.

End prepare.
