(* ===== verification/PrepareProofs.v ===== *)
(** A plan and its apply agree: an apply publishes only over the revision the plan
    was made against, a plan applies in the workspace it was made in, and applying
    it again finds its own work. *)

From S2P Require Import Prelude GoStrings GoSlices Model Formats Source Lock JsonStrict Ledger Forge PlanJson Gate Manifest.
From S2P Require Import LockHistory Host Deployment Signing Plan Rotation PlanProofs Prepare.

Open Scope Z_scope.

(** ** Observations *)

Lemma observation_exact observed planned :
  revisionMatchesPlanObservation observed planned = true ↔ observed = publishedFromPlanObservation planned.
Proof.
  unfold revisionMatchesPlanObservation, publishedFromPlanObservation. destruct observed; cbn. rewrite !andb_true_iff, !bool_decide_eq_true.
  split; [by intros ((((((((-> & ->) & ->) & ->) & ->) & ->) & ->) & ->) & ->)|by intros [= -> -> -> -> -> -> -> -> ->]].
Qed.

Lemma expected_of_observed planned :
  expectedRevisionFromPlan planned = expectedRevisionFromPublished (publishedFromPlanObservation planned).
Proof. done. Qed.

Section proofs.
Context `{DeploymentLib, !LedgerLib, NetLib, HashLib, RecipeLib}.

(** ** Deciding *)

Lemma actionFor_noop needed revision : actionFor needed revision = "noop" ↔ needed = false.
Proof. unfold actionFor. destruct needed; [|done]. by case_bool_decide. Qed.

(** The tree and the manifest the plan wants are what the host serves. *)
Definition servesDesired (repository : Repository) (planned : PlanRepository) (observed : PublishedRevision) : bool :=
  bool_decide (rev_TreeSHA256 observed = plan_DesiredTreeSHA256 planned) &&
  (negb (managedRemote repository) || bool_decide (rev_ManifestSHA256 observed = plan_DesiredManifestSHA256 planned)).

Lemma applied_serves p repository planned observed :
  matchesApplied p repository planned observed = true → servesDesired repository planned observed = true.
Proof.
  unfold matchesApplied, servesDesired. intros [[_ Ht]%andb_true_iff Hm]%andb_true_iff. rewrite Ht.
  destruct (managedRemote repository); [|done]. cbn [negb orb andb] in *. by apply andb_true_iff in Hm as [_ Hm].
Qed.

(** A plan without an action found its tree served and its receipt in place. *)
Lemma noop_serves repository planned complete signing :
  expectedAction repository planned complete signing = "noop" →
  servesDesired repository planned (publishedFromPlanObservation planned) = true ∧ complete = true ∧
  deploymentMatchesDesired (plan_ObservedDeployment planned) (publishedFromPlanObservation planned)
    (plan_DesiredTreeSHA256 planned) (plan_DesiredManifestSHA256 planned) signing = true.
Proof.
  unfold expectedAction, servesDesired. rewrite actionFor_noop, !orb_false_iff, !negb_false_iff. cbn [rev_TreeSHA256 rev_ManifestSHA256 publishedFromPlanObservation].
  intros (((-> & Hm) & ->) & ->). split; [|done]. destruct (managedRemote repository); [|done]. cbn [andb negb orb] in *. by apply negb_false_iff in Hm.
Qed.

(** The decision, with its guards read as facts. *)
Lemma decideRepository_spec p repository planned complete deployment observed signing current :
  decideRepository p repository planned complete deployment observed signing = Ok current →
  let receipted := deploymentApplied p planned observed deployment signing in
  let applied := matchesApplied p repository planned observed in
  (deployment = plan_ObservedDeployment planned ∨ receipted = true) ∧
  (observed = publishedFromPlanObservation planned ∨ applied = true) ∧
  plan_Action planned = expectedAction repository planned complete signing ∧
  plan_ChangeID planned = changeIDOf (plan_Name planned) (plan_DesiredTreeSHA256 planned) ∧
  current = servesDesired repository planned observed &&
    (receipted || (bool_decide (plan_Action planned = "noop") &&
                   deploymentMatchesDesired deployment observed (plan_DesiredTreeSHA256 planned) (plan_DesiredManifestSHA256 planned) signing) ||
     (applied && bool_decide (deployment = plan_ObservedDeployment planned))).
Proof.
  unfold decideRepository. cbn zeta. intros Hd.
  destruct (negb _ && negb _) eqn:E1 in Hd; [done|]. destruct (negb _ && negb _) eqn:E2 in Hd; [done|].
  destruct (_ || _) eqn:E3 in Hd; [done|]. injection Hd as <-.
  apply andb_false_iff in E1, E2. rewrite !negb_false_iff in *. apply orb_false_iff in E3 as [E3 E4].
  apply negb_false_iff, bool_decide_eq_true in E3, E4. rewrite bool_decide_eq_true in E1. rewrite observation_exact in E2. by split_and!.
Qed.

(** An undisturbed repository is decided. *)
Lemma decideRepository_ok p repository planned complete signing :
  plan_Action planned = expectedAction repository planned complete signing →
  plan_ChangeID planned = changeIDOf (plan_Name planned) (plan_DesiredTreeSHA256 planned) →
  is_ok (decideRepository p repository planned complete (plan_ObservedDeployment planned) (publishedFromPlanObservation planned) signing) = true.
Proof.
  intros Ha Hc. unfold decideRepository. cbn zeta. rewrite (proj2 (observation_exact _ planned) eq_refl).
  by rewrite (bool_decide_eq_true_2 _ Ha), (bool_decide_eq_true_2 _ Hc), (bool_decide_eq_true_2 (_ = _) eq_refl).
Qed.

(** What it takes for a repository to be published. *)
Lemma decide_publishes p repository planned complete deployment observed signing :
  decideRepository p repository planned complete deployment observed signing = Ok false →
  observed = publishedFromPlanObservation planned ∧ plan_Action planned ≠ "noop" ∧
  plan_ChangeID planned = changeIDOf (plan_Name planned) (plan_DesiredTreeSHA256 planned).
Proof.
  intros (Hdep & Hobs & Hact & Hchange & Hcur)%decideRepository_spec. cbn zeta in *. symmetry in Hcur. apply andb_false_iff in Hcur.
  assert (observed = publishedFromPlanObservation planned) as Ho.
  { destruct Hobs as [?|Happ]; [done|]. exfalso. rewrite Happ, (applied_serves _ _ _ _ Happ) in Hcur.
    destruct Hcur as [?|Hcur]; [done|]. destruct Hdep as [->|Hr]; [|by rewrite Hr in Hcur].
    rewrite (bool_decide_eq_true_2 (plan_ObservedDeployment planned = _)) in Hcur by done. cbn [andb] in Hcur. by rewrite orb_true_r in Hcur. }
  split; [done|]. split; [|done]. intros Hn. rewrite Hn in Hact. symmetry in Hact. apply noop_serves in Hact as (Hserve & _ & Hmatch).
  rewrite <- Ho in Hserve, Hmatch. rewrite Hserve, Hn, bool_decide_eq_true_2 in Hcur by done.
  destruct Hcur as [?|Hcur]; [done|]. destruct Hdep as [Hdep|Hr]; [|by rewrite Hr in Hcur].
  rewrite Hdep, Hmatch in Hcur. cbn [andb] in Hcur. by rewrite orb_true_r in Hcur.
Qed.

(** ** Preparing *)

Lemma bind_ok {A B} (m : result A) (f : A → result B) b : m ≫= f = Ok b → ∃ a, m = Ok a ∧ f a = Ok b.
Proof. destruct m; [|done]. intros E. by exists a. Qed.

(** The steps of a preparation that went through. *)
Lemma prepareRepository_inv p reads planned item :
  prepareRepository p reads planned = Ok item →
  ∃ repository lock ledger deployment observed signing trustNotBefore,
    prep_Repositories p !! plan_Name planned = Some repository ∧
    checkConfiguration p reads repository planned = Ok (lock, ledger) ∧ checkEffects p repository planned lock ledger = Ok () ∧
    rd_Deployment reads = Ok deployment ∧ rd_Observed reads = Ok observed ∧
    repositoryDeploymentSigningState repository (prep_Keys p) = Ok signing ∧
    trustNotBeforeOf repository deployment (rd_CommittedAt reads) = Ok trustNotBefore ∧
    validateRepositorySigningTransition repository (prep_Keys p) deployment (publishedFromPlanObservation planned) (prep_now p) trustNotBefore = Ok () ∧
    decideRepository p repository planned (publicationBindingsComplete lock repository ledger) deployment observed signing = Ok (item_current item) ∧
    item = mkApplyRepository planned repository lock observed (item_current item) deployment signing (item_staged item) ∧
    (if item_staged item then buildStage p reads planned = Ok () else item_current item = true).
Proof.
  unfold prepareRepository. destruct (prep_Repositories p !! _) as [repository|] eqn:Er; [|done].
  intros ([lock ledger] & Ec & E)%bind_ok. apply bind_ok in E as ([] & Ee & E). apply bind_ok in E as (deployment & Ed & E).
  apply bind_ok in E as (signing & Es & E). apply bind_ok in E as (observed & Eo & E). apply bind_ok in E as (trust & Et & E).
  apply bind_ok in E as ([] & Ev & E). apply bind_ok in E as (current & Edec & E). cbn zeta in E.
  exists repository, lock, ledger, deployment, observed, signing, trust.
  destruct (_ && _ && _) eqn:Eb.
  - injection E as <-. cbn. apply andb_true_iff in Eb as [[-> _]%andb_true_iff _]. by split_and!.
  - apply bind_ok in E as ([] & Eb' & E). injection E as <-. cbn. by split_and!.
Qed.

(** What a stage that was built is. *)
Lemma buildStage_inv p reads planned :
  buildStage p reads planned = Ok () →
  rd_Build reads (prep_generatedAt p) (prep_signatureTime p) (plan_Signing planned) =
    Ok (mkBuildResult (plan_DesiredTreeSHA256 planned) (plan_DesiredManifestSHA256 planned) (plan_Signing planned)) ∧
  rd_verifyStaged reads = Ok ().
Proof.
  unfold buildStage. intros ([tree manifest signing] & Eb & E)%bind_ok. cbn in E. case_guards E. split_bools. by subst.
Qed.

(** C12: An apply publishes a repository only if the host serves exactly the revision
    the plan was made against, in every field that identifies it, so the revision
    its commit is conditional on is the one that was observed; and only a tree that
    was rebuilt to the planned digests and passed verification. *)
Theorem publishes_over_planned_revision p reads planned item :
  prepareRepository p reads planned = Ok item → item_current item = false →
  rd_Observed reads = Ok (item_observed item) ∧
  expectedRevisionFromPlan planned = expectedRevisionFromPublished (item_observed item) ∧
  plan_Action planned ≠ "noop" ∧
  rd_Build reads (prep_generatedAt p) (prep_signatureTime p) (plan_Signing planned) =
    Ok (mkBuildResult (plan_DesiredTreeSHA256 planned) (plan_DesiredManifestSHA256 planned) (plan_Signing planned)) ∧
  rd_verifyStaged reads = Ok ().
Proof.
  intros Hp Hc. apply prepareRepository_inv in Hp as (repository & lock & ledger & deployment & observed & signing & trust &
    _ & _ & _ & _ & Ho & _ & _ & _ & Hd & Hi & Hb). rewrite Hc in *. rewrite Hi. cbn [item_observed].
  apply decide_publishes in Hd as (-> & Hn & _). destruct (item_staged item); [|done]. apply buildStage_inv in Hb as [Hb Hv]. by split_and!.
Qed.

(** A repository found current is served as the plan wants it, with a receipt
    that says so or with this plan's own publication waiting for its receipt; and a
    plan that finds nothing to do writes nothing. *)
Theorem current_is_served p reads planned item :
  prepareRepository p reads planned = Ok item → item_current item = true →
  rd_Observed reads = Ok (item_observed item) ∧ servesDesired (item_repository item) planned (item_observed item) = true ∧
  (plan_Action planned = "noop" →
     deploymentMatchesDesired (item_deployment item) (item_observed item) (plan_DesiredTreeSHA256 planned)
       (plan_DesiredManifestSHA256 planned) (item_signingState item) = true ∨
     deploymentApplied p planned (item_observed item) (item_deployment item) (item_signingState item) = true).
Proof.
  intros Hp Hc. apply prepareRepository_inv in Hp as (repository & lock & ledger & deployment & observed & signing & trust &
    _ & _ & _ & _ & Ho & _ & _ & _ & Hd & Hi & Hb). rewrite Hc in *. rewrite Hi. cbn.
  apply decideRepository_spec in Hd as (_ & _ & _ & _ & Hcur). symmetry in Hcur. apply andb_true_iff in Hcur as [Hs Hr].
  split; [done|]. split; [done|]. intros Hn. apply orb_true_iff in Hr as [[Hr|Hr]%orb_true_iff|Hr]; [by right| |].
  - apply andb_true_iff in Hr as [_ Hr]. by left.
  - apply andb_true_iff in Hr as [Ha _]. unfold matchesApplied in Ha. by rewrite Hn in Ha.
Qed.

(** ** Applying again *)

(** The action of a plan that changes the tree does not depend on the ledger. *)
Lemma action_stable repository planned complete complete' signing :
  plan_ObservedTreeSHA256 planned ≠ plan_DesiredTreeSHA256 planned →
  expectedAction repository planned complete signing = expectedAction repository planned complete' signing.
Proof. intros Hne. unfold expectedAction. by rewrite bool_decide_eq_false_2. Qed.

Lemma receipt_signing_matches format planned previous observed signing native planID deployedAt now :
  (∀ t, format t ≠ "") →
  deploymentSigningMatches (deploymentRecordFor format planned previous observed signing native planID deployedAt now) signing = true.
Proof.
  intros Hf. unfold deploymentSigningMatches, deploymentRecordFor. cbn zeta. cbn.
  rewrite !bool_decide_eq_true_2, Z.eqb_refl by done. cbn [andb]. case_bool_decide; [done|]. cbn [orb].
  apply negb_true_iff, bool_decide_eq_false. destruct (_ && _ && _ && _ && _ && _ && _) eqn:E; [|apply Hf].
  apply andb_true_iff in E as [_ E]. by apply negb_true_iff, bool_decide_eq_false in E.
Qed.

(** The revision a publication of this plan leaves on the host. *)
Definition published_by (p : Preparation) (planned : PlanRepository) (revision : PublishedRevision) : Prop :=
  rev_TreeSHA256 revision = plan_DesiredTreeSHA256 planned ∧ rev_PlanID revision = prep_PlanID p ∧
  rev_ChangeID revision = plan_ChangeID planned ∧ rev_ManifestSHA256 revision = plan_DesiredManifestSHA256 planned.

(** C32: Applying a plan again after it published a repository finds its own work.
    For a repository the plan publishes with a tree other than the one it observed:
    when the host now serves what the plan published, and the receipt is the one
    the plan observed (the earlier run stopped before recording) or the one the
    earlier run recorded, the repository is current and is not published a second
    time; timestamps are formatted as non-empty text.  When the planned tree is the observed one the second decision can be
    refused. *)
Theorem retry_finds_publication format p repository planned complete complete' deployment deployment' observed observed' signing deployedAt now :
  (∀ t, format t ≠ "") → plan_ObservedTreeSHA256 planned ≠ plan_DesiredTreeSHA256 planned →
  decideRepository p repository planned complete deployment observed signing = Ok false → published_by p planned observed' →
  deployment' = plan_ObservedDeployment planned ∨
  deployment' = deploymentRecordFor format planned deployment observed signing (rev_NativeRevision observed') (prep_PlanID p) deployedAt now →
  decideRepository p repository planned complete' deployment' observed' signing = Ok true.
Proof.
  intros Hf Hne Hd (Ht & Hp & Hc & Hm) Hdep. pose proof (decide_publishes _ _ _ _ _ _ _ Hd) as (_ & Hn & Hchange).
  apply decideRepository_spec in Hd as (_ & _ & Hact & _). unfold decideRepository. cbn zeta.
  assert (matchesApplied p repository planned observed' = true) as Happ.
  { unfold matchesApplied. rewrite Ht, Hp, Hc, Hm, (bool_decide_eq_false_2 (plan_Action planned = _)) by done.
    rewrite !bool_decide_eq_true_2 by done. by rewrite orb_true_r. }
  rewrite (action_stable _ _ complete complete') in Hact by done. rewrite Happ, andb_false_r.
  rewrite (bool_decide_eq_true_2 _ Hact), (bool_decide_eq_true_2 _ Hchange).
  fold (servesDesired repository planned observed'). rewrite (applied_serves _ _ _ _ Happ). cbn [negb orb andb].
  destruct Hdep as [->| ->].
  - rewrite (bool_decide_eq_true_2 (plan_ObservedDeployment planned = _)) by done. cbn [negb andb]. by rewrite orb_true_r.
  - assert (deploymentApplied p planned observed' (deploymentRecordFor format planned deployment observed signing
      (rev_NativeRevision observed') (prep_PlanID p) deployedAt now) signing = true) as Hr.
    { unfold deploymentApplied. rewrite receipt_signing_matches by done. cbn. by rewrite !bool_decide_eq_true_2 by done. }
    rewrite Hr. cbn [negb]. rewrite andb_false_r. done.
Qed.

(** ** Applying at once *)

Definition publishedOf (repository : Repository) (lock : RepositoryLock) : list string :=
  match SignerFor (repo_Format repository) with
  | Ok signer => PublishedPaths signer
      (visiblePackageVersions lock repository ≫= λ v, (λ b, mkPublishedArtifact (Filename b) (SHA256 b)) <$> pv_Blobs v)
  | Err _ => []
  end.

(** What a build promises of the signatures it makes: a signed repository has one
    signature set, by its active key and of its own shape, and building again with
    the signatures already made gives the same result. *)
Record signs_faithfully (reads : Reads) (keys : gmap string SigningKey) (repository : Repository) (lock : RepositoryLock)
    (generatedAt createdAt : Z) (desired : BuildResult) : Prop := {
  sf_signed : build_Signing desired = [] ↔ repo_SigningKeys repository = [];
  sf_single : (length (build_Signing desired) ≤ 1)%nat;
  sf_shape signing : signing ∈ build_Signing desired →
    sig_KeyName signing = activeKeyOf repository ∧ is_Some (keys !! activeKeyOf repository) ∧
    ∃ shape, signingShapeFor repository (publishedOf repository lock) = Ok shape ∧ validateSigningRecipeMetadata signing (Some shape) = Ok ();
  sf_replay : rd_Build reads generatedAt createdAt (build_Signing desired) = Ok desired;
}.

(** An apply of the plan in the workspace it was made in. *)
Record same_workspace (p : Preparation) (keys : gmap string SigningKey) (repository : Repository) (name : string)
    (createdAt generatedAt expiresIn : Z) : Prop := {
  sw_keys : prep_Keys p = keys;
  sw_repository : prep_Repositories p !! name = Some repository;
  sw_ledger : prep_ledgerCommitted p = false;
  sw_generated : prep_generatedAt p = generatedAt;
  sw_signed : prep_signatureTime p = createdAt;
  sw_expires : prep_expiresAt p = createdAt + expiresIn;
  sw_arrays : prep_manifestArray p name = prep_planArray p name;
}.

(** The steps of a planning that went through. *)
Lemma planRepository_inv reads keys repository name createdAt generatedAt expiresIn planned :
  planRepository reads keys repository name createdAt generatedAt expiresIn = Ok planned →
  ∃ lock ledger deployment lockDigest desired hostIdentity capabilities observed trust signing installDoc,
    rd_Lock reads = Ok lock ∧ ValidateLock lock name (repo_Format repository) = Ok () ∧ rd_Ledger reads = Ok ledger ∧
    ValidatePublishedBindings lock ledger = Ok () ∧ rd_Deployment reads = Ok deployment ∧ rd_LockDigest reads = Ok lockDigest ∧
    rd_Build reads generatedAt createdAt [] = Ok desired ∧
    (build_Signing desired ≠ [] → is_ok (repositorySigningState repository) = true ∧
       ∃ t, expiryOf keys (activeKeyOf repository) = Some t ∧ createdAt + expiresIn ≤ t) ∧
    rd_HostIdentity reads = Ok hostIdentity ∧ rd_Capabilities reads = Ok capabilities ∧ rd_Observed reads = Ok observed ∧
    trustNotBeforeOf repository deployment (rd_CommittedAt reads) = Ok trust ∧
    validateRepositorySigningTransition repository keys deployment observed createdAt trust = Ok () ∧
    repositoryDeploymentSigningState repository keys = Ok signing ∧ rd_InstallDoc reads = Ok installDoc ∧
    let complete := publicationBindingsComplete lock repository ledger in
    let bindings := if complete then [] else publicationBindingsForVersions (visiblePackageVersions lock repository) in
    let records := negb (length bindings =? 0)%nat in
    let needed :=
      negb (bool_decide (rev_TreeSHA256 observed = build_TreeSHA256 desired)) ||
      (managedRemote repository && negb (bool_decide (rev_ManifestSHA256 observed = build_ManifestSHA256 desired))) || records ||
      negb (deploymentMatchesDesired deployment observed (build_TreeSHA256 desired) (build_ManifestSHA256 desired) signing) in
    planned = mkPlanRepository name (repo_Gate repository) (repo_ApprovalKeys repository) (repo_Format repository) lockDigest
      (repo_Host repository) (repo_Visibility repository) hostIdentity (rd_CanonicalEndpoint reads) installDoc
      (rev_NativeRevision observed) (rev_PlanID observed) (rev_ChangeID observed) (rev_ReleaseSHA256 observed)
      (rev_ManifestSHA256 observed) (rev_RestoreID observed) (rev_RestoreSHA256 observed) (rev_RestoreRootSHA256 observed)
      deployment (FaithfulPreview capabilities) (ConditionalCommit capabilities) (ConditionalRestore capabilities)
      (PrivateRead capabilities) (CredentialBrokerIdentity capabilities) (build_Signing desired) records bindings
      (planAcquisitionsForVersions (visiblePackageVersions lock repository)) (rev_TreeSHA256 observed) (build_TreeSHA256 desired)
      (build_ManifestSHA256 desired) (changeIDOf name (build_TreeSHA256 desired)) (actionFor needed (rev_NativeRevision observed)).
Proof.
  unfold planRepository. intros (lock & El & E)%bind_ok. apply bind_ok in E as ([] & Evl & E). apply bind_ok in E as (ledger & Ele & E).
  apply bind_ok in E as ([] & Evb & E). apply bind_ok in E as ([] & _ & E). apply bind_ok in E as (deployment & Ed & E).
  apply bind_ok in E as (lockDigest & Eld & E). apply bind_ok in E as (desired & Eb & E).
  destruct (_ && _) eqn:Es in E; [done|]. apply bind_ok in E as (hostIdentity & Eh & E). apply bind_ok in E as (capabilities & Ec & E).
  destruct (_ || _) eqn:Ecap in E; [done|]. apply bind_ok in E as (observed & Eo & E). apply bind_ok in E as (trust & Et & E).
  apply bind_ok in E as ([] & Ev & E). apply bind_ok in E as (signing & Esig & E). cbn zeta in E. apply bind_ok in E as (installDoc & Ei & E).
  injection E as <-. exists lock, ledger, deployment, lockDigest, desired, hostIdentity, capabilities, observed, trust, signing, installDoc.
  split_and!; try done. intros Hne. destruct (build_Signing desired); [done|]. cbn [length Nat.eqb negb andb] in Es.
  apply orb_false_iff in Es as [Es1 Es2]. apply negb_false_iff in Es1. split; [done|].
  destruct (expiryOf keys _) as [t|]; [|done]. exists t. split; [done|]. lia.
Qed.

Lemma records_missing lock repository ledger :
  negb (length (if publicationBindingsComplete lock repository ledger then []
                else publicationBindingsForVersions (visiblePackageVersions lock repository)) =? 0)%nat =
  negb (publicationBindingsComplete lock repository ledger).
Proof.
  destruct (publicationBindingsComplete lock repository ledger) eqn:E; [done|]. cbn [negb]. apply negb_true_iff, Nat.eqb_neq.
  unfold publicationBindingsComplete, missingPublicationBindings in E. cbn zeta in E. rewrite length_fmap in E.
  unfold publicationBindingsForVersions. rewrite length_fmap. intros Hz%length_zero_iff_nil. by rewrite Hz in E.
Qed.

Lemma checkAllSigning_ok p reads repository lock generatedAt createdAt desired active trusted phase refresh :
  signs_faithfully reads (prep_Keys p) repository lock generatedAt createdAt desired →
  repositorySigningState repository = Ok (active, trusted, phase, refresh) →
  (build_Signing desired ≠ [] → ∃ t, expiryOf (prep_Keys p) (activeKeyOf repository) = Some t ∧ prep_expiresAt p ≤ t) →
  checkAllSigning p repository lock active (build_Signing desired) = Ok ().
Proof.
  intros Hf Hst Hexp. assert (activeKeyOf repository = active) as Ha by (unfold activeKeyOf; by rewrite Hst).
  assert (∀ s, s ∈ build_Signing desired → checkPlannedSigning p repository lock active s = Ok ()) as Hall.
  { intros s Hs. destruct (sf_shape _ _ _ _ _ _ _ Hf s Hs) as (Hk & [key Hkey] & shape & Hshape & Hv). unfold checkPlannedSigning.
    rewrite Hk, Ha, bool_decide_eq_true_2 by done. cbn [negb]. rewrite Ha in Hkey. rewrite Hkey.
    destruct Hexp as (t & Et & Hle); [by intros E; rewrite E in Hs; apply not_elem_of_nil in Hs|].
    unfold expiryOf in Et. rewrite Ha, Hkey in Et. rewrite Et. destruct (Z.ltb_spec t (prep_expiresAt p)); [lia|].
    fold (publishedOf repository lock). cbn zeta. rewrite Hshape. cbn [mbind result_bind]. done. }
  clear Hexp Hf. induction (build_Signing desired) as [|s l IH]; [done|]. cbn [checkAllSigning].
  rewrite Hall by by left. cbn [mbind result_bind]. apply IH. intros x Hx. apply Hall. by right.
Qed.

(** A plan applies in the workspace it was made in: if nothing the plan read
    has changed, the ledger reads as a history, the build replays the signatures it
    made and the signing transition is still allowed, then preparing the planned
    repository succeeds, and finds it current where the plan has nothing to do. *)
Theorem fresh_plan_applies p reads keys repository name createdAt generatedAt expiresIn planned :
  planRepository reads keys repository name createdAt generatedAt expiresIn = Ok planned →
  same_workspace p keys repository name createdAt generatedAt expiresIn →
  (∀ lock desired, rd_Lock reads = Ok lock → rd_Build reads generatedAt createdAt [] = Ok desired →
     signs_faithfully reads keys repository lock generatedAt createdAt desired) →
  (∀ ledger, rd_Ledger reads = Ok ledger → ValidatePublicationHistory name ledger = Ok ()) →
  (∀ deployment trust, rd_Deployment reads = Ok deployment → trustNotBeforeOf repository deployment (rd_CommittedAt reads) = Ok trust →
     validateRepositorySigningTransition repository keys deployment (publishedFromPlanObservation planned) (prep_now p) trust = Ok ()) →
  rd_verifyStaged reads = Ok () →
  ∃ item, prepareRepository p reads planned = Ok item ∧ (plan_Action planned = "noop" → item_current item = true).
Proof.
  intros Hplan [<- Hrepo Hlc <- <- Hexp Harrays] Hbuild Hhist Htrans Hverify.
  apply planRepository_inv in Hplan as (lock & ledger & deployment & lockDigest & desired & hostIdentity & capabilities & observed & trust &
    signing & installDoc & El & Evl & Ele & Evb & Ed & Eld & Eb & Hkey & Eh & Ec & Eo & Et & _ & Esig & Ei & Hp). cbn zeta in Hp.
  rewrite records_missing in Hp. specialize (Hbuild _ _ El Eb). specialize (Hhist _ Ele). specialize (Htrans _ _ Ed Et).
  assert (publishedFromPlanObservation planned = observed) as Hobs by (rewrite Hp; by destruct observed).
  assert (∃ a b c d, repositorySigningState repository = Ok (a, b, c, d)) as (active & trusted & phase & refresh & Est).
  { unfold repositoryDeploymentSigningState in Esig. destruct (repositorySigningState repository) as [[[[a b] c] d]|]; [by exists a, b, c, d|done]. }
  assert (checkConfiguration p reads repository planned = Ok (lock, ledger)) as Hconf.
  { unfold checkConfiguration, deepEqualSlices. rewrite Eld, El. rewrite Hp. cbn. rewrite Harrays, eqb_reflx, orb_true_r, !bool_decide_eq_true_2 by done.
    cbn [negb orb andb].
    pose proof (sf_single _ _ _ _ _ _ _ Hbuild) as Hone. pose proof (sf_signed _ _ _ _ _ _ _ Hbuild) as Hs.
    assert (eqb (length (build_Signing desired) =? 0)%nat (length (repo_SigningKeys repository) =? 0)%nat = true) as ->.
    { destruct (build_Signing desired), (repo_SigningKeys repository); try done; destruct Hs; naive_solver. }
    cbn [negb mbind result_bind]. rewrite Evl. cbn [mbind result_bind]. rewrite Est. cbn [mbind result_bind].
    rewrite (checkAllSigning_ok p reads repository lock (prep_generatedAt p) (prep_signatureTime p) desired active trusted phase refresh);
      [|done|done|intros Hne; rewrite Hexp; by apply Hkey]. cbn [mbind result_bind]. rewrite ?Eh, ?Ei, Ec. cbn [mbind result_bind]. rewrite Ele. cbn [mbind result_bind].
    rewrite !bool_decide_eq_true_2, !eqb_reflx by done. cbn [negb orb mbind result_bind]. rewrite Hhist. cbn [mbind result_bind].
    rewrite Evb. by destruct (build_Signing desired) as [|? [|? ?]]; [..|cbn in Hone; lia]. }
  assert (checkEffects p repository planned lock ledger = Ok ()) as Heff.
  { unfold checkEffects. rewrite Hp, Hlc. cbn zeta. cbn [plan_Acquisitions plan_PublicationRecords plan_PublicationBindings].
    rewrite bool_decide_eq_true_2, records_missing, !eqb_reflx by done.
    destruct (publicationBindingsComplete lock repository ledger); cbn [negb]; by rewrite bool_decide_eq_true_2. }
  destruct (decideRepository p repository planned (publicationBindingsComplete lock repository ledger) deployment observed signing) as [current|] eqn:Edec.
  2: { assert (is_ok (decideRepository p repository planned (publicationBindingsComplete lock repository ledger)
         (plan_ObservedDeployment planned) (publishedFromPlanObservation planned) signing) = true) as Hok.
       { apply decideRepository_ok; [unfold expectedAction; rewrite Hobs|]; by rewrite Hp. }
       rewrite Hobs in Hok. replace (plan_ObservedDeployment planned) with deployment in Hok by (by rewrite Hp). by rewrite Edec in Hok. }
  unfold prepareRepository. replace (plan_Name planned) with name by (by rewrite Hp). rewrite Hrepo, Hconf. cbn [mbind result_bind].
  rewrite Heff, Ed, Esig, Eo. cbn [mbind result_bind]. rewrite Et. cbn [mbind result_bind]. rewrite Htrans. cbn [mbind result_bind].
  rewrite Edec. cbn [mbind result_bind]. cbn zeta.
  assert (buildStage p reads planned = Ok ()) as Hstage.
  { unfold buildStage. rewrite Hp. cbn. rewrite (sf_replay _ _ _ _ _ _ _ Hbuild). cbn [mbind result_bind].
    by rewrite !bool_decide_eq_true_2. }
  assert (plan_Action planned = "noop" → current = true) as Hcur.
  { intros Hn. destruct current; [done|]. by apply decide_publishes in Edec as (_ & ? & _). }
  destruct (_ && _ && _); [by eexists|]. rewrite Hstage. cbn [mbind result_bind]. by eexists.
Qed.

(** ** A signed repository with nothing to sign *)

(** A signed repository whose format makes no signature yet, a Helm repository
    without charts, can be planned but its plan is never applied: it is refused as
    if the configuration had changed. *)
Theorem signed_without_artifacts_refused p reads planned repository :
  prep_Repositories p !! plan_Name planned = Some repository → repo_SigningKeys repository ≠ [] → plan_Signing planned = [] →
  is_ok (prepareRepository p reads planned) = false.
Proof.
  intros Hr Hk Hs. unfold prepareRepository. rewrite Hr. unfold checkConfiguration. rewrite Hs.
  destruct (repo_SigningKeys repository); [done|]. cbn [length Nat.eqb eqb negb]. by rewrite orb_true_r.
Qed.

(** ** An empty array of approval keys *)

(** A manifest that writes [approval_keys = []] can be planned, but its plan is never
    applied: a plan leaves the empty array out, and what is read back is nil, which
    [reflect.DeepEqual] tells from the manifest's empty slice. *)
Theorem empty_approval_keys_refused p reads planned repository :
  prep_Repositories p !! plan_Name planned = Some repository → plan_ApprovalKeys planned = [] →
  prep_manifestArray p (plan_Name planned) = true → prep_planArray p (plan_Name planned) = false →
  is_ok (prepareRepository p reads planned) = false.
Proof.
  intros Hr Hk Hm Hp. unfold prepareRepository. rewrite Hr. unfold checkConfiguration.
  assert (deepEqualSlices (repo_ApprovalKeys repository) (plan_ApprovalKeys planned) (prep_manifestArray p (plan_Name planned))
    (prep_planArray p (plan_Name planned)) = false) as ->; [|cbn [negb]; by rewrite !orb_true_r].
  unfold deepEqualSlices. rewrite Hk, Hm, Hp. by destruct (repo_ApprovalKeys repository).
Qed.
End proofs.

Module PrepareExample.
Import PlanChecks.
#[local] Instance json_lib : JsonLib := {| Tokens _ := ([], true) |}.
#[local] Instance time_lib : TimeLib := {| ParseRFC3339 _ := Some 0 |}.
#[local] Instance deployment_lib : DeploymentLib := {| UnmarshalDeployment _ := Err "none"; MarshalDeployment _ := Err "none" |}.
#[local] Instance ledger_lib : LedgerLib := {| MarshalRecord _ := Err "none"; UnmarshalRecord _ := Err "none" |}.
#[local] Existing Instances net_lib hash_lib recipe_lib.

(** An unsigned repository in a directory, planned before its first publication. *)
Definition unsigned : Repository :=
  mkRepository "deb" "repos/apt.lock.toml" (repo_Host repository) "public" "auto" [] [] "" None 0 "stable" "bookworm" "main" ["amd64"].
Definition reads (observed : PublishedRevision) : Reads :=
  mkReads (Ok lock) (Ok digestA) (Ok []) (Ok noDeployment) (Err "not committed") (Ok digestA) "public/apt" (Ok "")
    (Ok (mkCapabilities true true true false "")) (Ok observed) (λ _ _ _, Ok (mkBuildResult digestB digestA [])) (Ok ()).
Definition preparation (repository : Repository) : Preparation :=
  mkPreparation digestA ∅ {[ "apt" := repository ]} 2 10 1 1 false true (λ _, false) (λ _, false).
Definition planned : PlanRepository :=
  match planRepository (reads noRevision) ∅ unsigned "apt" 1 1 9 with
  | Ok planned => planned
  | Err _ => mkPlanRepository "" "" [] "" "" (repo_Host repository) "" "" "" "" "" "" "" "" "" "" "" "" noDeployment
               false false false false "" [] false [] [] "" "" "" "" ""
  end.
Definition item : applyRepository :=
  mkApplyRepository planned unsigned lock noRevision false noDeployment unsignedState true.

Lemma prepared : prepareRepository (preparation unsigned) (reads noRevision) planned = Ok item.
Proof. vm_compute. reflexivity. Qed.

Lemma publishes_over_planned_revision_witness :
  expectedRevisionFromPlan planned = expectedRevisionFromPublished noRevision ∧ plan_Action planned ≠ "noop".
Proof.
  pose proof (publishes_over_planned_revision (preparation unsigned) (reads noRevision) planned item prepared eq_refl) as (_ & He & Hn & _).
  exact (conj He Hn).
Defined.

(** The plan's own publication, found by a second run. *)
Definition served : PublishedRevision := mkRevision "r1" digestB digestA (plan_ChangeID planned) "" "" digestA "" "".
Definition again : applyRepository := mkApplyRepository planned unsigned lock served true noDeployment unsignedState false.

Lemma prepared_again : prepareRepository (preparation unsigned) (reads served) planned = Ok again.
Proof. vm_compute. reflexivity. Qed.

Lemma current_is_served_witness : servesDesired unsigned planned served = true.
Proof. exact (proj1 (proj2 (current_is_served (preparation unsigned) (reads served) planned again prepared_again eq_refl))). Defined.

Lemma retry_finds_publication_witness :
  decideRepository (preparation unsigned) unsigned planned true noDeployment served unsignedState = Ok true.
Proof.
  apply (retry_finds_publication (λ _, "t") (preparation unsigned) unsigned planned false true noDeployment noDeployment noRevision served
    unsignedState "" 0); [discriminate|vm_compute; discriminate|vm_compute; reflexivity|repeat split; vm_compute; reflexivity|].
  left. vm_compute. reflexivity.
Defined.

Lemma fresh_plan_applies_witness : ∃ item, prepareRepository (preparation unsigned) (reads noRevision) planned = Ok item.
Proof.
  destruct (fresh_plan_applies (preparation unsigned) (reads noRevision) ∅ unsigned "apt" 1 1 9 planned) as (i & Hi & _); [..|by exists i].
  - vm_compute. reflexivity.
  - split; reflexivity.
  - intros l d [= <-] [= <-]. split; [done|cbn; lia|by intros s ?%not_elem_of_nil|reflexivity].
  - intros ledger [= <-]. reflexivity.
  - intros deployment trust [= <-] [= <-]. vm_compute. reflexivity.
  - reflexivity.
Defined.

(** A Helm repository set up with a key and without a chart. *)
Definition charts : Repository :=
  mkRepository "helm" "repos/charts.lock.toml" (repo_Host repository) "public" "auto" [] ["a"] "keys/charts.gpg" None 0 "stable" "" "" [].

Lemma signed_without_artifacts_refused_witness :
  ShapeOf helmFormat (signingRepositoryView charts) [] = Ok (mkSigningShape "helm-provenance" []) ∧
  is_ok (prepareRepository (preparation charts) (reads noRevision) planned) = false.
Proof.
  split; [reflexivity|]. apply (signed_without_artifacts_refused _ _ _ charts); [vm_compute; reflexivity|discriminate|vm_compute; reflexivity].
Defined.

End PrepareExample.
