(* ===== verification/Apply.v ===== *)
(** Applying a plan ([engine/workspace.go]): the phases of [ApplyWorkspace] after the
    repositories are prepared, and the publication of each repository with its
    compensation.

    Everything outside the engine (hosts, forges, Git, clients, the clock) is an
    [Oracle] that answers each request knowing every request made before it, so an
    answer may change between two requests for whatever reason: time passes, an
    approval expires, someone else publishes.  A run is a computation in a small
    monad over the history of requests and the counters an apply reports; an error
    stops it and keeps the state, as the early returns of the code do. *)

From S2P Require Import Prelude GoStrings GoSlices Model Formats Source Lock JsonStrict Ledger Forge PlanJson Gate Manifest.
From S2P Require Import Host Deployment Signing Plan Rotation Prepare.

Open Scope Z_scope.

(** ** Requests *)

Inductive Request :=
| Gate (name : string)
| ReadStage (name : string)
| StageOn (name : string)
| VerifyStage (name : string)
| CleanGit
| PlanLedgerRevision
| ValidateLedgerPaths
| ValidateLedger (name : string)
| PrepareRecords (name : string)
| CommitLedgers (names : list string)
| LockGit
| AssertRevision
| AssertHead (name : string)
| Commit (name : string) (expected : ExpectedRevision)
| Observe (name : string)
| ReadAccess (name : string)
| Probe (name : string)
| Restore (name : string) (reference : RestoreRef) (expected : ExpectedRevision)
| BeforeReceipts
| CommitReceipts (records : list DeploymentRecord)
| AbortStage (name : string).

(** A request and whether it succeeded. *)
Definition History := list (Request * bool).

(** What [Stage] returns: its identifier, and the endpoint of its preview, if any.  The
    code keeps it even when [Stage] also returns an error, to abort the stage. *)
Record StagedPublication := mkStaged { staged_ID : string; staged_Endpoint : string }.

Record Oracle := mkOracle {
  ask_now : History → Z;
  ask_gate : History → applyRepository → result ();
  ask_stagedFiles : History → applyRepository → result ();
  ask_stage : History → applyRepository → StagedPublication * result ();
  ask_verifyStaged : History → applyRepository → result ();
  ask_verifyEndpoint : History → applyRepository → result ();
  ask_cleanGit : History → result string;
  ask_planLedgerRevision : History → result string;
  ask_ledgerPaths : History → string → result ();
  ask_validateLedger : History → string → applyRepository → result ();
  ask_prepareRecords : History → applyRepository → result ();
  ask_commitLedgers : History → list string → result string;
  ask_lockGit : History → string → result ();
  ask_assertRevision : History → string → result ();
  ask_head : History → string → result ();
  ask_commit : History → applyRepository → ExpectedRevision → result CommitResult;
  ask_observe : History → applyRepository → result PublishedRevision;
  ask_readAccess : History → applyRepository → result ();
  ask_probe : History → applyRepository → result ();
  ask_restore : History → applyRepository → RestoreRef → ExpectedRevision → result PublishedRevision;
  ask_beforeReceipts : History → result ();
  ask_receipts : History → list DeploymentRecord → result string;
  ask_abort : History → applyRepository → result ();
}.

(** ** The monad *)

(** [execution.result] and [execution.deployments], with the history and the
    repositories that have a stage on their host. *)
Record Execution := mkExecution {
  exec_history : History; exec_Applied : Z; exec_Current : Z; exec_deployments : list DeploymentRecord;
  exec_stages : list applyRepository;
}.

Definition M (A : Type) : Type := Execution → Execution * result A.

#[export] Instance M_ret : MRet M := λ A a s, (s, Ok a).
#[export] Instance M_bind : MBind M := λ A B f m s,
  match m s with
  | (s, Ok a) => f a s
  | (s, Err e) => (s, Err e)
  end.

Definition fail {A} (e : string) : M A := λ s, (s, Err e).
Definition lift {A} (r : result A) : M A := λ s, (s, r).
Definition history : M History := λ s, (s, Ok (exec_history s)).

Definition log (request : Request) (ok : bool) (s : Execution) : Execution :=
  mkExecution (exec_history s ++ [(request, ok)]) (exec_Applied s) (exec_Current s) (exec_deployments s) (exec_stages s).

Definition ask {A} (request : Request) (answer : History → result A) : M A :=
  λ s, let r := answer (exec_history s) in (log request (is_ok r) s, r).

Definition count_applied (n : Z) : M () :=
  λ s, (mkExecution (exec_history s) (exec_Applied s + n) (exec_Current s) (exec_deployments s) (exec_stages s), Ok ()).
Definition count_current (n : Z) : M () :=
  λ s, (mkExecution (exec_history s) (exec_Applied s) (exec_Current s + n) (exec_deployments s) (exec_stages s), Ok ()).
Definition record_deployment (record : DeploymentRecord) : M () :=
  λ s, (mkExecution (exec_history s) (exec_Applied s) (exec_Current s) (exec_deployments s ++ [record]) (exec_stages s), Ok ()).

Definition record_stage (item : applyRepository) : M () :=
  λ s, (mkExecution (exec_history s) (exec_Applied s) (exec_Current s) (exec_deployments s) (exec_stages s ++ [item]), Ok ()).
Definition deployments : M (list DeploymentRecord) := λ s, (s, Ok (exec_deployments s)).

(** A loop that returns at the first error. *)
Fixpoint for_each {A} (f : A → M ()) (l : list A) : M () :=
  match l with
  | [] => mret ()
  | x :: l => _ ← f x; for_each f l
  end.

(** [if err := m; err != nil { return handle(err) }; return ok]. *)
Definition on_error {A} (m : M ()) (handle : string → M A) (ok : M A) : M A :=
  λ s, match m s with
       | (s, Ok _) => ok s
       | (s, Err e) => handle e s
       end.

(** ** An apply *)

(** The plan and the request: the gates may be absent. *)
Record ApplyRequest := mkApplyRequest {
  apply_PlanID : string; apply_CreatedAt : string; apply_GitRevision : string; apply_expiresAt : Z;
  apply_StructuralOnly : bool; apply_HasGates : bool; apply_DryRun : bool; apply_ledgerCommitted : bool;
  apply_FormatRFC3339 : Z → string;
}.

Section apply.
Context (oracle : Oracle) (request : ApplyRequest).

Definition nameOf (item : applyRepository) : string := plan_Name (item_planned item).
Definition isNoop (item : applyRepository) : bool := bool_decide (plan_Action (item_planned item) = "noop").
Definition hostTypeOf (item : applyRepository) : string := host_Type (repo_Host (item_repository item)).

Definition authorize (item : applyRepository) : M () :=
  if isNoop item then mret ()
  else
    h ← history;
    if negb (ask_now oracle h <? apply_expiresAt request) then fail "plan expired before publication effect"
    else if bool_decide (repo_Gate (item_repository item) = "auto") then mret ()
    else if negb (apply_HasGates request) then fail "repository requires gate evidence"
    else ask (Gate (nameOf item)) (λ h, ask_gate oracle h item).

(** ** Publishing one repository *)

Definition restoreFailedPublication (item : applyRepository) (reference : RestoreRef) (expected : ExpectedRevision) : M () :=
  _ ← authorize item;
  _ ← ask (Restore (nameOf item) reference expected) (λ h, ask_restore oracle h item reference expected);
  mret ().

Definition recordDeployment (item : applyRepository) (nativeRevision : string) : M () :=
  h ← history;
  record_deployment
    (deploymentRecordFor (apply_FormatRFC3339 request) (item_planned item) (item_deployment item) (item_observed item)
       (item_signingState item) nativeRevision (apply_PlanID request) (apply_CreatedAt request) (ask_now oracle h)).

Definition restore (item : applyRepository) (committed : CommitResult) (probeErr : string) : M () :=
  match com_RestoreRef committed with
  | None => fail probeErr
  | Some reference =>
      _ ← restoreFailedPublication item reference (expectedRevisionFromPublished (com_Revision committed));
      _ ← count_applied (-1);
      fail probeErr
  end.

(** Whether an observation is not the one the commit reported. *)
Definition observationDiffers (item : applyRepository) (committed : CommitResult) (canonical : PublishedRevision) : bool :=
  negb (bool_decide (rev_TreeSHA256 canonical = plan_DesiredTreeSHA256 (item_planned item))) ||
  negb (bool_decide (rev_NativeRevision canonical = rev_NativeRevision (com_Revision committed))) ||
  (bool_decide (hostTypeOf item = "s3") && negb (bool_decide (canonical = com_Revision committed))).

(** The observation of what the host serves once the commit returned. *)
Definition observeCommitted (item : applyRepository) (committed : CommitResult) : M () :=
  canonical ← ask (Observe (nameOf item)) (λ h, ask_observe oracle h item);
  if observationDiffers item committed canonical then fail "canonical host observation does not match committed tree" else mret ().

Definition probeCommitted (item : applyRepository) : M () :=
  if apply_StructuralOnly request then mret () else ask (Probe (nameOf item)) (λ h, ask_probe oracle h item).

Definition publish (applyGitRevision : string) (item : applyRepository) : M () :=
  let expected := expectedRevisionFromPlan (item_planned item) in
  _ ← ask (AssertHead (nameOf item)) (λ h, ask_head oracle h applyGitRevision);
  _ ← authorize item;
  committed ← ask (Commit (nameOf item) expected) (λ h, ask_commit oracle h item expected);
  _ ← count_applied 1;
  on_error (observeCommitted item committed) (restore item committed)
    (on_error (probeCommitted item) (restore item committed)
       (_ ← ask (AssertHead (nameOf item)) (λ h, ask_head oracle h applyGitRevision);
        recordDeployment item (rev_NativeRevision (com_Revision committed)))).

(** The reference of the revision an observation can be rolled back from. *)
Definition observedReference (observed : PublishedRevision) : RestoreRef :=
  mkRestoreRef (rev_RestoreID observed) (rev_PlanID observed) (rev_ChangeID observed) (rev_TreeSHA256 observed)
    (rev_RestoreSHA256 observed) (rev_RestoreRootSHA256 observed).

Definition verifyCurrent (item : applyRepository) : M () :=
  let observed := item_observed item in
  let record := if isNoop item then mret () else recordDeployment item (rev_NativeRevision observed) in
  _ ← count_current 1;
  if apply_StructuralOnly request || isNoop item then record
  else
    _ ← ask (ReadAccess (nameOf item)) (λ h, ask_readAccess oracle h item);
    on_error (ask (Probe (nameOf item)) (λ h, ask_probe oracle h item))
      (λ e, if bool_decide (rev_RestoreID observed = "") then fail e
            else
              _ ← restoreFailedPublication item (observedReference observed) (expectedRevisionFromPublished observed);
              _ ← count_current (-1);
              fail e)
      record.

(** ** The phases *)

(** The body of the loop of [stageOnHosts]. *)
Definition stageOnHost (item : applyRepository) : M () :=
  if item_current item then mret ()
  else
    _ ← ask (ReadStage (nameOf item)) (λ h, ask_stagedFiles oracle h item);
    _ ← authorize item;
    h ← history;
    let staged := (ask_stage oracle h item).1 in
    _ ← (if bool_decide (staged_ID staged = "") then mret () else record_stage item);
    _ ← ask (StageOn (nameOf item)) (λ h, (ask_stage oracle h item).2);
    if apply_StructuralOnly request then mret ()
    else if bool_decide (hostTypeOf item = "local") then ask (VerifyStage (nameOf item)) (λ h, ask_verifyStaged oracle h item)
    else if negb (RemoteClientVerification (Supports (hostTypeOf item) (repo_Format (item_repository item))))
    then fail "host preview verification is not implemented"
    else if bool_decide (staged_Endpoint staged = "") then ask (VerifyStage (nameOf item)) (λ h, ask_verifyStaged oracle h item)
    else ask (VerifyStage (nameOf item)) (λ h, ask_verifyEndpoint oracle h item).

Definition stageOnHosts (prepared : list applyRepository) : M () := for_each stageOnHost prepared.

Definition recording (prepared : list applyRepository) : list applyRepository :=
  List.filter (λ item, plan_PublicationRecords (item_planned item)) prepared.

Definition validateLedgers (ledgerRevision : string) (prepared : list applyRepository) : M () :=
  _ ← ask ValidateLedgerPaths (λ h, ask_ledgerPaths oracle h ledgerRevision);
  for_each (λ item, ask (ValidateLedger (nameOf item)) (λ h, ask_validateLedger oracle h ledgerRevision item)) (recording prepared).

Definition commitPublicationLedgers (prepared : list applyRepository) : M string :=
  let repositories := nameOf <$> recording prepared in
  let prepareRecords := for_each (λ item, ask (PrepareRecords (nameOf item)) (λ h, ask_prepareRecords oracle h item)) (recording prepared) in
  if apply_ledgerCommitted request then
    applyGitRevision ← ask CleanGit (ask_cleanGit oracle);
    _ ← (if bool_decide (repositories = []) then mret ()
         else ledgerRevision ← ask PlanLedgerRevision (ask_planLedgerRevision oracle); validateLedgers ledgerRevision prepared);
    _ ← prepareRecords;
    mret applyGitRevision
  else
    _ ← prepareRecords;
    if bool_decide (repositories = []) then mret (apply_GitRevision request)
    else
      ledgerRevision ← ask (CommitLedgers repositories) (λ h, ask_commitLedgers oracle h repositories);
      _ ← validateLedgers ledgerRevision prepared;
      mret ledgerRevision.

Definition publishOne (applyGitRevision : string) (item : applyRepository) : M () :=
  if item_current item then verifyCurrent item else publish applyGitRevision item.

Definition commitReceipts : M () :=
  records ← deployments;
  _ ← ask (CommitReceipts records) (λ h, ask_receipts oracle h records);
  mret ().

Definition publishAndRecord (prepared : list applyRepository) (applyGitRevision : string) : M () :=
  _ ← (if existsb (λ item, negb (item_current item)) prepared
       then ask LockGit (λ h, ask_lockGit oracle h applyGitRevision)
       else ask AssertRevision (λ h, ask_assertRevision oracle h applyGitRevision));
  _ ← for_each (publishOne applyGitRevision) prepared;
  _ ← ask BeforeReceipts (ask_beforeReceipts oracle);
  commitReceipts.

Definition dryRunResult (prepared : list applyRepository) : M () :=
  let wouldApply := Z.of_nat (length (List.filter (λ item, negb (item_current item)) prepared)) in
  _ ← count_applied wouldApply;
  count_current (Z.of_nat (length prepared) - wouldApply).

(** The deferred clean-up: every stage is aborted, whatever its host answers. *)
Fixpoint abortStages (items : list applyRepository) (s : Execution) : Execution :=
  match items with
  | [] => s
  | item :: rest => abortStages rest (ask (AbortStage (nameOf item)) (λ h, ask_abort oracle h item) s).1
  end.

Definition deferAbort (body : M ()) : M () := λ s, let '(s, r) := body s in (abortStages (exec_stages s) s, r).

(** From staging to the receipts. *)
Definition stageAndPublish (prepared : list applyRepository) : M () :=
  _ ← stageOnHosts prepared;
  _ ← (if apply_ledgerCommitted request then mret () else for_each authorize (recording prepared));
  applyGitRevision ← commitPublicationLedgers prepared;
  publishAndRecord prepared applyGitRevision.

(** [ApplyWorkspace] once its repositories are prepared. *)
Definition ApplyWorkspace (prepared : list applyRepository) : M () :=
  _ ← for_each authorize prepared;
  if apply_DryRun request then dryRunResult prepared else deferAbort (stageAndPublish prepared).

Definition started : Execution := mkExecution [] 0 0 [] [].
End apply.
