(* ===== verification/ApplyProofs.v ===== *)
(** What an apply does, in every run: for every oracle, whatever fails and whenever. *)

From S2P Require Import Prelude GoStrings GoSlices Model Formats Source Lock JsonStrict Ledger Forge PlanJson Gate Manifest.
From S2P Require Import Host Deployment Signing Plan Rotation Prepare PlanProofs PrepareProofs Apply.

Open Scope Z_scope.

(** ** Traces *)

Create HintDb trace.

(** Every run of [m] only appends to the history, and only requests in [P]. *)
Definition only {A} (P : Request → Prop) (m : M A) : Prop :=
  ∀ s, ∃ ext, exec_history (m s).1 = exec_history s ++ ext ∧ Forall (λ e, P e.1) ext.

Section only.
Context (P : Request → Prop).

Lemma only_ret {A} (a : A) : only P (mret a).
Proof. intros s. exists []. by rewrite app_nil_r. Qed.
Lemma only_fail {A} e : only P (fail e : M A).
Proof. intros s. exists []. by rewrite app_nil_r. Qed.
Lemma only_history : only P history.
Proof. intros s. exists []. by rewrite app_nil_r. Qed.
Lemma only_deployments : only P deployments.
Proof. intros s. exists []. by rewrite app_nil_r. Qed.
Lemma only_count_applied n : only P (count_applied n).
Proof. intros s. exists []. by rewrite app_nil_r. Qed.
Lemma only_count_current n : only P (count_current n).
Proof. intros s. exists []. by rewrite app_nil_r. Qed.
Lemma only_record_deployment r : only P (record_deployment r).
Proof. intros s. exists []. by rewrite app_nil_r. Qed.
Lemma only_record_stage i : only P (record_stage i).
Proof. intros s. exists []. by rewrite app_nil_r. Qed.
Lemma only_ask {A} request (answer : History → result A) : P request → only P (ask request answer).
Proof. intros Hp s. exists [(request, is_ok (answer (exec_history s)))]. split; [done|]. by repeat constructor. Qed.

Lemma only_bind {A B} (m : M A) (f : A → M B) : only P m → (∀ a, only P (f a)) → only P (m ≫= f).
Proof.
  intros Hm Hf s. destruct (Hm s) as (ext & E & Hext). unfold mbind, M_bind. destruct (m s) as [s1 [a|e]]; cbn [fst] in *; [|by exists ext].
  destruct (Hf a s1) as (ext' & E' & Hext'). exists (ext ++ ext'). by rewrite E', E, (assoc_L (++)), Forall_app.
Qed.

Lemma only_on_error {A} (m : M ()) (handle : string → M A) ok :
  only P m → (∀ e, only P (handle e)) → only P ok → only P (on_error m handle ok).
Proof.
  intros Hm Hh Ho s. destruct (Hm s) as (ext & E & Hext). unfold on_error. destruct (m s) as [s1 [[]|e]]; cbn [fst] in *;
    [destruct (Ho s1) as (ext' & E' & Hext')|destruct (Hh e s1) as (ext' & E' & Hext')];
    exists (ext ++ ext'); by rewrite E', E, (assoc_L (++)), Forall_app.
Qed.

Lemma only_for_each {A} (f : A → M ()) l : (∀ x, x ∈ l → only P (f x)) → only P (for_each f l).
Proof.
  induction l as [|x l IH]; intros Hf; cbn [for_each]; [apply only_ret|]. apply only_bind; [apply Hf; by left|].
  intros []. apply IH. intros y Hy. apply Hf. by right.
Qed.
End only.
#[export] Hint Resolve only_ret only_fail only_history only_deployments only_count_applied only_count_current
  only_record_deployment only_record_stage only_ask : trace.

(** Decompose a computation into its requests. *)
Ltac trace_only :=
  repeat match goal with
  | |- only _ (_ ≫= _) => apply only_bind
  | |- only _ (on_error _ _ _) => apply only_on_error
  | |- only _ (for_each _ _) => apply only_for_each
  | |- only _ (if ?c then _ else _) => destruct c
  | |- only _ (match ?c with _ => _ end) => destruct c
  | |- ∀ _, _ => intros ?
  | |- only _ _ => solve [eauto with trace]
  end.

Lemma only_weaken {A} (P Q : Request → Prop) (m : M A) : (∀ r, P r → Q r) → only P m → only Q m.
Proof. intros HPQ Hm s. destruct (Hm s) as (ext & E & Hext). exists ext. split; [done|]. eapply Forall_impl; [done|]. intros e. apply HPQ. Qed.

Lemma bind_ok_inv {A B} (m : M A) (f : A → M B) s s' b :
  (m ≫= f) s = (s', Ok b) → ∃ s1 a, m s = (s1, Ok a) ∧ f a s1 = (s', Ok b).
Proof. unfold mbind, M_bind. destruct (m s) as [s1 [a|e]]; [|done]. intros E. by exists s1, a. Qed.

(** ** Successful requests *)

Lemma ask_ok_inv {A} r (answer : History → result A) s s' a :
  ask r answer s = (s', Ok a) → s' = log r true s ∧ answer (exec_history s) = Ok a.
Proof. unfold ask. cbn zeta. destruct (answer (exec_history s)) as [b|e] eqn:E; [|done]. intros [= <- <-]. done. Qed.

(** [m] appends to the history of a run. *)
Definition extends (s s' : Execution) : Prop := ∃ ext, exec_history s' = exec_history s ++ ext.

#[export] Instance extends_preorder : PreOrder extends.
Proof.
  split; [intros s; exists []; by rewrite app_nil_r|]. intros s1 s2 s3 [x E] [y E']. exists (x ++ y). by rewrite E', E, (assoc_L (++)).
Qed.

Lemma only_extends {A} P (m : M A) s s' r : only P m → m s = (s', r) → extends s s'.
Proof. intros Hm E. destruct (Hm s) as (ext & Eh & _). exists ext. by rewrite E in Eh. Qed.

Lemma extends_elem s s' e : extends s s' → e ∈ exec_history s → e ∈ exec_history s'.
Proof. intros [ext ->] He. apply elem_of_app. by left. Qed.

(** A successful loop ran its body successfully on every element, in a state the
    final one extends. *)
Lemma for_each_ok {A} P (f : A → M ()) l s s' :
  (∀ x, only P (f x)) → for_each f l s = (s', Ok ()) →
  ∀ x, x ∈ l → ∃ s1 s2, extends s s1 ∧ f x s1 = (s2, Ok ()) ∧ extends s2 s'.
Proof.
  intros Hf. revert s. induction l as [|y l IH]; intros s E x Hx; [by apply not_elem_of_nil in Hx|].
  apply bind_ok_inv in E as (s1 & [] & E1 & E2). apply elem_of_cons in Hx as [->|Hx].
  - exists s, s1. split; [done|]. split; [done|]. eapply only_extends; [|exact E2]. apply only_for_each. eauto.
  - destruct (IH s1 E2 x Hx) as (t1 & t2 & H1' & H2' & H3'). exists t1, t2. split; [|done].
    etrans; [|exact H1']. by eapply only_extends.
Qed.

Lemma bind_run {A B} (m : M A) (f : A → M B) s s1 r :
  m s = (s1, r) → (m ≫= f) s = match r with Ok a => f a s1 | Err e => (s1, Err e) end.
Proof. unfold mbind, M_bind. intros ->. by destruct r. Qed.

Section apply.
Context (oracle : Oracle) (request : ApplyRequest).

(** ** Which requests a phase makes *)

Definition gates (name : string) (r : Request) : Prop := r = Gate name.
Definition anyGate (r : Request) : Prop := ∃ name, r = Gate name.

Lemma authorize_only item : only anyGate (authorize oracle request item).
Proof. unfold authorize. trace_only. apply only_ask. by eexists. Qed.

(** Requests that change no published root and no committed record. *)
Definition before_publication (r : Request) : Prop :=
  match r with Commit _ _ | Restore _ _ _ | CommitReceipts _ => False | _ => True end.

Lemma authorize_before item : only before_publication (authorize oracle request item).
Proof. eapply only_weaken; [|apply authorize_only]. by intros ? [? ->]. Qed.
Hint Resolve authorize_before : trace.

Lemma stageOnHosts_before prepared : only before_publication (stageOnHosts oracle request prepared).
Proof. unfold stageOnHosts, stageOnHost. trace_only; by apply only_ask. Qed.

Lemma ledgers_before prepared : only before_publication (commitPublicationLedgers oracle request prepared).
Proof. unfold commitPublicationLedgers, validateLedgers. cbn zeta. trace_only; by apply only_ask. Qed.

(** ** What a publication rests on *)

(** The ledgers of the plan are committed within [h], with the records of [item] prepared
    before that and checked against the commit after it; a plan whose ledgers an earlier
    run has committed finds that commit in a clean worktree instead. *)
Definition recordedIn (prepared : list applyRepository) (h : History) (item : applyRepository) : Prop :=
  if apply_ledgerCommitted request then
    ∃ before after, h = before ++ (PlanLedgerRevision, true) :: after ∧ (CleanGit, true) ∈ before ∧
      (ValidateLedger (nameOf item), true) ∈ after ∧ (PrepareRecords (nameOf item), true) ∈ after
  else
    ∃ before after, h = before ++ (CommitLedgers (nameOf <$> recording prepared), true) :: after ∧
      (PrepareRecords (nameOf item), true) ∈ before ∧ (ValidateLedger (nameOf item), true) ∈ after.

(** [item] is staged and its stage was verified, its records are in the committed ledgers,
    and its gate has answered, all within [h]. *)
Definition cleared (prepared : list applyRepository) (h : History) (item : applyRepository) : Prop :=
  (item_current item = false → (StageOn (nameOf item), true) ∈ h) ∧
  (item_current item = false → apply_StructuralOnly request = false → (VerifyStage (nameOf item), true) ∈ h) ∧
  (plan_PublicationRecords (item_planned item) = true → recordedIn prepared h item) ∧
  (isNoop item = false → repo_Gate (item_repository item) ≠ "auto" → (Gate (nameOf item), true) ∈ h).

(** The publication requests of an apply are its own: a commit is of a repository of
    the plan that is not current, over the revision the plan observed. *)
Definition planned_request (prepared : list applyRepository) (r : Request) : Prop :=
  match r with
  | Commit name expected =>
      ∃ item, item ∈ prepared ∧ item_current item = false ∧ name = nameOf item ∧
        expected = expectedRevisionFromPlan (item_planned item)
  | Restore name _ _ => name ∈ nameOf <$> prepared
  | _ => True
  end.

(** Every publication request of [h] comes after the clearance of the whole plan. *)
Definition guarded (prepared : list applyRepository) (h : History) : Prop :=
  ∀ pre e post, h = pre ++ e :: post → ¬ before_publication e.1 → Forall (cleared prepared pre) prepared ∧ planned_request prepared e.1.

Lemma guarded_before prepared h : Forall (λ e, before_publication e.1) h → guarded prepared h.
Proof.
  intros Hh pre e post -> He. destruct He. rewrite Forall_forall in Hh. apply Hh. apply elem_of_app. right. by left.
Qed.

Lemma recordedIn_app prepared h ext item : recordedIn prepared h item → recordedIn prepared (h ++ ext) item.
Proof.
  unfold recordedIn. destruct (apply_ledgerCommitted request); intros (before & after & -> & ?); exists before, (after ++ ext);
    rewrite <- (assoc_L (++)), !elem_of_app; naive_solver.
Qed.
Lemma cleared_app prepared h ext item : cleared prepared h item → cleared prepared (h ++ ext) item.
Proof. unfold cleared. intros (H1' & H2' & H3' & H4'). rewrite !elem_of_app. split_and!; eauto using recordedIn_app. Qed.

Lemma guarded_cleared prepared h ext :
  guarded prepared h → Forall (cleared prepared h) prepared → Forall (λ e, planned_request prepared e.1) ext → guarded prepared (h ++ ext).
Proof.
  intros Hg Hc Hext pre e post E He. apply app_eq_inv in E as [(k & E1 & E2)|(k & E1 & E2)].
  - destruct k as [|e' k]; cbn in E2.
    + rewrite app_nil_r in E1. subst. split; [done|]. by apply Forall_inv in Hext.
    + injection E2 as -> ->. by apply (Hg pre e' k).
  - subst. split; [eapply Forall_impl; [exact Hc|intros; by apply cleared_app]|].
    apply Forall_app in Hext as [_ Hext]. by apply Forall_inv in Hext.
Qed.

Lemma authorize_gated item s s' :
  authorize oracle request item s = (s', Ok ()) → isNoop item = false → repo_Gate (item_repository item) ≠ "auto" →
  (Gate (nameOf item), true) ∈ exec_history s'.
Proof.
  unfold authorize. intros E Hn Hg. rewrite Hn in E. apply bind_ok_inv in E as (s1 & h & [= <- <-] & E).
  destruct (negb _); [done|]. rewrite bool_decide_eq_false_2 in E by exact Hg. destruct (negb _); [done|].
  apply ask_ok_inv in E as [-> _]. cbn. apply elem_of_app. right. by left.
Qed.

Definition anyRequest (r : Request) : Prop := True.

Lemma stageOnHost_only item : only before_publication (stageOnHost oracle request item).
Proof. unfold stageOnHost. trace_only; by apply only_ask. Qed.

Lemma stageOnHost_ok item s s' :
  stageOnHost oracle request item s = (s', Ok ()) → item_current item = false →
  (StageOn (nameOf item), true) ∈ exec_history s' ∧
  (apply_StructuralOnly request = false → (VerifyStage (nameOf item), true) ∈ exec_history s').
Proof.
  unfold stageOnHost. intros E Hc. rewrite Hc in E. apply bind_ok_inv in E as (s0 & [] & _ & E). apply bind_ok_inv in E as (s1 & [] & _ & E).
  apply bind_ok_inv in E as (s2 & h & _ & E). cbn zeta in E. apply bind_ok_inv in E as (s3 & [] & _ & E).
  apply bind_ok_inv in E as (s4 & [] & E4 & E). apply ask_ok_inv in E4 as [-> _].
  split; [|intros Hs; rewrite Hs in E].
  - eapply (extends_elem (log (StageOn (nameOf item)) true s3)); [|cbn; apply elem_of_app; right; by left].
    refine (only_extends anyRequest _ _ _ _ _ E). trace_only; by apply only_ask.
  - repeat (destruct (bool_decide _) || destruct (negb _)); try done; apply ask_ok_inv in E as [-> _]; cbn; apply elem_of_app; right; by left.
Qed.

(** The run from [s] to [s'] has seen [e]. *)
Definition added (s s' : Execution) (e : Request * bool) : Prop := ∃ ext, exec_history s' = exec_history s ++ ext ∧ e ∈ ext.
Lemma added_elem s s' e : added s s' e → e ∈ exec_history s'.
Proof. intros (ext & -> & He). apply elem_of_app. by right. Qed.
Lemma added_extends s s1 s2 e : added s s1 e → extends s1 s2 → added s s2 e.
Proof. intros (ext & E & He) [ext' E']. exists (ext ++ ext'). rewrite E', E, (assoc_L (++)). split; [done|]. apply elem_of_app. by left. Qed.
Lemma extends_added s s1 s2 e : extends s s1 → added s1 s2 e → added s s2 e.
Proof. intros [ext E] (ext' & E' & He). exists (ext ++ ext'). rewrite E', E, (assoc_L (++)). split; [done|]. apply elem_of_app. by right. Qed.

(** The requests of a successful loop of single requests. *)
Lemma for_each_asked (name : applyRepository → Request) (answer : History → applyRepository → result ()) l s s' :
  for_each (λ item, ask (name item) (λ h, answer h item)) l s = (s', Ok ()) → ∀ item, item ∈ l → added s s' (name item, true).
Proof.
  intros E item Hi. destruct (for_each_ok anyRequest _ _ _ _ (λ x, only_ask anyRequest _ _ I) E item Hi) as (s1 & s2 & Hs & E1 & Hx).
  apply ask_ok_inv in E1 as [-> _]. eapply extends_added; [exact Hs|]. eapply added_extends; [|exact Hx]. eexists. split; [done|]. by left.
Qed.

Lemma recording_elem prepared item :
  item ∈ recording prepared ↔ item ∈ prepared ∧ plan_PublicationRecords (item_planned item) = true.
Proof. unfold recording. rewrite !list_elem_of_In, filter_In. done. Qed.

Lemma validateLedgers_ok revision prepared s s' :
  validateLedgers oracle revision prepared s = (s', Ok ()) → ∀ item, item ∈ recording prepared → added s s' (ValidateLedger (nameOf item), true).
Proof.
  intros E item Hi. apply bind_ok_inv in E as (s1 & [] & E1 & E). apply ask_ok_inv in E1 as [-> _].
  eapply extends_added; [|exact (for_each_asked _ (λ h item, ask_validateLedger oracle h revision item) _ _ _ E _ Hi)]. by eexists.
Qed.

Lemma validateLedgers_only revision prepared : only before_publication (validateLedgers oracle revision prepared).
Proof. unfold validateLedgers. trace_only; by apply only_ask. Qed.

Lemma prepareRecords_only prepared :
  only before_publication (for_each (λ item, ask (PrepareRecords (nameOf item)) (λ h, ask_prepareRecords oracle h item)) (recording prepared)).
Proof. trace_only. by apply only_ask. Qed.

Lemma ledgers_ok prepared s s' revision :
  commitPublicationLedgers oracle request prepared s = (s', Ok revision) →
  ∀ item, item ∈ recording prepared → recordedIn prepared (exec_history s') item.
Proof.
  unfold commitPublicationLedgers. cbn zeta. intros E item Hi.
  assert (Hne : bool_decide (nameOf <$> recording prepared = []) = false).
  { apply bool_decide_eq_false_2. intros En. apply fmap_nil_inv in En. rewrite En in Hi. by apply not_elem_of_nil in Hi. }
  rewrite Hne in E. unfold recordedIn. destruct (apply_ledgerCommitted request).
  - apply bind_ok_inv in E as (s1 & r1 & E1 & E). apply bind_ok_inv in E as (s2 & [] & E2 & E).
    apply bind_ok_inv in E2 as (s3 & r3 & E3 & E2). apply bind_ok_inv in E as (s4 & [] & E4 & [= <- _]).
    apply ask_ok_inv in E1 as [-> _]. apply ask_ok_inv in E3 as [-> _].
    pose proof (added_extends _ _ _ _ (validateLedgers_ok _ _ _ _ E2 item Hi) (only_extends _ _ _ _ _ (prepareRecords_only prepared) E4)) as (ext & Eh & Hv).
    destruct (extends_added _ _ _ _ (only_extends _ _ _ _ _ (validateLedgers_only _ prepared) E2) (for_each_asked _ (ask_prepareRecords oracle) _ _ _ E4 _ Hi)) as (ext' & Eh' & Hp).
    rewrite Eh in Eh'. apply app_inv_head in Eh' as <-. exists (exec_history s ++ [(CleanGit, true)]), ext. rewrite Eh. cbn. rewrite <- !(assoc_L (++)).
    split_and!; [done| |done..]. apply elem_of_app. right. by left.
  - apply bind_ok_inv in E as (s1 & [] & E1 & E). apply bind_ok_inv in E as (s2 & r2 & E2 & E).
    apply bind_ok_inv in E as (s3 & [] & E3 & [= <- _]). apply ask_ok_inv in E2 as [-> _].
    destruct (validateLedgers_ok _ _ _ _ E3 item Hi) as (ext & Eh & Hv). exists (exec_history s1), ext. rewrite Eh. cbn. rewrite <- (assoc_L (++)).
    split_and!; [done|exact (added_elem _ _ _ (for_each_asked _ (ask_prepareRecords oracle) _ _ _ E1 _ Hi))|done].
Qed.

(** ** The publication phase *)

Section publication.
Context (prepared : list applyRepository).

Lemma authorize_planned item : only (planned_request prepared) (authorize oracle request item).
Proof. eapply only_weaken; [|apply authorize_only]. by intros ? [? ->]. Qed.
Hint Resolve authorize_planned : trace.

Lemma restoreFailed_planned item reference expected :
  item ∈ prepared → only (planned_request prepared) (restoreFailedPublication oracle request item reference expected).
Proof. intros Hi. unfold restoreFailedPublication. trace_only. apply only_ask. by apply list_elem_of_fmap_2. Qed.

Lemma recordDeployment_planned item revision : only (planned_request prepared) (recordDeployment oracle request item revision).
Proof. unfold recordDeployment. trace_only. Qed.
Hint Resolve restoreFailed_planned recordDeployment_planned : trace.

Lemma publishOne_planned revision item : item ∈ prepared → only (planned_request prepared) (publishOne oracle request revision item).
Proof.
  intros Hi. unfold publishOne. destruct (item_current item) eqn:Hc.
  - unfold verifyCurrent. cbn zeta. trace_only; by apply only_ask.
  - unfold publish, restore, observeCommitted, probeCommitted. cbn zeta. trace_only; apply only_ask; try done. by exists item.
Qed.

Lemma publishAndRecord_planned revision : only (planned_request prepared) (publishAndRecord oracle request prepared revision).
Proof.
  unfold publishAndRecord, commitReceipts. apply only_bind; [trace_only; by apply only_ask|]. intros [].
  apply only_bind; [apply only_for_each; intros; by apply publishOne_planned|]. trace_only; by apply only_ask.
Qed.

Lemma abortStages_only items s :
  ∃ ext, exec_history (abortStages oracle items s) = exec_history s ++ ext ∧ Forall (λ e, ∃ name, e.1 = AbortStage name) ext.
Proof.
  revert s. induction items as [|item items IH]; intros s; cbn [abortStages]; [exists []; by rewrite app_nil_r|].
  edestruct IH as (ext & -> & Hext). eexists (_ :: ext). unfold ask. cbn. rewrite <- (assoc_L (++)). split; [done|].
  constructor; [by eexists|done].
Qed.

(** A computation whose every run leaves a guarded history. *)
Lemma guarded_abort h ext :
  guarded prepared h → Forall (λ e, ∃ name, e.1 = AbortStage name) ext → guarded prepared (h ++ ext).
Proof.
  intros Hg Hext pre e post E He. apply app_eq_inv in E as [(k & E1 & E2)|(k & E1 & E2)].
  - destruct k as [|e' k]; cbn in E2; [|injection E2 as -> ->; by apply (Hg pre e' k)].
    subst. apply Forall_inv in Hext as [name Hn]. destruct He. by rewrite Hn.
  - subst. apply Forall_app in Hext as [_ Hext]. apply Forall_inv in Hext as [name Hn]. destruct He. by rewrite Hn.
Qed.

(** The first phases request nothing that publishes, whatever happens. *)
Definition unpublished (s : Execution) : Prop := Forall (λ e, before_publication e.1) (exec_history s).

Lemma before_unpublished {A} (m : M A) s : only before_publication m → unpublished s → unpublished (m s).1.
Proof. intros Hm Hs. unfold unpublished. destruct (Hm s) as (ext & -> & Hext). by apply Forall_app. Qed.

(** What has cleared the plan once its ledgers are committed. *)
Lemma cleared_by_phases s0 s1 s2 s3 s4 revision :
  for_each (authorize oracle request) prepared s0 = (s1, Ok ()) →
  stageOnHosts oracle request prepared s1 = (s2, Ok ()) → extends s2 s3 →
  commitPublicationLedgers oracle request prepared s3 = (s4, Ok revision) →
  Forall (cleared prepared (exec_history s4)) prepared.
Proof.
  intros E1 E2 Hx E4. assert (H24 : extends s2 s4) by (etrans; [exact Hx|exact (only_extends _ _ _ _ _ (ledgers_before _) E4)]).
  assert (H14 : extends s1 s4) by (etrans; [exact (only_extends _ _ _ _ _ (stageOnHosts_before _) E2)|done]).
  apply Forall_forall. intros item Hi. split; [|split; [|split]].
  - intros Hc. destruct (for_each_ok _ _ _ _ _ stageOnHost_only E2 item Hi) as (t1 & t2 & _ & E & Ht).
    apply stageOnHost_ok in E as [E _]; [|done]. eapply extends_elem; [|exact E]. by etrans.
  - intros Hc Hs. destruct (for_each_ok _ _ _ _ _ stageOnHost_only E2 item Hi) as (t1 & t2 & _ & E & Ht).
    apply stageOnHost_ok in E as [_ E]; [|done]. eapply extends_elem; [|exact (E Hs)]. by etrans.
  - intros Hr. apply (ledgers_ok _ _ _ _ E4). by apply recording_elem.
  - intros Hn Hg. destruct (for_each_ok _ _ _ _ _ authorize_only E1 item Hi) as (t1 & t2 & _ & E & Ht).
    eapply extends_elem; [|exact (authorize_gated _ _ _ E Hn Hg)]. by etrans.
Qed.

Lemma stageAndPublish_guarded s0 s1 :
  for_each (authorize oracle request) prepared s0 = (s1, Ok ()) → unpublished s1 →
  guarded prepared (exec_history (stageAndPublish oracle request prepared s1).1).
Proof.
  intros E1 Hu. unfold stageAndPublish, mbind at 1, M_bind at 1.
  pose proof (before_unpublished _ _ (stageOnHosts_before prepared) Hu) as Hu2.
  destruct (stageOnHosts oracle request prepared s1) as [s2 [[]|e]] eqn:E2; cbn [fst] in *; [|by apply guarded_before].
  set (reauthorize := if apply_ledgerCommitted request then _ else _).
  assert (Hr : only before_publication reauthorize) by (unfold reauthorize; trace_only).
  unfold mbind at 1, M_bind at 1. pose proof (before_unpublished _ _ Hr Hu2) as Hu3.
  destruct (reauthorize s2) as [s3 [[]|e]] eqn:E3; cbn [fst] in *; [|by apply guarded_before].
  unfold mbind at 1, M_bind at 1. pose proof (before_unpublished _ _ (ledgers_before prepared) Hu3) as Hu4.
  destruct (commitPublicationLedgers oracle request prepared s3) as [s4 [revision|e]] eqn:E4; cbn [fst] in *; [|by apply guarded_before].
  destruct (publishAndRecord_planned revision s4) as (ext & -> & Hext). apply guarded_cleared; [by apply guarded_before| |done].
  eapply cleared_by_phases; [done..|exact (only_extends _ _ _ _ _ Hr E3)|done].
Qed.


End publication.

(** ** Counters *)

(** A computation that keeps a part of the state. *)
Definition keeps {A B} (f : Execution → B) (m : M A) : Prop := ∀ s, f (m s).1 = f s.

Lemma keeps_bind {A B C} (f : Execution → C) (m : M A) (k : A → M B) : keeps f m → (∀ a, keeps f (k a)) → keeps f (m ≫= k).
Proof.
  intros Hm Hk s. unfold mbind, M_bind. specialize (Hm s). destruct (m s) as [s1 [a|e]]; [|done]. cbn [fst] in Hm. by rewrite Hk.
Qed.
Lemma keeps_for_each {A C} (f : Execution → C) (k : A → M ()) l : (∀ x, keeps f (k x)) → keeps f (for_each k l).
Proof. intros Hk. induction l as [|x l IH]; [by intros s|]. by apply keeps_bind. Qed.

(** The counters and the records; and the stages with them. *)
Definition counters (s : Execution) : Z * Z * list DeploymentRecord := (exec_Applied s, exec_Current s, exec_deployments s).
Definition bookkeeping (s : Execution) : Z * Z * list DeploymentRecord * list applyRepository := (counters s, exec_stages s).

Ltac keeps :=
  repeat match goal with
  | |- keeps _ (_ ≫= _) => apply keeps_bind
  | |- keeps _ (for_each _ _) => apply keeps_for_each
  | |- keeps _ (if ?c then _ else _) => destruct c
  | |- ∀ _, _ => intros ?
  | |- keeps _ _ => solve [done | by intros ? | eauto with trace]
  end.

Lemma authorize_keeps item : keeps bookkeeping (authorize oracle request item).
Proof. unfold authorize. keeps. Qed.

(** A dry run has no effect: whatever happens, its only requests are to the gates, no
    deployment is recorded, and when it succeeds it reports every repository of the plan
    exactly once, as one that would be applied or as one that is current. *)
Theorem dry_apply_has_no_effect prepared :
  apply_DryRun request = true →
  let '(final, r) := ApplyWorkspace oracle request prepared started in
  Forall (λ e, anyGate e.1) (exec_history final) ∧ exec_deployments final = [] ∧ exec_stages final = [] ∧
  match r with
  | Ok _ =>
      exec_Applied final = Z.of_nat (length (List.filter (λ item, negb (item_current item)) prepared)) ∧
      exec_Applied final + exec_Current final = Z.of_nat (length prepared)
  | Err _ => exec_Applied final = 0 ∧ exec_Current final = 0
  end.
Proof.
  intros Hd. assert (Ha : only anyGate (for_each (authorize oracle request) prepared)) by (apply only_for_each; intros; apply authorize_only).
  pose proof (keeps_for_each _ _ prepared authorize_keeps started) as Hq. destruct (Ha started) as (ext & Hext & Hg).
  unfold ApplyWorkspace, dryRunResult. rewrite Hd. unfold mbind, M_bind. destruct (for_each _ prepared started) as [s1 [[]|e]]; cbn in *;
    injection Hq as E1 E2 E3 E4; rewrite ?Hext, ?E1, ?E2, ?E3, ?E4; (split; [done|]); (split; [done|]); (split; [done|]); [lia|done].
Qed.

(** ** The publication of one repository *)

Definition is_committed (e : Request * bool) : bool := match e with (Commit _ _, true) => true | _ => false end.
Definition is_restored (e : Request * bool) : bool := match e with (Restore _ _ _, true) => true | _ => false end.
Definition occurrences (f : Request * bool → bool) (h : History) : Z := Z.of_nat (length (List.filter f h)).

Lemma occurrences_app f h1 h2 : occurrences f (h1 ++ h2) = occurrences f h1 + occurrences f h2.
Proof. unfold occurrences. rewrite List.filter_app, length_app. lia. Qed.

Lemma occurrences_gates f h : (∀ name ok, f (Gate name, ok) = false) → Forall (λ e, anyGate e.1) h → occurrences f h = 0.
Proof.
  intros Hf. unfold occurrences. induction 1 as [|[r ok] h [name Hr] _ IH]; [done|]. cbn in Hr |- *. subst r. by rewrite Hf.
Qed.

Section authorization.
Context (item : applyRepository).

(** What an authorization asks from the history [h] on, and whether it passes: a no-op
    needs none; the plan must not have expired; "auto" needs no gate; any other gate must
    be there and agree. *)
Inductive authorizes (h : History) : History → bool → Prop :=
| unneeded : isNoop item = true → authorizes h [] true
| expired : isNoop item = false → apply_expiresAt request ≤ ask_now oracle h → authorizes h [] false
| automatic : isNoop item = false → ask_now oracle h < apply_expiresAt request → repo_Gate (item_repository item) = "auto" → authorizes h [] true
| ungated : isNoop item = false → ask_now oracle h < apply_expiresAt request → repo_Gate (item_repository item) ≠ "auto" →
    apply_HasGates request = false → authorizes h [] false
| gated : isNoop item = false → ask_now oracle h < apply_expiresAt request → repo_Gate (item_repository item) ≠ "auto" →
    apply_HasGates request = true → authorizes h [(Gate (nameOf item), is_ok (ask_gate oracle h item))] (is_ok (ask_gate oracle h item)).

Lemma authorize_run s :
  ∃ g r, authorize oracle request item s =
    (mkExecution (exec_history s ++ g) (exec_Applied s) (exec_Current s) (exec_deployments s) (exec_stages s), r) ∧
    authorizes (exec_history s) g (is_ok r).
Proof.
  unfold authorize. destruct s as [h a c d st]. destruct (isNoop item) eqn:En; [exists [], (Ok ()); rewrite app_nil_r; by split; [|constructor]|].
  unfold mbind, M_bind, history. cbn [exec_history]. destruct (ask_now oracle h <? apply_expiresAt request) eqn:Ex; cbn [negb].
  2:{ eexists [], (Err _). rewrite app_nil_r. split; [done|]. apply expired; [done|]. by apply Z.ltb_ge. }
  apply Z.ltb_lt in Ex. case_bool_decide as Eg; [exists [], (Ok ()); rewrite app_nil_r; by split; [|apply automatic]|].
  destruct (apply_HasGates request) eqn:Eh; cbn [negb]; [|eexists [], (Err _); rewrite app_nil_r; by split; [|apply ungated]].
  unfold ask, log. cbn. eexists _, _. split; [done|]. by apply gated.
Qed.

Lemma authorizes_gates h g ok : authorizes h g ok → Forall (λ e, anyGate e.1) g.
Proof. destruct 1; repeat constructor. by eexists. Qed.
End authorization.

Section outcome.
Context (revision : string) (item : applyRepository).

Definition expectedOf : ExpectedRevision := expectedRevisionFromPlan (item_planned item).

(** The receipt of a publication, written when the history is [h]. *)
Definition receiptOf (native : string) (h : History) : DeploymentRecord :=
  deploymentRecordFor (apply_FormatRFC3339 request) (item_planned item) (item_deployment item) (item_observed item)
    (item_signingState item) native (apply_PlanID request) (apply_CreatedAt request) (ask_now oracle h).

(** Requests of a publication that neither commit nor restore. *)
Definition harmless (e : Request * bool) : Prop :=
  is_committed e = false ∧ match e.1 with Restore _ _ _ | CommitReceipts _ => False | _ => True end.

Definition commitEvent : Request * bool := (Commit (nameOf item) expectedOf, true).

(** What the checks after a commit ask, and how they fail, from the history [h] on: the
    observation fails, or it is not of what was committed, or the client probe fails. *)
Definition checked : History :=
  (Observe (nameOf item), true) :: (if apply_StructuralOnly request then [] else [(Probe (nameOf item), true)]).
Inductive failedCheck (h : History) (committed : CommitResult) : History → Prop :=
| failed_observation : is_ok (ask_observe oracle h item) = false → failedCheck h committed [(Observe (nameOf item), false)]
| failed_comparison canonical : ask_observe oracle h item = Ok canonical → observationDiffers item committed canonical = true →
    failedCheck h committed [(Observe (nameOf item), true)]
| failed_probe canonical : ask_observe oracle h item = Ok canonical → observationDiffers item committed canonical = false →
    apply_StructuralOnly request = false → failedCheck h committed [(Observe (nameOf item), true); (Probe (nameOf item), false)].
Definition agrees (h : History) (committed : CommitResult) : Prop :=
  ∃ canonical, ask_observe oracle h item = Ok canonical ∧ observationDiffers item committed canonical = false.

(** The requests before a commit: the head is the planned one and the publication is authorized. *)
Definition readied (h pre : History) : Prop :=
  ∃ gates, pre = (AssertHead (nameOf item), true) :: gates ∧ authorizes item (h ++ [(AssertHead (nameOf item), true)]) gates true.

(** The host acknowledged the commit at the end of [h]. *)
Definition acknowledged (h : History) (committed : CommitResult) : Prop := ask_commit oracle h item expectedOf = Ok committed.

(** The ways a publication ends, from the history [h]: its requests, the change of the
    number of applied repositories, its receipts and its result. *)
Inductive PublishOutcome (h : History) : History → Z → list DeploymentRecord → result () → Prop :=
| HeadRefused e : PublishOutcome h [(AssertHead (nameOf item), false)] 0 [] (Err e)
| Unauthorized gates e :
    authorizes item (h ++ [(AssertHead (nameOf item), true)]) gates false →
    PublishOutcome h ((AssertHead (nameOf item), true) :: gates) 0 [] (Err e)
| CommitRefused pre e :
    readied h pre → PublishOutcome h (pre ++ [(Commit (nameOf item) expectedOf, false)]) 0 [] (Err e)
| Published pre committed :
    readied h pre → acknowledged (h ++ pre) committed → agrees (h ++ pre ++ [commitEvent]) committed →
    PublishOutcome h (pre ++ commitEvent :: checked ++ [(AssertHead (nameOf item), true)]) 1
      [receiptOf (rev_NativeRevision (com_Revision committed)) (h ++ pre ++ commitEvent :: checked ++ [(AssertHead (nameOf item), true)])]
      (Ok ())
| HeadMoved pre committed e :
    readied h pre → acknowledged (h ++ pre) committed → agrees (h ++ pre ++ [commitEvent]) committed →
    PublishOutcome h (pre ++ commitEvent :: checked ++ [(AssertHead (nameOf item), false)]) 1 [] (Err e)
| Unrestorable pre committed checks e :
    readied h pre → acknowledged (h ++ pre) committed → failedCheck (h ++ pre ++ [commitEvent]) committed checks →
    com_RestoreRef committed = None → PublishOutcome h (pre ++ commitEvent :: checks) 1 [] (Err e)
| RestoreRefused pre committed checks reference gates e :
    readied h pre → acknowledged (h ++ pre) committed → failedCheck (h ++ pre ++ [commitEvent]) committed checks →
    com_RestoreRef committed = Some reference → authorizes item (h ++ pre ++ commitEvent :: checks) gates false →
    PublishOutcome h (pre ++ commitEvent :: checks ++ gates) 1 [] (Err e)
| RestoreAsked pre committed checks reference gates ok e :
    readied h pre → acknowledged (h ++ pre) committed → failedCheck (h ++ pre ++ [commitEvent]) committed checks →
    com_RestoreRef committed = Some reference → authorizes item (h ++ pre ++ commitEvent :: checks) gates true →
    PublishOutcome h
      (pre ++ commitEvent :: checks ++ gates ++
         [(Restore (nameOf item) reference (expectedRevisionFromPublished (com_Revision committed)), ok)])
      (if ok then 0 else 1) [] (Err e).

Lemma gates_harmless h g ok : authorizes item h g ok → Forall harmless g.
Proof. intros Hg%authorizes_gates. eapply Forall_impl; [exact Hg|]. intros [r b] [name Hr]. cbn in Hr. by subst r. Qed.
Lemma readied_harmless h pre : readied h pre → Forall harmless pre.
Proof. intros (gates & -> & Hg). constructor; [done|]. by eapply gates_harmless. Qed.

(** The state after an outcome. *)
Definition after (s : Execution) (ext : History) (delta : Z) (records : list DeploymentRecord) : Execution :=
  mkExecution (exec_history s ++ ext) (exec_Applied s + delta) (exec_Current s) (exec_deployments s ++ records) (exec_stages s).

(** Compensation: the outcome of a failed check. *)
Lemma restore_outcome s s1 pre committed checks e :
  readied (exec_history s) pre → acknowledged (exec_history s ++ pre) committed →
  failedCheck (exec_history s ++ pre ++ [commitEvent]) committed checks → s1 = after s (pre ++ commitEvent :: checks) 1 [] →
  ∃ ext delta records, PublishOutcome (exec_history s) ext delta records (restore oracle request item committed e s1).2 ∧
    (restore oracle request item committed e s1).1 = after s ext delta records.
Proof.
  intros Hp Hk Hc ->. unfold restore. destruct (com_RestoreRef committed) as [reference|] eqn:Er.
  2:{ exists (pre ++ commitEvent :: checks), 1, []. split; [by eapply Unrestorable|done]. }
  unfold restoreFailedPublication, mbind, M_bind. edestruct (authorize_run item) as (g & r & -> & Hg). destruct r as [[]|e'].
  2:{ exists (pre ++ commitEvent :: checks ++ g), 1, []. split; [by eapply RestoreRefused|]. unfold after. cbn. f_equal. by rewrite <- !(assoc_L (++)). }
  unfold ask. cbn [exec_history log]. set (answer := ask_restore oracle _ _ _ _).
  exists (pre ++ commitEvent :: checks ++ g ++ [(Restore (nameOf item) reference (expectedRevisionFromPublished (com_Revision committed)), is_ok answer)]),
    (if is_ok answer then 0 else 1), [].
  split; [destruct answer; by eapply RestoreAsked|]. destruct answer; unfold after, log; cbn; f_equal; try lia; by rewrite <- !(assoc_L (++)).
Qed.

Lemma harmless_counts f ext : (∀ e, harmless e → f e = false) → Forall harmless ext → occurrences f ext = 0.
Proof. intros Hf. unfold occurrences. induction 1 as [|e ext He _ IH]; [done|]. cbn. by rewrite Hf. Qed.

Lemma harmless_committed e : harmless e → is_committed e = false.
Proof. by intros [? _]. Qed.
Lemma harmless_restored e : harmless e → is_restored e = false.
Proof. destruct e as [[] []]; by intros [_ ?]. Qed.

(** The reported change is the commits less the restores. *)
Lemma outcome_accounts h ext delta records r :
  PublishOutcome h ext delta records r → delta = occurrences is_committed ext - occurrences is_restored ext.
Proof.
  assert (Hc : ∀ h committed checks, failedCheck h committed checks → Forall harmless checks) by (intros ? ? ? []; by repeat constructor).
  assert (Hk : Forall harmless checked) by (unfold checked; destruct (apply_StructuralOnly request); by repeat constructor).
  assert (E0 : ∀ l, Forall harmless l → occurrences is_committed l = 0 ∧ occurrences is_restored l = 0).
  { intros l Hl. split; by apply harmless_counts; [apply harmless_committed || apply harmless_restored|]. }
  assert (Ec : ∀ e l, occurrences is_committed (e :: l) = (if is_committed e then 1 else 0) + occurrences is_committed l).
  { intros e l. unfold occurrences. cbn. destruct (is_committed e); cbn [length]; lia. }
  assert (Er : ∀ e l, occurrences is_restored (e :: l) = (if is_restored e then 1 else 0) + occurrences is_restored l).
  { intros e l. unfold occurrences. cbn. destruct (is_restored e); cbn [length]; lia. }
  assert (En : occurrences is_committed [] = 0 ∧ occurrences is_restored [] = 0) by done. destruct En as [En1 En2].
  destruct (E0 _ Hk) as [Ek1 Ek2].
  destruct 1; repeat match goal with
    | X : readied _ _ |- _ => apply readied_harmless in X
    | X : authorizes _ _ _ _ |- _ => apply gates_harmless in X
    | X : failedCheck _ _ _ |- _ => apply Hc in X
    | X : Forall harmless _ |- _ => apply E0 in X as [? ?]
    | |- context [if ?b then _ else _] => is_var b; destruct b
    end; rewrite ?occurrences_app, ?Ec, ?Er, ?occurrences_app, ?Ec, ?Er; cbn [is_committed is_restored commitEvent]; lia.
Qed.

Lemma observeCommitted_run committed s :
  agrees (exec_history s) committed ∧ observeCommitted oracle item committed s = (log (Observe (nameOf item)) true s, Ok ()) ∨
  ∃ ok e, failedCheck (exec_history s) committed [(Observe (nameOf item), ok)] ∧
    observeCommitted oracle item committed s = (log (Observe (nameOf item)) ok s, Err e).
Proof.
  unfold observeCommitted, mbind, M_bind, ask. destruct (ask_observe oracle (exec_history s) item) as [canonical|e] eqn:E.
  2:{ right. eexists _, _. split; [|done]. apply failed_observation. by rewrite E. }
  destruct (observationDiffers item committed canonical) eqn:Ed; [right; eexists _, _; split; [by eapply failed_comparison|done]|].
  left. split; [by exists canonical|done].
Qed.

Lemma probeCommitted_run s :
  apply_StructuralOnly request = false →
  probeCommitted oracle request item s = (log (Probe (nameOf item)) true s, Ok ()) ∨
  (∃ e, probeCommitted oracle request item s = (log (Probe (nameOf item)) false s, Err e)).
Proof. unfold probeCommitted, ask. intros ->. destruct (ask_probe _ _ item) as [[]|e]; [by left|right; by exists e]. Qed.

Lemma after_log s ext delta records r ok : log r ok (after s ext delta records) = after s (ext ++ [(r, ok)]) delta records.
Proof. unfold log, after. cbn. by rewrite <- (assoc_L (++)). Qed.

Lemma recorded_outcome s pre committed :
  let s1 := after s (pre ++ commitEvent :: checked) 1 [] in
  let run := (_ ← ask (AssertHead (nameOf item)) (λ h, ask_head oracle h revision);
              recordDeployment oracle request item (rev_NativeRevision (com_Revision committed))) s1 in
  readied (exec_history s) pre → acknowledged (exec_history s ++ pre) committed → agrees (exec_history s ++ pre ++ [commitEvent]) committed →
  ∃ ext delta records, PublishOutcome (exec_history s) ext delta records run.2 ∧ run.1 = after s ext delta records.
Proof.
  cbn zeta. intros Hp Hk Ho. unfold mbind, M_bind, ask. destruct (ask_head _ _ revision) as [[]|e]; rewrite after_log; cbn [is_ok].
  - eexists _, _, _. split; [by eapply Published|]. unfold recordDeployment, record_deployment, mbind, M_bind, history, after. cbn.
    rewrite app_nil_r. f_equal; [by rewrite <- !(assoc_L (++))|]. do 3 f_equal. unfold receiptOf. f_equal. by rewrite <- !(assoc_L (++)).
  - eexists _, _, _. split; [by eapply HeadMoved|]. cbn. f_equal. by rewrite <- !(assoc_L (++)).
Qed.

(** The checks after a commit. *)
Lemma committed_outcome s pre committed :
  let s1 := after s (pre ++ [commitEvent]) 1 [] in
  let run := on_error (observeCommitted oracle item committed) (restore oracle request item committed)
    (on_error (probeCommitted oracle request item) (restore oracle request item committed)
       (_ ← ask (AssertHead (nameOf item)) (λ h, ask_head oracle h revision);
        recordDeployment oracle request item (rev_NativeRevision (com_Revision committed)))) s1 in
  readied (exec_history s) pre → acknowledged (exec_history s ++ pre) committed →
  ∃ ext delta records, PublishOutcome (exec_history s) ext delta records run.2 ∧ run.1 = after s ext delta records.
Proof.
  cbn zeta. intros Hp Hk. unfold on_error at 1 2 3 4. edestruct observeCommitted_run as [(Ho & ->)|(ok & e & Hf & ->)]; rewrite after_log, <- (assoc_L (++)).
  2:{ by eapply restore_outcome. }
  pose proof (recorded_outcome s pre committed) as Hr. unfold checked in Hr. cbn zeta in Hr.
  destruct (apply_StructuralOnly request) eqn:Hs; [unfold probeCommitted; rewrite Hs; by apply Hr|].
  edestruct probeCommitted_run as [->|[e ->]]; [done| |]; rewrite after_log, <- (assoc_L (++)); [by apply Hr|].
  destruct Ho as (canonical & Ho & Hd). eapply restore_outcome; [done..| |done]. by eapply failed_probe.
Qed.

Lemma publish_outcome s :
  ∃ ext delta records,
    PublishOutcome (exec_history s) ext delta records (publish oracle request revision item s).2 ∧
    (publish oracle request revision item s).1 = after s ext delta records.
Proof.
  unfold publish. cbn zeta. rewrite (bind_run _ _ _ _ _ eq_refl). destruct (ask_head oracle (exec_history s) revision) as [[]|e]; cbn [is_ok].
  2:{ exists [(AssertHead (nameOf item), false)], 0, []. split; [apply HeadRefused|]. unfold after, log. cbn. by rewrite Z.add_0_r, app_nil_r. }
  edestruct (authorize_run item) as (g & r & Ea & Hg). rewrite (bind_run _ _ _ _ _ Ea). clear Ea.
  cbn [exec_history log exec_Applied exec_Current exec_deployments exec_stages].
  set (pre := (AssertHead (nameOf item), true) :: g).
  rewrite <- (assoc_L (++)). change ([(AssertHead (nameOf item), true)] ++ g) with pre.
  destruct r as [[]|e]; [|exists pre, 0, []; split; [by apply Unauthorized|]; unfold after; cbn; by rewrite Z.add_0_r, app_nil_r].
  assert (Hp : readied (exec_history s) pre) by by exists g.
  rewrite (bind_run _ _ _ _ _ eq_refl). cbn [exec_history].
  destruct (ask_commit oracle (exec_history s ++ pre) item (expectedRevisionFromPlan (item_planned item))) as [committed|e] eqn:Ec; cbn [is_ok].
  2:{ exists (pre ++ [(Commit (nameOf item) expectedOf, false)]), 0, []. split; [by apply CommitRefused|].
      unfold after, log. cbn. by rewrite Z.add_0_r, app_nil_r, <- (assoc_L (++)). }
  rewrite (bind_run _ _ _ _ _ eq_refl).
  match goal with |- context [on_error _ _ _ ?st] => replace st with (after s (pre ++ [commitEvent]) 1 []) end; [by apply committed_outcome|].
  unfold after, log. cbn. by rewrite app_nil_r, <- (assoc_L (++)).
Qed.

(** C3: Publishing one repository, on every branch: from any state, with any answers, a
    publication ends in one of the outcomes of [PublishOutcome], and no other.  Either
    nothing was committed, because the workspace head had moved, the publication was not
    authorized or the host refused the commit; or the host acknowledged the commit over
    the planned revision, the observation after it agrees with the commit, the client
    probe passed (unless the apply is structural) and the workspace head has not moved,
    and then exactly one receipt is recorded; or the head has moved since, and none is; or
    the observation or the probe failed, and then a restore from the commit's own
    reference, over the committed revision, is requested at once, unless the host gave no
    reference or that restore is not authorized: the plan has expired, or its gate is
    missing or refuses.  The number of applied repositories moves by the commits less the
    restores the host acknowledged, in every case. *)
Theorem publish_refines s :
  let '(s', r) := publish oracle request revision item s in
  ∃ ext delta records,
    PublishOutcome (exec_history s) ext delta records r ∧ s' = after s ext delta records ∧
    delta = occurrences is_committed ext - occurrences is_restored ext.
Proof.
  destruct (publish_outcome s) as (ext & delta & records & Ho & Ea). destruct (publish oracle request revision item s) as [s' r].
  exists ext, delta, records. split; [done|]. split; [done|]. by eapply outcome_accounts.
Qed.
End outcome.

(** ** A whole apply *)

(** The commits and the restores a history has seen succeed. *)
Definition commitsOf (h : History) : list (string * ExpectedRevision) :=
  omap (λ e, match e with (Commit name expected, true) => Some (name, expected) | _ => None end) h.
Definition restoresOf (h : History) : list string :=
  omap (λ e, match e with (Restore name _ _, true) => Some name | _ => None end) h.
Definition receiptsOf (h : History) : list (list DeploymentRecord * bool) :=
  omap (λ e, match e with (CommitReceipts records, ok) => Some (records, ok) | _ => None end) h.

(** The publications of a plan, and the receipts it owes: one for each repository that
    the plan changes or that is current without the plan having foreseen it. *)
Definition publicationsOf (items : list applyRepository) : list (string * ExpectedRevision) :=
  (λ item, (nameOf item, expectedOf item)) <$> List.filter (λ item, negb (item_current item)) items.
Definition owedReceipts (items : list applyRepository) : list (string * string) :=
  (λ item, (nameOf item, plan_DesiredTreeSHA256 (item_planned item))) <$> List.filter (λ item, negb (item_current item && isNoop item)) items.
Definition receiptNames (records : list DeploymentRecord) : list (string * string) :=
  (λ record, (dep_Repository record, dep_TreeSHA256 record)) <$> records.

(** [s'] is [s] with [items] published. *)
Definition advanced (items : list applyRepository) (s s' : Execution) : Prop :=
  ∃ ext, exec_history s' = exec_history s ++ ext ∧ commitsOf ext = publicationsOf items ∧ restoresOf ext = [] ∧ receiptsOf ext = [] ∧
    exec_Applied s' = exec_Applied s + Z.of_nat (length (List.filter (λ item, negb (item_current item)) items)) ∧
    exec_Current s' = exec_Current s + Z.of_nat (length (List.filter item_current items)) ∧
    receiptNames (exec_deployments s') = receiptNames (exec_deployments s) ++ owedReceipts items.

Lemma advanced_cons item items s s1 s' : advanced [item] s s1 → advanced items s1 s' → advanced (item :: items) s s'.
Proof.
  intros (x & E1 & C1 & R1 & P1 & A1 & U1 & D1) (y & E2 & C2 & R2 & P2 & A2 & U2 & D2). exists (x ++ y).
  unfold commitsOf, restoresOf, receiptsOf in *. rewrite !omap_app, C1, C2, R1, R2, P1, P2, E2, E1, A2, A1, U2, U1, D2, D1, <- !(assoc_L (++)).
  split; [done|]. unfold publicationsOf, owedReceipts. cbn [List.filter].
  destruct (item_current item); destruct (isNoop item); cbn; repeat (split; [done || lia|]); done || lia.
Qed.

Lemma harmless_silent ext : Forall harmless ext → commitsOf ext = [] ∧ restoresOf ext = [] ∧ receiptsOf ext = [].
Proof.
  induction 1 as [|e ext He _ (IH1 & IH2 & IH3)]; [done|]. unfold commitsOf, restoresOf, receiptsOf in *. cbn.
  rewrite IH1, IH2, IH3. destruct e as [[] []]; destruct He; done.
Qed.

Lemma publish_advances revision item s s' :
  item_current item = false → publish oracle request revision item s = (s', Ok ()) → advanced [item] s s'.
Proof.
  intros Hc E. destruct (publish_outcome revision item s) as (ext & delta & records & Ho & Ea). rewrite E in Ho, Ea. cbn in Ho, Ea. subst s'.
  inversion Ho as [| | |pre committed Hp Hk Hob| | | |]; subst. apply readied_harmless in Hp. eexists. split; [done|].
  assert (Hx : Forall harmless (checked item ++ [(AssertHead (nameOf item), true)])).
  { unfold checked. destruct (apply_StructuralOnly request); by repeat constructor. }
  apply harmless_silent in Hp as (C1 & R1 & P1), Hx as (C2 & R2 & P2). unfold commitsOf, restoresOf, receiptsOf in *.
  rewrite !omap_app. cbn [omap list_omap commitEvent]. rewrite C1, C2, R1, R2, P1, P2.
  unfold publicationsOf, owedReceipts, receiptNames. cbn [List.filter]. rewrite Hc. cbn. rewrite fmap_app. repeat (split; [done || lia|]). done.
Qed.

(** What [verifyCurrent] leaves when it succeeds. *)
Lemma verifyCurrent_advances item s s' :
  item_current item = true → verifyCurrent oracle request item s = (s', Ok ()) → advanced [item] s s'.
Proof.
  intros Hc. unfold verifyCurrent. cbn zeta. rewrite (bind_run _ _ _ _ _ eq_refl).
  set (s1 := mkExecution _ _ _ _ _). set (record := if isNoop item then _ else _).
  assert (Hr : ∀ t ext, Forall harmless ext → exec_history t = exec_history s ++ ext → counters t = counters s1 →
    record t = (s', Ok ()) → advanced [item] s s').
  { intros t ext Hx Et Hk E. apply harmless_silent in Hx as (C & R & P). exists ext. rewrite C, R, P.
    injection Hk as K1 K2 K3. unfold record in E. unfold publicationsOf, owedReceipts, receiptNames. cbn [List.filter]. rewrite Hc.
    destruct (isNoop item); injection E as <-; cbn; rewrite ?K1, ?K2, ?K3, ?Et, ?fmap_app, ?app_nil_r; cbn; repeat (split; [done || lia|]); done. }
  destruct (apply_StructuralOnly request || isNoop item); [intros E; apply (Hr s1 []); by rewrite ?app_nil_r|].
  rewrite (bind_run _ _ _ _ _ eq_refl). destruct (ask_readAccess _ _ item) as [[]|e]; [|done]. unfold on_error, ask at 1.
  destruct (ask_probe _ _ item) as [[]|e]; cbn [is_ok].
  - intros E. eapply Hr; [| | |exact E]; cbn; [|by rewrite <- (assoc_L (++))|done]. by repeat constructor.
  - destruct (bool_decide _); [done|]. intros E. apply bind_ok_inv in E as (t1 & [] & _ & E). by apply bind_ok_inv in E as (t2 & [] & _ & E).
Qed.

Lemma publishAll_advances revision items s s' :
  for_each (publishOne oracle request revision) items s = (s', Ok ()) → advanced items s s'.
Proof.
  revert s. induction items as [|item items IH]; intros s E.
  - injection E as <-. exists []. rewrite !app_nil_r. cbn. repeat (split; [done || lia|]). done.
  - apply bind_ok_inv in E as (s1 & [] & E1 & E2). eapply advanced_cons; [|by apply IH]. unfold publishOne in E1.
    destruct (item_current item) eqn:Hc; [by apply verifyCurrent_advances|by eapply publish_advances].
Qed.

Definition receiptless (r : Request) : Prop := match r with CommitReceipts _ => False | _ => True end.

Lemma authorize_receiptless item : only receiptless (authorize oracle request item).
Proof. eapply only_weaken; [|apply authorize_only]. by intros ? [? ->]. Qed.
Hint Resolve authorize_receiptless : trace.

Lemma publishOne_receiptless revision item : only receiptless (publishOne oracle request revision item).
Proof.
  unfold publishOne, verifyCurrent, publish, restore, restoreFailedPublication, observeCommitted, probeCommitted, recordDeployment.
  cbn zeta. trace_only; by apply only_ask.
Qed.

Lemma receiptless_receipts ext : Forall (λ e, receiptless e.1) ext → receiptsOf ext = [].
Proof. unfold receiptsOf. induction 1 as [|[[] ok] ext He _ IH]; by cbn. Qed.

Lemma before_harmless ext : Forall (λ e, before_publication e.1) ext → Forall harmless ext.
Proof. intros Hx. eapply Forall_impl; [exact Hx|]. by intros [[] ok]. Qed.

Lemma authorize_counters item : keeps counters (authorize oracle request item).
Proof. intros s. pose proof (authorize_keeps item s) as [= E1 E2 E3 E4]. unfold counters. by rewrite E1, E2, E3. Qed.
Hint Resolve authorize_counters : trace.

Lemma counters_before prepared :
  keeps counters (stageOnHosts oracle request prepared) ∧ keeps counters (commitPublicationLedgers oracle request prepared).
Proof.
  split; [unfold stageOnHosts, stageOnHost|unfold commitPublicationLedgers, validateLedgers; cbn zeta]; keeps.
Qed.

(** The books of an apply at its end: either no receipt was requested and it failed, or
    the receipts were requested once, for a plan published in full. *)
Definition settled (prepared : list applyRepository) (s : Execution) (r : result ()) : Prop :=
  (receiptsOf (exec_history s) = [] ∧ is_ok r = false) ∨
  (receiptsOf (exec_history s) = [(exec_deployments s, is_ok r)] ∧
   receiptNames (exec_deployments s) = owedReceipts prepared ∧
   commitsOf (exec_history s) = publicationsOf prepared ∧ restoresOf (exec_history s) = [] ∧
   exec_Applied s = Z.of_nat (length (List.filter (λ item, negb (item_current item)) prepared)) ∧
   exec_Current s = Z.of_nat (length (List.filter item_current prepared))).

Definition idle (s : Execution) : Prop := Forall (λ e, before_publication e.1) (exec_history s) ∧ counters s = (0, 0, []).

Lemma idle_run {A} (m : M A) s : only before_publication m → keeps counters m → idle s → idle (m s).1.
Proof. intros Hm Hk [Hb Hc]. split; [by apply before_unpublished|by rewrite Hk]. Qed.

Lemma idle_unsettled prepared s e : idle s → settled prepared s (Err e).
Proof. intros [Hb _]. left. split; [|done]. by apply before_harmless, harmless_silent in Hb as (_ & _ & ?). Qed.

Lemma idle_ask {A} r (answer : History → result A) s : before_publication r → idle s → idle (ask r answer s).1.
Proof. intros Hr. apply idle_run; [by apply only_ask|by intros ?]. Qed.

(** The publications and the receipts of a cleared plan. *)
Lemma publishAndRecord_settled prepared revision s :
  idle s → settled prepared (publishAndRecord oracle request prepared revision s).1 (publishAndRecord oracle request prepared revision s).2.
Proof.
  intros Hi. unfold publishAndRecord. set (lock := if existsb _ _ then _ else _).
  assert (Hl : idle (lock s).1) by (unfold lock; destruct (existsb _ _); by apply idle_ask).
  destruct (lock s) as [s1 r1] eqn:E1. rewrite (bind_run _ _ _ _ _ E1). destruct r1 as [[]|e]; [|by apply idle_unsettled]. cbn [fst] in Hl.
  destruct (for_each (publishOne oracle request revision) prepared s1) as [s2 r2] eqn:E2. rewrite (bind_run _ _ _ _ _ E2).
  destruct Hl as [Hb Hc]. apply before_harmless, harmless_silent in Hb as (C1 & R1 & P1). destruct r2 as [[]|e].
  2:{ assert (Ho : only receiptless (for_each (publishOne oracle request revision) prepared)) by (apply only_for_each; intros; apply publishOne_receiptless).
      destruct (Ho s1) as (ext & Ex & Hext). rewrite E2 in Ex. cbn in Ex. left. cbn. rewrite Ex. split; [|done].
      pose proof (receiptless_receipts ext Hext) as Hx. unfold receiptsOf in *. by rewrite omap_app, P1, Hx. }
  apply publishAll_advances in E2 as (ext & Ex & C2 & R2 & P2 & A2 & U2 & D2). unfold commitsOf, restoresOf, receiptsOf in *.
  injection Hc as K1 K2 K3. rewrite K1 in A2. rewrite K2 in U2. rewrite K3 in D2.
  rewrite (bind_run _ _ _ _ _ eq_refl). destruct (ask_beforeReceipts oracle (exec_history s2)) as [[]|e].
  2:{ left. unfold receiptsOf. cbn. rewrite !omap_app, Ex, omap_app, P1, P2. done. }
  unfold commitReceipts. rewrite (bind_run _ _ _ _ _ eq_refl), (bind_run _ _ _ _ _ eq_refl). cbn [exec_history log exec_deployments].
  unfold settled, commitsOf, restoresOf, receiptsOf. right.
  destruct (ask_receipts _ _ _) as [rev|e]; cbn; rewrite !omap_app, Ex, !omap_app, C1, C2, R1, R2, P1, P2; cbn; rewrite ?app_nil_r; done.
Qed.

Lemma stageAndPublish_settled prepared s :
  idle s → settled prepared (stageAndPublish oracle request prepared s).1 (stageAndPublish oracle request prepared s).2.
Proof.
  intros Hi. destruct (counters_before prepared) as [Ks Kl]. unfold stageAndPublish.
  pose proof (idle_run _ _ (stageOnHosts_before prepared) Ks Hi) as Hi1.
  destruct (stageOnHosts oracle request prepared s) as [s1 r1] eqn:E1. rewrite (bind_run _ _ _ _ _ E1). destruct r1 as [[]|e]; [|by apply idle_unsettled].
  set (reauthorize := if apply_ledgerCommitted request then _ else _).
  assert (Hr : only before_publication reauthorize) by (unfold reauthorize; trace_only).
  assert (Kr : keeps counters reauthorize) by (unfold reauthorize; keeps).
  pose proof (idle_run _ _ Hr Kr Hi1) as Hi2. cbn [fst] in Hi2.
  destruct (reauthorize s1) as [s2 r2] eqn:E2. rewrite (bind_run _ _ _ _ _ E2). destruct r2 as [[]|e]; [|by apply idle_unsettled].
  pose proof (idle_run _ _ (ledgers_before prepared) Kl Hi2) as Hi3. cbn [fst] in Hi3.
  destruct (commitPublicationLedgers oracle request prepared s2) as [s3 r3] eqn:E3. rewrite (bind_run _ _ _ _ _ E3).
  destruct r3 as [revision|e]; [by apply publishAndRecord_settled|by apply idle_unsettled].
Qed.

Lemma aborts_settled prepared items s r : settled prepared s r → settled prepared (abortStages oracle items s) r.
Proof.
  revert s. induction items as [|item items IH]; intros s Hs; [done|]. apply IH. unfold settled, commitsOf, restoresOf, receiptsOf in *. cbn.
  rewrite !omap_app. cbn. by rewrite !app_nil_r.
Qed.

(** C15: Receipts are committed only for a plan published in full.  In every run of an apply
    that is not a dry run, either no receipt commit was requested and the apply failed, or
    exactly one was, with one receipt, in plan order, for each repository the plan changed
    or found current without having planned a no-op; and then the host acknowledged
    exactly one commit per repository that was not current, in plan order, each over its
    planned revision, none was restored, and the reported numbers are those of the plan.
    The apply succeeds exactly when that receipt commit does. *)
Theorem receipts_after_whole_plan prepared :
  apply_DryRun request = false →
  let '(final, r) := ApplyWorkspace oracle request prepared started in settled prepared final r.
Proof.
  intros Hd. assert (Ha : only before_publication (for_each (authorize oracle request) prepared)) by trace_only.
  assert (Ka : keeps counters (for_each (authorize oracle request) prepared)) by keeps.
  assert (Hi : idle started) by (split; [constructor|done]). pose proof (idle_run _ _ Ha Ka Hi) as Hi1.
  unfold ApplyWorkspace. destruct (for_each _ prepared started) as [s1 r1] eqn:E1. rewrite (bind_run _ _ _ _ _ E1), Hd.
  destruct r1 as [[]|e]; [|by apply idle_unsettled]. unfold deferAbort. cbn [fst] in Hi1.
  pose proof (stageAndPublish_settled prepared s1 Hi1) as Hs. destruct (stageAndPublish oracle request prepared s1) as [s2 r2].
  by apply aborts_settled.
Qed.
End apply.

(** ** Completion *)

(** Hosts, forges, Git and clients that answer every request with success, before the
    plan expires, and hosts that serve what they acknowledged. *)
Class Cooperative (oracle : Oracle) (request : ApplyRequest) (prepared : list applyRepository) : Prop := {
  coop_now h : ask_now oracle h < apply_expiresAt request;
  coop_gates : apply_HasGates request = true;
  coop_gate h item : ask_gate oracle h item = Ok ();
  coop_stagedFiles h item : ask_stagedFiles oracle h item = Ok ();
  coop_stage h item : (ask_stage oracle h item).2 = Ok ();
  coop_staged h item : ask_verifyStaged oracle h item = Ok ();
  coop_endpoint h item : ask_verifyEndpoint oracle h item = Ok ();
  coop_cleanGit h : is_ok (ask_cleanGit oracle h) = true;
  coop_planLedger h : is_ok (ask_planLedgerRevision oracle h) = true;
  coop_ledgerPaths h revision : ask_ledgerPaths oracle h revision = Ok ();
  coop_validateLedger h revision item : ask_validateLedger oracle h revision item = Ok ();
  coop_prepareRecords h item : ask_prepareRecords oracle h item = Ok ();
  coop_commitLedgers h names : is_ok (ask_commitLedgers oracle h names) = true;
  coop_lockGit h revision : ask_lockGit oracle h revision = Ok ();
  coop_assertRevision h revision : ask_assertRevision oracle h revision = Ok ();
  coop_head h revision : ask_head oracle h revision = Ok ();
  coop_commit h item expected : is_ok (ask_commit oracle h item expected) = true;
  (** What is observed after a commit is what that commit answered. *)
  coop_observe h name expected item committed : item ∈ prepared → ask_commit oracle h item expected = Ok committed →
    ∃ canonical, ask_observe oracle (h ++ [(Commit name expected, true)]) item = Ok canonical ∧
      observationDiffers item committed canonical = false;
  coop_readAccess h item : ask_readAccess oracle h item = Ok ();
  coop_probe h item : ask_probe oracle h item = Ok ();
  coop_beforeReceipts h : ask_beforeReceipts oracle h = Ok ();
  coop_receipts h records : is_ok (ask_receipts oracle h records) = true;
  coop_supported item : item ∈ prepared → hostTypeOf item ≠ "local" →
    RemoteClientVerification (Supports (hostTypeOf item) (repo_Format (item_repository item))) = true;
}.

(** Every run of [m] returns a value. *)
Definition returns {A} (m : M A) : Prop := ∀ s, ∃ s' a, m s = (s', Ok a).

Lemma returns_bind {A B} (m : M A) (f : A → M B) : returns m → (∀ a, returns (f a)) → returns (m ≫= f).
Proof. intros Hm Hf s. destruct (Hm s) as (s1 & a & E). rewrite (bind_run _ _ _ _ _ E). apply Hf. Qed.
Lemma returns_ask {A} r (answer : History → result A) : (∀ h, is_ok (answer h) = true) → returns (ask r answer).
Proof. intros Ha s. unfold ask. specialize (Ha (exec_history s)). destruct (answer _) as [a|]; [by eexists _, a|done]. Qed.
Lemma returns_for_each {A} (f : A → M ()) l : (∀ x, x ∈ l → returns (f x)) → returns (for_each f l).
Proof.
  induction l as [|x l IH]; intros Hf; [by intros s; eexists _, _|]. apply returns_bind; [apply Hf; by left|].
  intros _. apply IH. intros y Hy. apply Hf. by right.
Qed.
Lemma returns_ok_on_error {A} (m : M ()) handle (ok : M A) : returns m → returns ok → returns (on_error m handle ok).
Proof. intros Hm Ho s. unfold on_error. destruct (Hm s) as (s1 & [] & ->). apply Ho. Qed.

(** Decompose a computation every request of which succeeds. *)
Ltac returns :=
  repeat match goal with
  | |- returns (_ ≫= _) => apply returns_bind
  | |- returns (on_error _ _ _) => apply returns_ok_on_error
  | |- returns (for_each _ _) => apply returns_for_each
  | |- returns (ask _ _) => apply returns_ask; intros ?
  | |- returns (if ?c then _ else _) => destruct c eqn:?
  | |- ∀ _, _ => intros ?
  | |- returns (mret _) => by intros ?; eexists _, _
  | |- returns _ => solve [eauto with trace | by intros ?; eexists _, _]
  end.

Section completion.
Context (oracle : Oracle) (request : ApplyRequest) (prepared : list applyRepository) `{!Cooperative oracle request prepared}.

Lemma authorize_returns item : returns (authorize oracle request item).
Proof.
  unfold authorize. destruct (isNoop item); [by intros s; eexists _, _|]. intros s. rewrite (bind_run _ _ _ _ _ eq_refl).
  rewrite (proj2 (Z.ltb_lt _ _) (coop_now _)), coop_gates. cbn [negb]. destruct (bool_decide _); [by eexists _, _|].
  apply returns_ask. intros h. by rewrite coop_gate.
Qed.
Hint Resolve authorize_returns : trace.

Lemma publish_returns revision item : item ∈ prepared → returns (publish oracle request revision item).
Proof.
  intros Hi. unfold publish. cbn zeta. apply returns_bind; [apply returns_ask; intros h; by rewrite coop_head|]. intros _.
  apply returns_bind; [apply authorize_returns|]. intros _ s. pose proof (coop_commit (exec_history s) item (expectedRevisionFromPlan (item_planned item))) as Hc.
  rewrite (bind_run _ _ _ _ _ eq_refl). destruct (ask_commit _ _ item _) as [committed|] eqn:Ec; [|done].
  rewrite (bind_run _ _ _ _ _ eq_refl). edestruct (coop_observe (exec_history s) (nameOf item)) as (canonical & Eo & Ed); [done..|].
  unfold on_error at 1, observeCommitted. erewrite bind_run; [|unfold ask; cbn; rewrite Eo; reflexivity]. cbv beta iota. rewrite Ed. unfold mret at 1, M_ret at 1. cbv beta iota.
  match goal with |- ∃ s' a, ?m ?t = _ => enough (returns m) as Hm by apply Hm end.
  unfold probeCommitted, recordDeployment. returns; by rewrite ?coop_probe, ?coop_head.
Qed.

Lemma verifyCurrent_returns item : returns (verifyCurrent oracle request item).
Proof. unfold verifyCurrent, recordDeployment. cbn zeta. returns; by rewrite ?coop_readAccess, ?coop_probe. Qed.

Lemma stageOnHost_returns item : item ∈ prepared → returns (stageOnHost oracle request item).
Proof.
  intros Hi. unfold stageOnHost. returns; rewrite ?coop_stagedFiles, ?coop_stage, ?coop_staged, ?coop_endpoint; try done.
  pose proof (coop_supported item Hi) as Hs. rewrite bool_decide_eq_false in *. by rewrite Hs in *.
Qed.

Lemma ledgers_return : returns (commitPublicationLedgers oracle request prepared).
Proof.
  unfold commitPublicationLedgers, validateLedgers. cbn zeta. returns;
    rewrite ?coop_prepareRecords, ?coop_ledgerPaths, ?coop_validateLedger, ?coop_cleanGit, ?coop_planLedger, ?coop_commitLedgers; done.
Qed.

Lemma publishAndRecord_returns revision : returns (publishAndRecord oracle request prepared revision).
Proof.
  unfold publishAndRecord, publishOne, commitReceipts.
  returns; rewrite ?coop_lockGit, ?coop_assertRevision, ?coop_beforeReceipts, ?coop_receipts; try done;
    eauto using verifyCurrent_returns, publish_returns.
Qed.

(** C28: An apply completes: when the hosts, the forges, Git and the clients answer every
    request with success before the plan expires, and each host serves what it
    acknowledged, an apply of any prepared plan, of any size, returns success. *)
Theorem apply_completes : is_ok (ApplyWorkspace oracle request prepared started).2 = true.
Proof.
  enough (returns (ApplyWorkspace oracle request prepared)) as Hr by (destruct (Hr started) as (s' & [] & E); by rewrite E).
  assert (Hs : returns (stageAndPublish oracle request prepared)).
  { unfold stageAndPublish, stageOnHosts. returns; eauto using stageOnHost_returns, ledgers_return, publishAndRecord_returns. }
  unfold ApplyWorkspace, dryRunResult. returns. intros s. unfold deferAbort. destruct (Hs s) as (s' & [] & ->). by eexists _, _.
Qed.
End completion.

(** ** An apply of one repository *)

Module ApplyExample.
Import PlanChecks PrepareExample.

Definition committed : CommitResult := mkCommitResult served "public/apt" None.

(** Everything answers as it should: the host acknowledges the commit and serves it. *)
Definition oracle : Oracle := {|
  ask_now _ := 2; ask_gate _ _ := Ok (); ask_stagedFiles _ _ := Ok (); ask_stage _ _ := (mkStaged "stage" "", Ok ()); ask_verifyStaged _ _ := Ok ();
  ask_verifyEndpoint _ _ := Ok (); ask_cleanGit _ := Ok "rev"; ask_planLedgerRevision _ := Ok "rev"; ask_ledgerPaths _ _ := Ok ();
  ask_validateLedger _ _ _ := Ok (); ask_prepareRecords _ _ := Ok (); ask_commitLedgers _ _ := Ok "rev"; ask_lockGit _ _ := Ok ();
  ask_assertRevision _ _ := Ok (); ask_head _ _ := Ok (); ask_commit _ _ _ := Ok committed; ask_observe _ _ := Ok served;
  ask_readAccess _ _ := Ok (); ask_probe _ _ := Ok (); ask_restore _ _ _ _ := Ok served; ask_beforeReceipts _ := Ok ();
  ask_receipts _ _ := Ok "rev"; ask_abort _ _ := Ok () |}.
Definition request (dry : bool) : ApplyRequest := mkApplyRequest "plan" "t" "rev" 10 false true dry false (λ _, "t").

Definition plan_history : History := exec_history (ApplyWorkspace oracle (request false) [item] started).1.


Lemma dry_apply_has_no_effect_witness :
  exec_deployments (ApplyWorkspace oracle (request true) [item] started).1 = [] ∧
  exec_Applied (ApplyWorkspace oracle (request true) [item] started).1 = 1.
Proof.
  split; [|vm_compute; reflexivity].
  pose proof (dry_apply_has_no_effect oracle (request true) [item] eq_refl) as Hd.
  destruct (ApplyWorkspace oracle (request true) [item] started) as [final r]. exact (proj1 (proj2 Hd)).
Defined.

Lemma receipts_after_whole_plan_witness :
  settled [item] (ApplyWorkspace oracle (request false) [item] started).1 (ApplyWorkspace oracle (request false) [item] started).2 ∧
  is_ok (ApplyWorkspace oracle (request false) [item] started).2 = true.
Proof.
  split; [|vm_compute; reflexivity]. pose proof (receipts_after_whole_plan oracle (request false) [item] eq_refl) as Hs.
  destruct (ApplyWorkspace oracle (request false) [item] started) as [final r]. exact Hs.
Defined.

#[local] Instance cooperative dry : Cooperative oracle (request dry) [item].
Proof.
  split; try done.
  - intros h name expected i committed' ->%list_elem_of_singleton [= <-]. exists served. split; [done|]. vm_compute. reflexivity.
  - intros i ->%list_elem_of_singleton Hl. by destruct Hl.
Qed.

Lemma apply_completes_witness : is_ok (ApplyWorkspace oracle (request false) [item] started).2 = true.
Proof. exact (apply_completes oracle (request false) [item]). Defined.
End ApplyExample.
