(* ===== verification/S3Store.v ===== *)
(** The object store an S3 repository is published through: the objects and the
    conditional requests of [adapters/host/s3/objects.go], and the client of
    [adapters/host/s3/aws.go] over the requests of the AWS SDK.

    A bucket is shared: before each request anything may have happened to it
    ([interfere]), and a request may be lost, or take effect without its answer
    arriving ([fault]).  A computation of the adapter is a function of the [World],
    which is the bucket, the number of requests so far and the list of the writes
    the computation itself has made, each with the object it found and the one it
    left.  The order in which a loop over objects makes its requests is that of the
    indices; the code runs several of them at a time. *)

From S2P Require Import Prelude GoStrings GoSlices Model JsonStrict PlanJson Host.

Open Scope Z_scope.

(** ** Objects *)

Record Object := mkObject {
  obj_Body : string; obj_ETag : string; obj_SHA256 : string; obj_Metadata : gmap string string;
}.
#[export] Instance Object_eq_dec : EqDecision Object.
Proof. solve_decision. Defined.

Definition Bucket := gmap string Object.

Record ObjectInfo := mkInfo { info_ETag : string; info_Size : Z; info_SHA256 : string; info_Metadata : gmap string string }.

(** The lookup of a Go map of strings. *)
Definition meta (metadata : gmap string string) (key : string) : string := default "" (metadata !! key).

Record Conditions := mkConditions { IfMatch : string; IfNoneMatch : bool }.
Definition unconditional : Conditions := mkConditions "" false.

(** A request to write [put_Body]; its size is that of the body. *)
Record PutRequest := mkPut {
  put_Key : string; put_Body : string; put_SHA256 : string; put_Metadata : gmap string string; put_Conditions : Conditions;
}.

(** ** Errors *)

Inductive StoreError := ErrNotFound | ErrPrecondition | ErrOther.
#[export] Instance StoreError_eq_dec : EqDecision StoreError.
Proof. solve_decision. Defined.

Inductive ErrorKind := ErrorInvalidConfiguration | ErrorInfrastructure | ErrorStale | ErrorIndeterminate.

(** An error of the store as it is, or a [host.Error], with what it unwraps to. *)
Inductive S3Error :=
| StoreErr (e : StoreError)
| HostErr (kind : ErrorKind) (effectMayHaveOccurred : bool) (cause : option StoreError).

(** [errors.Is]. *)
Definition isError (e : S3Error) (target : StoreError) : bool :=
  match e with
  | StoreErr s => bool_decide (s = target)
  | HostErr _ _ cause => bool_decide (cause = Some target)
  end.
Definition causeOf (e : S3Error) : option StoreError := match e with StoreErr s => Some s | HostErr _ _ cause => cause end.
Definition effectMayHaveOccurred (e : S3Error) : bool := match e with StoreErr _ => false | HostErr _ effect _ => effect end.

Definition infrastructure (e : S3Error) : S3Error := HostErr ErrorInfrastructure false (causeOf e).
Definition invalid : S3Error := HostErr ErrorInvalidConfiguration false None.
Definition indeterminate : S3Error := HostErr ErrorIndeterminate false None.
Definition stale : S3Error := HostErr ErrorStale false None.

Inductive outcome (A : Type) := Done (a : A) | Raise (e : S3Error).
Arguments Done {A}.
Arguments Raise {A}.

(** ** The world *)

Inductive Fault := Answered | Lost | Unacknowledged.

(** What others do to the bucket and to the requests, by the number of requests made. *)
Record Outside := mkOutside {
  interfere : nat → Bucket → Bucket;
  fault : nat → Fault;
  (** The entity tag of the [n]th write. *)
  newETag : nat → string → string;
  (** How the store answers an [If-Match] on an absent object, and its deletion. *)
  matchAbsent : StoreError;
  deleteAbsent : outcome ();
  now : nat → Z;
  random : nat → option string;
}.

Record Write := mkWrite { write_key : string; write_before : option Object; write_after : option Object }.

Record World := mkWorld { world_bucket : Bucket; world_clock : nat; world_writes : list Write }.

Definition S3 (A : Type) : Type := World → World * outcome A.

#[export] Instance S3_ret : MRet S3 := λ A a w, (w, Done a).
#[export] Instance S3_bind : MBind S3 := λ A B f m w,
  match m w with
  | (w, Done a) => f a w
  | (w, Raise e) => (w, Raise e)
  end.

Definition raise {A} (e : S3Error) : S3 A := λ w, (w, Raise e).
(** The outcome of [m] as a value, for code that looks at the error. *)
Definition attempt {A} (m : S3 A) : S3 (outcome A) := λ w, let '(w, r) := m w in (w, Done r).
(** [if refused { return error }]. *)
Definition refuse_when (refused : bool) (e : S3Error) : S3 () := if refused then raise e else mret ().
Definition lift_option {A} (e : S3Error) (o : option A) : S3 A := match o with Some a => mret a | None => raise e end.

Fixpoint forEach {A} (f : A → S3 ()) (l : list A) : S3 () :=
  match l with
  | [] => mret ()
  | x :: l => _ ← f x; forEach f l
  end.

Section client.
Context `{HashLib} (o : Outside).

Definition currentTime : S3 Z := λ w, (w, Done (now o (world_clock w))).

(** The bucket as a request finds it. *)
Definition arrive (w : World) : World := mkWorld (interfere o (world_clock w) (world_bucket w)) (S (world_clock w)) (world_writes w).

Definition read {A} (f : Bucket → outcome A) : S3 A := λ w,
  let w' := arrive w in
  (w', match fault o (world_clock w) with Answered => f (world_bucket w') | _ => Raise (StoreErr ErrOther) end).

Definition store (key : string) (object : option Object) (w : World) : World :=
  mkWorld (partial_alter (λ _, object) key (world_bucket w)) (world_clock w)
    (world_writes w ++ [mkWrite key (world_bucket w !! key) object]).

(** A request that writes [key]: refused with an error, or leaving an object. *)
Definition write {A} (key : string) (f : nat → Bucket → StoreError + option Object * A) : S3 A := λ w,
  let w' := arrive w in
  match fault o (world_clock w), f (world_clock w) (world_bucket w') with
  | Lost, _ => (w', Raise (StoreErr ErrOther))
  | Answered, inl e => (w', Raise (StoreErr e))
  | Answered, inr (object, a) => (store key object w', Done a)
  | Unacknowledged, inl e => (w', Raise (StoreErr ErrOther))
  | Unacknowledged, inr (object, a) => (store key object w', Raise (StoreErr ErrOther))
  end.

Definition infoOf (object : Object) : ObjectInfo :=
  mkInfo (obj_ETag object) (Z.of_nat (String.length (obj_Body object))) (obj_SHA256 object) (obj_Metadata object).

Definition Head (key : string) : S3 ObjectInfo :=
  read (λ bucket, match bucket !! key with Some object => Done (infoOf object) | None => Raise (StoreErr ErrNotFound) end).

Definition Get (key : string) (maximum : Z) : S3 (string * ObjectInfo) :=
  read (λ bucket,
    match bucket !! key with
    | None => Raise (StoreErr ErrNotFound)
    | Some object =>
        let content := obj_Body object in
        if maximum <? Z.of_nat (String.length content) then Raise (StoreErr ErrOther)
        else Done (content, mkInfo (obj_ETag object) (Z.of_nat (String.length content)) (SHA256Hex content) (obj_Metadata object))
    end).

(** The conditions of a request, on the object it finds. *)
Definition conditionFails (conditions : Conditions) (existing : option Object) : option StoreError :=
  match existing with
  | Some object =>
      if IfNoneMatch conditions then Some ErrPrecondition
      else if negb (bool_decide (IfMatch conditions = "")) && negb (bool_decide (obj_ETag object = IfMatch conditions))
      then Some ErrPrecondition else None
  | None => if bool_decide (IfMatch conditions = "") then None else Some (matchAbsent o)
  end.

(** The store refuses a body that does not have the declared checksum. *)
Definition Put (request : PutRequest) : S3 ObjectInfo :=
  write (put_Key request) (λ n bucket,
    match conditionFails (put_Conditions request) (bucket !! put_Key request) with
    | Some e => inl e
    | None =>
        if negb (bool_decide (SHA256Hex (put_Body request) = put_SHA256 request)) then inl ErrOther
        else let object := mkObject (put_Body request) (newETag o n (put_Body request)) (put_SHA256 request) (put_Metadata request) in
             inr (Some object, infoOf object)
    end).

(** [CopyObject] conditional on the tag of the source and on the absence of the
    destination; the store computes the checksum of the copy. *)
Definition CopyObject (source sourceETag destination : string) : S3 string :=
  write destination (λ n bucket,
    match bucket !! source with
    | None => inl ErrNotFound
    | Some object =>
        if negb (bool_decide (obj_ETag object = sourceETag)) then inl ErrPrecondition
        else if bool_decide (is_Some (bucket !! destination)) then inl ErrPrecondition
        else let copy := mkObject (obj_Body object) (newETag o n (obj_Body object)) (SHA256Hex (obj_Body object)) (obj_Metadata object) in
             inr (Some copy, obj_ETag copy)
    end).

Definition set_ETag (etag : string) (info : ObjectInfo) : ObjectInfo :=
  mkInfo etag (info_Size info) (info_SHA256 info) (info_Metadata info).

Definition CopyCreate (source destination : string) (expectedSize : Z) (expectedSHA256 : string) : S3 ObjectInfo :=
  sourceInfo ← Head source;
  _ ← refuse_when (negb (info_Size sourceInfo =? expectedSize) || negb (bool_decide (info_SHA256 sourceInfo = expectedSHA256)) ||
                   negb (bool_decide (meta (info_Metadata sourceInfo) "sha256" = expectedSHA256))) (StoreErr ErrOther);
  etag ← CopyObject source (info_ETag sourceInfo) destination;
  stored ← Head destination;
  mret (set_ETag etag stored).

Definition Delete (key : string) (conditions : Conditions) : S3 () := λ w,
  let w' := arrive w in
  match fault o (world_clock w), world_bucket w' !! key with
  | Lost, _ => (w', Raise (StoreErr ErrOther))
  | Answered, None => (w', if bool_decide (IfMatch conditions = "") then deleteAbsent o else Raise (StoreErr (matchAbsent o)))
  | Unacknowledged, None => (w', Raise (StoreErr ErrOther))
  | f, Some object =>
      if negb (bool_decide (IfMatch conditions = "")) && negb (bool_decide (obj_ETag object = IfMatch conditions))
      then (w', Raise (StoreErr (match f with Answered => ErrPrecondition | _ => ErrOther end)))
      else (store key None w', match f with Answered => Done () | _ => Raise (StoreErr ErrOther) end)
  end.
End client.
