(* ===== verification/S3Keys.v ===== *)
(** What the S3 adapter publishes ([adapters/host/s3/s3.go]): the repository as the
    host sees it, the object keys, the descriptors it writes beside a publication
    with their encodings, the management manifest it checks, and the metadata that
    binds a root object to its publication.  Nothing here makes a request. *)

From stdpp Require Import pretty.
From S2P Require Import Prelude GoStrings GoSlices GoRegexp Model Formats Source JsonStrict PlanJson Manifest Host S3Store.

Open Scope Z_scope.

(** ** The repository *)

(** The fields of [host.Repository] the adapter reads.  The rewriter of the format
    takes the content of a root, the release directory and the annotation. *)
Record S3Repository := mkS3Repository {
  s3_Type : string; s3_Format : string; s3_Visibility : string; s3_ReadAuth : string; s3_CredentialBroker : string;
  s3_WorkspaceID : string; s3_HostIdentity : string; s3_Path : string; s3_Bucket : string; s3_CanonicalEndpoint : string;
  s3_Region : string; s3_Endpoint : string; s3_Prefix : string; s3_CommitPaths : list string;
  s3_RootRewriter : option (string → string → string → result string);
}.

Definition hasRewriter (repository : S3Repository) : bool := match s3_RootRewriter repository with Some _ => true | None => false end.

Record File := mkFile { file_Path : string; file_Size : Z; file_SHA256 : string }.
#[export] Instance File_eq_dec : EqDecision File.
Proof. solve_decision. Defined.

(** ** Object keys *)

Definition objectKey (repository : S3Repository) (name : string) : string :=
  if bool_decide (s3_Prefix repository = "") then Clean name
  else PathJoin [TrimByte "/" (s3_Prefix repository); name].

(** [listing.Filename] and [buildgraph.ManifestFilename]. *)
Definition listingFilename : string := "index.html".
Definition ManifestFilename : string := "snailmail.repository.json".

Definition browsablePageKey (repository : S3Repository) : string := objectKey repository listingFilename.
Definition stageKey (repository : S3Repository) (identifier name : string) : string :=
  objectKey repository (PathJoin [".snailmail"; "stages"; identifier; name]).
Definition stageDescriptorKey (repository : S3Repository) (identifier : string) : string :=
  objectKey repository (PathJoin [".snailmail"; "stages"; identifier; "stage.json"]).
Definition stagePointerKey (repository : S3Repository) (effectID : string) : string :=
  objectKey repository (PathJoin [".snailmail"; "stages"; "effects"; effectID +:+ ".json"]).
Definition releaseKey (repository : S3Repository) (treeSHA256 name : string) : string :=
  objectKey repository (PathJoin [".snailmail"; "releases"; treeSHA256; name]).
Definition releaseDescriptorKey (repository : S3Repository) (treeSHA256 : string) : string :=
  objectKey repository (PathJoin [".snailmail"; "releases"; treeSHA256; "release.json"]).
Definition publicationManifestKey (repository : S3Repository) (manifestSHA256 : string) : string :=
  objectKey repository (PathJoin [".snailmail"; "manifests"; manifestSHA256 +:+ ".json"]).
Definition restoreDescriptorKey (repository : S3Repository) (identifier : string) : string :=
  objectKey repository (PathJoin [".snailmail"; "restores"; identifier; "restore.json"]).
Definition restoreRootKey (repository : S3Repository) (identifier : string) : string :=
  objectKey repository (PathJoin [".snailmail"; "restores"; identifier; "root.html"]).
Definition commitLockKey (repository : S3Repository) : string := objectKey repository (PathJoin [".snailmail"; "commit.lock"]).

Definition snailmailOwned (name : string) : bool := bool_decide (name = listingFilename) || bool_decide (name = ManifestFilename).

Definition publishedFileKey (repository : S3Repository) (treeSHA256 rootPath name : string) : string :=
  if hasRewriter repository || bool_decide (name = rootPath) || snailmailOwned name then releaseKey repository treeSHA256 name
  else objectKey repository name.

(** ** Validation *)

(** A range over runes: an ASCII control character is a byte of its own. *)
Definition hasControl (value : string) : bool := negb (all_bytes (λ c, negb ((byte_val c <? 32) || (byte_val c =? 127))) value).

Definition changeIDPattern : re :=
  Cat (Chr is_lower) (Cat (Star (Chr (λ c, is_lower c || is_digit c || ascii_eqb "-" c)))
    (Cat (Byte ":") (Times 12 (Chr is_lower_hex)))).

Definition validChangeID (value : string) : bool := MatchFull changeIDPattern value.
Definition validIdentifier (value : string) : bool := ValidSHA256 value.

Definition maximumMetadataSize : Z := 16 * 2 ^ 20.
Definition maximumFiles : Z := 20000.
Definition maximumTreeBytes : Z := 4 * 2 ^ 30.
Definition maximumListingSize : Z := 16 * 2 ^ 20.

Definition validFile (file : File) : bool :=
  negb (bool_decide (file_Path file = "") || bool_decide (file_Path file = ".") ||
        (1024 <? Z.of_nat (String.length (file_Path file))) || HasPrefix (file_Path file) "/" ||
        negb (bool_decide (Clean (file_Path file) = file_Path file)) || HasPrefix (file_Path file) "../" ||
        mem_byte "\" (file_Path file) || (file_Size file <? 0) || negb (ValidSHA256 (file_SHA256 file))).

Section adapter.
Context `{NetLib, TimeLib}.

Definition httpURL (value : string) : bool :=
  negb (hasControl value) &&
  match ParseURL value with
  | Some parsed =>
      (bool_decide (Scheme parsed = "http") || bool_decide (Scheme parsed = "https")) && negb (bool_decide (Source.Host parsed = "")) &&
      negb (HasUser parsed) && bool_decide (RawQuery parsed = "") && bool_decide (Fragment parsed = "")
  | None => false
  end.

Definition secureURL (value : string) : bool :=
  match ParseURL value with
  | Some parsed => bool_decide (Scheme parsed = "https") || (bool_decide (Scheme parsed = "http") && isLoopbackHost (Hostname parsed))
  | None => false
  end.

(** [broker] says whether the adapter has a credential broker. *)
Definition validateRepository (broker : bool) (repository : S3Repository) : bool :=
  let prefix := TrimByte "/" (s3_Prefix repository) in
  let private := bool_decide (s3_Visibility repository = "private") in
  bool_decide (s3_Type repository = "s3") && Publish (Supports (s3_Type repository) (s3_Format repository)) &&
  (bool_decide (s3_Visibility repository = "public") || private) &&
  negb (private && (negb (bool_decide (s3_ReadAuth repository = "basic")) || bool_decide (s3_CredentialBroker repository = ""))) &&
  negb (private && (negb (ValidSHA256 (s3_WorkspaceID repository)) || negb (ValidSHA256 (s3_HostIdentity repository)))) &&
  negb (negb (bool_decide (s3_Path repository = "")) || bool_decide (s3_Bucket repository = "") ||
        bool_decide (s3_CanonicalEndpoint repository = "")) &&
  negb (hasControl (s3_Bucket repository) || hasControl (s3_Region repository)) &&
  negb (negb (bool_decide (prefix = s3_Prefix repository)) || mem_byte "\" prefix || hasControl prefix ||
        (negb (bool_decide (prefix = "")) && (negb (bool_decide (Clean prefix = prefix)) || HasPrefix prefix "../"))) &&
  httpURL (s3_CanonicalEndpoint repository) && secureURL (s3_CanonicalEndpoint repository) &&
  (bool_decide (s3_Endpoint repository = "") || (httpURL (s3_Endpoint repository) && secureURL (s3_Endpoint repository))) &&
  negb (private && negb broker).
End adapter.

Definition singleRootPath (repository : S3Repository) : option string :=
  match s3_CommitPaths repository with [path] => Some path | _ => None end.

(** ** Descriptors *)

Record publicationDescriptor := mkDescriptor {
  desc_PlanID : string; desc_ChangeID : string; desc_TreeSHA256 : string; desc_Files : list File; desc_CommitPaths : list string;
}.
#[export] Instance publicationDescriptor_eq_dec : EqDecision publicationDescriptor.
Proof. solve_decision. Defined.

Record releaseDescriptor := mkRelease { rel_TreeSHA256 : string; rel_Files : list File; rel_CommitPaths : list string }.
#[export] Instance releaseDescriptor_eq_dec : EqDecision releaseDescriptor.
Proof. solve_decision. Defined.

Record stagePointer := mkPointer { pointer_ID : string; pointer_DescriptorSHA256 : string }.

Record rootBinding := mkBinding {
  bind_TreeSHA256 : string; bind_PlanID : string; bind_ChangeID : string; bind_ReleaseSHA256 : string; bind_ManifestSHA256 : string;
  bind_RestoreID : string; bind_RestoreSHA256 : string; bind_RestoreRootSHA256 : string;
}.

Record restoreDescriptor := mkRestore {
  res_PlanID : string; res_ChangeID : string; res_AfterTreeSHA256 : string; res_RootExisted : bool;
  res_BeforeTreeSHA256 : string; res_BeforePlanID : string; res_BeforeChangeID : string; res_BeforeMetadata : gmap string string;
}.

(** The management manifest of a publication ([internal/buildgraph]). *)
Record VerificationCase := mkCase { case_Project : string; case_Package : string; case_Version : string; case_Architecture : string }.
#[export] Instance VerificationCase_eq_dec : EqDecision VerificationCase.
Proof. solve_decision. Defined.
Record InstallSpec := mkInstall {
  install_Kind : string; install_IndexPath : string; install_Suite : string; install_Component : string; install_Architectures : list string;
  install_SigningKeyPath : string; install_SigningFingerprint : string; install_TrustedSigningFingerprints : list string;
}.
#[export] Instance InstallSpec_eq_dec : EqDecision InstallSpec.
Proof. solve_decision. Defined.
Record Signature := mkSignature {
  sig_Path : string; sig_Scheme : string; sig_Fingerprint : string; sig_PayloadSHA256 : string; sig_SHA256 : string; sig_CreatedAt : string;
}.
#[export] Instance Signature_eq_dec : EqDecision Signature.
Proof. solve_decision. Defined.
Record RepositoryManifest := mkRepositoryManifest {
  rm_SchemaVersion : Z; rm_Format : string; rm_GeneratedAt : string; rm_TreeSHA256 : string; rm_Files : list File;
  rm_Install : InstallSpec; rm_VerificationCases : list VerificationCase; rm_Signatures : list Signature;
}.
#[export] Instance RepositoryManifest_eq_dec : EqDecision RepositoryManifest.
Proof. solve_decision. Defined.

(** The JSON encodings: what [json.Marshal] writes, and what [json.Unmarshal] reads. *)
Class S3Lib := {
  MarshalPublication : publicationDescriptor → string;
  UnmarshalPublication : string → option publicationDescriptor;
  MarshalRelease : releaseDescriptor → string;
  UnmarshalRelease : string → option releaseDescriptor;
  MarshalRestore : restoreDescriptor → string;
  UnmarshalRestore : string → option restoreDescriptor;
  MarshalPointer : stagePointer → string;
  UnmarshalPointer : string → option stagePointer;
  UnmarshalManifest : string → option RepositoryManifest;
  (** Whether the bytes are the indented encoding, with a newline, of what they decode to. *)
  CanonicalManifest : string → bool;
  FormatRFC3339 : Z → string;
}.

Section descriptors.
Context `{HashLib, S3Lib, TimeLib}.

Definition treeLine (file : File) : string :=
  file_Path file +:+ nul +:+ pretty (file_Size file) +:+ nul +:+ file_SHA256 file +:+ String "010" "".
Definition TreeDigest (files : list File) : string := SHA256Hex (String.concat "" (treeLine <$> files)).

(** The files of a publication without its management manifest. *)
Definition treeFiles (files : list File) : list File := List.filter (λ file, negb (bool_decide (file_Path file = ManifestFilename))) files.

(** The loop over the sorted files: each is valid, the paths differ and the sizes
    stay within the limit. *)
Fixpoint filesWithinLimits (previous : option string) (total : Z) (files : list File) : bool :=
  match files with
  | [] => true
  | file :: rest =>
      validFile file && negb (bool_decide (previous = Some (file_Path file))) && negb (maximumTreeBytes - total <? file_Size file) &&
      filesWithinLimits (Some (file_Path file)) (total + file_Size file) rest
  end.

Definition fileLess (left right : File) : bool := str_ltb (file_Path left) (file_Path right).

(** [descriptorFromRequest]: [None] is any of its refusals. *)
Definition descriptorFromRequest (repository : S3Repository) (planID changeID treeSHA256 : string) (requested : list File)
    (commitPaths : list string) : option publicationDescriptor :=
  match singleRootPath repository with
  | None => None
  | Some rootPath =>
      let files := sort_slice fileLess requested in
      let descriptor := mkDescriptor planID changeID treeSHA256 files commitPaths in
      if negb (ValidSHA256 treeSHA256) || negb (ValidSHA256 planID) || negb (validChangeID changeID) then None
      else if negb (bool_decide (commitPaths = [rootPath])) then None
      else if bool_decide (files = []) || (maximumFiles <? Z.of_nat (length files)) then None
      else if negb (filesWithinLimits None 0 files) then None
      else if negb (existsb (λ file, bool_decide (file_Path file = rootPath)) files) then None
      else if negb (bool_decide (TreeDigest (treeFiles files) = treeSHA256)) then None
      else if maximumMetadataSize <? Z.of_nat (String.length (MarshalPublication descriptor)) then None
      else Some descriptor
  end.

Definition decodePublicationDescriptor (repository : S3Repository) (content : string) : option publicationDescriptor :=
  match UnmarshalPublication content with
  | None => None
  | Some descriptor =>
      let validated := descriptorFromRequest repository (desc_PlanID descriptor) (desc_ChangeID descriptor) (desc_TreeSHA256 descriptor)
                         (desc_Files descriptor) (desc_CommitPaths descriptor) in
      if bool_decide (validated = Some descriptor) then Some descriptor else None
  end.

Fixpoint zeros (n : nat) : string := match n with O => "" | S n => String "0" (zeros n) end.

(** The decoding and the checks of [loadRelease]. *)
Definition decodeRelease (repository : S3Repository) (content : string) : option releaseDescriptor :=
  match UnmarshalRelease content with
  | None => None
  | Some descriptor =>
      match descriptorFromRequest repository (zeros 64) "release:000000000000" (rel_TreeSHA256 descriptor) (rel_Files descriptor)
              (rel_CommitPaths descriptor) with
      | None => None
      | Some validated =>
          if negb (bool_decide (desc_Files validated = rel_Files descriptor)) ||
             negb (bool_decide (desc_CommitPaths validated = rel_CommitPaths descriptor)) ||
             negb (bool_decide (TreeDigest (treeFiles (rel_Files descriptor)) = rel_TreeSHA256 descriptor))
          then None else Some descriptor
      end
  end.

Definition releaseDescriptorFromPublication (publication : publicationDescriptor) : releaseDescriptor :=
  mkRelease (desc_TreeSHA256 publication) (treeFiles (desc_Files publication)) (desc_CommitPaths publication).

Definition manifestFile (publication : publicationDescriptor) : option File :=
  List.find (λ file, bool_decide (file_Path file = ManifestFilename)) (desc_Files publication).

Definition publicationDigestBindings (publication : publicationDescriptor) : option (string * string) :=
  match manifestFile publication with
  | Some file => Some (SHA256Hex (MarshalRelease (releaseDescriptorFromPublication publication)), file_SHA256 file)
  | None => None
  end.

(** ** The root and its binding *)

Definition releaseDirectory (treeSHA256 : string) : string := ".snailmail/releases/" +:+ treeSHA256 +:+ "/".

Definition bindingAnnotation (binding : rootBinding) : string :=
  "snailmail tree=" +:+ bind_TreeSHA256 binding +:+ " plan=" +:+ bind_PlanID binding +:+ " change=" +:+ bind_ChangeID binding +:+
  " release=" +:+ bind_ReleaseSHA256 binding +:+ " manifest=" +:+ bind_ManifestSHA256 binding +:+ " restore=" +:+ bind_RestoreID binding +:+
  " restore-descriptor=" +:+ bind_RestoreSHA256 binding +:+ " restore-root=" +:+ bind_RestoreRootSHA256 binding.

Definition legacyBindingAnnotation (planID changeID : string) : string := "snailmail plan=" +:+ planID +:+ " change=" +:+ changeID.

Definition rewriteRoot (repository : S3Repository) (content treeSHA256 annotation : string) : option string :=
  match s3_RootRewriter repository with
  | None => Some content
  | Some rewrite => match rewrite content (releaseDirectory treeSHA256) annotation with Ok rewritten => Some rewritten | Err _ => None end
  end.

Definition rootBindingFromRevision (revision : PublishedRevision) : rootBinding :=
  mkBinding (rev_TreeSHA256 revision) (rev_PlanID revision) (rev_ChangeID revision) (rev_ReleaseSHA256 revision)
    (rev_ManifestSHA256 revision) (rev_RestoreID revision) (rev_RestoreSHA256 revision) (rev_RestoreRootSHA256 revision).

(** The metadata [Commit] writes on the root. *)
Definition rootMetadata (binding : rootBinding) : gmap string string :=
  let metadata : gmap string string :=
    {[ "tree-sha256" := bind_TreeSHA256 binding; "plan-id" := bind_PlanID binding; "change-id" := bind_ChangeID binding;
       "release-id" := bind_TreeSHA256 binding; "release-sha256" := bind_ReleaseSHA256 binding; "restore-id" := bind_RestoreID binding;
       "manifest-sha256" := bind_ManifestSHA256 binding; "restore-sha256" := bind_RestoreSHA256 binding ]} in
  if bool_decide (bind_RestoreRootSHA256 binding = "") then metadata
  else <["restore-root-sha256" := bind_RestoreRootSHA256 binding]> metadata.

Definition revisionFromMetadata (etag : string) (metadata : gmap string string) : PublishedRevision :=
  mkRevision etag (meta metadata "tree-sha256") (meta metadata "plan-id") (meta metadata "change-id") (meta metadata "restore-id")
    (meta metadata "release-sha256") (meta metadata "manifest-sha256") (meta metadata "restore-sha256")
    (meta metadata "restore-root-sha256").

Definition metadataMatchesRevision (metadata : gmap string string) (revision : PublishedRevision) : bool :=
  bool_decide (meta metadata "tree-sha256" = rev_TreeSHA256 revision) && bool_decide (meta metadata "plan-id" = rev_PlanID revision) &&
  bool_decide (meta metadata "change-id" = rev_ChangeID revision) && bool_decide (meta metadata "release-id" = rev_TreeSHA256 revision) &&
  bool_decide (meta metadata "release-sha256" = rev_ReleaseSHA256 revision) &&
  bool_decide (meta metadata "manifest-sha256" = rev_ManifestSHA256 revision) &&
  bool_decide (meta metadata "restore-id" = rev_RestoreID revision) && bool_decide (meta metadata "restore-sha256" = rev_RestoreSHA256 revision) &&
  bool_decide (meta metadata "restore-root-sha256" = rev_RestoreRootSHA256 revision).

(** The identity of a managed root: every digest well formed. *)
Definition validIdentity (revision : PublishedRevision) : bool :=
  ValidSHA256 (rev_TreeSHA256 revision) && ValidSHA256 (rev_PlanID revision) && validChangeID (rev_ChangeID revision) &&
  ValidSHA256 (rev_ReleaseSHA256 revision) && ValidSHA256 (rev_ManifestSHA256 revision) && validIdentifier (rev_RestoreID revision) &&
  ValidSHA256 (rev_RestoreSHA256 revision) &&
  (bool_decide (rev_RestoreRootSHA256 revision = "") || ValidSHA256 (rev_RestoreRootSHA256 revision)).

Definition validManagedMetadata (metadata : gmap string string) : bool :=
  let revision := revisionFromMetadata "" metadata in validIdentity revision && metadataMatchesRevision metadata revision.

Definition reservedMetadata : list string :=
  ["tree-sha256"; "plan-id"; "change-id"; "release-id"; "release-sha256"; "manifest-sha256"; "restore-id"; "restore-sha256";
   "restore-root-sha256"].
Definition hasReservedMetadata (metadata : gmap string string) : bool :=
  existsb (λ key, bool_decide (is_Some (metadata !! key))) reservedMetadata.

Definition revisionMatchesBinding (revision : PublishedRevision) (binding : rootBinding) : bool :=
  bool_decide (rev_TreeSHA256 revision = bind_TreeSHA256 binding) && bool_decide (rev_PlanID revision = bind_PlanID binding) &&
  bool_decide (rev_ChangeID revision = bind_ChangeID binding) && bool_decide (rev_ReleaseSHA256 revision = bind_ReleaseSHA256 binding) &&
  bool_decide (rev_ManifestSHA256 revision = bind_ManifestSHA256 binding) && bool_decide (rev_RestoreID revision = bind_RestoreID binding) &&
  bool_decide (rev_RestoreSHA256 revision = bind_RestoreSHA256 binding) &&
  bool_decide (rev_RestoreRootSHA256 revision = bind_RestoreRootSHA256 binding).

Definition revisionMatchesExpected (revision : PublishedRevision) (expected : ExpectedRevision) : bool :=
  bool_decide (rev_NativeRevision revision = exp_NativeRevision expected) && bool_decide (rev_TreeSHA256 revision = exp_TreeSHA256 expected) &&
  bool_decide (rev_PlanID revision = exp_PlanID expected) && bool_decide (rev_ChangeID revision = exp_ChangeID expected) &&
  bool_decide (rev_ReleaseSHA256 revision = exp_ReleaseSHA256 expected) &&
  bool_decide (rev_ManifestSHA256 revision = exp_ManifestSHA256 expected) && bool_decide (rev_RestoreID revision = exp_RestoreID expected) &&
  bool_decide (rev_RestoreSHA256 revision = exp_RestoreSHA256 expected) &&
  bool_decide (rev_RestoreRootSHA256 revision = exp_RestoreRootSHA256 expected).

Definition commitResult (repository : S3Repository) (revision : PublishedRevision) : CommitResult :=
  mkCommitResult revision (s3_CanonicalEndpoint repository)
    (Some (mkRestoreRef (rev_RestoreID revision) (rev_PlanID revision) (rev_ChangeID revision) (rev_TreeSHA256 revision)
             (rev_RestoreSHA256 revision) (rev_RestoreRootSHA256 revision))).

Definition revisionFromRestore (nativeRevision : string) (descriptor : restoreDescriptor) : PublishedRevision :=
  if bool_decide (res_BeforeTreeSHA256 descriptor = "") then mkRevision nativeRevision "" "" "" "" "" "" "" ""
  else let metadata := res_BeforeMetadata descriptor in
       mkRevision nativeRevision (res_BeforeTreeSHA256 descriptor) (res_BeforePlanID descriptor) (res_BeforeChangeID descriptor)
         (meta metadata "restore-id") (meta metadata "release-sha256") (meta metadata "manifest-sha256")
         (meta metadata "restore-sha256") (meta metadata "restore-root-sha256").

Definition decodeRestore (content : string) : option restoreDescriptor :=
  match UnmarshalRestore content with
  | None => None
  | Some d =>
      let before := res_BeforeTreeSHA256 d in
      let managedBeforeInvalid := negb (bool_decide (before = "")) &&
        (negb (ValidSHA256 before) || negb (ValidSHA256 (res_BeforePlanID d)) || negb (validChangeID (res_BeforeChangeID d))) in
      let unmanagedBeforeInvalid := bool_decide (before = "") &&
        (negb (bool_decide (res_BeforePlanID d = "")) || negb (bool_decide (res_BeforeChangeID d = ""))) in
      let legacyBeforeInvalid := res_RootExisted d && bool_decide (before = "") && hasReservedMetadata (res_BeforeMetadata d) &&
        negb (validManagedMetadata (res_BeforeMetadata d)) in
      let missingRootInvalid := negb (res_RootExisted d) &&
        (negb (bool_decide (before = "")) || negb (bool_decide (res_BeforePlanID d = "")) ||
         negb (bool_decide (res_BeforeChangeID d = "")) || negb (bool_decide (res_BeforeMetadata d = ∅))) in
      if negb (ValidSHA256 (res_PlanID d)) || negb (validChangeID (res_ChangeID d)) || negb (ValidSHA256 (res_AfterTreeSHA256 d)) ||
         managedBeforeInvalid || unmanagedBeforeInvalid || legacyBeforeInvalid || missingRootInvalid then None
      else if negb (bool_decide (before = "")) && negb (metadataMatchesRevision (res_BeforeMetadata d) (revisionFromRestore "" d)) then None
      else if negb (bool_decide (MarshalRestore d = content)) then None
      else Some d
  end.

(** ** The management manifest *)

Definition SupportedManifestSchema (schema : Z) : bool := (schema =? 1) || (schema =? 2) || (schema =? 3).

Definition manifestFormatIs (manifestFormat repositoryFormat : string) : bool :=
  negb (bool_decide (repositoryFormat = "")) && HasPrefix manifestFormat (repositoryFormat +:+ "/").

Definition caseName (verification : VerificationCase) : string :=
  if bool_decide (case_Package verification = "") then case_Project verification else case_Package verification.

(** The order of two neighbouring cases, by name and version. *)
Definition casesOrdered (name : VerificationCase → string) (previous verification : VerificationCase) : bool :=
  negb (str_ltb (name verification) (name previous) ||
        (bool_decide (name previous = name verification) && negb (str_ltb (case_Version previous) (case_Version verification)))).

Fixpoint verificationCases (valid : VerificationCase → bool) (name : VerificationCase → string) (previous : option VerificationCase)
    (cases : list VerificationCase) : bool :=
  match cases with
  | [] => true
  | verification :: rest =>
      valid verification && match previous with Some p => casesOrdered name p verification | None => true end &&
      verificationCases valid name (Some verification) rest
  end.

Definition validGenericCase (verification : VerificationCase) : bool :=
  let named := caseName verification in
  negb (bool_decide (named = "") || bool_decide (case_Version verification = "") || hasControl named ||
        hasControl (case_Version verification) || hasControl (case_Architecture verification)).

Definition validateGenericVerificationCases (content : string) (manifest : RepositoryManifest) : bool :=
  negb (bool_decide (length (rm_VerificationCases manifest) = 0%nat)) &&
  verificationCases validGenericCase caseName None (rm_VerificationCases manifest) && CanonicalManifest content.

Definition projectOf (file : File) : list string :=
  match Split "/" (file_Path file) with
  | [simple; project; index] => if bool_decide (simple = "simple") && bool_decide (index = "index.html") then [project] else []
  | _ => []
  end.

Definition validPypiCase (files : list File) (verification : VerificationCase) : bool :=
  negb (bool_decide (case_Project verification = "") || negb (bool_decide (case_Project verification = NormalizeName (case_Project verification))) ||
        negb (bool_decide (case_Package verification = "")) || bool_decide (case_Version verification = "") ||
        hasControl (case_Version verification) || negb (bool_decide (case_Architecture verification = "")) ||
        negb (bool_decide (PathJoin ["simple"; case_Project verification; "index.html"] ∈ file_Path <$> files))).

Definition validInstall (format : string) (install : InstallSpec) : bool :=
  bool_decide (install_Kind install = format) && negb (bool_decide (install_IndexPath install = "")) &&
  (negb (bool_decide (format = "pypi")) ||
   (bool_decide (install_IndexPath install = "simple/") && bool_decide (install_Suite install = "") &&
    bool_decide (install_Component install = "") && bool_decide (install_Architectures install = []))).

Definition validatePublishedManifest (repository : S3Repository) (content : string) (manifest : RepositoryManifest)
    (descriptor : releaseDescriptor) : bool :=
  SupportedManifestSchema (rm_SchemaVersion manifest) && manifestFormatIs (rm_Format manifest) (s3_Format repository) &&
  bool_decide (rm_TreeSHA256 manifest = rel_TreeSHA256 descriptor) &&
  match ParseRFC3339 (rm_GeneratedAt manifest) with
  | Some generatedAt => bool_decide (FormatRFC3339 generatedAt = rm_GeneratedAt manifest)
  | None => false
  end &&
  validInstall (s3_Format repository) (rm_Install manifest) &&
  bool_decide (rm_Files manifest = rel_Files descriptor) &&
  (if negb (bool_decide (s3_Format repository = "pypi")) then validateGenericVerificationCases content manifest
   else
     let projects : gset string := list_to_set (mjoin (projectOf <$> rel_Files descriptor)) in
     verificationCases (validPypiCase (rel_Files descriptor)) case_Project None (rm_VerificationCases manifest) &&
     negb (bool_decide (projects = ∅)) && bool_decide (projects = list_to_set (case_Project <$> rm_VerificationCases manifest)) &&
     CanonicalManifest content).

(** The bytes of a manifest: its digest is right, and it decodes to the manifest of the release. *)
Definition manifestBinds (repository : S3Repository) (content digest : string) (release : releaseDescriptor) : bool :=
  bool_decide (SHA256Hex content = digest) &&
  match UnmarshalManifest content with
  | Some manifest => validatePublishedManifest repository content manifest release
  | None => false
  end.
End descriptors.
