(* ===== verification/S3.v ===== *)
(** The S3 host ([adapters/host/s3/s3.go]): observing what a bucket serves, staging a
    publication beside it, switching the root object to it on the condition that the
    root is the one the plan saw, and putting the replaced root back.

    The routes and credentials handed to verification clients are opaque: issuing
    them succeeds or fails ([access]).  The directory a stage is uploaded from and
    the verification of it are parameters of [Stage]. *)

From S2P Require Import Prelude GoStrings GoSlices GoRegexp Model Formats Source JsonStrict PlanJson Manifest Host S3Store S3Keys.

Open Scope Z_scope.

Record S3Staged := mkS3Staged {
  sp_ID : string; sp_PlanID : string; sp_ChangeID : string; sp_TreeSHA256 : string; sp_Files : list File; sp_CommitPaths : list string;
}.

(** [host.StageRequest], with the content of the directory by path and what
    [app.VerifyRepository] makes of it. *)
Record StageRequest := mkStageRequest {
  req_PlanID : string; req_ChangeID : string; req_TreeSHA256 : string; req_Files : list File; req_CommitPaths : list string;
  req_Content : string → option string; req_Verified : option RepositoryManifest;
}.

Section host.
Context `{NetLib, TimeLib, HashLib, !S3Lib} (o : Outside) (broker : bool) (access : nat → outcome ()) (repository : S3Repository).

Definition issueAccess : S3 () := λ w, (w, access (world_clock w)).
Definition checkRepository : S3 () := refuse_when (negb (validateRepository broker repository)) invalid.
Definition rootPathOf : S3 string := lift_option invalid (singleRootPath repository).

(** An error of a read: the object is missing, which [missing] reports, or the
    store failed. *)
Definition or_missing {A} (missing : S3Error) (m : S3 A) : S3 A :=
  r ← attempt m;
  match r with
  | Done a => mret a
  | Raise e => if isError e ErrNotFound then raise missing else raise (infrastructure e)
  end.
(** The same where the callee has already wrapped its error. *)
Definition if_missing {A} (missing : S3Error) (m : S3 A) : S3 A :=
  r ← attempt m;
  match r with
  | Done a => mret a
  | Raise e => if isError e ErrNotFound then raise missing else raise e
  end.
Definition wrapped {A} (m : S3 A) : S3 A :=
  r ← attempt m;
  match r with Done a => mret a | Raise e => raise (infrastructure e) end.

(** ** Reading descriptors *)

Definition loadStage (identifier : string) : S3 publicationDescriptor :=
  _ ← refuse_when (negb (validIdentifier identifier)) invalid;
  '(content, _) ← wrapped (Get o (stageDescriptorKey repository identifier) maximumMetadataSize);
  lift_option indeterminate (decodePublicationDescriptor repository content).

Definition loadStagePointer (effectID : string) : S3 stagePointer :=
  '(content, _) ← Get o (stagePointerKey repository effectID) maximumMetadataSize;
  match UnmarshalPointer content with
  | Some pointer =>
      if validIdentifier (pointer_ID pointer) && ValidSHA256 (pointer_DescriptorSHA256 pointer) then mret pointer else raise indeterminate
  | None => raise indeterminate
  end.

Definition loadRelease (treeSHA256 : string) : S3 (releaseDescriptor * string) :=
  '(content, _) ← wrapped (Get o (releaseDescriptorKey repository treeSHA256) maximumMetadataSize);
  descriptor ← lift_option indeterminate (decodeRelease repository content);
  mret (descriptor, SHA256Hex content).

Definition loadRestore (identifier : string) : S3 (restoreDescriptor * string) :=
  '(content, _) ← wrapped (Get o (restoreDescriptorKey repository identifier) maximumMetadataSize);
  descriptor ← lift_option indeterminate (decodeRestore content);
  mret (descriptor, SHA256Hex content).

(** ** Observing *)

Definition fileMatches (file : File) (info : ObjectInfo) : bool :=
  (info_Size info =? file_Size file) && bool_decide (info_SHA256 info = file_SHA256 file) &&
  bool_decide (meta (info_Metadata info) "sha256" = file_SHA256 file).

Definition checkReleaseFile (treeSHA256 rootPath : string) (file : File) : S3 () :=
  info ← or_missing indeterminate (Head o (publishedFileKey repository treeSHA256 rootPath (file_Path file)));
  refuse_when (negb (fileMatches file info)) indeterminate.

(** The restore state a managed root names. *)
Definition checkRestoreState (revision : PublishedRevision) : S3 () :=
  '(restore, digest) ← if_missing indeterminate (loadRestore (rev_RestoreID revision));
  _ ← refuse_when
        (negb (bool_decide (digest = rev_RestoreSHA256 revision)) || negb (bool_decide (res_AfterTreeSHA256 restore = rev_TreeSHA256 revision)) ||
         negb (bool_decide (res_PlanID restore = rev_PlanID revision)) || negb (bool_decide (res_ChangeID restore = rev_ChangeID revision)) ||
         negb (eqb (res_RootExisted restore) (negb (bool_decide (rev_RestoreRootSHA256 revision = ""))))) indeterminate;
  if res_RootExisted restore then
    '(content, info) ← or_missing indeterminate (Get o (restoreRootKey repository (rev_RestoreID revision)) maximumMetadataSize);
    refuse_when (negb (bool_decide (SHA256Hex content = rev_RestoreRootSHA256 revision)) ||
                 negb (bool_decide (info_SHA256 info = rev_RestoreRootSHA256 revision)) ||
                 negb (bool_decide (meta (info_Metadata info) "sha256" = rev_RestoreRootSHA256 revision))) indeterminate
  else mret ().

(** The release and the manifest a managed root names. *)
Definition checkRelease (rootPath : string) (revision : PublishedRevision) : S3 releaseDescriptor :=
  '(descriptor, digest) ← if_missing indeterminate (loadRelease (rev_TreeSHA256 revision));
  _ ← refuse_when (negb (bool_decide (rel_TreeSHA256 descriptor = rev_TreeSHA256 revision)) ||
                   negb (bool_decide (rev_ReleaseSHA256 revision = digest))) indeterminate;
  '(content, info) ← or_missing indeterminate (Get o (publicationManifestKey repository (rev_ManifestSHA256 revision)) maximumMetadataSize);
  _ ← refuse_when (negb (bool_decide (info_SHA256 info = rev_ManifestSHA256 revision)) ||
                   negb (manifestBinds repository content (rev_ManifestSHA256 revision) descriptor)) indeterminate;
  mret descriptor.

(** The canonical root against the immutable one. *)
Definition checkRoot (rootPath : string) (root : ObjectInfo) (revision : PublishedRevision) : S3 PublishedRevision :=
  '(releaseRoot, _) ← or_missing indeterminate (Get o (releaseKey repository (rev_TreeSHA256 revision) rootPath) maximumMetadataSize);
  expectedRoot ← lift_option invalid
    (rewriteRoot repository releaseRoot (rev_TreeSHA256 revision) (bindingAnnotation (rootBindingFromRevision revision)));
  canonical ← attempt (Get o (objectKey repository rootPath) maximumMetadataSize);
  match canonical with
  | Raise _ => raise indeterminate
  | Done (canonicalRoot, info) =>
      _ ← refuse_when (negb (bool_decide (info_ETag info = info_ETag root)) ||
                       negb (bool_decide (info_Metadata info = info_Metadata root))) indeterminate;
      if bool_decide (canonicalRoot = expectedRoot) then mret revision
      else
        let legacy := rewriteRoot repository releaseRoot (rev_TreeSHA256 revision)
                        (legacyBindingAnnotation (rev_PlanID revision) (rev_ChangeID revision)) in
        if bool_decide (legacy = Some canonicalRoot) then mret (mkRevision (info_ETag root) "" "" "" "" "" "" "" "")
        else raise indeterminate
  end.

(** A root that has publication metadata. *)
Definition observeManaged (rootPath : string) (root : ObjectInfo) : S3 PublishedRevision :=
  let revision := revisionFromMetadata (info_ETag root) (info_Metadata root) in
  _ ← refuse_when (negb (validIdentity revision) || negb (bool_decide (meta (info_Metadata root) "release-id" = rev_TreeSHA256 revision)))
        indeterminate;
  descriptor ← checkRelease rootPath revision;
  _ ← checkRestoreState revision;
  _ ← forEach (checkReleaseFile (rev_TreeSHA256 revision) rootPath) (rel_Files descriptor);
  checkRoot rootPath root revision.

Definition Observe : S3 PublishedRevision :=
  rootPath ← rootPathOf;
  _ ← checkRepository;
  r ← attempt (Head o (objectKey repository rootPath));
  match r with
  | Raise e => if isError e ErrNotFound then mret noRevision else raise (infrastructure e)
  | Done root =>
      let metadata := info_Metadata root in
      if bool_decide (meta metadata "tree-sha256" = "") && bool_decide (meta metadata "plan-id" = "") &&
         bool_decide (meta metadata "change-id" = "") && bool_decide (meta metadata "restore-id" = "") then
        if hasReservedMetadata metadata then raise indeterminate
        else mret (mkRevision (info_ETag root) "" "" "" "" "" "" "" "")
      else observeManaged rootPath root
  end.

Definition ReadAccess (revision : PublishedRevision) : S3 () :=
  rootPath ← rootPathOf;
  _ ← checkRepository;
  _ ← refuse_when (bool_decide (rev_TreeSHA256 revision = "")) invalid;
  observed ← Observe;
  _ ← refuse_when (negb (bool_decide (observed = revision))) stale;
  _ ← loadRelease (rev_TreeSHA256 revision);
  '(releaseRoot, _) ← wrapped (Get o (releaseKey repository (rev_TreeSHA256 revision) rootPath) maximumMetadataSize);
  _ ← lift_option invalid
    (rewriteRoot repository releaseRoot (rev_TreeSHA256 revision) (bindingAnnotation (rootBindingFromRevision revision)));
  issueAccess.

(** ** Staging *)

Definition deleteAll (keys : list string) : S3 () :=
  forEach (λ key, _ ← attempt (Delete o key unconditional); mret ()) keys.

(** The deferred clean-up of a stage that failed. *)
Definition cleaning {A} (keys : list string) (m : S3 A) : S3 A :=
  r ← attempt m;
  match r with Done a => mret a | Raise e => _ ← deleteAll keys; raise e end.

Definition effectIdentifier (planID changeID : string) : string := SHA256Hex (planID +:+ nul +:+ changeID).

Definition digested (digest : string) : gmap string string := {[ "sha256" := digest ]}.

Definition stageResult (identifier : string) (descriptor : publicationDescriptor) : S3 S3Staged :=
  _ ← issueAccess;
  mret (mkS3Staged identifier (desc_PlanID descriptor) (desc_ChangeID descriptor) (desc_TreeSHA256 descriptor) (desc_Files descriptor)
          (desc_CommitPaths descriptor)).

Definition uploadFile (request : StageRequest) (identifier : string) (file : File) : S3 () :=
  content ← lift_option (StoreErr ErrOther) (req_Content request (file_Path file));
  _ ← refuse_when (negb (Z.of_nat (String.length content) =? file_Size file) || negb (bool_decide (SHA256Hex content = file_SHA256 file))) stale;
  stored ← wrapped (Put o (mkPut (stageKey repository identifier (file_Path file)) content (file_SHA256 file)
                             (digested (file_SHA256 file)) unconditional));
  refuse_when (negb (fileMatches file stored)) (HostErr ErrorInfrastructure false None).

Definition verifyStage (request : StageRequest) : S3 () :=
  match req_Verified request with
  | Some manifest =>
      refuse_when (negb (manifestFormatIs (rm_Format manifest) (s3_Format repository)) ||
                   negb (bool_decide (rm_TreeSHA256 manifest = req_TreeSHA256 request))) invalid
  | None => raise invalid
  end.

(** The stage of this effect that another caller has published first. *)
Definition adoptStage (effectID digest : string) (descriptor : publicationDescriptor) (uploaded : list string) : S3 S3Staged :=
  '(pointer, existing) ← cleaning uploaded
    (pointer ← wrapped (loadStagePointer effectID);
     existing ← attempt (loadStage (pointer_ID pointer));
     match existing with
     | Done existing =>
         if bool_decide (pointer_DescriptorSHA256 pointer = digest) && bool_decide (existing = descriptor)
         then mret (pointer, existing) else raise indeterminate
     | Raise _ => raise indeterminate
     end);
  _ ← deleteAll uploaded;
  stageResult (pointer_ID pointer) existing.

Definition publishPointer (effectID identifier digest : string) (descriptor : publicationDescriptor) (uploaded : list string)
    (staged : S3Staged) : S3 S3Staged :=
  let content := MarshalPointer (mkPointer identifier digest) in
  r ← attempt (Put o (mkPut (stagePointerKey repository effectID) content (SHA256Hex content) (digested (SHA256Hex content))
                        (mkConditions "" true)));
  match r with
  | Done _ => mret staged
  | Raise e =>
      if isError e ErrPrecondition then adoptStage effectID digest descriptor uploaded
      else
        p ← attempt (loadStagePointer effectID);
        match p with
        | Done pointer =>
            if bool_decide (pointer_ID pointer = identifier) && bool_decide (pointer_DescriptorSHA256 pointer = digest) then mret staged
            else _ ← deleteAll uploaded; raise (infrastructure e)
        | Raise e' =>
            if isError e' ErrNotFound then _ ← deleteAll uploaded; raise (infrastructure e)
            else raise (HostErr ErrorIndeterminate true (causeOf e'))
        end
  end.

Definition uploadStage (request : StageRequest) (effectID : string) (descriptor : publicationDescriptor) : S3 S3Staged :=
  identifier ← (λ w, (w, match random o (world_clock w) with Some identifier => Done identifier | None => Raise (infrastructure (StoreErr ErrOther)) end));
  let content := MarshalPublication descriptor in
  let digest := SHA256Hex content in
  let files := (λ file, stageKey repository identifier (file_Path file)) <$> desc_Files descriptor in
  let uploaded := files ++ [stageDescriptorKey repository identifier] in
  _ ← cleaning files (_ ← forEach (uploadFile request identifier) (desc_Files descriptor); verifyStage request);
  staged ← cleaning uploaded
    (_ ← wrapped (Put o (mkPut (stageDescriptorKey repository identifier) content digest (digested digest) unconditional));
     stageResult identifier descriptor);
  publishPointer effectID identifier digest descriptor uploaded staged.

Definition Stage (request : StageRequest) : S3 S3Staged :=
  _ ← checkRepository;
  descriptor ← lift_option invalid
    (descriptorFromRequest repository (req_PlanID request) (req_ChangeID request) (req_TreeSHA256 request) (req_Files request)
       (req_CommitPaths request));
  let digest := SHA256Hex (MarshalPublication descriptor) in
  let effectID := effectIdentifier (desc_PlanID descriptor) (desc_ChangeID descriptor) in
  p ← attempt (loadStagePointer effectID);
  match p with
  | Done pointer =>
      existing ← loadStage (pointer_ID pointer);
      if bool_decide (pointer_DescriptorSHA256 pointer = digest) && bool_decide (existing = descriptor)
      then stageResult (pointer_ID pointer) existing else raise indeterminate
  | Raise e => if isError e ErrNotFound then uploadStage request effectID descriptor else raise (infrastructure e)
  end.

Definition Abort (staged : S3Staged) : S3 () :=
  _ ← checkRepository;
  _ ← refuse_when (negb (validIdentifier (sp_ID staged))) invalid;
  r ← attempt (loadStage (sp_ID staged));
  match r with
  | Raise e => if isError e ErrNotFound then mret () else raise e
  | Done descriptor =>
      let key := stagePointerKey repository (effectIdentifier (desc_PlanID descriptor) (desc_ChangeID descriptor)) in
      p ← attempt (Get o key maximumMetadataSize);
      match p with
      | Raise e => if isError e ErrNotFound then mret () else raise (infrastructure e)
      | Done (content, info) =>
          match UnmarshalPointer content with
          | Some pointer =>
              if bool_decide (pointer_ID pointer = sp_ID staged) then
                d ← attempt (Delete o key (mkConditions (info_ETag info) false));
                match d with
                | Done _ => mret ()
                | Raise e => if isError e ErrNotFound || isError e ErrPrecondition then mret () else raise (infrastructure e)
                end
              else mret ()
          | None => mret ()
          end
      end
  end.

(** ** The publication lease *)

Definition acquireCommitLock (owner : string) : S3 string :=
  expires ← currentTime o;
  let metadata : gmap string string := {[ "expires" := FormatRFC3339 (expires + 15 * 60 * Second) ]} in
  let key := commitLockKey repository in
  let request := mkPut key owner (SHA256Hex owner) metadata in
  r ← attempt (Put o (request (mkConditions "" true)));
  match r with
  | Done info => mret (info_ETag info)
  | Raise e =>
      if isError e ErrPrecondition then
        existing ← wrapped (Head o key);
        at_ ← currentTime o;
        match ParseRFC3339 (meta (info_Metadata existing) "expires") with
        | Some until =>
            if until <? at_ then
              info ← wrapped (Put o (request (mkConditions (info_ETag existing) false)));
              mret (info_ETag info)
            else raise (HostErr ErrorInfrastructure false None)
        | None => raise (HostErr ErrorInfrastructure false None)
        end
      else raise (infrastructure e)
  end.

(** [defer unlock()], whatever the body does. *)
Definition withLock {A} (owner : string) (body : S3 A) : S3 A :=
  etag ← acquireCommitLock owner;
  r ← attempt body;
  _ ← attempt (Delete o (commitLockKey repository) (mkConditions etag false));
  match r with Done a => mret a | Raise e => raise e end.

(** ** Committing *)

Definition materializeObject (stageID treeSHA256 rootPath : string) (file : File) : S3 () :=
  let destination := publishedFileKey repository treeSHA256 rootPath (file_Path file) in
  r ← attempt (CopyCreate o (stageKey repository stageID (file_Path file)) destination (file_Size file) (file_SHA256 file));
  match r with
  | Done stored => refuse_when (negb (fileMatches file stored)) (HostErr ErrorInfrastructure false None)
  | Raise e =>
      if isError e ErrPrecondition then
        stored ← wrapped (Head o destination);
        refuse_when (negb (fileMatches file stored)) indeterminate
      else raise (infrastructure e)
  end.

(** Write an object that never changes: created, or already there with these bytes. *)
Definition createExactly (key content : string) : S3 () :=
  r ← attempt (Put o (mkPut key content (SHA256Hex content) (digested (SHA256Hex content)) (mkConditions "" true)));
  match r with
  | Done _ => mret ()
  | Raise e =>
      if isError e ErrPrecondition then
        '(existing, _) ← wrapped (Get o key maximumMetadataSize);
        refuse_when (negb (bool_decide (existing = content))) indeterminate
      else raise (infrastructure e)
  end.

Definition materializeRelease (stageID rootPath : string) (publication : publicationDescriptor) : S3 string :=
  let descriptor := releaseDescriptorFromPublication publication in
  _ ← forEach (materializeObject stageID (rel_TreeSHA256 descriptor) rootPath) (rel_Files descriptor);
  let content := MarshalRelease descriptor in
  _ ← createExactly (releaseDescriptorKey repository (rel_TreeSHA256 descriptor)) content;
  mret (SHA256Hex content).

Definition materializePublicationManifest (stageID : string) (descriptor : publicationDescriptor) : S3 string :=
  manifest ← lift_option invalid (manifestFile descriptor);
  '(content, info) ← wrapped (Get o (stageKey repository stageID (file_Path manifest)) maximumMetadataSize);
  _ ← refuse_when (negb (info_Size info =? file_Size manifest) || negb (bool_decide (info_SHA256 info = file_SHA256 manifest)) ||
                   negb (manifestBinds repository content (file_SHA256 manifest) (releaseDescriptorFromPublication descriptor))) invalid;
  let destination := publicationManifestKey repository (file_SHA256 manifest) in
  r ← attempt (CopyCreate o (stageKey repository stageID (file_Path manifest)) destination (file_Size manifest) (file_SHA256 manifest));
  match r with
  | Done stored =>
      _ ← refuse_when (negb (fileMatches manifest stored)) (HostErr ErrorInfrastructure false None);
      mret (file_SHA256 manifest)
  | Raise e =>
      if isError e ErrPrecondition then
        stored ← wrapped (Head o destination);
        _ ← refuse_when (negb (fileMatches manifest stored)) indeterminate;
        mret (file_SHA256 manifest)
      else raise (infrastructure e)
  end.

(** Retaining the root that is about to be replaced: its bytes may only be written once. *)
Definition retainRoot (restoreID rootPath : string) (before : PublishedRevision) : S3 (string * gmap string string) :=
  '(content, info) ← wrapped (Get o (objectKey repository rootPath) maximumMetadataSize);
  _ ← refuse_when (negb (bool_decide (info_ETag info = rev_NativeRevision before)) ||
                   (negb (bool_decide (rev_TreeSHA256 before = "")) && negb (metadataMatchesRevision (info_Metadata info) before))) stale;
  let digest := SHA256Hex content in
  r ← attempt (Put o (mkPut (restoreRootKey repository restoreID) content digest (digested digest) (mkConditions "" true)));
  match r with
  | Done _ => mret (digest, info_Metadata info)
  | Raise e =>
      if isError e ErrPrecondition then
        existing ← attempt (Get o (restoreRootKey repository restoreID) maximumMetadataSize);
        match existing with
        | Done (existing, _) => if bool_decide (existing = content) then mret (digest, info_Metadata info) else raise indeterminate
        | Raise _ => raise indeterminate
        end
      else raise (infrastructure e)
  end.

Definition prepareRestore (restoreID rootPath : string) (after : publicationDescriptor) (before : PublishedRevision)
    : S3 (string * string) :=
  let existed := negb (bool_decide (rev_NativeRevision before = "")) in
  '(rootDigest, metadata) ← (if existed then retainRoot restoreID rootPath before else mret ("", ∅));
  let content := MarshalRestore (mkRestore (desc_PlanID after) (desc_ChangeID after) (desc_TreeSHA256 after) existed
                                   (rev_TreeSHA256 before) (rev_PlanID before) (rev_ChangeID before) metadata) in
  _ ← createExactly (restoreDescriptorKey repository restoreID) content;
  mret (SHA256Hex content, rootDigest).

Definition refreshBrowsablePage (stageID : string) : S3 () :=
  r ← attempt (Get o (stageKey repository stageID listingFilename) maximumListingSize);
  match r with
  | Done (content, _) =>
      _ ← attempt (Put o (mkPut (browsablePageKey repository) content (SHA256Hex content) ∅ unconditional));
      mret ()
  | Raise _ => mret ()
  end.

(** The root of the publication, and the condition it replaces the live one on. *)
Definition rootRequest (rootPath rootContent : string) (binding : rootBinding) (expected : ExpectedRevision) : PutRequest :=
  mkPut (objectKey repository rootPath) rootContent (SHA256Hex rootContent) (rootMetadata binding)
    (mkConditions (exp_NativeRevision expected) (bool_decide (exp_NativeRevision expected = ""))).

Definition bindingRevision (etag : string) (binding : rootBinding) : PublishedRevision :=
  mkRevision etag (bind_TreeSHA256 binding) (bind_PlanID binding) (bind_ChangeID binding) (bind_RestoreID binding)
    (bind_ReleaseSHA256 binding) (bind_ManifestSHA256 binding) (bind_RestoreSHA256 binding) (bind_RestoreRootSHA256 binding).

(** The switch of the root, and what is made of an error: the switch may have happened. *)
Definition switchRoot (stageID rootPath rootContent : string) (binding : rootBinding) (expected : ExpectedRevision) : S3 CommitResult :=
  r ← attempt (Put o (rootRequest rootPath rootContent binding expected));
  match r with
  | Done root =>
      _ ← refreshBrowsablePage stageID;
      mret (commitResult repository (bindingRevision (info_ETag root) binding))
  | Raise e =>
      p ← attempt (Observe);
      match p with
      | Done postcondition =>
          if revisionMatchesBinding postcondition binding then mret (commitResult repository postcondition)
          else if isError e ErrPrecondition then raise (HostErr ErrorStale false (causeOf e))
          else raise (HostErr ErrorIndeterminate true (causeOf e))
      | Raise e' => raise (HostErr ErrorIndeterminate true (causeOf e'))
      end
  end.

(** What is published and bound before the root is switched. *)
Definition publishObjects (stageID rootPath : string) (descriptor : publicationDescriptor) (observed : PublishedRevision)
    : S3 (string * rootBinding) :=
  releaseDigest ← materializeRelease stageID rootPath descriptor;
  manifestDigest ← materializePublicationManifest stageID descriptor;
  '(restoreDigest, restoreRootDigest) ← prepareRestore stageID rootPath descriptor observed;
  '(staged, _) ← wrapped (Get o (stageKey repository stageID rootPath) maximumMetadataSize);
  let binding := mkBinding (desc_TreeSHA256 descriptor) (desc_PlanID descriptor) (desc_ChangeID descriptor) releaseDigest manifestDigest
                   stageID restoreDigest restoreRootDigest in
  content ← lift_option invalid (rewriteRoot repository staged (bind_TreeSHA256 binding) (bindingAnnotation binding));
  _ ← issueAccess;
  mret (content, binding).

(** Under the lease. *)
Definition commitLocked (staged : S3Staged) (rootPath : string) (descriptor : publicationDescriptor) (releaseDigest manifestDigest : string)
    (expected : ExpectedRevision) : S3 CommitResult :=
  observed ← Observe;
  if bool_decide (rev_TreeSHA256 observed = desc_TreeSHA256 descriptor) && bool_decide (rev_PlanID observed = desc_PlanID descriptor) &&
     bool_decide (rev_ChangeID observed = desc_ChangeID descriptor) && bool_decide (rev_ReleaseSHA256 observed = releaseDigest) &&
     bool_decide (rev_ManifestSHA256 observed = manifestDigest) then
    if bool_decide (rev_RestoreID observed = sp_ID staged) then
      _ ← ReadAccess observed;
      mret (commitResult repository observed)
    else raise indeterminate
  else if negb (revisionMatchesExpected observed expected) then raise stale
  else
    '(content, binding) ← publishObjects (sp_ID staged) rootPath descriptor observed;
    switchRoot (sp_ID staged) rootPath content binding expected.

Definition Commit (staged : S3Staged) (expected : ExpectedRevision) : S3 CommitResult :=
  rootPath ← rootPathOf;
  _ ← checkRepository;
  descriptor ← loadStage (sp_ID staged);
  _ ← refuse_when (negb (bool_decide (sp_PlanID staged = desc_PlanID descriptor)) || negb (bool_decide (sp_ChangeID staged = desc_ChangeID descriptor)) ||
                   negb (bool_decide (sp_TreeSHA256 staged = desc_TreeSHA256 descriptor)) || negb (bool_decide (sp_Files staged = desc_Files descriptor)) ||
                   negb (bool_decide (sp_CommitPaths staged = desc_CommitPaths descriptor))) invalid;
  '(releaseDigest, manifestDigest) ← lift_option invalid (publicationDigestBindings descriptor);
  withLock (sp_ID staged) (commitLocked staged rootPath descriptor releaseDigest manifestDigest expected).

(** ** Restoring *)

Definition validateRestoreTarget (rootPath : string) (descriptor : restoreDescriptor) (rootContent : string) : S3 () :=
  if bool_decide (res_BeforeTreeSHA256 descriptor = "") then mret ()
  else
    let revision := revisionFromRestore "" descriptor in
    '(release, digest) ← loadRelease (rev_TreeSHA256 revision);
    _ ← refuse_when (negb (bool_decide (digest = rev_ReleaseSHA256 revision))) indeterminate;
    '(content, info) ← or_missing indeterminate (Get o (publicationManifestKey repository (rev_ManifestSHA256 revision)) maximumMetadataSize);
    _ ← refuse_when (negb (bool_decide (info_SHA256 info = rev_ManifestSHA256 revision)) ||
                     negb (manifestBinds repository content (rev_ManifestSHA256 revision) release)) indeterminate;
    _ ← forEach (checkReleaseFile (rev_TreeSHA256 revision) rootPath) (rel_Files release);
    '(immutableRoot, _) ← or_missing indeterminate (Get o (releaseKey repository (rev_TreeSHA256 revision) rootPath) maximumMetadataSize);
    expectedRoot ← lift_option invalid
      (rewriteRoot repository immutableRoot (rev_TreeSHA256 revision) (bindingAnnotation (rootBindingFromRevision revision)));
    refuse_when (negb (bool_decide (rootContent = expectedRoot))) indeterminate.

(** Whether the root is already the one to restore, and what it serves then. *)
Definition restorePostcondition (rootPath : string) (descriptor : restoreDescriptor) (restore : RestoreRef) : S3 (option PublishedRevision) :=
  if negb (res_RootExisted descriptor) then
    r ← attempt (Head o (objectKey repository rootPath));
    match r with
    | Done _ => mret None
    | Raise e => if isError e ErrNotFound then mret (Some noRevision) else raise (infrastructure e)
    end
  else
    r ← attempt (Get o (objectKey repository rootPath) maximumMetadataSize);
    match r with
    | Raise e => if isError e ErrNotFound then mret None else raise (infrastructure e)
    | Done (content, info) =>
        if negb (bool_decide (SHA256Hex content = restore_RootSHA256 restore)) ||
           negb (bool_decide (info_Metadata info = res_BeforeMetadata descriptor)) then mret None
        else observed ← Observe; mret (Some observed)
    end.

(** An error of the request that restores the root: it may have been restored. *)
Definition afterRestoreError (rootPath : string) (descriptor : restoreDescriptor) (restore : RestoreRef) (e : S3Error) : S3 PublishedRevision :=
  p ← attempt (restorePostcondition rootPath descriptor restore);
  match p with
  | Done (Some revision) => mret revision
  | Raise e' => raise (HostErr ErrorIndeterminate true (causeOf e'))
  | Done None =>
      if isError e ErrPrecondition then raise (HostErr ErrorStale false (causeOf e))
      else raise (HostErr ErrorIndeterminate true (causeOf e))
  end.

Definition validRestoreRef (restore : RestoreRef) : bool :=
  validIdentifier (restore_ID restore) && negb (bool_decide (restore_PlanID restore = "")) &&
  negb (bool_decide (restore_ChangeID restore = "")) && ValidSHA256 (restore_FailedTree restore) &&
  ValidSHA256 (restore_DescriptorSHA256 restore) &&
  (bool_decide (restore_RootSHA256 restore = "") || ValidSHA256 (restore_RootSHA256 restore)).

(** The observation is of the publication the reference would undo. *)
Definition restoreApplies (observed : PublishedRevision) (restore : RestoreRef) (expected : ExpectedRevision) : bool :=
  revisionMatchesExpected observed expected && bool_decide (rev_PlanID observed = restore_PlanID restore) &&
  bool_decide (rev_ChangeID observed = restore_ChangeID restore) && bool_decide (rev_TreeSHA256 observed = restore_FailedTree restore) &&
  bool_decide (rev_RestoreID observed = restore_ID restore) &&
  bool_decide (rev_RestoreSHA256 observed = restore_DescriptorSHA256 restore) &&
  bool_decide (rev_RestoreRootSHA256 observed = restore_RootSHA256 restore).

Definition removeRoot (rootPath : string) (descriptor : restoreDescriptor) (restore : RestoreRef) (expected : ExpectedRevision)
    : S3 PublishedRevision :=
  r ← attempt (Delete o (objectKey repository rootPath) (mkConditions (exp_NativeRevision expected) false));
  match r with
  | Done _ => mret noRevision
  | Raise e => afterRestoreError rootPath descriptor restore e
  end.

Definition putBackRoot (rootPath : string) (descriptor : restoreDescriptor) (restore : RestoreRef) (expected : ExpectedRevision)
    : S3 PublishedRevision :=
  '(content, _) ← or_missing indeterminate (Get o (restoreRootKey repository (restore_ID restore)) maximumMetadataSize);
  _ ← refuse_when (negb (bool_decide (SHA256Hex content = restore_RootSHA256 restore))) indeterminate;
  _ ← validateRestoreTarget rootPath descriptor content;
  r ← attempt (Put o (mkPut (objectKey repository rootPath) content (SHA256Hex content) (res_BeforeMetadata descriptor)
                        (mkConditions (exp_NativeRevision expected) false)));
  match r with
  | Raise e => afterRestoreError rootPath descriptor restore e
  | Done root =>
      p ← attempt Observe;
      match p with
      | Done observed =>
          if bool_decide (observed = revisionFromRestore (info_ETag root) descriptor) then mret observed
          else raise (HostErr ErrorIndeterminate true None)
      | Raise e => raise (HostErr ErrorIndeterminate true (causeOf e))
      end
  end.

Definition restoreLocked (rootPath : string) (restore : RestoreRef) (expected : ExpectedRevision) : S3 PublishedRevision :=
  '(descriptor, digest) ← if_missing indeterminate (loadRestore (restore_ID restore));
  _ ← refuse_when (negb (bool_decide (digest = restore_DescriptorSHA256 restore)) ||
                   negb (bool_decide (res_AfterTreeSHA256 descriptor = restore_FailedTree restore)) ||
                   negb (bool_decide (res_PlanID descriptor = restore_PlanID restore)) ||
                   negb (bool_decide (res_ChangeID descriptor = restore_ChangeID restore))) indeterminate;
  observed ← Observe;
  done ← restorePostcondition rootPath descriptor restore;
  match done with
  | Some revision => mret revision
  | None =>
      _ ← refuse_when (negb (restoreApplies observed restore expected)) stale;
      if negb (res_RootExisted descriptor) then removeRoot rootPath descriptor restore expected
      else putBackRoot rootPath descriptor restore expected
  end.

Definition Restore (restore : RestoreRef) (expected : ExpectedRevision) : S3 PublishedRevision :=
  rootPath ← rootPathOf;
  _ ← checkRepository;
  _ ← refuse_when (negb (validRestoreRef restore)) invalid;
  withLock ("restore-" +:+ restore_ID restore) (restoreLocked rootPath restore expected).
End host.
