(* ===== verification/S3KeyProofs.v ===== *)
(** Object keys of the S3 host: keys of different objects differ, whatever the prefix
    of the repository. *)

From S2P Require Import Prelude GoStrings GoSlices GoRegexp Model Formats Source JsonStrict PlanJson Manifest ManifestProofs Host.
From S2P Require Import S3Store S3Keys S3.

Open Scope Z_scope.

(** ** Plain paths *)

(** A relative path without special components. *)
Definition plainPath (s : string) : Prop := Forall plain_component (Split "/" s).

Lemma Split_single s : mem_byte "/" s = false → Split "/" s = [s].
Proof.
  induction s as [|c s IH]; [done|]. cbn [mem_byte]. intros [Hc Hs]%orb_false_iff. cbn [Split]. by rewrite (IH Hs), Hc.
Qed.

Lemma Split_Join l : l ≠ [] → Forall (λ c, mem_byte "/" c = false) l → Split "/" (Join l "/") = l.
Proof.
  intros Hne Hl. induction Hl as [|x l Hx Hl IH]; [done|]. destruct l as [|y l]; [by apply Split_single|].
  change (Join (x :: y :: l) "/") with (x +:+ String "/" (Join (y :: l) "/")). by rewrite Split_app, Split_single, IH.
Qed.

Lemma Join_inj l k :
  l ≠ [] → k ≠ [] → Forall (λ c, mem_byte "/" c = false) l → Forall (λ c, mem_byte "/" c = false) k →
  Join l "/" = Join k "/" → l = k.
Proof. intros Hl Hk Fl Fk E. by rewrite <- (Split_Join l), <- (Split_Join k), E. Qed.

Lemma plain_noslash l : Forall plain_component l → Forall (λ c, mem_byte "/" c = false) l.
Proof. intros Hl. eapply Forall_impl; [exact Hl|]. by intros c (_ & _ & _ & ?). Qed.

Lemma foldl_plain rooted stack l : Forall plain_component l → foldl (clean_push rooted) stack l = reverse l ++ stack.
Proof.
  intros Hl. revert stack. induction Hl as [|c l (? & ? & ? & _) _ IH]; intros stack; [done|].
  cbn [foldl]. by rewrite clean_push_plain, IH, reverse_cons, <- (assoc_L (++)).
Qed.

Lemma plain_component_single c : plain_component c → plainPath c.
Proof. intros Hc. unfold plainPath. rewrite Split_single by by destruct Hc as (_ & _ & _ & ?). by constructor. Qed.

Lemma plainPath_slash a b : plainPath a → plainPath b → plainPath (a +:+ String "/" b).
Proof. unfold plainPath. intros Ha Hb. rewrite Split_app. by apply Forall_app. Qed.

Lemma plainPath_ne s : plainPath s → s ≠ "".
Proof. intros Hs ->. apply Forall_cons in Hs as [(? & _) _]. done. Qed.

Lemma Clean_unrooted s : HasPrefix s "/" = false → plainPath s → Clean s = s.
Proof.
  intros Hr Hs. unfold Clean. rewrite Hr, foldl_plain by done. rewrite app_nil_r, reverse_involutive, Join_Split.
  by rewrite bool_decide_eq_false_2 by by apply plainPath_ne.
Qed.

Lemma plain_unrooted s : plainPath s → HasPrefix s "/" = false.
Proof.
  destruct s as [|c s]; [done|]. unfold plainPath. cbn [Split HasPrefix]. destruct (ascii_eqb c "/") eqn:E; [|by destruct (Split "/" s)].
  intros [(? & _) _]%Forall_cons. done.
Qed.

Lemma Clean_plain s : plainPath s → Clean s = s.
Proof. intros Hs. apply Clean_unrooted; [by apply plain_unrooted|done]. Qed.

(** A clean relative path that does not start above is plain, or it is the parent directory. *)
Lemma clean_path_plain p :
  p ≠ "." → HasPrefix p "/" = false → Clean p = p → HasPrefix p "../" = false → plainPath p ∨ p = "..".
Proof.
  intros Hd Hr Hc Hp. unfold Clean in Hc. rewrite Hr in Hc. cbn zeta in Hc.
  assert (Hns : Forall (λ c, mem_byte "/" c = false) (Split "/" p)) by (apply Forall_forall; intros c; apply Split_no_slash).
  destruct (clean_stack _ Hns) as (plain & n & E & Hplain). rewrite E in Hc.
  case_bool_decide as Hb; [done|]. rewrite reverse_app, reverse_replicate in Hc.
  assert (Hl : replicate n ".." ++ reverse plain ≠ []) by (intros En; apply Hb; by rewrite reverse_app, reverse_replicate, En).
  assert (Hs : Split "/" p = replicate n ".." ++ reverse plain).
  { rewrite <- Hc at 1. apply Split_Join; [done|]. apply Forall_app. split; [by apply Forall_replicate|].
    apply Forall_reverse. by apply plain_noslash. }
  destruct n as [|n].
  - left. unfold plainPath. rewrite Hs. by apply Forall_reverse.
  - right. rewrite <- (Join_Split p), Hs. cbn [replicate app]. destruct (replicate n ".." ++ reverse plain) as [|x l] eqn:En; [done|].
    assert (p = ".." +:+ "/" +:+ Join (x :: l) "/") as Ep by (by rewrite <- (Join_Split p), Hs; cbn [replicate app]; rewrite En).
    exfalso. rewrite Ep in Hp. change (HasPrefix (".." +:+ "/" +:+ Join (x :: l) "/") "../" = false) in Hp. by cbn in Hp.
Qed.

(** A path the adapter accepts is plain, or it is the parent directory. *)
Lemma validFile_path file : validFile file = true → plainPath (file_Path file) ∨ file_Path file = "..".
Proof.
  unfold validFile. rewrite negb_true_iff. rewrite !orb_false_iff. intros ((((((((He & Hd) & _) & Hr) & Hc) & Hp) & _) & _) & _).
  apply clean_path_plain; [by apply bool_decide_eq_false in Hd|done|by apply negb_false_iff, bool_decide_eq_true in Hc|done].
Qed.

(** ** Trimming *)

Lemma length_TrimRight q s : (String.length (TrimRight q s) ≤ String.length s)%nat.
Proof.
  induction s as [|c s IH]; cbn [TrimRight]; [done|]. destruct (TrimRight q s); [destruct (q c)|]; cbn in *; lia.
Qed.

Lemma TrimRight_snoc q c s : q c = true → TrimRight q (s +:+ String c "") = TrimRight q s.
Proof.
  intros Hq. induction s as [|x s IH].
  { change ("" +:+ String c "") with (String c ""). cbn [TrimRight]. by rewrite Hq. } rewrite str_app_cons. cbn [TrimRight]. by rewrite IH.
Qed.

Lemma trimmed_left c s : TrimByte c s = s → TrimLeft (ascii_eqb c) s = s.
Proof.
  unfold TrimByte, TrimLeft. intros E. pose proof (length_TrimRight (ascii_eqb c) (span (ascii_eqb c) s).2) as Hl.
  rewrite E in Hl. clear E. pose proof (span_app (ascii_eqb c) s) as Hs. revert Hl Hs.
  destruct (span _ s) as [a b]. cbn [fst snd]. intros Hl <-. rewrite str_length_app in Hl.
  by destruct a; [|cbn in Hl; lia].
Qed.

Lemma trimmed_suffix c s t : TrimByte c s = s → s ≠ t +:+ String c "".
Proof.
  intros E ->. pose proof (trimmed_left _ _ E) as El. unfold TrimByte in E. rewrite El, TrimRight_snoc in E by apply ascii_eqb_refl.
  pose proof (length_TrimRight (ascii_eqb c) t) as Hl. rewrite E, str_length_app in Hl. cbn in Hl. lia.
Qed.

Lemma trimmed_prefix s : TrimByte "/" s = s → HasPrefix s "/" = false.
Proof.
  intros E%trimmed_left. destruct (HasPrefix s "/") eqn:Ep; [|done]. apply HasPrefix_spec in Ep as [t ->].
  change ("/" +:+ t) with (String "/" t) in E. unfold TrimLeft in E. cbn [span] in E.
  rewrite ascii_eqb_refl in E. pose proof (span_app (ascii_eqb "/") t) as Hs. revert E Hs.
  destruct (span _ t) as [a b]. cbn [snd fst]. intros -> Hs%(f_equal String.length). rewrite str_length_app in Hs. cbn in Hs. lia.
Qed.

(** ** Keys by their components *)

(** The components of the prefix, as [path.Join] leaves them. *)
Definition base (repository : S3Repository) : list string :=
  if bool_decide (s3_Prefix repository = "") then [] else reverse (foldl (clean_push false) [] (Split "/" (s3_Prefix repository))).

Definition trimmedPrefix (repository : S3Repository) : Prop := TrimByte "/" (s3_Prefix repository) = s3_Prefix repository.

Lemma base_noslash repository : Forall (λ c, mem_byte "/" c = false) (base repository).
Proof.
  unfold base. case_bool_decide; [constructor|]. apply Forall_reverse.
  destruct (clean_stack (Split "/" (s3_Prefix repository))) as (plain & n & -> & Hp).
  { apply Forall_forall. intros c. apply Split_no_slash. }
  apply Forall_app. split; [by apply plain_noslash|by apply Forall_replicate].
Qed.

Lemma objectKey_stack repository name :
  trimmedPrefix repository → s3_Prefix repository ≠ "" → name ≠ "" →
  objectKey repository name =
    let body := Join (reverse (foldl (clean_push false) (reverse (base repository)) (Split "/" name))) "/" in
    if bool_decide (body = "") then "." else body.
Proof.
  intros Ht Hp Hn. unfold objectKey, base. rewrite Ht, !bool_decide_eq_false_2 by done. unfold PathJoin.
  rewrite !filter_cons_True by done. rewrite filter_nil. cbn [Join]. unfold Clean. change ("/" +:+ name) with (String "/" name).
  assert (HasPrefix (s3_Prefix repository +:+ String "/" name) "/" = false) as ->.
  { etrans; [|exact (trimmed_prefix _ Ht)]. by destruct (s3_Prefix repository). }
  by rewrite Split_app, foldl_app, reverse_involutive.
Qed.

Lemma objectKey_plain repository name :
  trimmedPrefix repository → plainPath name → objectKey repository name = Join (base repository ++ Split "/" name) "/".
Proof.
  intros Ht Hn. destruct (decide (s3_Prefix repository = "")) as [E|E].
  { unfold objectKey, base. rewrite !bool_decide_eq_true_2 by done. cbn [app]. rewrite Join_Split. by apply Clean_plain. }
  rewrite objectKey_stack, foldl_plain, reverse_app, !reverse_involutive by (done || by apply plainPath_ne). cbn zeta.
  rewrite bool_decide_eq_false_2; [done|]. intros Hb.
  pose proof (Split_Join (base repository ++ Split "/" name)) as Hs. rewrite Hb in Hs.
  assert (Hne : base repository ++ Split "/" name ≠ []) by (intros [_ En]%app_nil; by apply Split_ne in En).
  specialize (Hs Hne). unfold plainPath in Hn. destruct (base repository) as [|x l] eqn:Eb.
  - cbn [app] in *. rewrite <- Hs in Hn by by apply plain_noslash. by apply Forall_cons in Hn as [(? & _) _].
  - assert (Split "/" "" = (x :: l) ++ Split "/" name) as E1.
    { apply Hs, Forall_app. split; [rewrite <- Eb; apply base_noslash|by apply plain_noslash]. }
    injection E1 as _ E1. symmetry in E1. apply app_nil in E1 as [_ E1]. by apply Split_ne in E1.
Qed.

Lemma objectKey_inj repository a b :
  trimmedPrefix repository → plainPath a → plainPath b → objectKey repository a = objectKey repository b → a = b.
Proof.
  intros Ht Ha Hb. rewrite !objectKey_plain by done. intros E. apply Join_inj in E.
  - apply app_inv_head in E. by rewrite <- (Join_Split a), <- (Join_Split b), E.
  - intros [_ En]%app_nil. by apply Split_ne in En.
  - intros [_ En]%app_nil. by apply Split_ne in En.
  - apply Forall_app. split; [apply base_noslash|by apply plain_noslash].
  - apply Forall_app. split; [apply base_noslash|by apply plain_noslash].
Qed.

(** ** Reserved keys and the root *)

Definition reservedPath (name : string) : Prop := plainPath name ∧ ∃ t, Split "/" name = ".snailmail" :: t.

(** A root the formats publish: not in the reserved directory, and not the page. *)
Definition liveRoot (rootPath : string) : Prop :=
  plainPath rootPath ∧ rootPath ≠ listingFilename ∧ ¬ ∃ t, Split "/" rootPath = ".snailmail" :: t.

Lemma digest_plain value : ValidSHA256 value = true → plain_component value.
Proof.
  intros [Hl Hh]%validLowerHex_spec. unfold plain_component. split; [|split; [|split]]; try (intros ->; cbn in Hl; lia).
  by apply (all_bytes_mem is_lower_hex).
Qed.

Lemma suffixed_plain value suffix :
  ValidSHA256 value = true → mem_byte "/" suffix = false → plain_component (value +:+ suffix).
Proof.
  intros Hv Hs. pose proof (digest_plain _ Hv) as (_ & _ & _ & Hm). apply validLowerHex_spec in Hv as [Hl _].
  assert (64 ≤ String.length (value +:+ suffix))%nat as Hn by (rewrite str_length_app; lia).
  unfold plain_component. split; [|split; [|split]]; [intros E; rewrite E in Hn; cbn in Hn; lia..|].
  by rewrite mem_byte_app, Hm.
Qed.

Lemma filter_nonempty l : Forall plainPath l → filter (λ e, e ≠ "") l = l.
Proof. induction 1 as [|x l Hx%plainPath_ne _ IH]; [done|]. by rewrite filter_cons_True, IH. Qed.

Lemma PathJoin_plain l :
  l ≠ [] → Forall plainPath l → PathJoin l = Join l "/" ∧ Split "/" (PathJoin l) = mjoin (Split "/" <$> l) ∧ plainPath (PathJoin l).
Proof.
  intros Hne Hl.
  assert (Hs : Split "/" (Join l "/") = mjoin (Split "/" <$> l)).
  { induction Hl as [|x l Hx Hl IH]; [done|]. destruct l as [|y l]; [cbn; by rewrite app_nil_r|].
    change (Join (x :: y :: l) "/") with (x +:+ String "/" (Join (y :: l) "/")). rewrite Split_app, IH by done. done. }
  assert (Hp : plainPath (Join l "/")).
  { unfold plainPath. rewrite Hs. clear Hs Hne. induction Hl as [|x l Hx Hl IH]; [constructor|]. cbn. by apply Forall_app. }
  assert (PathJoin l = Join l "/") as ->.
  { unfold PathJoin. rewrite filter_nonempty by done.
    destruct l; [done|]. by apply Clean_plain. }
  done.
Qed.

Lemma reserved_join l : Forall plainPath l → reservedPath (PathJoin (".snailmail" :: l)).
Proof.
  intros Hl. assert (Hall : Forall plainPath (".snailmail" :: l)).
  { constructor; [|done]. apply plain_component_single. done. }
  destruct (PathJoin_plain _ (ltac:(discriminate) : ".snailmail" :: l ≠ []) Hall) as (_ & Hs & Hp).
  split; [done|]. rewrite Hs. by eexists.
Qed.

Lemma reserved_not_root repository name rootPath :
  trimmedPrefix repository → reservedPath name → liveRoot rootPath → objectKey repository name ≠ objectKey repository rootPath.
Proof.
  intros Ht [Hn [t Et]] (Hr & _ & Hs) E. apply objectKey_inj in E; [|done..]. subst. apply Hs. by exists t.
Qed.

(** A file named [..] in the release directory leaves it, but not the reserved one. *)
Lemma release_parent tree :
  ValidSHA256 tree = true → reservedPath (PathJoin [".snailmail"; "releases"; tree; ".."]).
Proof.
  intros Ht%digest_plain. pose proof Ht as (? & ? & ? & ?).
  assert (PathJoin [".snailmail"; "releases"; tree; ".."] = ".snailmail/releases") as ->; [|by split; [repeat constructor|eexists]].
  unfold PathJoin. rewrite !filter_cons_True by done. rewrite filter_nil. cbn zeta. unfold Clean.
  change (Join [".snailmail"; "releases"; tree; ".."] "/") with (".snailmail" +:+ String "/" ("releases" +:+ String "/" (tree +:+ String "/" ".."))).
  rewrite !Split_app, (Split_single tree) by done. cbn [HasPrefix]. change (HasPrefix _ "/") with false.
  change (Split "/" ".snailmail") with [".snailmail"]. change (Split "/" "releases") with ["releases"]. change (Split "/" "..") with [".."].
  cbn [app foldl]. rewrite (clean_push_plain _ _ ".snailmail"), (clean_push_plain _ _ "releases"), (clean_push_plain _ _ tree) by done.
  unfold clean_push. rewrite bool_decide_eq_false_2 by done. cbn [orb]. rewrite bool_decide_eq_false_2 by done.
  rewrite bool_decide_eq_true_2 by done. rewrite bool_decide_eq_false_2 by done. done.
Qed.

Lemma releaseKey_reserved tree name :
  ValidSHA256 tree = true → plainPath name ∨ name = ".." → reservedPath (PathJoin [".snailmail"; "releases"; tree; name]).
Proof.
  intros Ht [Hn| ->]; [|by apply release_parent]. apply reserved_join. repeat constructor; try done.
  by apply plain_component_single, digest_plain.
Qed.

Lemma rootKey_split repository rootPath :
  trimmedPrefix repository → plainPath rootPath → Split "/" (objectKey repository rootPath) = base repository ++ Split "/" rootPath.
Proof.
  intros Ht Hr. rewrite objectKey_plain by done. apply Split_Join.
  - intros [_ En]%app_nil. by apply Split_ne in En.
  - apply Forall_app. split; [apply base_noslash|by apply plain_noslash].
Qed.

(** A file named [..] is not published over the root either. *)
Lemma parent_not_root repository rootPath :
  trimmedPrefix repository → plainPath rootPath → objectKey repository ".." ≠ objectKey repository rootPath.
Proof.
  intros Ht Hr E. pose proof (rootKey_split _ _ Ht Hr) as Hs. rewrite <- E in Hs. clear E.
  assert (Hplain : ¬ plain_component "..") by (by intros (_ & _ & ? & _)).
  destruct (decide (s3_Prefix repository = "")) as [Ep|Ep].
  { unfold objectKey, base in Hs. rewrite !bool_decide_eq_true_2 in Hs by done. change (Clean "..") with ".." in Hs.
    change (Split "/" "..") with [".."] in Hs. cbn [app] in Hs. unfold plainPath in Hr. rewrite <- Hs in Hr. by apply Forall_cons in Hr as [? _]. }
  rewrite objectKey_stack in Hs by done. cbn zeta in Hs. change (Split "/" "..") with [".."] in Hs. cbn [foldl] in Hs.
  pose proof (base_noslash repository) as Hb. set (l := base repository) in *. clearbody l.
  assert (Hroot : (1 ≤ length (Split "/" rootPath))%nat) by (pose proof (Split_ne rootPath); destruct (Split "/" rootPath); cbn; [done|lia]).
  destruct (reverse l) as [|top rest] eqn:El.
  - apply (f_equal reverse) in El. rewrite reverse_involutive in El. subst l. unfold clean_push in Hs. cbn in Hs. unfold plainPath in Hr.
    rewrite <- Hs in Hr. by apply Forall_cons in Hr as [? _].
  - assert (l = reverse rest ++ [top]) as -> by (rewrite <- (reverse_involutive l), El; apply reverse_cons).
    apply Forall_app in Hb as [Hb Hb'].
    change (clean_push false (top :: rest) "..") with (if bool_decide (top = "..") then ".." :: top :: rest else rest) in Hs.
    destruct (bool_decide (top = "..")) eqn:Et; [apply bool_decide_eq_true in Et|].
    + subst top. rewrite !reverse_cons in Hs. rewrite bool_decide_eq_false_2 in Hs.
      * rewrite Split_Join in Hs; [|by destruct (reverse rest)|rewrite !Forall_app; split; [split; [done|by constructor]|by repeat constructor]].
        apply app_inv_head in Hs. unfold plainPath in Hr. rewrite <- Hs in Hr. by apply Forall_cons in Hr as [? _].
      * rewrite Join_app by (by destruct (reverse rest)). intros En%(f_equal String.length). rewrite !str_length_app in En. cbn in En. lia.
    + apply (f_equal length) in Hs. rewrite !length_app in Hs. cbn [length] in Hs. case_bool_decide; [change (Split "/" ".") with ["."] in Hs; cbn [length] in Hs; lia|].
      destruct (reverse rest) as [|y k] eqn:Ek; [done|]. rewrite Split_Join in Hs by done. lia.
Qed.

Lemma publishedFileKey_not_root repository tree rootPath file :
  trimmedPrefix repository → liveRoot rootPath → ValidSHA256 tree = true → validFile file = true →
  publishedFileKey repository tree rootPath (file_Path file) ≠ objectKey repository rootPath.
Proof.
  intros Ht Hr Hd Hf. pose proof (validFile_path _ Hf) as Hp. unfold publishedFileKey.
  destruct (hasRewriter repository || _ || _) eqn:E.
  - apply reserved_not_root; [done| |done]. by apply releaseKey_reserved.
  - apply orb_false_iff in E as [[_ E]%orb_false_iff _]. apply bool_decide_eq_false in E. destruct Hp as [Hp|Hp].
    + intros Ek. apply objectKey_inj in Ek; [done..|by destruct Hr].
    + rewrite Hp. apply parent_not_root; [done|by destruct Hr].
Qed.
