(* ===== verification/S3Proofs.v ===== *)
(** What publishing to a shared bucket does, whatever else happens to the bucket and
    whichever requests are lost: for every [Outside]. *)

From S2P Require Import Prelude GoStrings GoSlices GoRegexp Model Formats Source JsonStrict PlanJson Manifest ManifestProofs Host.
From S2P Require Import S3Store S3Keys S3 S3KeyProofs.

Open Scope Z_scope.

Create HintDb writes.

(** Every run of [m] only appends to the writes, and only writes in [P]. *)
Definition wrote {A} (P : Write → Prop) (m : S3 A) : Prop :=
  ∀ w, ∃ ext, world_writes (m w).1 = world_writes w ++ ext ∧ Forall P ext.

Section wrote.
Context (P : Write → Prop).

Lemma wrote_ret {A} (a : A) : wrote P (mret a).
Proof. intros w. exists []. by rewrite app_nil_r. Qed.
Lemma wrote_raise {A} e : wrote P (raise e : S3 A).
Proof. intros w. exists []. by rewrite app_nil_r. Qed.
Lemma wrote_refuse c e : wrote P (refuse_when c e).
Proof. intros w. exists []. rewrite app_nil_r. by destruct c. Qed.
Lemma wrote_lift {A} e (o : option A) : wrote P (lift_option e o).
Proof. intros w. exists []. rewrite app_nil_r. by destruct o. Qed.

Lemma wrote_bind {A B} (m : S3 A) (f : A → S3 B) : wrote P m → (∀ a, wrote P (f a)) → wrote P (m ≫= f).
Proof.
  intros Hm Hf w. destruct (Hm w) as (ext & E & Hext). unfold mbind, S3_bind. destruct (m w) as [w1 [a|e]]; cbn [fst] in *; [|by exists ext].
  destruct (Hf a w1) as (ext' & E' & Hext'). exists (ext ++ ext'). by rewrite E', E, (assoc_L (++)), Forall_app.
Qed.
Lemma wrote_attempt {A} (m : S3 A) : wrote P m → wrote P (attempt m).
Proof. intros Hm w. destruct (Hm w) as (ext & E & Hext). exists ext. unfold attempt. by destruct (m w). Qed.
Lemma wrote_forEach {A} (f : A → S3 ()) l : (∀ x, x ∈ l → wrote P (f x)) → wrote P (forEach f l).
Proof.
  induction l as [|x l IH]; intros Hf; [apply wrote_ret|]. apply wrote_bind; [apply Hf; by left|].
  intros _. apply IH. intros y Hy. apply Hf. by right.
Qed.

Context `{HashLib} (o : Outside).

Lemma wrote_time : wrote P (currentTime o).
Proof. intros w. exists []. by rewrite app_nil_r. Qed.
Lemma wrote_read {A} (f : Bucket → outcome A) : wrote P (read o f).
Proof. intros w. exists []. by rewrite app_nil_r. Qed.
Lemma wrote_Head key : wrote P (Head o key).
Proof. apply wrote_read. Qed.
Lemma wrote_Get key maximum : wrote P (Get o key maximum).
Proof. apply wrote_read. Qed.

Lemma wrote_write {A} key (f : nat → Bucket → StoreError + option Object * A) :
  (∀ n bucket object a, f n bucket = inr (object, a) → P (mkWrite key (bucket !! key) object)) → wrote P (write o key f).
Proof.
  intros Hf w. unfold write. cbn zeta. destruct (fault o (world_clock w)).
  2:{ exists []. by rewrite app_nil_r. }
  all: destruct (f _ _) as [e|[object a]] eqn:E; [exists []; by rewrite app_nil_r|eexists; split; [done|]; constructor; [by eapply Hf|done]].
Qed.

Lemma wrote_Put request :
  (∀ existing etag, conditionFails o (put_Conditions request) existing = None →
     P (mkWrite (put_Key request) existing (Some (mkObject (put_Body request) etag (put_SHA256 request) (put_Metadata request))))) →
  wrote P (Put o request).
Proof.
  intros Hp. apply wrote_write. intros n bucket object a. destruct (conditionFails _ _ _) eqn:Ec; [done|].
  destruct (negb _); [done|]. intros [= <- <-]. by apply Hp.
Qed.

Lemma wrote_CopyCreate source destination size digest :
  (∀ object, P (mkWrite destination None (Some object))) → wrote P (CopyCreate o source destination size digest).
Proof.
  intros Hp. apply wrote_bind; [apply wrote_Head|]. intros info. apply wrote_bind; [apply wrote_refuse|]. intros _.
  apply wrote_bind; [|intros etag; apply wrote_bind; [apply wrote_Head|intros; apply wrote_ret]].
  apply wrote_write. intros n bucket object a. destruct (bucket !! source) as [found|]; [|done]. destruct (negb _); [done|].
  case_bool_decide as Hd; [done|]. intros [= <- <-]. destruct (bucket !! destination); [by destruct Hd|apply Hp].
Qed.

Lemma wrote_Delete key conditions :
  (∀ object, P (mkWrite key (Some object) None)) → wrote P (Delete o key conditions).
Proof.
  intros Hp w. unfold Delete. cbn zeta. destruct (fault o (world_clock w)).
  2:{ exists []. by rewrite app_nil_r. }
  all: destruct (world_bucket (arrive o w) !! key) as [object|] eqn:E; [|exists []; by rewrite app_nil_r].
  all: destruct (negb _ && negb _); [exists []; by rewrite app_nil_r|].
  all: eexists; split; [done|]; rewrite E; by constructor.
Qed.
End wrote.
#[export] Hint Resolve wrote_ret wrote_raise wrote_refuse wrote_lift wrote_time wrote_read wrote_Head wrote_Get : writes.

(** Decompose a computation into its writes. *)
Ltac writes :=
  repeat match goal with
  | |- wrote _ (_ ≫= _) => apply wrote_bind
  | |- wrote _ (attempt _) => apply wrote_attempt
  | |- wrote _ (forEach _ _) => apply wrote_forEach
  | |- wrote _ (if ?c then _ else _) => destruct c
  | |- wrote _ (match ?c with _ => _ end) => destruct c
  | |- ∀ _, _ => intros ?
  | |- wrote _ _ => solve [eauto with writes]
  end.

Lemma wrote_weaken {A} (P Q : Write → Prop) (m : S3 A) : (∀ x, P x → Q x) → wrote P m → wrote Q m.
Proof. intros HPQ Hm w. destruct (Hm w) as (ext & E & Hext). exists ext. split; [done|]. eapply Forall_impl; [done|]. apply HPQ. Qed.

Lemma S3_bind_run {A B} (m : S3 A) (f : A → S3 B) w w1 r :
  m w = (w1, r) → (m ≫= f) w = match r with Done a => f a w1 | Raise e => (w1, Raise e) end.
Proof. unfold mbind, S3_bind. intros ->. by destruct r. Qed.

Lemma attempt_bind {A B} (m : S3 A) (f : outcome A → S3 B) w : (attempt m ≫= f) w = let '(w1, r) := m w in f r w1.
Proof. unfold mbind, S3_bind, attempt. by destruct (m w). Qed.

Lemma attempt_inv {A} (m : S3 A) w w' r : attempt m w = (w', r) → ∃ q, r = Done q ∧ m w = (w', q).
Proof. unfold attempt. destruct (m w) as [w1 q]. intros [= <- <-]. by exists q. Qed.

Section host.
Context `{NetLib, TimeLib, HashLib, !S3Lib} (o : Outside) (broker : bool) (access : nat → outcome ()) (repository : S3Repository).

(** ** Reading writes nothing *)

Section reads.
Context (P : Write → Prop).

Lemma wrote_issueAccess : wrote P (issueAccess access).
Proof. intros w. exists []. by rewrite app_nil_r. Qed.
Lemma wrote_wrapped {A} (m : S3 A) : wrote P m → wrote P (wrapped m).
Proof. intros Hm. unfold wrapped. writes. Qed.
Lemma wrote_or_missing {A} e (m : S3 A) : wrote P m → wrote P (or_missing e m).
Proof. intros Hm. unfold or_missing. writes. Qed.
Lemma wrote_if_missing {A} e (m : S3 A) : wrote P m → wrote P (if_missing e m).
Proof. intros Hm. unfold if_missing. writes. Qed.
Hint Resolve wrote_issueAccess wrote_wrapped wrote_or_missing wrote_if_missing : writes.

Lemma wrote_loadStage identifier : wrote P (loadStage o repository identifier).
Proof. unfold loadStage. writes. Qed.
Lemma wrote_loadStagePointer effectID : wrote P (loadStagePointer o repository effectID).
Proof. unfold loadStagePointer. writes. Qed.
Lemma wrote_loadRelease tree : wrote P (loadRelease o repository tree).
Proof. unfold loadRelease. writes. Qed.
Lemma wrote_loadRestore identifier : wrote P (loadRestore o repository identifier).
Proof. unfold loadRestore. writes. Qed.
Hint Resolve wrote_loadStage wrote_loadStagePointer wrote_loadRelease wrote_loadRestore : writes.

Lemma wrote_checkReleaseFile tree rootPath file : wrote P (checkReleaseFile o repository tree rootPath file).
Proof. unfold checkReleaseFile. writes. Qed.
Hint Resolve wrote_checkReleaseFile : writes.

Lemma wrote_Observe : wrote P (Observe o broker repository).
Proof.
  unfold Observe, rootPathOf, checkRepository, observeManaged, checkRelease, checkRestoreState, checkRoot. cbn zeta. writes.
Qed.
Hint Resolve wrote_Observe : writes.

Lemma wrote_ReadAccess revision : wrote P (ReadAccess o broker access repository revision).
Proof. unfold ReadAccess, rootPathOf, checkRepository. writes. Qed.
Lemma wrote_validateRestoreTarget rootPath descriptor content : wrote P (validateRestoreTarget o repository rootPath descriptor content).
Proof. unfold validateRestoreTarget. cbn zeta. writes. Qed.
Lemma wrote_restorePostcondition rootPath descriptor restore :
  wrote P (restorePostcondition o broker repository rootPath descriptor restore).
Proof. unfold restorePostcondition. writes. Qed.
End reads.
Hint Resolve wrote_issueAccess wrote_wrapped wrote_or_missing wrote_if_missing wrote_loadStage wrote_loadStagePointer wrote_loadRelease
  wrote_loadRestore wrote_checkReleaseFile wrote_Observe wrote_ReadAccess wrote_validateRestoreTarget wrote_restorePostcondition : writes.

(** ** Nothing published is overwritten *)

(** The objects that change from one publication to the next. *)
Definition mutable (rootPath key : string) : Prop :=
  key = objectKey repository rootPath ∨ key = commitLockKey repository ∨ key = browsablePageKey repository.

Definition creates (rootPath : string) (x : Write) : Prop := write_before x = None ∨ mutable rootPath (write_key x).

Lemma created_before conditions existing : IfNoneMatch conditions = true → conditionFails o conditions existing = None → existing = None.
Proof. intros Hi. unfold conditionFails. destruct existing; [by rewrite Hi|done]. Qed.

Lemma wrote_create (P : Write → Prop) key content :
  (∀ object, P (mkWrite key None (Some object))) → wrote P (createExactly o key content).
Proof.
  intros Hp. unfold createExactly. writes. apply wrote_Put. intros existing etag ->%created_before; [apply Hp|done].
Qed.

Lemma wrote_lock {A} (P : Write → Prop) owner (body : S3 A) :
  (∀ before after, P (mkWrite (commitLockKey repository) before after)) → wrote P body → wrote P (withLock o repository owner body).
Proof.
  intros Hp Hb. unfold withLock, acquireCommitLock. cbn zeta. writes; try apply wrote_wrapped; (apply wrote_Delete || apply wrote_Put); intros; apply Hp.
Qed.

(** What is written before the root is switched is created. *)
Lemma wrote_publishRelease (P : Write → Prop) stageID rootPath descriptor observed :
  (∀ file object, file ∈ treeFiles (desc_Files descriptor) →
     P (mkWrite (publishedFileKey repository (desc_TreeSHA256 descriptor) rootPath (file_Path file)) None (Some object))) →
  (∀ object, P (mkWrite (releaseDescriptorKey repository (desc_TreeSHA256 descriptor)) None (Some object))) →
  (∀ file object, manifestFile descriptor = Some file → P (mkWrite (publicationManifestKey repository (file_SHA256 file)) None (Some object))) →
  (∀ object, P (mkWrite (restoreRootKey repository stageID) None (Some object))) →
  (∀ object, P (mkWrite (restoreDescriptorKey repository stageID) None (Some object))) →
  wrote P (publishObjects o access repository stageID rootPath descriptor observed).
Proof.
  intros Hf Hd Hm Hr Hs. unfold publishObjects. apply wrote_bind.
  { unfold materializeRelease. cbn zeta. apply wrote_bind; [|intros _; apply wrote_bind; [by apply wrote_create|writes]].
    apply wrote_forEach. intros file Hin. unfold materializeObject. cbn zeta. writes. apply wrote_CopyCreate. intros. by apply Hf. }
  intros releaseDigest. apply wrote_bind.
  { unfold materializePublicationManifest. destruct (manifestFile descriptor) as [file|] eqn:Em; [|intros w; exists []; by rewrite app_nil_r].
    match goal with |- wrote _ (_ ≫= ?k) => change (wrote P (k file)) end. cbv beta. writes. apply wrote_CopyCreate. intros. by apply Hm. }
  intros manifestDigest. apply wrote_bind.
  { unfold prepareRestore, retainRoot. cbn zeta. writes; [|by apply wrote_create].
    apply wrote_Put. intros existing etag ->%created_before; [apply Hr|done]. }
  writes.
Qed.

(** ** Descriptors that load *)

Lemma filesWithinLimits_valid previous total files : filesWithinLimits previous total files = true → Forall (λ file, validFile file = true) files.
Proof.
  revert previous total. induction files as [|file files IH]; intros previous total; [constructor|]. cbn [filesWithinLimits].
  intros Hf. split_bools. constructor; [done|]. by eapply IH.
Qed.

Lemma descriptorFromRequest_ok planID changeID tree files paths d :
  descriptorFromRequest repository planID changeID tree files paths = Some d →
  ValidSHA256 (desc_TreeSHA256 d) = true ∧ Forall (λ file, validFile file = true) (desc_Files d).
Proof.
  unfold descriptorFromRequest. destruct (singleRootPath repository) as [rootPath|]; [|done]. cbn zeta.
  destruct (negb (ValidSHA256 tree) || _ || _) eqn:E1; [done|]. destruct (negb (bool_decide (paths = _))); [done|].
  destruct (bool_decide _ || _); [done|]. destruct (negb (filesWithinLimits _ _ _)) eqn:E2; [done|].
  destruct (negb (existsb _ _)); [done|]. destruct (negb (bool_decide _)); [done|]. destruct (maximumMetadataSize <? _); [done|].
  intros [= <-]. cbn. split_bools. split; [done|]. by eapply filesWithinLimits_valid.
Qed.

Lemma loadStage_ok identifier w w1 d :
  loadStage o repository identifier w = (w1, Done d) →
  validIdentifier identifier = true ∧ ValidSHA256 (desc_TreeSHA256 d) = true ∧ Forall (λ file, validFile file = true) (desc_Files d).
Proof.
  unfold loadStage, refuse_when. destruct (validIdentifier identifier); cbn [negb]; [|done]. unfold mbind, S3_bind, mret, S3_ret.
  destruct (wrapped _ w) as [w2 [[content info]|e]]; [|done]. unfold decodePublicationDescriptor.
  destruct (UnmarshalPublication content) as [d'|]; [|done]. cbn zeta. case_bool_decide as Hd; [|done]. intros [= _ <-].
  by apply descriptorFromRequest_ok in Hd.
Qed.

Lemma publishRelease_binding stageID rootPath descriptor observed w w1 content binding :
  publishObjects o access repository stageID rootPath descriptor observed w = (w1, Done (content, binding)) →
  bind_TreeSHA256 binding = desc_TreeSHA256 descriptor ∧ bind_PlanID binding = desc_PlanID descriptor ∧
  bind_ChangeID binding = desc_ChangeID descriptor ∧ bind_RestoreID binding = stageID.
Proof.
  unfold publishObjects, mbind, S3_bind. destruct (materializeRelease _ _ _ _ _ w) as [wa [ra|]]; [|done].
  destruct (materializePublicationManifest _ _ _ _ wa) as [wb [rb|]]; [|done].
  destruct (prepareRestore _ _ _ _ _ _ wb) as [wc [[rc rd]|]]; [|done].
  destruct (wrapped _ wc) as [wd [[re rf]|]]; [|done]. cbn zeta. destruct (rewriteRoot _ _ _ _); [|done]. cbn.
  destruct (access _); [|done]. by intros [= _ _ <-].
Qed.

(** ** The switch of the root *)

Section switching.
Context (rootPath : string) {C : Type} (switchWrite : Write → Prop) (reported : C → Prop).

(** A write beside the root, that replaces nothing that was published. *)
Definition besideRoot (x : Write) : Prop := write_key x ≠ objectKey repository rootPath ∧ creates rootPath x.

(** Every run of [m] makes at most one of the switching writes, among writes beside the
    root; it reports what it should, and warns when it may have switched. *)
Definition switched (w w' : World) (r : outcome C) : Prop :=
  ∃ pre switch post, world_writes w' = world_writes w ++ pre ++ switch ++ post ∧ Forall besideRoot pre ∧ Forall besideRoot post ∧
    (switch = [] ∨ ∃ x, switch = [x] ∧ switchWrite x) ∧
    match r with
    | Done c => reported c
    | Raise e => effectMayHaveOccurred e = false → switch = []
    end.
Definition Switching (m : S3 C) : Prop := ∀ w, switched w (m w).1 (m w).2.

Lemma switches_raise e : Switching (raise e).
Proof. intros w. exists [], [], []. rewrite !app_nil_r. split; [done|]. split; [constructor|]. split; [constructor|]. by split; [left|]. Qed.

Lemma switches_ret c : reported c → Switching (mret c).
Proof. intros Hc w. exists [], [], []. rewrite !app_nil_r. split; [done|]. split; [constructor|]. split; [constructor|]. by split; [left|]. Qed.

Lemma switches_bind {A} (m : S3 A) (f : A → S3 C) (Q : A → Prop) :
  wrote besideRoot m → (∀ w w1 a, m w = (w1, Done a) → Q a) → (∀ a, Q a → Switching (f a)) → Switching (m ≫= f).
Proof.
  intros Hm Hq Hf w. destruct (Hm w) as (ext & E & Hext). destruct (m w) as [w1 r] eqn:Em. rewrite (S3_bind_run _ _ _ _ _ Em). cbn [fst] in E.
  destruct r as [a|e].
  - destruct (Hf a (Hq _ _ _ Em) w1) as (pre & switch & post & E' & Hpre & Hpost & Hs & Hr). exists (ext ++ pre), switch, post.
    rewrite E', E, <- !(assoc_L (++)), Forall_app. done.
  - exists ext, [], []. cbn [fst snd]. rewrite !app_nil_r. split; [done|]. split; [done|]. split; [constructor|]. by split; [left|].
Qed.

Lemma switches_bind_any {A} (m : S3 A) (f : A → S3 C) : wrote besideRoot m → (∀ a, Switching (f a)) → Switching (m ≫= f).
Proof. intros Hm Hf. by apply (switches_bind _ _ (λ _, True)). Qed.

(** The request that switches, and what is made of its answer: [settle] only reads or
    writes beside the root, and where the request failed in a way that leaves its effect
    open it reports or warns. *)
Lemma switches_request {A} (request : S3 A) (settle : outcome A → S3 C) :
  (∀ w, (∃ x, world_writes (request w).1 = world_writes w ++ [x] ∧ switchWrite x ∧
           ((∃ a, (request w).2 = Done a) ∨ (request w).2 = Raise (StoreErr ErrOther))) ∨
        world_writes (request w).1 = world_writes w) →
  (∀ r, wrote besideRoot (settle r)) →
  (∀ r w w' c, settle r w = (w', Done c) → reported c) →
  (∀ a w w' e, settle (Done a) w = (w', Raise e) → effectMayHaveOccurred e = true) →
  (∀ w w' e, settle (Raise (StoreErr ErrOther)) w = (w', Raise e) → effectMayHaveOccurred e = true) →
  Switching (attempt request ≫= settle).
Proof.
  intros Hreq Hw Hrep Hdone Hother w. specialize (Hreq w). destruct (request w) as [w1 r] eqn:Er.
  assert (Ea : attempt request w = (w1, Done r)) by (unfold attempt; by rewrite Er). rewrite (S3_bind_run _ _ _ _ _ Ea). cbn [fst snd] in Hreq.
  destruct (Hw r w1) as (ext & E & Hext). destruct (settle r w1) as [w2 out] eqn:Es. cbn [fst snd] in *.
  destruct Hreq as [(x & Ex & Hx & Hr)|Ex].
  - exists [], [x], ext. rewrite E, Ex, <- !(assoc_L (++)). split; [done|]. split; [constructor|]. split; [done|].
    split; [right; by exists x|]. destruct out as [c|e]; [by eapply Hrep|]. destruct Hr as [[a ->]| ->]; intros Hf;
      [rewrite (Hdone _ _ _ _ Es) in Hf|rewrite (Hother _ _ _ Es) in Hf]; done.
  - exists ext, [], []. rewrite !app_nil_r, E, Ex. split; [done|]. split; [done|]. split; [constructor|]. split; [by left|].
    destruct out as [c|e']; [by eapply Hrep|done].
Qed.
End switching.

Section commit.
Context (rootPath : string) (staged : S3Staged) (expected : ExpectedRevision).

(** The root that was found is the one the plan expected. *)
Definition replacesExpected (found : option Object) : Prop :=
  match found with
  | Some object => exp_NativeRevision expected ≠ "" ∧ obj_ETag object = exp_NativeRevision expected
  | None => exp_NativeRevision expected = ""
  end.

Definition bindsStage (tree plan change restore : string) : Prop :=
  tree = sp_TreeSHA256 staged ∧ plan = sp_PlanID staged ∧ change = sp_ChangeID staged ∧ restore = sp_ID staged.

(** The one write that makes the staged publication live. *)
Definition publishesStage (x : Write) : Prop :=
  write_key x = objectKey repository rootPath ∧ replacesExpected (write_before x) ∧
  ∃ object, write_after x = Some object ∧
    let m := obj_Metadata object in bindsStage (meta m "tree-sha256") (meta m "plan-id") (meta m "change-id") (meta m "restore-id").
Definition reportsStage (c : CommitResult) : Prop :=
  let v := com_Revision c in bindsStage (rev_TreeSHA256 v) (rev_PlanID v) (rev_ChangeID v) (rev_RestoreID v).

Lemma conditionFails_expected existing :
  conditionFails o (mkConditions (exp_NativeRevision expected) (bool_decide (exp_NativeRevision expected = ""))) existing = None →
  replacesExpected existing.
Proof.
  unfold conditionFails, replacesExpected. cbn. destruct existing as [object|]; repeat case_bool_decide; cbn; done.
Qed.

Lemma rootMetadata_meta binding :
  meta (rootMetadata binding) "tree-sha256" = bind_TreeSHA256 binding ∧ meta (rootMetadata binding) "plan-id" = bind_PlanID binding ∧
  meta (rootMetadata binding) "change-id" = bind_ChangeID binding ∧ meta (rootMetadata binding) "restore-id" = bind_RestoreID binding.
Proof. unfold rootMetadata, meta. case_bool_decide; rewrite ?(lookup_insert_ne _ "restore-root-sha256") by done; by repeat split. Qed.

Definition bindingOfStage (binding : rootBinding) : Prop :=
  bindsStage (bind_TreeSHA256 binding) (bind_PlanID binding) (bind_ChangeID binding) (bind_RestoreID binding).

Lemma Put_run request w :
  (∃ existing etag info, conditionFails o (put_Conditions request) existing = None ∧
     world_writes (Put o request w).1 = world_writes w ++
       [mkWrite (put_Key request) existing (Some (mkObject (put_Body request) etag (put_SHA256 request) (put_Metadata request)))] ∧
     ((Put o request w).2 = Done info ∨ (Put o request w).2 = Raise (StoreErr ErrOther))) ∨
  (world_writes (Put o request w).1 = world_writes w ∧ ∃ e, (Put o request w).2 = Raise (StoreErr e)).
Proof.
  unfold Put, write. cbn zeta. set (bucket := world_bucket (arrive o w)). destruct (fault o (world_clock w)).
  2:{ right. split; [done|]. by exists ErrOther. }
  all: destruct (conditionFails _ _ _) as [e|] eqn:Ec; [right; split; [done|by eexists]|].
  all: destruct (negb _); [right; split; [done|by eexists]|].
  all: left; eexists _, _, _; split; [done|]; split; [done|].
  - by left.
  - by right.
  Unshelve. exact (mkInfo "" 0 "" ∅).
Qed.

Lemma page_beside : liveRoot rootPath → trimmedPrefix repository →
  ∀ before after, besideRoot rootPath (mkWrite (browsablePageKey repository) before after).
Proof.
  intros (Hp & Hl & _) Ht before after. split; [|by right; right; right]. cbn. intros E.
  apply objectKey_inj in E; [done|done| |done]. by apply plain_component_single.
Qed.

Lemma lock_beside : liveRoot rootPath → trimmedPrefix repository →
  ∀ before after, besideRoot rootPath (mkWrite (commitLockKey repository) before after).
Proof.
  intros Hr Ht before after. split; [|by right; right; left]. cbn. apply reserved_not_root; [done| |done].
  apply reserved_join. by repeat constructor.
Qed.

(** A failure to refresh the page is no failure of the commit. *)
Lemma refresh_done stageID w : ∃ w', refreshBrowsablePage o repository stageID w = (w', Done ()).
Proof.
  unfold refreshBrowsablePage, mbind, S3_bind, attempt. destruct (Get o _ _ w) as [w1 [[content info]|e]]; [|by eexists].
  by destruct (Put o _ w1); eexists.
Qed.

Lemma switchRoot_switches content binding :
  liveRoot rootPath → trimmedPrefix repository → bindingOfStage binding →
  Switching rootPath publishesStage reportsStage (switchRoot o broker repository (sp_ID staged) rootPath content binding expected).
Proof.
  intros Hroot Ht Hb. unfold switchRoot. apply switches_request.
  - intros w. destruct (Put_run (rootRequest repository rootPath content binding expected) w) as
      [(existing & etag & info & Hc & Hw & Hr)|(Hw & e & He)]; [left|by right].
    eexists. split; [exact Hw|]. split; [|destruct Hr; by eauto]. split; [done|]. split; [by apply conditionFails_expected|].
    eexists. split; [done|]. cbn. destruct (rootMetadata_meta binding) as (-> & -> & -> & ->). exact Hb.
  - intros [root|e]; unfold refreshBrowsablePage; writes; try apply wrote_Observe. apply wrote_Put. intros. by apply page_beside.
  - intros [root|e] w w' c; unfold reportsStage.
    + destruct (refresh_done (sp_ID staged) w) as [w2 Er]. rewrite (S3_bind_run _ _ _ _ _ Er). intros [= _ <-]. exact Hb.
    + destruct (attempt (Observe o broker repository) w) as [w2 p] eqn:Eo. rewrite (S3_bind_run _ _ _ _ _ Eo). apply attempt_inv in Eo as ([post|e'] & -> & _); [|done].
      destruct (revisionMatchesBinding post binding) eqn:Em; [intros [= _ <-]|by destruct (isError _ _)].
      unfold revisionMatchesBinding in Em. split_bools. unfold bindingOfStage, bindsStage in *. cbn. destruct Hb as (? & ? & ? & ?).
      split_and!; congruence.
  - intros root w w' e. destruct (refresh_done (sp_ID staged) w) as [w2 Er]. by rewrite (S3_bind_run _ _ _ _ _ Er).
  - intros w w' e. destruct (attempt (Observe o broker repository) w) as [w2 p] eqn:Eo. rewrite (S3_bind_run _ _ _ _ _ Eo).
    apply attempt_inv in Eo as ([post|e'] & -> & _); [|by intros [= _ <-]]. destruct (revisionMatchesBinding post binding); [done|].
    change (isError (StoreErr ErrOther) ErrPrecondition) with false. by intros [= _ <-].
Qed.

Lemma wrote_acquire (P : Write → Prop) owner :
  (∀ before after, P (mkWrite (commitLockKey repository) before after)) → wrote P (acquireCommitLock o repository owner).
Proof. intros Hp. unfold acquireCommitLock. cbn zeta. writes; try apply wrote_wrapped; apply wrote_Put; intros; apply Hp. Qed.

Lemma switches_lock {C} (X : Write → Prop) (R : C → Prop) owner (body : S3 C) :
  liveRoot rootPath → trimmedPrefix repository → Switching rootPath X R body → Switching rootPath X R (withLock o repository owner body).
Proof.
  intros Hr Ht Hb. apply switches_bind_any; [apply wrote_acquire; by apply lock_beside|]. intros etag w.
  destruct (Hb w) as (pre & switch & post & E & Hpre & Hpost & Hs & Hres). destruct (body w) as [w1 r] eqn:Eb. cbn [fst snd] in *.
  assert (Ea : attempt body w = (w1, Done r)) by (unfold attempt; by rewrite Eb). rewrite (S3_bind_run _ _ _ _ _ Ea).
  assert (Hd : wrote (besideRoot rootPath) (attempt (Delete o (commitLockKey repository) (mkConditions etag false)))).
  { apply wrote_attempt, wrote_Delete. intros. by apply lock_beside. }
  destruct (Hd w1) as (ext & Ed & Hext). destruct (attempt (Delete _ _ _) w1) as [w2 q] eqn:Edel. rewrite (S3_bind_run _ _ _ _ _ Edel).
  apply attempt_inv in Edel as (q' & -> & _). cbn [fst] in Ed. exists pre, switch, (post ++ ext).
  destruct r as [c|e]; cbn [fst snd raise mret S3_ret]; rewrite Ed, E, <- !(assoc_L (++)), Forall_app; done.
Qed.

Lemma publishRelease_beside descriptor observed :
  liveRoot rootPath → trimmedPrefix repository → validIdentifier (sp_ID staged) = true → ValidSHA256 (desc_TreeSHA256 descriptor) = true →
  Forall (λ file, validFile file = true) (desc_Files descriptor) →
  wrote (besideRoot rootPath) (publishObjects o access repository (sp_ID staged) rootPath descriptor observed).
Proof.
  intros Hr Ht Hi Hd Hf. rewrite Forall_forall in Hf.
  assert (Hres : ∀ l object, Forall plainPath l → besideRoot rootPath (mkWrite (objectKey repository (PathJoin (".snailmail" :: l))) None (Some object))).
  { intros l object Hl. split; [|by left]. cbn. apply reserved_not_root; [done|by apply reserved_join|done]. }
  assert (Hdig : ∀ v, ValidSHA256 v = true → plainPath v) by (intros; by apply plain_component_single, digest_plain).
  apply wrote_publishRelease.
  - intros file object Hin. split; [|by left]. cbn. apply publishedFileKey_not_root; [done..|]. apply Hf.
    apply list_elem_of_In, filter_In in Hin as [Hin _]. by apply list_elem_of_In.
  - intros object. apply Hres. repeat constructor; try done. by apply Hdig.
  - intros file object Hm. apply Hres. repeat constructor; try done. apply plain_component_single, suffixed_plain; [|done].
    apply find_some in Hm as [Hin _]. rewrite <- list_elem_of_In in Hin. specialize (Hf _ Hin). unfold validFile in Hf.
    apply negb_true_iff, orb_false_iff in Hf as [_ Hf]. by apply negb_false_iff in Hf.
  - intros object. apply Hres. repeat constructor; try done. by apply Hdig.
  - intros object. apply Hres. repeat constructor; try done. by apply Hdig.
Qed.

(** C5: A commit switches the root only over the revision the plan expected.  In every run,
    whatever others do to the bucket between its requests and whichever of them are
    lost, a commit writes the root object at most once, and then over a root whose entity
    tag is the expected one, or over none where none was expected; the root it leaves
    names the staged tree, plan, change and restore state.  It overwrites nothing else
    that is published: every other object it writes is a new one, or the lease, or the
    browsable page.  A commit that succeeds reports the staged publication, and one that
    fails without warning that an effect may have occurred has not touched the root. *)
Theorem commit_is_conditional :
  liveRoot rootPath → singleRootPath repository = Some rootPath →
  Switching rootPath publishesStage reportsStage (Commit o broker access repository staged expected).
Proof.
  intros Hr Hroot. unfold Commit, rootPathOf. rewrite Hroot.
  match goal with |- Switching _ _ _ (_ ≫= ?k) => change (Switching rootPath publishesStage reportsStage (k rootPath)) end. cbv beta. unfold checkRepository.
  destruct (validateRepository broker repository) eqn:Hv; [|apply switches_raise].
  match goal with |- Switching _ _ _ (_ ≫= ?k) => change (Switching rootPath publishesStage reportsStage (k ())) end. cbv beta.
  assert (Ht : trimmedPrefix repository) by (unfold validateRepository in Hv; split_bools; done).
  apply (switches_bind _ _ _ _ _ (λ d, validIdentifier (sp_ID staged) = true ∧ ValidSHA256 (desc_TreeSHA256 d) = true ∧
    Forall (λ file, validFile file = true) (desc_Files d))); [apply wrote_loadStage|apply loadStage_ok|].
  intros d (Hi & Hd & Hf). unfold refuse_when. destruct (negb _ || _ || _ || _ || _) eqn:Hm; [apply switches_raise|].
  match goal with |- Switching _ _ _ (_ ≫= ?k) => change (Switching rootPath publishesStage reportsStage (k ())) end. cbv beta.
  destruct (publicationDigestBindings d) as [[releaseDigest manifestDigest]|]; [|apply switches_raise].
  change (Switching rootPath publishesStage reportsStage (withLock o repository (sp_ID staged)
    (commitLocked o broker access repository staged rootPath d releaseDigest manifestDigest expected))).
  apply switches_lock; [done..|]. unfold commitLocked. apply switches_bind_any; [apply wrote_Observe|]. intros observed.
  split_bools. destruct (_ && _ && _ && _ && _) eqn:Ha.
  - destruct (bool_decide (rev_RestoreID observed = sp_ID staged)) eqn:Hid; [|apply switches_raise]. apply switches_bind_any; [apply wrote_ReadAccess|]. intros _. apply switches_ret.
    split_bools. unfold reportsStage, bindsStage. cbn. split_and!; congruence.
  - destruct (negb _); [apply switches_raise|]. clear Ha.
    apply (switches_bind _ _ _ _ _ (λ p, bindingOfStage p.2)); [by apply publishRelease_beside| |].
    + intros w w1 [content binding] E. apply publishRelease_binding in E as (? & ? & ? & ?). unfold bindingOfStage, bindsStage. cbn.
      split_and!; congruence.
    + intros [content binding] Hb. by apply switchRoot_switches.
Qed.
End commit.

(** ** Restoring *)

Section restore.
Context (rootPath : string) (restoring : RestoreRef) (expected : ExpectedRevision).

(** The descriptor of the restore state the reference names: by its digest, and of the
    publication to undo. *)
Definition describes (descriptor : restoreDescriptor) : Prop :=
  (∃ content, SHA256Hex content = restore_DescriptorSHA256 restoring ∧ decodeRestore content = Some descriptor) ∧
  res_AfterTreeSHA256 descriptor = restore_FailedTree restoring ∧ res_PlanID descriptor = restore_PlanID restoring ∧
  res_ChangeID descriptor = restore_ChangeID restoring.

(** What such a restore leaves at the root: what was there before the publication, by its
    digest and with its metadata, or nothing where the descriptor says there was nothing. *)
Definition restoredBy (descriptor : restoreDescriptor) (root : option Object) : Prop :=
  if res_RootExisted descriptor
  then ∃ object, root = Some object ∧ SHA256Hex (obj_Body object) = restore_RootSHA256 restoring ∧ obj_Metadata object = res_BeforeMetadata descriptor
  else root = None.

(** The one write of the root: over the root the caller expected. *)
Definition restoresRoot (x : Write) : Prop :=
  write_key x = objectKey repository rootPath ∧
  (∃ found, write_before x = Some found ∧ obj_ETag found = exp_NativeRevision expected) ∧
  ∃ descriptor, describes descriptor ∧ restoredBy descriptor (write_after x).
Definition reportsRestored (v : PublishedRevision) : Prop := ∃ descriptor, describes descriptor ∧ (res_RootExisted descriptor = false → v = noRevision).

(** The root and the lease, and no other object. *)
Definition rootOrLease (x : Write) : Prop := write_key x = objectKey repository rootPath ∨ write_key x = commitLockKey repository.

Lemma wrote_afterRestoreError (P : Write → Prop) descriptor e :
  wrote P (afterRestoreError o broker repository rootPath descriptor restoring e).
Proof. unfold afterRestoreError. writes. Qed.
Hint Resolve wrote_afterRestoreError : writes.

Lemma afterRestoreError_warns descriptor w w' e :
  afterRestoreError o broker repository rootPath descriptor restoring (StoreErr ErrOther) w = (w', Raise e) → effectMayHaveOccurred e = true.
Proof.
  unfold afterRestoreError. change (isError (StoreErr ErrOther) ErrPrecondition) with false.
  rewrite attempt_bind. destruct (restorePostcondition _ _ _ _ _ _ w) as [w2 [[v|]|e']]; by intros [= _ <-].
Qed.

Lemma Delete_run key conditions w :
  (∃ object, world_writes (Delete o key conditions w).1 = world_writes w ++ [mkWrite key (Some object) None] ∧
     (IfMatch conditions ≠ "" → obj_ETag object = IfMatch conditions) ∧
     ((Delete o key conditions w).2 = Done () ∨ (Delete o key conditions w).2 = Raise (StoreErr ErrOther))) ∨
  world_writes (Delete o key conditions w).1 = world_writes w.
Proof.
  unfold Delete. cbn zeta. destruct (fault o (world_clock w)); [|by right|];
    (destruct (world_bucket (arrive o w) !! key) as [object|] eqn:E; [|by right]);
    (destruct (negb _ && negb _) eqn:Ec; [by right|]); left; exists object;
    (split; [cbn [fst]; unfold store; cbn [world_writes]; rewrite E; reflexivity|]); (split; [|by auto]); intros Hne; apply andb_false_iff in Ec as [Ec|Ec]; split_bools; done.
Qed.

Lemma postcondition_reports descriptor w w' v : describes descriptor →
  restorePostcondition o broker repository rootPath descriptor restoring w = (w', Done (Some v)) → reportsRestored v.
Proof.
  intros Hd E. exists descriptor. split; [done|]. intros Hx. revert E. unfold restorePostcondition. rewrite Hx. cbn [negb].
  rewrite attempt_bind. destruct (Head _ _ w) as [w1 [i|e]]; [done|]. destruct (isError e ErrNotFound); [|done]. by intros [= _ <-].
Qed.
Lemma afterRestoreError_reports descriptor e w w' v : describes descriptor →
  afterRestoreError o broker repository rootPath descriptor restoring e w = (w', Done v) → reportsRestored v.
Proof.
  intros Hd. unfold afterRestoreError. rewrite attempt_bind. destruct (restorePostcondition _ _ _ _ _ _ w) as [w2 [[v'|]|e']] eqn:Ep; [|by destruct (isError _ _)|done].
  intros [= _ <-]. by eapply postcondition_reports.
Qed.

Lemma removeRoot_switches descriptor :
  exp_NativeRevision expected ≠ "" → describes descriptor → res_RootExisted descriptor = false →
  Switching rootPath restoresRoot reportsRestored (removeRoot o broker repository rootPath descriptor restoring expected).
Proof.
  intros Hne Hd Hx. unfold removeRoot. apply switches_request.
  - intros w. destruct (Delete_run (objectKey repository rootPath) (mkConditions (exp_NativeRevision expected) false) w) as
      [(object & Hw & Hc & Hr)|Hw]; [left|by right].
    eexists. split; [exact Hw|]. split; [|destruct Hr; by eauto]. split; [done|]. split; [exists object; split; [done|by apply Hc]|].
    exists descriptor. split; [done|]. unfold restoredBy. by rewrite Hx.
  - intros [[]|e]; writes.
  - intros [[]|e] w w' v; [intros [= _ <-]; by exists descriptor|by apply afterRestoreError_reports].
  - done.
  - apply afterRestoreError_warns.
Qed.

Lemma putBackRoot_switches descriptor :
  exp_NativeRevision expected ≠ "" → describes descriptor → res_RootExisted descriptor = true →
  Switching rootPath restoresRoot reportsRestored (putBackRoot o broker repository rootPath descriptor restoring expected).
Proof.
  intros Hne Hd Hx. unfold putBackRoot. apply switches_bind_any; [writes|]. intros [content info].
  unfold refuse_when at 1. destruct (negb (bool_decide (SHA256Hex content = _))) eqn:Hh; [apply switches_raise|]. split_bools.
  apply switches_bind_any; [writes|]. intros _. apply switches_bind_any; [writes|]. intros _. apply switches_request.
  - intros w. edestruct Put_run as [(existing & etag & i & Hc & Hw & Hr)|(Hw & e & He)]; [left|right; exact Hw].
    eexists. split; [exact Hw|]. split; [|destruct Hr; by eauto]. split; [done|]. split.
    + unfold conditionFails in Hc. cbn in Hc. rewrite bool_decide_eq_false_2 in Hc by done. cbn in Hc.
      destruct existing as [found|]; [|done]. exists found. split; [done|]. by case_bool_decide.
    + exists descriptor. split; [done|]. unfold restoredBy. rewrite Hx. eexists. by split_and!.
  - intros [root|e]; writes.
  - intros r w w' v _. exists descriptor. split; [done|]. by rewrite Hx.
  - intros root w w' e. rewrite attempt_bind. destruct (Observe _ _ _ w) as [w2 [v|e']]; [|by intros [= _ <-]].
    case_bool_decide; [done|]. by intros [= _ <-].
  - apply afterRestoreError_warns.
Qed.

Lemma loadRestore_decodes identifier w w' descriptor digest :
  if_missing indeterminate (loadRestore o repository identifier) w = (w', Done (descriptor, digest)) →
  ∃ content, SHA256Hex content = digest ∧ decodeRestore content = Some descriptor.
Proof.
  unfold if_missing. rewrite attempt_bind. unfold loadRestore, mbind, S3_bind.
  destruct (wrapped _ w) as [w1 [[content info]|e]]; [|by destruct (isError _ _)]. destruct (decodeRestore content) as [d|] eqn:Ed; [|done].
  intros [= _ <- <-]. by exists content.
Qed.

Lemma restoreLocked_switches :
  exp_NativeRevision expected ≠ "" → Switching rootPath restoresRoot reportsRestored (restoreLocked o broker repository rootPath restoring expected).
Proof.
  intros Hne. unfold restoreLocked. apply (switches_bind _ _ _ _ _ (λ p, ∃ content, SHA256Hex content = p.2 ∧ decodeRestore content = Some p.1));
    [writes|by intros w w1 [d digest] E%loadRestore_decodes|]. intros [descriptor digest] (content & Hdig & Hdec). cbn [fst snd] in Hdig, Hdec. subst digest.
  unfold refuse_when at 1. destruct (negb _ || _ || _ || _) eqn:Hm.
  { by apply (switches_bind _ _ _ _ _ (λ _, False)); [apply wrote_raise|..]. }
  assert (Hd : describes descriptor) by (split_bools; split_and!; eauto). clear Hm.
  apply switches_bind_any; [writes|]. intros _. apply switches_bind_any; [writes|]. intros observed.
  apply (switches_bind _ _ _ _ _ (λ p, match p with Some v => reportsRestored v | None => True end)); [writes| |].
  { intros w w1 [v|] E; [|done]. by eapply postcondition_reports. }
  intros [v|] Hv; [by apply switches_ret|]. apply switches_bind_any; [writes|]. intros _.
  destruct (res_RootExisted descriptor) eqn:Hx; [by apply putBackRoot_switches|by apply removeRoot_switches].
Qed.

Lemma restore_switches :
  liveRoot rootPath → singleRootPath repository = Some rootPath → exp_NativeRevision expected ≠ "" →
  Switching rootPath restoresRoot reportsRestored (Restore o broker repository restoring expected).
Proof.
  intros Hr Hroot Hne. unfold Restore, rootPathOf. rewrite Hroot.
  match goal with |- Switching _ ?x ?r (_ ≫= ?k) => change (Switching rootPath x r (k rootPath)) end. cbv beta. unfold checkRepository.
  destruct (validateRepository broker repository) eqn:Hv; [|apply switches_raise].
  assert (Ht : trimmedPrefix repository) by (unfold validateRepository in Hv; split_bools; done).
  apply switches_bind_any; [writes|]. intros _. apply switches_bind_any; [writes|]. intros _. apply switches_lock; [done..|]. by apply restoreLocked_switches.
Qed.

Lemma restore_writes : singleRootPath repository = Some rootPath → wrote rootOrLease (Restore o broker repository restoring expected).
Proof.
  intros Hroot. unfold Restore, rootPathOf. rewrite Hroot.
  match goal with |- wrote _ (_ ≫= ?k) => change (wrote rootOrLease (k rootPath)) end. cbv beta. unfold checkRepository, withLock.
  apply wrote_bind; [writes|]. intros _. apply wrote_bind; [writes|]. intros _. apply wrote_bind; [apply wrote_acquire; by right|]. intros etag.
  apply wrote_bind; [apply wrote_attempt|intros r; apply wrote_bind; [apply wrote_attempt, wrote_Delete; by right|intros _; writes]].
  unfold restoreLocked, removeRoot, putBackRoot. writes; first [apply wrote_Delete|apply wrote_Put]; by left.
Qed.

(** C6: A restore touches the root only if it is still the failed publication's.  In every
    run, whatever others do to the bucket and whichever requests are lost, a restore from
    a revision with an entity tag writes the root at most once, over a root with that
    tag; and it leaves the retained root, byte for byte by its digest and with its
    metadata, or removes the root if and only if the descriptor that the reference names
    by its digest says that there was none before.  It writes no other object but the
    lease.  A restore that succeeds where there was none reports no revision, and one that
    fails without warning that an effect may have occurred has not touched the root. *)
Theorem restore_is_conditional :
  liveRoot rootPath → singleRootPath repository = Some rootPath → exp_NativeRevision expected ≠ "" →
  Switching rootPath restoresRoot reportsRestored (Restore o broker repository restoring expected) ∧
  wrote rootOrLease (Restore o broker repository restoring expected).
Proof. intros Hr Hroot Hne. split; [by apply restore_switches|by apply restore_writes]. Qed.
End restore.
End host.
