(* ===== verification/S3Examples.v ===== *)
(** The S3 host on a concrete bucket: two publications of a chart repository, the second
    restored; and the theorems of the host at those runs. *)

From S2P Require Import Prelude GoStrings GoSlices GoRegexp Model Formats Source JsonStrict PlanJson Manifest Host.
From S2P Require Import S3Store S3Keys S3 S3KeyProofs S3Proofs.

Open Scope Z_scope.

Module S3Example.

(** ** Stand-ins for the libraries *)

Fixpoint sum (h : Z) (s : string) : Z := match s with "" => h | String c s => sum (Z.land (h * 33 + byte_val c) 1048575) s end.
Fixpoint hex (digits : nat) (h : Z) : string :=
  match digits with
  | O => ""
  | S digits => String (default "0"%char (String.get (Z.to_nat (Z.land h 15)) "0123456789abcdef")) (hex digits (Z.shiftr h 4))
  end.
#[local] Instance hash_lib : HashLib := {| SHA256Hex s := hex 5 (sum 7 s) +:+ "00000000000000000000000000000000000000000000000000000000000" |}.

Definition endpoint : string := "https://charts.example".
Definition parsed : URL := mkURL "https" "charts.example" "charts.example" false "" "" "" "" "" endpoint.
#[local] Instance net_lib : NetLib := {| ParseURL s := if bool_decide (s = endpoint) then Some parsed else None; ParseAddr _ := None |}.
#[local] Instance time_lib : TimeLib := {| ParseRFC3339 s := if bool_decide (s = "now") then Some 0 else None |}.

(** The two publications: an index, a chart and the management manifest. *)
Definition body (n path : string) : string := path +:+ " of " +:+ n.
Definition fileOf (n path : string) : File :=
  mkFile path (Z.of_nat (String.length (body n path))) (SHA256Hex (body n path)).
Definition tree (n : string) : list File := [fileOf n ("charts/" +:+ n +:+ ".tgz"); fileOf n "index.yaml"].
Definition publication (n : string) : publicationDescriptor :=
  mkDescriptor (SHA256Hex n) "charts:0123456789ab" (TreeDigest (tree n)) (tree n ++ [fileOf n ManifestFilename]) ["index.yaml"].
Definition release (n : string) : releaseDescriptor := mkRelease (TreeDigest (tree n)) (tree n) ["index.yaml"].
Definition manifest (n : string) : RepositoryManifest :=
  mkRepositoryManifest 3 "helm/v1" "now" (TreeDigest (tree n)) (tree n) (mkInstall "helm" "index.yaml" "" "" [] "" "" [])
    [mkCase "" "chart" n ""] [].
Definition stageID (n : string) : string := SHA256Hex ("stage " +:+ n).

(** Encodings that decode what they encode of the descriptors these runs write. *)
Definition decodes {A} (encode : A → string) (known : list A) (content : string) : option A :=
  List.find (λ a, bool_decide (encode a = content)) known.
Definition showFiles (files : list File) : string := String.concat ";" ((λ f, file_Path f +:+ file_SHA256 f) <$> files).
Definition showPublication (d : publicationDescriptor) : string := "publication " +:+ desc_PlanID d +:+ showFiles (desc_Files d).
Definition showRelease (d : releaseDescriptor) : string := "release " +:+ rel_TreeSHA256 d +:+ showFiles (rel_Files d).
Definition showRestore (d : restoreDescriptor) : string := "restore " +:+ res_AfterTreeSHA256 d +:+ res_BeforeTreeSHA256 d.
Definition showPointer (p : stagePointer) : string := pointer_ID p +:+ pointer_DescriptorSHA256 p.

(** What the first commit retains, its binding, and what the second one retains. *)
Definition firstRestore : restoreDescriptor :=
  mkRestore (SHA256Hex "one") "charts:0123456789ab" (TreeDigest (tree "one")) false "" "" "" ∅.
Definition firstBinding : rootBinding :=
  mkBinding (TreeDigest (tree "one")) (SHA256Hex "one") "charts:0123456789ab" (SHA256Hex (showRelease (release "one")))
    (SHA256Hex (body "one" ManifestFilename)) (stageID "one") (SHA256Hex (showRestore firstRestore)) "".
Definition secondRestore : restoreDescriptor :=
  mkRestore (SHA256Hex "two") "charts:0123456789ab" (TreeDigest (tree "two")) true (TreeDigest (tree "one")) (SHA256Hex "one")
    "charts:0123456789ab" (rootMetadata firstBinding).

#[local] Instance s3_lib : S3Lib := {|
  MarshalPublication := showPublication; UnmarshalPublication := decodes showPublication [publication "one"; publication "two"];
  MarshalRelease := showRelease; UnmarshalRelease := decodes showRelease [release "one"; release "two"];
  MarshalRestore := showRestore; UnmarshalRestore := decodes showRestore [firstRestore; secondRestore];
  MarshalPointer := showPointer;
  UnmarshalPointer := decodes showPointer ((λ n, mkPointer (stageID n) (SHA256Hex (showPublication (publication n)))) <$> ["one"; "two"]);
  UnmarshalManifest content :=
    manifest <$> List.find (λ n, bool_decide (body n ManifestFilename = content)) ["one"; "two"];
  CanonicalManifest _ := true;
  FormatRFC3339 _ := "now";
|}.

(** ** The runs *)

Definition repository : S3Repository :=
  mkS3Repository "s3" "helm" "public" "" "" "" "" "" "bucket" endpoint "" "" "charts" ["index.yaml"] None.
(** Nobody else writes; the first stage is drawn before any write, the second after. *)
Definition outside (draws : string) : Outside :=
  mkOutside (λ _ bucket, bucket) (λ _, Answered) (λ n body, SHA256Hex (body +:+ hex 4 (Z.of_nat n))) ErrNotFound (Done ()) (λ _, 0)
    (λ _, Some (stageID draws)).
Definition issued (_ : nat) : outcome () := Done ().
Definition request (n : string) : StageRequest :=
  let d := publication n in
  mkStageRequest (desc_PlanID d) (desc_ChangeID d) (desc_TreeSHA256 d) (desc_Files d) (desc_CommitPaths d) (λ path, Some (body n path))
    (Some (manifest n)).
Definition staged (n : string) : S3Staged :=
  let d := publication n in
  mkS3Staged (stageID n) (desc_PlanID d) (desc_ChangeID d) (desc_TreeSHA256 d) (desc_Files d) (desc_CommitPaths d).
Definition expects (v : PublishedRevision) : ExpectedRevision :=
  mkExpected (rev_NativeRevision v) (rev_TreeSHA256 v) (rev_PlanID v) (rev_ChangeID v) (rev_ReleaseSHA256 v)
    (rev_ManifestSHA256 v) (rev_RestoreID v) (rev_RestoreSHA256 v) (rev_RestoreRootSHA256 v).

Definition publishOver (n : string) (before : PublishedRevision) : S3 CommitResult :=
  s ← Stage (outside n) false issued repository (request n);
  Commit (outside n) false issued repository s (expects before).

Definition emptyWorld : World := mkWorld ∅ 0 [].
Definition observed (w : World) : outcome PublishedRevision := (Observe (outside "one") false repository w).2.

Definition afterFirst : World * outcome CommitResult := publishOver "one" noRevision emptyWorld.
Definition revisionAfter (r : outcome CommitResult) : PublishedRevision :=
  match r with Done c => com_Revision c | Raise _ => noRevision end.
Definition restoreAfter (r : outcome CommitResult) : RestoreRef :=
  match r with Done (mkCommitResult _ _ (Some restore)) => restore | _ => mkRestoreRef "" "" "" "" "" "" end.
Definition first : PublishedRevision := revisionAfter afterFirst.2.
Definition afterSecond : World * outcome CommitResult := publishOver "two" first afterFirst.1.
Definition second : PublishedRevision := revisionAfter afterSecond.2.
Definition afterRestore : World * outcome PublishedRevision :=
  Restore (outside "two") false repository (restoreAfter afterSecond.2) (expects second) afterSecond.1.

Definition restoredTo (r : outcome PublishedRevision) (etag : string) : option (string * bool) :=
  match r with Done v => Some (rev_TreeSHA256 v, String.eqb (rev_NativeRevision v) etag) | Raise _ => None end.

(** Each publication is what the bucket serves until the next one; a second commit over
    the first revision is stale; restoring the second puts the first back, under a new
    entity tag. *)
Example published_and_restored :
  rev_TreeSHA256 first = TreeDigest (tree "one") ∧ observed afterFirst.1 = Done first ∧
  rev_TreeSHA256 second = TreeDigest (tree "two") ∧ observed afterSecond.1 = Done second ∧
  (Commit (outside "one") false issued repository (staged "one") (expects first) afterSecond.1).2 = Raise stale ∧
  observed afterRestore.1 = afterRestore.2 ∧ restoredTo afterRestore.2 (rev_NativeRevision first) = Some (TreeDigest (tree "one"), false).
Proof. by vm_compute. Qed.

(** ** The theorems at these runs *)

Lemma index_live : liveRoot "index.yaml".
Proof.
  split; [by repeat constructor|]. split; [done|]. by intros [t [= E _]].
Qed.

(** The writes of the root in a run. *)
Definition rootWrites (w : World) : list Write := List.filter (λ x, bool_decide (write_key x = "charts/index.yaml")) (world_writes w).

(** The second commit: its one write of the root is over the index of the first. *)
Lemma commit_is_conditional_witness :
  Switching repository "index.yaml" (publishesStage repository "index.yaml" (staged "two") (expects first)) (reportsStage (staged "two"))
    (Commit (outside "two") false issued repository (staged "two") (expects first)) ∧
  (λ x, (obj_ETag <$> write_before x, obj_Body <$> write_after x)) <$> rootWrites afterSecond.1 =
    [(None, Some (body "one" "index.yaml")); (Some (rev_NativeRevision first), Some (body "two" "index.yaml"))].
Proof.
  split; [|by vm_compute].
  exact (commit_is_conditional (outside "two") false issued repository "index.yaml" (staged "two") (expects first) index_live eq_refl).
Defined.

(** Its restore: one more write of the root, over the index of the second. *)
Lemma second_tagged : exp_NativeRevision (expects second) ≠ "".
Proof. by vm_compute. Qed.
Lemma restore_is_conditional_witness :
  (Switching repository "index.yaml" (restoresRoot repository "index.yaml" (restoreAfter afterSecond.2) (expects second))
     (reportsRestored (restoreAfter afterSecond.2)) (Restore (outside "two") false repository (restoreAfter afterSecond.2) (expects second)) ∧
   wrote (rootOrLease repository "index.yaml") (Restore (outside "two") false repository (restoreAfter afterSecond.2) (expects second))) ∧
  (λ x, (obj_ETag <$> write_before x, obj_Body <$> write_after x)) <$> drop 2 (rootWrites afterRestore.1) =
    [(Some (rev_NativeRevision second), Some (body "one" "index.yaml"))].
Proof.
  split; [|by vm_compute].
  exact (restore_is_conditional (outside "two") false issued repository "index.yaml" (restoreAfter afterSecond.2) (expects second)
    index_live eq_refl second_tagged).
Defined.
End S3Example.
