(* ===== verification/Rsync.v ===== *)
(** Publishing to a directory reached over ssh: [adapters/host/rsync/rsync.go],
    [collect.go] and [runner.go].

    An operation of the adapter is a program of the commands it has run on the far
    side ([prog]): what it does next depends on how each command ended.  The far side
    and the way commands fail are not part of a program; [RsyncProofs] interleaves
    the programs of several publishers over one far side.  [SSHRunner] is the runner
    of [runner.go]: the processes it starts, and what it makes of how they end. *)

From S2P Require Import Prelude GoStrings GoSlices Model Formats Source JsonStrict PlanJson Manifest Host S3Store S3Keys S3 Rotation.

Open Scope Z_scope.

(** ** Commands and programs *)

Inductive Command :=
| Run (argv : list string)
| Send (localDirectory remotePath : string).

(** [ErrCommandFailed] with its exit code, or any other error. *)
Inductive RunError := CommandFailed (code : Z) | TransportFailed.

(** [exitCode]: whether the error carries an exit status. *)
Definition exited (e : RunError) : bool := match e with CommandFailed _ => true | TransportFailed => false end.

(** A [host.Error], or an error without a kind. *)
Record Failure := mkFailure { fail_Kind : option ErrorKind; EffectMayHaveOccurred : bool }.

Inductive prog (A : Type) :=
| Return (a : A)
| Failing (e : Failure)
| Do (c : Command) (k : RunError + string → prog A).
Arguments Return {A}.
Arguments Failing {A}.
Arguments Do {A}.

#[export] Instance prog_ret : MRet prog := λ A a, Return a.
#[export] Instance prog_bind : MBind prog := λ A B f,
  fix bind m := match m with
                | Return a => f a
                | Failing e => Failing e
                | Do c k => Do c (λ r, bind (k r))
                end.

(** [defer cleanup()]: whatever the body does. *)
Fixpoint deferring {A} (cleanup : prog ()) (body : prog A) : prog A :=
  match body with
  | Return a => _ ← cleanup; Return a
  | Failing e => _ ← cleanup; Failing e
  | Do c k => Do c (λ r, deferring cleanup (k r))
  end.

Definition command (c : Command) : prog (RunError + string) := Do c Return.
(** A command whose failure ends the operation. *)
Definition require (c : Command) (failure : Failure) : prog string :=
  r ← command c;
  match r with inl _ => Failing failure | inr output => Return output end.

Definition rsyncInfrastructure : Failure := mkFailure (Some ErrorInfrastructure) false.
Definition rsyncInvalid : Failure := mkFailure (Some ErrorInvalidConfiguration) false.
Definition rsyncStale : Failure := mkFailure (Some ErrorStale) false.
Definition plainFailure : Failure := mkFailure None false.

(** ** Paths *)

(** The fields of [host.Repository] the adapter reads. *)
Record RsyncRepository := mkRsyncRepository { rs_Path : string; rs_CanonicalEndpoint : string }.

Definition remoteRoot (repository : RsyncRepository) : prog string :=
  if bool_decide (rs_Path repository = "") then Failing rsyncInvalid
  else if negb (HasPrefix (rs_Path repository) "/") then Failing rsyncInvalid
  else
    let cleaned := Clean (rs_Path repository) in
    if bool_decide (cleaned = "/") then Failing rsyncInvalid else Return cleaned.

Definition releasesDirectory : string := ".snailmail/releases".
Definition lockDirectory : string := ".snailmail/lock".
Definition stagingDirectory : string := ".snailmail/staging".

Definition treeFromTarget (target : string) : string :=
  if bool_decide (target = "") then ""
  else
    let '(directory, tree) := PathSplit (Clean target) in
    if negb (HasSuffix (Clean directory) releasesDirectory) then ""
    else if negb (ValidSHA256 tree) then "" else tree.

(** ** Observing *)

Section adapter.
Context (repository : RsyncRepository).

Definition rsyncCapabilities : prog Capabilities :=
  _ ← remoteRoot repository;
  Return (mkCapabilities false true false false "").

Definition ObserveRsync : prog PublishedRevision :=
  root ← remoteRoot repository;
  r ← command (Run ["readlink"; root]);
  match r with
  | inl e => if exited e then Return noRevision else Failing rsyncInfrastructure
  | inr target =>
      let tree := treeFromTarget (TrimSpace target) in
      if bool_decide (tree = "") then Return noRevision else Return (mkRevision tree tree "" "" "" "" "" "" "")
  end.

(** ** Publishing *)

(** The directory is verified before anything is sent. *)
Definition StageRsync (directory : string) (request : StageRequest) : prog S3Staged :=
  _ ← remoteRoot repository;
  match req_Verified request with
  | None => Failing plainFailure
  | Some manifest =>
      if negb (bool_decide (rm_TreeSHA256 manifest = req_TreeSHA256 request)) then Failing plainFailure
      else Return (mkS3Staged directory (req_PlanID request) (req_ChangeID request) (req_TreeSHA256 request) (req_Files request)
                     (req_CommitPaths request))
  end.

Definition rsyncLock (base : string) : prog string :=
  let name := PathJoin [base; lockDirectory] in
  _ ← require (Run ["mkdir"; "-p"; PathDir name]) rsyncInfrastructure;
  r ← command (Run ["mkdir"; name]);
  match r with
  | inl e => Failing (if exited e then rsyncStale else rsyncInfrastructure)
  | inr _ => Return name
  end.

Definition rsyncUnlock (name : string) : prog () := _ ← command (Run ["rmdir"; name]); Return ().

Definition requireAbsentOrSymlink (root : string) : prog () :=
  r ← command (Run ["test"; "-e"; root]);
  match r with
  | inl e => if exited e then Return () else Failing rsyncInfrastructure
  | inr _ => Failing rsyncInvalid
  end.

Definition indeterminateSwap : Failure := mkFailure (Some ErrorIndeterminate) true.

(** The two spellings of a rename that replaces the link itself. *)
Fixpoint renameRoot (pending root : string) (flags : list string) : prog () :=
  match flags with
  | [] => Failing indeterminateSwap
  | flag :: flags =>
      r ← command (Run ["mv"; flag; pending; root]);
      match r with
      | inr _ => Return ()
      | inl e => if exited e then renameRoot pending root flags else Failing indeterminateSwap
      end
  end.

Definition swapRoot (root release : string) : prog () :=
  let pending := root +:+ ".snailmail-pending" in
  _ ← require (Run ["ln"; "-sfn"; release; pending]) rsyncInfrastructure;
  renameRoot pending root ["-T"; "-h"].

Definition rsyncResult (staged : S3Staged) : CommitResult :=
  mkCommitResult (mkRevision (sp_TreeSHA256 staged) (sp_TreeSHA256 staged) (sp_PlanID staged) (sp_ChangeID staged) "" "" "" "" "")
    (rs_CanonicalEndpoint repository) None.

(** Under the lock. *)
Definition commitUnderLock (staged : S3Staged) (expected : ExpectedRevision) (root release : string) : prog CommitResult :=
  observed ← ObserveRsync;
  if bool_decide (rev_TreeSHA256 observed = sp_TreeSHA256 staged) then Return (rsyncResult staged)
  else if negb (bool_decide (rev_TreeSHA256 observed = exp_TreeSHA256 expected)) then Failing rsyncStale
  else
    _ ← (if bool_decide (rev_TreeSHA256 observed = "") then requireAbsentOrSymlink root else Return ());
    _ ← swapRoot root release;
    Return (rsyncResult staged).

Definition CommitRsync (staged : S3Staged) (expected : ExpectedRevision) : prog CommitResult :=
  root ← remoteRoot repository;
  if negb (ValidSHA256 (sp_TreeSHA256 staged)) then Failing rsyncInvalid
  else
    let base := PathDir root in
    let release := PathJoin [base; releasesDirectory; sp_TreeSHA256 staged] in
    let staging := PathJoin [base; stagingDirectory; sp_TreeSHA256 staged] in
    _ ← require (Run ["mkdir"; "-p"; staging]) rsyncInfrastructure;
    _ ← require (Send (sp_ID staged) staging) rsyncInfrastructure;
    _ ← require (Run ["mkdir"; "-p"; PathJoin [base; releasesDirectory]]) rsyncInfrastructure;
    _ ← require (Run ["rm"; "-rf"; release]) rsyncInfrastructure;
    _ ← require (Run ["mv"; staging; release]) rsyncInfrastructure;
    name ← rsyncLock base;
    deferring (rsyncUnlock name) (commitUnderLock staged expected root release).

Definition RestoreRsync : prog PublishedRevision := Failing rsyncInvalid.

Definition AbortRsync (staged : S3Staged) : prog () :=
  root ← remoteRoot repository;
  if negb (ValidSHA256 (sp_TreeSHA256 staged)) then Return ()
  else
    let staging := PathJoin [PathDir root; stagingDirectory; sp_TreeSHA256 staged] in
    _ ← require (Run ["rm"; "-rf"; staging]) rsyncInfrastructure;
    Return ().

(** ** Collecting *)

Definition newlineByte : ascii := "010"%char.
Definition releaseTrees (releases : string) : prog (list string) :=
  r ← command (Run ["ls"; releases]);
  match r with
  | inl e => if exited e then Return [] else Failing rsyncInfrastructure
  | inr output => Return (List.filter ValidSHA256 (TrimSpace <$> Split newlineByte output))
  end.

(** [strings.Fields], on the ASCII spaces. *)
Definition Fields (s : string) : list string :=
  FieldsFunc (λ c, (byte_val c =? 32) || ((9 <=? byte_val c) && (byte_val c <=? 13))) s.

Definition releaseBytes (release : string) : prog Z :=
  r ← command (Run ["du"; "-sk"; release]);
  Return match r with
         | inl _ => 0
         | inr output =>
             match Fields output with
             | [] => 0
             | field :: _ => match ParseInt field 64 with Some kilobytes => int64 (kilobytes * 1024) | None => 0 end
             end
         end.

(** The loop over the releases present. *)
Fixpoint collectReleases (keep : gset string) (dryRun : bool) (releases : string) (present : list string) (result : CollectResult)
    : prog CollectResult :=
  match present with
  | [] => Return result
  | tree :: present =>
      if bool_decide (tree ∈ keep) then
        collectReleases keep dryRun releases present
          (mkCollectResult (Removed result) (RemovedBytes result) (KeptRevisions result + 1) (col_DryRun result))
      else
        size ← releaseBytes (PathJoin [releases; tree]);
        let result := mkCollectResult (Removed result + 1) (int64 (RemovedBytes result + size)) (KeptRevisions result) (col_DryRun result) in
        if dryRun then collectReleases keep dryRun releases present result
        else
          _ ← require (Run ["rm"; "-rf"; PathJoin [releases; tree]]) rsyncInfrastructure;
          collectReleases keep dryRun releases present result
  end.

Definition CollectRsync (retention : Retention) : prog CollectResult :=
  root ← remoteRoot repository;
  if negb (forallb ValidSHA256 (KeepTrees retention)) then Failing rsyncInvalid
  else
    observed ← ObserveRsync;
    if bool_decide (rev_TreeSHA256 observed = "") then Failing rsyncInvalid
    else
      let keep : gset string := {[rev_TreeSHA256 observed]} ∪ list_to_set (KeepTrees retention) in
      let releases := PathJoin [PathDir root; releasesDirectory] in
      present ← releaseTrees releases;
      collectReleases keep (DryRun retention) releases present (mkCollectResult 0 0 0 (DryRun retention)).
End adapter.

(** ** The ssh runner *)

Record SSHRunner := mkSSHRunner { Target : string; SSHCommand : string; RsyncCommand : string }.

Definition ssh (runner : SSHRunner) : string := if bool_decide (SSHCommand runner = "") then "ssh" else SSHCommand runner.
Definition rsync (runner : SSHRunner) : string := if bool_decide (RsyncCommand runner = "") then "rsync" else RsyncCommand runner.

Definition quoteByte : ascii := "'"%char.
(** [strings.ReplaceAll(argument, "'", `'\''`)]. *)
Fixpoint escapeQuotes (argument : string) : string :=
  match argument with
  | "" => ""
  | String c rest => if ascii_eqb c quoteByte then "'\''" +:+ escapeQuotes rest else String c (escapeQuotes rest)
  end.
Definition quoteAll (argv : list string) : list string := (λ argument, "'" +:+ escapeQuotes argument +:+ "'") <$> argv.

(** The process a command starts; none where there is no target. *)
Definition spawned (runner : SSHRunner) (c : Command) : option (list string) :=
  if bool_decide (Target runner = "") then None
  else Some match c with
       | Run argv => ssh runner :: Target runner :: quoteAll argv
       | Send localDirectory remotePath =>
           [rsync runner; "--archive"; "--delete"; "--checksum"; "--rsh"; ssh runner; TrimSuffix localDirectory "/" +:+ "/";
            Target runner +:+ ":" +:+ remotePath +:+ "/"]
       end.

(** How a process ends: with an exit code (negative where a signal killed it) and its
    output; or it could not be started. *)
Inductive ProcessEnd := Ended (code : Z) (stdout : string) | NotStarted.

Definition runnerResult (e : ProcessEnd) : RunError + string :=
  match e with
  | Ended code stdout => if code =? 0 then inr stdout else inl (CommandFailed code)
  | NotStarted => inl TransportFailed
  end.
Definition runnerRun (runner : SSHRunner) (process : list string → ProcessEnd) (c : Command) : RunError + string :=
  match spawned runner c with
  | None => inl TransportFailed
  | Some argv => runnerResult (process argv)
  end.
