(* ===== verification/RsyncPaths.v ===== *)
(** The paths of an rsync repository by their components, and the quoting of remote
    arguments. *)

From S2P Require Import Prelude GoStrings GoSlices Model Formats Source JsonStrict PlanJson Manifest ManifestProofs Host S3Store S3Keys S3 S3KeyProofs Rsync.

Open Scope Z_scope.

(** ** Absolute paths *)

Definition abs (l : list string) : string := String "/" (Join l "/").

Lemma filter_plain l : Forall plain_component l → filter (λ c, c ≠ "") l = l.
Proof. induction 1 as [|c l (Hc & _) _ IH]; [done|]. by rewrite filter_cons_True, IH. Qed.

Lemma Split_abs l : Forall plain_component l → filter (λ c, c ≠ "") (Split "/" (abs l)) = l.
Proof.
  intros Hl. unfold abs. change (String "/" (Join l "/")) with ("" +:+ String "/" (Join l "/")). rewrite Split_app.
  change (Split "/" "") with [""]. rewrite filter_app, filter_cons_False by (intros E; by apply E). rewrite filter_nil. cbn [app].
  destruct l as [|x l]; [done|]. rewrite Split_Join by (done || by apply plain_noslash).
  by apply filter_plain.
Qed.

Lemma foldl_nonempty rooted stack l :
  foldl (clean_push rooted) stack l = foldl (clean_push rooted) stack (filter (λ c, c ≠ "") l).
Proof.
  revert stack. induction l as [|c l IH]; intros stack; [done|]. destruct (decide (c = "")) as [->|Hc].
  - rewrite filter_cons_False by (intros E; by apply E). cbn [foldl]. apply IH.
  - rewrite filter_cons_True by done. cbn [foldl]. apply IH.
Qed.

(** A rooted path whose components are plain, up to doubled slashes. *)
Lemma Clean_abs s l :
  HasPrefix s "/" = true → filter (λ c, c ≠ "") (Split "/" s) = l → Forall plain_component l → Clean s = abs l.
Proof.
  intros Hr Hs Hl. unfold Clean. rewrite Hr, foldl_nonempty, Hs, foldl_plain by done. by rewrite app_nil_r, reverse_involutive.
Qed.

Lemma abs_rooted l : HasPrefix (abs l) "/" = true.
Proof. unfold abs. cbn [HasPrefix]. by destruct (Join l "/"). Qed.

(** Every absolute path is cleaned to plain components. *)
Lemma Clean_rooted s : HasPrefix s "/" = true → ∃ l, Forall plain_component l ∧ Clean s = abs l.
Proof.
  intros Hr. unfold Clean. rewrite Hr. eexists (reverse _). split; [|reflexivity]. apply Forall_reverse.
  assert (Hs : Forall (λ c, mem_byte "/" c = false) (Split "/" s)) by (apply Forall_forall; intros c; apply Split_no_slash).
  assert (Hn : Forall plain_component ([] : list string)) by constructor. revert Hs Hn. generalize (Split "/" s) as cs, ([] : list string) as stack.
  induction cs as [|c cs IH]; intros stack Hs Hn; [done|]. apply Forall_cons in Hs as [Hc Hs]. cbn [foldl]. apply IH; [done|].
  unfold clean_push. destruct (bool_decide (c = "")) eqn:E1; [done|]. destruct (bool_decide (c = ".")) eqn:E2; [done|]. cbn [orb].
  apply bool_decide_eq_false in E1, E2. case_bool_decide as E3; [|by constructor].
  destruct stack as [|top rest]; [done|]. apply Forall_cons in Hn as [(? & ? & ? & ?) Hn]. by rewrite bool_decide_eq_false_2.
Qed.

Lemma abs_ne_root l : l ≠ [] → Forall plain_component l → abs l ≠ "/".
Proof. intros Hne Hl E. apply (f_equal (λ s, filter (λ c, c ≠ "") (Split "/" s))) in E. by rewrite Split_abs in E. Qed.

Lemma abs_inj l k : Forall plain_component l → Forall plain_component k → abs l = abs k → l = k.
Proof. intros Hl Hk E. by rewrite <- (Split_abs l Hl), E, Split_abs. Qed.

Lemma Join_snoc l x : l ≠ [] → Join (l ++ [x]) "/" = Join l "/" +:+ "/" +:+ x.
Proof.
  induction l as [|y l IH]; [done|]. intros _. destruct l as [|z l]; [done|].
  change (Join ((y :: z :: l) ++ [x]) "/") with (y +:+ "/" +:+ Join ((z :: l) ++ [x]) "/"). rewrite IH by done.
  change (Join (y :: z :: l) "/") with (y +:+ "/" +:+ Join (z :: l) "/"). by rewrite !str_app_assoc.
Qed.

Lemma abs_snoc l x : ∃ t, abs (l ++ [x]) = t +:+ "/" +:+ x ∧ filter (λ c, c ≠ "") (Split "/" t) = filter (λ c, c ≠ "") (Split "/" (abs l)).
Proof.
  destruct l as [|y l]; [by exists ""|]. exists (abs (y :: l)). split; [|done]. unfold abs. by rewrite Join_snoc.
Qed.

Lemma cut_last_app a b : mem_byte "/" b = false → cut_last_byte "/" (a +:+ "/" +:+ b) = Some (a, b).
Proof.
  intros Hb. assert (E : cut_last_byte "/" b = None) by by apply cut_last_byte_none.
  assert (E1 : cut_last_byte "/" (String "/" b) = Some ("", b)) by (cbn [cut_last_byte]; by rewrite E).
  induction a as [|c a IH]; [exact E1|]. rewrite str_app_cons. cbn [cut_last_byte]. by rewrite IH.
Qed.

Lemma PathSplit_abs l x :
  Forall plain_component l → plain_component x → ∃ t, PathSplit (abs (l ++ [x])) = (t, x) ∧ Clean t = abs l.
Proof.
  intros Hl Hx. destruct (abs_snoc l x) as (t & E & Ht). exists (t +:+ "/"). unfold PathSplit. rewrite E, cut_last_app by by destruct Hx as (_ & _ & _ & ?).
  split; [done|]. apply Clean_abs; [| |done].
  - pose proof (abs_rooted (l ++ [x])) as Hr. rewrite E in Hr. destruct t; [done|]. by rewrite str_app_cons in *.
  - change (t +:+ "/") with (t +:+ String "/" ""). rewrite Split_app, filter_app, Ht, Split_abs by done.
    change (Split "/" "") with [""]. rewrite filter_cons_False by (intros En; by apply En). by rewrite filter_nil, app_nil_r.
Qed.

Lemma PathDir_abs l x : Forall plain_component l → plain_component x → PathDir (abs (l ++ [x])) = abs l.
Proof. intros Hl Hx. destruct (PathSplit_abs l x Hl Hx) as (t & E & Ht). unfold PathDir. by rewrite E. Qed.

Lemma Join_cons x l : l ≠ [] → Join (x :: l) "/" = x +:+ String "/" (Join l "/").
Proof. by destruct l. Qed.

Lemma PathJoin_abs l elements :
  elements ≠ [] → Forall plain_component l → Forall plainPath elements → PathJoin (abs l :: elements) = abs (l ++ mjoin (Split "/" <$> elements)).
Proof.
  intros Hne Hl He. unfold PathJoin. rewrite filter_cons_True by done. rewrite filter_nonempty by done. rewrite Join_cons by done.
  assert (Hp : Forall plain_component (l ++ mjoin (Split "/" <$> elements))).
  { apply Forall_app. split; [done|]. clear Hne. induction He as [|x k Hx Hk IH]; [constructor|]. cbn. by apply Forall_app. }
  destruct (PathJoin_plain elements Hne He) as (Ej & Es & _). rewrite Ej in Es.
  apply Clean_abs; [| |done].
  - pose proof (abs_rooted l) as Hr. unfold abs. by rewrite str_app_cons.
  - rewrite Split_app, filter_app, Split_abs, Es by done. f_equal. apply filter_plain.
    by apply Forall_app in Hp as [_ Hp].
Qed.

(** ** The layout of a repository *)

Record layout := mkLayout { lay_base : list string; lay_name : string }.
Definition wf_layout (y : layout) : Prop := Forall plain_component (lay_base y) ∧ plain_component (lay_name y).
Definition rootPath (y : layout) : string := abs (lay_base y ++ [lay_name y]).
Definition pendingPath (y : layout) : string := rootPath y +:+ ".snailmail-pending".
Definition managedPath (y : layout) (l : list string) : string := abs (lay_base y ++ ".snailmail" :: l).

Lemma remoteRoot_layout repository :
  match remoteRoot repository with
  | Return root => ∃ y, wf_layout y ∧ root = rootPath y
  | Failing e => e = rsyncInvalid
  | Do _ _ => False
  end.
Proof.
  unfold remoteRoot. case_bool_decide; [done|]. destruct (HasPrefix _ _) eqn:Hr; [|done]. cbn [negb].
  destruct (Clean_rooted _ Hr) as (l & Hl & ->). case_bool_decide as Hc; [done|].
  destruct l as [|x l _] using rev_ind; [done|]. apply Forall_app in Hl as [Hl Hx]. apply Forall_cons in Hx as [Hx _].
  by exists (mkLayout l x).
Qed.

Lemma managed_join y elements :
  wf_layout y → Forall plainPath elements → PathJoin (abs (lay_base y) :: (".snailmail" :: elements)) = managedPath y (mjoin (Split "/" <$> elements)).
Proof. intros [Hb _] He. rewrite PathJoin_abs; [done|done|done|]. constructor; [|done]. by apply plain_component_single. Qed.

(** The joins the adapter writes, whose first element has two components. *)
Lemma managed_path y directory x elements :
  wf_layout y → directory = ".snailmail/" +:+ x → plain_component x → Forall plainPath elements →
  PathJoin (abs (lay_base y) :: directory :: elements) = managedPath y (x :: mjoin (Split "/" <$> elements)).
Proof.
  intros [Hb _] -> Hx He. assert (Hs : Split "/" (".snailmail/" +:+ x) = [".snailmail"; x]).
  { change (".snailmail/" +:+ x) with (".snailmail" +:+ String "/" x). rewrite Split_app, (Split_single x) by by destruct Hx as (_ & _ & _ & ?). done. }
  rewrite PathJoin_abs; [|done|done|].
  - unfold managedPath. cbn [fmap list_fmap mjoin list_join]. by rewrite Hs.
  - constructor; [|done]. unfold plainPath. rewrite Hs. repeat constructor; try done; apply Hx.
Qed.

Lemma pending_abs y : wf_layout y → pendingPath y = abs (lay_base y ++ [lay_name y +:+ ".snailmail-pending"]) ∧ plain_component (lay_name y +:+ ".snailmail-pending").
Proof.
  intros [Hb Hn]. split.
  - unfold pendingPath, rootPath, abs. destruct (lay_base y) as [|b l]; [done|]. by rewrite !Join_snoc, str_app_cons, !str_app_assoc.
  - destruct Hn as (_ & _ & _ & Hm). unfold plain_component. rewrite mem_byte_app, Hm.
    assert (Hl : (17 ≤ String.length (lay_name y +:+ ".snailmail-pending"))%nat) by (rewrite str_length_app; cbn; lia).
    split_and!; try done; intros E; rewrite E in Hl; cbn in Hl; lia.
Qed.

(** ** The tree a link names *)

Lemma rev_app_app s t u : String.rev_app (s +:+ t) u = String.rev_app t (String.rev_app s u).
Proof. revert u. induction s as [|c s IH]; intros u; [done|]. rewrite str_app_cons. cbn [String.rev_app]. apply IH. Qed.

Lemma rev_app_acc s u : String.rev_app s u = String.rev_app s "" +:+ u.
Proof.
  revert u. induction s as [|c s IH]; intros u; [done|]. cbn [String.rev_app]. rewrite IH, (IH (String c "")), str_app_assoc. done.
Qed.

Lemma rev_snoc s c : String.rev (s +:+ String c "") = String c (String.rev s).
Proof. unfold String.rev. by rewrite rev_app_app. Qed.

Lemma rev_involutive s : String.rev (String.rev s) = s.
Proof.
  induction s as [|c s IH]; [done|]. unfold String.rev at 2. cbn [String.rev_app]. rewrite rev_app_acc. fold (String.rev s).
  by rewrite rev_snoc, IH.
Qed.

Lemma trim_none fuel runes s : List.find (HasPrefix s) runes = None → trim_runes fuel runes s = s.
Proof. intros E. destruct fuel; [done|]. cbn [trim_runes]. by rewrite E. Qed.

Lemma hex_not_space c s : is_lower_hex c = true → List.find (HasPrefix (String c s)) (map String.rev space_runes) = None.
Proof. destruct c as [[] [] [] [] [] [] [] []]; vm_compute; intros E; first [reflexivity|discriminate E]. Qed.

(** What [readlink] prints of a link ending in a digest is that link. *)
Lemma TrimSpace_link t c s :
  is_lower_hex c = true → t = String "/" s +:+ String c "" → TrimSpace (t +:+ String "010" "") = t.
Proof.
  intros Hc ->. unfold TrimSpace. rewrite (trim_none _ space_runes) by reflexivity. cbn zeta. rewrite rev_snoc.
  set (u := String "/" s +:+ String c ""). assert (Hr : String.rev u = String c (String.rev (String "/" s))) by apply rev_snoc.
  rewrite str_length_app. replace (String.length u + String.length (String "010" ""))%nat with (S (String.length u)) by (cbn; lia).
  cbn [trim_runes]. change (List.find (HasPrefix (String "010" (String.rev u))) (map String.rev space_runes)) with (Some (String "010" "")).
  cbn [String.length sdrop]. rewrite Hr, trim_none by by apply hex_not_space. by rewrite <- Hr, rev_involutive.
Qed.

(** The tree a published path serves, as an observation reads it. *)
Definition servedBy (link : option string) : string :=
  match link with Some target => treeFromTarget (TrimSpace (target +:+ String "010" "")) | None => "" end.

Lemma digest_last tree : ValidSHA256 tree = true → ∃ s c, tree = s +:+ String c "" ∧ is_lower_hex c = true.
Proof.
  intros [Hl Hh]%validLowerHex_spec. assert (tree ≠ "") as Hne by (intros ->; cbn in Hl; lia). clear Hl.
  induction tree as [|c s IH]; [done|]. cbn [all_bytes] in Hh. apply andb_true_iff in Hh as [Hc Hh]. destruct s as [|d s]; [by exists "", c|].
  destruct (IH Hh) as (t & e & E & He); [done|]. exists (String c t), e. by rewrite E.
Qed.

Definition releasePath (y : layout) (tree : string) : string := managedPath y ["releases"; tree].

Lemma release_served y tree : wf_layout y → ValidSHA256 tree = true → servedBy (Some (releasePath y tree)) = tree.
Proof.
  intros [Hb Hn] Ht. pose proof (digest_plain _ Ht) as Hp. cbn [servedBy].
  assert (Hs : ∃ s c, releasePath y tree = String "/" s +:+ String c "" ∧ is_lower_hex c = true).
  { destruct (digest_last _ Ht) as (s & c & E & Hc). unfold releasePath, managedPath, abs.
    replace (lay_base y ++ [".snailmail"; "releases"; tree]) with ((lay_base y ++ [".snailmail"; "releases"]) ++ [tree]) by by rewrite <- app_assoc.
    rewrite Join_snoc by by destruct (lay_base y). rewrite E. exists (Join (lay_base y ++ [".snailmail"; "releases"]) "/" +:+ "/" +:+ s), c. split; [|done]. by rewrite (str_app_cons _ (_ +:+ _ +:+ s)), !str_app_assoc. }
  destruct Hs as (s & c & E & Hc). rewrite (TrimSpace_link _ c s) by done. clear s c E Hc.
  set (l := lay_base y ++ [".snailmail"; "releases"]).
  assert (Hl : Forall plain_component l) by (apply Forall_app; split; [done|by repeat constructor]).
  assert (releasePath y tree = abs (l ++ [tree])) as -> by (unfold releasePath, managedPath, l; by rewrite <- app_assoc).
  unfold treeFromTarget. rewrite bool_decide_eq_false_2 by done.
  rewrite (Clean_abs (abs (l ++ [tree])) (l ++ [tree])).
  2:{ apply abs_rooted. } 2:{ apply Split_abs. apply Forall_app. split; [done|by constructor]. } 2:{ apply Forall_app. split; [done|by constructor]. }
  destruct (PathSplit_abs l tree Hl Hp) as (t & -> & ->). rewrite Ht. cbn [negb].
  assert (HasSuffix (abs l) releasesDirectory = true) as ->; [|done].
  unfold l, abs. destruct (lay_base y) as [|x k]; [by vm_compute|].
  replace ((x :: k) ++ [".snailmail"; "releases"]) with (((x :: k) ++ [".snailmail"]) ++ ["releases"]) by by rewrite <- app_assoc.
  rewrite !Join_snoc by done. rewrite !str_app_assoc. rewrite <- str_app_cons, <- (str_app_assoc _ "/"). apply HasSuffix_app.
Qed.

(** ** Quoting *)

(** How a POSIX shell reads a command line of quoted words: [None] where it would see
    anything unquoted but an escaped character or a space. *)
Inductive shellMode := Plain | Quoted | Escaped.

Fixpoint shellWords (mode : shellMode) (word : option string) (line : string) : option (list string) :=
  match line with
  | "" => match mode with Plain => Some (match word with Some w => [w] | None => [] end) | _ => None end
  | String c rest =>
      let grown := Some (default "" word +:+ String c "") in
      match mode with
      | Quoted => if ascii_eqb c quoteByte then shellWords Plain word rest else shellWords Quoted grown rest
      | Escaped => shellWords Plain grown rest
      | Plain =>
          if ascii_eqb c " " then
            words ← shellWords Plain None rest; Some (match word with Some w => w :: words | None => words end)
          else if ascii_eqb c quoteByte then shellWords Quoted (Some (default "" word)) rest
          else if ascii_eqb c "\" then shellWords Escaped word rest
          else None
      end
  end.

Lemma words_quoted a rest w :
  shellWords Quoted (Some w) (escapeQuotes a +:+ String quoteByte rest) = shellWords Plain (Some (w +:+ a)) rest.
Proof.
  revert w. induction a as [|c a IH]; intros w.
  { cbn [escapeQuotes]. change ("" +:+ String quoteByte rest) with (String quoteByte rest). cbn [shellWords].
    by rewrite ascii_eqb_refl, str_app_nil_r. }
  cbn [escapeQuotes]. destruct (ascii_eqb c quoteByte) eqn:E.
  - apply ascii_eqb_eq in E as ->. rewrite str_app_assoc.
    change (shellWords Quoted (Some w) ("'\''" +:+ (escapeQuotes a +:+ String quoteByte rest))) with
      (shellWords Quoted (Some (w +:+ "'")) (escapeQuotes a +:+ String quoteByte rest)). by rewrite IH, str_app_assoc.
  - rewrite str_app_cons. cbn [shellWords]. rewrite E. cbn [default]. by rewrite IH, str_app_assoc.
Qed.

(** A remote shell reads back exactly the arguments the adapter gave, whatever bytes
    they contain: nothing in them is ever seen unquoted. *)
Theorem quoting_roundtrip argv : shellWords Plain None (Join (quoteAll argv) " ") = Some argv.
Proof.
  assert (Hq : ∀ a rest, shellWords Plain None ("'" +:+ escapeQuotes a +:+ "'" +:+ rest) = shellWords Plain (Some a) rest).
  { intros a rest. change ("'" +:+ escapeQuotes a +:+ "'" +:+ rest) with (String quoteByte (escapeQuotes a +:+ String quoteByte rest)).
    cbn [shellWords]. change (ascii_eqb quoteByte " ") with false. rewrite ascii_eqb_refl. apply words_quoted. }
  induction argv as [|a argv IH]; [done|]. destruct argv as [|b argv].
  - change (Join (quoteAll [a]) " ") with ("'" +:+ escapeQuotes a +:+ "'" +:+ ""). by rewrite Hq.
  - change (Join (quoteAll (a :: b :: argv)) " ") with (("'" +:+ escapeQuotes a +:+ "'") +:+ " " +:+ Join (quoteAll (b :: argv)) " ").
    rewrite !str_app_assoc, Hq. change (" " +:+ Join (quoteAll (b :: argv)) " ") with (String " " (Join (quoteAll (b :: argv)) " ")).
    cbn [shellWords]. rewrite ascii_eqb_refl, IH. done.
Qed.
