(* ===== verification/RsyncProofs.v ===== *)
(** Publishers that share a directory over ssh: whatever they interleave and however
    their commands fail, the published path is switched only as a compare-and-swap.

    The far side is a parameter with the behaviour its commands are documented to
    have ([RemoteLaws]).  A command may be lost, or take effect unanswered; what the
    program is then told may be a transport failure or, as ssh reports its own
    failures, an exit status.  A command that takes effect does so when it is sent. *)

From S2P Require Import Prelude GoStrings GoSlices Model Formats Source JsonStrict PlanJson Manifest ManifestProofs Host S3Store S3Keys S3 S3KeyProofs Rsync RsyncPaths.

Open Scope Z_scope.

(** ** The far side *)

(** [p] is [q] or a directory above it. *)
Definition above (p q : string) : bool :=
  bool_decide (filter (λ c, c ≠ "") (Split "/" p) `prefix_of` filter (λ c, c ≠ "") (Split "/" q)).

(** The commands of the adapter. *)
Inductive Action :=
| MakeParents (p : string) | MakeDirectory (p : string) | RemoveDirectory (p : string) | RemoveAll (p : string)
| Move (a b : string) | Rename (flag a b : string) | Link (target p : string) | Copy (directory p : string)
| ReadLink (p : string) | Exists (p : string) | List (p : string) | Usage (p : string) | Unknown.

Definition actionOf (c : Command) : Action :=
  match c with
  | Run [name; p] =>
      match name with
      | "mkdir" => MakeDirectory p
      | "rmdir" => RemoveDirectory p
      | "readlink" => ReadLink p
      | "ls" => List p
      | _ => Unknown
      end
  | Run [name; a; b] =>
      match name with
      | "mv" => Move a b
      | "mkdir" => match a with "-p" => MakeParents b | _ => Unknown end
      | "rm" => match a with "-rf" => RemoveAll b | _ => Unknown end
      | "test" => match a with "-e" => Exists b | _ => Unknown end
      | "du" => match a with "-sk" => Usage b | _ => Unknown end
      | _ => Unknown
      end
  | Run [name; flag; a; b] =>
      match name with
      | "mv" => Rename flag a b
      | "ln" => match flag with "-sfn" => Link a b | _ => Unknown end
      | _ => Unknown
      end
  | Run _ => Unknown
  | Send directory p => Copy directory p
  end.

(** The paths a command may change the entry of. *)
Definition touches (c : Command) (q : string) : bool :=
  match actionOf c with
  | MakeParents p => above q p
  | MakeDirectory p | RemoveDirectory p => bool_decide (q = p)
  | RemoveAll p | Copy _ p | Link _ p => above p q
  | Move a b | Rename _ a b => above a q || above b q
  | ReadLink _ | Exists _ | List _ | Usage _ => false
  | Unknown => true
  end.

(** The paths a command that changes anything is given, and those of them that it would
    follow if they were links. *)
Definition operands (c : Command) : list string :=
  match actionOf c with
  | MakeParents p | MakeDirectory p | RemoveDirectory p | RemoveAll p | Copy _ p | Link _ p => [p]
  | Move a b | Rename _ a b => [a; b]
  | ReadLink _ | Exists _ | List _ | Usage _ | Unknown => []
  end.
Definition followed (c : Command) : list string := match actionOf c with Copy _ p | Move _ p => [p] | _ => [] end.

(** What a command does where it runs: the far side it leaves, its exit status and its
    output.  [linkAt] is the target of a symbolic link, [present] whether a directory
    entry exists, and [isDir] whether it is itself a directory. *)
Class Remote := {
  Far : Type;
  execute : Command → Far → Far * (Z * string);
  linkAt : Far → string → option string;
  present : Far → string → bool;
  isDir : Far → string → bool;
}.

(** No directory above the path is a symbolic link: the path is where it says it is. *)
Definition straight `{Remote} (far : Far) (p : string) : Prop :=
  ∃ l, Forall plain_component l ∧ p = abs l ∧ ∀ k, k `prefix_of` l → k ≠ l → linkAt far (abs k) = None.
Definition footing `{Remote} (c : Command) (far : Far) : Prop :=
  (∀ p, p ∈ operands c → straight far p) ∧ (∀ p, p ∈ followed c → linkAt far p = None).
(** An entry that is not a directory. *)
Definition solid `{Remote} (far : Far) (p : string) : bool := present far p && negb (isDir far p).

(** What POSIX, GNU and BSD document of the commands. *)
Class RemoteLaws `{Remote} : Prop := {
  frame c far q : footing c far → straight far q → touches c q = false →
    linkAt (execute c far).1 q = linkAt far q ∧ present (execute c far).1 q = present far q ∧ isDir (execute c far).1 q = isDir far q;
  readlink_prints p far target : linkAt far p = Some target →
    (execute (Run ["readlink"; p]) far).2 = (0, target +:+ String "010" "");
  readlink_fails p far : linkAt far p = None → (execute (Run ["readlink"; p]) far).2.1 ≠ 0;
  (** mkdir(2) creates the entry or, where there is one, fails. *)
  mkdir_creates p far : (execute (Run ["mkdir"; p]) far).2.1 = 0 → present far p = false ∧ present (execute (Run ["mkdir"; p]) far).1 p = true;
  mkdir_exists p far : present far p = true →
    (execute (Run ["mkdir"; p]) far).2.1 ≠ 0 ∧ present (execute (Run ["mkdir"; p]) far).1 p = true;
  (** Making and removing directories makes and removes no link; removing makes none. *)
  mkdir_links p far q : straight far q → linkAt (execute (Run ["mkdir"; p]) far).1 q = linkAt far q;
  mkdirs_links p far q : straight far q → linkAt (execute (Run ["mkdir"; "-p"; p]) far).1 q = linkAt far q;
  rmdir_links p far q : straight far q → linkAt (execute (Run ["rmdir"; p]) far).1 q = linkAt far q;
  rm_links p far q : straight far q → linkAt far q = None → linkAt (execute (Run ["rm"; "-rf"; p]) far).1 q = None;
  (** What is sent to a directory leaves it one; what is moved is the entry that was there. *)
  send_links directory p far : straight far p → linkAt far p = None → linkAt (execute (Send directory p) far).1 p = None;
  mv_links a b far : straight far a → straight far b → linkAt far a = None → linkAt far b = None →
    linkAt (execute (Run ["mv"; a; b]) far).1 a = None ∧ linkAt (execute (Run ["mv"; a; b]) far).1 b = None;
  (** A link is made, unless its name is a directory, in which it is then made. *)
  ln_makes target p far : (execute (Run ["ln"; "-sfn"; target; p]) far).2.1 = 0 →
    linkAt (execute (Run ["ln"; "-sfn"; target; p]) far).1 p = Some target ∨
    linkAt (execute (Run ["ln"; "-sfn"; target; p]) far).1 p = None ∧ solid (execute (Run ["ln"; "-sfn"; target; p]) far).1 p = false;
  (** rename(2) in one directory: the destination becomes the source, which is gone; or,
      where the destination is a directory and the option is BSD's, the source is moved
      into it. *)
  rename_moves flag a b far : flag ∈ ["-T"; "-h"] → straight far a → straight far b → PathDir a = PathDir b → a ≠ b → (execute (Run ["mv"; flag; a; b]) far).2.1 = 0 →
    (linkAt (execute (Run ["mv"; flag; a; b]) far).1 b = linkAt far a ∨
     flag = "-h" ∧ linkAt far b = None ∧ linkAt (execute (Run ["mv"; flag; a; b]) far).1 b = None) ∧
    linkAt (execute (Run ["mv"; flag; a; b]) far).1 a = None ∧ present (execute (Run ["mv"; flag; a; b]) far).1 a = false;
  (** What is absent is not renamed, and a directory does not replace a link. *)
  rename_refuses flag a b far : flag ∈ ["-T"; "-h"] → straight far a → straight far b → PathDir a = PathDir b → solid far a = false → is_Some (linkAt far b) →
    (execute (Run ["mv"; flag; a; b]) far).2.1 ≠ 0;
  rename_fails flag a b far : flag ∈ ["-T"; "-h"] → straight far a → straight far b → PathDir a = PathDir b → (execute (Run ["mv"; flag; a; b]) far).2.1 ≠ 0 →
    linkAt (execute (Run ["mv"; flag; a; b]) far).1 b = linkAt far b ∧ linkAt (execute (Run ["mv"; flag; a; b]) far).1 a = linkAt far a ∧
    solid (execute (Run ["mv"; flag; a; b]) far).1 a = solid far a;
}.

(** How the adapter learns of it. *)
Inductive Delivery := Delivered | Undelivered (e : RunError) | Unanswered (e : RunError).

Definition perform `{Remote} (d : Delivery) (c : Command) (far : Far) : Far * (RunError + string) :=
  match d with
  | Delivered => let '(far', (code, output)) := execute c far in (far', runnerResult (Ended code output))
  | Undelivered e => (far, inl e)
  | Unanswered e => ((execute c far).1, inl e)
  end.

(** A failure to reach the far side is not mistaken for a command's exit status. *)
Definition honest (d : Delivery) : bool := match d with Undelivered e | Unanswered e => negb (exited e) | Delivered => true end.

(** ** Publishers *)

Inductive Operation :=
| Observing
| Committing (staged : S3Staged) (expected : ExpectedRevision)
| Aborting (staged : S3Staged)
| Collecting (retention : Retention).

Definition program (repository : RsyncRepository) (op : Operation) : prog () :=
  match op with
  | Observing => _ ← ObserveRsync repository; Return ()
  | Committing staged expected => _ ← CommitRsync repository staged expected; Return ()
  | Aborting staged => AbortRsync repository staged
  | Collecting retention => _ ← CollectRsync repository retention; Return ()
  end.

(** A change of the published path: by which operation, from which link to which. *)
Record Swap := mkSwap { swap_by : nat; swap_from : option string; swap_to : option string }.

Section concurrent.
Context `{Remote} (repository : RsyncRepository) (root : string) (honestly : bool).

Record System := mkSystem { sys_far : Far; sys_running : list (prog ()); sys_swaps : list Swap }.

Definition noted (i : nat) (far far' : Far) (swaps : list Swap) : list Swap :=
  if bool_decide (linkAt far root = linkAt far' root) then swaps else swaps ++ [mkSwap i (linkAt far root) (linkAt far' root)].

(** One operation runs its next command; an operation that never runs again has crashed. *)
Inductive step : System → System → Prop :=
| step_command far running swaps i c k d :
    running !! i = Some (Do c k) → (honestly = true → honest d = true) →
    step (mkSystem far running swaps)
      (mkSystem (perform d c far).1 (<[i := k (perform d c far).2]> running) (noted i far (perform d c far).1 swaps)).

Definition started (far : Far) (ops : list Operation) : System := mkSystem far (program repository <$> ops) [].
End concurrent.

(** ** Which commands leave the published path alone *)

Section paths.
Context `{RemoteLaws} (y : layout).

Definition lockPath : string := managedPath y ["lock"].
Definition managed (l : list string) : Prop := Forall plain_component l.

(** None of the directories the adapter works in is a symbolic link. *)
Definition unlinked (far : Far) : Prop :=
  (∀ k, k `prefix_of` lay_base y → linkAt far (abs k) = None) ∧
  (∀ l, managed l → (length l ≤ 2)%nat → linkAt far (managedPath y l) = None).

(** A command that works in those directories, and leaves them so. *)
Definition orderly (c : Command) : Prop := ∀ far, unlinked far → footing c far ∧ unlinked (execute c far).1.

Definition spares (c : Command) : Prop :=
  touches c (rootPath y) = false ∧ touches c (pendingPath y) = false ∧ touches c lockPath = false ∧ orderly c.

Context (Hy : wf_layout y) (Hname : lay_name y ≠ ".snailmail").

Lemma above_abs l k : Forall plain_component l → Forall plain_component k → above (abs l) (abs k) = bool_decide (l `prefix_of` k).
Proof. intros Hl Hk. unfold above. by rewrite !Split_abs. Qed.

Lemma lock_managed : managed ["lock"].
Proof. by repeat constructor. Qed.
Lemma releases_managed : managed ["releases"].
Proof. by repeat constructor. Qed.
Lemma managed_wf l : managed l → Forall plain_component (lay_base y ++ ".snailmail" :: l).
Proof. intros Hl. apply Forall_app. split; [apply Hy|]. by constructor. Qed.
Lemma sibling_wf x : plain_component x → Forall plain_component (lay_base y ++ [x]).
Proof. intros Hx. apply Forall_app. split; [apply Hy|by constructor]. Qed.

(** A sibling of the managed directory and what is in it. *)
Lemma apart x l : plain_component x → x ≠ ".snailmail" → managed l →
  above (abs (lay_base y ++ [x])) (managedPath y l) = false ∧ above (managedPath y l) (abs (lay_base y ++ [x])) = false.
Proof.
  intros Hx Hne Hl. unfold managedPath.
  assert (Hall : ∀ m, managed m → ¬ lay_base y ++ ".snailmail" :: m `prefix_of` lay_base y ++ [x]).
  { intros m _ Hp%prefix_app_inv. by apply prefix_cons_inv_1 in Hp as <-. }
  rewrite !above_abs by first [by apply managed_wf|by apply sibling_wf].
  split; apply bool_decide_eq_false_2; [|by apply Hall].
  intros Hp%prefix_app_inv. by apply prefix_cons_inv_1 in Hp.
Qed.

Lemma above_lock l : managed l → above (managedPath y l) lockPath = bool_decide (l `prefix_of` ["lock"]) ∧
  above lockPath (managedPath y l) = bool_decide (["lock"] `prefix_of` l).
Proof.
  intros Hl. unfold lockPath, managedPath. rewrite !above_abs by first [by apply managed_wf|by apply managed_wf; repeat constructor].
  split; apply bool_decide_ext; split; intros Hp.
  1,3: by apply prefix_app_inv, prefix_cons_inv_2 in Hp.
  all: by apply prefix_app, prefix_cons.
Qed.

Lemma pending_ne : lay_name y +:+ ".snailmail-pending" ≠ ".snailmail".
Proof.
  intros E%(f_equal String.length). rewrite str_length_app in E. cbn in E. lia.
Qed.

(** *** Where the commands work *)

Lemma prefix_app_cases (k l m : list string) : k `prefix_of` l ++ m → k `prefix_of` l ∨ ∃ m', k = l ++ m' ∧ m' `prefix_of` m.
Proof. intros [t E]. apply app_eq_inv in E as [(j & -> & _)|(j & -> & ->)]; [left; by exists j|right; exists j; split; [done|by exists t]]. Qed.

Lemma straight_base far k : unlinked far → k `prefix_of` lay_base y → straight far (abs k).
Proof.
  intros [Hb _] Hk. exists k. split_and!; [|done|intros j Hj _; apply Hb; by etrans].
  destruct Hk as [t Et], Hy as [Hp _]. rewrite Et in Hp. by apply Forall_app in Hp as [? _].
Qed.
Lemma straight_sibling far x : unlinked far → plain_component x → straight far (abs (lay_base y ++ [x])).
Proof.
  intros [Hb _] Hx. exists (lay_base y ++ [x]). split_and!; [by apply sibling_wf|done|]. intros k [Hk|(m & -> & [t Et])]%prefix_app_cases Hne; [by apply Hb|].
  destruct m as [|z m]; [by rewrite app_nil_r; apply Hb|]. injection Et as <- Et. by destruct m.
Qed.
Lemma straight_managed far l : unlinked far → managed l → (length l ≤ 3)%nat → straight far (managedPath y l).
Proof.
  intros [Hb Hm] Hl Hn. exists (lay_base y ++ ".snailmail" :: l). split_and!; [by apply managed_wf|done|].
  intros k [Hk|(m & -> & [t Et])]%prefix_app_cases Hne; [by apply Hb|]. destruct m as [|z m]; [by rewrite app_nil_r; apply Hb|].
  injection Et as <- ->. unfold managed in Hl. apply Forall_app in Hl as [Hl _]. apply Hm; [done|].
  rewrite length_app in Hn. destruct t; [by rewrite app_nil_r in Hne|]. cbn in Hn. lia.
Qed.

Lemma unlinked_kept c far :
  unlinked far → footing c far → (∀ k, k `prefix_of` lay_base y → touches c (abs k) = false ∨ linkAt (execute c far).1 (abs k) = None) →
  (∀ l, managed l → (length l ≤ 2)%nat → touches c (managedPath y l) = false ∨ linkAt (execute c far).1 (managedPath y l) = None) →
  unlinked (execute c far).1.
Proof.
  intros Hu Hf Hb Hm. split.
  - intros k Hk. destruct (Hb k Hk) as [Ht|]; [|done]. rewrite (proj1 (frame c far _ Hf (straight_base far k Hu Hk) Ht)). by apply Hu.
  - intros l Hl Hn. destruct (Hm l Hl Hn) as [Ht|]; [|done].
    rewrite (proj1 (frame c far _ Hf (straight_managed far l Hu Hl ltac:(lia)) Ht)). by apply Hu.
Qed.

Lemma footing_managed c far l : unlinked far → managed l → (length l ≤ 3)%nat → operands c = [managedPath y l] → followed c = [] → footing c far.
Proof. intros Hu Hl Hn Ho Hf. split; rewrite ?Ho, ?Hf; intros p; [intros ->%list_elem_of_singleton; by apply straight_managed|by intros ?%not_elem_of_nil]. Qed.

Lemma orderly_reading c : operands c = [] → followed c = [] → (∀ q, touches c q = false) → orderly c.
Proof.
  intros Ho Hf Ht far Hu. assert (footing c far) by (split; rewrite ?Ho, ?Hf; by intros ? ?%not_elem_of_nil).
  split; [done|]. apply unlinked_kept; auto.
Qed.
Lemma orderly_directory l : managed l → (length l ≤ 3)%nat →
  orderly (Run ["mkdir"; "-p"; managedPath y l]) ∧ orderly (Run ["mkdir"; managedPath y l]) ∧ orderly (Run ["rmdir"; managedPath y l]) ∧
  orderly (Run ["rm"; "-rf"; managedPath y l]).
Proof.
  intros Hl Hn. split_and!; intros far Hu; (split; [by apply (footing_managed _ far l)|]);
    assert (Hs := λ k Hk, straight_base far k Hu Hk); assert (Hd := λ m Hm Hlen, straight_managed far m Hu Hm (Nat.le_trans _ 2 3 Hlen (le_S _ _ (le_n 2))));
    destruct Hu as [Hb Hm]; split; intros; rewrite ?mkdirs_links, ?mkdir_links, ?rmdir_links by auto; try apply rm_links; auto.
Qed.

(** Nothing the adapter works in is below what it sends or moves, but that itself. *)
Lemma below_deep l : managed l → length l = 2%nat →
  (∀ k, k `prefix_of` lay_base y → above (managedPath y l) (abs k) = false) ∧
  ∀ m, managed m → (length m ≤ 2)%nat → above (managedPath y l) (managedPath y m) = false ∨ m = l.
Proof.
  intros Hl Hn. split.
  - intros k Hk. unfold managedPath. rewrite above_abs; [|by apply managed_wf|destruct Hk as [t Et], Hy as [Hp _]; rewrite Et in Hp; by apply Forall_app in Hp as [? _]].
    apply bool_decide_eq_false_2. intros Hp%prefix_length. apply prefix_length in Hk. rewrite length_app in Hp. cbn in Hp. lia.
  - intros m Hm Hlen. unfold managedPath. rewrite above_abs by by apply managed_wf. case_bool_decide as Hp; [right|by left].
    apply prefix_app_inv, prefix_cons_inv_2 in Hp as [t ->]. rewrite length_app in Hlen. destruct t; [by rewrite app_nil_r|]. cbn in Hlen. lia.
Qed.
Lemma orderly_send directory l : managed l → length l = 2%nat → orderly (Send directory (managedPath y l)).
Proof.
  intros Hl Hn far Hu. destruct (below_deep l Hl Hn) as [Hk Hm].
  assert (Hf : footing (Send directory (managedPath y l)) far).
  { split; intros p ->%list_elem_of_singleton; [apply straight_managed; [done..|lia]|apply Hu; [done|lia]]. }
  split; [done|]. apply unlinked_kept; [done..| |].
  - intros k Hp. left. by apply Hk.
  - intros m Hmm Hlen. destruct (Hm m Hmm Hlen) as [?| ->]; [by left|right]. apply send_links; [by apply Hf; left|by apply Hu].
Qed.
Lemma orderly_move l l' : managed l → length l = 2%nat → managed l' → length l' = 2%nat → orderly (Run ["mv"; managedPath y l; managedPath y l']).
Proof.
  intros Hl Hn Hl' Hn' far Hu. destruct (below_deep l Hl Hn) as [Hk Hm], (below_deep l' Hl' Hn') as [Hk' Hm'].
  assert (Hf : footing (Run ["mv"; managedPath y l; managedPath y l']) far).
  { split; intros p; [intros [-> | ->%list_elem_of_singleton]%elem_of_cons; apply straight_managed; done || lia|intros ->%list_elem_of_singleton; apply Hu; [done|lia]]. }
  assert (Hlinks := mv_links (managedPath y l) (managedPath y l') far ltac:(apply Hf; by left) ltac:(apply Hf; right; by left) ltac:(apply Hu; [done|lia]) ltac:(apply Hu; [done|lia])).
  split; [done|]. apply unlinked_kept; [done..| |].
  - intros k Hp. left. cbn [touches actionOf]. by rewrite Hk, Hk'.
  - intros m Hmm Hlen. cbn [touches actionOf]. destruct (Hm m Hmm Hlen) as [-> | ->]; [|right; apply Hlinks].
    destruct (Hm' m Hmm Hlen) as [-> | ->]; [by left|right; apply Hlinks].
Qed.

(** Beside the managed directory. *)
Lemma orderly_beside c l : operands c = (λ x, abs (lay_base y ++ [x])) <$> l → followed c = [] → Forall (λ x, plain_component x ∧ x ≠ ".snailmail") l →
  (∀ q, touches c q = true → ∃ x, x ∈ l ∧ above (abs (lay_base y ++ [x])) q = true) → orderly c.
Proof.
  intros Ho Hf Hl Ht far Hu. rewrite Forall_forall in Hl.
  assert (Hfoot : footing c far).
  { split; rewrite ?Ho, ?Hf; [|by intros ? ?%not_elem_of_nil]. intros p (x & -> & Hx)%list_elem_of_fmap. apply straight_sibling; [done|]. by apply Hl. }
  split; [done|]. apply unlinked_kept; [done..| |].
  - intros k Hk. left. apply not_true_is_false. intros (x & Hx & Ha)%Ht. destruct (Hl x Hx) as [Hp _].
    rewrite above_abs in Ha; [|by apply sibling_wf|destruct Hk as [t Et], Hy as [Hb _]; rewrite Et in Hb; by apply Forall_app in Hb as [? _]].
    apply bool_decide_eq_true, prefix_length in Ha. apply prefix_length in Hk. rewrite length_app in Ha. cbn in Ha. lia.
  - intros m Hm _. left. apply not_true_is_false. intros (x & Hx & Ha)%Ht. destruct (Hl x Hx) as [Hp Hne].
    by rewrite (proj1 (apart x m Hp Hne Hm)) in Ha.
Qed.

(** Commands on directories of staging and releases. *)
Lemma spares_managed x l :
  managed (x :: l) → x ≠ "lock" → (length l ≤ 2)%nat →
  spares (Run ["mkdir"; "-p"; managedPath y (x :: l)]) ∧ spares (Run ["rm"; "-rf"; managedPath y (x :: l)]) ∧
  (length l = 1%nat → (∀ d, spares (Send d (managedPath y (x :: l)))) ∧
   ∀ x' l', managed (x' :: l') → x' ≠ "lock" → length l' = 1%nat → spares (Run ["mv"; managedPath y (x :: l); managedPath y (x' :: l')])).
Proof.
  intros Hl Hx Hn. destruct (pending_abs y Hy) as [Ep Hp].
  assert (Hall : ∀ x l, managed (x :: l) → x ≠ "lock" →
    (above (managedPath y (x :: l)) (rootPath y) = false ∧ above (managedPath y (x :: l)) (pendingPath y) = false ∧ above (managedPath y (x :: l)) lockPath = false) ∧
    (above (rootPath y) (managedPath y (x :: l)) = false ∧ above (pendingPath y) (managedPath y (x :: l)) = false ∧ above lockPath (managedPath y (x :: l)) = false)).
  { clear x l Hl Hx Hn. intros x l Hl Hx. rewrite Ep. unfold rootPath. destruct Hy as [_ Hn].
    destruct (apart (lay_name y) (x :: l) Hn Hname Hl) as [-> ->]. destruct (apart _ (x :: l) Hp pending_ne Hl) as [-> ->].
    destruct (above_lock (x :: l) Hl) as [-> ->].
    rewrite !bool_decide_eq_false_2; [done| |]; intros Hq%prefix_cons_inv_1; congruence. }
  destruct (Hall x l Hl Hx) as [(? & ? & ?) (? & ? & ?)]. destruct (orderly_directory (x :: l) Hl) as (O1 & _ & _ & O2); [cbn; lia|].
  unfold spares, touches. split_and!; try done. intros Hone. split; [intros d; split_and!; [done..|]; apply orderly_send; [done|cbn; lia]|].
  intros x' l' Hl' Hx' H1'. destruct (Hall x' l' Hl' Hx') as [(E1 & E2 & E3) _]. cbn [actionOf]. rewrite E1, E2, E3.
  split_and!; try by apply orb_false_iff. apply orderly_move; [done|cbn; lia|done|cbn; lia].
Qed.
End paths.

(** ** Holding the lock

    What a program may do to the published path, by whether it holds the lock: an
    [idle] one leaves it alone, and the lock is its only way in; a [holding] one knows
    the path ([K]), changes it only as its guarantee [G] allows, and leaves the lock
    alone until it gives it up. *)

Section locking.
Context `{RemoteLaws} (y : layout) (honestly : bool).
Context (Hy : wf_layout y) (Hname : lay_name y ≠ ".snailmail").

(** What the lock protects: the links at the published path and at the pending one, and
    whether the pending one is there to be renamed. *)
Definition view : Type := option string * (option string * bool).
Definition viewOf (far : Far) : view := (linkAt far (rootPath y), (linkAt far (pendingPath y), solid far (pendingPath y))).

Definition possible (d : Delivery) : Prop := honestly = true → honest d = true.

Section guarantee.
Context (G : option string → option string → Prop).

Inductive idle : prog () → Prop :=
| idle_return : idle (Return ())
| idle_failing e : idle (Failing e)
| idle_do c k : spares y c → (∀ r, idle (k r)) → idle (Do c k)
| idle_lock k : (∀ output, holding (λ _, True) (k (inr output))) → (∀ e, idle (k (inl e))) → idle (Do (Run ["mkdir"; lockPath y]) k)
with holding : (view → Prop) → prog () → Prop :=
| holding_do (K : view → Prop) c k :
    touches c (lockPath y) = false → orderly y c →
    (∀ far d, unlinked y far → K (viewOf far) → possible d →
       (linkAt far (rootPath y) = linkAt (perform d c far).1 (rootPath y) ∨
        G (linkAt far (rootPath y)) (linkAt (perform d c far).1 (rootPath y))) ∧
       ∃ K' : view → Prop, K' (viewOf (perform d c far).1) ∧ holding K' (k (perform d c far).2)) →
    holding K (Do c k)
| holding_unlock (K : view → Prop) k : (∀ r, idle (k r)) → holding K (Do (Run ["rmdir"; lockPath y]) k).

(** A command that spares the paths changes neither what is protected nor the lock. *)
Lemma straight_root far : unlinked y far → straight far (rootPath y).
Proof. intros Hu. apply straight_sibling; [done..|]. apply Hy. Qed.
Lemma straight_pending far : unlinked y far → straight far (pendingPath y).
Proof. intros Hu. destruct (pending_abs y Hy) as [-> Hp]. by apply straight_sibling. Qed.
Lemma straight_lock far : unlinked y far → straight far (lockPath y).
Proof. intros Hu. apply straight_managed; [done..|apply lock_managed|cbn; lia]. Qed.

Lemma perform_frame d c far q : orderly y c → unlinked y far → straight far q → touches c q = false →
  linkAt (perform d c far).1 q = linkAt far q ∧ present (perform d c far).1 q = present far q ∧ isDir (perform d c far).1 q = isDir far q.
Proof.
  intros Ho Hu Hs Hq. destruct (frame c far q (proj1 (Ho far Hu)) Hs Hq) as (Hl & Hp & Hd). destruct d; cbn [perform fst]; [|done|done].
  by destruct (execute c far) as [far' [code output]].
Qed.
Lemma perform_unlinked d c far : orderly y c → unlinked y far → unlinked y (perform d c far).1.
Proof.
  intros Ho Hu. pose proof (proj2 (Ho far Hu)). destruct d; cbn [perform fst]; [|done|done]. by destruct (execute c far) as [far' [code output]].
Qed.

Lemma view_kept d c far : orderly y c → unlinked y far → touches c (rootPath y) = false → touches c (pendingPath y) = false →
  viewOf (perform d c far).1 = viewOf far.
Proof.
  intros Ho Hu Hr Hp. destruct (perform_frame d c far _ Ho Hu (straight_root far Hu) Hr) as (Er & _ & _).
  destruct (perform_frame d c far _ Ho Hu (straight_pending far Hu) Hp) as (El & Ep & Ed). unfold viewOf, solid. by rewrite Er, El, Ep, Ed.
Qed.
Lemma spares_view d c far : spares y c → unlinked y far → viewOf (perform d c far).1 = viewOf far.
Proof. intros (Hr & Hp & _ & Ho) Hu. by apply view_kept. Qed.

(** Nor does one on the lock itself change what is protected. *)
Lemma orderly_lock : orderly y (Run ["mkdir"; lockPath y]) ∧ orderly y (Run ["rmdir"; lockPath y]).
Proof. destruct (orderly_directory y Hy ["lock"] lock_managed) as (_ & ? & ? & _); [cbn; lia|done]. Qed.
Lemma lock_view far d c :
  orderly y c → unlinked y far → (∀ q, touches c q = bool_decide (q = lockPath y)) → viewOf (perform d c far).1 = viewOf far.
Proof.
  intros Ho Hu Hc. destruct (pending_abs y Hy) as [Ep Hp].
  assert (Hne : ∀ x, plain_component x → x ≠ ".snailmail" → abs (lay_base y ++ [x]) ≠ lockPath y).
  { intros x Hx Hxn E. apply abs_inj in E; [|by apply sibling_wf|by apply managed_wf, lock_managed].
    by apply app_inv_head in E. }
  apply view_kept; [done..| |].
  - rewrite Hc. apply bool_decide_eq_false_2, Hne; [apply Hy|done].
  - rewrite Hc, Ep. apply bool_decide_eq_false_2, Hne; [done|apply pending_ne].
Qed.

Lemma mkdir_taken d far output :
  (perform d (Run ["mkdir"; lockPath y]) far).2 = inr output →
  present far (lockPath y) = false ∧ present (perform d (Run ["mkdir"; lockPath y]) far).1 (lockPath y) = true.
Proof.
  pose proof (mkdir_creates (lockPath y) far) as Hm. destruct d; cbn [perform snd]; [|done|done].
  destruct (execute _ far) as [far' [code out]]. cbn in *. destruct (Z.eqb_spec code 0); [|done]. intros _. by apply Hm.
Qed.

Lemma mkdir_held d far : present far (lockPath y) = true → present (perform d (Run ["mkdir"; lockPath y]) far).1 (lockPath y) = true.
Proof.
  intros Hp. destruct (mkdir_exists (lockPath y) far Hp) as [_ Hx]. destruct d; cbn [perform fst]; [|done|done].
  by destruct (execute _ far) as [far' [code out]].
Qed.
End guarantee.

(** ** Every interleaving *)

Context (guarantees : nat → option string → option string → Prop).

Definition all_idle (running : list (prog ())) : Prop := ∀ i p, running !! i = Some p → idle (guarantees i) p.
Definition one_holds (far : Far) (running : list (prog ())) : Prop :=
  ∃ i p (K : view → Prop), running !! i = Some p ∧ present far (lockPath y) = true ∧ K (viewOf far) ∧ holding (guarantees i) K p ∧
    ∀ j q, running !! j = Some q → j ≠ i → idle (guarantees j) q.

Definition inv (s : System) : Prop :=
  unlinked y (sys_far s) ∧
  (all_idle (sys_running s) ∨ one_holds (sys_far s) (sys_running s)) ∧
  Forall (λ w, guarantees (swap_by w) (swap_from w) (swap_to w)) (sys_swaps s).

Lemma view_noted i far far' swaps : viewOf far' = viewOf far → noted (rootPath y) i far far' swaps = swaps.
Proof. intros [= Hr _]. unfold noted. by rewrite bool_decide_eq_true_2. Qed.

Lemma insert_idle running i p' :
  (∀ j q, running !! j = Some q → j ≠ i → idle (guarantees j) q) → idle (guarantees i) p' → all_idle (<[i := p']> running).
Proof.
  intros Hrest Hp j q E. destruct (decide (j = i)) as [->|Hne].
  - apply list_lookup_insert_Some in E as [(_ & <- & _)|(? & _)]; done.
  - rewrite list_lookup_insert_ne in E by done. by eapply Hrest.
Qed.

(** An idle operation runs a command: nothing protected changes, and it holds the lock
    afterwards only if nobody did before. *)
Lemma idle_step i c k d far :
  idle (guarantees i) (Do c k) → unlinked y far →
  orderly y c ∧ viewOf (perform d c far).1 = viewOf far ∧
  (present far (lockPath y) = true → present (perform d c far).1 (lockPath y) = true ∧ idle (guarantees i) (k (perform d c far).2)) ∧
  (idle (guarantees i) (k (perform d c far).2) ∨
   present (perform d c far).1 (lockPath y) = true ∧ holding (guarantees i) (λ _, True) (k (perform d c far).2)).
Proof.
  inversion 1 as [| |c' k' Hs Hk|k' Hin Hout]; subst; intros Hu.
  - split; [apply Hs|]. split; [by apply spares_view|]. split; [|by left]. intros Hp. split; [|done]. destruct Hs as (_ & _ & Ht & Ho).
    by destruct (perform_frame d c far _ Ho Hu (straight_lock far Hu) Ht) as (_ & -> & _).
  - split; [apply orderly_lock|]. split; [by apply lock_view; [apply orderly_lock|..]|]. destruct (perform d _ far).2 as [e|output] eqn:Er.
    + split; [|by left]. intros Hp. split; [by apply mkdir_held|done].
    + destruct (mkdir_taken d far output Er) as [Hf Ht]. split; [by rewrite Hf|by right].
Qed.

Lemma holder_step far running swaps h c k d K :
  unlinked y far → present far (lockPath y) = true → K (viewOf far) → possible d → running !! h = Some (Do c k) → holding (guarantees h) K (Do c k) →
  (∀ j q, running !! j = Some q → j ≠ h → idle (guarantees j) q) →
  Forall (λ w, guarantees (swap_by w) (swap_from w) (swap_to w)) swaps →
  inv (mkSystem (perform d c far).1 (<[h := k (perform d c far).2]> running) (noted (rootPath y) h far (perform d c far).1 swaps)).
Proof.
  intros Hu Hlock HK Hd Eh Hhold Hrest Hswaps. unfold inv. cbn [sys_far sys_running sys_swaps].
  inversion Hhold as [K0 c0 k0 Hc Ho Hk|K0 k0 Hk]; subst.
  - destruct (Hk far d Hu HK Hd) as (Hchange & K' & HK' & Hh). split; [by apply perform_unlinked|]. split.
    + right. exists h, (k (perform d c far).2), K'. split; [apply list_lookup_insert_eq; by eapply lookup_lt_Some|].
      destruct (perform_frame d c far _ Ho Hu (straight_lock far Hu) Hc) as (_ & -> & _). split_and!; try done.
      intros j q Ej Hj. rewrite list_lookup_insert_ne in Ej by done. by apply Hrest.
    + unfold noted. case_bool_decide as Hsame; [done|]. apply Forall_app. split; [done|]. constructor; [|constructor]. by destruct Hchange.
  - split; [by apply perform_unlinked; [apply orderly_lock|]|].
    assert (Hv : viewOf (perform d (Run ["rmdir"; lockPath y]) far).1 = viewOf far) by by apply lock_view; [apply orderly_lock|..].
    rewrite view_noted by done. split; [|done]. left. by apply insert_idle.
Qed.

Lemma inv_step s s' : step (rootPath y) honestly s s' → inv s → inv s'.
Proof.
  intros Hstep (Hu & Hruns & Hswaps). destruct Hstep as [far running swaps i c k d E Hd]. cbn [sys_far sys_running sys_swaps] in *.
  destruct Hruns as [Hall|(h & p & K & Eh & Hlock & HK & Hhold & Hrest)].
  - destruct (idle_step i c k d far (Hall _ _ E) Hu) as (Ho & Hv & _ & Hnext). unfold inv. cbn [sys_far sys_running sys_swaps].
    rewrite view_noted by done. split; [by apply perform_unlinked|]. split; [|done].
    assert (Hothers : ∀ j q, running !! j = Some q → j ≠ i → idle (guarantees j) q) by (intros j q Ej _; by apply Hall).
    destruct Hnext as [Hidle|[Hp Hh]]; [left; by apply insert_idle|right].
    exists i, (k (perform d c far).2), (λ _, True). split; [apply list_lookup_insert_eq; by eapply lookup_lt_Some|].
    split_and!; try done. intros j q Ej Hne. rewrite list_lookup_insert_ne in Ej by done. by apply Hothers.
  - destruct (decide (i = h)) as [->|Hne]; [rewrite Eh in E; injection E as ->; by eapply holder_step|].
    destruct (idle_step i c k d far (Hrest _ _ E Hne) Hu) as (Ho & Hv & Hkeep & _). destruct (Hkeep Hlock) as [Hlock' Hidle]. unfold inv.
    cbn [sys_far sys_running sys_swaps]. rewrite view_noted by done. split; [by apply perform_unlinked|]. split; [|done]. right. exists h, p, K.
    rewrite list_lookup_insert_ne by done. split_and!; try done; [by rewrite Hv|].
    intros j q Ej Hj. destruct (decide (j = i)) as [->|Hji]; [|rewrite list_lookup_insert_ne in Ej by done; by apply Hrest].
    apply list_lookup_insert_Some in Ej as [(_ & <- & _)|(? & _)]; done.
Qed.

(** ** The programs of the adapter *)

Context (repository : RsyncRepository) (Hroot : remoteRoot repository = Return (rootPath y)).

Section commit.
Context (staged : S3Staged) (expected : ExpectedRevision).

(** A commit switches from the revision it expects to the one it stages.  Where it expects
    none, a host it cannot reach must not look like one that serves none. *)
Definition compareAndSwap (from to : option string) : Prop :=
  ValidSHA256 (sp_TreeSHA256 staged) = true ∧ to = Some (releasePath y (sp_TreeSHA256 staged)) ∧
  (honestly = true ∨ exp_TreeSHA256 expected ≠ "" → servedBy from = exp_TreeSHA256 expected).

Definition finishing {A} (body : prog A) : prog () := _ ← deferring (rsyncUnlock (lockPath y)) body; Return ().

Lemma finishing_return {A} K (a : A) : holding compareAndSwap K (finishing (Return a)).
Proof. apply holding_unlock. intros r. apply idle_return. Qed.
Lemma finishing_failing {A} K e : holding compareAndSwap K (finishing (Failing e : prog A)).
Proof. apply holding_unlock. intros r. apply idle_failing. Qed.

Lemma finishing_command {A} (K : view → Prop) c (k : RunError + string → prog A) :
  touches c (lockPath y) = false → orderly y c →
  (∀ far d, unlinked y far → K (viewOf far) → possible d →
     (linkAt far (rootPath y) = linkAt (perform d c far).1 (rootPath y) ∨
      compareAndSwap (linkAt far (rootPath y)) (linkAt (perform d c far).1 (rootPath y))) ∧
     ∃ K' : view → Prop, K' (viewOf (perform d c far).1) ∧ holding compareAndSwap K' (finishing (k (perform d c far).2))) →
  holding compareAndSwap K (finishing (Do c k)).
Proof. apply (holding_do compareAndSwap K c (λ r, finishing (k r))). Qed.

(** A command that changes nothing protected. *)
Lemma finishing_reading {A} (K : view → Prop) c (k : RunError + string → prog A) :
  spares y c → (∀ far d, K (viewOf far) → possible d → ∃ K' : view → Prop, K' (viewOf far) ∧ holding compareAndSwap K' (finishing (k (perform d c far).2))) →
  holding compareAndSwap K (finishing (Do c k)).
Proof.
  intros Hs Hk. apply finishing_command; [apply Hs..|]. intros far d Hu HK Hd. pose proof (spares_view d c far Hs Hu) as Hv. rewrite Hv.
  injection Hv as Er _ _. split; [by left|]. by apply Hk.
Qed.

(** Knowing which tree is served. *)
Definition knows (tree : string) (v : view) : Prop := honestly = true ∨ tree ≠ "" → servedBy v.1 = tree.

Lemma readlink_knows far d :
  possible d →
  match (perform d (Run ["readlink"; rootPath y]) far).2 with
  | inr target => servedBy (linkAt far (rootPath y)) = treeFromTarget (TrimSpace target)
  | inl e => exited e = true → knows "" (viewOf far)
  end.
Proof.
  intros Hd. pose proof (readlink_prints (rootPath y) far) as Hs. pose proof (readlink_fails (rootPath y) far) as Hn.
  destruct d as [|e|e]; cbn [perform snd]; unfold possible in Hd; cbn [honest] in Hd.
  - destruct (execute _ far) as [far' [code out]]. cbn [snd fst] in *. unfold runnerResult. destruct (linkAt far (rootPath y)) as [t|] eqn:El.
    + specialize (Hs t eq_refl) as [= -> ->]. done.
    + rewrite (proj2 (Z.eqb_neq code 0)) by by apply Hn. intros _ _. unfold viewOf. cbn [fst]. by rewrite El.
  - intros He [Hh|?]; [|done]. specialize (Hd Hh). by rewrite He in Hd.
  - intros He [Hh|?]; [|done]. specialize (Hd Hh). by rewrite He in Hd.
Qed.

(** Ready to rename: the pending link is the release, over the expected revision; or there
    is nothing that could replace a link. *)
Definition ready (v : view) : Prop :=
  v.2.1 = None ∧ v.2.2 = false ∨ knows (exp_TreeSHA256 expected) v ∧ v.2.1 = Some (releasePath y (sp_TreeSHA256 staged)).

Lemma siblings_apart a b : plain_component a → plain_component b → a ≠ b → above (abs (lay_base y ++ [a])) (abs (lay_base y ++ [b])) = false.
Proof.
  intros Ha Hb Hne. rewrite above_abs by by apply sibling_wf. apply bool_decide_eq_false_2.
  intros Hp%prefix_app_inv. by apply prefix_cons_inv_1 in Hp.
Qed.

Lemma pending_apart : above (pendingPath y) (rootPath y) = false ∧ above (pendingPath y) (lockPath y) = false ∧ above (rootPath y) (lockPath y) = false.
Proof.
  destruct (pending_abs y Hy) as [-> Hp]. unfold rootPath. destruct Hy as [_ Hn]. split_and!.
  - apply siblings_apart; [done..|]. intros E%(f_equal String.length). rewrite str_length_app in E. cbn in E. lia.
  - by apply apart; [..|apply pending_ne|apply lock_managed].
  - by apply apart; [..|apply lock_managed].
Qed.

Lemma pending_dir : PathDir (pendingPath y) = PathDir (rootPath y) ∧ pendingPath y ≠ rootPath y.
Proof.
  destruct (pending_abs y Hy) as [-> Hp]. unfold rootPath. destruct Hy as [Hb Hn]. rewrite !PathDir_abs by done. split; [done|].
  intros E%abs_inj; [|by apply sibling_wf..]. apply app_inv_head in E. injection E as E. apply (f_equal String.length) in E.
  rewrite str_length_app in E. cbn in E. lia.
Qed.

Lemma rename_outcome flag d far :
  unlinked y far → flag ∈ ["-T"; "-h"] → ready (viewOf far) → ValidSHA256 (sp_TreeSHA256 staged) = true →
  let after := (perform d (Run ["mv"; flag; pendingPath y; rootPath y]) far).1 in
  (linkAt far (rootPath y) = linkAt after (rootPath y) ∨ compareAndSwap (linkAt far (rootPath y)) (linkAt after (rootPath y))) ∧ ready (viewOf after).
Proof.
  intros Hu Hf Hready Ht. set (c := Run _). destruct pending_dir as [Hdir Hne].
  assert (Hsp := straight_pending far Hu). assert (Hsr := straight_root far Hu).
  assert (Hrun : (linkAt far (rootPath y) = linkAt (execute c far).1 (rootPath y) ∨
      compareAndSwap (linkAt far (rootPath y)) (linkAt (execute c far).1 (rootPath y))) ∧ ready (viewOf (execute c far).1)).
  { destruct (decide ((execute c far).2.1 = 0)) as [E|E].
    - destruct (rename_moves flag _ _ far Hf Hsp Hsr Hdir Hne E) as (Hr & Hp & Habs). fold c in Hr, Hp, Habs.
      unfold ready, viewOf, solid in *. cbn [fst snd] in *. rewrite Hp, Habs. split; [|by left].
      destruct Hr as [Hr|(_ & Hb & Hr)]; [|left; by rewrite Hr, Hb]. rewrite Hr.
      destruct Hready as [[En Es]|[Hk Ek]]; [left|right; by rewrite Ek]. rewrite En.
      destruct (linkAt far (rootPath y)) as [t|] eqn:Eb; [|done]. by destruct (rename_refuses flag _ (rootPath y) far Hf Hsp Hsr Hdir Es); [rewrite Eb|].
    - destruct (rename_fails flag _ _ far Hf Hsp Hsr Hdir E) as (Hr & Hp & Hs). fold c in Hr, Hp, Hs. unfold viewOf in *. rewrite Hr, Hp, Hs. split; [by left|done]. }
  destruct d; cbn [perform fst]; [|by split; [left|]|done]. by destruct (execute c far) as [far' [code out]].
Qed.

(** The commands of the switch. *)
Lemma orderly_switch release flag :
  orderly y (Run ["ln"; "-sfn"; release; pendingPath y]) ∧ orderly y (Run ["mv"; flag; pendingPath y; rootPath y]).
Proof.
  destruct (pending_abs y Hy) as [-> Hp]. unfold rootPath. destruct Hy as [_ Hn]. split.
  - apply (orderly_beside y Hy _ [lay_name y +:+ ".snailmail-pending"]); [done..| |].
    + apply Forall_singleton. split; [done|apply pending_ne].
    + intros q Hq. eexists. split; [by left|done].
  - apply (orderly_beside y Hy _ [lay_name y +:+ ".snailmail-pending"; lay_name y]); [done..| |].
    + apply Forall_cons. split; [by split; [|apply pending_ne]|]. by apply Forall_singleton.
    + intros q [Hq|Hq]%orb_true_iff; eexists; (split; [|exact Hq]); [by left|right; by left].
Qed.

Lemma renameRoot_holds {A} flags (k : () → prog A) :
  Forall (λ flag, flag ∈ ["-T"; "-h"]) flags → ValidSHA256 (sp_TreeSHA256 staged) = true →
  (∀ K, holding compareAndSwap K (finishing (k ()))) →
  holding compareAndSwap ready (finishing (renameRoot (pendingPath y) (rootPath y) flags ≫= k)).
Proof.
  intros Hf Ht Hk. induction Hf as [|flag flags Hflag _ IH]; [apply finishing_failing|].
  cbn [renameRoot]. apply finishing_command.
  - cbn [touches actionOf]. destruct pending_apart as (_ & -> & ->). done.
  - exact (proj2 (orderly_switch "" flag)).
  - intros far d Hu Hready _. destruct (rename_outcome flag d far Hu Hflag Hready Ht) as [Hc Hr]. split; [done|].
    destruct (perform d _ far).2 as [e|out]; [|by eexists; split; [exact Hr|apply Hk]]. exists ready. split; [done|].
    destruct (exited e); [exact IH|apply finishing_failing].
Qed.

Lemma swapRoot_holds {A} (k : () → prog A) :
  ValidSHA256 (sp_TreeSHA256 staged) = true → (∀ K, holding compareAndSwap K (finishing (k ()))) →
  holding compareAndSwap (knows (exp_TreeSHA256 expected)) (finishing (swapRoot (rootPath y) (releasePath y (sp_TreeSHA256 staged)) ≫= k)).
Proof.
  intros Ht Hk. set (release := releasePath y (sp_TreeSHA256 staged)).
  unfold swapRoot. cbn zeta. fold (pendingPath y). apply finishing_command.
  - cbn [touches actionOf]. apply pending_apart.
  - exact (proj1 (orderly_switch release "")).
  - intros far d Hu HK _. set (c := Run _). assert (Hc : touches c (rootPath y) = false) by apply pending_apart.
    pose proof (proj1 (orderly_switch release "") : orderly y c) as Ho.
    destruct (perform_frame d c far _ Ho Hu (straight_root far Hu) Hc) as (Er & _ & _). rewrite Er.
    split; [by left|]. destruct (perform d c far).2 as [e|out] eqn:Eout.
    { exists (λ _, True). split; [done|]. apply finishing_failing. }
    exists ready. split; [|apply renameRoot_holds; [|done|done]; by repeat constructor; set_solver].
    destruct d as [| |]; [|done|done]. cbn [perform] in *. pose proof (ln_makes release (pendingPath y) far) as Hln. fold c in Hln.
    destruct (execute c far) as [far' [code o]]. cbn [fst snd] in *. unfold runnerResult in Eout.
    destruct (Z.eqb_spec code 0) as [E0|]; [|done]. unfold ready, viewOf. cbn [fst snd]. destruct (Hln E0) as [->|[-> ->]]; [right|by left].
    split; [|done]. unfold knows in *. cbn [fst]. by rewrite Er.
Qed.

Lemma reading_spares c : operands c = [] → followed c = [] → (∀ q, touches c q = false) → spares y c.
Proof. intros Ho Hf Hc. unfold spares. rewrite !Hc. split_and!; [done..|]. by apply orderly_reading. Qed.

Lemma commitUnderLock_holds K :
  ValidSHA256 (sp_TreeSHA256 staged) = true →
  holding compareAndSwap K (finishing (commitUnderLock repository staged expected (rootPath y) (releasePath y (sp_TreeSHA256 staged)))).
Proof.
  intros Ht. unfold commitUnderLock, ObserveRsync. rewrite Hroot.
  apply (finishing_reading K (Run ["readlink"; rootPath y])); [by apply reading_spares|]. intros far d _ Hd.
  pose proof (readlink_knows far d Hd) as Hr.
  assert (Hdecide : ∀ v, knows (rev_TreeSHA256 v) (viewOf far) → ∃ K' : view → Prop, K' (viewOf far) ∧ holding compareAndSwap K' (finishing
    (if bool_decide (rev_TreeSHA256 v = sp_TreeSHA256 staged) then Return (rsyncResult repository staged)
     else if negb (bool_decide (rev_TreeSHA256 v = exp_TreeSHA256 expected)) then Failing rsyncStale
     else _ ← (if bool_decide (rev_TreeSHA256 v = "") then requireAbsentOrSymlink (rootPath y) else Return ());
          _ ← swapRoot (rootPath y) (releasePath y (sp_TreeSHA256 staged)); Return (rsyncResult repository staged)))).
  { intros v Hv. exists (knows (rev_TreeSHA256 v)). split; [done|]. case_bool_decide; [apply finishing_return|].
    case_bool_decide as He; [|apply finishing_failing]. cbn [negb]. rewrite He.
    assert (Hswap : holding compareAndSwap (knows (exp_TreeSHA256 expected)) (finishing
      (_ ← swapRoot (rootPath y) (releasePath y (sp_TreeSHA256 staged)); Return (rsyncResult repository staged)))).
    { apply swapRoot_holds; [done|]. intros K'. apply finishing_return. }
    case_bool_decide; [|exact Hswap].
    apply (finishing_reading _ (Run ["test"; "-e"; rootPath y])); [by apply reading_spares|]. intros far' d' HK _.
    exists (knows (exp_TreeSHA256 expected)). split; [done|]. destruct (perform d' _ far').2 as [e|out]; [|apply finishing_failing].
    cbn. destruct (exited e); [exact Hswap|apply finishing_failing]. }
  destruct (perform d _ far).2 as [e|target]; cbn.
  - destruct (exited e) eqn:Ee; [|by exists (λ _, True); split; [|apply finishing_failing]].
    apply (Hdecide noRevision). by apply Hr.
  - assert (Hk : ∀ tree, tree = treeFromTarget (TrimSpace target) → knows tree (viewOf far)) by (intros tree -> _; done).
    case_bool_decide as Eb; [apply (Hdecide noRevision), Hk; by rewrite Eb|]. apply (Hdecide (mkRevision _ _ _ _ _ _ _ _ _)), Hk. done.
Qed.

(** Everything before the lock leaves the paths alone. *)
Lemma idle_require (G : option string → option string → Prop) {A} c e (f : string → prog A) (h : A → prog ()) :
  spares y c → (∀ output, idle G (f output ≫= h)) → idle G ((require c e ≫= f) ≫= h).
Proof.
  intros Hs Hf. unfold require. apply idle_do; [done|]. intros [?|output]; [apply idle_failing|apply Hf].
Qed.

Lemma spares_parent : spares y (Run ["mkdir"; "-p"; managedPath y []]).
Proof.
  destruct (pending_abs y Hy) as [Ep Hp]. unfold spares. cbn [touches actionOf]. rewrite Ep. unfold rootPath. destruct Hy as [_ Hn].
  assert (managed []) as Hm by constructor. split_and!.
  - by apply apart.
  - by apply apart; [..|apply pending_ne|].
  - rewrite (proj2 (above_lock y Hy [] Hm)). apply bool_decide_eq_false_2. by intros ?%prefix_nil_inv.
  - apply (orderly_directory y Hy []); [done|cbn; lia].
Qed.

Lemma plain_dir x : mem_byte "/" x = false → x ≠ "" → x ≠ "." → x ≠ ".." → plain_component x.
Proof. by unfold plain_component. Qed.

(** The directories of a publication. *)
Lemma commit_paths tree :
  ValidSHA256 tree = true →
  PathJoin [PathDir (rootPath y); stagingDirectory; tree] = managedPath y ["staging"; tree] ∧
  PathJoin [PathDir (rootPath y); releasesDirectory] = managedPath y ["releases"] ∧
  PathJoin [PathDir (rootPath y); releasesDirectory; tree] = releasePath y tree ∧
  PathJoin [PathDir (rootPath y); lockDirectory] = lockPath y ∧ PathDir (lockPath y) = managedPath y [].
Proof.
  intros Ht%digest_plain. pose proof Hy as [Hb Hn]. pose proof (plain_component_single _ Ht) as Hp. unfold rootPath. rewrite PathDir_abs by done.
  assert (Hs : Split "/" tree = [tree]) by (apply Split_single; apply Ht).
  split_and!.
  - rewrite (managed_path y stagingDirectory "staging" [tree]) by (done || by repeat constructor). cbn. by rewrite Hs.
  - by rewrite (managed_path y releasesDirectory "releases" []) by (done || by repeat constructor).
  - rewrite (managed_path y releasesDirectory "releases" [tree]) by (done || by repeat constructor). cbn. by rewrite Hs.
  - by rewrite (managed_path y lockDirectory "lock" []) by (done || by repeat constructor).
  - unfold lockPath, managedPath. replace (lay_base y ++ [".snailmail"; "lock"]) with ((lay_base y ++ [".snailmail"]) ++ ["lock"]) by by rewrite <- app_assoc.
    apply PathDir_abs; [|by repeat constructor]. apply Forall_app. split; [done|]. by repeat constructor.
Qed.

Lemma managed_two x tree : plain_component x → ValidSHA256 tree = true → managed [x; tree].
Proof. intros Hx Ht%digest_plain. by repeat constructor; try apply Hx; try apply Ht. Qed.

Lemma commit_idle : idle compareAndSwap (program repository (Committing staged expected)).
Proof.
  cbn [program]. unfold CommitRsync. rewrite Hroot. cbn [mbind prog_bind].
  destruct (ValidSHA256 (sp_TreeSHA256 staged)) eqn:Ht; [|apply idle_failing]. cbn [negb].
  destruct (commit_paths _ Ht) as (-> & -> & -> & Elock & Edir).
  assert (Hst : managed ["staging"; sp_TreeSHA256 staged]) by by apply managed_two.
  assert (Hre : managed ["releases"; sp_TreeSHA256 staged]) by by apply managed_two.
  assert (Hr1 : managed ["releases"]) by by repeat constructor.
  destruct (spares_managed y Hy Hname "staging" [sp_TreeSHA256 staged] Hst) as (S1 & _ & S23); [done|cbn; lia|]. destruct (S23 eq_refl) as [S2 S3].
  destruct (spares_managed y Hy Hname "releases" [sp_TreeSHA256 staged] Hre) as (_ & S4 & _); [done|cbn; lia|].
  destruct (spares_managed y Hy Hname "releases" [] Hr1) as (S5 & _); [done|cbn; lia|].
  apply idle_require; [done|]. intros _. apply idle_require; [by apply S2|]. intros _. apply idle_require; [done|]. intros _.
  apply idle_require; [done|]. intros _. apply idle_require; [by apply S3|]. intros _.
  unfold rsyncLock. rewrite Elock, Edir. unfold require. apply idle_do; [apply spares_parent|]. intros [?|_]; [apply idle_failing|].
  apply idle_lock; [|intros e; apply idle_failing]. intros output. by apply commitUnderLock_holds.
Qed.
End commit.

(** ** The other operations *)

Section others.
Context (G : option string → option string → Prop).

Lemma idle_command {A} c (f : RunError + string → prog A) (h : A → prog ()) :
  spares y c → (∀ r, idle G (f r ≫= h)) → idle G ((command c ≫= f) ≫= h).
Proof. intros Hs Hf. apply idle_do; [done|]. intros r. apply Hf. Qed.

Lemma observe_idle {A} (f : PublishedRevision → prog A) (h : A → prog ()) :
  (∀ v, idle G (f v ≫= h)) → idle G ((ObserveRsync repository ≫= f) ≫= h).
Proof.
  intros Hf. unfold ObserveRsync. rewrite Hroot. apply idle_do; [by apply reading_spares|].
  intros [e|target]; cbn; [destruct (exited e); [apply Hf|apply idle_failing]|]. case_bool_decide; apply Hf.
Qed.

Lemma collect_idle keep dryRun present result (h : CollectResult → prog ()) :
  Forall (λ tree, ValidSHA256 tree = true) present → (∀ result, idle G (h result)) →
  idle G (collectReleases keep dryRun (managedPath y ["releases"]) present result ≫= h).
Proof.
  intros Hp Hh. revert result. induction Hp as [|tree present Ht _ IH]; intros result; [apply Hh|].
  cbn [collectReleases]. case_bool_decide; [apply IH|]. unfold releaseBytes. apply idle_do; [by apply reading_spares|]. intros r.
  cbn [mbind prog_bind]. destruct dryRun; [apply IH|].
  assert (PathJoin [managedPath y ["releases"]; tree] = managedPath y ["releases"; tree]) as ->.
  { unfold managedPath. rewrite PathJoin_abs; [|done|by apply managed_wf, releases_managed|].
    - f_equal. cbn. rewrite (Split_single tree) by apply (digest_plain _ Ht). by rewrite <- app_assoc.
    - constructor; [|done]. by apply plain_component_single, digest_plain. }
  apply idle_require; [|intros _; apply IH].
  apply (spares_managed y Hy Hname "releases" [tree]); [by apply managed_two|done|cbn; lia].
Qed.

Lemma other_idle op : (∀ staged expected, op ≠ Committing staged expected) → idle G (program repository op).
Proof.
  destruct op as [|staged expected|staged|retention]; intros Hop; cbn [program].
  - unfold ObserveRsync. rewrite Hroot. apply idle_do; [by apply reading_spares|].
    intros [e|target]; cbn; [destruct (exited e); constructor|]. case_bool_decide; constructor.
  - by destruct (Hop staged expected).
  - unfold AbortRsync. rewrite Hroot. cbn [mbind prog_bind]. destruct (ValidSHA256 _) eqn:Ht; [|constructor]. cbn [negb].
    destruct (commit_paths _ Ht) as (-> & _). apply idle_do; [|intros [?|?]; constructor].
    apply (spares_managed y Hy Hname "staging" [sp_TreeSHA256 staged]); [by apply managed_two|done|cbn; lia].
  - unfold CollectRsync. rewrite Hroot. cbn [mbind prog_bind]. destruct (negb _); [constructor|]. apply observe_idle. intros v.
    case_bool_decide; [constructor|].
    assert (PathJoin [PathDir (rootPath y); releasesDirectory] = managedPath y ["releases"]) as ->.
    { apply (commit_paths (String.concat "" (replicate 64 "0"))). by vm_compute. }
    unfold releaseTrees. apply idle_do; [by apply reading_spares|]. intros [e|output]; cbn.
    + destruct (exited e); [|constructor]. constructor.
    + apply collect_idle; [|constructor]. apply Forall_forall. intros tree Hin. apply list_elem_of_In, filter_In in Hin. apply Hin.
Qed.
End others.
End locking.

(** C7: Publishing over ssh is a compare-and-swap.  Any number of publications, aborts,
    collections and observations run at the same time, crash at any point, and have
    commands lost or unanswered.  The published path only ever changes through a commit,
    to the release of the tree it staged, whose tree an observation then reports; and the
    path served the tree that commit expected when it was switched.  Where a commit expects
    no revision at all, this takes transport failures that are not reported as exit
    statuses.  The published path is [lay_base]/[lay_name] and not called ".snailmail",
    and at the start neither a directory above it nor one of those the adapter works in is
    a symbolic link. *)
Theorem switch_is_compare_and_swap `{RemoteLaws} repository y honestly far ops s w :
  wf_layout y → remoteRoot repository = Return (rootPath y) → lay_name y ≠ ".snailmail" → unlinked y far →
  rtc (step (rootPath y) honestly) (started repository far ops) s → w ∈ sys_swaps s →
  ∃ staged expected, ops !! swap_by w = Some (Committing staged expected) ∧
    swap_to w = Some (PathJoin [PathDir (rootPath y); releasesDirectory; sp_TreeSHA256 staged]) ∧
    servedBy (swap_to w) = sp_TreeSHA256 staged ∧
    (honestly = true ∨ exp_TreeSHA256 expected ≠ "" → servedBy (swap_from w) = exp_TreeSHA256 expected).
Proof.
  intros Hy Hroot Hn Hu Hrun.
  set (guarantees := λ i, match ops !! i with
    | Some (Committing staged expected) => compareAndSwap y honestly staged expected
    | _ => λ _ _, False
    end).
  assert (Hinv : inv y honestly guarantees s).
  { remember (started repository far ops) as s0 eqn:E0. assert (Hs0 : inv y honestly guarantees s0).
    - subst s0. split; [done|]. split; [left|constructor]. intros i p Hp. cbn in Hp. apply list_lookup_fmap_Some in Hp as (op & -> & Hop).
      unfold guarantees. rewrite Hop. destruct op; try (by apply other_idle). by apply commit_idle.
    - clear E0 Hu. induction Hrun as [|? ? ? Hstep _ IH]; [done|]. apply IH. by eapply inv_step. }
  intros Hw. destruct Hinv as (_ & _ & Hall). rewrite Forall_forall in Hall. specialize (Hall w Hw). unfold guarantees in Hall.
  destruct (ops !! swap_by w) as [[|staged expected| |]|]; [done| |done..]. destruct Hall as (Ht & Hto & Hfrom). exists staged, expected. rewrite Hto. destruct (commit_paths y Hy _ Ht) as (_ & _ & -> & _). split_and!; try done. by apply release_served.
Qed.

(** ** One operation at a time *)

Section alone.
Context `{RemoteLaws}.

(** The run of an operation, with how each of its commands is delivered. *)
Fixpoint run {A} (deliveries : nat → Delivery) (n : nat) (p : prog A) (far : Far) : Far * (Failure + A) :=
  match p with
  | Return a => (far, inr a)
  | Failing e => (far, inl e)
  | Do c k => run deliveries (S n) (k (perform (deliveries n) c far).2) (perform (deliveries n) c far).1
  end.

Context (repository : RsyncRepository) (y : layout) (Hy : wf_layout y) (Hname : lay_name y ≠ ".snailmail").
Context (Hroot : remoteRoot repository = Return (rootPath y)).

(** *** Collecting *)

(** A program none of whose commands may change an entry at or above [abs l]. *)
Fixpoint leaves {A} (l : list string) (p : prog A) : Prop :=
  match p with
  | Do c k => orderly y c ∧ (∀ j, j `prefix_of` l → touches c (abs j) = false) ∧ ∀ r, leaves l (k r)
  | _ => True
  end.

Lemma leaves_bind {A B} l (m : prog A) (f : A → prog B) : leaves l m → (∀ a, leaves l (f a)) → leaves l (m ≫= f).
Proof.
  intros Hm Hf. induction m as [a|e|c k IH]; cbn in *; [apply Hf|done|]. destruct Hm as (Ho & Ht & Hm). split_and!; [done..|].
  intros r. by apply IH.
Qed.

(** The entry is where it was, and as it was. *)
Definition intact (l : list string) (far far' : Far) : Prop :=
  linkAt far' (abs l) = linkAt far (abs l) ∧ present far' (abs l) = present far (abs l) ∧ isDir far' (abs l) = isDir far (abs l).
Definition straightly (far : Far) (l : list string) : Prop :=
  Forall plain_component l ∧ ∀ j, j `prefix_of` l → j ≠ l → linkAt far (abs j) = None.
Lemma straightly_prefix far l j : straightly far l → j `prefix_of` l → straight far (abs j).
Proof.
  intros [Hp Hl] Hj. exists j. split_and!; [|done|]. 
  - destruct Hj as [t ->]. by apply Forall_app in Hp as [? _].
  - intros i Hi Hne. apply Hl; [by etrans|]. intros ->. apply Hne. destruct Hi as [a ->], Hj as [b E]. rewrite <- app_assoc in E.
    rewrite <- (app_nil_r l) in E at 1. apply app_inv_head in E. symmetry in E. apply app_eq_nil in E as [-> _]. by rewrite app_nil_r.
Qed.

Lemma perform_leaves d c far l : orderly y c → unlinked y far → straightly far l → (∀ j, j `prefix_of` l → touches c (abs j) = false) →
  straightly (perform d c far).1 l ∧ intact l far (perform d c far).1.
Proof.
  intros Ho Hu Hs Ht. split; [split; [apply Hs|]|].
  - intros j Hj Hne. rewrite (proj1 (perform_frame y d c far _ Ho Hu (straightly_prefix far l j Hs Hj) (Ht j Hj))). by apply Hs.
  - apply (perform_frame y d c far _ Ho Hu); [by eapply straightly_prefix|by apply Ht].
Qed.

Lemma leaves_run {A} l (p : prog A) deliveries n far :
  leaves l p → unlinked y far → straightly far l → intact l far (run deliveries n p far).1.
Proof.
  revert n far. induction p as [a|e|c k IH]; intros n far; cbn [run leaves]; [done|done|]. intros (Ho & Hc & Hk) Hu Hs.
  destruct (perform_leaves (deliveries n) c far l Ho Hu Hs Hc) as [Hs' (E1 & E2 & E3)].
  destruct (IH (perform (deliveries n) c far).2 (S n) (perform (deliveries n) c far).1 (Hk _)) as (F1 & F2 & F3); [by apply perform_unlinked|done|].
  unfold intact. by rewrite F1, F2, F3.
Qed.

Lemma collectReleases_keeps l tree keep dryRun trees result :
  ValidSHA256 tree = true → tree ∈ keep → lay_base y ++ [".snailmail"; "releases"; tree] `prefix_of` l → Forall plain_component l →
  Forall (λ t, ValidSHA256 t = true) trees →
  leaves l (collectReleases keep dryRun (managedPath y ["releases"]) trees result).
Proof.
  intros Ht Hin Hl Hp Hv. revert result. induction Hv as [|t trees Hvt _ IH]; intros result; [done|]. cbn [collectReleases].
  case_bool_decide as Hk; [apply IH|]. apply leaves_bind; [split; [by apply orderly_reading|done]|]. intros size. destruct dryRun; [apply IH|].
  apply leaves_bind; [|intros _; apply IH]. apply leaves_bind; [|by intros [?|?]].
  assert (PathJoin [managedPath y ["releases"]; t] = releasePath y t) as ->.
  { unfold releasePath, managedPath. rewrite PathJoin_abs; [|done|by apply managed_wf, releases_managed|by constructor; [apply plain_component_single, digest_plain|]].
    f_equal. cbn. rewrite (Split_single t) by apply (digest_plain _ Hvt). by rewrite <- app_assoc. }
  split; [apply (orderly_directory y Hy ["releases"; t]); [by apply managed_two|cbn; lia]|]. split; [|done]. intros j Hj. cbn [touches actionOf].
  unfold releasePath, managedPath. rewrite above_abs; [|by apply managed_wf, managed_two|destruct Hj as [u ->]; by apply Forall_app in Hp as [? _]].
  apply bool_decide_eq_false_2. intros Ha. apply Hk. assert (Hb : lay_base y ++ [".snailmail"; "releases"; t] `prefix_of` l) by by etrans.
  destruct Hb as [u Eu], Hl as [v Ev]. rewrite Eu, <- !app_assoc in Ev. apply app_inv_head in Ev. by injection Ev as <- _.
Qed.

Lemma collect_keeps l tree retention deliveries far :
  ValidSHA256 tree = true → tree ∈ KeepTrees retention ∨ servedBy (linkAt far (rootPath y)) = tree →
  lay_base y ++ [".snailmail"; "releases"; tree] `prefix_of` l → unlinked y far → straightly far l →
  intact l far (run deliveries 0 (CollectRsync repository retention) far).1.
Proof.
  intros Ht Hlive Hl Hu Hs. unfold CollectRsync. rewrite Hroot. cbn [mbind prog_bind]. destruct (forallb _ _) eqn:Hvalid; [|done]. cbn [negb].
  unfold ObserveRsync. rewrite Hroot. cbn [mbind prog_bind command run]. set (c := Run ["readlink"; rootPath y]).
  assert (Ho : orderly y c) by by apply orderly_reading.
  destruct (perform_leaves (deliveries 0%nat) c far l Ho Hu Hs (λ _ _, eq_refl)) as [Hs1 (E1 & E2 & E3)].
  pose proof (perform_unlinked y (deliveries 0%nat) c far Ho Hu) as Hu1.
  pose proof (readlink_prints (rootPath y) far) as Hprint. fold c in Hprint. pose proof (readlink_fails (rootPath y) far) as Hfail. fold c in Hfail.
  assert (Hreleases : PathJoin [PathDir (rootPath y); releasesDirectory] = managedPath y ["releases"]) by by apply (commit_paths y Hy _ Ht).
  assert (Hread : match (perform (deliveries 0%nat) c far).2 with inr target => servedBy (linkAt far (rootPath y)) = treeFromTarget (TrimSpace target) | inl _ => True end).
  { destruct (deliveries 0%nat); cbn [perform]; [|done|done]. destruct (execute c far) as [f1 [code out]]. cbn [snd fst] in *. unfold runnerResult.
    destruct (Z.eqb_spec code 0) as [E0|]; [|done]. destruct (linkAt far (rootPath y)) as [t|]; [by specialize (Hprint t eq_refl) as [= -> ->]|].
    by destruct (Hfail eq_refl). }
  destruct (perform (deliveries 0%nat) c far) as [far1 r]. cbn [fst snd] in *. unfold intact. rewrite <- E1, <- E2, <- E3. fold (intact l far1).
  destruct r as [e|target]; [by destruct (exited e)|]. cbn zeta.
  destruct (bool_decide (treeFromTarget (TrimSpace target) = "")) eqn:Eb; [done|]. cbn [mbind prog_bind rev_TreeSHA256]. rewrite ?Eb, Hreleases. apply leaves_run; [|done..].
  split; [by apply orderly_reading|]. split; [done|]. intros [e|output]; cbn; [by destruct (exited e)|]. apply (collectReleases_keeps l tree); [done| |done|apply Hs|].
  - destruct Hlive as [Hk|Hk]; [|rewrite <- Hk, Hread]; set_solver.
  - apply Forall_forall. intros t Hin. apply list_elem_of_In, filter_In in Hin. apply Hin.
Qed.
End alone.

(** C26: A collection on an rsync host never touches a release that is served or kept:
    however its commands are delivered and wherever it stops, every entry [l] at or below
    the release directory of the tree being served when it starts, and of every tree the
    retention names, is as it was: a link with its target, a directory, or another file.
    The published path is not called ".snailmail", and neither a directory the adapter
    works in nor one above the entry is a symbolic link. *)
Theorem rsync_collection_keeps_live `{RemoteLaws} repository y deliveries retention tree l far :
  wf_layout y → remoteRoot repository = Return (rootPath y) → lay_name y ≠ ".snailmail" → unlinked y far → straightly far l →
  ValidSHA256 tree = true → tree ∈ KeepTrees retention ∨ servedBy (linkAt far (rootPath y)) = tree →
  lay_base y ++ [".snailmail"; "releases"; tree] `prefix_of` l →
  intact l far (run deliveries 0 (CollectRsync repository retention) far).1.
Proof. intros Hy Hroot Hn Hu Hs Ht Hk Hl. by eapply collect_keeps. Qed.
