(* ===== verification/RsyncExamples.v ===== *)
(** A far side that has the documented behaviour, two publishers on it, and what the
    adapter does when ssh cannot reach the host or a release is sent again. *)

From S2P Require Import Prelude GoStrings GoSlices Model Formats Source JsonStrict PlanJson Manifest ManifestProofs Host S3Store S3Keys S3 S3KeyProofs Rsync RsyncPaths RsyncProofs.

Open Scope Z_scope.

Module RsyncExample.

(** ** Entries by path *)

(** A tree of files stands for the directory it was copied from. *)
Inductive Entry := Tree (directory : string) | LinkTo (target : string).

Definition link (disk : gmap string Entry) (p : string) : option string := match disk !! p with Some (LinkTo target) => Some target | _ => None end.
Definition exists_ (disk : gmap string Entry) (p : string) : bool := bool_decide (is_Some (disk !! p)).
Definition directory_ (disk : gmap string Entry) (p : string) : bool := match disk !! p with Some (Tree _) => true | _ => false end.
Definition reaches (disk : gmap string Entry) (p : string) : bool :=
  match disk !! p with Some (LinkTo target) => exists_ disk target | Some (Tree _) => true | None => false end.
Definition fails (disk : gmap string Entry) : gmap string Entry * (Z * string) := (disk, (1, "")).
Definition done_ (disk : gmap string Entry) : gmap string Entry * (Z * string) := (disk, (0, "")).

(** The last component of every entry directly in [p]. *)
Definition names (disk : gmap string Entry) (p : string) : list string :=
  omap (λ key, if bool_decide (PathDir key = p) then Some (PathSplit key).2 else None) (map_to_list disk).*1.

Definition executes (c : Command) (disk : gmap string Entry) : gmap string Entry * (Z * string) :=
  match actionOf c with
  | MakeParents p => if exists_ disk p then done_ disk else done_ (<[p := Tree ""]> disk)
  | MakeDirectory p => if exists_ disk p then fails disk else done_ (<[p := Tree ""]> disk)
  | RemoveDirectory p => match disk !! p with Some (Tree _) => done_ (delete p disk) | _ => fails disk end
  | RemoveAll p => done_ (filter (λ entry, above p entry.1 = false) disk)
  | Copy directory p => done_ (<[p := Tree directory]> disk)
  | Move a b => match disk !! a with Some entry => done_ (<[b := entry]> (delete a disk)) | None => fails disk end
  | Rename flag a b =>
      (* The userland is GNU's: it has no option -h. *)
      if negb (bool_decide (flag = "-T")) || bool_decide (a = b) then fails disk
      else match disk !! a, disk !! b with
           | Some (LinkTo target), None | Some (LinkTo target), Some (LinkTo _) => done_ (<[b := LinkTo target]> (delete a disk))
           | Some (Tree directory), None => done_ (<[b := Tree directory]> (delete a disk))
           | _, _ => fails disk
           end
  | Link target p => match disk !! p with Some (Tree _) => done_ disk | _ => done_ (<[p := LinkTo target]> disk) end
  | ReadLink p => match link disk p with Some target => (disk, (0, target +:+ String "010" "")) | None => fails disk end
  | Exists p => if reaches disk p then done_ disk else fails disk
  | List p => (disk, (0, Join (names disk p) (String "010" "")))
  | Usage p => (disk, (0, "4"))
  | Unknown => fails disk
  end.

#[local] Instance remote : Remote := {| Far := gmap string Entry; execute := executes; linkAt := link; present := exists_; isDir := directory_ |}.

Lemma above_refl p : above p p = true.
Proof. unfold above. by apply bool_decide_eq_true_2. Qed.

Lemma apart_ne p q : above p q = false → q ≠ p.
Proof. intros Ha ->. by rewrite above_refl in Ha. Qed.
Lemma apart_ne' p q : above q p = false → q ≠ p.
Proof. intros Ha ->. by rewrite above_refl in Ha. Qed.
Lemma lookup_move (disk : gmap string Entry) a b entry q : q ≠ a → q ≠ b → <[b := entry]> (delete a disk) !! q = disk !! q.
Proof. intros Ha Hb. by rewrite lookup_insert_ne, lookup_delete_ne. Qed.

Lemma executes_frame c disk q : touches c q = false → (executes c disk).1 !! q = disk !! q.
Proof.
  unfold touches, executes. destruct (actionOf c) as [p|p|p|p|a b|flag a b|target p|directory p|p|p|p|p|]; intros Hq; try done.
  - destruct (exists_ disk p); [done|]. by apply lookup_insert_ne, not_eq_sym, apart_ne'.
  - apply bool_decide_eq_false in Hq. destruct (exists_ disk p); [done|]. by apply lookup_insert_ne.
  - apply bool_decide_eq_false in Hq. destruct (disk !! p) as [[]|]; [|done..]. by apply lookup_delete_ne.
  - cbn [fst done_]. destruct (disk !! q) as [entry|] eqn:E; [by apply map_lookup_filter_Some|]. apply map_lookup_filter_None. by left.
  - apply orb_false_iff in Hq as [?%apart_ne ?%apart_ne]. destruct (disk !! a); [|done]. by apply lookup_move.
  - apply orb_false_iff in Hq as [?%apart_ne ?%apart_ne]. destruct (_ || _); [done|].
    destruct (disk !! a) as [[]|], (disk !! b) as [[]|]; try done; by apply lookup_move.
  - apply apart_ne in Hq. destruct (disk !! p) as [[]|]; [done|..]; by apply lookup_insert_ne.
  - by apply lookup_insert_ne, not_eq_sym, apart_ne.
  - by destruct (link disk p).
  - by destruct (reaches disk p).
Qed.

Lemma link_tree (disk : gmap string Entry) p d q : disk !! p = None → link (<[p := Tree d]> disk) q = link disk q.
Proof. intros E. unfold link. destruct (decide (q = p)) as [->|Hne]; [by rewrite lookup_insert_eq, E|by rewrite lookup_insert_ne]. Qed.
Lemma exists_false (disk : gmap string Entry) p : exists_ disk p = false → disk !! p = None.
Proof. intros E%bool_decide_eq_false. by apply eq_None_not_Some. Qed.

#[local] Instance remote_laws : RemoteLaws.
Proof.
  split; cbn [Far execute linkAt present isDir remote].
  - intros c disk q _ _ Ht. unfold link, exists_, directory_. by rewrite executes_frame.
  - intros p disk target E. unfold executes. cbn [actionOf]. by rewrite E.
  - intros p disk E. unfold executes. cbn [actionOf]. rewrite E. cbn. lia.
  - intros p disk. unfold executes. cbn [actionOf]. destruct (exists_ disk p) eqn:E; [cbn; done|]. intros _. split; [done|].
    unfold exists_. cbn. rewrite lookup_insert_eq. by apply bool_decide_eq_true_2.
  - intros p disk E. unfold executes. cbn [actionOf]. by rewrite E.
  - intros p disk q _. unfold executes. cbn [actionOf]. destruct (exists_ disk p) eqn:E; [done|]. by apply link_tree, exists_false.
  - intros p disk q _. unfold executes. cbn [actionOf]. destruct (exists_ disk p) eqn:E; [done|]. by apply link_tree, exists_false.
  - intros p disk q _. unfold executes, link. cbn [actionOf]. destruct (disk !! p) as [[d|t]|] eqn:E; [|done..]. cbn.
    destruct (decide (q = p)) as [->|Hne]; [by rewrite lookup_delete_eq, E|by rewrite lookup_delete_ne].
  - intros p disk q _ E. unfold executes, link in *. cbn [actionOf fst done_]. 
    destruct (filter _ disk !! q) as [entry|] eqn:Ef; [|done]. apply map_lookup_filter_Some in Ef as [Ef _]. by rewrite Ef in E.
  - intros directory p disk _ _. unfold executes, link. cbn. by rewrite lookup_insert_eq.
  - intros a b disk _ _ Ha Hb. unfold executes, link in *. cbn [actionOf]. destruct (disk !! a) as [[d|t]|] eqn:Ea; [| |by cbn; rewrite Ea]; [|done]. cbn.
    rewrite lookup_insert_eq. split; [|done]. destruct (decide (b = a)) as [->|]; [by rewrite lookup_insert_eq|by rewrite lookup_insert_ne, lookup_delete_eq].
  - intros target p disk. unfold executes, solid, link. cbn. destruct (disk !! p) as [[d|t]|] eqn:E; cbn.
    + intros _. right. unfold exists_, directory_. rewrite E. split; [done|]. by rewrite andb_false_r.
    + intros _. left. by rewrite lookup_insert_eq.
    + intros _. left. by rewrite lookup_insert_eq.
  - intros flag a b disk _ _ _ _ Hab. unfold executes, link, exists_. cbn [actionOf]. destruct (_ || _); [done|].
    destruct (disk !! a) as [[d|t]|] eqn:Ea, (disk !! b) as [[d'|t']|] eqn:Eb; cbn; try done; intros _;
      rewrite lookup_insert_eq, lookup_insert_ne, lookup_delete_eq by done; (split; [by left|done]).
  - intros flag a b disk _ _ _ _. unfold executes, solid, link. cbn. unfold exists_, directory_. destruct (_ || _); [done|].
    destruct (disk !! a) as [[d|t]|] eqn:Ea, (disk !! b) as [[d'|t']|] eqn:Eb; cbn; try done; by intros _ [].
  - intros flag a b disk _ _ _ _. unfold executes. cbn [actionOf]. destruct (_ || _); [done|].
    destruct (disk !! a) as [[d|t]|] eqn:Ea, (disk !! b) as [[d'|t']|] eqn:Eb; cbn; done.
Qed.

(** ** Runs *)

Definition digest (c : ascii) : string := foldr String "" (replicate 64 c).
Definition repository : RsyncRepository := mkRsyncRepository "/srv/repo/" "https://packages.example".
Definition root : string := "/srv/repo".
Definition y : layout := mkLayout ["srv"] "repo".
Definition release (c : ascii) : string := "/srv/.snailmail/releases/" +:+ digest c.
Definition staged (c : ascii) : S3Staged := mkS3Staged ("/tmp/" +:+ String c "") (digest "1") "repo:0123456789ab" (digest c) [] [].
Definition expecting (tree : string) : ExpectedRevision := mkExpected tree tree "" "" "" "" "" "" "".
Definition committing (c : ascii) (tree : string) : Operation := Committing (staged c) (expecting tree).

Lemma y_wf : wf_layout y.
Proof. split; [by repeat constructor|done]. Qed.

(** The published path is the only link. *)
Definition onlyRoot (disk : gmap string Entry) : bool :=
  forallb (λ e, match e.2 with LinkTo _ => bool_decide (e.1 = root) | Tree _ => true end) (map_to_list disk).
Lemma onlyRoot_link disk l : onlyRoot disk = true → Forall plain_component l → l ≠ ["srv"; "repo"] → link disk (abs l) = None.
Proof.
  unfold onlyRoot. rewrite forallb_forall. intros Hall Hl Hne. unfold link. destruct (disk !! abs l) as [[d|t]|] eqn:E; [done| |done].
  apply elem_of_map_to_list, list_elem_of_In in E. specialize (Hall _ E). cbn in Hall. apply bool_decide_eq_true in Hall.
  change root with (abs ["srv"; "repo"]) in Hall. apply abs_inj in Hall; [done..|]. by repeat constructor.
Qed.
Lemma onlyRoot_unlinked disk : onlyRoot disk = true → unlinked y disk.
Proof.
  intros Hd. split.
  - intros k Hk. apply onlyRoot_link; [done| |].
    + destruct Hk as [t Et]. assert (Hp : Forall plain_component (k ++ t)) by (rewrite <- Et; apply y_wf). by apply Forall_app in Hp as [? _].
    + intros ->. by apply prefix_length in Hk; cbn in Hk; lia.
  - intros l Hl _. apply onlyRoot_link; [done|by apply (managed_wf y y_wf)|done].
Qed.
Lemma onlyRoot_straightly disk l : onlyRoot disk = true → managed l → straightly disk (lay_base y ++ ".snailmail" :: l).
Proof.
  intros Hd Hl. assert (Hp : Forall plain_component (lay_base y ++ ".snailmail" :: l)) by by apply (managed_wf y y_wf). split; [done|].
  intros j [t Et] _. rewrite Et in Hp. apply Forall_app in Hp as [Hp _]. apply onlyRoot_link; [done..|]. intros ->. by cbn in Et.
Qed.

(** A schedule in which every command is delivered. *)
Fixpoint after (schedule : list nat) (s : System) : System :=
  match schedule with
  | [] => s
  | i :: schedule =>
      match sys_running s !! i with
      | Some (Do c k) =>
          after schedule (mkSystem (perform Delivered c (sys_far s)).1 (<[i := k (perform Delivered c (sys_far s)).2]> (sys_running s))
                            (noted root i (sys_far s) (perform Delivered c (sys_far s)).1 (sys_swaps s)))
      | _ => after schedule s
      end
  end.

Lemma after_reached schedule s : rtc (step root true) s (after schedule s).
Proof.
  revert s. induction schedule as [|i schedule IH]; intros [far running swaps]; [done|]. cbn [after sys_running].
  destruct (running !! i) as [[| |c k]|] eqn:E; try apply IH. eapply rtc_l; [|apply IH]. by apply (step_command root true far running swaps i c k Delivered).
Qed.

(** Whether an operation has returned. *)
Definition returned (s : System) (i : nat) : option bool :=
  match sys_running s !! i with Some (Return _) => Some true | Some (Failing _) => Some false | _ => None end.

(** Two first publications in step: one of them is served, the other one refused. *)
Definition race : System :=
  after (mjoin (replicate 12 [0; 1])%nat) (started repository ∅ [committing "a" ""; committing "b" ""]).

Example race_has_one_winner :
  sys_swaps race = [mkSwap 0 None (Some (release "a"))] ∧ servedBy (linkAt (sys_far race) root) = digest "a" ∧
  returned race 0 = Some true ∧ returned race 1 = Some false.
Proof. by vm_compute. Qed.

Lemma switch_is_compare_and_swap_witness :
  ∃ staged expected, [committing "a" ""; committing "b" ""] !! 0%nat = Some (Committing staged expected) ∧ sp_TreeSHA256 staged = digest "a" ∧
    exp_TreeSHA256 expected = "".
Proof.
  assert (Hw : mkSwap 0 None (Some (release "a")) ∈ sys_swaps race) by (rewrite (proj1 race_has_one_winner); by left).
  destruct (switch_is_compare_and_swap repository y true ∅ [committing "a" ""; committing "b" ""] race (mkSwap 0 None (Some (release "a"))))
    as (staged & expected & E & _ & Hs & He).
  - exact y_wf.
  - by vm_compute.
  - by vm_compute.
  - by apply onlyRoot_unlinked.
  - apply after_reached.
  - exact Hw.
  - exists staged, expected. split; [exact E|]. split; [rewrite <- Hs; by vm_compute|]. rewrite <- He; [by vm_compute|by left].
Defined.

(** ** One operation *)

Definition delivered (n : nat) : Delivery := Delivered.
Definition commits (c : ascii) (disk : gmap string Entry) : gmap string Entry * (Failure + CommitResult) :=
  run delivered 0 (CommitRsync repository (staged c) (expecting (servedBy (link disk root)))) disk.
Definition published (c : ascii) (disk : gmap string Entry) : gmap string Entry := (commits c disk).1.

(** Collecting after three publications, keeping the second: the first is removed. *)
Definition three : gmap string Entry := published "c" (published "b" (published "a" ∅)).
Definition collected : gmap string Entry * (Failure + CollectResult) :=
  run delivered 0 (CollectRsync repository (mkRetention [digest "b"] false)) three.

Definition keptIn (c : ascii) : list string := lay_base y ++ [".snailmail"; "releases"; digest c].
Lemma three_onlyRoot : onlyRoot three = true.
Proof. by vm_compute. Qed.
Lemma kept_straightly c : ValidSHA256 (digest c) = true → straightly three (keptIn c).
Proof. intros Hc. apply onlyRoot_straightly; [exact three_onlyRoot|by apply managed_two]. Qed.

Lemma rsync_collection_keeps_live_witness :
  intact (keptIn "b") three collected.1 ∧ intact (keptIn "c") three collected.1 ∧
  abs (keptIn "b") = release "b" ∧ exists_ three (release "b") = true ∧ exists_ three (release "c") = true ∧
  exists_ three (release "a") = true ∧ exists_ collected.1 (release "a") = false ∧ collected.2 = inr (mkCollectResult 1 4096 2 false).
Proof.
  split; [|split; [|by vm_compute]].
  - refine (rsync_collection_keeps_live (H:=remote) repository y delivered (mkRetention [digest "b"] false) (digest "b") (keptIn "b") three
      y_wf _ _ (onlyRoot_unlinked _ three_onlyRoot) (kept_straightly _ _) _ _ _); [by vm_compute..|left; by left|done].
  - refine (rsync_collection_keeps_live (H:=remote) repository y delivered (mkRetention [digest "b"] false) (digest "c") (keptIn "c") three
      y_wf _ _ (onlyRoot_unlinked _ three_onlyRoot) (kept_straightly _ _) _ _ _); [by vm_compute..|right; by vm_compute|done].
Defined.

(** ** Where it falls short *)

(** ssh ends with status 255 when it cannot reach the host, which the adapter reads as a
    command that failed there: a host that serves a revision is observed to serve none. *)
Theorem unreachable_host_observed_empty :
  servedBy (link (published "a" ∅) root) = digest "a" ∧
  (run (λ _, Undelivered (CommandFailed 255)) 0 (ObserveRsync repository) (published "a" ∅)).2 = inr noRevision.
Proof. by vm_compute. Qed.

(** Likewise a publication that expects an empty host replaces whatever it serves, when
    the two commands that look at the host are the ones ssh fails to deliver. *)
Theorem unreachable_host_overwritten :
  let deliveries n := if (7 <=? n)%nat && (n <=? 8)%nat then Undelivered (CommandFailed 255) else Delivered in
  let '(disk, result) := run deliveries 0 (CommitRsync repository (staged "b") (expecting "")) (published "a" ∅) in
  servedBy (link disk root) = digest "b" ∧ result = inr (rsyncResult repository (staged "b")).
Proof. by vm_compute. Qed.

(** A release that is being served is removed before it is sent again: a repeated commit
    that is cut short leaves the published path pointing nowhere. *)
Theorem repeated_commit_unpublishes :
  let deliveries n := if (n <=? 3)%nat then Delivered else Undelivered TransportFailed in
  let '(disk, result) := run deliveries 0 (CommitRsync repository (staged "a") (expecting (digest "a"))) (published "a" ∅) in
  reaches (published "a" ∅) root = true ∧ reaches disk root = false ∧ result = inl rsyncInfrastructure.
Proof. by vm_compute. Qed.

(** A collection takes no lock: one that starts after a publication has renamed its
    release and ends before it switches to it removes what is then published.  Both
    succeed. *)
Theorem collection_races_publication :
  let s := after (replicate 9 0 ++ replicate 4 1 ++ replicate 2 0)%nat
             (started repository (published "a" ∅) [committing "b" (digest "a"); Collecting (mkRetention [] false)]) in
  servedBy (link (sys_far s) root) = digest "b" ∧ reaches (sys_far s) root = false ∧ returned s 0 = Some true ∧ returned s 1 = Some true.
Proof. by vm_compute. Qed.
End RsyncExample.
