(* ===== verification/Rollback.v ===== *)
(** Undoing a publication that succeeded: [engine/rollback.go].

    The engine asks a host for its capabilities, for what it serves and to restore;
    [HostPort] is that part of the interface of [host/host.go], in whatever monad the
    host computes.  The S3 and rsync hosts are two of them. *)

From S2P Require Import Prelude GoStrings GoSlices GoRegexp Model Formats Source JsonStrict PlanJson Manifest ManifestProofs Host.
From S2P Require Import S3Store S3Keys S3 S3KeyProofs S3Proofs S3Examples Rsync.

Open Scope Z_scope.

(** ** The port *)

Record HostPort (M : Type → Type) := mkPort {
  port_Capabilities : M Capabilities;
  port_Observe : M PublishedRevision;
  port_Restore : RestoreRef → ExpectedRevision → M PublishedRevision;
}.
Arguments port_Capabilities {M}.
Arguments port_Observe {M}.
Arguments port_Restore {M}.

Section ports.
Context `{NetLib, TimeLib, HashLib, !S3Lib} (o : Outside) (broker : option string) (repository : S3Repository).

Definition hasBroker : bool := match broker with Some _ => true | None => false end.

(** [Capabilities] of the S3 adapter, with the identity of its credential broker. *)
Definition CapabilitiesS3 : S3 Capabilities :=
  _ ← checkRepository hasBroker repository;
  _ ← rootPathOf repository;
  mret (mkCapabilities true true true hasBroker (default "" broker)).

Definition s3Port : HostPort S3 := mkPort S3 CapabilitiesS3 (Observe o hasBroker repository) (Restore o hasBroker repository).
End ports.

Definition rsyncPort (repository : RsyncRepository) : HostPort prog :=
  mkPort prog (rsyncCapabilities repository) (ObserveRsync repository) (λ _ _, RestoreRsync).

(** ** The command *)

Record RollbackRequest := mkRollbackRequest { rb_Repository : string; rb_DryRun : bool }.
Record RollbackResult := mkRollbackResult { rb_Name : string; From : string; To : string; rb_Dry : bool; Note : string }.

(** [expectedFromObserved] and the reference the live revision carries. *)
Definition expectedFromObserved (revision : PublishedRevision) : ExpectedRevision :=
  mkExpected (rev_NativeRevision revision) (rev_TreeSHA256 revision) (rev_PlanID revision) (rev_ChangeID revision)
    (rev_ReleaseSHA256 revision) (rev_ManifestSHA256 revision) (rev_RestoreID revision) (rev_RestoreSHA256 revision)
    (rev_RestoreRootSHA256 revision).
Definition carriedReference (observed : PublishedRevision) : RestoreRef :=
  mkRestoreRef (rev_RestoreID observed) (rev_PlanID observed) (rev_ChangeID observed) (rev_TreeSHA256 observed)
    (rev_RestoreSHA256 observed) (rev_RestoreRootSHA256 observed).

Section command.
Context {M : Type → Type} `{MRet M, MBind M}.

(** What is done with a host: an error of the host ends it in [M], a refusal of the
    engine is an [Err]. *)
Definition rollbackOn (request : RollbackRequest) (selected : HostPort M) : M (result RollbackResult) :=
  capabilities ← port_Capabilities selected;
  if negb (ConditionalRestore capabilities) then mret (Err "host cannot verify the revision a rollback would restore")
  else
    observed ← port_Observe selected;
    if bool_decide (rev_TreeSHA256 observed = "") then mret (Err "repository has no published revision to roll back")
    else if bool_decide (rev_RestoreID observed = "") then mret (Err "the live revision replaced nothing")
    else if rb_DryRun request then
      mret (Ok (mkRollbackResult (rb_Repository request) (rev_TreeSHA256 observed) "" true "dry run: nothing was restored"))
    else
      restored ← port_Restore selected (carriedReference observed) (expectedFromObserved observed);
      mret (Ok (mkRollbackResult (rb_Repository request) (rev_TreeSHA256 observed) (rev_TreeSHA256 restored) (rb_DryRun request)
                  "the lock still describes the revision that was rolled back from")).

(** The manifest as it loads, under the workspace lock, and the host of a repository. *)
Definition RollbackRepository (request : RollbackRequest) (manifest : result Manifest) (resolve : Repository → result (HostPort M))
    : M (result RollbackResult) :=
  if bool_decide (rb_Repository request = "") then mret (Err "rollback requires the repository to roll back")
  else match manifest with
       | Err e => mret (Err e)
       | Ok manifest =>
           match man_Repositories manifest !! rb_Repository request with
           | None => mret (Err "repository is not configured")
           | Some repository => match resolve repository with Err e => mret (Err e) | Ok selected => rollbackOn request selected end
           end
       end.
End command.

(** ** Rolling back a bucket *)

Section s3.
Context `{NetLib, TimeLib, HashLib, !S3Lib} (o : Outside) (broker : option string) (repository : S3Repository) (rootPath : string).
Context (access : nat → outcome ()).

Lemma capabilities_pure w : ∃ r, CapabilitiesS3 broker repository w = (w, r) ∧ match r with Done c => ConditionalRestore c = true | Raise e => effectMayHaveOccurred e = false end.
Proof.
  unfold CapabilitiesS3, checkRepository, rootPathOf, refuse_when, mbind, S3_bind.
  destruct (negb _); [by eexists|]. cbn. destruct (singleRootPath repository); by eexists.
Qed.

Lemma observe_writes w : world_writes (Observe o (hasBroker broker) repository w).1 = world_writes w.
Proof. destruct (wrote_Observe o (hasBroker broker) access repository (λ _, False) w) as (ext & E & Hext). destruct Hext; [|done]. by rewrite E, app_nil_r. Qed.

(** The one write that rolls back, for a run that observed [v]. *)
Definition rollsBack (v : PublishedRevision) (x : Write) : Prop :=
  restoresRoot repository rootPath (carriedReference v) (expectedFromObserved v) x.

(** At most one of the [allowed] writes, among writes of the lease. *)
Definition leases (x : Write) : Prop := write_key x = commitLockKey repository.
Definition rolled (w w' : World) (allowed : Write → Prop) (settled : list Write → Prop) : Prop :=
  ∃ pre switch post, world_writes w' = world_writes w ++ pre ++ switch ++ post ∧ Forall leases pre ∧ Forall leases post ∧
    (switch = [] ∨ ∃ x, switch = [x] ∧ allowed x) ∧ settled switch.

Lemma leased l : Forall (besideRoot repository rootPath) l → Forall (rootOrLease repository rootPath) l → Forall leases l.
Proof. rewrite !Forall_forall. intros Hb Hl x Hx. destruct (Hl x Hx) as [E|E]; [|done]. by destruct (Hb x Hx). Qed.
Lemma unrolled w w' allowed settled : world_writes w' = world_writes w → settled [] → rolled w w' allowed settled.
Proof. intros E Hs. exists [], [], []. rewrite !app_nil_r. split_and!; try done; [constructor..|by left]. Qed.

End s3.

(** A host that cannot restore is never asked to: on an rsync host a rollback runs no
    command at all. *)
Lemma rollback_not_offered_by_rsync request repository :
  match rollbackOn request (rsyncPort repository) with Do _ _ => False | Return (Ok _) => False | _ => True end.
Proof.
  unfold rollbackOn. cbn [port_Capabilities rsyncPort]. unfold rsyncCapabilities, remoteRoot.
  case_bool_decide; [done|]. destruct (negb _); [done|]. cbn zeta. by case_bool_decide.
Qed.

Module RollbackExample.
Import S3Example.
#[local] Existing Instances hash_lib net_lib time_lib s3_lib.

Definition request : RollbackRequest := mkRollbackRequest "charts" false.
Definition rollback (n : string) : S3 (result RollbackResult) := rollbackOn request (s3Port (outside n) None repository).

Definition reported (r : outcome (result RollbackResult)) : option (string * string) :=
  match r with Done (Ok result) => Some (From result, To result) | _ => None end.

Lemma live_tagged v : (Observe (outside "two") (hasBroker None) repository afterSecond.1).2 = Done v → rev_TreeSHA256 v ≠ "" → rev_NativeRevision v ≠ "".
Proof.
  assert ((Observe (outside "two") (hasBroker None) repository afterSecond.1).2 = Done second) as Hs by (by vm_compute). intros Hv _.
  assert (v = second) as -> by congruence. by vm_compute.
Qed.


(** A first publication replaced nothing, and a rollback of it is meant to be refused; on
    S3 it carries a restore reference like any other, and rolling it back removes the root:
    the repository is no longer published. *)
Theorem first_publication_rolled_back :
  rev_RestoreRootSHA256 first = "" ∧ bool_decide (rev_RestoreID first = "") = false ∧
  reported (rollback "one" afterFirst.1).2 = Some (TreeDigest (tree "one"), "") ∧
  observed (rollback "one" afterFirst.1).1 = Done noRevision.
Proof. by vm_compute. Qed.
End RollbackExample.
