(* ===== verification/FileSystem.v ===== *)
(** The file system the local host publishes through: what the calls of Go's [os] and
    [path/filepath] used by [internal/app/materialize.go] do to it.

    A file system is a finite map from the components of a path to an entry; an entry
    exists for a reader only where the directories above it do.  Before each call
    others may have changed it ([between]); a call may fail for a reason of the system's
    ([denied]), which is never that an entry is missing.  Every state it
    goes through is recorded ([past]), so that a statement can be about the moment a
    process dies.  Beside the entries a [Disk] has what has reached the medium: the
    entries of the directories synced and the contents of the files synced, which is
    all that need survive a loss of power ([survivors]).

    Directories above the publication are reached without symbolic links: a call names
    an entry by the lexically cleaned path, and only [Open] and [EvalSymlinks] follow a
    link in its last component. *)

From S2P Require Import Prelude GoStrings GoSlices Model Formats.

Open Scope Z_scope.

(** ** Entries *)

Inductive Entry := Directory | Regular (content : string) | Symlink (target : string) | Special.
#[export] Instance Entry_eq_dec : EqDecision Entry.
Proof. solve_decision. Defined.

Notation "'FS'" := (@gmap (list string) (@list_eq_dec string String.eq_dec) (@list_countable string String.eq_dec String.countable) Entry).

(** The components of a path that is absolute and clean. *)
Definition components (p : string) : list string := filter (λ c, c ≠ "") (Split "/" p).

(** [q] is [p] or below it. *)
Definition under (p q : list string) : bool := bool_decide (p `prefix_of` q).
Definition parentOf (p : list string) : list string := take (pred (length p)) p.
Definition isDirectory (fs : FS) (p : list string) : bool := bool_decide (p = []) || bool_decide (fs !! p = Some Directory).

(** ** Disks *)

Record Disk := mkDisk {
  files : FS;
  (** The entries of the directories synced, and the contents of the files synced. *)
  linked : FS; flushed : gmap (list string) string;
}.

Definition survivors (d : Disk) : FS :=
  map_imap (λ p e, Some match e with Regular _ => Regular (default "" (flushed d !! p)) | e => e end) (linked d).

(** ** The machine *)

Inductive Errno := NotExist | Exist | OtherError.
#[export] Instance Errno_eq_dec : EqDecision Errno.
Proof. solve_decision. Defined.

(** What others do, by the number of calls made so far. *)
Record Machine := mkMachine {
  between : nat → FS → FS;
  denied : nat → bool;
  (** How much of a content a write that fails has written, and which of the entries a
      removal that fails has left. *)
  written : nat → nat;
  spared : nat → list string → bool;
  (** The random part of a temporary name. *)
  suffix : nat → string;
  (** Whether another process holds the lock of an output. *)
  lockedByOther : nat → bool;
  (** Whether the platform can exchange two entries. *)
  canExchange : bool;
  workingDirectory : string;
  (** What the structure check of a format makes of a tree. *)
  structure : nat → bool;
}.

Record World := mkWorld { disk : Disk; calls : nat; past : list Disk }.

Definition IO (A : Type) : Type := World → World * (Errno + A).

#[export] Instance IO_ret : MRet IO := λ A a w, (w, inr a).
#[export] Instance IO_bind : MBind IO := λ A B f m w,
  match m w with
  | (w, inr a) => f a w
  | (w, inl e) => (w, inl e)
  end.

Definition throw {A : Type} (e : Errno) : IO A := λ w, (w, inl e).
Definition throw_when (refused : bool) (e : Errno) : IO () := if refused then throw e else mret ().
(** The outcome of [m] as a value, for code that looks at the error. *)
Definition tried {A : Type} (m : IO A) : IO (Errno + A) := λ w, let '(w, r) := m w in (w, inr r).
(** [_ = m()]. *)
Definition ignoring {A : Type} (m : IO A) : IO () := λ w, ((m w).1, inr ()).

Fixpoint forEach {A : Type} (f : A → IO ()) (l : list A) : IO () :=
  match l with
  | [] => mret ()
  | x :: l => _ ← f x; forEach f l
  end.

Section calls.
Context (m : Machine).

Definition reached (d : Disk) (w : World) : World := mkWorld d (calls w) (past w ++ [d]).
(** The state a call finds. *)
Definition arrive (w : World) : World :=
  let d := disk w in
  reached (mkDisk (between m (calls w) (files d)) (linked d) (flushed d)) (mkWorld d (S (calls w)) (past w)).

(** A call: it fails and leaves [onFailure], or does what [f] says. *)
Definition callOr {A : Type} (onFailure : nat → Disk → Disk) (f : nat → Disk → Errno + Disk * A) : IO A := λ w,
  let w' := arrive w in
  if denied m (calls w) then (reached (onFailure (calls w) (disk w')) w', inl OtherError)
  else match f (calls w) (disk w') with
       | inl e => (w', inl e)
       | inr (d, a) => (reached d w', inr a)
       end.
Definition callDisk {A : Type} (f : nat → Disk → Errno + Disk * A) : IO A := callOr (λ _ d, d) f.
(** A call that changes the entries, and one that only reads. *)
Definition with_files (fs : FS) (d : Disk) : Disk := mkDisk fs (linked d) (flushed d).
Definition call {A : Type} (f : nat → FS → Errno + FS * A) : IO A :=
  callDisk (λ n d, match f n (files d) with inl e => inl e | inr (fs, a) => inr (with_files fs d, a) end).
Definition look {A : Type} (f : nat → FS → Errno + A) : IO A :=
  callDisk (λ n d, match f n (files d) with inl e => inl e | inr a => inr (d, a) end).

(** ** Calls that read *)

Definition Lstat (p : string) : IO Entry :=
  look (λ _ fs, match fs !! components p with Some e => inr e | None => inl NotExist end).

Definition Readlink (p : string) : IO string :=
  look (λ _ fs, match fs !! components p with
                | Some (Symlink target) => inr target
                | Some _ => inl OtherError
                | None => inl NotExist
                end).

(** [filepath.IsAbs]. *)
Definition IsAbs (p : string) : bool := HasPrefix p "/".

(** Links in the last component, up to the limit of the system. *)
Fixpoint follow (fuel : nat) (fs : FS) (p : string) : Errno + string :=
  match fuel with
  | O => inl OtherError
  | S fuel =>
      match fs !! components p with
      | None => inl NotExist
      | Some (Symlink target) => follow fuel fs (if IsAbs target then Clean target else PathJoin [PathDir p; target])
      | Some _ => inr p
      end
  end.
Definition maximumLinks : nat := 255.

(** What a reader of [output] finds at a path below it. *)
Definition served (fs : FS) (output : string) (l : list string) : option string :=
  match follow maximumLinks fs output with
  | inr d => match fs !! (components d ++ l) with Some (Regular content) => Some content | _ => None end
  | inl _ => None
  end.

Definition EvalSymlinks (p : string) : IO string := look (λ _ fs, follow maximumLinks fs p).

(** [os.Open] and [io.ReadAll], in one call. *)
Definition ReadFile (p : string) : IO string :=
  look (λ _ fs, match follow maximumLinks fs p with
                | inl e => inl e
                | inr p => match fs !! components p with
                           | Some (Regular content) => inr content
                           | Some _ => inl OtherError
                           | None => inl NotExist
                           end
                end).

(** [filepath.WalkDir]: the entries below a directory by their path from it, as they are
    at one moment. *)
Definition below (fs : FS) (p : list string) : list (list string * Entry) :=
  omap (λ '(q, e), if under p q && negb (bool_decide (q = p)) then Some (drop (length p) q, e) else None) (map_to_list fs).
Definition WalkDir (p : string) : IO (list (list string * Entry)) :=
  look (λ _ fs, if isDirectory fs (components p) then inr (below fs (components p)) else inl NotExist).

(** [ctx.Err()]. *)
Definition contextErr : IO () := look (λ _ _, inr ()).

(** ** Calls that write *)

Definition cleared (p : list string) (fs : FS) : FS := filter (λ x, under p x.1 = false) fs.

(** A new directory is empty. *)
Definition mkdirAt (p : list string) (fs : FS) : FS := <[p := Directory]> (cleared p fs).
Definition creatable (fs : FS) (p : list string) : option Errno :=
  if bool_decide (is_Some (fs !! p)) || bool_decide (p = []) then Some Exist
  else if isDirectory fs (parentOf p) then None else Some NotExist.
Definition creating (p : list string) (f : FS → FS) (fs : FS) : Errno + FS * () :=
  match creatable fs p with Some e => inl e | None => inr (f fs, ()) end.

Definition Mkdir (p : string) : IO () := call (λ _, creating (components p) (mkdirAt (components p))).

(** [os.MkdirAll] adds each directory of the path that is missing. *)
Fixpoint mkdirsAt (done todo : list string) (fs : FS) : Errno + FS :=
  match todo with
  | [] => inr fs
  | x :: todo =>
      let p := done ++ [x] in
      match fs !! p with
      | Some Directory => mkdirsAt p todo fs
      | Some _ => inl OtherError
      | None => mkdirsAt p todo (<[p := Directory]> fs)
      end
  end.
Definition MkdirAll (p : string) : IO () :=
  call (λ _ fs, match mkdirsAt [] (components p) fs with inl e => inl e | inr fs => inr (fs, ()) end).

(** [os.MkdirTemp] and [os.CreateTemp]: the name is new. *)
Definition MkdirTemp (directory prefix : string) : IO string :=
  call (λ n fs, let name := PathJoin [directory; prefix +:+ suffix m n] in
                match creating (components name) (mkdirAt (components name)) fs with
                | inl e => inl e
                | inr (fs, _) => inr (fs, name)
                end).
Definition CreateTemp (directory prefix : string) : IO string :=
  call (λ n fs, let name := PathJoin [directory; prefix +:+ suffix m n] in
                match creating (components name) (insert (components name) (Regular "")) fs with
                | inl e => inl e
                | inr (fs, _) => inr (fs, name)
                end).

(** [os.Symlink] creates or fails: it never replaces. *)
Definition SymlinkAt (target p : string) : IO () :=
  call (λ _, creating (components p) (insert (components p) (Symlink target))).

(** [os.OpenFile] with [O_CREATE|O_EXCL], and with [O_CREATE] alone. *)
Definition CreateExclusive (p : string) : IO () :=
  call (λ _, creating (components p) (insert (components p) (Regular ""))).
Definition OpenOrCreate (p : string) : IO () :=
  call (λ _ fs, match fs !! components p with
                | Some (Regular _) => inr (fs, ())
                | Some _ => inl OtherError
                | None => creating (components p) (insert (components p) (Regular "")) fs
                end).

(** [io.Copy] to a file that is open: where it fails some of the content is written. *)
Definition filled (p : list string) (content : string) (d : Disk) : Disk :=
  with_files (alter (λ _, Regular content) p (files d)) d.
Definition WriteTo (p content : string) : IO () :=
  callOr (λ n d, filled (components p) (stake (written m n) content) d) (λ n d, inr (filled (components p) content d, ())).

(** [os.Remove]: an entry, or a directory that is empty. *)
Definition Remove (p : string) : IO () :=
  call (λ _ fs, match fs !! components p with
                | None => inl NotExist
                | Some _ =>
                    if bool_decide (below fs (components p) = []) then inr (delete (components p) fs, ()) else inl OtherError
                end).

(** [os.RemoveAll]: where it fails some entries are left. *)
Definition clearedBut (left : list string → bool) (p : list string) (d : Disk) : Disk :=
  with_files (filter (λ x, under p x.1 = false ∨ left x.1 = true) (files d)) d.
Definition RemoveAll (p : string) : IO () :=
  callOr (λ n, clearedBut (spared m n) (components p)) (λ _ d, inr (clearedBut (λ _, false) (components p) d, ())).

(** [renameat2] with [RENAME_EXCHANGE]: two entries, with what is below them. *)
Definition exchanged (p q r : list string) : list string :=
  if under p r then q ++ drop (length p) r else if under q r then p ++ drop (length q) r else r.
Definition exchangePaths (from to : string) : IO () :=
  call (λ _ fs,
    if negb (canExchange m) || under (components from) (components to) || under (components to) (components from) then inl OtherError
    else match fs !! components from, fs !! components to with
         | Some _, Some _ => inr (kmap (exchanged (components from) (components to)) fs, ())
         | _, _ => inl NotExist
         end).

(** ** Syncing *)

Definition SyncFile (p : string) : IO () :=
  callDisk (λ _ d, match files d !! components p with
                   | Some (Regular content) => inr (mkDisk (files d) (linked d) (<[components p := content]> (flushed d)), ())
                   | _ => inl OtherError
                   end).

(** [syncDirectory]. *)
Definition syncDirectory (p : string) : IO () :=
  callDisk (λ _ d,
    if isDirectory (files d) (components p) then
      let inside (q : list string) := bool_decide (parentOf q = components p) && negb (bool_decide (q = [])) in
      inr (mkDisk (files d) (filter (λ x, inside x.1 = true) (files d) ∪ filter (λ x, inside x.1 = false) (linked d)) (flushed d), ())
    else inl NotExist).
End calls.
