(* ===== verification/VerifyTree.v ===== *)
(** Finalizing a repository and verifying one on disk: [internal/buildgraph/finalize.go]
    and [verifyRepository] of [internal/app/verify.go].

    What the structure check of the repository's format says is an answer of the machine;
    everything before it is modelled. *)

From S2P Require Import Prelude GoStrings GoSlices Model Formats JsonStrict PlanJson S3Keys FileSystem.

Open Scope Z_scope.

(** ** Artifacts *)

(** [domain.File]: [Content] is [None] where it is [nil]. *)
Record DomainFile := mkDomainFile {
  df_Path : string; df_Size : Z; df_SHA256 : string; df_Content : option string; df_BlobSHA256 : string;
}.
#[export] Instance DomainFile_eq_dec : EqDecision DomainFile.
Proof. solve_decision. Defined.

Record RepositoryArtifact := mkArtifact {
  art_Format : string; art_Files : list DomainFile; art_Install : InstallSpec; art_VerificationCases : list VerificationCase;
  art_Signatures : list Signature;
}.

(** The encoding of the management manifest: [json.MarshalIndent], and the decoder that
    allows neither unknown fields nor a second value. *)
Class TreeLib := {
  MarshalRepositoryManifest : RepositoryManifest → string;
  DecodeRepositoryManifest : string → option RepositoryManifest;
  FormatGeneratedAt : Z → string;
}.

Definition RepositoryManifestSchema : Z := 3.

(** The check of a path both sides make. *)
Definition unsafeTreePath (p : string) : bool :=
  bool_decide (p = "") || IsAbs p || negb (bool_decide (Clean p = p)) || bool_decide (p = ".") || HasPrefix p "../".

Definition newline : string := String "010" "".
(** [hex.DecodeString] gives 32 bytes. *)
Definition decodesSHA256 (value : string) : bool := bool_decide (DecodeHexLen value = Some 32%nat).

Section trees.
Context `{HashLib, TimeLib, !TreeLib}.

Definition validateFile (file : DomainFile) : option DomainFile :=
  if unsafeTreePath (df_Path file) then None
  else if bool_decide (df_Path file = ManifestFilename) then None
  else if mem_byte "\" (df_Path file) then None
  else if bool_decide (df_BlobSHA256 file = "") then
    let content := default "" (df_Content file) in
    Some (mkDomainFile (df_Path file) (Z.of_nat (String.length content)) (SHA256Hex content) (df_Content file) "")
  else if bool_decide (is_Some (df_Content file)) then None
  else if df_Size file <? 0 then None
  else if negb (decodesSHA256 (df_SHA256 file)) then None
  else if negb (bool_decide (df_BlobSHA256 file = df_SHA256 file)) then None
  else Some file.

Definition domainFileLess (left right : DomainFile) : bool := str_ltb (df_Path left) (df_Path right).
Fixpoint duplicatePath (files : list DomainFile) : bool :=
  match files with
  | one :: (two :: _) as rest => bool_decide (df_Path one = df_Path two) || duplicatePath rest
  | _ => false
  end.
Definition manifestFileOf (file : DomainFile) : File := mkFile (df_Path file) (df_Size file) (df_SHA256 file).

(** The generation time is [None] where it is the zero time. *)
Definition Finalize (artifact : RepositoryArtifact) (generatedAt : option Z) : option (RepositoryArtifact * RepositoryManifest) :=
  if bool_decide (art_Format artifact = "") then None
  else match generatedAt, mapM validateFile (art_Files artifact) with
       | Some generatedAt, Some validated =>
           let files := sort_slice domainFileLess validated in
           if duplicatePath files then None
           else
             let manifestFiles := manifestFileOf <$> files in
             let manifest := mkRepositoryManifest RepositoryManifestSchema (art_Format artifact) (FormatGeneratedAt generatedAt)
                               (TreeDigest manifestFiles) manifestFiles (art_Install artifact) (art_VerificationCases artifact)
                               (art_Signatures artifact) in
             let manifestBytes := MarshalRepositoryManifest manifest +:+ newline in
             let management := mkDomainFile ManifestFilename (Z.of_nat (String.length manifestBytes)) (SHA256Hex manifestBytes)
                                 (Some manifestBytes) "" in
             Some (mkArtifact (art_Format artifact) (files ++ [management]) (art_Install artifact) (art_VerificationCases artifact)
                     (art_Signatures artifact), manifest)
       | _, _ => None
       end.

(** ** Verifying *)

Definition maxManifestSize : Z := 8 * 2 ^ 20.
Definition maxRepositoryFiles : Z := 20000.
Definition maxRepositoryBytes : Z := 4 * 2 ^ 30.

Definition validateManifestFile (previous : option string) (file : File) : bool :=
  negb (unsafeTreePath (file_Path file)) && negb (mem_byte "\" (file_Path file)) && negb (bool_decide (file_Path file = ManifestFilename)) &&
  match previous with Some previous => str_ltb previous (file_Path file) | None => true end &&
  negb (file_Size file <? 0) && decodesSHA256 (file_SHA256 file).

Fixpoint withinLimit (repositorySize : Z) (files : list File) : bool :=
  match files with
  | [] => true
  | file :: files =>
      negb ((file_Size file <? 0) || (maxRepositoryBytes - repositorySize <? file_Size file)) &&
      withinLimit (repositorySize + file_Size file) files
  end.

(** What is checked of the decoded manifest before any file is read. *)
Definition acceptableManifest (manifest : RepositoryManifest) : bool :=
  SupportedManifestSchema (rm_SchemaVersion manifest) && negb (bool_decide (rm_Format manifest = "")) &&
  bool_decide (is_Some (ParseRFC3339 (rm_GeneratedAt manifest))) &&
  negb (maxRepositoryFiles <? Z.of_nat (length (rm_Files manifest))) && withinLimit 0 (rm_Files manifest).

Context (m : Machine).

(** [os.Open], [io.ReadAll] up to the limit, and [Close]. *)
Definition readManifest (root : string) : IO string :=
  content ← ReadFile m (PathJoin [root; ManifestFilename]);
  _ ← throw_when (maxManifestSize <? Z.of_nat (String.length content)) OtherError;
  mret content.

Definition decodeManifest (content : string) : IO RepositoryManifest :=
  match DecodeRepositoryManifest content with Some manifest => mret manifest | None => throw OtherError end.

Definition hashRepositoryFile (root name : string) : IO (Z * string) :=
  let filename := PathJoin [root; name] in
  info ← Lstat m filename;
  match info with
  | Regular _ => content ← ReadFile m filename; mret (Z.of_nat (String.length content), SHA256Hex content)
  | _ => throw OtherError
  end.

Fixpoint verifyFiles (root : string) (previous : option string) (files : list File) : IO () :=
  match files with
  | [] => mret ()
  | file :: files =>
      _ ← throw_when (negb (validateManifestFile previous file)) OtherError;
      '(size, digest) ← hashRepositoryFile root (file_Path file);
      _ ← throw_when (negb (size =? file_Size file) || negb (bool_decide (digest = file_SHA256 file))) OtherError;
      verifyFiles root (Some (file_Path file)) files
  end.

(** The loop over the names found: what is left of [expected], where all were expected. *)
Fixpoint crossOff (names : list string) (expected : gset string) : option (gset string) :=
  match names with
  | [] => Some expected
  | name :: names => if bool_decide (name ∈ expected) then crossOff names (expected ∖ {[name]}) else None
  end.

Definition rejectUnexpectedFiles (root : string) (expected : gset string) : IO () :=
  entries ← WalkDir m root;
  _ ← throw_when (existsb (λ x, match x.2 with Symlink _ | Special => true | _ => false end) entries) OtherError;
  let actual := omap (λ x, match x.2 with Regular _ => Some (Join x.1 "/") | _ => None end) entries in
  match crossOff (Strings actual) expected with
  | Some missing => throw_when (negb (bool_decide (missing = ∅))) OtherError
  | None => throw OtherError
  end.

(** [filepath.Abs]. *)
Definition Abs (p : string) : string := if IsAbs p then Clean p else PathJoin [workingDirectory m; p].

(** The formats whose structure is checked; the others have none to check. *)
Definition structureChecked (format : string) : bool :=
  bool_decide (format ∈ ["pypi/v1"; "deb/v1"; "helm/v1"; "raw/v1"]).
Definition verifyStructure : IO () := look m (λ n _, if structure m n then inr () else inl OtherError).

Definition VerifyRepository (root : string) : IO RepositoryManifest :=
  absolute ← EvalSymlinks m (Abs root);
  content ← readManifest absolute;
  manifest ← decodeManifest content;
  _ ← throw_when (negb (acceptableManifest manifest)) OtherError;
  _ ← verifyFiles absolute None (rm_Files manifest);
  _ ← throw_when (negb (bool_decide (TreeDigest (rm_Files manifest) = rm_TreeSHA256 manifest))) OtherError;
  _ ← rejectUnexpectedFiles absolute ({[ManifestFilename]} ∪ list_to_set (file_Path <$> rm_Files manifest));
  _ ← (if structureChecked (rm_Format manifest) then verifyStructure else mret ());
  mret manifest.
End trees.
