(* ===== verification/Materialize.v ===== *)
(** Publishing to a directory: [internal/app/materialize.go], [commit.go], and the local
    host of [adapters/host/local/local.go].

    A publication is written to a release directory beside the output and the output,
    a symbolic link to [control/current] which is itself a link to a release, is
    switched to it: created where there was none, and otherwise by exchanging
    [control/current] with a link prepared beside it. *)

From S2P Require Import Prelude GoStrings GoSlices Model Formats JsonStrict PlanJson Host S3Store S3Keys S3 FileSystem VerifyTree.

Open Scope Z_scope.

(** ** Names *)

Definition managedPrefix (output : string) : string := "." +:+ Base output +:+ ".snailmail-release-".
Definition controlDirectory (output : string) : string := PathJoin [PathDir output; "." +:+ Base output +:+ ".snailmail-control"].
Definition lockFile (output : string) : string := PathJoin [PathDir output; "." +:+ Base output +:+ ".snailmail.lock"].
Definition currentLink (output : string) : string := PathJoin [controlDirectory output; "current"].
(** What the output links to. *)
Definition outerTarget (output : string) : string := PathJoin [Base (controlDirectory output); "current"].

(** A link to a release beside the control directory. *)
Definition managedLink (output link : string) : bool :=
  negb (IsAbs link) && bool_decide (link = PathJoin [".."; Base link]) && HasPrefix (Base link) (managedPrefix output).

Section publish.
Context `{HashLib, TimeLib, !TreeLib} (m : Machine).

(** ** The current release *)

Definition removeOrphanedControl (output : string) : IO () :=
  let control := controlDirectory output in
  info ← Lstat m control;
  _ ← throw_when (negb (bool_decide (info = Directory))) OtherError;
  let current := PathJoin [control; "current"] in
  link ← tried (Readlink m current);
  release ←
    match link with
    | inl NotExist => mret ""
    | inl e => throw e
    | inr link =>
        _ ← throw_when (negb (managedLink output link)) OtherError;
        let release := PathJoin [PathDir output; Base link] in
        found ← tried (Lstat m release);
        _ ← match found with
            | inr _ => _ ← VerifyRepository m release; mret ()
            | inl NotExist => mret ()
            | inl e => throw e
            end;
        _ ← Remove m current;
        mret release
    end;
  _ ← Remove m control;
  _ ← (if bool_decide (release = "") then mret () else RemoveAll m release);
  syncDirectory m (PathDir output).

(** The link of the current release and the tree it holds; both empty where there is no
    output. *)
Definition currentManagedRelease (output : string) : IO (string * string) :=
  let control := controlDirectory output in
  info ← tried (Lstat m output);
  match info with
  | inl NotExist =>
      inspected ← tried (Lstat m control);
      match inspected with
      | inr _ => _ ← removeOrphanedControl output; mret ("", "")
      | inl NotExist => mret ("", "")
      | inl e => throw e
      end
  | inl e => throw e
  | inr (Symlink _) =>
      outerLink ← Readlink m output;
      _ ← throw_when (negb (bool_decide (outerLink = outerTarget output))) OtherError;
      controlInfo ← Lstat m control;
      _ ← throw_when (negb (bool_decide (controlInfo = Directory))) OtherError;
      link ← Readlink m (PathJoin [control; "current"]);
      _ ← throw_when (negb (managedLink output link)) OtherError;
      manifest ← VerifyRepository m (PathJoin [control; link]);
      mret (link, rm_TreeSHA256 manifest)
  | inr _ => throw OtherError
  end.

(** ** Switching *)

(** [exchangeReleaseLink]: whether the exchange took place, and the error. *)
Definition exchangeReleaseLink (temporary output expectedLink : string) : IO (bool * option Errno) :=
  swapped ← tried (exchangePaths m temporary output);
  match swapped with
  | inl e => mret (false, Some e)
  | inr _ =>
      actualLink ← tried (Readlink m temporary);
      match actualLink with
      | inr actualLink => mret (true, if bool_decide (actualLink = expectedLink) then None else Some OtherError)
      | inl e => mret (true, Some e)
      end
  end.

Definition reserveSymlink (directory prefix target : string) : IO string :=
  temporaryName ← CreateTemp m directory prefix;
  _ ← Remove m temporaryName;
  _ ← SymlinkAt m target temporaryName;
  mret temporaryName.

(** An error before the switch and one after it. *)
Definition beforeSwitch (act : IO (bool * option Errno)) : IO (bool * option Errno) :=
  r ← tried act;
  match r with inl e => mret (false, Some e) | inr r => mret r end.
Definition afterSwitch (act : IO ()) : IO (bool * option Errno) :=
  r ← tried act;
  match r with inl e => mret (true, Some e) | inr _ => mret (true, None) end.

Definition publishRelease (output staging expectedLink expectedTree : string) : IO (bool * option Errno) :=
  let parent := PathDir output in
  let control := controlDirectory output in
  let newLink := PathJoin [".."; Base staging] in
  if bool_decide (expectedLink = "") then
    beforeSwitch (
      _ ← Mkdir m control;
      _ ← SymlinkAt m newLink (PathJoin [control; "current"]);
      _ ← SymlinkAt m (outerTarget output) output;
      afterSwitch (_ ← syncDirectory m control; syncDirectory m parent))
  else
    beforeSwitch (
      '(observedLink, observedTree) ← currentManagedRelease output;
      _ ← throw_when (negb (bool_decide (observedLink = expectedLink)) || negb (bool_decide (observedTree = expectedTree))) OtherError;
      temporaryName ← reserveSymlink control ".current-" newLink;
      '(committed, failure) ← exchangeReleaseLink temporaryName (PathJoin [control; "current"]) expectedLink;
      match failure with
      | Some e => mret (committed, Some e)
      | None =>
          afterSwitch (
            _ ← Remove m temporaryName;
            outerLink ← Readlink m output;
            _ ← throw_when (negb (bool_decide (outerLink = outerTarget output))) OtherError;
            _ ← syncDirectory m control;
            syncDirectory m (PathDir output))
      end).

(** ** Writing a release *)

(** The content of a file, from the artifact or from the source of its digest. *)
Definition sourceContent (sources : gmap string string) (file : DomainFile) : IO string :=
  if bool_decide (df_BlobSHA256 file = "") then mret (default "" (df_Content file))
  else
    let sourcePath := default "" (sources !! df_BlobSHA256 file) in
    if bool_decide (sourcePath = "") then throw OtherError else ReadFile m sourcePath.

(** The copy, then the sync of what was copied whether or not it failed. *)
Definition materializeFile (root : string) (file : DomainFile) (sources : gmap string string) : IO () :=
  let target := PathJoin [root; df_Path file] in
  _ ← MkdirAll m (PathDir target);
  _ ← CreateExclusive m target;
  copied ← tried (content ← sourceContent sources file; _ ← WriteTo m target content; mret content);
  synced ← tried (SyncFile m target);
  match copied, synced with
  | inr content, inr _ =>
      throw_when (negb (Z.of_nat (String.length content) =? df_Size file) || negb (bool_decide (SHA256Hex content = df_SHA256 file))) OtherError
  | inl e, _ => throw e
  | _, inl e => throw e
  end.

(** [syncTreeDirectories]: the directories of the tree, the longest names first. *)
Definition byLength (one two : string) : bool := (String.length two <? String.length one)%nat.
Definition syncTreeDirectories (root : string) : IO () :=
  entries ← WalkDir m root;
  let directories := omap (λ x, match x.2 with Directory => Some (PathJoin [root; Join x.1 "/"]) | _ => None end) entries in
  forEach (syncDirectory m) (sort_slice byLength (root :: directories)).

(** [lockOutput]: the lock is released when the process ends its work. *)
Definition lockOutput (output : string) : IO () :=
  _ ← OpenOrCreate m (lockFile output);
  look m (λ n _, if lockedByOther m n then inl OtherError else inr ()).

(** [defer os.RemoveAll(staging)] unless the release was published. *)
Definition unlessPublished (staging : string) (body : IO (bool * option Errno)) : IO () :=
  r ← tried body;
  match r with
  | inr (true, None) => mret ()
  | inr (true, Some e) => throw e
  | inr (false, None) => ignoring (RemoveAll m staging)
  | inr (false, Some e) | inl e => _ ← ignoring (RemoveAll m staging); throw e
  end.

Definition materialize (output : string) (artifact : RepositoryArtifact) (sources : gmap string string) (expectedTree : option string) : IO () :=
  let absolute := Abs m output in
  let parent := PathDir absolute in
  _ ← MkdirAll m parent;
  _ ← lockOutput absolute;
  '(expectedLink, currentTree) ← currentManagedRelease absolute;
  _ ← throw_when (match expectedTree with Some expected => negb (bool_decide (currentTree = expected)) | None => false end) OtherError;
  staging ← MkdirTemp m parent (managedPrefix absolute);
  unlessPublished staging (
    _ ← forEach (λ file, _ ← contextErr m; materializeFile staging file sources) (art_Files artifact);
    _ ← syncTreeDirectories staging;
    publishRelease absolute staging expectedLink currentTree).

Definition MaterializeOutput (output : string) (artifact : RepositoryArtifact) (sources : gmap string string) : IO () :=
  materialize output artifact sources None.

(** ** Publishing a verified directory *)

Definition snapshotVerifiedManifest (root : string) (expected : RepositoryManifest) : IO string :=
  content ← readManifest m root;
  actual ← decodeManifest content;
  _ ← throw_when (negb (bool_decide (actual = expected))) OtherError;
  mret content.

(** The files of a verified directory, with its management manifest. *)
Definition verifiedFiles (manifest : RepositoryManifest) (content : string) : list DomainFile :=
  ((λ file, mkDomainFile (file_Path file) (file_Size file) (file_SHA256 file) None (file_SHA256 file)) <$> rm_Files manifest) ++
  [mkDomainFile ManifestFilename (Z.of_nat (String.length content)) (SHA256Hex content) (Some content) ""].

Definition PublishVerifiedDirectory (source output expectedCurrent desiredTree : string) : IO () :=
  manifest ← VerifyRepository m source;
  _ ← throw_when (negb (bool_decide (rm_TreeSHA256 manifest = desiredTree))) OtherError;
  source ← EvalSymlinks m source;
  content ← snapshotVerifiedManifest source manifest;
  let sources := foldl (λ sources file, <[file_SHA256 file := PathJoin [source; file_Path file]]> sources) ∅ (rm_Files manifest) in
  materialize output (mkArtifact (rm_Format manifest) (verifiedFiles manifest content) (mkInstall "" "" "" "" [] "" "" []) [] []) sources
    (Some expectedCurrent).

(** ** The local host *)

(** The fields of [host.Repository] the adapter reads; the path as it is resolved in the
    workspace, where that succeeds. *)
Record LocalRepository := mkLocal { local_Path : string; local_WorkspaceRoot : string; local_Resolved : option string }.

Definition localPath (repository : LocalRepository) : option string :=
  if bool_decide (local_Path repository = "") then None
  else if IsAbs (local_Path repository) then Some (Clean (local_Path repository))
  else if bool_decide (local_WorkspaceRoot repository = "") then None
  else local_Resolved repository.

Definition atPath (repository : LocalRepository) : IO string :=
  match localPath repository with Some output => mret output | None => throw OtherError end.

Definition CapabilitiesLocal : Capabilities := mkCapabilities true true false false "".

Definition ObserveLocal (repository : LocalRepository) : IO PublishedRevision :=
  output ← atPath repository;
  info ← tried (Lstat m output);
  match info with
  | inl NotExist => mret noRevision
  | inl e => throw e
  | inr _ =>
      manifest ← VerifyRepository m output;
      mret (mkRevision (rm_TreeSHA256 manifest) (rm_TreeSHA256 manifest) "" "" "" "" "" "" "")
  end.

Definition StageLocal (directory planID changeID treeSHA256 : string) (requested : list File) (commitPaths : list string) : IO S3Staged :=
  manifest ← VerifyRepository m directory;
  _ ← throw_when (negb (bool_decide (rm_TreeSHA256 manifest = treeSHA256))) OtherError;
  mret (mkS3Staged directory planID changeID treeSHA256 requested commitPaths).

(** The kind of error a commit of the local host reports is always [ErrorStale]. *)
Definition CommitLocal (repository : LocalRepository) (staged : S3Staged) (expected : ExpectedRevision) : IO CommitResult :=
  output ← atPath repository;
  _ ← PublishVerifiedDirectory (sp_ID staged) output (exp_TreeSHA256 expected) (sp_TreeSHA256 staged);
  mret (mkCommitResult (mkRevision (sp_TreeSHA256 staged) (sp_TreeSHA256 staged) (sp_PlanID staged) (sp_ChangeID staged) "" "" "" "" "")
          output None).

(** [ReadAccess] gives clients the directory; [Restore] is not offered; [Abort] has nothing to do. *)
Definition ReadAccessLocal (repository : LocalRepository) : IO string := atPath repository.
Definition RestoreLocal : IO PublishedRevision := throw OtherError.
Definition AbortLocal : IO () := mret ().
End publish.
