(* ===== verification/PublishLogic.v ===== *)
(** A logic for computations that may stop at any call, the names a local publication
    uses, and what the calls change: for [MaterializeProofs]. *)

From S2P Require Import Prelude GoStrings GoSlices Model Formats JsonStrict PlanJson Manifest ManifestProofs Host S3Store S3Keys S3 S3KeyProofs Rsync RsyncPaths.
From S2P Require Import FileSystem VerifyTree Materialize.

Open Scope Z_scope.

(** ** A logic for calls that may be the last *)

Section logic.
Context (m : Machine).
(** The paths others leave alone, and the states in which a process may die. *)
Context (owned : list string → Prop) (C : FS → Prop).

(** An assertion on the owned paths only. *)
Definition local (P : FS → Prop) : Prop := ∀ fs fs', (∀ p, owned p → fs !! p = fs' !! p) → P fs → P fs'.

(** From a state in [P], every state [act] goes through is in [C] and it ends in [Q]. *)
Definition holds {A : Type} (P : FS → Prop) (act : IO A) (Q : Errno + A → FS → Prop) : Prop :=
  ∀ w, P (files (disk w)) →
    (∃ trail, past (act w).1 = past w ++ trail ∧ Forall (λ d, C (files d)) trail) ∧ Q (act w).2 (files (disk (act w).1)).

Lemma holds_ret {A : Type} (a : A) (P : FS → Prop) (Q : Errno + A → FS → Prop) : (∀ fs, P fs → Q (inr a) fs) → holds P (mret a) Q.
Proof. intros HQ w Hw. split; [|by apply HQ]. exists []. by rewrite app_nil_r. Qed.
Lemma holds_throw {A : Type} e (P : FS → Prop) (Q : Errno + A → FS → Prop) : (∀ fs, P fs → Q (inl e) fs) → holds P (throw e) Q.
Proof. intros HQ w Hw. split; [|by apply HQ]. exists []. by rewrite app_nil_r. Qed.
Lemma holds_weaken {A : Type} (P P' : FS → Prop) (act : IO A) (Q Q' : Errno + A → FS → Prop) :
  holds P act Q → (∀ fs, P' fs → P fs) → (∀ r fs, Q r fs → Q' r fs) → holds P' act Q'.
Proof. intros Hh HP HQ w Hw. destruct (Hh w (HP _ Hw)) as [Ht Hq]. split; [done|by apply HQ]. Qed.
Lemma holds_pre {A : Type} (P P' : FS → Prop) (act : IO A) (Q : Errno + A → FS → Prop) : holds P act Q → (∀ fs, P' fs → P fs) → holds P' act Q.
Proof. intros Hh HP w Hw. by apply Hh, HP. Qed.

Lemma holds_bind {A B : Type} (P : FS → Prop) (act : IO A) (f : A → IO B) (R : Errno + A → FS → Prop) (Q : Errno + B → FS → Prop) :
  holds P act R → (∀ e fs, R (inl e) fs → Q (inl e) fs) → (∀ a, holds (R (inr a)) (f a) Q) → holds P (act ≫= f) Q.
Proof.
  intros Ha He Hf w Hw. destruct (Ha w Hw) as [(t1 & E1 & F1) Hr]. unfold mbind, IO_bind. destruct (act w) as [w1 [e|a]]; cbn in *.
  - split; [by exists t1|by apply He].
  - destruct (Hf a w1 Hr) as [(t2 & E2 & F2) Hq]. split; [|done]. exists (t1 ++ t2). rewrite E2, E1, app_assoc. split; [done|by apply Forall_app].
Qed.
Lemma holds_tried {A : Type} (P : FS → Prop) (act : IO A) (Q : Errno + A → FS → Prop) : holds P act Q → holds P (tried act) (λ r fs, ∃ v, r = inr v ∧ Q v fs).
Proof.
  intros Ha w Hw. destruct (Ha w Hw) as [Ht Hq]. unfold tried. destruct (act w) as [w1 r]; cbn in *. split; [done|by exists r].
Qed.
Lemma holds_ignoring {A : Type} (P : FS → Prop) (act : IO A) (Q : Errno + A → FS → Prop) : holds P act Q → holds P (ignoring act) (λ r fs, r = inr () ∧ ∃ v, Q v fs).
Proof. intros Ha w Hw. destruct (Ha w Hw) as [Ht Hq]. unfold ignoring; cbn. split; [done|]. split; [done|]. by exists (act w).2. Qed.

Hypothesis undisturbed : ∀ n fs p, owned p → between m n fs !! p = fs !! p.

Lemma holds_call {A : Type} (P : FS → Prop) onFailure (f : nat → Disk → Errno + Disk * A) (Q : Errno + A → FS → Prop) :
  local P →
  (∀ n d, P (files d) → C (files d) ∧ (C (files (onFailure n d)) ∧ Q (inl OtherError) (files (onFailure n d))) ∧
     match f n d with inl e => Q (inl e) (files d) | inr (d', a) => C (files d') ∧ Q (inr a) (files d') end) →
  holds P (callOr m onFailure f) Q.
Proof.
  intros HP Hf w Hw. unfold callOr. set (w' := arrive m w). assert (Hw' : P (files (disk w'))).
  { apply (HP (files (disk w))); [|done]. intros p Hp. symmetry. by apply undisturbed. }
  destruct (Hf (calls w) (disk w') Hw') as (Hc & (Hd1 & Hd2) & Hr).
  destruct (denied m (calls w)); [|destruct (f (calls w) (disk w')) as [e|[d a]]].
  - split; [|done]. exists [disk w'; onFailure (calls w) (disk w')]. cbn. rewrite <- app_assoc. by repeat constructor.
  - split; [|done]. exists [disk w']. cbn. by repeat constructor.
  - split; [|apply Hr]. exists [disk w'; d]. cbn. rewrite <- app_assoc. repeat constructor; [done|apply Hr].
Qed.

(** A call that fails leaves the entries, and one that reads only does so always. *)
Lemma holds_change {A : Type} (P : FS → Prop) (f : nat → FS → Errno + FS * A) (Q : Errno + A → FS → Prop) :
  local P → (∀ fs, P fs → C fs) →
  (∀ fs, P fs → Q (inl OtherError) fs) →
  (∀ n fs, P fs → match f n fs with inl e => Q (inl e) fs | inr (fs', a) => C fs' ∧ Q (inr a) fs' end) →
  holds P (call m f) Q.
Proof.
  intros HP HC Hd Hf. apply holds_call; [done|]. intros n d Hp. split_and!; [by apply HC..|by apply Hd|].
  specialize (Hf n (files d) Hp). by destruct (f n (files d)) as [e|[fs a]].
Qed.
Lemma holds_look {A : Type} (P : FS → Prop) (f : nat → FS → Errno + A) (Q : Errno + A → FS → Prop) :
  local P → (∀ fs, P fs → C fs) →
  (∀ fs, P fs → Q (inl OtherError) fs) → (∀ n fs, P fs → Q (f n fs) fs) →
  holds P (look m f) Q.
Proof.
  intros HP HC Hd Hf. apply holds_call; [done|]. intros n d Hp. split_and!; [by apply HC..|by apply Hd|].
  specialize (Hf n (files d) Hp). destruct (f n (files d)) as [e|a]; [done|]. split; [by apply HC|done].
Qed.

(** ** Computations that leave the owned paths alone *)

Definition steady {A : Type} (act : IO A) : Prop := ∀ P : FS → Prop, local P → (∀ fs, P fs → C fs) → holds P act (λ _, P).

Lemma steady_ret {A : Type} (a : A) : steady (mret a).
Proof. intros P _ _. by apply holds_ret. Qed.
Lemma steady_throw {A : Type} e : steady (throw (A := A) e).
Proof. intros P _ _. by apply holds_throw. Qed.
Lemma steady_throw_when b e : steady (throw_when b e).
Proof. destruct b; [apply steady_throw|apply steady_ret]. Qed.
Lemma steady_bind {A B : Type} (act : IO A) (f : A → IO B) : steady act → (∀ a, steady (f a)) → steady (act ≫= f).
Proof. intros Ha Hf P HP HC. eapply holds_bind; [by apply Ha|done|]. intros a. by apply Hf. Qed.
Lemma steady_tried {A : Type} (act : IO A) : steady act → steady (tried act).
Proof. intros Ha P HP HC. eapply holds_weaken; [by apply holds_tried, Ha|done|]. by intros r fs (v & _ & Hv). Qed.
Lemma steady_look {A : Type} (f : nat → FS → Errno + A) : steady (look m f).
Proof. intros P HP HC. by apply holds_look. Qed.
Lemma steady_forEach {A : Type} (f : A → IO ()) l : (∀ x, steady (f x)) → steady (forEach f l).
Proof. intros Hf. induction l as [|x l IH]; [apply steady_ret|]. by apply steady_bind. Qed.
Lemma steady_disk {A : Type} (f : nat → Disk → Errno + Disk * A) :
  (∀ n d d' a, f n d = inr (d', a) → files d' = files d) → steady (callDisk m f).
Proof.
  intros Hf P HP HC. apply holds_call; [done|]. intros n d Hp. split_and!; [by apply HC..|done|].
  destruct (f n d) as [e|[d' a]] eqn:E; [done|]. rewrite (Hf _ _ _ _ E). split; [by apply HC|done].
Qed.
(** A call that changes entries beside the owned ones. *)
Lemma steady_change {A : Type} (f : nat → FS → Errno + FS * A) :
  (∀ n fs fs' a, f n fs = inr (fs', a) → ∀ p, owned p → fs !! p = fs' !! p) → steady (call m f).
Proof.
  intros Hf P HP HC. apply holds_change; [done..|]. intros n fs Hp. destruct (f n fs) as [e|[fs' a]] eqn:E; [done|].
  assert (P fs') by (apply (HP fs); [|done]; by eapply Hf). by auto.
Qed.

Lemma steady_then {A B : Type} (P : FS → Prop) (act : IO A) (f : A → IO B) (Q : Errno + B → FS → Prop) :
  steady act → local P → (∀ fs, P fs → C fs) → (∀ e fs, P fs → Q (inl e) fs) → (∀ a, holds P (f a) Q) → holds P (act ≫= f) Q.
Proof. intros Ha HP HC He Hf. eapply holds_bind; [by apply Ha|done|done]. Qed.
Lemma holds_given {A : Type} (phi : Prop) (P : FS → Prop) (act : IO A) (Q : Errno + A → FS → Prop) :
  (phi → holds P act Q) → holds (λ fs, phi ∧ P fs) act Q.
Proof. intros Hh w [Hphi Hw]. by apply Hh. Qed.
Lemma holds_ret_bind {A B : Type} (a : A) (P : FS → Prop) (f : A → IO B) (Q : Errno + B → FS → Prop) : holds P (f a) Q → holds P (mret a ≫= f) Q.
Proof. done. Qed.
(** A read whose answer tells something whatever the state. *)
Lemma look_then {A B : Type} (phi : A → Prop) (P : FS → Prop) (f : nat → FS → Errno + A) (k : A → IO B) (Q : Errno + B → FS → Prop) :
  local P → (∀ fs, P fs → C fs) → (∀ e fs, P fs → Q (inl e) fs) →
  (∀ n fs a, P fs → f n fs = inr a → phi a) → (∀ a, phi a → holds P (k a) Q) → holds P (look m f ≫= k) Q.
Proof.
  intros HP HC He Hphi Hk. eapply holds_bind with (R := λ r fs, P fs ∧ ∀ a, r = inr a → phi a).
  - apply holds_look; [done..|by split|]. intros n fs Hfs. split; [done|]. intros a E. by eapply Hphi.
  - intros e fs [Hfs _]. by apply He.
  - intros a w [Hw Ha]. apply Hk; [by apply Ha|done].
Qed.
Lemma tried_then {A B : Type} (phi : Errno + A → Prop) (P : FS → Prop) (f : nat → FS → Errno + A) (k : Errno + A → IO B) (Q : Errno + B → FS → Prop) :
  local P → (∀ fs, P fs → C fs) → phi (inl OtherError) →
  (∀ n fs, P fs → phi (f n fs)) → (∀ v, phi v → holds P (k v) Q) → holds P (tried (look m f) ≫= k) Q.
Proof.
  intros HP HC He Hphi Hk. eapply holds_bind with (R := λ r fs, ∃ v, r = inr v ∧ P fs ∧ phi v).
  - apply holds_tried, (holds_look P f (λ v fs, P fs ∧ phi v)); [done..|by split|]. intros n fs Hfs. split; [done|]. by apply (Hphi n).
  - by intros e fs (v & ? & _).
  - intros v w (v' & [= <-] & Hw & Hv). by apply Hk.
Qed.
(** A check that ends the computation where it fails. *)
Lemma holds_check {A : Type} b e (P : FS → Prop) (f : IO A) (Q : Errno + A → FS → Prop) :
  (∀ fs, P fs → Q (inl e) fs) → (b = false → holds P f Q) → holds P (throw_when b e ≫= λ _, f) Q.
Proof. intros He Hf. destruct b; [by apply holds_throw|]. intros w Hw. by apply Hf. Qed.
End logic.

Create HintDb steady.
#[export] Hint Resolve steady_ret steady_throw steady_throw_when steady_tried steady_look steady_forEach : steady.
#[export] Hint Extern 1 (steady _ _ (_ ≫= _)) => apply steady_bind : steady.

(** ** Names *)

Lemma TrimRight_tail s t p : TrimRight p t ≠ "" → TrimRight p (s +:+ t) = s +:+ TrimRight p t.
Proof.
  intros Ht. induction s as [|c s IH]; [done|]. rewrite !str_app_cons. cbn [TrimRight]. rewrite IH.
  destruct (s +:+ TrimRight p t) as [|] eqn:E; [|done]. by destruct s.
Qed.
Lemma TrimRight_none s c : mem_byte c s = false → TrimRight (ascii_eqb c) s = s.
Proof.
  induction s as [|x s IH]; [done|]. cbn [mem_byte TrimRight]. intros [Hx Hs]%orb_false_iff. rewrite IH by done.
  destruct s; [|done]. apply ascii_eqb_neq in Hx. assert (ascii_eqb c x = false) as E by (apply ascii_eqb_neq; congruence). by rewrite E.
Qed.

Lemma Base_last t x : plain_component x → Base (t +:+ "/" +:+ x) = x.
Proof.
  intros (Hne & _ & _ & Hs). unfold Base. rewrite bool_decide_eq_false_2 by (by destruct t).
  assert (E : TrimRight (ascii_eqb "/") (t +:+ "/" +:+ x) = t +:+ "/" +:+ x).
  { assert (Tx : TrimRight (ascii_eqb "/") x = x) by by apply TrimRight_none.
    assert (Ts : TrimRight (ascii_eqb "/") ("/" +:+ x) = "/" +:+ x) by (rewrite (TrimRight_tail "/" x); rewrite Tx; done).
    rewrite (TrimRight_tail t ("/" +:+ x)); rewrite Ts; done. }
  cbn zeta. rewrite E, bool_decide_eq_false_2 by (by destruct t). by rewrite cut_last_app.
Qed.
Lemma Base_abs l x : plain_component x → Base (abs (l ++ [x])) = x.
Proof. intros Hx. destruct (abs_snoc l x) as (t & -> & _). by apply Base_last. Qed.

Lemma components_abs l : Forall plain_component l → components (abs l) = l.
Proof. apply Split_abs. Qed.

Lemma dotted_plain n s : plain_component n → mem_byte "/" s = false → s ≠ "" → plain_component ("." +:+ n +:+ s).
Proof.
  intros (Hn & _ & _ & Hs) Hm Hne. destruct n as [|a n]; [done|]. split_and!; [done|done| |].
  - destruct n; destruct s; done.
  - change ("." +:+ String a n +:+ s) with (String "." (String a n +:+ s)). cbn [mem_byte]. rewrite mem_byte_app. by rewrite Hs, Hm.
Qed.

(** A path as it is joined to a directory. *)
Lemma PathJoin_one l x : Forall plain_component l → plainPath x → PathJoin [abs l; x] = abs (l ++ Split "/" x).
Proof. intros Hl Hx. rewrite PathJoin_abs; [|done|done|by constructor]. cbn. by rewrite app_nil_r. Qed.
Lemma PathJoin_entry l x : Forall plain_component l → plain_component x → PathJoin [abs l; x] = abs (l ++ [x]).
Proof. intros Hl Hx. rewrite PathJoin_one by (done || by apply plain_component_single). by rewrite Split_single by by destruct Hx as (_ & _ & _ & ?). Qed.

Lemma PathJoin_up x : plain_component x → PathJoin [".."; x] = "../" +:+ x.
Proof.
  intros Hx. unfold PathJoin. rewrite filter_cons_True by done. rewrite filter_cons_True by by destruct Hx. rewrite filter_nil.
  change (Join [".."; x] "/") with ("../" +:+ x). unfold Clean. change (HasPrefix ("../" +:+ x) "/") with false. cbn [negb].
  change ("../" +:+ x) with (".." +:+ String "/" x). rewrite Split_app. rewrite (Split_single x) by by destruct Hx as (_ & _ & _ & ?).
  change (Split "/" "..") with [".."]. cbn [app foldl]. unfold clean_push at 2. cbn.
  destruct Hx as (H1 & H2 & H3 & _). unfold clean_push. rewrite !(bool_decide_eq_false_2 (x = _)) by done. cbn. done.
Qed.

Lemma PathJoin_beside l c x : Forall plain_component l → plain_component c → plain_component x →
  PathJoin [abs (l ++ [c]); "../" +:+ x] = abs (l ++ [x]).
Proof.
  intros Hl Hc Hx. unfold PathJoin. rewrite !filter_cons_True by done. rewrite filter_nil.
  change (Join [abs (l ++ [c]); "../" +:+ x] "/") with (abs (l ++ [c]) +:+ String "/" (".." +:+ String "/" x)).
  unfold Clean. assert (HasPrefix (abs (l ++ [c]) +:+ String "/" (".." +:+ String "/" x)) "/" = true) as -> by by unfold abs.
  rewrite foldl_nonempty, !Split_app, filter_app, Split_abs by by apply Forall_app; split; [|by constructor].
  rewrite (Split_single x) by by destruct Hx as (_ & _ & _ & ?). change (Split "/" "..") with [".."]. cbn [app].
  rewrite filter_cons_True by done. rewrite filter_cons_True by by destruct Hx. rewrite filter_nil.
  rewrite foldl_app, (foldl_plain true [] (l ++ [c])) by (apply Forall_app; split; [done|by constructor]).
  rewrite app_nil_r, reverse_snoc. cbn [foldl]. destruct Hc as (? & ? & Hc & ?), Hx as (? & ? & Hx & ?).
  unfold clean_push at 2. cbn [bool_decide decide]. rewrite (bool_decide_eq_false_2 (c = "..")) by done.
  unfold clean_push. rewrite !(bool_decide_eq_false_2 (x = _)) by done. cbn [orb].
  change (bool_decide (".." = "") || bool_decide (".." = ".")) with false. change (bool_decide (".." = "..")) with true. cbn [orb].
  unfold abs. by rewrite reverse_cons, reverse_involutive.
Qed.

Definition controlName (name : string) : string := "." +:+ name +:+ ".snailmail-control".
Definition releaseStem (name : string) : string := "." +:+ name +:+ ".snailmail-release-".
Definition lockName (name : string) : string := "." +:+ name +:+ ".snailmail.lock".
Definition isRelease (name r : string) : bool := HasPrefix r (releaseStem name).

(** The paths of an output: itself, the control directory and the releases. *)
Definition ownedBy (base : list string) (name : string) (p : list string) : Prop :=
  ∃ x rest, p = base ++ x :: rest ∧ (x = name ∨ x = controlName name ∨ isRelease name x = true).

Lemma HasPrefix_cancel a b c : HasPrefix (a +:+ b) (a +:+ c) = HasPrefix b c.
Proof. induction a as [|x a IH]; [done|]. rewrite !str_app_cons. cbn [HasPrefix]. by rewrite ascii_eqb_refl, IH. Qed.

Lemma longer_ne a b c : b ≠ "" ∨ c ≠ "" → a ≠ b +:+ a +:+ c.
Proof. intros Hne E. apply (f_equal String.length) in E. rewrite !str_length_app in E. destruct Hne, b, c; cbn in *; try done; lia. Qed.

Lemma isRelease_not_control name : isRelease name (controlName name) = false.
Proof.
  unfold isRelease, releaseStem, controlName. change ("." +:+ name +:+ ?s) with (String "." (name +:+ s)). cbn [HasPrefix].
  rewrite ascii_eqb_refl, HasPrefix_cancel. done.
Qed.
Lemma isRelease_not_name name : isRelease name name = false.
Proof.
  apply not_true_iff_false. intros (t & E)%HasPrefix_spec. unfold releaseStem in E. rewrite !str_app_assoc in E. revert E. apply longer_ne. by left.
Qed.
Lemma controlName_ne name : controlName name ≠ name.
Proof. intros E. symmetry in E. revert E. apply longer_ne. by left. Qed.

Lemma isRelease_plain name r : plain_component name → mem_byte "/" r = false → isRelease name r = true → plain_component r.
Proof.
  intros (Hn & _ & _ & _) Hr (t & ->)%HasPrefix_spec. unfold releaseStem in *. destruct name as [|a name]; [done|].
  split_and!; [done|done| |done]. by destruct name.
Qed.
Lemma release_new name s : mem_byte "/" s = false → plain_component name → isRelease name (releaseStem name +:+ s) = true ∧ plain_component (releaseStem name +:+ s).
Proof.
  intros Hs Hn. assert (Hr : isRelease name (releaseStem name +:+ s) = true) by apply HasPrefix_app. split; [done|].
  apply (isRelease_plain name); [done| |done]. unfold releaseStem. rewrite !mem_byte_app, Hs. destruct Hn as (_ & _ & _ & ->). done.
Qed.

Lemma lockName_free name : lockName name ≠ name ∧ lockName name ≠ controlName name ∧ isRelease name (lockName name) = false.
Proof.
  split; [intros E; symmetry in E; revert E; apply longer_ne; by left|]. split.
  - intros E. assert (Hc : HasPrefix (controlName name) ("." +:+ name +:+ ".snailmail.") = false).
    { unfold controlName. change ("." +:+ name +:+ ?s) with (String "." (name +:+ s)). cbn [HasPrefix]. by rewrite ascii_eqb_refl, HasPrefix_cancel. }
    rewrite <- E in Hc. unfold lockName in Hc. change ("." +:+ name +:+ ?s) with (String "." (name +:+ s)) in Hc. cbn [HasPrefix] in Hc.
    by rewrite ascii_eqb_refl, HasPrefix_cancel in Hc.
  - unfold isRelease, releaseStem, lockName. change ("." +:+ name +:+ ?s) with (String "." (name +:+ s)). cbn [HasPrefix].
    by rewrite ascii_eqb_refl, HasPrefix_cancel.
Qed.

Section names.
Context (base : list string) (name : string) (Hbase : Forall plain_component base) (Hname : plain_component name).
Let output := abs (base ++ [name]).

Lemma output_parent : PathDir output = abs base.
Proof. by apply PathDir_abs. Qed.
Lemma output_base : Base output = name.
Proof. by apply Base_abs. Qed.
Lemma control_plain : plain_component (controlName name).
Proof. by apply dotted_plain. Qed.
Lemma control_path : controlDirectory output = abs (base ++ [controlName name]).
Proof. unfold controlDirectory. rewrite output_parent, output_base. apply PathJoin_entry; [done|apply control_plain]. Qed.
Lemma current_plain : plain_component "current".
Proof. done. Qed.
Lemma current_path : PathJoin [controlDirectory output; "current"] = abs (base ++ [controlName name; "current"]).
Proof.
  rewrite control_path. rewrite PathJoin_entry; [by rewrite <- app_assoc| |done]. apply Forall_app. split; [done|]. by constructor; [apply control_plain|].
Qed.
Lemma prefix_is_stem : managedPrefix output = releaseStem name.
Proof. unfold managedPrefix. by rewrite output_base. Qed.
Lemma outer_target : outerTarget output = controlName name +:+ "/current".
Proof.
  unfold outerTarget. rewrite control_path, Base_abs by apply control_plain. unfold PathJoin. pose proof control_plain as Hc.
  rewrite !filter_cons_True by (done || by destruct Hc). rewrite filter_nil. change (Join [controlName name; "current"] "/") with (controlName name +:+ String "/" "current").
  apply Clean_plain, plainPath_slash; by apply plain_component_single.
Qed.
Lemma lock_path : lockFile output = abs (base ++ [lockName name]).
Proof. unfold lockFile. rewrite output_parent, output_base. apply PathJoin_entry; [done|]. by apply dotted_plain. Qed.

Lemma managed_link link : managedLink output link = true → ∃ r, link = "../" +:+ r ∧ Base link = r ∧ plain_component r ∧ isRelease name r = true.
Proof.
  unfold managedLink. rewrite prefix_is_stem. intros [[_ E%bool_decide_eq_true]%andb_true_iff Hp]%andb_true_iff.
  assert (Hs : mem_byte "/" (Base link) = false).
  { unfold Base. case_bool_decide; [done|]. cbn zeta. case_bool_decide as Ht.
    - exfalso. unfold Base in Hp. rewrite bool_decide_eq_false_2 in Hp by done. cbn zeta in Hp. rewrite bool_decide_eq_true_2 in Hp by done. done.
    - destruct (cut_last_byte "/" _) as [[a b]|] eqn:Ec; [by apply cut_last_byte_some in Ec as [_ ?]|by apply cut_last_byte_none]. }
  assert (Hr : plain_component (Base link)) by by apply (isRelease_plain name).
  exists (Base link). split_and!; try done. rewrite E at 1. by apply PathJoin_up.
Qed.
End names.

(** ** What the calls change *)

Lemma under_spec p q : under p q = true ↔ ∃ l, q = p ++ l.
Proof. unfold under. rewrite bool_decide_eq_true. done. Qed.

Lemma lookup_cleared p fs q : cleared p fs !! q = if under p q then None else fs !! q.
Proof.
  unfold cleared. destruct (under p q) eqn:E.
  - apply map_lookup_filter_None. right. intros e _. cbn. by rewrite E.
  - destruct (fs !! q) as [e|] eqn:Eq; [by apply map_lookup_filter_Some|]. apply map_lookup_filter_None. by left.
Qed.
Lemma lookup_clearedBut left p d q : under p q = false → files (clearedBut left p d) !! q = files d !! q.
Proof.
  intros E. cbn. destruct (files d !! q) as [e|] eqn:Eq; [apply map_lookup_filter_Some; auto|]. apply map_lookup_filter_None. by left.
Qed.
Lemma lookup_mkdirAt p fs q : mkdirAt p fs !! q = if bool_decide (q = p) then Some Directory else if under p q then None else fs !! q.
Proof. unfold mkdirAt. case_bool_decide as E; [subst; by rewrite lookup_insert_eq|]. by rewrite lookup_insert_ne, lookup_cleared. Qed.

Lemma creating_spec p f fs fs' : creating p f fs = inr (fs', ()) → fs' = f fs ∧ fs !! p = None ∧ isDirectory fs (parentOf p) = true.
Proof.
  unfold creating, creatable. destruct (bool_decide (is_Some (fs !! p))) eqn:E1; [done|]. destruct (bool_decide (p = [])); [done|]. cbn [orb].
  destruct (isDirectory fs (parentOf p)) eqn:E2; [|done]. intros [= <-]. split_and!; try done.
  apply bool_decide_eq_false in E1. by apply eq_None_not_Some.
Qed.

(** [MkdirAll] only adds directories, and each of those it names has its parent. *)
Lemma mkdirsAt_spec done todo fs fs' :
  mkdirsAt done todo fs = inr fs' →
  (∀ p, fs' !! p = fs !! p ∨ (fs !! p = None ∧ fs' !! p = Some Directory ∧ ∃ k x j, p = done ++ k ++ [x] ∧ todo = k ++ x :: j)) ∧
  (∀ k x j, todo = k ++ x :: j → fs' !! (done ++ k ++ [x]) = Some Directory).
Proof.
  revert done fs. induction todo as [|y todo IH]; intros done fs; cbn [mkdirsAt].
  { intros [= <-]. split; [by left|]. intros k x j E. by destruct k. }
  assert (Hstep : ∀ fs1, fs1 !! (done ++ [y]) = Some Directory →
    (∀ p, fs1 !! p = fs !! p ∨ (fs !! p = None ∧ fs1 !! p = Some Directory ∧ p = done ++ [y])) →
    mkdirsAt (done ++ [y]) todo fs1 = inr fs' →
    (∀ p, fs' !! p = fs !! p ∨ (fs !! p = None ∧ fs' !! p = Some Directory ∧ ∃ k x j, p = done ++ k ++ [x] ∧ y :: todo = k ++ x :: j)) ∧
    (∀ k x j, y :: todo = k ++ x :: j → fs' !! (done ++ k ++ [x]) = Some Directory)).
  { intros fs1 Hy Hfs1 E. destruct (IH _ _ E) as [H1 H2]. assert (Hkeep : ∀ p, fs1 !! p = Some Directory → fs' !! p = Some Directory).
    { intros p Hp. destruct (H1 p) as [->|(? & -> & _)]; done. }
    split.
    - intros p. destruct (Hfs1 p) as [E1|(E1 & E2 & ->)].
      + destruct (H1 p) as [->|(E2 & E3 & k & x & j & -> & ->)]; [by left|]. right. rewrite <- E1. split_and!; try done.
        exists (y :: k), x, j. by rewrite <- app_assoc.
      + right. split_and!; [done|by apply Hkeep|]. by exists [], y, todo.
    - intros [|z k] x j [= -> Hj]; [by apply Hkeep|]. specialize (H2 k x j Hj). by rewrite <- app_assoc in H2. }
  destruct (fs !! (done ++ [y])) as [[| | |]|] eqn:Ey; try done; apply Hstep; rewrite ?lookup_insert_eq; try done; [by left|].
  intros p. destruct (decide (p = done ++ [y])) as [->|Hne]; [right; by rewrite lookup_insert_eq|left; by rewrite lookup_insert_ne].
Qed.

Lemma mkdirsAt_only done todo fs fs' p : mkdirsAt done todo fs = inr fs' → ¬ p `prefix_of` (done ++ todo) → fs' !! p = fs !! p.
Proof.
  intros [E _]%mkdirsAt_spec Hp. destruct (E p) as [?|(_ & _ & k & x & j & -> & ->)]; [done|]. exfalso. apply Hp.
  exists j. by rewrite <- !app_assoc.
Qed.

(** The exchange of two entries of which neither is below the other. *)
Lemma exchanged_involutive p q r : under p q = false → under q p = false → exchanged p q (exchanged p q r) = r.
Proof.
  intros Hpq Hqp. unfold exchanged. destruct (under p r) eqn:E1.
  - apply under_spec in E1 as [l ->]. rewrite drop_app_length. destruct (under p (q ++ l)) eqn:E2.
    + exfalso. apply under_spec in E2 as [k E]. apply app_eq_inv in E as [(j & -> & ->)|(j & -> & ->)].
      * assert (under p (p ++ j) = true) by by apply under_spec; exists j. congruence.
      * assert (under q (q ++ j) = true) by by apply under_spec; exists j. congruence.
    + assert (under q (q ++ l) = true) as -> by by apply under_spec; exists l. by rewrite drop_app_length.
  - destruct (under q r) eqn:E2; [|by rewrite E1, E2]. apply under_spec in E2 as [l ->]. rewrite drop_app_length.
    assert (under p (p ++ l) = true) as -> by by apply under_spec; exists l. by rewrite drop_app_length.
Qed.
Lemma lookup_exchanged p q (fs : FS) r : under p q = false → under q p = false → (kmap (exchanged p q) fs : FS) !! r = fs !! exchanged p q r.
Proof.
  intros Hpq Hqp. assert (Inj (=) (=) (exchanged p q)) by (intros a b E; by rewrite <- (exchanged_involutive p q a), E, exchanged_involutive).
  rewrite <- (exchanged_involutive p q r) at 1 by done. by rewrite lookup_kmap.
Qed.

(** ** The states of a publication *)

Section states.
Context `{HashLib} (base : list string) (name : string) (fs0 : FS).

Definition atOutput : list string := base ++ [name].
Definition atControl : list string := base ++ [controlName name].
Definition atCurrent : list string := base ++ [controlName name; "current"].

(** As it was at the start: the output is, and where there is one, so is everything it
    leads to. *)
Definition asBefore (fs : FS) : Prop :=
  fs !! atOutput = fs0 !! atOutput ∧
  (fs0 !! atOutput ≠ None →
   fs !! atControl = fs0 !! atControl ∧ fs !! atCurrent = fs0 !! atCurrent ∧
   ∀ r l, isRelease name r = true → fs0 !! (base ++ [r]) ≠ None → fs !! (base ++ r :: l) = fs0 !! (base ++ r :: l)).

(** The output leads to the release [r]. *)
Definition leadsTo (r : string) (fs : FS) : Prop :=
  fs !! atOutput = Some (Symlink (controlName name +:+ "/current")) ∧ fs !! atControl = Some Directory ∧
  fs !! atCurrent = Some (Symlink ("../" +:+ r)).

(** The release [r] holds the files written, each with its size and digest, in the
    directories they need, and nothing else. *)
Definition holdsFile (r : string) (fs : FS) (file : DomainFile) : Prop :=
  ∃ content, fs !! (base ++ r :: Split "/" (df_Path file)) = Some (Regular content) ∧
    Z.of_nat (String.length content) = df_Size file ∧ SHA256Hex content = df_SHA256 file.
Definition filledIn (written : list DomainFile) (r : string) (fs : FS) : Prop :=
  ∀ file, file ∈ written → plainPath (df_Path file) → holdsFile r fs file.
Definition shaped (written : list DomainFile) (r : string) (fs : FS) : Prop :=
  fs !! (base ++ [r]) = Some Directory ∧
  ∀ l x e, fs !! (base ++ r :: l ++ [x]) = Some e →
    fs !! (base ++ r :: l) = Some Directory ∧ (e = Directory ∨ ∃ file, file ∈ written ∧ l ++ [x] = Split "/" (df_Path file)).
Definition complete (written : list DomainFile) (r : string) (fs : FS) : Prop := shaped written r fs ∧ filledIn written r fs.

Definition ownedPath : list string → Prop := ownedBy base name.

Lemma owned_output : ownedPath atOutput.
Proof. exists name, []. auto. Qed.
Lemma owned_control : ownedPath atControl.
Proof. exists (controlName name), []. auto. Qed.
Lemma owned_inside x : ownedPath (base ++ [controlName name; x]).
Proof. exists (controlName name), [x]. auto. Qed.
Lemma owned_current : ownedPath atCurrent.
Proof. apply owned_inside. Qed.
Lemma owned_release r l : isRelease name r = true → ownedPath (base ++ r :: l).
Proof. exists r, l. auto. Qed.

Lemma local_asBefore : local ownedPath asBefore.
Proof.
  intros fs fs' E [Ho Hr]. split; [by rewrite <- E by apply owned_output|]. intros Hn. destruct (Hr Hn) as (Hc & Hu & Ht). split_and!.
  - by rewrite <- E by apply owned_control.
  - by rewrite <- E by apply owned_current.
  - intros r l Hrel Hex. rewrite <- E by by apply owned_release. by apply Ht.
Qed.
Lemma local_leadsTo r : local ownedPath (leadsTo r).
Proof. intros fs fs' E (Ho & Hc & Hu). split_and!; rewrite <- E by eauto using owned_output, owned_control, owned_current; done. Qed.
Lemma local_shaped written r : isRelease name r = true → local ownedPath (shaped written r).
Proof.
  intros Hr fs fs' E [Hd Hn]. split; [by rewrite <- E by by apply owned_release|].
  intros l x e. rewrite <- !E by by apply owned_release. apply Hn.
Qed.
Lemma local_filledIn written r : isRelease name r = true → local ownedPath (filledIn written r).
Proof.
  intros Hr fs fs' E Hf file Hin Hp. destruct (Hf file Hin Hp) as (content & Ec & Hx). exists content. by rewrite <- E by by apply owned_release.
Qed.
Lemma local_complete written r : isRelease name r = true → local ownedPath (complete written r).
Proof. intros Hr fs fs' E [Hs Hf]. split; [by eapply local_shaped|by eapply local_filledIn]. Qed.
Lemma shaped_more written more r fs : shaped written r fs → shaped (written ++ more) r fs.
Proof.
  intros [Hd Hn]. split; [done|]. intros l x e He. destruct (Hn l x e He) as [Hp [?|(file & Hin & Hs)]]; split; auto. right. exists file. split; [|done].
  apply elem_of_app. by left.
Qed.
Lemma local_lookup (p : list string) (Q : option Entry → Prop) : ownedPath p → local ownedPath (λ fs, Q (fs !! p)).
Proof. intros Hp fs fs' E. by rewrite (E p Hp). Qed.
Lemma local_and (P Q : FS → Prop) : local ownedPath P → local ownedPath Q → local ownedPath (λ fs, P fs ∧ Q fs).
Proof. intros HP HQ fs fs' E [Hp Hq]. split; [by apply (HP fs)|by apply (HQ fs)]. Qed.
Lemma local_pure (Q : Prop) : local ownedPath (λ _, Q).
Proof. by intros fs fs' _. Qed.

(** A release that was not there is no part of what was. *)
Definition freshRelease (r : string) : Prop := isRelease name r = true ∧ (fs0 !! atOutput ≠ None → fs0 !! (base ++ [r]) = None).

Lemma base_inj x y (l k : list string) : base ++ x :: l = base ++ y :: k → x = y ∧ l = k.
Proof. intros E%app_inv_head. by injection E. Qed.

Lemma asBefore_frame r fs fs' :
  freshRelease r → (∀ p, ownedPath p → (∀ l, p ≠ base ++ r :: l) → fs' !! p = fs !! p) → asBefore fs → asBefore fs'.
Proof.
  intros [Hr Hnew] Hf [Ho Hx].
  assert (Hname : r ≠ name) by (intros ->; pose proof (isRelease_not_name name); congruence).
  assert (Hctl : r ≠ controlName name) by (intros ->; pose proof (isRelease_not_control name); congruence).
  assert (Hkeep : ∀ x l, ownedPath (base ++ x :: l) → x ≠ r → fs' !! (base ++ x :: l) = fs !! (base ++ x :: l)).
  { intros x l Hp Hne. apply Hf; [done|]. intros k E%base_inj. by destruct E as [? _]. }
  split; [unfold atOutput; rewrite Hkeep; [done|apply owned_output|done]|]. intros Hn. destruct (Hx Hn) as (Hc & Hu & Ht). split_and!.
  - unfold atControl. rewrite Hkeep; [done|apply owned_control|done].
  - unfold atCurrent. rewrite Hkeep; [done|apply owned_current|done].
  - intros s l Hs Hex. rewrite Hkeep; [by apply Ht|by apply owned_release|]. intros ->. by apply Hex, Hnew.
Qed.
End states.

(** ** Following links *)

Lemma maximumLinks_enough : ∃ n, maximumLinks = S (S (S n)).
Proof. by eexists. Qed.
Lemma follow_none n (fs : FS) p : fs !! components p = None → follow (S n) fs p = inl NotExist.
Proof. cbn [follow]. by intros ->. Qed.
Lemma follow_link n (fs : FS) p t : fs !! components p = Some (Symlink t) →
  follow (S n) fs p = follow n fs (if IsAbs t then Clean t else PathJoin [PathDir p; t]).
Proof. cbn [follow]. by intros ->. Qed.
Lemma follow_entry n (fs : FS) p e : fs !! components p = Some e → (∀ t, e ≠ Symlink t) → follow (S n) fs p = inr p.
Proof. cbn [follow]. intros -> He. destruct e as [| |t|]; try done. by destruct (He t). Qed.

(** ** Reading *)

Section reading.
Context `{HashLib, TimeLib, !TreeLib} (m : Machine) (owned : list string → Prop) (C : FS → Prop).
Hypothesis undisturbed : ∀ n fs p, owned p → between m n fs !! p = fs !! p.

Lemma steady_reads {A : Type} (f : nat → FS → Errno + A) : steady owned C (look m f).
Proof. by apply steady_look. Qed.
Lemma steady_syncDirectory p : steady owned C (syncDirectory m p).
Proof. apply steady_disk; [done|]. intros n d d' a. destruct (isDirectory _ _); [|done]. by intros [= <-]. Qed.
Lemma steady_SyncFile p : steady owned C (SyncFile m p).
Proof. apply steady_disk; [done|]. intros n d d' a. destruct (files d !! _) as [[]|]; try done. by intros [= <-]. Qed.

Lemma steady_readManifest root : steady owned C (readManifest m root).
Proof. apply steady_bind; [apply steady_reads|]. intros content. apply steady_bind; [apply steady_throw_when|]. intros _. apply steady_ret. Qed.
Lemma steady_decodeManifest content : steady owned C (decodeManifest content).
Proof. unfold decodeManifest. destruct (DecodeRepositoryManifest content); auto using steady_ret, steady_throw. Qed.
Lemma steady_hashRepositoryFile root p : steady owned C (hashRepositoryFile m root p).
Proof.
  apply steady_bind; [apply steady_reads|]. intros [|content|t|]; try apply steady_throw.
  apply steady_bind; [apply steady_reads|]. intros c. apply steady_ret.
Qed.
Lemma steady_verifyFiles root previous l : steady owned C (verifyFiles m root previous l).
Proof.
  revert previous. induction l as [|file l IH]; intros previous; [apply steady_ret|]. apply steady_bind; [apply steady_throw_when|]. intros _.
  apply steady_bind; [apply steady_hashRepositoryFile|]. intros [size digest]. apply steady_bind; [apply steady_throw_when|]. intros _. apply IH.
Qed.
Lemma steady_rejectUnexpectedFiles root expected : steady owned C (rejectUnexpectedFiles m root expected).
Proof.
  apply steady_bind; [apply steady_reads|]. intros entries. apply steady_bind; [apply steady_throw_when|]. intros _. cbn zeta.
  destruct (crossOff _ _); auto using steady_throw_when, steady_throw.
Qed.
Lemma steady_structure format : steady owned C (if structureChecked format then verifyStructure m else mret ()).
Proof. destruct (structureChecked format); [apply steady_reads|apply steady_ret]. Qed.

Lemma steady_VerifyRepository root : steady owned C (VerifyRepository m root).
Proof.
  apply steady_bind; [apply steady_reads|]. intros absolute. apply steady_bind; [apply steady_readManifest|]. intros content.
  apply steady_bind; [apply steady_decodeManifest|]. intros manifest. apply steady_bind; [apply steady_throw_when|]. intros _.
  apply steady_bind; [apply steady_verifyFiles|]. intros _. apply steady_bind; [apply steady_throw_when|]. intros _.
  apply steady_bind; [apply steady_rejectUnexpectedFiles|]. intros _. apply steady_bind; [apply steady_structure|]. intros _. apply steady_ret.
Qed.

Lemma steady_syncTreeDirectories root : steady owned C (syncTreeDirectories m root).
Proof. apply steady_bind; [apply steady_reads|]. intros entries. apply steady_forEach. intros p. apply steady_syncDirectory. Qed.

(** ** What a verified directory is *)

Section verified.
Context (P : FS → Prop) (l : list string).
Context (Hl : Forall plain_component l) (Hom : owned (l ++ [ManifestFilename])).
Context (HP : local owned P) (HC : ∀ fs, P fs → C fs) (Hd : ∀ fs, P fs → fs !! l = Some Directory).
Let p := l ++ [ManifestFilename].

(** The manifest read is in a regular file of the directory, or behind a link of it. *)
Definition readFrom (content : string) (fs : FS) : Prop := P fs ∧ (fs !! p = Some (Regular content) ∨ ∃ t, fs !! p = Some (Symlink t)).
Definition keptIn (content : string) (fs : FS) : Prop := P fs ∧ fs !! p = Some (Regular content).

Lemma local_readFrom content : local owned (readFrom content).
Proof. intros fs fs' E [Hfs Hx]. split; [by apply (HP fs)|]. by rewrite <- (E p Hom). Qed.
Lemma local_keptIn content : local owned (keptIn content).
Proof. intros fs fs' E [Hfs Hx]. split; [by apply (HP fs)|]. by rewrite <- (E p Hom). Qed.

Lemma plain_manifest : Forall plain_component p.
Proof. apply Forall_app. split; [done|]. by repeat constructor. Qed.

Lemma resolves_itself : holds C P (EvalSymlinks m (Abs m (abs l))) (λ r fs, P fs ∧ ∀ a, r = inr a → a = abs l).
Proof.
  assert (Abs m (abs l) = abs l) as ->.
  { unfold Abs, IsAbs. rewrite abs_rooted. apply Clean_abs; [apply abs_rooted|by apply Split_abs|done]. }
  apply (holds_look m owned C undisturbed); [done..|by split|].
  intros _ fs Hfs. destruct maximumLinks_enough as [k ->]. rewrite (follow_entry _ fs (abs l) Directory); [|by rewrite components_abs by done; apply Hd|done].
  split; [done|]. by intros a [= <-].
Qed.

Lemma manifest_read : holds C P (readManifest m (abs l)) (λ r fs, P fs ∧ ∀ content, r = inr content → readFrom content fs).
Proof.
  unfold readManifest. rewrite PathJoin_entry by done. eapply holds_bind with (R := λ r fs, P fs ∧ ∀ content, r = inr content → readFrom content fs).
  - apply (holds_look m owned C undisturbed); [done..|by split|]. intros _ fs Hfs. split; [done|]. intros content.
    pose proof (components_abs p plain_manifest) as Ecp. fold p. destruct maximumLinks_enough as [k ->].
    destruct (fs !! p) as [e|] eqn:Ep; [|by rewrite follow_none by by rewrite Ecp].
    destruct e as [|c|t|]; [| |intros _; split; [done|]; right; by exists t|];
      (rewrite (follow_entry _ fs (abs p) _ ltac:(rewrite Ecp; exact Ep)), Ecp, Ep by done); try done.
    intros [= ->]. split; [done|]. by left.
  - intros e fs [Hfs _]. by split.
  - intros content. apply holds_check; [by intros fs [Hfs _]; split|]. intros _. apply holds_ret. intros fs [Hfs Hc]. split; [done|].
    intros c [= <-]. by apply Hc.
Qed.

(** No link passes the walk. *)
Lemma no_link_passes content expected :
  holds C (readFrom content) (rejectUnexpectedFiles m (abs l) expected) (λ r fs, P fs ∧ ∀ u, r = inr u → keptIn content fs).
Proof.
  unfold rejectUnexpectedFiles. set (linked := λ x : list string * Entry, match x.2 with Symlink _ | Special => true | _ => false end).
  eapply holds_bind with (R := λ r fs, readFrom content fs ∧ ∀ entries, r = inr entries → existsb linked entries = false → keptIn content fs).
  - apply (holds_look m owned C undisturbed); [apply local_readFrom|by intros fs [Hfs _]; apply HC|by split|].
    intros _ fs Hfs. split; [done|]. destruct Hfs as [Hfs Hx]. rewrite components_abs by done. intros entries.
    destruct (isDirectory fs l); [|done]. intros [= <-] Hnone. split; [done|]. destruct Hx as [?|[t Et]]; [done|]. exfalso.
    assert (existsb linked (below fs l) = true); [|congruence]. apply existsb_exists. exists ([ManifestFilename], Symlink t). split; [|done].
    apply list_elem_of_In. unfold below. apply list_elem_of_omap. exists (p, Symlink t). split; [by apply elem_of_map_to_list|].
    assert (under l p = true) as -> by (apply under_spec; by eexists). rewrite bool_decide_eq_false_2; [|intros E; apply (f_equal length) in E; unfold p in E; rewrite length_app in E; cbn in E; lia].
    cbn. unfold p. by rewrite drop_app_length.
  - intros e fs [[Hfs _] _]. by split.
  - intros entries. apply holds_check; [by intros fs [[Hfs _] _]; split|]. intros Hnone. cbn zeta.
    destruct (crossOff _ _) as [missing|]; [|by apply holds_throw; intros fs [[Hfs _] _]; split].
    unfold throw_when. destruct (negb _); [apply holds_throw; intros fs [[Hfs _] _]; by split|]. apply holds_ret. intros fs [[Hfs _] Hk]. split; [done|].
    intros u _. by apply (Hk entries).
Qed.

Lemma verified_manifest :
  holds C P (VerifyRepository m (abs l)) (λ r fs, P fs ∧ ∀ manifest, r = inr manifest →
    ∃ content, fs !! p = Some (Regular content) ∧ DecodeRepositoryManifest content = Some manifest).
Proof.
  unfold VerifyRepository. eapply holds_bind; [apply resolves_itself|by intros e fs [Hfs _]; split|]. intros absolute.
  eapply holds_pre; [apply (holds_given C (absolute = abs l) P)|by intros fs [Hfs Ha]; split; [by apply Ha|]]. intros ->.
  eapply holds_bind; [apply manifest_read|by intros e fs [Hfs _]; split|]. intros content.
  eapply holds_pre with (P := readFrom content); [|by intros fs [_ Hc]; apply Hc].
  assert (Hgo : ∀ {A B : Type} (act : IO A) (f : A → IO B) Q, steady owned C act → (∀ e fs, P fs → Q (inl e) fs) →
    (∀ a, holds C (readFrom content) (f a) Q) → holds C (readFrom content) (act ≫= f) Q).
  { intros A B act f Q Ha He Hf. eapply (steady_then owned C); [done|apply local_readFrom|by intros fs [Hfs _]; apply HC| |done].
    intros e fs [Hfs _]. by apply He. }
  unfold decodeManifest. destruct (DecodeRepositoryManifest content) as [manifest|] eqn:Em; [|by apply holds_throw; intros fs [Hfs _]; split].
  apply holds_ret_bind. apply Hgo; [apply steady_throw_when|by split|]. intros _. apply Hgo; [apply steady_verifyFiles|by split|]. intros _.
  apply Hgo; [apply steady_throw_when|by split|]. intros _.
  eapply holds_bind; [apply no_link_passes|by intros e fs [Hfs _]; split|]. intros u.
  eapply holds_pre with (P := keptIn content); [|by intros fs [_ Hc]; eapply Hc].
  eapply (steady_then owned C); [apply steady_structure|apply local_keptIn|by intros fs [Hfs _]; apply HC|by intros e fs [Hfs _]; split|].
  intros _. apply holds_ret. intros fs [Hfs Hk]. split; [done|]. intros ? [= <-]. by exists content.
Qed.
End verified.
End reading.
