(* ===== verification/MaterializeProofs.v ===== *)
(** A local publication is atomic at every moment: what the output shows is the tree that
    was there or the whole new one, whenever the process dies and whichever call fails. *)

From S2P Require Import Prelude GoStrings GoSlices Model Formats JsonStrict PlanJson Manifest ManifestProofs Host S3Store S3Keys S3 S3KeyProofs Rsync RsyncPaths.
From S2P Require Import FileSystem VerifyTree Materialize PublishLogic.

Open Scope Z_scope.

Section run.
Context `{HashLib, TimeLib, !TreeLib} (m : Machine) (base : list string) (name : string).
Context (Hbase : Forall plain_component base) (Hname : plain_component name).
Hypothesis suffix_plain : ∀ n, mem_byte "/" (suffix m n) = false.
Hypothesis undisturbed : ∀ n fs p, ownedBy base name p → between m n fs !! p = fs !! p.
Context (fs0 : FS) (written : list DomainFile) (expected : option string).

Let output := abs (base ++ [name]).
Local Abbreviation owned := (ownedBy base name).
Local Abbreviation asBefore := (asBefore base name fs0).
Local Abbreviation leadsTo := (leadsTo base name).
Local Abbreviation complete := (complete base).
Local Abbreviation atOutput := (atOutput base name).
Local Abbreviation atControl := (atControl base name).
Local Abbreviation atCurrent := (atCurrent base name).

(** What is published at the start, if anything is, is a release directory. *)
Hypothesis starts_managed : ∀ r, leadsTo r fs0 → isRelease name r = true → fs0 !! (base ++ [r]) = Some Directory.

(** The tree the manifest of the release [r] declares. *)
Definition declaresTree (r tree : string) : Prop :=
  ∃ content manifest, fs0 !! (base ++ [r; ManifestFilename]) = Some (Regular content) ∧
    DecodeRepositoryManifest content = Some manifest ∧ rm_TreeSHA256 manifest = tree.
(** What [currentManagedRelease] finds. *)
Definition found (link tree : string) : Prop :=
  (link = "" ∧ tree = "" ∧ fs0 !! atOutput = None) ∨
  ∃ r, link = "../" +:+ r ∧ plain_component r ∧ isRelease name r = true ∧ leadsTo r fs0 ∧ declaresTree r tree.
(** A publication replaces the tree it expects. *)
Definition replaces : Prop := match expected with None => True | Some tree => ∃ link, found link tree end.

Definition published (fs : FS) : Prop := replaces ∧ ∃ r, isRelease name r = true ∧ plain_component r ∧ leadsTo r fs ∧ complete written r fs.
Definition atomic (fs : FS) : Prop := asBefore fs ∨ published fs.

Local Abbreviation holds := (holds atomic).
Local Abbreviation steady := (steady owned atomic).

Lemma before_atomic fs : asBefore fs → atomic fs.
Proof. by left. Qed.

Lemma components_output : components output = atOutput.
Proof. apply components_abs, Forall_app. split; [done|by constructor]. Qed.
Lemma components_control : components (controlDirectory output) = atControl.
Proof. unfold output. rewrite control_path by done. apply components_abs, Forall_app. split; [done|]. by constructor; [apply control_plain|]. Qed.
Lemma components_inside x : plain_component x → components (PathJoin [controlDirectory output; x]) = base ++ [controlName name; x].
Proof.
  intros Hx. assert (Hc : Forall plain_component (base ++ [controlName name])) by (apply Forall_app; split; [done|]; by constructor; [apply control_plain|]).
  unfold output. rewrite control_path, PathJoin_entry by done. rewrite components_abs by (apply Forall_app; split; [done|by constructor]).
  by rewrite <- app_assoc.
Qed.
Lemma components_current : components (PathJoin [controlDirectory output; "current"]) = atCurrent.
Proof. by apply components_inside. Qed.
Lemma components_release r : plain_component r → components (abs (base ++ [r])) = base ++ [r].
Proof. intros Hr. apply components_abs, Forall_app. split; [done|by constructor]. Qed.

(** ** The current release *)

Section present.
Context (P : FS → Prop) (HP : local owned P) (Hbefore : ∀ fs, P fs → asBefore fs) (Hpresent : fs0 !! atOutput ≠ None).

Lemma PC fs : P fs → atomic fs.
Proof. intros Hfs. by apply before_atomic, Hbefore. Qed.

Lemma current_present :
  holds P (currentManagedRelease m output) (λ r fs, P fs ∧ ∀ link tree, r = inr (link, tree) → found link tree).
Proof.
  assert (HPC := PC). assert (Hctl := control_plain name Hname).
  assert (Ho : ∀ fs, P fs → fs !! atOutput = fs0 !! atOutput) by (intros fs Hfs; by destruct (Hbefore fs Hfs)).
  assert (Hk : ∀ fs, P fs → fs !! atControl = fs0 !! atControl) by (intros fs Hfs; by destruct (Hbefore fs Hfs) as [_ (? & ? & ?)]).
  assert (Hu : ∀ fs, P fs → fs !! atCurrent = fs0 !! atCurrent) by (intros fs Hfs; by destruct (Hbefore fs Hfs) as [_ (? & ? & ?)]).
  pose proof components_output as Eo. pose proof components_control as Ek. pose proof components_current as Eu.
  unfold currentManagedRelease. cbn zeta.
  apply (tried_then m owned atomic undisturbed (λ v, v ≠ inl NotExist ∧ ∀ e, v = inr e → fs0 !! atOutput = Some e)); [done|done|done| |].
  { intros _ fs Hfs. rewrite Eo, Ho by done. destruct (fs0 !! atOutput); [|done]. split; [done|]. by intros ? [= ->]. }
  intros [[]|[|c|t|]] [Hv He]; try (by apply holds_throw); [done|]. specialize (He _ eq_refl).
  apply (look_then m owned atomic undisturbed (λ outerLink, fs0 !! atOutput = Some (Symlink outerLink))); [done|done|done| |].
  { intros _ fs outerLink Hfs. rewrite Eo, Ho, He by done. by intros [= ->]. }
  intros outerLink Eouter. apply holds_check; [done|]. intros Et%negb_false_iff%bool_decide_eq_true. unfold output in Et. rewrite outer_target in Et by done.
  apply (look_then m owned atomic undisturbed (λ info, fs0 !! atControl = Some info)); [done|done|done| |].
  { intros _ fs info Hfs. rewrite Ek, Hk by done. destruct (fs0 !! atControl); [|done]. by intros [= ->]. }
  intros info Einfo. apply holds_check; [done|]. intros Ed%negb_false_iff%bool_decide_eq_true.
  apply (look_then m owned atomic undisturbed (λ link, fs0 !! atCurrent = Some (Symlink link))); [done|done|done| |].
  { intros _ fs link Hfs. rewrite Eu, Hu by done. destruct (fs0 !! atCurrent) as [[]|]; try done. by intros [= ->]. }
  intros link Elink. apply holds_check; [done|]. intros Hm%negb_false_iff. apply (managed_link base name Hname) in Hm as (r & -> & _ & Hr & Hrel).
  subst outerLink info. assert (Hleads : leadsTo r fs0) by done. pose proof (starts_managed r Hleads Hrel) as Hdir.
  unfold output. rewrite control_path, PathJoin_beside by done.
  assert (Hsame : ∀ fs l, P fs → fs !! (base ++ r :: l) = fs0 !! (base ++ r :: l)).
  { intros fs l Hfs. destruct (Hbefore fs Hfs) as [_ (_ & _ & Ht)]; [done|]. apply Ht; [done|]. by rewrite Hdir. }
  eapply holds_bind; [apply (verified_manifest m owned atomic undisturbed P (base ++ [r]))| |].
  - apply Forall_app. split; [done|by constructor].
  - rewrite <- app_assoc. by apply (owned_release base name r [ManifestFilename]).
  - done.
  - done.
  - intros fs Hfs. by rewrite Hsame.
  - intros e fs [Hfs _]. by split.
  - intros manifest. apply holds_ret. intros fs [Hfs Hman]. split; [done|]. intros link tree [= <- <-]. right. exists r. split_and!; try done.
    destruct (Hman manifest eq_refl) as (content & Ec & Ed). exists content, manifest. split_and!; try done.
    rewrite <- (Hsame fs [ManifestFilename]) by done. by rewrite <- Ec, <- app_assoc.
Qed.
End present.

(** Where there is no output, what is left of an earlier publication may be removed. *)
Section absent.
Context (Habsent : fs0 !! atOutput = None).
Let P (fs : FS) : Prop := fs !! atOutput = None.

Lemma absent_before fs : P fs → asBefore fs.
Proof. intros Hfs. split; [by rewrite Habsent|]. by rewrite Habsent. Qed.
Lemma absent_local : local owned P.
Proof. apply (local_lookup base name atOutput (λ e, e = None)), owned_output. Qed.
Lemma absent_atomic fs : P fs → atomic fs.
Proof. intros Hfs. by apply before_atomic, absent_before. Qed.

Lemma absent_steady {A : Type} (act : IO A) : steady act → holds P act (λ _, P).
Proof. intros Ha. apply Ha; [apply absent_local|apply absent_atomic]. Qed.
Lemma absent_bind {A B : Type} (act : IO A) (f : A → IO B) : holds P act (λ _, P) → (∀ a, holds P (f a) (λ _, P)) → holds P (act ≫= f) (λ _, P).
Proof. intros Ha Hf. by eapply holds_bind. Qed.
Lemma absent_remove p : components p ≠ atOutput → holds P (Remove m p) (λ _, P).
Proof.
  intros Hp. apply (holds_change m owned atomic undisturbed); [apply absent_local|apply absent_atomic|done|].
  intros _ fs Hfs. destruct (fs !! components p); [|done]. case_bool_decide; [|done].
  assert (P (delete (components p) fs)) by (unfold P; by rewrite lookup_delete_ne). split; [by apply absent_atomic|done].
Qed.
Lemma absent_removeAll p : under (components p) atOutput = false → holds P (RemoveAll m p) (λ _, P).
Proof.
  intros Hp. assert (Hk : ∀ left d, P (files d) → P (files (clearedBut left (components p) d))) by (intros left d Hd; unfold P; by rewrite lookup_clearedBut).
  apply (holds_call m owned atomic undisturbed); [apply absent_local|]. intros n d Hd. split_and!; eauto using absent_atomic.
Qed.

Lemma control_ne x l : base ++ controlName name :: x ≠ base ++ name :: l.
Proof. intros [E _]%base_inj. by apply (controlName_ne name). Qed.
Lemma release_not_above r : isRelease name r = true → under (base ++ [r]) atOutput = false.
Proof.
  intros Hr. apply not_true_iff_false. intros [l E]%under_spec. rewrite <- app_assoc in E. apply base_inj in E as [-> _].
  pose proof (isRelease_not_name r). congruence.
Qed.

Lemma absent_orphans : holds P (removeOrphanedControl m output) (λ _, P).
Proof.
  unfold removeOrphanedControl. cbn zeta. apply absent_bind; [apply absent_steady, steady_reads, undisturbed|]. intros info.
  apply absent_bind; [apply absent_steady, steady_throw_when|]. intros _.
  apply absent_bind; [apply absent_steady, steady_tried, steady_reads, undisturbed|]. intros link.
  eapply holds_bind with (R := λ r fs, P fs ∧ ∀ release, r = inr release → release ≠ "" → under (components release) atOutput = false).
  - destruct link as [[]|link]; try (by apply holds_throw);
      [apply holds_ret; intros fs Hfs; split; [done|]; by intros ? [= <-]|].
    apply holds_check; [done|]. intros Hm%negb_false_iff. apply (managed_link base name Hname) in Hm as (r & -> & Eb & Hr & Hrel).
    assert (Er : PathJoin [PathDir output; Base ("../" +:+ r)] = abs (base ++ [r])).
    { rewrite Eb. unfold output. rewrite output_parent by done. by apply PathJoin_entry. }
    rewrite Er. assert (Hdone : holds P (_ ← Remove m (PathJoin [controlDirectory output; "current"]); mret (abs (base ++ [r])))
      (λ x fs, P fs ∧ ∀ release, x = inr release → release ≠ "" → under (components release) atOutput = false)).
    { eapply holds_bind; [apply absent_remove; rewrite components_current; apply control_ne|by split|]. intros ?. apply holds_ret. intros fs Hfs. split; [done|].
      intros release [= <-] _. rewrite components_release by done. by apply release_not_above. }
    eapply (steady_then owned atomic); [apply steady_tried, steady_reads, undisturbed|apply absent_local|apply absent_atomic|by split|].
    intros found. eapply (steady_then owned atomic P); [|apply absent_local|apply absent_atomic|by split|intros _; exact Hdone].
    destruct found as [[]|]; try apply steady_throw; [apply steady_ret|]. apply steady_bind; [apply steady_VerifyRepository, undisturbed|]. intros _. apply steady_ret.
  - by intros e fs [Hfs _].
  - intros release. eapply holds_pre; [apply (holds_given atomic (release ≠ "" → under (components release) atOutput = false) P)|by intros fs [Hfs Hr]; split; [apply Hr|]].
    intros Hr. apply absent_bind; [apply absent_remove; rewrite components_control; apply control_ne|]. intros _.
    apply absent_bind; [|intros _; apply absent_steady, steady_syncDirectory, undisturbed].
    case_bool_decide as Ee; [by apply holds_ret|]. by apply absent_removeAll, Hr.
Qed.

Lemma current_absent :
  holds P (currentManagedRelease m output) (λ r fs, P fs ∧ ∀ link tree, r = inr (link, tree) → found link tree).
Proof.
  assert (Hnone : ∀ fs, P fs → P fs ∧ ∀ link tree, inr (A := Errno) ("", "") = inr (link, tree) → found link tree).
  { intros fs Hfs. split; [done|]. intros link tree [= <- <-]. by left. }
  unfold currentManagedRelease. cbn zeta.
  apply (tried_then m owned atomic undisturbed (λ v, ∀ e, v ≠ inr e)); [apply absent_local|apply absent_atomic|done| |].
  { intros _ fs Hfs. rewrite components_output, Hfs. done. }
  intros [[]|e] Hv; try (by apply holds_throw); [|by destruct (Hv e)].
  eapply (steady_then owned atomic); [apply steady_tried, steady_reads, undisturbed|apply absent_local|apply absent_atomic|by split|].
  intros [[]|info]; try (by apply holds_throw); [by apply holds_ret|].
  eapply holds_bind; [apply absent_orphans|by split|]. intros ?. by apply holds_ret.
Qed.
End absent.

(** ** Beside the output *)

Lemma owned_deeper p : p `prefix_of` base → ¬ owned p.
Proof. intros [k ->] (x & rest & E & _). apply (f_equal length) in E. rewrite !length_app in E. cbn in E. lia. Qed.

Lemma steady_beside {A : Type} (f : nat → FS → Errno + FS * A) (p : list string) :
  ¬ owned p → (∀ n fs fs' a, f n fs = inr (fs', a) → ∀ q, q ≠ p → fs' !! q = fs !! q) → steady (call m f).
Proof.
  intros Hp Hf. apply steady_change; [apply undisturbed|]. intros n fs fs' a E q Hq. symmetry. eapply Hf; [exact E|]. by intros ->.
Qed.
Lemma steady_MkdirAll p : components p `prefix_of` base → steady (MkdirAll m p).
Proof.
  intros Hp. apply steady_change; [apply undisturbed|]. intros _ fs fs' a. destruct (mkdirsAt _ _ _) as [|fs1] eqn:E; [done|]. intros [= <- _] q Hq.
  symmetry. eapply mkdirsAt_only; [exact E|]. intros Hpre. apply (owned_deeper q); [|done]. cbn in Hpre. by etrans.
Qed.
Lemma creating_beside p f fs fs' a q : creating p f fs = inr (fs', a) → f fs !! q = fs !! q → fs' !! q = fs !! q.
Proof. destruct a. by intros (-> & _ & _)%creating_spec. Qed.
Lemma steady_CreateExclusive p : ¬ owned (components p) → steady (CreateExclusive m p).
Proof. intros Hp. apply (steady_beside _ (components p)); [done|]. intros _ fs fs' a E q Hq. eapply creating_beside; [exact E|]. by rewrite lookup_insert_ne. Qed.
Lemma steady_OpenOrCreate p : ¬ owned (components p) → steady (OpenOrCreate m p).
Proof.
  intros Hp. apply (steady_beside _ (components p)); [done|]. intros _ fs fs' a E q Hq. revert E. destruct (fs !! components p) as [[]|]; intros E; try done; [by injection E as <- _|].
  eapply creating_beside; [exact E|]. by rewrite lookup_insert_ne.
Qed.
Lemma steady_WriteTo p content : ¬ owned (components p) → steady (WriteTo m p content).
Proof.
  intros Hp P HP HC. assert (Hk : ∀ c d, P (files d) → P (files (filled (components p) c d))).
  { intros c d Hd. apply (HP (files d)); [|done]. intros q Hq. cbn. rewrite lookup_alter_ne; [done|]. intros E. apply Hp. by rewrite E. }
  apply (holds_call m owned atomic undisturbed); [done|]. intros n d Hd. split_and!; eauto.
Qed.

Lemma steady_lockOutput : steady (lockOutput m output).
Proof.
  apply steady_bind; [|intros _; by apply steady_reads]. apply steady_OpenOrCreate. unfold output. rewrite lock_path, components_release; [|by apply dotted_plain|done|done].
  destruct (lockName_free name) as (L1 & L2 & L3). intros (x & rest & [<- _]%base_inj & [?|[?|?]]); congruence.
Qed.
Lemma steady_parent : steady (MkdirAll m (abs base)).
Proof. apply steady_MkdirAll. by rewrite components_abs. Qed.

(** ** Writing a release *)

Lemma prefix_release p s l : p `prefix_of` base ++ s :: l → owned p → ∃ k, p = base ++ s :: k.
Proof.
  intros [j E] (x & rest & -> & _). rewrite <- app_assoc in E. apply app_inv_head in E. injection E as -> _. by exists rest.
Qed.

Lemma staging_made :
  holds asBefore (MkdirTemp m (abs base) (releaseStem name)) (λ r fs, asBefore fs ∧ ∀ staging, r = inr staging →
    ∃ s, staging = abs (base ++ [s]) ∧ plain_component s ∧ freshRelease base name fs0 s ∧ complete [] s fs).
Proof.
  apply (holds_change m owned atomic undisturbed); [apply local_asBefore|apply before_atomic|by split|]. intros n fs Hfs.
  set (s := releaseStem name +:+ suffix m n). destruct (release_new name (suffix m n) (suffix_plain n) Hname) as [Hrel Hs]. fold s in Hrel, Hs. cbn zeta.
  rewrite PathJoin_entry, components_release by done.
  destruct (creating _ _ fs) as [e|[fs' []]] eqn:E; [by split|]. apply creating_spec in E as (-> & Hnone & _).
  assert (Hfresh : freshRelease base name fs0 s).
  { split; [done|]. intros Hp. destruct (fs0 !! (base ++ [s])) eqn:E0; [|done]. destruct Hfs as [_ Hr]. destruct (Hr Hp) as (_ & _ & Ht).
    pose proof (Ht s [] Hrel) as Hsame. rewrite E0, Hnone in Hsame. by discriminate Hsame. }
  assert (Hb : asBefore (mkdirAt (base ++ [s]) fs)).
  { apply (asBefore_frame base name fs0 s fs); [done| |done]. intros p _ Hp. rewrite lookup_mkdirAt.
    rewrite bool_decide_eq_false_2 by (intros ->; by apply (Hp [])). destruct (under _ p) eqn:Eu; [|done].
    apply under_spec in Eu as [l ->]. exfalso. apply (Hp l). by rewrite <- app_assoc. }
  split; [by apply before_atomic|]. split; [done|]. intros staging [= <-]. exists s. split_and!; try done. split; [split|].
  - by rewrite lookup_mkdirAt, bool_decide_eq_true_2.
  - intros l x e. rewrite lookup_mkdirAt, bool_decide_eq_false_2; [|intros Eq%app_inv_head; by destruct l].
    assert (under (base ++ [s]) (base ++ s :: l ++ [x]) = true) as ->; [|done]. apply under_spec. exists (l ++ [x]). by rewrite <- app_assoc.
  - by intros file Hin%elem_of_nil.
Qed.

Section writing.
Context (s : string) (Hs : plain_component s) (Hfresh : freshRelease base name fs0 s).
Let Hrel : isRelease name s = true := proj1 Hfresh.

Definition inProgress (done : list DomainFile) (fs : FS) : Prop := asBefore fs ∧ complete done s fs.
Lemma local_inProgress done : local owned (inProgress done).
Proof. apply local_and; [apply local_asBefore|by apply local_complete]. Qed.
Lemma inProgress_atomic done fs : inProgress done fs → atomic fs.
Proof. intros [Hb _]. by apply before_atomic. Qed.

Lemma inside_MkdirAll done l : Forall plain_component l → holds (inProgress done) (MkdirAll m (abs (base ++ s :: l))) (λ _, inProgress done).
Proof.
  intros Hl. apply (holds_change m owned atomic undisturbed); [apply local_inProgress|apply inProgress_atomic|done|]. intros _ fs [Hb [[Hd Hn] Hf]].
  rewrite components_abs by (apply Forall_app; split; [done|by constructor]).
  destruct (mkdirsAt [] (base ++ s :: l) fs) as [e|fs'] eqn:E; [done|]. destruct (mkdirsAt_spec _ _ _ _ E) as [H1' H2'].
  assert (Hkeep : ∀ p e, fs !! p = Some e → fs' !! p = Some e) by (intros p e Ep; destruct (H1' p) as [->|(En & _)]; congruence).
  assert (inProgress done fs'); [|split; [by eapply inProgress_atomic|done]]. split; [|split; [split|]].
  - apply (asBefore_frame base name fs0 s fs); [done| |done]. intros p Hp Hne. destruct (H1' p) as [?|(_ & _ & k & x & j & -> & Ek)]; [done|].
    cbn in Hp, Hne. destruct (prefix_release (k ++ [x]) s l) as [k' Ek']; [exists j; by rewrite <- app_assoc, Ek|done|]. by destruct (Hne k').
  - by apply Hkeep.
  - intros l' x e He. destruct (H1' (base ++ s :: l' ++ [x])) as [Eq|(_ & Ed & k & y & j & Ek & Et)].
    + rewrite Eq in He. destruct (Hn l' x e He) as [Hp Hx]. split; [by apply Hkeep|done].
    + rewrite Ed in He. injection He as <-. split; [|by left]. cbn in Ek.
      rewrite app_comm_cons, app_assoc in Ek. apply app_inj_tail in Ek as [<- <-].
      destruct l' as [|z l' _] using rev_ind; [by apply Hkeep|]. rewrite app_comm_cons, app_assoc in Et |- *. rewrite <- app_assoc in Et.
      apply (H2' _ z (x :: j)). done.
  - intros file Hin Hp. destruct (Hf file Hin Hp) as (content & Ec & Hx). exists content. split; [by apply Hkeep|done].
Qed.

(** A file that is being written: its content is not yet the one planned. *)
Section one.
Context (done : list DomainFile) (file : DomainFile) (Hpath : plainPath (df_Path file)).
Let target : list string := base ++ s :: Split "/" (df_Path file).

Definition beingWritten (content : string) (fs : FS) : Prop :=
  asBefore fs ∧ shaped base (done ++ [file]) s fs ∧ filledIn base done s (delete target fs) ∧ fs !! target = Some (Regular content).
Definition begun (fs : FS) : Prop := ∃ content, beingWritten content fs.

Lemma target_path : PathJoin [abs (base ++ [s]); df_Path file] = abs target ∧ components (abs target) = target.
Proof.
  split; [rewrite PathJoin_one; [by rewrite <- app_assoc|apply Forall_app; split; [done|by constructor]|done]|].
  apply components_abs, Forall_app. split; [done|by constructor].
Qed.
Lemma target_parent : ∃ l x, Split "/" (df_Path file) = l ++ [x] ∧ PathDir (abs target) = abs (base ++ s :: l) ∧ Forall plain_component l.
Proof.
  unfold target. pose proof Hpath as Hp. pose proof (Split_ne (df_Path file)) as Hne. unfold plainPath in Hp.
  destruct (Split "/" (df_Path file)) as [|x l _] using rev_ind; [done|].
  exists l, x. apply Forall_app in Hp as [Hl [Hx _]%Forall_cons]. split_and!; try done. rewrite app_comm_cons, app_assoc.
  apply PathDir_abs; [|done]. apply Forall_app. split; [done|by constructor].
Qed.

Lemma local_beingWritten content : local owned (beingWritten content).
Proof.
  intros fs fs' E (Hb & Hsh & Hf & Ht). split_and!.
  - by eapply local_asBefore.
  - by eapply (local_shaped base name).
  - eapply (local_filledIn base name); [done| |done]. intros p Hp. destruct (decide (p = target)) as [->|Hne]; [by rewrite !lookup_delete_eq|].
    rewrite !lookup_delete_ne by done. by apply E.
  - rewrite <- E; [done|]. by apply owned_release.
Qed.
Lemma local_begun : local owned begun.
Proof. intros fs fs' E [c Hc]. exists c. by eapply local_beingWritten. Qed.
Lemma begun_atomic fs : begun fs → atomic fs.
Proof. intros (c & Hb & _). by apply before_atomic. Qed.

Lemma file_created : holds (inProgress done) (CreateExclusive m (abs target)) (λ r fs, asBefore fs ∧ (r = inr () → beingWritten "" fs)).
Proof.
  destruct target_path as [_ Et]. destruct target_parent as (l & x & El & _ & _).
  apply (holds_change m owned atomic undisturbed); [apply local_inProgress|apply inProgress_atomic|by intros fs [? _]|]. rewrite Et. intros _ fs [Hb [[Hd Hn] Hf]].
  destruct (creating _ _ fs) as [e|[fs' []]] eqn:E; [done|]. apply creating_spec in E as (-> & Hnone & Hdir).
  assert (Hpar : fs !! (base ++ s :: l) = Some Directory).
  { unfold target in Hdir. rewrite El in Hdir. rewrite app_comm_cons, app_assoc in Hdir. unfold parentOf in Hdir. rewrite length_app in Hdir.
    replace (pred (length (base ++ s :: l) + length [x])) with (length (base ++ s :: l)) in Hdir by (cbn; lia). rewrite take_app_length in Hdir.
    unfold isDirectory in Hdir. apply orb_true_iff in Hdir as [Hd'%bool_decide_eq_true|Hd'%bool_decide_eq_true]; [by destruct base|done]. }
  assert (Hb' : asBefore (<[target := Regular ""]> fs)).
  { apply (asBefore_frame base name fs0 s fs); [done| |done]. intros p _ Hp. rewrite lookup_insert_ne; [done|]. intros Eq. by apply (Hp (Split "/" (df_Path file))). }
  assert (Hw : beingWritten "" (<[target := Regular ""]> fs)); [|split; [by apply before_atomic|by split]]. split_and!; [done| | |by rewrite lookup_insert_eq].
  - assert (Hne : ∀ k, k ≠ Split "/" (df_Path file) → <[target := Regular ""]> fs !! (base ++ s :: k) = fs !! (base ++ s :: k)).
    { intros k Hk. rewrite lookup_insert_ne; [done|]. intros [_ Eq]%base_inj. by apply Hk. }
    split; [rewrite (Hne []); [done|rewrite El; by destruct l]|]. intros l' y e He.
    destruct (decide (l' ++ [y] = Split "/" (df_Path file))) as [Eq|Hk].
    + rewrite El in Eq. apply app_inj_tail in Eq as [-> ->]. split.
      * rewrite Hne; [done|]. rewrite El. intros Eq. apply (f_equal length) in Eq. rewrite length_app in Eq. cbn in Eq. lia.
      * right. exists file. split; [apply elem_of_app; right; by apply list_elem_of_singleton|by rewrite El].
    + rewrite Hne in He by done. destruct (Hn l' y e He) as [Hp Hx]. split.
      * destruct (decide (l' = Split "/" (df_Path file))) as [->|Hk']; [|by rewrite Hne]. exfalso. unfold target in Hnone. congruence.
      * destruct Hx as [?|(f & Hin & Hx)]; [by left|right]. exists f. split; [apply elem_of_app; by left|done].
  - rewrite delete_insert_id by done. exact Hf.
Qed.

Lemma filled_written content content' d : beingWritten content (files d) → beingWritten content' (files (filled target content' d)).
Proof.
  intros (Hb & [Hd Hn] & Hf & Ht). cbn [files filled with_files].
  assert (Hne : ∀ p, p ≠ target → alter (λ _, Regular content') target (files d) !! p = files d !! p) by (intros p Hp; by rewrite lookup_alter_ne).
  assert (Hdirs : ∀ p, files d !! p = Some Directory → alter (λ _, Regular content') target (files d) !! p = Some Directory).
  { intros p Hp. rewrite Hne; [done|]. intros ->. congruence. }
  split_and!.
  - apply (asBefore_frame base name fs0 s (files d)); [done| |done]. intros p _ Hp. apply Hne. intros ->. by apply (Hp (Split "/" (df_Path file))).
  - split; [by apply Hdirs|]. intros l x e He. destruct (decide (base ++ s :: l ++ [x] = target)) as [Eq|Hx].
    + destruct (Hn l x (Regular content)) as [Hp Hr]; [by rewrite Eq|]. split; [by apply Hdirs|]. right. destruct Hr as [?|Hr]; [done|exact Hr].
    + rewrite Hne in He by done. destruct (Hn l x e He) as [Hp Hr]. split; [by apply Hdirs|done].
  - assert (delete target (alter (λ _, Regular content') target (files d)) = delete target (files d)) as ->; [|done].
    apply map_eq. intros p. destruct (decide (p = target)) as [->|Hp]; [by rewrite !lookup_delete_eq|]. by rewrite !lookup_delete_ne, Hne.
  - rewrite lookup_alter_eq, Ht. done.
Qed.

Lemma file_filled content : holds begun (WriteTo m (abs target) content) (λ r fs, begun fs ∧ (r = inr () → beingWritten content fs)).
Proof.
  destruct target_path as [_ Et]. apply (holds_call m owned atomic undisturbed); [apply local_begun|]. rewrite Et. intros n d [c Hc].
  assert (Hw : ∀ c', beingWritten c' (files (filled target c' d))) by (intros c'; by eapply filled_written).
  assert (Hg : ∀ c', begun (files (filled target c' d))) by (intros c'; by exists c').
  split_and!; [apply begun_atomic; by exists c|by apply begun_atomic|done|done|by apply begun_atomic|done|done].
Qed.

Lemma written_complete content fs :
  beingWritten content fs → Z.of_nat (String.length content) = df_Size file → SHA256Hex content = df_SHA256 file → inProgress (done ++ [file]) fs.
Proof.
  intros (Hb & Hsh & Hf & Ht) Hsize Hsum. split; [done|]. split; [done|]. intros f [Hin|Hin%list_elem_of_singleton]%elem_of_app Hp.
  - destruct (Hf f Hin Hp) as (c & Ec & Hx). exists c. split; [|done]. by apply lookup_delete_Some in Ec as [_ ?].
  - subst f. by exists content.
Qed.

Lemma steady_sourceContent sources : steady (sourceContent m sources file).
Proof.
  unfold sourceContent. case_bool_decide; [apply steady_ret|]. cbn zeta. case_bool_decide; [apply steady_throw|]. by apply steady_reads.
Qed.

(** The copy: it leaves the file begun, and where it succeeds the content is there. *)
Lemma file_copied sources :
  holds begun (tried (content ← sourceContent m sources file; _ ← WriteTo m (abs target) content; mret content))
    (λ r fs, ∃ v, r = inr v ∧ begun fs ∧ ∀ content, v = inr content → beingWritten content fs).
Proof.
  apply (holds_tried atomic begun _ (λ v fs, begun fs ∧ ∀ content, v = inr content → beingWritten content fs)).
  eapply (steady_then owned atomic); [apply steady_sourceContent|apply local_begun|apply begun_atomic|by split|]. intros content.
  eapply holds_bind; [apply file_filled|by intros e fs [Hg _]; split|]. intros []. apply holds_ret. intros fs [Hg Hw]. split; [done|]. intros c [= <-]. by apply Hw.
Qed.

Lemma file_written sources :
  holds (inProgress done) (materializeFile m (abs (base ++ [s])) file sources) (λ r fs, asBefore fs ∧ (r = inr () → inProgress (done ++ [file]) fs)).
Proof.
  destruct target_path as [Ep Et]. destruct target_parent as (l & x & El & Epar & Hl). unfold materializeFile. cbn zeta. rewrite Ep, Epar.
  eapply holds_bind; [by apply inside_MkdirAll|by intros e fs [Hb _]|]. intros ?.
  eapply holds_bind; [apply file_created|by intros e fs [Hb _]|]. intros [].
  eapply holds_pre with (P := begun); [|intros fs [_ Hw]; exists ""; by apply Hw].
  eapply holds_bind; [apply file_copied|by intros e fs (v & ? & _)|]. intros copied.
  set (Done := λ fs : FS, begun fs ∧ ∀ content, copied = inr content → beingWritten content fs).
  assert (Hloc : local owned Done).
  { intros fs fs' E [Hg Hw]. split; [by eapply local_begun|]. intros content Ec. by eapply local_beingWritten, Hw. }
  assert (Hbef : ∀ fs, Done fs → asBefore fs) by by intros fs [(c & Hb & _) _].
  eapply holds_pre with (P := Done); [|by intros fs (v & [= <-] & Hd)].
  eapply (steady_then owned atomic Done); [by apply steady_tried, steady_SyncFile|done|by intros fs Hd; apply before_atomic, Hbef|by intros e fs Hd; split; [apply Hbef|]|].
  intros synced. destruct copied as [e|content]; [apply holds_throw; intros fs Hd; by split; [apply Hbef|]|].
  destruct synced as [e|?]; [apply holds_throw; intros fs Hd; by split; [apply Hbef|]|].
  unfold throw_when. destruct (negb _ || negb _) eqn:Ecmp; [apply holds_throw; intros fs Hd; by split; [apply Hbef|]|].
  apply orb_false_iff in Ecmp as [Esize%negb_false_iff%Z.eqb_eq Esum%negb_false_iff%bool_decide_eq_true].
  apply holds_ret. intros fs Hd. split; [by apply Hbef|]. intros _. destruct Hd as [_ Hw]. by apply (written_complete content); [apply Hw|..].
Qed.
End one.

(** A path above the release is written beside it, if at all. *)
Lemma file_above done file sources : df_Path file = ".." →
  holds (inProgress done) (materializeFile m (abs (base ++ [s])) file sources) (λ r fs, asBefore fs ∧ (r = inr () → inProgress (done ++ [file]) fs)).
Proof.
  intros Hpath. assert (Et : PathJoin [abs (base ++ [s]); df_Path file] = abs base).
  { rewrite Hpath. unfold PathJoin. rewrite !filter_cons_True by done. rewrite filter_nil.
    change (Join [abs (base ++ [s]); ".."] "/") with (abs (base ++ [s]) +:+ String "/" ".."). unfold Clean.
    assert (HasPrefix (abs (base ++ [s]) +:+ String "/" "..") "/" = true) as -> by by unfold abs.
    rewrite foldl_nonempty, Split_app, filter_app, Split_abs by (apply Forall_app; split; [done|by constructor]).
    change (filter (λ c, c ≠ "") (Split "/" "..")) with [".."].
    rewrite foldl_app, (foldl_plain true [] (base ++ [s])) by (apply Forall_app; split; [done|by constructor]).
    rewrite app_nil_r, reverse_snoc. cbn [foldl]. unfold clean_push. change (bool_decide (".." = "") || bool_decide (".." = ".")) with false.
    change (bool_decide (".." = "..")) with true. destruct Hs as (_ & _ & Hdd & _). rewrite (bool_decide_eq_false_2 (s = "..")) by done.
    unfold abs. by rewrite reverse_involutive. }
  assert (Hpar : components (PathDir (abs base)) `prefix_of` base).
  { destruct base as [|x l _] using rev_ind; [done|]. apply Forall_app in Hbase as [Hl [Hx _]%Forall_cons]. rewrite PathDir_abs, components_abs by done. by eexists. }
  assert (Hout : ¬ owned (components (abs base))) by (rewrite components_abs by done; by apply owned_deeper).
  assert (Hsteady : steady (materializeFile m (abs (base ++ [s])) file sources)).
  { unfold materializeFile. cbn zeta. rewrite Et. apply steady_bind; [by apply steady_MkdirAll|]. intros _. apply steady_bind; [by apply steady_CreateExclusive|]. intros _.
    apply steady_bind; [apply steady_tried, steady_bind; [apply steady_sourceContent|]; intros content; apply steady_bind; [by apply steady_WriteTo|intros _; apply steady_ret]|].
    intros copied. apply steady_bind; [by apply steady_tried, steady_SyncFile|]. intros synced.
    destruct copied; [apply steady_throw|]. destruct synced; [apply steady_throw|apply steady_throw_when]. }
  eapply holds_weaken; [apply (Hsteady (inProgress done)); [apply local_inProgress|apply inProgress_atomic]|done|].
  intros r fs [Hb [Hsh Hf]]. split; [done|]. intros _. split; [done|]. split; [by apply shaped_more|].
  intros f [Hin|Hin%list_elem_of_singleton]%elem_of_app Hp; [by apply Hf|]. subst f. exfalso. rewrite Hpath in Hp. unfold plainPath in Hp. change (Split "/" "..") with [".."] in Hp.
  apply Forall_cons in Hp as [(_ & _ & Hdd & _) _]. done.
Qed.

Lemma files_written done l sources :
  Forall (λ file, plainPath (df_Path file) ∨ df_Path file = "..") l →
  holds (inProgress done) (forEach (λ file, _ ← contextErr m; materializeFile m (abs (base ++ [s])) file sources) l)
    (λ r fs, asBefore fs ∧ (r = inr () → inProgress (done ++ l) fs)).
Proof.
  intros Hl. revert done. induction Hl as [|file l Hfile _ IH]; intros done; cbn [forEach].
  { apply holds_ret. intros fs Hfs. split; [apply Hfs|]. intros _. by rewrite app_nil_r. }
  eapply holds_bind with (R := λ r fs, asBefore fs ∧ (r = inr () → inProgress (done ++ [file]) fs)).
  - eapply (steady_then owned atomic); [by apply steady_reads|apply local_inProgress|apply inProgress_atomic|by intros e fs [Hb _]|]. intros _.
    destruct Hfile; [by apply file_written|by apply file_above].
  - by intros e fs [Hb _].
  - intros []. specialize (IH (done ++ [file])). rewrite <- app_assoc in IH. eapply holds_pre; [apply IH|intros fs [_ Hp]; by apply Hp].
Qed.

(** ** Switching *)

Definition switched (fs : FS) : Prop := leadsTo s fs ∧ complete written s fs.

Lemma local_switched : local owned switched.
Proof. apply local_and; [apply local_leadsTo|by apply local_complete]. Qed.
Lemma complete_frame w fs fs' : (∀ l, fs' !! (base ++ s :: l) = fs !! (base ++ s :: l)) → complete w s fs → complete w s fs'.
Proof.
  intros E [[Hd Hn] Hf]. split; [split|].
  - by rewrite E.
  - intros l x e. rewrite !E. apply Hn.
  - intros file Hin Hp. destruct (Hf file Hin Hp) as (c & Ec & Hx). exists c. by rewrite E.
Qed.
Lemma release_ne l x k : x = name ∨ x = controlName name → base ++ s :: l ≠ base ++ x :: k.
Proof.
  intros Hx [-> _]%base_inj. pose proof (isRelease_not_name name). pose proof (isRelease_not_control name). destruct Hx; congruence.
Qed.

Section switching.
Context (Hrepl : replaces).

Lemma switched_atomic fs : switched fs → atomic fs.
Proof. intros [Hl Hc]. right. split; [done|]. by exists s. Qed.

(** How [publishRelease] ends. *)
Definition ends (v : bool * option Errno) (fs : FS) : Prop :=
  (v.1 = true ∧ switched fs) ∨ (v.1 = false ∧ v.2 ≠ None ∧ asBefore fs).

Lemma ends_before P act : holds P act (λ r fs, match r with inl _ => asBefore fs | inr v => ends v fs end) →
  holds P (beforeSwitch act) (λ r fs, ∃ v, r = inr v ∧ ends v fs).
Proof.
  intros Ha. eapply holds_bind; [apply holds_tried, Ha|by intros e fs (v & ? & _)|]. intros [e|v].
  - apply holds_ret. intros fs (v & [= <-] & Hb). exists (false, Some e). split; [done|]. by right.
  - apply holds_ret. intros fs (v' & [= <-] & Hb). by exists v.
Qed.
Lemma ends_after act : holds switched act (λ _, switched) → holds switched (afterSwitch act) (λ r fs, match r with inl _ => asBefore fs | inr v => ends v fs end).
Proof.
  intros Ha. eapply holds_bind; [apply holds_tried, Ha|by intros e fs (v & ? & _)|].
  intros [e|?]; apply holds_ret; intros fs (v & _ & Hs'); by left.
Qed.

Lemma newLink_path : PathJoin [".."; Base (abs (base ++ [s]))] = "../" +:+ s.
Proof. rewrite Base_abs by done. by apply PathJoin_up. Qed.

(** The first publication: the output appears when everything it leads to is there. *)
Section first.
Context (Habsent : fs0 !! atOutput = None).
Definition prepared (entries : FS → Prop) (fs : FS) : Prop := fs !! atOutput = None ∧ complete written s fs ∧ entries fs.

Lemma prepared_before entries fs : prepared entries fs → asBefore fs.
Proof. intros (Ho & _). by apply absent_before. Qed.
Lemma prepared_atomic entries fs : prepared entries fs → atomic fs.
Proof. intros Hp. by eapply before_atomic, prepared_before. Qed.
Lemma local_prepared entries : local owned entries → local owned (prepared entries).
Proof.
  intros He. apply local_and; [by apply absent_local|]. apply local_and; [by apply local_complete|done].
Qed.

Lemma first_published link tree : link = "" → holds (inProgress written) (publishRelease m output (abs (base ++ [s])) link tree) (λ r fs, ∃ v, r = inr v ∧ ends v fs).
Proof.
  intros ->. unfold publishRelease. cbn zeta. rewrite bool_decide_eq_true_2, newLink_path by done. apply ends_before.
  set (K1 := λ fs : FS, fs !! atControl = Some Directory). set (K2 := λ fs : FS, K1 fs ∧ fs !! atCurrent = Some (Symlink ("../" +:+ s))).
  assert (L1 : local owned K1) by (apply (local_lookup base name atControl (λ e, e = Some Directory)), owned_control).
  assert (L2 : local owned K2) by (apply local_and; [done|]; apply (local_lookup base name atCurrent (λ e, e = Some (Symlink _))), owned_current).
  eapply holds_bind with (R := λ r fs, asBefore fs ∧ (r = inr () → prepared K1 fs)).
  { apply (holds_change m owned atomic undisturbed); [apply local_inProgress|apply inProgress_atomic|by intros fs [? _]|]. rewrite components_control. intros _ fs [Hb Hc].
    destruct (creating _ _ fs) as [e|[fs' []]] eqn:E; [done|]. apply creating_spec in E as (-> & _ & _).
    assert (prepared K1 (mkdirAt atControl fs)) as Hp; [|split; [by eapply prepared_atomic|]; split; [by eapply prepared_before|done]].
    assert (Hk : ∀ x l, x ≠ controlName name → mkdirAt atControl fs !! (base ++ x :: l) = fs !! (base ++ x :: l)).
    { intros x l Hx. rewrite lookup_mkdirAt, bool_decide_eq_false_2 by (intros [? _]%base_inj; done). destruct (under _ _) eqn:Eu; [|done].
      apply under_spec in Eu as [k Ek]. unfold PublishLogic.atControl in Ek. rewrite <- app_assoc in Ek. by apply base_inj in Ek as [? _]. }
    split_and!.
    - unfold PublishLogic.atOutput. rewrite Hk by (intros E; by apply (controlName_ne name)). change (fs !! atOutput = None). by rewrite (proj1 Hb).
    - eapply complete_frame; [|exact Hc]. intros l. apply Hk. intros E. by apply (release_ne l s l (or_intror E)).
    - unfold K1. by rewrite lookup_mkdirAt, bool_decide_eq_true_2. }
  { by intros e fs [Hb _]. }
  intros []. eapply holds_pre with (P := prepared K1); [|by intros fs [_ Hp]; apply Hp].
  eapply holds_bind with (R := λ r fs, asBefore fs ∧ (r = inr () → prepared K2 fs)).
  { apply (holds_change m owned atomic undisturbed); [by apply local_prepared|apply prepared_atomic|by intros fs Hp; split; [eapply prepared_before|]|].
    rewrite components_current. intros _ fs Hp. destruct (creating _ _ fs) as [e|[fs' []]] eqn:E; [by split; [eapply prepared_before|]|].
    apply creating_spec in E as (-> & _ & _). destruct Hp as (Ho & Hc & Hk).
    assert (prepared K2 (<[atCurrent := Symlink ("../" +:+ s)]> fs)) as Hp; [|split; [by eapply prepared_atomic|]; split; [by eapply prepared_before|done]].
    split_and!.
    - rewrite lookup_insert_ne by apply control_ne. done.
    - eapply complete_frame; [|exact Hc]. intros l. rewrite lookup_insert_ne; [done|]. intros E. symmetry in E. revert E. apply release_ne. by right.
    - split; [unfold K1; rewrite lookup_insert_ne; [done|]; by intros Eq%app_inv_head|by rewrite lookup_insert_eq]. }
  { by intros e fs [Hb _]. }
  intros []. eapply holds_pre with (P := prepared K2); [|by intros fs [_ Hp]; apply Hp].
  eapply holds_bind with (R := λ r fs, match r with inl _ => asBefore fs | inr _ => switched fs end).
  { apply (holds_change m owned atomic undisturbed); [by apply local_prepared|apply prepared_atomic|by intros fs Hp; eapply prepared_before|].
    rewrite components_output. intros _ fs Hp. destruct (creating _ _ fs) as [e|[fs' []]] eqn:E; [by eapply prepared_before|].
    apply creating_spec in E as (-> & _ & _). destruct Hp as (Ho & Hc & Hk & Hu). unfold output. rewrite outer_target by done.
    assert (switched (<[atOutput := Symlink (controlName name +:+ "/current")]> fs)) as Hd; [|split; [by apply switched_atomic|done]].
    split; [split_and!|].
    - by rewrite lookup_insert_eq.
    - rewrite lookup_insert_ne; [done|]. intros E. symmetry in E. revert E. apply (control_ne [] []).
    - rewrite lookup_insert_ne; [done|]. intros E. symmetry in E. revert E. apply control_ne.
    - eapply complete_frame; [|exact Hc]. intros l. rewrite lookup_insert_ne; [done|]. intros E. symmetry in E. revert E. apply release_ne. by left. }
  { done. }
  intros ?. apply ends_after. apply (steady_bind owned atomic); [by apply steady_syncDirectory|intros _; by apply steady_syncDirectory|apply local_switched|apply switched_atomic].
Qed.
End first.

(** Replacing a release: one exchange of links. *)
Section update.
Context (Hpresent : fs0 !! atOutput ≠ None).

(** A temporary name in the control directory. *)
Definition temporary (x : string) : list string := base ++ [controlName name; x].

Lemma temporary_frame x fs fs' : x ≠ "current" → (∀ p, p ≠ temporary x → fs' !! p = fs !! p) →
  (inProgress written fs → inProgress written fs') ∧ (switched fs → switched fs').
Proof.
  intros Hx E. assert (Ho : fs' !! atOutput = fs !! atOutput) by (apply E; intros Eq; symmetry in Eq; revert Eq; apply control_ne).
  assert (Hk : fs' !! atControl = fs !! atControl) by (apply E; by intros Eq%app_inv_head).
  assert (Hu : fs' !! atCurrent = fs !! atCurrent) by (apply E; intros Eq%app_inv_head; congruence).
  assert (Hr : ∀ r l, isRelease name r = true → fs' !! (base ++ r :: l) = fs !! (base ++ r :: l)).
  { intros r l Hr. apply E. intros [-> _]%base_inj. pose proof (isRelease_not_control name). congruence. }
  split.
  - intros [[Hb1 Hb2] Hc]. split; [|eapply complete_frame; [|exact Hc]; intros l; by apply Hr]. split; [by rewrite Ho|]. intros Hn. destruct (Hb2 Hn) as (B1 & B2 & B3).
    split_and!; [by rewrite Hk|by rewrite Hu|]. intros r l Hrel' Hex. rewrite Hr by done. by apply B3.
  - intros [(S1 & S2 & S3) Hc]. split; [by split_and!; rewrite ?Ho, ?Hk, ?Hu|]. eapply complete_frame; [|exact Hc]. intros l. by apply Hr.
Qed.

Lemma temporary_plain n : plain_component (".current-" +:+ suffix m n) ∧ ".current-" +:+ suffix m n ≠ "current".
Proof. split; [|done]. split_and!; [done..|]. by rewrite mem_byte_app, suffix_plain. Qed.

Lemma link_reserved target :
  holds (inProgress written) (reserveSymlink m (controlDirectory output) ".current-" target)
    (λ r fs, asBefore fs ∧ ∀ t, r = inr t → ∃ x, t = PathJoin [controlDirectory output; x] ∧ plain_component x ∧ x ≠ "current" ∧
       inProgress written fs ∧ fs !! temporary x = Some (Symlink target)).
Proof.
  unfold reserveSymlink. eapply holds_bind with (R := λ r fs, inProgress written fs ∧ ∀ t, r = inr t → ∃ x, t = PathJoin [controlDirectory output; x] ∧ plain_component x ∧ x ≠ "current").
  { apply (holds_change m owned atomic undisturbed); [apply local_inProgress|apply inProgress_atomic|by split|]. intros n fs Hp. cbn zeta.
    destruct (temporary_plain n) as [Hx Hne]. rewrite components_inside by done. destruct (creating _ _ fs) as [e|[fs' []]] eqn:E; [by split|].
    apply creating_spec in E as (-> & _ & _).
    assert (inProgress written (<[base ++ [controlName name; ".current-" +:+ suffix m n] := Regular ""]> fs)) as Hp'.
    { eapply (temporary_frame (".current-" +:+ suffix m n)); [done| |exact Hp]. intros p Hpp. by rewrite lookup_insert_ne. }
    split; [by eapply inProgress_atomic|]. split; [done|]. intros t [= <-]. by eexists. }
  { by intros e fs [[Hb _] _]. }
  intros t. eapply holds_pre; [apply (holds_given atomic (∃ x, t = PathJoin [controlDirectory output; x] ∧ plain_component x ∧ x ≠ "current") (inProgress written))|
    by intros fs [Hp Ht]; split; [apply Ht|]]. intros (x & -> & Hx & Hne).
  eapply holds_bind with (R := λ _, inProgress written).
  { apply (holds_change m owned atomic undisturbed); [apply local_inProgress|apply inProgress_atomic|done|]. rewrite components_inside by done. intros _ fs Hp.
    destruct (fs !! _); [|done]. case_bool_decide; [|done]. assert (inProgress written (delete (base ++ [controlName name; x]) fs)) as Hp'; [|split; [by eapply inProgress_atomic|done]].
    eapply (temporary_frame x); [done| |exact Hp]. intros p Hpp. by rewrite lookup_delete_ne. }
  { by intros e fs [Hb _]. }
  intros ?. eapply holds_bind with (R := λ r fs, asBefore fs ∧ (r = inr () → inProgress written fs ∧ fs !! temporary x = Some (Symlink target))).
  { apply (holds_change m owned atomic undisturbed); [apply local_inProgress|apply inProgress_atomic|by intros fs [? _]|]. rewrite components_inside by done. intros _ fs Hp.
    destruct (creating _ _ fs) as [e|[fs' []]] eqn:E; [by split; [apply Hp|]|]. apply creating_spec in E as (-> & _ & _).
    assert (inProgress written (<[base ++ [controlName name; x] := Symlink target]> fs)) as Hp'.
    { eapply (temporary_frame x); [done| |exact Hp]. intros p Hpp. by rewrite lookup_insert_ne. }
    split; [by eapply inProgress_atomic|]. split; [apply Hp'|]. intros _. split; [done|]. by rewrite lookup_insert_eq. }
  { by intros e fs [Hb _]. }
  intros []. apply holds_ret. intros fs [Hb Hd]. split; [done|]. intros t [= <-]. destruct (Hd eq_refl) as [Hp Ht]. by exists x.
Qed.

Lemma siblings x y : x ≠ y → under (base ++ [controlName name; x]) (base ++ [controlName name; y]) = false.
Proof. intros Hne. apply not_true_iff_false. intros [l E]%under_spec. rewrite <- app_assoc in E. apply app_inv_head in E. by injection E. Qed.

Lemma link_exchanged x r expectedLink : plain_component x → x ≠ "current" → leadsTo r fs0 →
  holds (λ fs, inProgress written fs ∧ fs !! temporary x = Some (Symlink ("../" +:+ s)))
    (exchangeReleaseLink m (PathJoin [controlDirectory output; x]) (PathJoin [controlDirectory output; "current"]) expectedLink)
    (λ r fs, ∃ v, r = inr v ∧ ends v fs).
Proof.
  intros Hx Hne (Ho & Hk & _). unfold exchangeReleaseLink.
  assert (U1 : under (temporary x) atCurrent = false) by by apply siblings.
  assert (U2 : under atCurrent (temporary x) = false) by (apply siblings; congruence).
  eapply holds_bind with (R := λ r fs, ∃ v, r = inr v ∧ match v with inl _ => asBefore fs | inr _ => switched fs end).
  { apply (holds_tried atomic _ (exchangePaths m _ _) (λ v fs, match v with inl _ => asBefore fs | inr _ => switched fs end)).
    apply (holds_change m owned atomic undisturbed).
    - apply local_and; [apply local_inProgress|]. apply (local_lookup base name (temporary x) (λ e, e = Some (Symlink _))), owned_inside.
    - intros fs [Hp _]. by eapply inProgress_atomic.
    - by intros fs [[Hb _] _].
    - intros _ fs [Hp Ht]. rewrite components_inside, components_current by done. fold (temporary x). rewrite U1, U2.
      destruct (negb _ || false || false); [by apply Hp|]. rewrite Ht. destruct (fs !! atCurrent) as [e|]; [|by apply Hp].
      destruct Hp as [[Hb1 Hb2] Hc]. destruct (Hb2 Hpresent) as (B1 & B2 & B3).
      assert (Hout : ∀ p, under (temporary x) p = false → under atCurrent p = false → (kmap (exchanged (temporary x) atCurrent) fs : FS) !! p = fs !! p).
      { intros p P1 P2. rewrite lookup_exchanged by done. unfold exchanged. by rewrite P1, P2. }
      assert (Hshort : ∀ y z l, y ≠ controlName name → under (base ++ [controlName name; z]) (base ++ y :: l) = false).
      { intros y z l Hy. apply not_true_iff_false. intros [k E]%under_spec. rewrite <- app_assoc in E. by apply base_inj in E as [? _]. }
      assert (Hctl : ∀ z, under (base ++ [controlName name; z]) atControl = false).
      { intros z. apply not_true_iff_false. intros [k E]%under_spec. rewrite <- app_assoc in E. by apply app_inv_head in E. }
      assert (switched (kmap (exchanged (temporary x) atCurrent) fs)) as Hd; [|split; [by apply switched_atomic|done]]. split; [split_and!|].
      + rewrite Hout, Hb1; [done|apply Hshort..]; intros E; by apply (controlName_ne name).
      + rewrite Hout, B1; [done|apply Hctl..].
      + rewrite lookup_exchanged by done. unfold exchanged. rewrite U1. assert (under atCurrent atCurrent = true) as -> by (apply under_spec; exists []; by rewrite app_nil_r).
        by rewrite drop_all, app_nil_r.
      + eapply complete_frame; [|exact Hc]. intros l. apply Hout; apply Hshort; intros E; by apply (release_ne l s l (or_intror E)). }
  { by intros e fs (v & ? & _). }
  intros [e|?]; [apply holds_ret; intros fs (v & [= <-] & Hb); exists (false, Some e); split; [done|by right]|].
  eapply holds_pre with (P := switched); [|by intros fs (v & [= <-] & Hd)].
  apply (tried_then m owned atomic undisturbed (λ _, True)); [apply local_switched|apply switched_atomic|done|done|].
  intros [e|actual] _; apply holds_ret; intros fs Hd; eexists; (split; [done|by left]).
Qed.

Lemma release_replaced r tree : leadsTo r fs0 → plain_component r →
  holds (inProgress written) (publishRelease m output (abs (base ++ [s])) ("../" +:+ r) tree) (λ r fs, ∃ v, r = inr v ∧ ends v fs).
Proof.
  intros Hleads Hr. unfold publishRelease. cbn zeta. rewrite bool_decide_eq_false_2, newLink_path by done. apply ends_before.
  eapply holds_bind; [apply (current_present (inProgress written)); [apply local_inProgress|by intros fs [? _]|done]|by intros e fs [[Hb _] _]|].
  intros [observedLink observedTree]. eapply holds_pre with (P := inProgress written); [|by intros fs [? _]].
  apply holds_check; [by intros fs [? _]|]. intros _. eapply holds_bind; [apply link_reserved|by intros e fs [Hb _]|]. intros t.
  intros w [Hw Ht]. destruct (Ht t eq_refl) as (x & -> & Hx & Hne & Hp & Hlink). revert w Hw Ht Hp Hlink.
  cut (holds (λ fs, inProgress written fs ∧ fs !! temporary x = Some (Symlink ("../" +:+ s)))
    ('(committed, failure) ← exchangeReleaseLink m (PathJoin [controlDirectory output; x]) (PathJoin [controlDirectory output; "current"]) ("../" +:+ r);
     match failure with
     | Some e => mret (committed, Some e)
     | None => afterSwitch (_ ← Remove m (PathJoin [controlDirectory output; x]); outerLink ← Readlink m output;
         _ ← throw_when (negb (bool_decide (outerLink = outerTarget output))) OtherError; _ ← syncDirectory m (controlDirectory output); syncDirectory m (PathDir output))
     end) (λ r fs, match r with inl _ => asBefore fs | inr v => ends v fs end)).
  { intros Hcut w _ _ Hp Hlink. by apply Hcut. }
  eapply holds_bind; [by apply (link_exchanged x r)|by intros e fs (v & ? & _)|]. intros [committed [e|]].
  { apply holds_ret. by intros fs (v & [= <-] & He). }
  eapply holds_pre with (P := switched); [apply ends_after|intros fs (v & [= <-] & [[_ ?]|(_ & ? & _)]); done].
  eapply holds_bind with (R := λ _, switched); [|done|].
  - apply (holds_change m owned atomic undisturbed); [apply local_switched|apply switched_atomic|done|]. rewrite components_inside by done. intros _ fs Hd.
    destruct (fs !! _); [|done]. case_bool_decide; [|done]. assert (switched (delete (base ++ [controlName name; x]) fs)) as Hd'; [|split; [by apply switched_atomic|done]].
    eapply (temporary_frame x); [done| |exact Hd]. intros p Hpp. by rewrite lookup_delete_ne.
  - intros ?. apply (steady_bind owned atomic); [by apply steady_reads| |apply local_switched|apply switched_atomic]. intros outerLink.
    apply steady_bind; [apply steady_throw_when|]. intros _. apply steady_bind; [by apply steady_syncDirectory|]. intros _. by apply steady_syncDirectory.
Qed.
End update.
End switching.

(** What was written is removed again unless it was published. *)
Lemma staging_removed : holds asBefore (ignoring (RemoveAll m (abs (base ++ [s])))) (λ r fs, r = inr () ∧ asBefore fs).
Proof.
  assert (Hk : ∀ left d, asBefore (files d) → asBefore (files (clearedBut left (base ++ [s]) d))).
  { intros left d Hd. apply (asBefore_frame base name fs0 s (files d)); [done| |done]. intros p _ Hp. apply lookup_clearedBut.
    apply not_true_iff_false. intros [l ->]%under_spec. apply (Hp l). by rewrite <- app_assoc. }
  eapply holds_weaken; [apply holds_ignoring, (holds_call m owned atomic undisturbed asBefore _ _ (λ _, asBefore)); [apply local_asBefore|]|done|].
  - rewrite components_release by done. intros n d Hd. split_and!; eauto using before_atomic.
  - by intros r fs [-> [_ Hb]].
Qed.

Lemma cleaned_up (P : FS → Prop) body (Done : FS → Prop) :
  (∀ fs, Done fs → atomic fs) →
  holds P body (λ r fs, match r with inl _ => asBefore fs | inr v => (v.1 = true ∧ Done fs) ∨ (v.1 = false ∧ v.2 ≠ None ∧ asBefore fs) end) →
  holds P (unlessPublished m (abs (base ++ [s])) body) (λ r fs, atomic fs ∧ (r = inr () → Done fs)).
Proof.
  intros HD Hb. unfold unlessPublished. eapply holds_bind; [apply holds_tried, Hb|by intros e fs (v & ? & _)|].
  assert (Hclean : ∀ e, holds asBefore (_ ← ignoring (RemoveAll m (abs (base ++ [s]))); throw (A := ()) e) (λ r fs, atomic fs ∧ (r = inr () → Done fs))).
  { intros e. eapply holds_bind; [apply staging_removed|by intros e' fs [? _]|]. intros ?. apply holds_throw. intros fs [_ Hfs]. split; [by apply before_atomic|done]. }
  intros [e|[[] [e|]]].
  - eapply holds_pre; [apply Hclean|by intros fs (v & [= <-] & Hfs)].
  - apply holds_throw. intros fs (v & [= <-] & [[_ Hd]|(? & _)]); [|done]. split; [by apply HD|done].
  - apply holds_ret. intros fs (v & [= <-] & [[_ Hd]|(? & _)]); [|done]. split; [by apply HD|done].
  - eapply holds_pre; [apply Hclean|]. intros fs (v & [= <-] & [[? _]|(_ & _ & ?)]); done.
  - intros w (v & [= <-] & [[? _]|(_ & ? & _)]); done.
Qed.
End writing.

(** ** The whole publication *)

Lemma found_present link tree : found link tree → link = "" ∨ fs0 !! atOutput ≠ None.
Proof. intros [[? _]|(r & _ & _ & _ & (Ho & _) & _)]; [by left|right]. by rewrite Ho. Qed.

Lemma current_found : holds asBefore (currentManagedRelease m output) (λ r fs, asBefore fs ∧ ∀ link tree, r = inr (link, tree) → found link tree).
Proof.
  destruct (decide (fs0 !! atOutput = None)) as [Ha|Hp].
  - eapply holds_weaken; [by apply current_absent|by intros fs [-> _]|]. intros r fs [Hn Hf]. split; [by apply absent_before|done].
  - by apply (current_present asBefore); [apply local_asBefore|..].
Qed.

Lemma materialized artifact sources :
  art_Files artifact = written → Forall (λ file, plainPath (df_Path file) ∨ df_Path file = "..") written →
  holds asBefore (materialize m output artifact sources expected) (λ r fs, atomic fs ∧ (r = inr () → published fs)).
Proof.
  intros Ew Hfiles. unfold materialize. cbn zeta. rewrite Ew.
  assert (HA : Abs m output = output).
  { assert (Forall plain_component (base ++ [name])) by (apply Forall_app; split; [done|by constructor]).
    unfold Abs, IsAbs, output. rewrite abs_rooted. apply Clean_abs; [apply abs_rooted|by apply Split_abs|done]. }
  assert (HB : PathDir output = abs base) by by apply output_parent. assert (HC : managedPrefix output = releaseStem name) by by apply prefix_is_stem.
  rewrite HA, HB, HC.
  assert (Herr : ∀ (e : Errno) (fs : FS), asBefore fs → atomic fs ∧ (inl e = inr () → published fs)) by (intros e fs Hb; split; [by apply before_atomic|done]).
  eapply (steady_then owned atomic); [apply steady_parent|apply local_asBefore|apply before_atomic|done|]. intros _.
  eapply (steady_then owned atomic); [apply steady_lockOutput|apply local_asBefore|apply before_atomic|done|]. intros _.
  eapply holds_bind; [apply current_found|by intros e fs [Hb _]; apply Herr|]. intros [link tree].
  eapply holds_pre; [apply (holds_given atomic (found link tree) asBefore)|by intros fs [Hb Hf]; split; [apply Hf|]]. intros Hfound.
  apply holds_check; [by apply Herr|]. intros Hexp.
  assert (Hrepl : replaces).
  { unfold replaces. destruct expected as [t|]; [|done]. apply negb_false_iff, bool_decide_eq_true in Hexp as ->. by exists link. }
  eapply holds_bind; [apply staging_made|by intros e fs [Hb _]; apply Herr|]. intros staging w [Hw Hst].
  destruct (Hst staging eq_refl) as (s & -> & Hs & Hfresh & Hc). revert w Hw Hst Hc.
  cut (holds (inProgress s []) (unlessPublished m (abs (base ++ [s])) (_ ← forEach (λ file, _ ← contextErr m; materializeFile m (abs (base ++ [s])) file sources) written;
    _ ← syncTreeDirectories m (abs (base ++ [s])); publishRelease m output (abs (base ++ [s])) link tree)) (λ r fs, atomic fs ∧ (r = inr () → published fs))).
  { intros Hcut w Hw _ Hc. by apply Hcut. }
  apply (cleaned_up s Hs Hfresh); [by right|].
  eapply holds_bind; [by apply (files_written s Hs Hfresh [])|by intros e fs [Hb _]|]. intros []. cbn [app].
  eapply holds_pre with (P := inProgress s written); [|by intros fs [_ Hp]; apply Hp].
  eapply (steady_then owned atomic); [by apply steady_syncTreeDirectories|by apply local_inProgress|apply inProgress_atomic|by intros e fs [Hb _]|]. intros _.
  assert (Hpub : holds (inProgress s written) (publishRelease m output (abs (base ++ [s])) link tree) (λ r fs, ∃ v, r = inr v ∧ ends s v fs)).
  { destruct Hfound as [(-> & -> & Ha)|(r & -> & Hr & Hrel & Hleads & _)]; [by apply first_published|].
    apply release_replaced; try done. destruct Hleads as [Ho _]. by rewrite Ho. }
  eapply holds_weaken; [exact Hpub|done|]. intros r fs (v & -> & [[? [Hl Hcomp]]|?]); [|by right]. left. split; [done|]. split; [done|]. exists s. split_and!; [apply Hfresh|done..].
Qed.
End run.

(** ** What readers see *)

Section readers.
Context (base : list string) (name : string) (Hbase : Forall plain_component base) (Hname : plain_component name).
Let output := abs (base ++ [name]).

Lemma served_release r fs l : plain_component r → leadsTo base name r fs → fs !! (base ++ [r]) = Some Directory →
  served fs output l = match fs !! (base ++ r :: l) with Some (Regular content) => Some content | _ => None end.
Proof.
  intros Hr (Ho & _ & Hu) Hd. pose proof (control_plain name Hname) as Hc.
  assert (Hco : Forall plain_component (base ++ [controlName name])) by (apply Forall_app; split; [done|by constructor]).
  assert (Hcu : Forall plain_component (base ++ [controlName name; "current"])) by (apply Forall_app; split; [done|by constructor; [|constructor]]).
  assert (Hre : Forall plain_component (base ++ [r])) by (apply Forall_app; split; [done|by constructor]).
  assert (E : follow maximumLinks fs output = inr (abs (base ++ [r]))).
  { destruct maximumLinks_enough as [n ->].
    assert (Hpp : plainPath (controlName name +:+ "/current")) by by apply (plainPath_slash _ "current"); apply plain_component_single.
    assert (Esp : Split "/" (controlName name +:+ "/current") = [controlName name; "current"]).
    { change ("/current") with (String "/" "current"). rewrite Split_app, (Split_single (controlName name)) by by destruct Hc as (_ & _ & _ & ?). done. }
    rewrite (follow_link _ fs output (controlName name +:+ "/current")) by (unfold output; by rewrite components_abs by (apply Forall_app; split; [done|by constructor])).
    assert (IsAbs (controlName name +:+ "/current") = false) as -> by by apply plain_unrooted.
    unfold output. rewrite PathDir_abs, PathJoin_one, Esp by done.
    rewrite (follow_link _ fs _ ("../" +:+ r)) by by rewrite components_abs. change (IsAbs ("../" +:+ r)) with false.
    replace (base ++ [controlName name; "current"]) with ((base ++ [controlName name]) ++ ["current"]) by by rewrite <- app_assoc.
    rewrite PathDir_abs, PathJoin_beside by done. by apply (follow_entry _ fs _ Directory); [rewrite components_abs|]. }
  unfold served. rewrite E, components_abs by done. by rewrite <- app_assoc.
Qed.

Lemma served_nothing fs l : fs !! (base ++ [name]) = None → served fs output l = None.
Proof.
  intros Hn. unfold served. destruct maximumLinks_enough as [n ->]. rewrite follow_none; [done|]. unfold output.
  by rewrite components_abs by (apply Forall_app; split; [done|by constructor]).
Qed.

(** Nothing is published, or a release directory is. *)
Definition managedOutput (fs : FS) : Prop :=
  fs !! (base ++ [name]) = None ∨
  ∃ r, plain_component r ∧ isRelease name r = true ∧ leadsTo base name r fs ∧ fs !! (base ++ [r]) = Some Directory.

Lemma asBefore_served fs0 fs l : managedOutput fs0 → asBefore base name fs0 fs → served fs output l = served fs0 output l.
Proof.
  intros [Hn|(r & Hr & Hrel & Hleads & Hd)] [Ho Hx]; [rewrite (served_nothing fs0), (served_nothing fs); [done| |done]; change (fs !! atOutput base name = None); by rewrite Ho|].
  assert (Hp : fs0 !! atOutput base name ≠ None) by by destruct Hleads as [-> _]. destruct (Hx Hp) as (Hk & Hu & Ht).
  assert (Hsame : ∀ l, fs !! (base ++ r :: l) = fs0 !! (base ++ r :: l)) by (intros k; apply Ht; [done|by rewrite Hd]).
  rewrite (served_release r fs0), (served_release r fs), Hsame; try done.
  - destruct Hleads as (L1 & L2 & L3). by split_and!; congruence.
  - by rewrite (Hsame []).
Qed.
End readers.
