(* ===== verification/LocalHostProofs.v ===== *)
(** The local host: a commit shows its readers the old tree or the new one, at every
    moment of it, and replaces only the tree it was planned against. *)

From S2P Require Import Prelude GoStrings GoSlices Model Formats JsonStrict PlanJson Manifest ManifestProofs Host S3Store S3Keys S3.
From S2P Require Import S3KeyProofs S3Proofs S3Examples Rsync RsyncPaths Rollback FileSystem VerifyTree Materialize PublishLogic.
From S2P Require Import MaterializeProofs.

Open Scope Z_scope.

(** ** What a verified manifest says *)

(** What [act] returns, where it returns. *)
Definition yields {A : Type} (act : IO A) (phi : A → Prop) : Prop := ∀ w a, (act w).2 = inr a → phi a.

Lemma yields_bind {A B : Type} (act : IO A) (f : A → IO B) phi psi : yields act phi → (∀ a, phi a → yields (f a) psi) → yields (act ≫= f) psi.
Proof.
  intros Ha Hf w b. unfold mbind, IO_bind. specialize (Ha w). destruct (act w) as [w' [e|a]]; [done|]. intros Hb. by eapply Hf; [apply Ha|].
Qed.
Lemma yields_any {A : Type} (act : IO A) : yields act (λ _, True).
Proof. done. Qed.
Lemma yields_ret {A : Type} (a : A) (phi : A → Prop) : phi a → yields (mret a) phi.
Proof. by intros Ha w b [= <-]. Qed.
Lemma yields_check b e : yields (throw_when b e) (λ _, b = false).
Proof. by destruct b. Qed.

(** A path that is accepted is below the release, or it is the parent directory. *)
Lemma unsafeTreePath_plain p : unsafeTreePath p = false → plainPath p ∨ p = "..".
Proof.
  unfold unsafeTreePath. rewrite !orb_false_iff. intros ((((_ & Ha) & Hc) & Hd) & Hp).
  apply clean_path_plain; [by apply bool_decide_eq_false in Hd|done|by apply negb_false_iff, bool_decide_eq_true in Hc|done].
Qed.
Lemma dotdot_accepted : unsafeTreePath ".." = false.
Proof. done. Qed.

Section verified.
Context `{HashLib, TimeLib, !TreeLib} (m : Machine).

Lemma verifyFiles_paths root previous l : yields (verifyFiles m root previous l) (λ _, Forall (λ file, plainPath (file_Path file) ∨ file_Path file = "..") l).
Proof.
  revert previous. induction l as [|file l IH]; intros previous; [by apply yields_ret; constructor|]. cbn [verifyFiles].
  eapply yields_bind; [apply yields_check|]. intros ? Hv%negb_false_iff. eapply yields_bind; [apply yields_any|]. intros [size digest] _.
  eapply yields_bind; [apply yields_any|]. intros _ _ w u Hu. constructor; [|by eapply IH].
  unfold validateManifestFile in Hv. rewrite !andb_true_iff in Hv. destruct Hv as (((((Hv & _) & _) & _) & _) & _).
  apply unsafeTreePath_plain. by apply negb_true_iff in Hv.
Qed.

Lemma VerifyRepository_manifest root :
  yields (VerifyRepository m root) (λ manifest, Forall (λ file, plainPath (file_Path file) ∨ file_Path file = "..") (rm_Files manifest) ∧
    TreeDigest (rm_Files manifest) = rm_TreeSHA256 manifest).
Proof.
  unfold VerifyRepository. eapply yields_bind; [apply yields_any|]. intros absolute _. eapply yields_bind; [apply yields_any|]. intros content _.
  eapply yields_bind; [apply yields_any|]. intros manifest _. eapply yields_bind; [apply yields_any|]. intros _ _.
  eapply yields_bind; [apply verifyFiles_paths|]. intros ? Hp. eapply yields_bind; [apply yields_check|]. intros ? Ht%negb_false_iff%bool_decide_eq_true.
  eapply yields_bind; [apply yields_any|]. intros _ _. eapply yields_bind; [apply yields_any|]. intros _ _. by apply yields_ret.
Qed.

Lemma snapshot_decodes root manifest : yields (snapshotVerifiedManifest m root manifest) (λ content, DecodeRepositoryManifest content = Some manifest).
Proof.
  unfold snapshotVerifiedManifest. eapply yields_bind; [apply yields_any|]. intros content _.
  eapply (yields_bind _ _ (λ actual, DecodeRepositoryManifest content = Some actual)).
  { unfold decodeManifest. destruct (DecodeRepositoryManifest content); [by apply yields_ret|done]. }
  intros actual Ha. eapply yields_bind; [apply yields_check|]. intros ? He%negb_false_iff%bool_decide_eq_true. subst. by apply yields_ret.
Qed.
End verified.

(** ** Atomic commits *)

Section atomic.
Context `{HashLib, TimeLib, !TreeLib}.

(** A reader of [output] finds the files of a tree with the digest [tree], each with its
    size and digest, its management manifest, and no other file. *)
Definition servesTree (fs : FS) (output tree : string) : Prop :=
  ∃ manifest content, DecodeRepositoryManifest content = Some manifest ∧ rm_TreeSHA256 manifest = tree ∧ TreeDigest (rm_Files manifest) = tree ∧
    (∃ copy, served fs output [ManifestFilename] = Some copy ∧ SHA256Hex copy = SHA256Hex content) ∧
    (∀ file, file ∈ rm_Files manifest → file_Path file ≠ ".." →
       ∃ copy, served fs output (Split "/" (file_Path file)) = Some copy ∧
         Z.of_nat (String.length copy) = file_Size file ∧ SHA256Hex copy = file_SHA256 file) ∧
    (∀ l copy, served fs output l = Some copy → l = [ManifestFilename] ∨ ∃ file, file ∈ rm_Files manifest ∧ l = Split "/" (file_Path file)).

(** What is served declares [tree]; nothing is served where [tree] is empty. *)
Definition declares (fs : FS) (output tree : string) : Prop :=
  (tree = "" ∧ ∀ l, served fs output l = None) ∨
  ∃ content manifest, served fs output [ManifestFilename] = Some content ∧ DecodeRepositoryManifest content = Some manifest ∧ rm_TreeSHA256 manifest = tree.

(** Others leave the entries of the output alone, and temporary names are names. *)
Definition leftAlone (m : Machine) (base : list string) (name : string) : Prop :=
  (∀ n fs p, ownedBy base name p → between m n fs !! p = fs !! p) ∧ ∀ n, mem_byte "/" (suffix m n) = false.

Section commit.
Context (m : Machine) (base : list string) (name : string) (Hbase : Forall plain_component base) (Hname : plain_component name).
Context (Halone : leftAlone m base name) (fs0 : FS) (Hstart : managedOutput base name fs0).
Let output := abs (base ++ [name]).

Lemma managed_starts r : leadsTo base name r fs0 → isRelease name r = true → fs0 !! (base ++ [r]) = Some Directory.
Proof.
  intros Hleads Hrel. destruct Hstart as [Hn|(r' & Hr' & _ & Hleads' & Hd)]; [by destruct Hleads as [E _]; unfold atOutput in E; rewrite Hn in E|].
  destruct Hleads as (_ & _ & E1), Hleads' as (_ & _ & E2). rewrite E1 in E2. assert (r = r') as -> by by injection E2. done.
Qed.

Lemma found_declares link tree : found base name fs0 link tree → declares fs0 output tree.
Proof.
  intros [(_ & -> & Hn)|(r & _ & Hr & Hrel & Hleads & content & manifest & Ec & Ed & Et)].
  - left. split; [done|]. intros l. by apply served_nothing.
  - right. exists content, manifest. split; [|done]. unfold output. rewrite (served_release base name Hbase Hname r) by (done || by apply managed_starts). by rewrite Ec.
Qed.

Lemma complete_serves manifest content r fs :
  DecodeRepositoryManifest content = Some manifest → TreeDigest (rm_Files manifest) = rm_TreeSHA256 manifest →
  Forall (λ file, plainPath (file_Path file) ∨ file_Path file = "..") (rm_Files manifest) →
  plain_component r → leadsTo base name r fs → complete base (verifiedFiles manifest content) r fs → servesTree fs output (rm_TreeSHA256 manifest).
Proof.
  intros Hdec Htree Hpaths Hr Hleads [[Hd Hn] Hf].
  assert (Hserved : ∀ l, served fs output l = match fs !! (base ++ r :: l) with Some (Regular copy) => Some copy | _ => None end) by (intros l; by apply served_release).
  exists manifest, content. split_and!; try done.
  - destruct (Hf (mkDomainFile ManifestFilename (Z.of_nat (String.length content)) (SHA256Hex content) (Some content) "")) as (copy & Ec & _ & Hs).
    { apply elem_of_app. right. by apply list_elem_of_singleton. }
    { by apply plain_component_single. }
    exists copy. rewrite Hserved. change [ManifestFilename] with (Split "/" ManifestFilename). cbn [df_Path] in Ec. by rewrite Ec.
  - intros file Hin Hdd. destruct (Hf (mkDomainFile (file_Path file) (file_Size file) (file_SHA256 file) None (file_SHA256 file))) as (copy & Ec & Hs).
    { apply elem_of_app. left. apply list_elem_of_fmap. by exists file. }
    { cbn. rewrite Forall_forall in Hpaths. by destruct (Hpaths file Hin). }
    exists copy. rewrite Hserved. cbn [df_Path] in Ec. by rewrite Ec.
  - intros l copy. rewrite Hserved. destruct l as [|x l _] using rev_ind; [by rewrite Hd|].
    destruct (fs !! (base ++ r :: l ++ [x])) as [[]|] eqn:E; try done. intros _. destruct (Hn l x _ E) as [_ [?|(file & Hin & El)]]; [done|].
    apply elem_of_app in Hin as [(f & -> & Hin)%list_elem_of_fmap|Hin%list_elem_of_singleton]; [right; by exists f|left]. subst file. by rewrite El.
Qed.

(** At every moment readers see what they saw, or the desired tree in place of the one expected. *)
Definition oldOrNew (expectedCurrent desiredTree : string) (fs : FS) : Prop :=
  asBefore base name fs0 fs ∨ (servesTree fs output desiredTree ∧ declares fs0 output expectedCurrent).

Lemma directory_published source expectedCurrent desiredTree :
  holds (oldOrNew expectedCurrent desiredTree) (asBefore base name fs0) (PublishVerifiedDirectory m source output expectedCurrent desiredTree)
    (λ r fs, oldOrNew expectedCurrent desiredTree fs ∧ (r = inr () → servesTree fs output desiredTree ∧ declares fs0 output expectedCurrent)).
Proof.
  destruct Halone as [Hund Hsuf]. unfold PublishVerifiedDirectory.
  set (C := oldOrNew expectedCurrent desiredTree). set (Q := λ (r : Errno + ()) fs, C fs ∧ (r = inr () → servesTree fs output desiredTree ∧ declares fs0 output expectedCurrent)).
  assert (HC : ∀ fs, asBefore base name fs0 fs → C fs) by by left.
  assert (Hstep : ∀ {A B : Type} (phi : A → Prop) (act : IO A) (f : A → IO B) Q', steady (ownedBy base name) C act → yields act phi →
    (∀ e fs, asBefore base name fs0 fs → Q' (inl e) fs) → (∀ a, phi a → holds C (asBefore base name fs0) (f a) Q') → holds C (asBefore base name fs0) (act ≫= f) Q').
  { intros A B phi act f Q' Ha Hy He Hf w Hw. destruct (Ha _ (local_asBefore base name fs0) HC w Hw) as [(t & Et & Ft) Hr]. specialize (Hy w).
    unfold mbind, IO_bind. destruct (act w) as [w1 [e|a]]; cbn in *; [split; [by exists t|by apply He]|].
    destruct (Hf a (Hy a eq_refl) w1 Hr) as [(t' & Et' & Ft') Hq]. split; [|done]. exists (t ++ t'). rewrite Et', Et, app_assoc. split; [done|by apply Forall_app]. }
  assert (He : ∀ e fs, asBefore base name fs0 fs → Q (inl e) fs) by (intros e fs Hfs; split; [by apply HC|done]).
  eapply Hstep; [by apply steady_VerifyRepository|apply VerifyRepository_manifest|done|]. intros manifest [Hpaths Htree].
  eapply Hstep; [apply steady_throw_when|apply yields_check|done|]. intros _ Hd%negb_false_iff%bool_decide_eq_true.
  eapply Hstep; [by apply steady_reads|apply yields_any|done|]. intros resolved _.
  eapply Hstep; [|apply snapshot_decodes|done|].
  { apply steady_bind; [by apply steady_readManifest|]. intros content. apply steady_bind; [apply steady_decodeManifest|]. intros actual.
    apply steady_bind; [apply steady_throw_when|]. intros _. apply steady_ret. }
  intros content Hdec. cbn zeta.
  assert (Hnew : ∀ fs, published base name fs0 (verifiedFiles manifest content) (Some expectedCurrent) fs → servesTree fs output desiredTree ∧ declares fs0 output expectedCurrent).
  { intros fs ([link Hlink] & r & _ & Hr & Hleads & Hc). split; [|by eapply found_declares]. rewrite <- Hd. by apply (complete_serves manifest content r). }
  assert (Hfiles : Forall (λ file, plainPath (df_Path file) ∨ df_Path file = "..") (verifiedFiles manifest content)).
  { apply Forall_app. split; [by apply Forall_fmap|]. constructor; [|constructor]. left. by apply plain_component_single. }
  set (sources := foldl _ _ _). set (artifact := mkArtifact _ _ _ _ _). intros w Hw.
  destruct (materialized m base name Hbase Hname Hsuf Hund fs0 (verifiedFiles manifest content) (Some expectedCurrent) managed_starts artifact sources eq_refl Hfiles w Hw)
    as [(t & Et & Ft) [Hat Hok]]. split; [exists t; split; [exact Et|]|].
  - eapply Forall_impl; [exact Ft|]. intros d [Hb|Hp]; [by left|right; by apply Hnew].
  - split; [destruct Hat as [Hb|Hp]; [by left|right; by apply Hnew]|]. intros Hr. by apply Hnew, Hok.
Qed.
End commit.

(** C8: A commit to a local repository is atomic and conditional.  Whichever calls fail and
    at whichever of them the process dies, as long as others leave the output's own entries
    alone, every reader at every moment finds either exactly what was served before, or the
    complete staged tree with nothing beside it, and the latter only where what was served
    before declares the tree the plan expected.  A commit that returns has switched. *)
Theorem local_commit_is_atomic m base name repository staged expected w :
  Forall plain_component base → plain_component name → localPath repository = Some (abs (base ++ [name])) →
  leftAlone m base name → managedOutput base name (files (disk w)) →
  let fs0 := files (disk w) in let output := abs (base ++ [name]) in
  let '(w', r) := CommitLocal m repository staged expected w in
  (∃ trail, past w' = past w ++ trail ∧
     ∀ d, d ∈ trail → (∀ l, served (files d) output l = served fs0 output l) ∨
       (servesTree (files d) output (sp_TreeSHA256 staged) ∧ declares fs0 output (exp_TreeSHA256 expected))) ∧
  match r with
  | inr result => rev_TreeSHA256 (com_Revision result) = sp_TreeSHA256 staged ∧
      servesTree (files (disk w')) output (sp_TreeSHA256 staged) ∧ declares fs0 output (exp_TreeSHA256 expected)
  | inl _ => True
  end.
Proof.
  intros Hbase Hname Hpath Halone Hstart fs0 output. unfold CommitLocal, atPath. rewrite Hpath.
  assert (Hb0 : asBefore base name fs0 (files (disk w))) by done.
  destruct (directory_published m base name Hbase Hname Halone fs0 Hstart (sp_ID staged) (exp_TreeSHA256 expected) (sp_TreeSHA256 staged) w Hb0)
    as [(trail & Et & Ft) [_ Hok]].
  assert (Htrail : ∀ d, d ∈ trail → (∀ l, served (files d) output l = served fs0 output l) ∨
    (servesTree (files d) output (sp_TreeSHA256 staged) ∧ declares fs0 output (exp_TreeSHA256 expected))).
  { intros d Hd. rewrite Forall_forall in Ft. destruct (Ft d Hd) as [Hb|Hn]; [left|by right]. intros l. by apply asBefore_served. }
  unfold mbind at 1, IO_bind at 1. cbn [mret IO_ret]. unfold mbind, IO_bind. fold output in Et, Hok. fold output.
  destruct (PublishVerifiedDirectory m (sp_ID staged) output _ _ w) as [w' [e|[]]]; cbn in *; (split; [by exists trail|]); [done|].
  split; [done|]. by apply Hok.
Qed.

Lemma look_past {A : Type} m (f : nat → FS → Errno + A) w w' r : look m f w = (w', r) → ∃ rest, past w' = past w ++ rest.
Proof.
  unfold look, callDisk, callOr. destruct (denied m (calls w)); [|destruct (f (calls w) _)]; intros [= <- _]; cbn; rewrite <- ?app_assoc; by eexists.
Qed.

(** The exchange loses nothing, whatever others do: the entry it displaces from the
    published name is the one found at the temporary name. *)
Lemma displaced_entry_kept m temporary output expectedLink w :
  let '(w', r) := exchangeReleaseLink m temporary output expectedLink w in
  ∀ v, r = inr v → v.1 = true →
  ∃ fs fs' fs'', files <$> past w' = (files <$> past w) ++ fs :: fs' :: fs'' ∧
    fs' !! components temporary = fs !! components output ∧ fs' !! components output = fs !! components temporary.
Proof.
  unfold exchangeReleaseLink. unfold mbind at 1, IO_bind at 1, tried at 1.
  destruct (exchangePaths m temporary output w) as [w1 [e|[]]] eqn:Ex; [by intros v [= <-]|].
  unfold exchangePaths, call, callDisk, callOr in Ex. destruct (denied m (calls w)); [done|].
  destruct (negb (canExchange m) || _ || _) eqn:Eg; [done|]. apply orb_false_iff in Eg as [[_ U1]%orb_false_iff U2].
  set (fs := files (disk (arrive m w))) in Ex. destruct (fs !! components temporary) as [t|] eqn:E1; [|done]. destruct (fs !! components output) as [o|] eqn:E2; [|done].
  injection Ex as <-. set (fs' := kmap _ fs : FS) in *.
  assert (Hswap : fs' !! components temporary = fs !! components output ∧ fs' !! components output = fs !! components temporary).
  { unfold fs'. rewrite !lookup_exchanged by done. unfold exchanged. rewrite U1. assert (Hself : ∀ p, under p p = true) by (intros p; apply under_spec; exists []; by rewrite app_nil_r).
    rewrite !Hself, !drop_all, !app_nil_r. done. }
  unfold mbind, IO_bind, tried. destruct (Readlink m temporary _) as [w2 r] eqn:Er.
  assert (Hp : ∃ rest, files <$> past w2 = ((files <$> past w) ++ [fs; fs']) ++ rest).
  { unfold Readlink in Er. eapply look_past in Er as [rest Hp]. exists (files <$> rest). rewrite Hp, fmap_app. f_equal. cbn [past reached arrive]. rewrite !fmap_app, <- app_assoc. reflexivity. }
  destruct Hp as [rest Hp]. destruct r as [e|a]; intros v [= <-] _; exists fs, fs', rest; (split; [by rewrite Hp, <- app_assoc|done]).
Qed.
End atomic.

(** * A concrete file system *)

Module LocalExample.
#[local] Existing Instances S3Example.hash_lib S3Example.time_lib.

Definition manifestText (n : string) : string := S3Example.body n ManifestFilename.
#[local] Instance tree_lib : TreeLib := {|
  MarshalRepositoryManifest manifest := rm_TreeSHA256 manifest;
  DecodeRepositoryManifest content := S3Example.manifest <$> List.find (λ n, bool_decide (manifestText n = content)) ["one"; "two"];
  FormatGeneratedAt _ := "now";
|}.

Definition machine (exchange : bool) : Machine :=
  mkMachine (λ _ fs, fs) (λ _, false) (λ _, 0%nat) (λ _ _, false) zeros (λ _, false) exchange "/" (λ _, true).

(** A staged tree. *)
Definition stagedTree (n : string) : FS :=
  list_to_map ([(["stage"; n], Directory); (["stage"; n; "charts"], Directory);
    (["stage"; n; ManifestFilename], Regular (manifestText n))] ++
    ((λ file, ("stage" :: n :: Split "/" (file_Path file), Regular (S3Example.body n (file_Path file)))) <$> S3Example.tree n)).
Definition initially : FS := <[["srv"] := Directory]> (<[["stage"] := Directory]> (stagedTree "one" ∪ stagedTree "two")).
Definition settled (fs : FS) : Disk := mkDisk fs fs (map_imap (λ _ e, match e with Regular c => Some c | _ => None end) fs).
Definition start : World := mkWorld (settled initially) 0 [].

Definition output : string := "/srv/charts".
Definition repository : LocalRepository := mkLocal output "" None.
Definition staged (n : string) : S3Staged :=
  mkS3Staged ("/stage/" +:+ n) (SHA256Hex n) "charts:0123456789ab" (TreeDigest (S3Example.tree n)) (S3Example.tree n) ["index.yaml"].
Definition expects (tree : string) : ExpectedRevision := mkExpected tree tree "" "" "" "" "" "" "".

Definition first : World * (Errno + CommitResult) := CommitLocal (machine true) repository (staged "one") (expects "") start.
Definition afterFirst : World := mkWorld (disk first.1) (calls first.1) [].
Definition second : World * (Errno + CommitResult) :=
  CommitLocal (machine true) repository (staged "two") (expects (TreeDigest (S3Example.tree "one"))) afterFirst.

Definition committed (r : Errno + CommitResult) : option string := match r with inr result => Some (rev_TreeSHA256 (com_Revision result)) | inl _ => None end.
Definition index (fs : FS) : option string := served fs output ["index.yaml"].

Lemma publications :
  committed first.2 = Some (TreeDigest (S3Example.tree "one")) ∧ committed second.2 = Some (TreeDigest (S3Example.tree "two")) ∧
  index (files (disk first.1)) = Some (S3Example.body "one" "index.yaml") ∧ index (files (disk second.1)) = Some (S3Example.body "two" "index.yaml") ∧
  served (files (disk second.1)) output ["charts"; "one.tgz"] = None.
Proof. vm_compute. split_and!; reflexivity. Qed.

(** The second publication, over the first. *)
Definition releaseOne : string := match files (disk afterFirst) !! atCurrent ["srv"] "charts" with Some (Symlink t) => sdrop 3 t | _ => "" end.

Lemma alone exchange : leftAlone (machine exchange) ["srv"] "charts".
Proof. split; [done|]. intros n. cbn [suffix machine]. by induction n. Qed.

Lemma first_managed : managedOutput ["srv"] "charts" (files (disk afterFirst)).
Proof. right. exists releaseOne. vm_compute. split_and!; done. Qed.

Lemma local_commit_is_atomic_witness :
  (let fs0 := files (disk afterFirst) in let out := abs (["srv"] ++ ["charts"]) in
   let '(w', r) := CommitLocal (machine true) repository (staged "two") (expects (TreeDigest (S3Example.tree "one"))) afterFirst in
   (∃ trail, past w' = past afterFirst ++ trail ∧
     ∀ d, d ∈ trail → (∀ l, served (files d) out l = served fs0 out l) ∨
       (servesTree (files d) out (sp_TreeSHA256 (staged "two")) ∧ declares fs0 out (exp_TreeSHA256 (expects (TreeDigest (S3Example.tree "one")))))) ∧
   match r with
   | inr result => rev_TreeSHA256 (com_Revision result) = sp_TreeSHA256 (staged "two") ∧
       servesTree (files (disk w')) out (sp_TreeSHA256 (staged "two")) ∧ declares fs0 out (exp_TreeSHA256 (expects (TreeDigest (S3Example.tree "one"))))
   | inl _ => True
   end) ∧ committed second.2 = Some (TreeDigest (S3Example.tree "two")).
Proof.
  split; [|by vm_compute].
  exact (local_commit_is_atomic (machine true) ["srv"] "charts" repository (staged "two") (expects (TreeDigest (S3Example.tree "one"))) afterFirst
           ltac:(by repeat constructor) ltac:(done) eq_refl (alone true) first_managed).
Defined.

(** ** What survives a loss of power *)

(** The release directory is entered in the directory of the output, which is synced only
    after the link to the release has been.  Between the two, what has reached the medium
    links to a release that has not: a loss of power then leaves nothing served, where the
    first publication was complete on the medium. *)
Theorem switch_before_release_is_durable :
  index (survivors (disk afterFirst)) = Some (S3Example.body "one" "index.yaml") ∧
  index (survivors (disk second.1)) = Some (S3Example.body "two" "index.yaml") ∧
  (λ d, index (survivors d)) <$> past second.1 !! 131%nat = Some None.
Proof. vm_compute. split_and!; reflexivity. Qed.

(** ** What a publication that failed leaves *)

(** Where the exchange fails (or the process dies before it), the link prepared for it stays
    in the control directory.  When the output is later removed, the recovery of the control
    directory expects it empty but for the current link: no publication succeeds any more. *)
Definition failed : World * (Errno + CommitResult) :=
  CommitLocal (machine false) repository (staged "two") (expects (TreeDigest (S3Example.tree "one"))) afterFirst.
Definition withoutOutput (w : World) : World :=
  let d := disk w in mkWorld (mkDisk (delete (components output) (files d)) (linked d) (flushed d)) (calls w) [].
Definition retried (w : World) : World * (Errno + CommitResult) := CommitLocal (machine true) repository (staged "two") (expects "") w.

Theorem leftover_link_blocks_publication :
  committed (retried (withoutOutput afterFirst)).2 = Some (TreeDigest (S3Example.tree "two")) ∧
  committed failed.2 = None ∧
  committed (retried (withoutOutput failed.1)).2 = None ∧
  committed (retried (retried (withoutOutput failed.1)).1).2 = None.
Proof. vm_compute. split_and!; reflexivity. Qed.
End LocalExample.

(** ** Rolling back *)

Section port.
Context `{HashLib, TimeLib, !TreeLib} (m : Machine) (repository : LocalRepository).

Definition localPort : HostPort IO := mkPort IO (mret CapabilitiesLocal) (ObserveLocal m repository) (λ _ _, RestoreLocal).

Lemma rollback_not_offered_by_local request w :
  (rollbackOn request localPort w).1 = w ∧ ∀ result, (rollbackOn request localPort w).2 ≠ inr (Ok result).
Proof. done. Qed.
End port.
