(* ===== verification/Placements.v ===== *)
(** The commands that edit the placements of a lock: [engine/placements.go] and
    [engine/prune.go].

    The files of the lock are the state; the manifest as it loads under the workspace
    lock and the ledger history are arguments.  Every command
    loads and checks the lock, edits it, checks it again and stores it if it changed. *)

From S2P Require Import Prelude GoStrings GoSlices GoRegexp Model Formats Source RawVersion Lock LockInvariant LockOps Prune LockHistory.
From S2P Require Import JsonStrict Ledger PlanJson LockShard.

Open Scope Z_scope.

Definition nativePackageName (format name : string) : string :=
  match For format with Ok selected => NormalizedName selected name | Err _ => name end.

Definition defaultPlacementDistro (repository : Repository) (requested : string) : string :=
  if negb (bool_decide (requested = "")) then requested
  else match For (repo_Format repository) with
       | Ok selected => if SupportsDistros selected then repo_Suite repository else ""
       | Err _ => ""
       end.

Record PlacementMutationRequest := mkMutation {
  mut_Repository : string; mut_Package : string; mut_Version : string; mut_Track : string; mut_Distro : string; mut_All : bool;
}.
Record PlacementMutationResult := mkMutated {
  done_Repository : string; done_Package : string; done_Version : string; done_Track : string; done_Distro : string; Changed : Z; done_All : bool;
}.
Record PruneRequest := mkPruneRequest { pr_Repository : string; Keep : Z }.
Record PruneResult := mkPruneResult { pruned_Repository : string; pruned_Keep : Z; PruneRemoved : Z }.

Section commands.
Context `{NetLib, HashLib, TomlLib, SemVer}.

(** What a command reads: whether it runs in a git repository, the manifest, the limit on
    the size of a lock and the ledger. *)
Record Opened := mkOpened { op_Git : result (); op_Manifest : result Manifest; op_Limit : string; op_Ledger : result (list PublicationRecord) }.

Definition checkedLock (lock : RepositoryLock) (name : string) (repository : Repository) (ledger : list PublicationRecord) : result () :=
  _ ← ValidateLock lock name (repo_Format repository);
  ValidatePublishedBindings lock ledger.

(** The lock of a configured repository, checked with its ledger. *)
Definition openLock (opened : Opened) (name : string) (files : LockFiles) : result (Repository * RepositoryLock * list PublicationRecord) :=
  manifest ← op_Manifest opened;
  match man_Repositories manifest !! name with
  | None => Err "repository is not configured"
  | Some repository =>
      lock ← LoadLock (op_Limit opened) files;
      _ ← ValidateLock lock name (repo_Format repository);
      ledger ← op_Ledger opened;
      _ ← ValidatePublishedBindings lock ledger;
      Ok (repository, lock, ledger)
  end.

(** Checking the edited lock and storing it if it changed. *)
Definition storeLock (name : string) (repository : Repository) (ledger : list PublicationRecord) (lock : RepositoryLock) (changed : Z)
    (files : LockFiles) : LockFiles * result () :=
  match checkedLock lock name repository ledger with
  | Err e => (files, Err e)
  | Ok _ => if negb (changed =? 0) then LockShard.WriteLock files lock else (files, Ok ())
  end.

Definition mutation (request : PlacementMutationRequest) (promote : bool) (repository : Repository) (lock : RepositoryLock)
    : RepositoryLock * result Z :=
  let packageName := nativePackageName (repo_Format repository) (mut_Package request) in
  let distro := if mut_All request then mut_Distro request else defaultPlacementDistro repository (mut_Distro request) in
  if promote then
    let '(lock, added) := PromotePlacement lock (repo_Format repository) packageName (mut_Version request) (mut_Track request) distro in
    (lock, match added with Ok true => Ok 1 | Ok false => Ok 0 | Err e => Err e end)
  else YankPlacements lock (repo_Format repository) packageName (mut_Version request) (mut_Track request) distro (mut_All request).

Definition mutatePlacement (opened : Opened) (request : PlacementMutationRequest) (promote : bool) (files : LockFiles)
    : LockFiles * result PlacementMutationResult :=
  if negb (is_ok (op_Git opened)) then (files, Err "not a git repository")
  else if bool_decide (mut_Repository request = "") || bool_decide (mut_Package request = "") || bool_decide (mut_Version request = "")
  then (files, Err "repository, package, and version are required")
  else match openLock opened (mut_Repository request) files with
  | Err e => (files, Err e)
  | Ok (repository, lock, ledger) =>
      match mutation request promote repository lock with
      | (_, Err e) => (files, Err e)
      | (lock, Ok changed) =>
          let '(files, stored) := storeLock (mut_Repository request) repository ledger lock changed files in
          (files, _ ← stored;
                  Ok (mkMutated (mut_Repository request) (nativePackageName (repo_Format repository) (mut_Package request)) (mut_Version request)
                        (mut_Track request)
                        (if mut_All request then mut_Distro request else defaultPlacementDistro repository (mut_Distro request))
                        changed (mut_All request)))
      end
  end.

Definition set_Track (track : string) (request : PlacementMutationRequest) : PlacementMutationRequest :=
  mkMutation (mut_Repository request) (mut_Package request) (mut_Version request) track (mut_Distro request) (mut_All request).

Definition Promote (opened : Opened) (request : PlacementMutationRequest) (files : LockFiles) : LockFiles * result PlacementMutationResult :=
  mutatePlacement opened (if bool_decide (mut_Track request = "") then set_Track "stable" request else request) true files.

Definition Yank (opened : Opened) (request : PlacementMutationRequest) (files : LockFiles) : LockFiles * result PlacementMutationResult :=
  if eqb (mut_All request) (negb (bool_decide (mut_Track request = "")))
  then (files, Err "yank requires exactly one of a track or all placements")
  else mutatePlacement opened request false files.

Definition Prune (opened : Opened) (request : PruneRequest) (files : LockFiles) : LockFiles * result PruneResult :=
  if negb (is_ok (op_Git opened)) then (files, Err "not a git repository")
  else if Keep request <? 1 then (files, Err "prune retention must keep at least one version")
  else match openLock opened (pr_Repository request) files with
  | Err e => (files, Err e)
  | Ok (repository, lock, ledger) =>
      match For (repo_Format repository) with
      | Err _ => (files, Err "repository has unsupported format")
      | Ok selected =>
          match PrunePlacements lock (Keep request) (Some (Formats.CompareVersions selected)) with
          | (_, Err e) => (files, Err e)
          | (lock, Ok removed) =>
              let '(files, stored) := storeLock (pr_Repository request) repository ledger lock removed files in
              (files, _ ← stored; Ok (mkPruneResult (pr_Repository request) (Keep request) removed))
          end
      end
  end.

(** ** What a command does to the lock *)

(** The stored lock is left alone, or a step of the lock's history is stored: one that
    validates and keeps what was published. *)
Definition edited (opened : Opened) (name : string) (files files' : LockFiles) (succeeded : bool) : Prop :=
  files' = files ∨
  ∃ repository l l' ledger stored,
    openLock opened name files = Ok (repository, l, ledger) ∧ lock_step (repo_Format repository) l l' ∧
    ValidateLock l' name (repo_Format repository) = Ok () ∧ ValidatePublishedBindings l' ledger = Ok () ∧
    LockShard.WriteLock files l' = (files', stored) ∧ is_ok stored = succeeded ∧
    ∀ packageName version x, holds l packageName version x → ∃ y, holds l' packageName version y ∧ same_bytes x y.

Lemma storeLock_edits opened name repository l l' ledger changed files files' stored :
  openLock opened name files = Ok (repository, l, ledger) → lock_step (repo_Format repository) l l' →
  storeLock name repository ledger l' changed files = (files', stored) → edited opened name files files' (is_ok stored).
Proof.
  intros Ho Hs. unfold storeLock, checkedLock. destruct (ValidateLock l' name _) as [[]|] eqn:Hv; cbn [mbind result_bind]; [|intros [= <- <-]; by left].
  destruct (ValidatePublishedBindings l' ledger) as [[]|] eqn:Hb; [|intros [= <- <-]; by left].
  destruct (negb _); [|intros [= <- <-]; by left]. intros Hw. right. exists repository, l, l', ledger, stored.
  split_and!; try done. intros packageName version x Hx. by apply (lock_step_kept _ _ _ Hs packageName version x Hx).
Qed.

Lemma mutation_step request promote repository lock : lock_step (repo_Format repository) lock (mutation request promote repository lock).1.
Proof.
  unfold mutation. cbn zeta. destruct promote; [|apply step_yank].
  match goal with |- lock_step _ _ (let '(_, _) := ?p in _).1 => pose proof (step_promote (repo_Format repository) lock) as Hp; destruct p as [l r] eqn:E end.
  cbn [fst]. change l with (l, r).1. rewrite <- E. apply Hp.
Qed.

Lemma mutatePlacement_edits opened request promote files :
  let '(files', r) := mutatePlacement opened request promote files in edited opened (mut_Repository request) files files' (is_ok r).
Proof.
  unfold mutatePlacement. destruct (negb _); [by left|]. destruct (_ || _ || _); [by left|].
  destruct (openLock opened (mut_Repository request) files) as [[[repository l] ledger]|e] eqn:Ho; [|by left].
  pose proof (mutation_step request promote repository l) as Hs. destruct (mutation request promote repository l) as [l' [changed|e]]; [|by left].
  destruct (storeLock _ _ _ _ _ _) as [files' stored] eqn:Est. cbn [fst] in Hs.
  pose proof (storeLock_edits _ _ _ _ _ _ _ _ _ _ Ho Hs Est) as He. by destruct stored.
Qed.

(** The placement commands keep the lock.  Whatever promote, yank and prune are asked,
    on any lock and ledger, they leave the stored lock as it was, or store a lock that is one
    step of the lock's history away: it validates, keeps every published binding, and binds
    every artifact the stored one held to the same bytes. *)
Theorem placement_commands_keep_lock opened files :
  (∀ request, let '(files', r) := Promote opened request files in edited opened (mut_Repository request) files files' (is_ok r)) ∧
  (∀ request, let '(files', r) := Yank opened request files in edited opened (mut_Repository request) files files' (is_ok r)) ∧
  (∀ request, let '(files', r) := Prune opened request files in edited opened (pr_Repository request) files files' (is_ok r)).
Proof.
  split_and!; intros request.
  - unfold Promote. case_bool_decide; [apply (mutatePlacement_edits opened (set_Track "stable" request))|apply mutatePlacement_edits].
  - unfold Yank. destruct (eqb _ _); [by left|]. apply mutatePlacement_edits.
  - unfold Prune. destruct (negb _); [by left|]. destruct (_ <? _); [by left|].
    destruct (openLock opened (pr_Repository request) files) as [[[repository l] ledger]|e] eqn:Ho; [|by left].
    destruct (For (repo_Format repository)) as [selected|]; [|by left].
    pose proof (step_prune (repo_Format repository) l (Keep request) (Some (Formats.CompareVersions selected))) as Hs.
    destruct (PrunePlacements l _ _) as [l' [removed|e]]; [|by left].
    destruct (storeLock _ _ _ _ _ _) as [files' stored] eqn:Est. cbn [fst] in Hs.
    pose proof (storeLock_edits _ _ _ _ _ _ _ _ _ _ Ho Hs Est) as He. by destruct stored.
Qed.
End commands.
