(* ===== verification/Rollout.v ===== *)
(** When each version was published: [engine/rollout.go].

    A rollout folds the ledger of a repository into one entry per version.  The code
    keeps an index from the version to its entry and updates the entry in place; the
    specification groups the records of each version. *)

From S2P Require Import Prelude GoStrings GoSlices Model Formats Source Lock JsonStrict Ledger Forge PlanJson Gate Manifest.
From S2P Require Import Host Deployment Signing Plan.

Open Scope Z_scope.

Record RolloutRequest := mkRolloutRequest { ro_Repository : string; ro_Package : string; IncludeWithdrawn : bool }.

Record RolloutRelease := mkRolloutRelease {
  rl_Repository : string; rl_Package : string; rl_Version : string; rl_PublishedAt : string; rl_Publications : Z; rl_Served : bool;
  rl_TreeSHA256 : string; rl_Artifacts : list string;
}.

Definition recordIdentity (record : PublicationRecord) : string := pub_Package record +:+ nul +:+ pub_Version record.

(** The branch of a version that has an entry: its count and its newest tree. *)
Definition republish (record : PublicationRecord) (release : RolloutRelease) : RolloutRelease :=
  mkRolloutRelease (rl_Repository release) (rl_Package release) (rl_Version release) (rl_PublishedAt release) (rl_Publications release + 1)
    (rl_Served release) (pub_TreeSHA256 record) (pub_BlobSHA256 record).

Definition firstRelease (repository : string) (served : gset string) (record : PublicationRecord) : RolloutRelease :=
  mkRolloutRelease repository (pub_Package record) (pub_Version record) (pub_RecordedAt record) 1
    (bool_decide (recordIdentity record ∈ served)) (pub_TreeSHA256 record) (pub_BlobSHA256 record).

(** The loop: the index of every version seen, and the entries. *)
Fixpoint foldRecords (repository : string) (served : gset string) (package : string) (index : gmap string nat) (releases : list RolloutRelease)
    (records : list PublicationRecord) : list RolloutRelease :=
  match records with
  | [] => releases
  | record :: records =>
      if negb (bool_decide (package = "")) && negb (bool_decide (package = pub_Package record))
      then foldRecords repository served package index releases records
      else
        let identity := recordIdentity record in
        match index !! identity with
        | Some at_ => foldRecords repository served package index (alter (republish record) at_ releases) records
        | None =>
            foldRecords repository served package (<[identity := length releases]> index)
              (releases ++ [firstRelease repository served record]) records
        end
  end.

Definition rolloutReleases (repository : string) (records : list PublicationRecord) (served : gset string) (request : RolloutRequest)
    : list RolloutRelease :=
  let releases := foldRecords repository served (ro_Package request) ∅ [] records in
  if IncludeWithdrawn request then releases else List.filter rl_Served releases.

(** The versions a repository serves. *)
Definition servedVersions (lock : RepositoryLock) (repository : Repository) : gset string :=
  list_to_set ((λ version, pv_Package version +:+ nul +:+ pv_Version version) <$> visiblePackageVersions lock repository).

Definition releaseLess (left right : RolloutRelease) : bool :=
  if negb (bool_decide (rl_Repository left = rl_Repository right)) then str_ltb (rl_Repository left) (rl_Repository right)
  else if negb (bool_decide (rl_Package left = rl_Package right)) then str_ltb (rl_Package left) (rl_Package right)
  else str_ltb (rl_Version left) (rl_Version right).

(** ** The command *)

(** What the command reads of a repository: its ledger history at the committed revision
    and its lock. *)
Record RolloutReads := mkRolloutReads { rd_History : result (list PublicationRecord); rd_Lock : result RepositoryLock }.

Definition RepositoryNames (manifest : Manifest) : list string := Strings (map_to_list (man_Repositories manifest)).*1.

Section command.
Context `{NetLib, LedgerLib}.

Definition rolloutRepository (request : RolloutRequest) (name : string) (repository : Repository) (reads : RolloutReads)
    : result (list RolloutRelease) :=
  records ← rd_History reads;
  _ ← ValidatePublicationHistory name records;
  lock ← rd_Lock reads;
  _ ← ValidateLock lock name (repo_Format repository);
  Ok (rolloutReleases name records (servedVersions lock repository) request).

Fixpoint rolloutAll (request : RolloutRequest) (manifest : Manifest) (reads : string → RolloutReads) (names : list string)
    : result (list RolloutRelease) :=
  match names with
  | [] => Ok []
  | name :: names =>
      if negb (bool_decide (ro_Repository request = "")) && negb (bool_decide (ro_Repository request = name))
      then rolloutAll request manifest reads names
      else match man_Repositories manifest !! name with
           | None => rolloutAll request manifest reads names
           | Some repository =>
               releases ← rolloutRepository request name repository (reads name);
               rest ← rolloutAll request manifest reads names;
               Ok (releases ++ rest)
           end
  end.

(** [clean] is the revision of a clean worktree, [unchanged] that it is still checked out
    at the end. *)
Definition RolloutWorkspace (request : RolloutRequest) (clean : result string) (manifest : result Manifest) (reads : string → RolloutReads)
    (unchanged : result ()) : result (string * list RolloutRelease) :=
  revision ← clean;
  manifest ← manifest;
  releases ← rolloutAll request manifest reads (RepositoryNames manifest);
  _ ← unchanged;
  Ok (revision, sort_slice releaseLess releases).
End command.

(** ** Specification *)

Definition ofPackage (package : string) (record : PublicationRecord) : bool :=
  bool_decide (package = "") || bool_decide (package = pub_Package record).

(** The records of one version, summed up: published with its first record, served from
    the tree of its last. *)
Definition summary (repository : string) (served : gset string) (group : list PublicationRecord) : option RolloutRelease :=
  match group with
  | [] => None
  | first :: _ =>
      let newest := List.last group first in
      Some (mkRolloutRelease repository (pub_Package first) (pub_Version first) (pub_RecordedAt first) (Z.of_nat (length group))
              (bool_decide (recordIdentity first ∈ served)) (pub_TreeSHA256 newest) (pub_BlobSHA256 newest))
  end.

(** The versions in the order they were first published. *)
Fixpoint firstSeen (seen : gset string) (records : list PublicationRecord) : list string :=
  match records with
  | [] => []
  | record :: records =>
      if bool_decide (recordIdentity record ∈ seen) then firstSeen seen records
      else recordIdentity record :: firstSeen ({[recordIdentity record]} ∪ seen) records
  end.

Definition groupOf (identity : string) (records : list PublicationRecord) : list PublicationRecord :=
  List.filter (λ record, bool_decide (recordIdentity record = identity)) records.

Definition rolloutSpec (repository : string) (served : gset string) (package : string) (records : list PublicationRecord) : list RolloutRelease :=
  let records := List.filter (ofPackage package) records in
  omap (λ identity, summary repository served (groupOf identity records)) (firstSeen ∅ records).

(** ** The loop meets it *)

Section rollout.
Context (repository : string) (served : gset string).

Lemma firstSeen_spec seen records identity :
  identity ∈ firstSeen seen records ↔ (identity ∉ seen) ∧ ∃ record, record ∈ records ∧ recordIdentity record = identity.
Proof.
  revert seen. induction records as [|r records IH]; intros seen; cbn [firstSeen].
  { split; [by intros ?%not_elem_of_nil|]. by intros (_ & r & Hr%not_elem_of_nil & _). }
  case_bool_decide as Hin.
  - rewrite IH. split; intros [Hs (x & Hx & Ex)]; (split; [done|]); [exists x; split; [by right|done]|].
    apply elem_of_cons in Hx as [->|Hx]; [by rewrite Ex in Hin|by exists x].
  - rewrite elem_of_cons, IH. split.
    + intros [->|[Hs (x & Hx & Ex)]]; [split; [done|exists r; by split; [left|]]|]. split; [set_solver|]. exists x. by split; [right|].
    + intros [Hs (x & Hx & Ex)]. destruct (decide (identity = recordIdentity r)) as [->|Hne]; [by left|right]. split; [set_solver|].
      apply elem_of_cons in Hx as [->|Hx]; [done|by exists x].
Qed.

Lemma firstSeen_NoDup seen records : NoDup (firstSeen seen records).
Proof.
  revert seen. induction records as [|r records IH]; intros seen; cbn [firstSeen]; [constructor|]. case_bool_decide; [apply IH|].
  constructor; [|apply IH]. rewrite firstSeen_spec. set_solver.
Qed.

Lemma firstSeen_snoc seen records r :
  firstSeen seen (records ++ [r]) =
    firstSeen seen records ++ (if bool_decide (recordIdentity r ∈ seen ∨ (recordIdentity r ∈ firstSeen seen records)) then [] else [recordIdentity r]).
Proof.
  revert seen. induction records as [|x records IH]; intros seen; cbn [firstSeen app].
  { repeat case_bool_decide; set_solver. }
  case_bool_decide as Hx; rewrite IH; cbn [app]; [done|]. do 2 f_equal. rewrite (bool_decide_ext _ (recordIdentity r ∈ seen ∨ recordIdentity r ∈ recordIdentity x :: firstSeen ({[recordIdentity x]} ∪ seen) records)); [done|].
  set_solver.
Qed.

Lemma groupOf_app identity a b : groupOf identity (a ++ b) = groupOf identity a ++ groupOf identity b.
Proof. apply List.filter_app. Qed.

Lemma groupOf_none identity records : identity ∉ firstSeen ∅ records → groupOf identity records = [].
Proof.
  rewrite firstSeen_spec. intros Hn. unfold groupOf. destruct (List.filter _ records) as [|r l] eqn:E; [done|]. exfalso.
  assert (Hr : In r (List.filter (λ record, bool_decide (recordIdentity record = identity)) records)) by (rewrite E; by left).
  apply filter_In in Hr as [Hr Hb]. apply bool_decide_eq_true in Hb. apply Hn. split; [set_solver|]. exists r. split; [by apply list_elem_of_In|done].
Qed.

Lemma summary_snoc group release r :
  summary repository served group = Some release → summary repository served (group ++ [r]) = Some (republish r release).
Proof.
  destruct group as [|x group]; [done|]. cbn [summary app]. intros [= <-]. unfold republish. cbn [rl_Repository rl_Package rl_Version rl_PublishedAt rl_Publications rl_Served].
  change (x :: group ++ [r]) with ((x :: group) ++ [r]). rewrite last_last, length_app. cbn [length]. do 2 f_equal. lia.
Qed.

(** What the loop knows after the records [ds]. *)
Definition folded (ds : list PublicationRecord) (index : gmap string nat) (releases : list RolloutRelease) : Prop :=
  Forall2 (λ identity release, summary repository served (groupOf identity ds) = Some release) (firstSeen ∅ ds) releases ∧
  ∀ identity i, index !! identity = Some i ↔ firstSeen ∅ ds !! i = Some identity.

Lemma folded_seen ds index releases r i :
  folded ds index releases → index !! recordIdentity r = Some i → folded (ds ++ [r]) index (alter (republish r) i releases).
Proof.
  intros [Hall Hidx] Hi. pose proof (proj1 (Hidx _ _) Hi) as Hids. pose proof (list_elem_of_lookup_2 _ _ _ Hids) as Hin.
  unfold folded. rewrite firstSeen_snoc, bool_decide_eq_true_2, app_nil_r by by right. split; [|done].
  apply Forall2_same_length_lookup_2; [by rewrite length_alter, (Forall2_length _ _ _ Hall)|].
  intros j identity release Ej Er. rewrite groupOf_app. destruct (decide (j = i)) as [->|Hne].
  - rewrite Hids in Ej. injection Ej as <-. rewrite list_lookup_alter, decide_True in Er by done. apply fmap_Some in Er as (old & Eo & ->).
    assert (groupOf (recordIdentity r) [r] = [r]) as -> by (unfold groupOf; cbn; by rewrite bool_decide_eq_true_2).
    apply summary_snoc. by apply (Forall2_lookup_lr _ _ _ _ _ _ Hall Hids Eo).
  - rewrite list_lookup_alter, decide_False in Er by done.
    assert (recordIdentity r ≠ identity) as Hid by (intros <-; apply Hne; by eapply NoDup_lookup; [apply firstSeen_NoDup|..]).
    assert (groupOf identity [r] = []) as -> by (unfold groupOf; cbn; by rewrite bool_decide_eq_false_2). rewrite app_nil_r.
    by apply (Forall2_lookup_lr _ _ _ _ _ _ Hall Ej Er).
Qed.

Lemma folded_new ds index releases r :
  folded ds index releases → index !! recordIdentity r = None →
  folded (ds ++ [r]) (<[recordIdentity r := length releases]> index) (releases ++ [firstRelease repository served r]).
Proof.
  intros [Hall Hidx] Hnone. assert (Hnot : recordIdentity r ∉ firstSeen ∅ ds).
  { intros (i & Hi)%list_elem_of_lookup_1. apply Hidx in Hi. congruence. }
  unfold folded. rewrite firstSeen_snoc, bool_decide_eq_false_2 by set_solver. split.
  - apply Forall2_app.
    + apply Forall2_same_length_lookup_2; [by apply (Forall2_length _ _ _ Hall)|]. intros j identity release Ej Er. rewrite groupOf_app.
      assert (groupOf identity [r] = []) as ->.
      { unfold groupOf. cbn. rewrite bool_decide_eq_false_2; [done|]. intros <-. apply Hnot. by eapply list_elem_of_lookup_2. }
      rewrite app_nil_r. by apply (Forall2_lookup_lr _ _ _ _ _ _ Hall Ej Er).
    + constructor; [|constructor]. rewrite groupOf_app, (groupOf_none _ _ Hnot). unfold groupOf. cbn. by rewrite bool_decide_eq_true_2.
  - intros identity i. rewrite <- (Forall2_length _ _ _ Hall), lookup_insert_Some, lookup_app_Some, Hidx. split.
    + intros [[<- <-]|[Hne Hi]]; [right|by left]. split; [done|]. by rewrite Nat.sub_diag.
    + intros [Hi|[Hle Hi]]; [right; split; [|done]; intros <-; apply Hnot; by eapply list_elem_of_lookup_2|left].
      apply list_lookup_singleton_Some in Hi as [Hz <-]. split; [done|lia].
Qed.

Lemma foldRecords_folded package ds index releases records :
  folded ds index releases →
  ∃ index', folded (ds ++ List.filter (ofPackage package) records) index' (foldRecords repository served package index releases records).
Proof.
  revert ds index releases. induction records as [|r records IH]; intros ds index releases Hf; cbn [foldRecords List.filter].
  { exists index. by rewrite app_nil_r. }
  unfold ofPackage at 1. rewrite <- negb_orb. destruct (_ || _); cbn [negb]; [|by apply IH].
  change (r :: List.filter (ofPackage package) records) with ([r] ++ List.filter (ofPackage package) records). rewrite (app_assoc ds).
  destruct (index !! recordIdentity r) as [i|] eqn:E; apply IH; [by apply folded_seen|by apply folded_new].
Qed.

End rollout.
