(* ===== verification/Collect.v ===== *)
(** Collecting superseded publications: which revisions a repository keeps
    ([engine/collect.go]) and what an object store removes
    ([adapters/host/s3/collect.go], with the object keys of
    [adapters/host/s3/s3.go]).

    A bucket is a map from keys to sizes.  What the adapter reads of the live
    revision, of restore descriptors and of release descriptors is the record
    [StoreView]: the requests it makes before it removes anything.  A listing is
    read page by page while objects are deleted, but a page only lists keys after
    those of the pages before it, so the pages together list the bucket as it was.
    [Requests] says which requests the store answers: a page that cannot be listed
    and a deletion that is refused stop the collection where it is. *)

From S2P Require Import Prelude GoStrings GoSlices Model Formats Ledger Host Rotation S3Store S3Keys.

Open Scope Z_scope.

(** ** Which revisions to keep *)

Definition DefaultKeep : Z := 10.

Definition retentionFor (repository : Repository) (requested : option Z) : Z :=
  match requested with
  | Some n => n
  | None => if 0 <? repo_Keep repository then repo_Keep repository else DefaultKeep
  end.

(** The loop from the newest record down; [records] is already reversed. *)
Fixpoint distinctTrees (seen : gset string) (keep : nat) (records : list PublicationRecord) : list string :=
  match keep, records with
  | O, _ | _, [] => []
  | S remaining, record :: rest =>
      let tree := pub_TreeSHA256 record in
      if bool_decide (tree = "") || bool_decide (tree ∈ seen) then distinctTrees seen keep rest
      else tree :: distinctTrees ({[tree]} ∪ seen) remaining rest
  end.

Definition newestDistinctTrees (records : list PublicationRecord) (keep : Z) : list string :=
  if keep <=? 0 then [] else Strings (distinctTrees ∅ (Z.to_nat keep) (reverse records)).

(** [history] is the ledger loaded at the revision. *)
Definition recentPublishedTrees `{LedgerLib} (history : result (list PublicationRecord)) (name : string) (keep : Z)
    : result (list string) :=
  if keep =? 0 then Ok []
  else
    records ← history;
    _ ← ValidatePublicationHistory name records;
    Ok (newestDistinctTrees records keep).

(** ** Object keys *)

Definition releasePrefix : string := ".snailmail/releases/".

Definition treeFromReleaseKey (prefix key : string) : option string :=
  let remainder := TrimPrefix key prefix in
  if bool_decide (remainder = key) then None
  else match cut_byte "/" remainder with
       | Some (tree, rest) => if bool_decide (rest = "") || negb (ValidSHA256 tree) then None else Some tree
       | None => None
       end.

Definition withSlash (prefix : string) : string := if HasSuffix prefix "/" then prefix else prefix +:+ "/".

(** ** What must survive *)

(** The check of the repository, and the reads: an error, or [None] where there is
    no such object. *)
Record StoreView := mkStoreView {
  view_valid : result ();
  view_observed : result PublishedRevision;
  view_restore : string → result (option string);
  view_release : string → result (option (list string));
}.

Fixpoint keepNamed (trees : list string) (keep : gset string) : result (gset string) :=
  match trees with
  | [] => Ok keep
  | tree :: rest =>
      refuse "retention names what is not a tree digest" when negb (ValidSHA256 tree);
      keepNamed rest ({[tree]} ∪ keep)
  end.

(** [view_restore] gives the tree the live revision replaced. *)
Definition protectedTrees (view : StoreView) (retention : Retention) : result (gset string) :=
  keep ← keepNamed (KeepTrees retention) ∅;
  observed ← view_observed view;
  refuse "repository has no managed revision" when bool_decide (rev_TreeSHA256 observed = "");
  let keep := {[rev_TreeSHA256 observed]} ∪ keep in
  if bool_decide (rev_RestoreID observed = "") then Ok keep
  else
    restore ← view_restore view (rev_RestoreID observed);
    match restore with
    | None => Err "live revision names a restore reference that is missing"
    | Some before => Ok (if bool_decide (before = "") then keep else {[before]} ∪ keep)
    end.

Fixpoint referencedBy (view : StoreView) (repository : S3Repository) (trees : list string) (referenced : gset string)
    : result (gset string) :=
  match trees with
  | [] => Ok referenced
  | tree :: rest =>
      release ← view_release view tree;
      match release with
      | None => Err "revision has no release descriptor"
      | Some files => referencedBy view repository rest (list_to_set (objectKey repository <$> files) ∪ referenced)
      end
  end.

Definition referencedObjectKeys (view : StoreView) (repository : S3Repository) (keep : gset string) : result (gset string) :=
  referencedBy view repository (elements keep) ∅.

(** ** Removing *)

(** The objects of a listing. *)
Definition listed (bucket : gmap string Z) (prefix : string) : list (string * Z) :=
  List.filter (λ o, HasPrefix o.1 prefix) (map_to_list bucket).

(** Whether the page with a key is listed, and whether a deletion is performed.
    The first page of a listing is asked for by its prefix. *)
Record Requests := mkRequests {
  canList : string → bool;
  canDelete : string → bool;
}.

(** The loops over a listing: [spare] is the test that leaves an object alone. *)
Fixpoint removeObjects (requests : Requests) (dryRun : bool) (spare : string → bool) (objects : list (string * Z))
    (bucket : gmap string Z) (removed bytes : Z) : gmap string Z * result (Z * Z) :=
  match objects with
  | [] => (bucket, Ok (removed, bytes))
  | (key, size) :: rest =>
      if negb (canList requests key) then (bucket, Err "list S3 objects")
      else if spare key then removeObjects requests dryRun spare rest bucket removed bytes
      else if dryRun then removeObjects requests dryRun spare rest bucket (removed + 1) (int64 (bytes + size))
      else if canDelete requests key then removeObjects requests dryRun spare rest (delete key bucket) (removed + 1) (int64 (bytes + size))
      else (bucket, Err "delete superseded S3 object")
  end.

Definition spareRelease (prefix : string) (keep : gset string) (key : string) : bool :=
  match treeFromReleaseKey prefix key with
  | None => true
  | Some tree => bool_decide (tree ∈ keep)
  end.

Definition spareCanonical (repository : S3Repository) (referenced : gset string) (key : string) : bool :=
  let reserved := objectKey repository ".snailmail" in
  bool_decide (key = reserved) || HasPrefix key (reserved +:+ "/") || bool_decide (key ∈ referenced) ||
  bool_decide (key = browsablePageKey repository).

Definition collectOrphanedObjects (requests : Requests) (view : StoreView) (repository : S3Repository)
    (keep : gset string) (retention : Retention) (bucket : gmap string Z) : gmap string Z * result (Z * Z) :=
  if hasRewriter repository then (bucket, Ok (0, 0))
  else
    match referencedObjectKeys view repository keep with
    | Err e => (bucket, Err e)
    | Ok referenced =>
        let prefix := objectKey repository "" in
        let prefix := if bool_decide (prefix = "") then prefix else withSlash prefix in
        if negb (canList requests prefix) then (bucket, Err "list S3 objects")
        else removeObjects requests (DryRun retention) (spareCanonical repository referenced) (listed bucket prefix) bucket 0 0
    end.

(** The revisions present under the release prefix that are kept. *)
Definition keptRevisions (prefix : string) (keep : gset string) (objects : list (string * Z)) : gset string :=
  filter (λ tree, tree ∈ keep) (list_to_set (omap (λ o, treeFromReleaseKey prefix o.1) objects)).

Definition Collect (requests : Requests) (view : StoreView) (repository : S3Repository) (retention : Retention)
    (bucket : gmap string Z) : gmap string Z * result CollectResult :=
  if negb (is_ok (view_valid view)) then (bucket, Err "configure S3 host")
  else if negb (length (s3_CommitPaths repository) =? 1)%nat
  then (bucket, Err "format makes a revision live by switching several paths")
  else
    match protectedTrees view retention with
    | Err e => (bucket, Err e)
    | Ok keep =>
        let prefix := withSlash (objectKey repository releasePrefix) in
        let objects := listed bucket prefix in
        if negb (canList requests prefix) then (bucket, Err "list S3 releases")
        else
        match removeObjects requests (DryRun retention) (spareRelease prefix keep) objects bucket 0 0 with
        | (bucket, Err e) => (bucket, Err e)
        | (bucket, Ok (removed, bytes)) =>
            match collectOrphanedObjects requests view repository keep retention bucket with
            | (bucket, Err e) => (bucket, Err e)
            | (bucket, Ok (orphans, orphanBytes)) =>
                (bucket, Ok (mkCollectResult (removed + orphans) (int64 (bytes + orphanBytes))
                               (Z.of_nat (size (keptRevisions prefix keep objects))) (DryRun retention)))
            end
        end
    end.
