(* ===== verification/CollectProofs.v ===== *)
(** A collection never removes what is served or can be restored, stays inside its
    repository, and its dry run tells the truth. *)

From S2P Require Import Prelude GoStrings GoSlices GoRegexp Model Formats Source Lock Forge PlanJson Manifest ManifestOps ManifestProofs.
From S2P Require Import Ledger Host Rotation S3Store S3Keys S3KeyProofs Collect.

Open Scope Z_scope.

(** ** Retention *)

Definition nonEmptyTrees (records : list PublicationRecord) : list string :=
  List.filter (λ t, negb (bool_decide (t = ""))) (pub_TreeSHA256 <$> records).

Lemma distinctTrees_distinct records : ∀ seen keep,
  NoDup (distinctTrees seen keep records) ∧ ∀ t, t ∈ distinctTrees seen keep records → t ∉ seen.
Proof.
  induction records as [|r records IH]; intros seen [|keep]; cbn [distinctTrees]; try (split; [constructor|set_solver]).
  cbn zeta. destruct (_ || _) eqn:E; [apply IH|]. apply orb_false_iff in E as [_ E%bool_decide_eq_false].
  destruct (IH ({[pub_TreeSHA256 r]} ∪ seen) keep) as [Hnd Hs]. split.
  - constructor; [|done]. intros Hin%Hs. set_solver.
  - intros t [->|Ht%Hs]%elem_of_cons; [done|set_solver].
Qed.

Lemma size_step (x : string) (trees seen : gset string) :
  x ∉ seen → size (({[x]} ∪ trees) ∖ seen) = S (size (trees ∖ ({[x]} ∪ seen))).
Proof.
  intros Hx. assert (({[x]} ∪ trees) ∖ seen = {[x]} ∪ trees ∖ ({[x]} ∪ seen)) as ->.
  { apply set_eq. intros t. destruct (decide (t = x)); set_solver. }
  rewrite size_union by set_solver. by rewrite size_singleton.
Qed.

(** A revision is kept exactly if fewer than [keep] other revisions were recorded
    after it. *)
Lemma distinctTrees_exact after : ∀ (seen : gset string) keep r before,
  pub_TreeSHA256 r ≠ "" → pub_TreeSHA256 r ∉ seen → pub_TreeSHA256 r ∉ pub_TreeSHA256 <$> after →
  pub_TreeSHA256 r ∈ distinctTrees seen keep (after ++ r :: before) ↔
  (size (list_to_set (nonEmptyTrees after) ∖ seen : gset string) < keep)%nat.
Proof.
  induction after as [|x after IH]; intros seen keep r before Hne Hns Hna.
  - destruct keep as [|keep]; cbn [app distinctTrees].
    { split; [set_solver|lia]. }
    cbn zeta. rewrite !bool_decide_eq_false_2 by done. cbn [orb]. split; [|intros _; by left].
    intros _. replace (list_to_set (nonEmptyTrees []) ∖ seen : gset string) with (∅ : gset string) by set_solver.
    rewrite size_empty. lia.
  - rewrite fmap_cons, not_elem_of_cons in Hna. destruct Hna as [Hx Hna].
    destruct keep as [|keep]; cbn [app distinctTrees]; [split; [set_solver|lia]|]. cbn zeta.
    unfold nonEmptyTrees. rewrite fmap_cons. cbn [List.filter]. fold (nonEmptyTrees after).
    destruct (bool_decide (pub_TreeSHA256 x = "")) eqn:E1; cbn [negb orb]; [by apply IH|].
    destruct (bool_decide (pub_TreeSHA256 x ∈ seen)) eqn:E2; cbn [list_to_set foldr].
    + apply bool_decide_eq_true in E2. rewrite IH by done.
      replace (({[pub_TreeSHA256 x]} ∪ list_to_set (nonEmptyTrees after)) ∖ seen : gset string)
        with (list_to_set (nonEmptyTrees after) ∖ seen : gset string) by set_solver. done.
    + apply bool_decide_eq_false in E2. rewrite elem_of_cons, (IH ({[pub_TreeSHA256 x]} ∪ seen) keep) by set_solver.
      rewrite size_step by done. split; [intros [?|?]; [congruence|lia]|intros; right; lia].
Qed.

(** The retention handed to a host is exactly the newest [keep] distinct
    revisions of the ledger: a revision whose last record is [r] is in it if and
    only if fewer than [keep] other revisions were recorded after [r].  It lists
    each revision once. *)
Theorem retention_exact records keep before r after :
  records = before ++ r :: after → pub_TreeSHA256 r ≠ "" → pub_TreeSHA256 r ∉ pub_TreeSHA256 <$> after →
  (pub_TreeSHA256 r ∈ newestDistinctTrees records keep ↔
   Z.of_nat (size (list_to_set (nonEmptyTrees after) : gset string)) < keep) ∧
  NoDup (newestDistinctTrees records keep).
Proof.
  intros -> Hne Hna. unfold newestDistinctTrees. destruct (Z.leb_spec keep 0).
  { split; [split; [set_solver|lia]|constructor]. }
  rewrite !Strings_perm. split; [|apply distinctTrees_distinct].
  rewrite reverse_app, reverse_cons, <- (assoc_L (++)). cbn [app].
  assert (list_to_set (nonEmptyTrees (reverse after)) = (list_to_set (nonEmptyTrees after) : gset string)) as E.
  { apply set_eq. intros t. rewrite !elem_of_list_to_set. unfold nonEmptyTrees. rewrite !elem_of_List_filter.
    by rewrite fmap_reverse, elem_of_reverse. }
  rewrite distinctTrees_exact; [|done|set_solver|by rewrite fmap_reverse, elem_of_reverse].
  rewrite difference_empty_L, E. lia.
Qed.

Definition published (tree : string) : PublicationRecord := mkPublication LedgerSchema "" "" "" "" "" [] tree "".

Lemma retention_exact_witness :
  "b" ∈ newestDistinctTrees [published "a"; published "b"; published "c"; published "c"] 2 ↔
  Z.of_nat (size (list_to_set (nonEmptyTrees [published "c"; published "c"]) : gset string)) < 2.
Proof.
  apply (retention_exact _ 2 [published "a"] (published "b") [published "c"; published "c"]); [done|done|].
  cbn. set_solver.
Defined.

(** ** Removing *)

Lemma removeObjects_spec requests dryRun spare objects : ∀ bucket removed bytes bucket' out,
  removeObjects requests dryRun spare objects bucket removed bytes = (bucket', out) →
  (∀ key, bucket' !! key = bucket !! key ∨
     (bucket' !! key = None ∧ spare key = false ∧ key ∈ objects.*1 ∧ dryRun = false)) ∧
  (∀ r, out = Ok r → dryRun = false → ∀ key, key ∈ objects.*1 → spare key = false → bucket' !! key = None).
Proof.
  induction objects as [|[key size] objects IH]; intros bucket removed bytes bucket' out; cbn [removeObjects].
  { intros [= <- <-]. split; [by left|]. set_solver. }
  rewrite fmap_cons. cbn [fst]. destruct (canList requests key); cbn [negb]; [|intros [= <- <-]; by split; [left|]].
  destruct (spare key) eqn:Es; [|destruct dryRun; [|destruct (canDelete requests key)]].
  - intros H. destruct (IH _ _ _ _ _ H) as [Ha Hb]. split.
    + intros k. destruct (Ha k) as [?|(? & ? & ? & ?)]; [by left|right]. set_solver.
    + intros r Hr Hd k [->|Hk]%elem_of_cons Hs; [congruence|by eapply Hb].
  - intros H. destruct (IH _ _ _ _ _ H) as [Ha Hb]. split; [|done].
    intros k. destruct (Ha k) as [?|(? & ? & ? & ?)]; [by left|done].
  - intros H. destruct (IH _ _ _ _ _ H) as [Ha Hb]. split.
    + intros k. destruct (decide (k = key)) as [->|Hk].
      * right. split; [|split; [done|split; [by left|done]]].
        destruct (Ha key) as [->|(? & _)]; [apply lookup_delete_eq|done].
      * destruct (Ha k) as [->|(? & ? & ? & ?)]; [left; by apply lookup_delete_ne|right]. set_solver.
    + intros r Hr Hd k [->|Hk]%elem_of_cons Hs; [|by eapply Hb].
      destruct (Ha key) as [->|(? & _)]; [apply lookup_delete_eq|done].
  - intros [= <- <-]. split; [by left|done].
Qed.

Lemma listed_prefix bucket prefix key : key ∈ (listed bucket prefix).*1 → HasPrefix key prefix = true.
Proof.
  intros (o & -> & Ho)%list_elem_of_fmap. unfold listed in Ho. by apply elem_of_List_filter in Ho as [_ Ho].
Qed.

Definition releasesOf (repository : S3Repository) : string := withSlash (objectKey repository releasePrefix).
Definition canonicalPrefix (repository : S3Repository) : string :=
  let prefix := objectKey repository "" in if bool_decide (prefix = "") then prefix else withSlash prefix.

(** An object of a superseded release, and one no surviving release names. *)
Definition superseded (repository : S3Repository) (keep : gset string) (key : string) : Prop :=
  HasPrefix key (releasesOf repository) = true ∧
  ∃ tree, treeFromReleaseKey (releasesOf repository) key = Some tree ∧ tree ∉ keep.
Definition orphaned (view : StoreView) (repository : S3Repository) (keep : gset string) (key : string) : Prop :=
  hasRewriter repository = false ∧ HasPrefix key (canonicalPrefix repository) = true ∧
  ∃ referenced, referencedObjectKeys view repository keep = Ok referenced ∧ spareCanonical repository referenced key = false.

(** An object is left alone, or it is gone for a reason. *)
Definition gone_only_if (P : Prop) (bucket bucket' : gmap string Z) (key : string) : Prop :=
  bucket' !! key = bucket !! key ∨ (bucket' !! key = None ∧ P).

Lemma gone_only_if_trans (P Q : Prop) a b c key :
  gone_only_if P a b key → gone_only_if Q b c key → gone_only_if (P ∨ Q) a c key.
Proof. unfold gone_only_if. intros [E|[E ?]] [E'|[E' ?]]; [left|right|right|right]; rewrite ?E', ?E; auto. Qed.

Lemma gone_only_if_weaken (P Q : Prop) a b key : (P → Q) → gone_only_if P a b key → gone_only_if Q a b key.
Proof. intros HPQ [?|[? ?]]; [by left|right; auto]. Qed.

Lemma gone_only_if_refl (P : Prop) a key : gone_only_if P a a key.
Proof. by left. Qed.

Lemma releases_gone requests repository retention keep bucket bucket' out key :
  removeObjects requests (DryRun retention) (spareRelease (releasesOf repository) keep) (listed bucket (releasesOf repository))
    bucket 0 0 = (bucket', out) →
  gone_only_if (DryRun retention = false ∧ superseded repository keep key) bucket bucket' key.
Proof.
  intros [Hs _]%removeObjects_spec. destruct (Hs key) as [?|(? & Hsp & Hin & ?)]; [by left|right]. split; [done|].
  split; [done|]. split; [by apply listed_prefix in Hin|]. unfold spareRelease in Hsp.
  destruct (treeFromReleaseKey _ key) as [tree|]; [|done]. apply bool_decide_eq_false in Hsp. by exists tree.
Qed.

Lemma orphans_gone requests view repository keep retention bucket bucket' out key :
  collectOrphanedObjects requests view repository keep retention bucket = (bucket', out) →
  gone_only_if (DryRun retention = false ∧ orphaned view repository keep key) bucket bucket' key.
Proof.
  unfold collectOrphanedObjects. destruct (hasRewriter repository) eqn:Ew; [intros [= <- <-]; apply gone_only_if_refl|].
  destruct (referencedObjectKeys view repository keep) as [referenced|] eqn:Er; [|intros [= <- <-]; apply gone_only_if_refl].
  cbn zeta. fold (canonicalPrefix repository). destruct (canList requests _); cbn [negb]; [|intros [= <- <-]; apply gone_only_if_refl].
  intros [Hs _]%removeObjects_spec.
  destruct (Hs key) as [?|(? & Hsp & Hin%listed_prefix & ?)]; [by left|right]. split; [done|]. split; [done|].
  split; [done|]. split; [done|]. by exists referenced.
Qed.

(** What a collection may do to one object. *)
Lemma Collect_removes requests view repository retention bucket bucket' out key :
  Collect requests view repository retention bucket = (bucket', out) →
  gone_only_if (DryRun retention = false ∧ ∃ keep, protectedTrees view retention = Ok keep ∧
    (superseded repository keep key ∨ orphaned view repository keep key)) bucket bucket' key.
Proof.
  unfold Collect. destruct (is_ok (view_valid view)); cbn [negb]; [|intros [= <- <-]; apply gone_only_if_refl].
  destruct (length _ =? 1)%nat; cbn [negb]; [|intros [= <- <-]; apply gone_only_if_refl].
  destruct (protectedTrees view retention) as [keep|]; [|intros [= <- <-]; apply gone_only_if_refl].
  cbn zeta. fold (releasesOf repository).
  destruct (canList requests _); cbn [negb]; [|intros [= <- <-]; apply gone_only_if_refl].
  destruct (removeObjects _ _ _ _ _ _ _) as [middle phase] eqn:E1. apply (releases_gone _ _ _ _ _ _ _ key) in E1.
  destruct phase as [[removed bytes]|].
  - destruct (collectOrphanedObjects _ _ _ _ _ _) as [final last] eqn:E2. apply (orphans_gone _ _ _ _ _ _ _ _ key) in E2.
    assert (final = bucket' → gone_only_if (DryRun retention = false ∧ ∃ keep', Ok keep = Ok keep' ∧
      (superseded repository keep' key ∨ orphaned view repository keep' key)) bucket bucket' key) as Hdone.
    { intros <-. eapply gone_only_if_weaken; [|by eapply gone_only_if_trans]. naive_solver. }
    destruct last as [[? ?]|]; intros [= E _]; by apply Hdone.
  - intros [= <- <-]. eapply gone_only_if_weaken; [|exact E1]. naive_solver.
Qed.

(** ** What survives *)

(** The revisions a collection must leave: those the retention names, the one that
    is served, and the one it can be rolled back to. *)
Definition must_survive (view : StoreView) (retention : Retention) (tree : string) : Prop :=
  tree ∈ KeepTrees retention ∨
  ∃ observed, view_observed view = Ok observed ∧
    (tree = rev_TreeSHA256 observed ∨
     rev_RestoreID observed ≠ "" ∧ view_restore view (rev_RestoreID observed) = Ok (Some tree) ∧ tree ≠ "").

Lemma keepNamed_spec trees : ∀ keep keep', keepNamed trees keep = Ok keep' → list_to_set trees ∪ keep ⊆ keep'.
Proof.
  induction trees as [|tree trees IH]; intros keep keep'; cbn [keepNamed].
  - intros [= <-]. set_solver.
  - destruct (ValidSHA256 tree); cbn [negb]; [|done]. intros E%IH. set_solver.
Qed.

Lemma protectedTrees_keep view retention keep tree :
  protectedTrees view retention = Ok keep → must_survive view retention tree → tree ∈ keep.
Proof.
  unfold protectedTrees, must_survive. destruct (keepNamed _ ∅) as [named|] eqn:En; [|done]. cbn [mbind result_bind].
  apply keepNamed_spec in En. destruct (view_observed view) as [observed|]; [|done]. cbn [mbind result_bind].
  case_bool_decide; [done|]. case_bool_decide as Er.
  - intros [= <-] [Hin|(o & [= <-] & [->|(Hne & _)])]; [|set_solver|done].
    apply elem_of_union_r, En, elem_of_union_l. by apply elem_of_list_to_set.
  - destruct (view_restore view _) as [[before|]|] eqn:Ev; cbn [mbind result_bind]; [|done|done].
    intros [= <-] [Hin|(o & [= <-] & [->|(_ & Eb & Hne)])].
    + assert (tree ∈ named) by (apply En, elem_of_union_l; by apply elem_of_list_to_set). case_bool_decide; set_solver.
    + case_bool_decide; set_solver.
    + rewrite Ev in Eb. injection Eb as ->. rewrite bool_decide_eq_false_2 by done. set_solver.
Qed.

(** The release directories lie under the reserved directory. *)
Lemma Clean_releases q : q ≠ "" →
  Clean (q +:+ "/" +:+ releasePrefix) = Clean (q +:+ "/" +:+ ".snailmail") +:+ "/releases".
Proof.
  intros Hq. unfold Clean.
  assert (∀ t, HasPrefix (q +:+ String "/" t) "/" = HasPrefix q "/") as Hr by (by destruct q).
  change ("/" +:+ releasePrefix) with (String "/" releasePrefix). change ("/" +:+ ".snailmail") with (String "/" ".snailmail").
  rewrite !Hr, !Split_app, !foldl_app. set (stack := foldl _ [] (Split "/" q)).
  change (foldl (clean_push (HasPrefix q "/")) stack (Split "/" releasePrefix)) with ("releases" :: ".snailmail" :: stack).
  change (foldl (clean_push (HasPrefix q "/")) stack (Split "/" ".snailmail")) with (".snailmail" :: stack).
  rewrite (reverse_cons _ "releases"), (Join_app _ ["releases"]) by (rewrite ?reverse_cons; by destruct (reverse stack)).
  cbn [Join]. change ("/" +:+ "releases") with "/releases".
  assert (Join (reverse (".snailmail" :: stack)) "/" ≠ "") as Hne.
  { rewrite reverse_cons. destruct (reverse stack) as [|x l]; [done|]. rewrite Join_app by done.
    intros E%(f_equal String.length). rewrite !str_length_app in E. cbn in E. lia. }
  destruct (HasPrefix q "/"); [by rewrite str_app_cons|].
  rewrite !bool_decide_eq_false_2; [done|done|]. intros E%(f_equal String.length). rewrite str_length_app in E. cbn in E. lia.
Qed.

Lemma objectKey_releases repository :
  objectKey repository releasePrefix = objectKey repository ".snailmail" +:+ "/releases".
Proof.
  unfold objectKey. case_bool_decide; [done|]. destruct (TrimByte "/" _) as [|c q] eqn:E; [done|].
  apply (Clean_releases (String c q)). done.
Qed.

Lemma treeFromReleaseKey_prefix prefix key tree : treeFromReleaseKey prefix key = Some tree → HasPrefix key prefix = true.
Proof.
  unfold treeFromReleaseKey, TrimPrefix. destruct (HasPrefix key prefix); [done|]. cbn zeta. by rewrite bool_decide_eq_true_2.
Qed.

Lemma release_key_reserved repository referenced key tree :
  treeFromReleaseKey (releasesOf repository) key = Some tree → spareCanonical repository referenced key = true.
Proof.
  intros E%treeFromReleaseKey_prefix. unfold spareCanonical. cbn zeta.
  assert (HasPrefix key (objectKey repository ".snailmail" +:+ "/") = true) as ->; [|by rewrite orb_true_r].
  apply HasPrefix_spec in E as [t ->]. unfold releasesOf, withSlash. rewrite objectKey_releases.
  apply HasPrefix_spec. destruct (HasSuffix _ _); [exists ("releases" +:+ t)|exists ("releases/" +:+ t)];
    by rewrite !str_app_assoc.
Qed.

Lemma referencedBy_spec view repository trees : ∀ referenced referenced',
  referencedBy view repository trees referenced = Ok referenced' →
  referenced ⊆ referenced' ∧
  ∀ tree files, tree ∈ trees → view_release view tree = Ok (Some files) → list_to_set (objectKey repository <$> files) ⊆ referenced'.
Proof.
  induction trees as [|tree trees IH]; intros referenced referenced'; cbn [referencedBy].
  { intros [= <-]. split; [done|]. intros ? ? []%not_elem_of_nil. }
  destruct (view_release view tree) as [[files|]|] eqn:E; cbn [mbind result_bind]; [|done|done].
  intros [Hs Ht]%IH. split; [set_solver|]. intros t f [->|Hin]%elem_of_cons Hf; [|by eapply Ht].
  rewrite E in Hf. injection Hf as ->. set_solver.
Qed.

(** An object of a revision: in its release directory, or at a path its release
    names that is not inside a release directory. *)
Definition object_of (view : StoreView) (repository : S3Repository) (tree key : string) : Prop :=
  treeFromReleaseKey (releasesOf repository) key = Some tree ∨
  treeFromReleaseKey (releasesOf repository) key = None ∧
  ∃ files, view_release view tree = Ok (Some files) ∧ key ∈ objectKey repository <$> files.

Lemma kept_not_removed view repository keep tree key :
  tree ∈ keep → object_of view repository tree key →
  superseded repository keep key ∨ orphaned view repository keep key → False.
Proof.
  intros Hk [Ht|(Ht & files & Hf & Hin)] [(_ & t & E & Hn)|(_ & _ & referenced & Er & Es)].
  - congruence.
  - by rewrite (release_key_reserved _ _ _ _ Ht) in Es.
  - congruence.
  - apply referencedBy_spec in Er as [_ Er]. assert (key ∈ referenced) as Hr.
    { eapply Er; [by apply elem_of_elements|done|by apply elem_of_list_to_set]. }
    unfold spareCanonical in Es. cbn zeta in Es. rewrite (bool_decide_eq_true_2 (key ∈ referenced)), !orb_true_r in Es; done.
Qed.

(** C19: A collection never touches what must survive: whatever requests fail and
    wherever it stops, every object of a revision the retention names, of the
    revision being served and of the revision that one can be rolled back to is in
    the bucket as it was, in its release directory and at the paths clients fetch.
    Where those revisions cannot be established, and in a dry run, nothing at all is
    removed. *)
Theorem collection_keeps_live requests view repository retention bucket bucket' out :
  Collect requests view repository retention bucket = (bucket', out) →
  (∀ tree key, must_survive view retention tree → object_of view repository tree key → bucket' !! key = bucket !! key) ∧
  ((DryRun retention = true ∨ is_ok (protectedTrees view retention) = false) → bucket' = bucket).
Proof.
  intros E. pose proof (λ key, Collect_removes _ _ _ _ _ _ _ key E) as Hr. split.
  - intros tree key Hs Ho. destruct (Hr key) as [?|(_ & _ & keep & Hk & Hgone)]; [done|].
    exfalso. eapply kept_not_removed; [by eapply protectedTrees_keep|done|done].
  - intros Hd. apply map_eq. intros key. destruct (Hr key) as [?|(_ & Hn & keep & Hk & _)]; [done|].
    rewrite Hn, Hk in Hd. by destruct Hd.
Qed.

(** ** What goes *)

Lemma listed_elem bucket prefix key size :
  bucket !! key = Some size → HasPrefix key prefix = true → key ∈ (listed bucket prefix).*1.
Proof.
  intros Hb Hp. apply list_elem_of_fmap. exists (key, size). split; [done|]. apply elem_of_List_filter.
  split; [by apply elem_of_map_to_list|done].
Qed.

Lemma superseded_spare repository keep key :
  superseded repository keep key → spareRelease (releasesOf repository) keep key = false.
Proof. intros (_ & tree & E & Hn). unfold spareRelease. rewrite E. by apply bool_decide_eq_false_2. Qed.

Lemma orphans_collected requests view repository keep retention bucket bucket' r key size :
  collectOrphanedObjects requests view repository keep retention bucket = (bucket', Ok r) → DryRun retention = false →
  orphaned view repository keep key → bucket !! key = Some size → bucket' !! key = None.
Proof.
  unfold collectOrphanedObjects. intros E Hd (Hw & Hp & referenced & Er & Hs) Hb. rewrite Hw, Er in E. cbn zeta in E.
  fold (canonicalPrefix repository) in E. destruct (canList requests _); cbn [negb] in E; [|done].
  apply removeObjects_spec in E as [_ E]. eapply E; [done|done| |done]. by eapply listed_elem.
Qed.

(** A collection that succeeds is exact: of the objects in the bucket it
    removes those of release directories no surviving revision owns and those at
    canonical paths that no surviving release names, all of them and no others. *)
Theorem collection_exact requests view repository retention keep bucket bucket' r key size :
  Collect requests view repository retention bucket = (bucket', Ok r) → DryRun retention = false →
  protectedTrees view retention = Ok keep → bucket !! key = Some size →
  (bucket' !! key = None ↔ superseded repository keep key ∨ orphaned view repository keep key).
Proof.
  intros E Hd Hk Hb. split.
  - intros Hn. destruct (Collect_removes _ _ _ _ _ _ _ key E) as [?|(_ & _ & keep' & Hk' & ?)]; [congruence|].
    rewrite Hk in Hk'. by injection Hk' as <-.
  - unfold Collect in E. rewrite Hk in E. destruct (is_ok _); cbn [negb] in E; [|done].
    destruct (length _ =? 1)%nat; cbn [negb] in E; [|done]. cbn zeta in E. fold (releasesOf repository) in E.
    destruct (canList requests _); cbn [negb] in E; [|done].
    destruct (removeObjects _ _ _ _ _ _ _) as [middle [[removed bytes]|]] eqn:E1; [|done].
    destruct (collectOrphanedObjects _ _ _ _ _ _) as [final [[orphans obytes]|]] eqn:E2; [|done].
    injection E as -> _. pose proof (orphans_gone _ _ _ _ _ _ _ _ key E2) as Hlast.
    destruct (middle !! key) as [s|] eqn:Em; [|unfold gone_only_if in Hlast; intros _; destruct Hlast as [->|[]]; done].
    intros [Hs|Ho]; [|by eapply orphans_collected]. exfalso. apply removeObjects_spec in E1 as [_ E1].
    rewrite (E1 _ eq_refl Hd key) in Em; [done| |by apply superseded_spare].
    eapply listed_elem; [done|]. by destruct Hs.
Qed.

(** ** Dry runs *)

Section answered.
  Context (requests : Requests).
  Hypothesis (Hlist : ∀ key, canList requests key = true) (Hdelete : ∀ key, canDelete requests key = true).

(** The bytes are added up in an [int64]. *)
Definition addBytes (bytes : Z) (sizes : list Z) : Z := foldl (λ bytes size, int64 (bytes + size)) bytes sizes.

Lemma int64_add a b : int64 (int64 a + b) = int64 (a + b).
Proof.
  unfold int64. replace ((a + 2 ^ 63) mod 2 ^ 64 - 2 ^ 63 + b + 2 ^ 63) with ((a + 2 ^ 63) mod 2 ^ 64 + b) by lia.
  rewrite Zplus_mod_idemp_l. do 2 f_equal. lia.
Qed.

Lemma removeObjects_total dryRun spare objects : ∀ bucket removed bytes,
  (removeObjects requests dryRun spare objects bucket removed bytes).2 =
  let gone := List.filter (λ o, negb (spare o.1)) objects in
  Ok (removed + Z.of_nat (length gone), addBytes bytes gone.*2).
Proof.
  induction objects as [|[key size] objects IH]; intros bucket removed bytes; cbn [removeObjects List.filter].
  { cbn zeta. cbn. do 2 f_equal; lia. }
  rewrite Hlist, Hdelete. cbn [negb fst]. destruct (spare key); cbn [negb]; [apply IH|].
  destruct dryRun; rewrite IH; cbn zeta; cbn [length]; rewrite fmap_cons; unfold addBytes; cbn [foldl snd]; do 2 f_equal; lia.
Qed.

Lemma sum_perm (l k : list Z) : l ≡ₚ k → ∀ bytes, addBytes bytes l = addBytes bytes k.
Proof.
  unfold addBytes. induction 1 as [|x l k _ IH|x y l|l k m _ IH1 _ IH2]; intros bytes; cbn [foldl]; [done|apply IH| |by rewrite IH1].
  rewrite !int64_add. do 2 f_equal. lia.
Qed.

(** What the second phase removes is the same before and after the first. *)
Lemma orphans_same bucket middle prefix spare :
  (∀ key, middle !! key = bucket !! key ∨ spare key = true) →
  List.filter (λ o, negb (spare o.1)) (listed middle prefix) ≡ₚ List.filter (λ o, negb (spare o.1)) (listed bucket prefix).
Proof.
  intros Hm. unfold listed. apply NoDup_Permutation.
  1,2: do 2 apply List_filter_NoDup; apply NoDup_map_to_list.
  intros [key size]. rewrite !elem_of_List_filter, !elem_of_map_to_list. cbn [fst].
  destruct (Hm key) as [->| ->]; [done|]. cbn [negb]. naive_solver.
Qed.

Lemma orphans_dry view repository keep trees bucket middle :
  (∀ key referenced, middle !! key = bucket !! key ∨ spareCanonical repository referenced key = true) →
  (collectOrphanedObjects requests view repository keep (mkRetention trees false) middle).2 =
  (collectOrphanedObjects requests view repository keep (mkRetention trees true) bucket).2.
Proof.
  intros Hm. unfold collectOrphanedObjects. destruct (hasRewriter repository); [done|].
  destruct (referencedObjectKeys view repository keep) as [referenced|]; [|done]. cbn zeta. rewrite Hlist. cbn [negb DryRun].
  rewrite !removeObjects_total. cbn zeta.
  pose proof (orphans_same bucket middle (if bool_decide (objectKey repository "" = "") then objectKey repository ""
    else withSlash (objectKey repository "")) (spareCanonical repository referenced) (λ key, Hm key referenced)) as Hp.
  by rewrite (Permutation_length Hp), (sum_perm _ _ (fmap_Permutation snd _ _ Hp) 0).
Qed.

(** A dry run tells the truth: where the store answers, the collection itself
    ends with the same error, or removes as many objects and bytes and keeps as many
    revisions as the dry run reported. *)
Theorem dry_run_truthful view repository trees bucket :
  (Collect requests view repository (mkRetention trees false) bucket).2 =
  (λ r, mkCollectResult (Removed r) (RemovedBytes r) (KeptRevisions r) false) <$>
    (Collect requests view repository (mkRetention trees true) bucket).2.
Proof.
  unfold Collect. destruct (is_ok _); cbn [negb]; [|done]. destruct (length _ =? 1)%nat; cbn [negb]; [|done].
  change (protectedTrees view (mkRetention trees false)) with (protectedTrees view (mkRetention trees true)).
  destruct (protectedTrees _ _) as [keep|]; [|done]. cbn zeta. rewrite Hlist. cbn [negb DryRun]. fold (releasesOf repository).
  pose proof (removeObjects_total false (spareRelease (releasesOf repository) keep) (listed bucket (releasesOf repository)) bucket 0 0) as T1.
  rewrite <- (removeObjects_total true _ _ bucket) in T1.
  destruct (removeObjects _ true _ _ _ _ _) as [dry out] eqn:Ed.
  destruct (removeObjects _ false _ _ _ _ _) as [middle out'] eqn:Em. cbn [snd] in T1. subst out'.
  destruct out as [[removed bytes]|]; [|done].
  assert (dry = bucket) as ->.
  { apply removeObjects_spec in Ed as [Ed _]. apply map_eq. intros key. destruct (Ed key) as [?|(_ & _ & _ & ?)]; done. }
  pose proof (orphans_dry view repository keep trees bucket middle) as To.
  destruct (collectOrphanedObjects _ _ _ _ (mkRetention trees true) _) as [b1 o1].
  destruct (collectOrphanedObjects _ _ _ _ (mkRetention trees false) _) as [b2 o2]. cbn [snd] in To. rewrite To.
  - by destruct o1 as [[? ?]|].
  - intros key referenced. apply removeObjects_spec in Em as [Em _].
    destruct (Em key) as [?|(_ & Hs & _)]; [by left|right]. unfold spareRelease in Hs.
    destruct (treeFromReleaseKey _ key) as [tree|] eqn:E; [|done]. by eapply release_key_reserved.
Qed.

End answered.

(** ** Isolation *)

Lemma stake_sdrop n : ∀ s, stake n s +:+ sdrop n s = s.
Proof. induction n as [|n IH]; intros [|c s]; try done. cbn [stake sdrop]. by rewrite str_app_cons, IH. Qed.

Lemma HasSuffix_slash s : HasSuffix s "/" = true → ∃ t, s = t +:+ "/".
Proof.
  unfold HasSuffix. intros [_ E%bool_decide_eq_true]%andb_true_iff. exists (stake (String.length s - 1) s).
  change (String.length "/") with 1%nat in E. rewrite <- E. by rewrite stake_sdrop.
Qed.

(** A prefix the adapter accepts, other than the bucket itself. *)
Definition ownPrefix (p : string) : Prop := p ≠ "" ∧ p ≠ "." ∧ TrimByte "/" p = p ∧ Clean p = p.

Lemma ownPrefix_stack p : ownPrefix p →
  Join (reverse (foldl (clean_push false) [] (Split "/" p))) "/" = p.
Proof.
  intros (Hne & Hdot & Ht & Hc). unfold Clean in Hc. cbn zeta in Hc. rewrite (trimmed_prefix _ Ht) in Hc.
  case_bool_decide; [|done]. by rewrite <- Hc in Hdot.
Qed.

Lemma objectKey_own repository name components :
  ownPrefix (s3_Prefix repository) → name ≠ "" →
  (∀ stack, reverse (foldl (clean_push false) stack (Split "/" name)) = reverse stack ++ components) → components ≠ [] →
  objectKey repository name = s3_Prefix repository +:+ "/" +:+ Join components "/".
Proof.
  intros Hp Hn Hs Hk. pose proof (ownPrefix_stack _ Hp) as Hst. destruct Hp as (Hne & _ & Ht & _).
  unfold objectKey. rewrite bool_decide_eq_false_2, Ht by done. unfold PathJoin.
  rewrite !filter_cons_True by done. rewrite filter_nil. cbn zeta. cbn [Join].
  unfold Clean. change ("/" +:+ name) with (String "/" name).
  assert (HasPrefix (s3_Prefix repository +:+ String "/" name) "/" = false) as ->.
  { etrans; [|exact (trimmed_prefix _ Ht)]. by destruct (s3_Prefix repository). }
  rewrite Split_app, foldl_app, Hs, Join_app, Hst.
  - rewrite bool_decide_eq_false_2; [done|]. intros E%(f_equal String.length). rewrite !str_length_app in E. cbn in E. lia.
  - intros E. rewrite E in Hst. by rewrite <- Hst in Hne.
  - done.
Qed.

(** Collection stays inside its repository: every object it removes lies under
    the repository's own prefix, so repositories at prefixes that do not contain each
    other never remove each other's objects. *)
Theorem collection_isolated requests view repository retention bucket bucket' out key :
  Collect requests view repository retention bucket = (bucket', out) →
  ownPrefix (s3_Prefix repository) → bucket' !! key ≠ bucket !! key →
  HasPrefix key (s3_Prefix repository +:+ "/") = true.
Proof.
  intros E Hp Hne. destruct (Collect_removes _ _ _ _ _ _ _ key E) as [?|(_ & _ & keep & _ & Hgone)]; [done|].
  assert (withSlash (s3_Prefix repository) = s3_Prefix repository +:+ "/") as Hw.
  { unfold withSlash. destruct (HasSuffix _ _) eqn:Es; [|done]. apply HasSuffix_slash in Es as [t Et].
    destruct Hp as (_ & _ & Ht & _). by apply trimmed_suffix in Et. }
  destruct Hgone as [[Hk _]|(_ & Hk & _)]; apply HasPrefix_spec in Hk as [t ->]; apply HasPrefix_spec.
  - unfold releasesOf, withSlash. rewrite (objectKey_own _ releasePrefix [".snailmail"; "releases"]); [|done..| |done].
    + destruct (HasSuffix _ _); [exists (".snailmail/releases" +:+ t)|exists (".snailmail/releases/" +:+ t)];
        by rewrite !str_app_assoc.
    + intros stack. change (foldl _ stack _) with ("releases" :: ".snailmail" :: stack).
      by rewrite !reverse_cons, <- (assoc_L (++)).
  - unfold canonicalPrefix. assert (objectKey repository "" = s3_Prefix repository) as ->.
    { destruct Hp as (Hn & _ & Ht & Hc). unfold objectKey. rewrite bool_decide_eq_false_2, Ht by done. unfold PathJoin.
      by rewrite filter_cons_True, filter_cons_False by (done || auto). }
    cbn zeta. destruct Hp as (Hn & _). rewrite bool_decide_eq_false_2, Hw by done. by exists t.
Qed.

(** ** The whole bucket *)

(** A repository that is the whole bucket never has its orphans collected: the
    prefix it lists is a dot and a slash, which no object key starts with. *)
Theorem whole_bucket_orphans_stay requests view repository keep retention bucket key :
  s3_Prefix repository = "" → HasPrefix key "./" = false →
  canonicalPrefix repository = "./" ∧
  (collectOrphanedObjects requests view repository keep retention bucket).1 !! key = bucket !! key.
Proof.
  intros Hp Hk. assert (canonicalPrefix repository = "./") as Hc.
  { unfold canonicalPrefix, objectKey. rewrite Hp. by vm_compute. }
  split; [done|]. destruct (collectOrphanedObjects _ _ _ _ _ _) as [bucket' out] eqn:E.
  destruct (orphans_gone _ _ _ _ _ _ _ _ key E) as [?|(_ & _ & _ & Hp' & _)]; [done|]. by rewrite Hc, Hk in Hp'.
Qed.

Module CollectExample.

Definition digest (c : ascii) : string := foldr String "" (replicate 64 c).
Definition release (c : ascii) (name : string) : string := ".snailmail/releases/" +:+ digest c +:+ "/" +:+ name.
Definition at_ (prefix key : string) : string := if bool_decide (prefix = "") then key else prefix +:+ "/" +:+ key.

(** Revision [a] is served, [b] is what it replaced, [c] is superseded; a release
    names its index and a chart of its own. *)
Definition chart (c : ascii) : string := "charts/" +:+ String c ".tgz".
Definition view (described : list ascii) : StoreView :=
  mkStoreView (Ok ()) (Ok (mkRevision "1" (digest "a") "" "" "restore" "" "" "" ""))
    (λ id, if bool_decide (id = "restore") then Ok (Some (digest "b")) else Ok None)
    (λ tree, match List.find (λ c, bool_decide (digest c = tree)) described with
             | Some c => Ok (Some ["index.yaml"; chart c])
             | None => Ok None
             end).
Definition repository (prefix : string) : S3Repository := mkS3Repository "s3" "helm" "public" "" "" "" "" "" "bucket" "" "" "" prefix ["index.yaml"] None.
Definition answering : Requests := mkRequests (λ _, true) (λ _, true).
Definition bucket (prefix : string) : gmap string Z :=
  list_to_map ((λ key, (at_ prefix key, 10)) <$>
    ["index.yaml"; chart "a"; chart "b"; chart "c"; release "a" "release.json"; release "b" "release.json";
     release "c" "release.json"]).

Definition retention (dryRun : bool) : Retention := mkRetention [] dryRun.
Definition run (prefix : string) (dryRun : bool) (described : list ascii) :=
  Collect answering (view described) (repository prefix) (retention dryRun) (bucket prefix).

Example run_removes :
  (run "helm" false ["a"; "b"]%char).2 = Ok (mkCollectResult 2 20 2 false) ∧
  (run "helm" true ["a"; "b"]%char).2 = Ok (mkCollectResult 2 20 2 true) ∧
  (run "" false ["a"; "b"]%char).2 = Ok (mkCollectResult 1 10 2 false).
Proof. by vm_compute. Qed.

(** A collection that is refused may already have removed release directories:
    with the release of a surviving revision unreadable it ends in an error, and the
    superseded release directory is gone. *)
Theorem refused_collection_removes :
  is_ok (run "helm" false ["a"]%char).2 = false ∧
  (run "helm" false ["a"]%char).1 !! at_ "helm" (release "c" "release.json") = None ∧
  bucket "helm" !! at_ "helm" (release "c" "release.json") = Some 10.
Proof. by vm_compute. Qed.

Lemma collection_keeps_live_witness :
  (run "helm" false ["a"; "b"]%char).1 !! at_ "helm" (chart "b") = Some 10.
Proof.
  destruct (run "helm" false ["a"; "b"]%char) as [b out] eqn:E. cbn [fst].
  rewrite (proj1 (collection_keeps_live _ _ _ _ _ _ _ E) (digest "b") (at_ "helm" (chart "b"))); [by vm_compute| |].
  - right. exists (mkRevision "1" (digest "a") "" "" "restore" "" "" "" ""). split; [reflexivity|]. right.
    split; [discriminate|split; [reflexivity|discriminate]].
  - right. split; [by vm_compute|]. exists ["index.yaml"; chart "b"]. split; [by vm_compute|].
    apply list_elem_of_fmap. exists (chart "b"). split; [by vm_compute|]. by right; left.
Defined.

Lemma collection_exact_witness :
  (run "helm" false ["a"; "b"]%char).1 !! at_ "helm" (release "c" "release.json") = None.
Proof.
  destruct (run "helm" false ["a"; "b"]%char) as [b out] eqn:E. cbn [fst].
  assert (out = Ok (mkCollectResult 2 20 2 false)) as -> by (change out with (b, out).2; rewrite <- E; by vm_compute).
  assert (protectedTrees (view ["a"; "b"]%char) (retention false) = Ok {[digest "a"; digest "b"]}) as Hk
    by (apply (bool_decide_unpack _); vm_compute; exact I).
  assert (bucket "helm" !! at_ "helm" (release "c" "release.json") = Some 10) as Hb by (vm_compute; reflexivity).
  apply (proj2 (collection_exact _ _ _ _ _ _ _ _ _ _ E eq_refl Hk Hb)).
  left. split; [by vm_compute|]. exists (digest "c"). split; [by vm_compute|].
  by apply (bool_decide_eq_false (digest "c" ∈ ({[digest "a"; digest "b"]} : gset string))); vm_compute.
Defined.

Lemma dry_run_truthful_witness :
  (run "helm" false ["a"; "b"]%char).2 = Ok (mkCollectResult 2 20 2 false).
Proof. unfold run, retention. rewrite (dry_run_truthful answering); by vm_compute. Defined.

Lemma collection_isolated_witness :
  HasPrefix (at_ "helm" (chart "c")) "helm/" = true.
Proof.
  destruct (run "helm" false ["a"; "b"]%char) as [b out] eqn:E.
  apply (collection_isolated _ _ _ _ _ _ _ (at_ "helm" (chart "c")) E).
  - split; [discriminate|split; [discriminate|split; reflexivity]].
  - change b with (b, out).1. rewrite <- E. vm_compute. discriminate.
Defined.

Lemma whole_bucket_orphans_stay_witness :
  (collectOrphanedObjects answering (view ["a"]%char) (repository "") {[digest "a"]} (retention false) (bucket "")).1
    !! chart "c" = Some 10.
Proof.
  rewrite (proj2 (whole_bucket_orphans_stay answering (view ["a"]%char) (repository "") {[digest "a"]} (retention false)
    (bucket "") (chart "c") eq_refl ltac:(by vm_compute))). by vm_compute.
Defined.

End CollectExample.
