(* ===== verification/PagesGit.v ===== *)
(** Git as the GitHub Pages host uses it: the [gitWorkspace] of
    [adapters/host/githubpages/githubpages.go] over remote repositories that others
    change too.

    Objects are named by their content ([GitLib]); a remote is a set of refs.  A
    workspace is a temporary repository in which only the commits it created or fetched
    are found.  Before each command others may have pushed ([meanwhile]), and a command may be
    lost or take effect without its answer arriving.  A computation keeps the refs its
    commands found and the updates it has itself made, in order.

    A commit is checked out into a temporary directory, with the calls of [FileSystem]. *)

From S2P Require Import Prelude GoStrings GoSlices Model Formats JsonStrict PlanJson Host S3Store S3Keys FileSystem VerifyTree.

Open Scope Z_scope.

(** ** Objects *)

Record TreeEntry := mkTreeEntry { te_Mode : string; te_Type : string; te_Path : string; te_Content : string }.
#[export] Instance TreeEntry_eq_dec : EqDecision TreeEntry.
Proof. solve_decision. Defined.

(** A commit: [gc_Identity] is its header lines beside tree and parents. *)
Record GitCommit := mkGitCommit { gc_Tree : list TreeEntry; gc_Parents : list string; gc_Identity : string; gc_Message : string }.
#[export] Instance GitCommit_eq_dec : EqDecision GitCommit.
Proof. solve_decision. Defined.

Class GitLib := {
  blobID : string → string;
  treeID : list TreeEntry → string;
  commitID : GitCommit → string;
  (** Whether a path may be in an index. *)
  indexable : string → bool;
}.

Definition validGitObject (value : string) : bool :=
  (Nat.eqb (String.length value) 40 || Nat.eqb (String.length value) 64) && bool_decide (is_Some (DecodeHexLen value)).

Definition lineFeed : string := String "010" "".

(** [git cat-file -p] of a commit. *)
Definition commitText `{GitLib} (c : GitCommit) : string :=
  "tree " +:+ treeID (gc_Tree c) +:+ lineFeed +:+ String.concat "" ((λ p, "parent " +:+ p +:+ lineFeed) <$> gc_Parents c) +:+
  gc_Identity c +:+ lineFeed +:+ gc_Message c.

(** ** The world *)

Definition Remotes := gmap (string * string) string.
Definition ObjectsOf := gmap string GitCommit.

Record RefUpdate := mkUpdate { upd_Remote : string; upd_Ref : string; upd_Before : option string; upd_After : option string }.

Inductive GitEvent := Found (refs : Remotes) | Updated (u : RefUpdate).

Record GitWorld := mkGitWorld {
  git_objects : ObjectsOf; git_refs : Remotes; git_clock : nat; git_past : list GitEvent;
  (** The commits found in the workspace. *)
  git_local : gset string;
  (** The machine the workspaces are on. *)
  git_disk : World;
}.

Record GitOutside := mkGitOutside {
  (** The refs as others leave them, and the commits they add. *)
  meanwhile : nat → Remotes → Remotes;
  added : nat → list GitCommit;
  delivered : nat → Fault;
  machine : Machine;
  temporaryDirectory : string;
}.

(** [errRefNotFound]; an error without a kind; a [host.Error]. *)
Inductive PagesError := RefNotFound | PlainError | PagesFailure (kind : ErrorKind) (effect : bool).
Definition mayHaveOccurred (e : PagesError) : bool := match e with PagesFailure _ effect => effect | _ => false end.

Definition Git (A : Type) : Type := GitWorld → GitWorld * (PagesError + A).
#[export] Instance Git_ret : MRet Git := λ A a w, (w, inr a).
#[export] Instance Git_bind : MBind Git := λ A B f m w,
  match m w with
  | (w, inr a) => f a w
  | (w, inl e) => (w, inl e)
  end.
Definition gitFail {A : Type} (e : PagesError) : Git A := λ w, (w, inl e).
Definition gitFail_when (refused : bool) (e : PagesError) : Git () := if refused then gitFail e else mret ().
Definition gitTried {A : Type} (m : Git A) : Git (PagesError + A) := λ w, let '(w, r) := m w in (w, inr r).
Definition gitOption {A : Type} (e : PagesError) (o : option A) : Git A := match o with Some a => mret a | None => gitFail e end.
(** An error as [wrap] reports it. *)
Definition wrapping {A : Type} (wrap : PagesError → PagesError) (m : Git A) : Git A :=
  r ← gitTried m; match r with inr a => mret a | inl e => gitFail (wrap e) end.
Definition infrastructureError (_ : PagesError) : PagesError := PagesFailure ErrorInfrastructure false.
Definition indeterminateError (_ : PagesError) : PagesError := PagesFailure ErrorIndeterminate false.

Section git.
Context `{GitLib} (o : GitOutside).

Definition gitArrive (w : GitWorld) : GitWorld :=
  let refs := meanwhile o (git_clock w) (git_refs w) in
  mkGitWorld (git_objects w ∪ list_to_map ((λ c, (commitID c, c)) <$> added o (git_clock w))) refs (S (git_clock w))
    (git_past w ++ [Found refs]) (git_local w) (git_disk w).

(** A command that only reads: its answer may be lost. *)
Definition gitRead {A : Type} (f : GitWorld → PagesError + A) : Git A := λ w,
  let w' := gitArrive w in
  (w', match delivered o (git_clock w) with Answered => f w' | _ => inl PlainError end).
(** A command of the workspace itself, which others cannot see. *)
Definition gitLocally {A : Type} (f : GitWorld → PagesError + GitWorld * A) : Git A := λ w,
  let w' := gitArrive w in
  match delivered o (git_clock w), f w' with
  | Answered, inr (w'', a) => (w'', inr a)
  | Answered, inl e => (w', inl e)
  | _, _ => (w', inl PlainError)
  end.

(** A push: refused, or leaving a commit or nothing at the ref; [None] is a push of what
    is already there. *)
Definition setRef (remote ref : string) (commit : option string) (w : GitWorld) : GitWorld :=
  mkGitWorld (git_objects w) (partial_alter (λ _, commit) (remote, ref) (git_refs w)) (git_clock w)
    (git_past w ++ [Updated (mkUpdate remote ref (git_refs w !! (remote, ref)) commit)]) (git_local w) (git_disk w).
Definition gitPush (remote ref : string) (f : GitWorld → PagesError + option (option string)) : Git () := λ w,
  let w' := gitArrive w in
  match delivered o (git_clock w), f w' with
  | Lost, _ => (w', inl PlainError)
  | _, inl e => (w', inl e)
  | Answered, inr None => (w', inr ())
  | Answered, inr (Some commit) => (setRef remote ref commit w', inr ())
  | Unacknowledged, inr None => (w', inl PlainError)
  | Unacknowledged, inr (Some commit) => (setRef remote ref commit w', inl PlainError)
  end.

(** ** Workspaces *)

(** A call of the machine. *)
Definition onDisk {A : Type} (m : IO A) : Git A := λ w,
  let '(d, r) := m (git_disk w) in
  (mkGitWorld (git_objects w) (git_refs w) (git_clock w) (git_past w) (git_local w) d,
   match r with inr a => inr a | inl _ => inl PlainError end).
Definition gitFinally {A : Type} (m : Git A) (final : IO ()) : Git A :=
  r ← gitTried m;
  _ ← onDisk (ignoring final);
  match r with inr a => mret a | inl e => gitFail e end.

(** A repository in which nothing is found, for the time of [m]. *)
Definition emptyRepository {A : Type} (m : Git A) : Git A := λ w,
  let '(w', r) := m (mkGitWorld (git_objects w) (git_refs w) (git_clock w) (git_past w) ∅ (git_disk w)) in
  (mkGitWorld (git_objects w') (git_refs w') (git_clock w') (git_past w') (git_local w) (git_disk w'), r).

(** [newGitWorkspace] and its [Close]: [m] is given the root of the workspace. *)
Definition withWorkspace {A : Type} (m : string → Git A) : Git A :=
  root ← onDisk (MkdirTemp (machine o) (temporaryDirectory o) ".snailmail-pages-git-");
  gitFinally (_ ← gitRead (λ _, inr ()); emptyRepository (m root)) (RemoveAll (machine o) root).

(** [git ls-remote --refs]: the refs named [ref] and those that end in it. *)
Definition matchingRefs (w : GitWorld) (remote ref : string) : list (string * string) :=
  omap (λ x, if bool_decide (x.1.1 = remote) && (bool_decide (x.1.2 = ref) || HasSuffix x.1.2 ("/" +:+ ref)) then Some (x.1.2, x.2) else None)
    (map_to_list (git_refs w)).

Definition lsRemote (remote ref : string) : Git string :=
  fields ← gitRead (λ w, inr (mjoin ((λ x, [x.2; x.1]) <$> matchingRefs w remote ref)));
  match fields with
  | [] => gitFail RefNotFound
  | [commit; name] => if bool_decide (name = ref) && validGitObject commit then mret commit else gitFail PlainError
  | _ => gitFail PlainError
  end.

(** [git fetch --depth=2]: the commit at the ref and its parents are found afterwards. *)
Definition withLocal (ids : gset string) (w : GitWorld) : GitWorld :=
  mkGitWorld (git_objects w) (git_refs w) (git_clock w) (git_past w) (git_local w ∪ ids) (git_disk w).
Definition fetchRef (remote ref : string) : Git () :=
  gitLocally (λ w, match git_refs w !! (remote, ref) with
                   | None => inl PlainError
                   | Some commit =>
                       match git_objects w !! commit with
                       | Some c => inr (withLocal ({[commit]} ∪ list_to_set (gc_Parents c)) w, ())
                       | None => inl PlainError
                       end
                   end).
Definition fetch (remote ref : string) : Git string :=
  commit ← lsRemote remote ref;
  _ ← fetchRef remote ref;
  mret commit.

(** A commit of the workspace. *)
Definition localCommit (commit : string) (w : GitWorld) : option GitCommit :=
  if bool_decide (commit ∈ git_local w) then git_objects w !! commit else None.
Definition catFile (commit : string) : Git GitCommit :=
  gitRead (λ w, match localCommit commit w with Some c => inr c | None => inl PlainError end).

(** ** Pushing *)

(** [old] is [new] or among what leads to it, as far as the workspace knows. *)
Fixpoint ancestor (fuel : nat) (w : GitWorld) (old new : string) : bool :=
  bool_decide (old = new) ||
  match fuel with
  | O => false
  | S fuel => match localCommit new w with Some c => existsb (ancestor fuel w old) (gc_Parents c) | None => false end
  end.

(** [git push remote commit:ref], without force. *)
Definition pushNew (remote ref commit : string) : Git () :=
  gitPush remote ref (λ w,
    match localCommit commit w, git_refs w !! (remote, ref) with
    | None, _ => inl PlainError
    | Some _, None => inr (Some (Some commit))
    | Some _, Some current =>
        if bool_decide (current = commit) then inr None
        else if ancestor (size (git_objects w)) w current commit then inr (Some (Some commit)) else inl PlainError
    end).

(** [git push --force-with-lease=ref:expected]: what is there already is not pushed again. *)
Definition pushLease (remote ref expected desired : string) : Git () :=
  gitPush remote ref (λ w,
    let current := git_refs w !! (remote, ref) in
    if negb (bool_decide (desired = "")) && negb (bool_decide (is_Some (localCommit desired w))) then inl PlainError
    else if negb (bool_decide (desired = "")) && bool_decide (current = Some desired) then inr None
    else if negb (bool_decide (default "" current = expected)) || (bool_decide (desired = "") && bool_decide (current = None)) then inl PlainError
    else inr (Some (if bool_decide (desired = "") then None else Some desired))).

Definition ensureRef (remote ref commit : string) : Git () :=
  existing ← gitTried (lsRemote remote ref);
  match existing with
  | inr existing => if bool_decide (existing = commit) then mret () else gitFail (PagesFailure ErrorIndeterminate false)
  | inl RefNotFound =>
      pushed ← gitTried (pushNew remote ref commit);
      match pushed with
      | inr _ => mret ()
      | inl _ =>
          observed ← gitTried (lsRemote remote ref);
          match observed with
          | inr observed => if bool_decide (observed = commit) then mret () else gitFail (PagesFailure ErrorIndeterminate true)
          | inl _ => gitFail (PagesFailure ErrorIndeterminate true)
          end
      end
  | inl _ => gitFail (PagesFailure ErrorInfrastructure false)
  end.

Definition compareAndSwapRef (remote ref expected desired : string) : Git () :=
  pushed ← gitTried (pushLease remote ref expected desired);
  match pushed with
  | inr _ => mret ()
  | inl e =>
      observed ← gitTried (lsRemote remote ref);
      match observed with
      | inl RefNotFound => if bool_decide (desired = "") then mret () else gitFail e
      | inr observed => if bool_decide (observed = desired) then mret () else gitFail e
      | inl _ => gitFail e
      end
  end.

Definition replaceRef (remote ref commit : string) : Git () :=
  current ← gitTried (lsRemote remote ref);
  match current with
  | inr current => compareAndSwapRef remote ref current commit
  | inl RefNotFound => compareAndSwapRef remote ref "" commit
  | inl _ => gitFail (PagesFailure ErrorInfrastructure false)
  end.

(** ** Creating commits *)

(** [commitTree], with the identity and the date it fixes. *)
Definition pagesIdentity : string :=
  "author snailmail <snailmail@invalid> 946684800 +0000" +:+ lineFeed +:+ "committer snailmail <snailmail@invalid> 946684800 +0000" +:+ lineFeed.
Definition commitTree (tree : list TreeEntry) (parent message : string) : Git string :=
  let c := mkGitCommit tree (if bool_decide (parent = "") then [] else [parent]) pagesIdentity message in
  commit ← gitLocally (λ w,
    if (bool_decide (parent = "") || bool_decide (is_Some (localCommit parent w))) && negb (mem_byte "000" message) then
      inr (mkGitWorld (git_objects w ∪ {[commitID c := c]}) (git_refs w) (git_clock w) (git_past w) ({[commitID c]} ∪ git_local w) (git_disk w),
           commitID c)
    else inl PlainError);
  if validGitObject commit then mret commit else gitFail PlainError.

(** ** Reading commits *)

(** What comes before and after the first blank line. *)
Fixpoint cutBlankLine (text : string) : option (string * string) :=
  match text with
  | "" => None
  | String c rest =>
      if HasPrefix text (lineFeed +:+ lineFeed) then Some ("", sdrop 2 text)
      else match cutBlankLine rest with Some (before, after) => Some (String c before, after) | None => None end
  end.

(** The header of a commit: its tree, the last one named, and its parents. *)
Fixpoint headerFields (tree : string) (lines : list string) : string * list string :=
  match lines with
  | [] => (tree, [])
  | line :: lines =>
      let '(tree, parents) := headerFields (if HasPrefix line "tree " then TrimPrefix line "tree " else tree) lines in
      (tree, if HasPrefix line "parent " then TrimPrefix line "parent " :: parents else parents)
  end.

Definition parseEnvelope (text : string) : option (string * list string * string) :=
  match cutBlankLine text with
  | None => None
  | Some (header, message) =>
      let '(tree, parents) := headerFields "" (Split "010" header) in
      if validGitObject tree then Some (tree, parents, TrimSpace message) else None
  end.

Definition commitEnvelope (commit : string) : Git (string * list string * string) :=
  c ← catFile commit;
  gitOption PlainError (parseEnvelope (TrimSpace (commitText c))).

(** [git ls-tree -rz] and the loop of [materializeCommit] over its entries. *)
Definition safeEntry (e : TreeEntry) : bool :=
  bool_decide (te_Mode e = "100644") && bool_decide (te_Type e = "blob") && validGitObject (blobID (te_Content e)) &&
  negb (bool_decide (te_Path e = "")) && negb (IsAbs (te_Path e)) && bool_decide (Clean (te_Path e) = te_Path e) &&
  negb (HasPrefix (te_Path e) "../") && negb (mem_byte "\" (te_Path e)).

(** [os.WriteFile]. *)
Definition WriteFile (p content : string) : IO () :=
  _ ← OpenOrCreate (machine o) p;
  WriteTo (machine o) p content.

Fixpoint materializeEntries (destination : string) (entries : list TreeEntry) : Git () :=
  match entries with
  | [] => mret ()
  | e :: entries =>
      _ ← gitFail_when (negb (safeEntry e)) PlainError;
      content ← gitRead (λ _, inr (te_Content e));
      let target := PathJoin [destination; te_Path e] in
      _ ← onDisk (MkdirAll (machine o) (PathDir target));
      _ ← onDisk (WriteFile target content);
      materializeEntries destination entries
  end.
Definition materializeCommit (commit destination : string) : Git () :=
  c ← catFile commit;
  materializeEntries destination (gc_Tree c).

(** ** Trees *)

(** The index of a publication; an entry replaces the one at its path. *)
Definition Index := gmap string string.
Definition writeTree (index : Index) : list TreeEntry :=
  (λ x, mkTreeEntry "100644" "blob" x.1 x.2) <$> sort_slice (λ x y, str_ltb x.1 y.1) (map_to_list index).

Fixpoint indexFiles (directory : string) (names : list string) (index : Index) : Git Index :=
  match names with
  | [] => mret index
  | name :: names =>
      content ← onDisk (ReadFile (machine o) (PathJoin [directory; name]));
      object ← gitRead (λ _, inr (blobID content));
      _ ← gitFail_when (negb (validGitObject object)) PlainError;
      _ ← gitRead (λ _, if indexable name then inr () else inl PlainError);
      indexFiles directory names (<[name := content]> index)
  end.
End git.
