(* ===== verification/PagesLogic.v ===== *)
(** Reasoning about what a computation does to the refs of remote repositories.

    [does objects m Q]: whatever a run of [m] finds and updates, in order, and whatever it
    returns satisfy [Q], where [objects] are the commits known in the end.  Runs compose
    by appending their events. *)

From S2P Require Import Prelude GoStrings GoSlices Model Formats Source JsonStrict PlanJson Manifest Host.
From S2P Require Import S3Store S3Keys S3 FileSystem VerifyTree PagesGit.

Open Scope Z_scope.

(** ** The logic *)

Definition does (objects : ObjectsOf) {A : Type} (m : Git A) (Q : list GitEvent → PagesError + A → Prop) : Prop :=
  ∀ w w' r, m w = (w', r) → git_objects w' ⊆ objects → ∃ events, git_past w' = git_past w ++ events ∧ Q events r.

(** No commit is ever lost. *)
Definition grows {A : Type} (m : Git A) : Prop := ∀ w w' r, m w = (w', r) → git_objects w ⊆ git_objects w'.

(** No update. *)
Definition isFound (e : GitEvent) : Prop := match e with Found _ => True | Updated _ => False end.
Definition quiet (events : list GitEvent) : Prop := Forall isFound events.
Definition reads (objects : ObjectsOf) {A : Type} (m : Git A) (R : list GitEvent → A → Prop) : Prop :=
  does objects m (λ events r, quiet events ∧ match r with inr a => R events a | inl _ => True end).

(** The ref held the commit, or nothing: it was found so, or made so. *)
Definition heldBy (remote ref : string) (commit : option string) (e : GitEvent) : Prop :=
  match e with
  | Found refs => refs !! (remote, ref) = commit
  | Updated u => upd_Remote u = remote ∧ upd_Ref u = ref ∧ upd_After u = commit
  end.
Definition held (events : list GitEvent) (remote ref : string) (commit : option string) : Prop := Exists (heldBy remote ref commit) events.

Lemma held_app events events' remote ref commit :
  held (events ++ events') remote ref commit ↔ held events remote ref commit ∨ held events' remote ref commit.
Proof. apply Exists_app. Qed.
Lemma quiet_app events events' : quiet (events ++ events') ↔ quiet events ∧ quiet events'.
Proof. apply Forall_app. Qed.
Lemma held_left events events' remote ref commit : held events remote ref commit → held (events ++ events') remote ref commit.
Proof. rewrite held_app. auto. Qed.
Lemma held_right events events' remote ref commit : held events' remote ref commit → held (events ++ events') remote ref commit.
Proof. rewrite held_app. auto. Qed.
Lemma quiet_nil : quiet [].
Proof. constructor. Qed.

Create HintDb pages.
#[export] Hint Resolve quiet_nil held_left held_right : pages.

(** ** Growth *)

Section grows.
Lemma grows_ret {A : Type} (a : A) : grows (mret a).
Proof. intros w w' r Hrun. by inversion Hrun. Qed.
Lemma grows_fail {A : Type} e : grows (A:=A) (gitFail e).
Proof. intros w w' r Hrun. by inversion Hrun. Qed.
Lemma grows_bind {A B : Type} (m : Git A) (f : A → Git B) : grows m → (∀ a, grows (f a)) → grows (m ≫= f).
Proof.
  intros Hm Hf w w' r Hrun. unfold mbind, Git_bind in Hrun. destruct (m w) as [w1 [e|a]] eqn:Em.
  - inversion Hrun; subst. eauto.
  - etrans; [eapply Hm | eapply Hf]; eauto.
Qed.
Lemma grows_fail_when b e : grows (gitFail_when b e).
Proof. destruct b; [apply grows_fail | apply grows_ret]. Qed.
Lemma grows_option {A : Type} e (x : option A) : grows (gitOption e x).
Proof. destruct x; [apply grows_ret | apply grows_fail]. Qed.
Lemma grows_tried {A : Type} (m : Git A) : grows m → grows (gitTried m).
Proof. intros Hm w w' r. unfold gitTried. destruct (m w) as [w1 r1] eqn:Em. intros [= <- <-]. eauto. Qed.
Lemma grows_wrapping {A : Type} wrap (m : Git A) : grows m → grows (wrapping wrap m).
Proof. intros Hm. apply grows_bind; [by apply grows_tried|]. intros [e|a]; [apply grows_fail | apply grows_ret]. Qed.
Lemma grows_disk {A : Type} (m : IO A) : grows (onDisk m).
Proof. intros w w' r. unfold onDisk. destruct (m (git_disk w)) as [d x]. by intros [= <- <-]. Qed.
End grows.

Create HintDb grows.
#[export] Hint Resolve grows_ret grows_fail grows_bind grows_fail_when grows_option grows_tried grows_wrapping grows_disk : grows.

Section logic.
Context (objects : ObjectsOf).
Implicit Types (A B : Type).

Lemma does_mono {A} (m : Git A) (Q Q' : list GitEvent → PagesError + A → Prop) :
  does objects m Q → (∀ events r, Q events r → Q' events r) → does objects m Q'.
Proof. intros Hm Hq w w' r Hrun Hsub. destruct (Hm w w' r Hrun Hsub) as (events & ? & ?). eauto. Qed.

Lemma does_run {A} (m : Git A) (Q : list GitEvent → PagesError + A → Prop) w w' r :
  m w = (w', r) → git_past w' = git_past w → Q [] r → ∃ events, git_past w' = git_past w ++ events ∧ Q events r.
Proof. intros _ -> Hq. exists []. rewrite app_nil_r. done. Qed.

Lemma does_ret {A} (a : A) (Q : list GitEvent → PagesError + A → Prop) : Q [] (inr a) → does objects (mret a) Q.
Proof. intros Hq w w' r Hrun _. inversion Hrun; subst. by eapply does_run. Qed.

Lemma does_fail {A} e (Q : list GitEvent → PagesError + A → Prop) : Q [] (inl e) → does objects (gitFail e) Q.
Proof. intros Hq w w' r Hrun _. inversion Hrun; subst. by eapply does_run. Qed.

Lemma does_fail_when b e (Q : list GitEvent → PagesError + () → Prop) :
  (b = true → Q [] (inl e)) → (b = false → Q [] (inr ())) → does objects (gitFail_when b e) Q.
Proof. unfold gitFail_when. destruct b; intros; [apply does_fail | apply does_ret]; auto. Qed.

Lemma does_option {A} e (x : option A) (Q : list GitEvent → PagesError + A → Prop) :
  Q [] (inl e) → (∀ a, x = Some a → Q [] (inr a)) → does objects (gitOption e x) Q.
Proof. unfold gitOption. destruct x; intros; [apply does_ret | apply does_fail]; auto. Qed.

Lemma does_disk {A} (m : IO A) (Q : list GitEvent → PagesError + A → Prop) : (∀ r, Q [] r) → does objects (onDisk m) Q.
Proof.
  intros Hq w w' r Hrun _. unfold onDisk in Hrun. destruct (m (git_disk w)) as [d x]. inversion Hrun; subst.
  exists []. rewrite app_nil_r. done.
Qed.

Lemma does_bind {A B} (m : Git A) (f : A → Git B) Q1 (Q : list GitEvent → PagesError + B → Prop) :
  does objects m Q1 → (∀ a, grows (f a)) → (∀ events e, Q1 events (inl e) → Q events (inl e)) →
  (∀ events a, Q1 events (inr a) → does objects (f a) (λ events' r, Q (events ++ events') r)) →
  does objects (m ≫= f) Q.
Proof.
  intros Hm Hg He Hf w w' r Hrun Hsub. unfold mbind, Git_bind in Hrun. destruct (m w) as [w1 [e|a]] eqn:Em.
  - inversion Hrun; subst. destruct (Hm _ _ _ Em Hsub) as (events & ? & Hq). eauto.
  - destruct (Hm _ _ _ Em) as (events & Hpast & Hq); [by etrans; [eapply Hg|]|].
    destruct (Hf _ _ Hq _ _ _ Hrun Hsub) as (events' & Hpast' & Hq'). exists (events ++ events').
    by rewrite app_assoc, <- Hpast.
Qed.

Lemma does_tried {A} (m : Git A) (Q : list GitEvent → PagesError + A → Prop) :
  does objects m Q → does objects (gitTried m) (λ events r, ∃ r', r = inr r' ∧ Q events r').
Proof.
  intros Hm w w' r Hrun Hsub. unfold gitTried in Hrun. destruct (m w) as [w1 r1] eqn:Em. inversion Hrun; subst.
  destruct (Hm _ _ _ Em Hsub) as (events & ? & ?). eauto 10.
Qed.

(** ** Reading *)

Lemma reads_mono {A} (m : Git A) (R R' : list GitEvent → A → Prop) :
  reads objects m R → (∀ events a, quiet events → R events a → R' events a) → reads objects m R'.
Proof. intros Hm Hr. eapply does_mono; [done|]. intros events [e|a] [Hq Ha]; [done|]. split; [done|]. by apply Hr. Qed.

Lemma reads_ret {A} (a : A) (R : list GitEvent → A → Prop) : R [] a → reads objects (mret a) R.
Proof. intros. apply does_ret. auto with pages. Qed.
Lemma reads_fail {A} e (R : list GitEvent → A → Prop) : reads objects (gitFail e) R.
Proof. apply does_fail. auto with pages. Qed.
Lemma reads_fail_when b e (R : list GitEvent → () → Prop) : (b = false → R [] ()) → reads objects (gitFail_when b e) R.
Proof. intros. apply does_fail_when; auto with pages. Qed.
Lemma reads_option {A} e (x : option A) (R : list GitEvent → A → Prop) : (∀ a, x = Some a → R [] a) → reads objects (gitOption e x) R.
Proof. intros. apply does_option; auto with pages. Qed.
Lemma reads_disk {A} (m : IO A) (R : list GitEvent → A → Prop) : (∀ a, R [] a) → reads objects (onDisk m) R.
Proof. intros. apply does_disk. intros [e|a]; auto with pages. Qed.

Lemma reads_bind {A B} (m : Git A) (f : A → Git B) R1 (R : list GitEvent → B → Prop) :
  reads objects m R1 → (∀ a, grows (f a)) →
  (∀ events a, R1 events a → reads objects (f a) (λ events' b, R (events ++ events') b)) → reads objects (m ≫= f) R.
Proof.
  intros Hm Hg Hf. eapply does_bind; [exact Hm | done | by intros events e [Hq _] |].
  intros events a [Hq Ha]. eapply does_mono; [by apply Hf|]. intros events' r [Hq' Hr]. split; [by apply quiet_app | done].
Qed.

Lemma reads_wrapping {A} wrap (m : Git A) (R : list GitEvent → A → Prop) : reads objects m R → reads objects (wrapping wrap m) R.
Proof.
  intros Hm. eapply does_bind; [by apply does_tried | | by intros events e (r & ? & _) |].
  { intros [e|a]; auto with grows. }
  intros events r (r' & [= <-] & Hq & Hr). destruct r as [e|a]; [apply does_fail | apply does_ret]; by rewrite app_nil_r.
Qed.

(** A part of which nothing but the updates matters. *)
Lemma reads_then {A B} (m : Git A) (f : A → Git B) R1 (Q : list GitEvent → PagesError + B → Prop) :
  reads objects m R1 → (∀ a, grows (f a)) → (∀ events e, quiet events → Q events (inl e)) →
  (∀ events a, quiet events → R1 events a → does objects (f a) (λ events' r, Q (events ++ events') r)) →
  does objects (m ≫= f) Q.
Proof.
  intros Hm Hg He Hf. eapply does_bind; [exact Hm | done | by intros events e [Hq _]; apply He |].
  intros events a [Hq Ha]. by apply Hf.
Qed.
End logic.

(** ** Git commands *)

Section commands.
Context `{GitLib} (o : GitOutside).

Lemma arrive_grows w : git_objects w ⊆ git_objects (gitArrive o w).
Proof. apply map_union_subseteq_l. Qed.

Lemma grows_read {A : Type} (f : GitWorld → PagesError + A) : grows (gitRead o f).
Proof. intros w w' r [= <- <-]. apply arrive_grows. Qed.

Lemma grows_locally {A : Type} (f : GitWorld → PagesError + GitWorld * A) :
  (∀ w w' a, f w = inr (w', a) → git_objects w ⊆ git_objects w') → grows (gitLocally o f).
Proof.
  intros Hf w w' r. unfold gitLocally. pose proof (arrive_grows w).
  destruct (delivered o (git_clock w)), (f (gitArrive o w)) as [e|[w1 a]] eqn:Ef; intros [= <- <-]; try done. etrans; [done|]. eauto.
Qed.

Lemma grows_push remote ref f : grows (gitPush o remote ref f).
Proof.
  intros w w' r. unfold gitPush. pose proof (arrive_grows w).
  destruct (delivered o (git_clock w)), (f (gitArrive o w)) as [e|[c|]] eqn:Ef; intros [= <- <-]; done.
Qed.

Lemma grows_repository {A : Type} (m : Git A) : grows m → grows (emptyRepository m).
Proof.
  intros Hm w w' r. unfold emptyRepository. destruct (m _) as [w1 r1] eqn:Em. intros [= <- <-].
  exact (Hm _ _ _ Em).
Qed.
End commands.
#[export] Hint Resolve grows_read grows_push grows_repository : grows.

Section workspaces.
Context `{GitLib} (o : GitOutside).

Lemma grows_workspace {A : Type} (m : string → Git A) : (∀ root, grows (m root)) → grows (withWorkspace o m).
Proof.
  intros Hm. apply grows_bind; [auto with grows|]. intros root. unfold gitFinally.
  apply grows_bind; [auto with grows|]. intros r. apply grows_bind; [auto with grows|]. intros ?. destruct r; auto with grows.
Qed.

Lemma grows_lsRemote remote ref : grows (lsRemote o remote ref).
Proof. apply grows_bind; [auto with grows|]. intros [|? [|? [|]]]; try case_match; auto with grows. Qed.

Lemma grows_fetch remote ref : grows (fetch o remote ref).
Proof.
  apply grows_bind; [apply grows_lsRemote|]. intros commit. apply grows_bind; [|auto with grows]. apply grows_locally.
  intros w w' a. repeat case_match; intros [=]; by subst.
Qed.

Lemma grows_ensureRef remote ref commit : grows (ensureRef o remote ref commit).
Proof.
  pose proof grows_lsRemote. apply grows_bind; [auto with grows|]. intros [[]|c]; try case_match; auto with grows.
  apply grows_bind; [unfold pushNew; auto with grows|]. intros [|]; auto with grows.
  apply grows_bind; [auto with grows|]. intros [|]; try case_match; auto with grows.
Qed.

Lemma grows_swap remote ref expected desired : grows (compareAndSwapRef o remote ref expected desired).
Proof.
  pose proof grows_lsRemote. apply grows_bind; [unfold pushLease; auto with grows|]. intros [|]; auto with grows.
  apply grows_bind; [auto with grows|]. intros [[]|]; try case_match; auto with grows.
Qed.

Lemma grows_commitTree tree parent message : grows (commitTree o tree parent message).
Proof.
  apply grows_bind; [|intros; case_match; auto with grows]. apply grows_locally.
  intros w w' a. case_match; intros [=]; subst. apply map_union_subseteq_l.
Qed.

Lemma grows_envelope commit : grows (commitEnvelope o commit).
Proof. unfold commitEnvelope, catFile. auto with grows. Qed.

Lemma grows_entries destination entries : grows (materializeEntries o destination entries).
Proof. induction entries; cbn; auto 8 with grows. Qed.
Lemma grows_materialize commit destination : grows (materializeCommit o commit destination).
Proof. apply grows_bind; [unfold catFile; auto with grows | intros; apply grows_entries]. Qed.
End workspaces.
#[export] Hint Resolve grows_materialize grows_workspace grows_lsRemote grows_fetch grows_ensureRef grows_swap grows_commitTree grows_envelope grows_entries : grows.

Ltac growing := repeat first [solve [auto with grows] | apply grows_workspace | apply grows_tried | apply grows_wrapping | apply grows_bind | match goal with |- ∀ _, _ => intros ? end | case_match].

(** ** Updates *)

Definition onePush (remote ref : string) (P : RefUpdate → Prop) (events : list GitEvent) : Prop :=
  quiet events ∨ ∃ before u after, events = before ++ Updated u :: after ∧ quiet before ∧ quiet after ∧
    upd_Remote u = remote ∧ upd_Ref u = ref ∧ P u.

Lemma onePush_quiet remote ref P events : quiet events → onePush remote ref P events.
Proof. by left. Qed.
Lemma onePush_right remote ref P events events' : onePush remote ref P events → quiet events' → onePush remote ref P (events ++ events').
Proof.
  intros [Hq|(before & u & after & -> & ? & ? & ? & ? & ?)] Hq'; [left; by apply quiet_app|].
  right. exists before, u, (after ++ events'). rewrite <- app_assoc. split_and!; try done. by apply quiet_app.
Qed.
Lemma onePush_left remote ref P events events' : quiet events → onePush remote ref P events' → onePush remote ref P (events ++ events').
Proof.
  intros Hq [Hq'|(before & u & after & -> & ? & ? & ? & ? & ?)]; [left; by apply quiet_app|].
  right. exists (events ++ before), u, after. rewrite <- app_assoc. split_and!; try done. by apply quiet_app.
Qed.
Lemma quiet_update events u : quiet events → Updated u ∈ events → False.
Proof. intros Hq Hin. unfold quiet in Hq. rewrite Forall_forall in Hq. exact (Hq _ Hin). Qed.
Lemma onePush_update rem ref P events u :
  onePush rem ref P events → Updated u ∈ events → upd_Remote u = rem ∧ upd_Ref u = ref ∧ P u ∧ ¬ quiet events.
Proof.
  intros [Hq|(before & v & after & -> & Hb & Ha & ? & ? & ?)] Hin; [by destruct (quiet_update events u)|].
  assert (u = v) as ->; [|split_and!; try done; intros Hq; apply (quiet_update _ v Hq); set_solver].
  apply elem_of_app in Hin as [Hin|[[= ->]|Hin]%elem_of_cons]; [by destruct (quiet_update before u) | done | by destruct (quiet_update after u)].
Qed.
#[export] Hint Resolve onePush_quiet onePush_right onePush_left : pages.

Definition asRef (commit : string) : option string := if bool_decide (commit = "") then None else Some commit.
Definition swaps (expected desired : string) (u : RefUpdate) : Prop :=
  default "" (upd_Before u) = expected ∧ upd_After u = asRef desired.
Definition puts (commit : string) (u : RefUpdate) : Prop := upd_After u = Some commit.

Section reading.
Context `{GitLib} (o : GitOutside) (objects : ObjectsOf).

Lemma does_read {A : Type} (f : GitWorld → PagesError + A) (Q : list GitEvent → PagesError + A → Prop) :
  (∀ w, git_objects w ⊆ objects → Q [Found (git_refs w)] (f w) ∧ Q [Found (git_refs w)] (inl PlainError)) → does objects (gitRead o f) Q.
Proof.
  intros Hf w w' r [= <- <-] Hsub. exists [Found (git_refs (gitArrive o w))]. split; [done|].
  destruct (Hf _ Hsub). by destruct (delivered _ _).
Qed.

Lemma quiet_found refs : quiet [Found refs].
Proof. by repeat constructor. Qed.

Lemma reads_read {A : Type} (f : GitWorld → PagesError + A) (R : list GitEvent → A → Prop) :
  (∀ w a, git_objects w ⊆ objects → f w = inr a → R [Found (git_refs w)] a) → reads objects (gitRead o f) R.
Proof.
  intros Hf. apply does_read. intros w Hsub. split; (split; [apply quiet_found|]); [|done].
  destruct (f w) eqn:Ef; [done|]. by apply Hf.
Qed.

Lemma does_locally {A : Type} (f : GitWorld → PagesError + GitWorld * A) (Q : list GitEvent → PagesError + A → Prop) :
  (∀ w, Q [Found (git_refs w)] (inl PlainError) ∧
        match f w with
        | inr (w', a) => git_past w' = git_past w ∧ (git_objects w' ⊆ objects → Q [Found (git_refs w)] (inr a))
        | inl e => Q [Found (git_refs w)] (inl e)
        end) → does objects (gitLocally o f) Q.
Proof.
  intros Hf w w' r. unfold gitLocally. intros Hrun Hsub. exists [Found (git_refs (gitArrive o w))].
  destruct (Hf (gitArrive o w)) as [Hplain Hr].
  destruct (delivered o (git_clock w)), (f (gitArrive o w)) as [e|[w1 a]] eqn:Ef; inversion Hrun; subst; try done.
  destruct Hr as [-> ?]. auto.
Qed.

Lemma does_repository {A : Type} (m : Git A) Q : does objects m Q → does objects (emptyRepository m) Q.
Proof.
  intros Hm w w' r. unfold emptyRepository. destruct (m _) as [w1 r1] eqn:Em. intros [= <- <-] Hsub. exact (Hm _ _ _ Em Hsub).
Qed.

Lemma does_ignoring {A : Type} (m : IO A) : does objects (onDisk (ignoring m)) (λ events r, events = [] ∧ r = inr ()).
Proof.
  intros w w' r. unfold onDisk, ignoring. destruct (m (git_disk w)) as [d x]. intros [= <- <-] _.
  exists []. by rewrite app_nil_r.
Qed.

Lemma does_finally {A : Type} (m : Git A) final (Q : list GitEvent → PagesError + A → Prop) :
  does objects m Q → does objects (gitFinally m final) Q.
Proof.
  intros Hm. eapply does_bind; [by apply does_tried | | by intros ? ? (? & ? & _) |].
  { intros [|]; auto with grows. }
  intros events r (r' & [= <-] & Hq). eapply does_bind; [apply does_ignoring | destruct r; auto with grows | by intros ? ? [_ ?] |].
  intros ? ? [-> _]. destruct r; [apply does_fail | apply does_ret]; cbn; by rewrite app_nil_r.
Qed.

Lemma does_workspace {A : Type} (m : string → Git A) (Q : list GitEvent → PagesError + A → Prop) :
  (∀ root, grows (m root)) → (∀ events e, quiet events → Q events (inl e)) →
  (∀ root events, quiet events → does objects (m root) (λ events' r, Q (events ++ events') r)) → does objects (withWorkspace o m) Q.
Proof.
  intros Hg He Hm. eapply reads_then; [apply (reads_disk _ _ (λ ev _, ev = [])); done | | done |].
  { intros root. unfold gitFinally. apply grows_bind; [auto with grows|]. intros [|]; auto with grows. }
  intros ? root _ ->. apply does_finally. eapply reads_then; [apply (reads_read _ (λ _ _, True)); done | auto with grows | done |].
  intros events ? Hq _. apply does_repository. by apply Hm.
Qed.

Lemma reads_workspace {A : Type} (m : string → Git A) (R : list GitEvent → A → Prop) :
  (∀ root, grows (m root)) → (∀ events events' a, quiet events → R events' a → R (events ++ events') a) →
  (∀ root, reads objects (m root) R) → reads objects (withWorkspace o m) R.
Proof.
  intros Hg Hr Hm. apply does_workspace; [done | done |]. intros root events Hq. eapply does_mono; [apply Hm|].
  intros events' r [Hq' Ha]. split; [by apply quiet_app|]. destruct r; [done|]. by apply Hr.
Qed.

Lemma matching_found w remote ref commit name :
  matchingRefs w remote ref = [(name, commit)] → name = ref → git_refs w !! (remote, ref) = Some commit.
Proof.
  intros Hm ->. assert ((ref, commit) ∈ matchingRefs w remote ref) as Hin by (rewrite Hm; set_solver).
  unfold matchingRefs in Hin. apply list_elem_of_omap in Hin as ([[r n] c] & Hin & Hx). cbn in Hx.
  destruct (bool_decide (r = remote)) eqn:Er; cbn in Hx; [|done]. case_match; simplify_eq.
  apply elem_of_map_to_list in Hin. by apply bool_decide_eq_true in Er as ->.
Qed.

Lemma matching_none w remote ref : matchingRefs w remote ref = [] → git_refs w !! (remote, ref) = None.
Proof.
  intros Hm. destruct (git_refs w !! (remote, ref)) as [c|] eqn:E; [|done].
  assert ((ref, c) ∈ matchingRefs w remote ref) as Hin; [|rewrite Hm in Hin; set_solver].
  apply list_elem_of_omap. exists ((remote, ref), c). split; [by apply elem_of_map_to_list|]. cbn.
  by rewrite !bool_decide_eq_true_2.
Qed.

Lemma does_lsRemote remote ref :
  does objects (lsRemote o remote ref) (λ events r, quiet events ∧
    match r with
    | inr commit => held events remote ref (Some commit) ∧ validGitObject commit = true
    | inl RefNotFound => held events remote ref None
    | inl _ => True
    end).
Proof.
  eapply does_bind; [apply (does_read _ (λ events r, quiet events ∧
    match r with
    | inr [] => held events remote ref None
    | inr [commit; name] => name = ref → held events remote ref (Some commit)
    | inl RefNotFound => False
    | _ => True
    end)) | | |].
  - intros w _. split; (split; [apply quiet_found|]); [|done].
    destruct (matchingRefs w remote ref) as [|[name commit] [|[] []]] eqn:Em; cbn; try done.
    + constructor. by apply matching_none.
    + intros ->. constructor. by eapply matching_found.
  - intros [|? [|? [|]]]; try case_match; auto with grows.
  - by intros events [] [Hq ?].
  - intros events fields [Hq Hf]. destruct fields as [|commit [|name [|]]]; try (by apply does_fail; rewrite app_nil_r).
    destruct (bool_decide (name = ref)) eqn:En; cbn; [|by apply does_fail; rewrite app_nil_r].
    apply bool_decide_eq_true in En. destruct (validGitObject commit) eqn:Ev; [apply does_ret | apply does_fail]; rewrite app_nil_r; auto.
Qed.

Lemma reads_lsRemote remote ref :
  reads objects (lsRemote o remote ref) (λ events commit, held events remote ref (Some commit) ∧ validGitObject commit = true).
Proof. eapply does_mono; [apply does_lsRemote|]. intros events [e|c] [Hq Hr]; auto. Qed.

Lemma does_fetchRef remote ref :
  does objects (fetchRef o remote ref) (λ events r, quiet events ∧ r ≠ inl RefNotFound).
Proof.
  apply does_locally. intros w. pose proof (quiet_found (git_refs w)). split; [done|]. repeat case_match; simplify_eq; by repeat split.
Qed.
Lemma grows_fetchRef remote ref : grows (fetchRef o remote ref).
Proof. apply grows_locally. intros w w' []. repeat case_match; intros [=]; by subst. Qed.

Lemma does_fetch remote ref :
  does objects (fetch o remote ref) (λ events r, quiet events ∧
    match r with
    | inr commit => held events remote ref (Some commit) ∧ validGitObject commit = true
    | inl RefNotFound => held events remote ref None
    | inl _ => True
    end).
Proof.
  pose proof grows_fetchRef. eapply does_bind; [apply does_lsRemote | auto with grows | done |].
  intros events commit [Hq [Hheld Hvalid]]. eapply does_bind; [apply does_fetchRef | auto with grows | |].
  - intros events' e [Hq' He]. split; [by apply quiet_app|]. by destruct e.
  - intros events' ? [Hq' _]. apply does_ret. rewrite app_nil_r. split; [by apply quiet_app|]. auto with pages.
Qed.

Lemma reads_fetch remote ref :
  reads objects (fetch o remote ref) (λ events commit, held events remote ref (Some commit) ∧ validGitObject commit = true).
Proof. eapply does_mono; [apply does_fetch|]. intros events [e|c] [Hq Hr]; auto. Qed.

Lemma reads_catFile commit : reads objects (catFile o commit) (λ _ c, objects !! commit = Some c).
Proof.
  apply reads_read. intros w c Hsub. unfold localCommit. case_bool_decide; [|done]. destruct (git_objects w !! commit) eqn:E; [|done].
  intros [= <-]. by eapply lookup_weaken.
Qed.

(** The commit as it is printed and read back. *)
Definition envelopeOf (commit : string) (tree : string) (parents : list string) (message : string) : Prop :=
  ∃ c, objects !! commit = Some c ∧ parseEnvelope (TrimSpace (commitText c)) = Some (tree, parents, message).

Lemma reads_envelope commit : reads objects (commitEnvelope o commit) (λ _ x, envelopeOf commit x.1.1 x.1.2 x.2).
Proof.
  eapply reads_bind; [apply reads_catFile | auto with grows |]. intros events c Hc. apply reads_option.
  intros [[tree parents] message] Hp. by exists c.
Qed.

Lemma reads_entries destination entries : reads objects (materializeEntries o destination entries) (λ _ _, True).
Proof.
  induction entries as [|e entries IH]; cbn; [by apply reads_ret|].
  eapply reads_bind; [by apply (reads_fail_when _ _ _ (λ _ _, True)) | auto 6 with grows |]. intros ? ? _.
  eapply reads_bind; [by apply (reads_read _ (λ _ _, True)) | auto 6 with grows |]. intros ? ? _.
  eapply reads_bind; [by apply (reads_disk _ _ (λ _ _, True)) | auto 6 with grows |]. intros ? ? _.
  eapply reads_bind; [by apply (reads_disk _ _ (λ _ _, True)) | auto 6 with grows |]. done.
Qed.

Lemma reads_materialize commit destination : reads objects (materializeCommit o commit destination) (λ _ _, True).
Proof.
  eapply reads_bind; [apply reads_catFile | auto with grows |]. intros. eapply reads_mono; [apply reads_entries | done].
Qed.

(** ** Pushing *)

Lemma does_push remote ref f (P : RefUpdate → Prop) (R : list GitEvent → Prop) :
  (∀ w commit, f w = inr (Some commit) → P (mkUpdate remote ref (git_refs w !! (remote, ref)) commit)) →
  (∀ w, f w = inr None → R [Found (git_refs w)]) →
  (∀ w commit, f w = inr (Some commit) → R [Found (git_refs w); Updated (mkUpdate remote ref (git_refs w !! (remote, ref)) commit)]) →
  does objects (gitPush o remote ref f) (λ events r, onePush remote ref P events ∧ match r with inr _ => R events | inl _ => True end).
Proof.
  intros Hp Hr1 Hr2 w w' r. unfold gitPush. set (w1 := gitArrive o w). intros Hrun _.
  assert (onePush remote ref P [Found (git_refs w1)]) by (left; apply quiet_found).
  assert (∀ commit, f w1 = inr (Some commit) →
            onePush remote ref P [Found (git_refs w1); Updated (mkUpdate remote ref (git_refs w1 !! (remote, ref)) commit)]).
  { intros commit Hf. right. eexists [Found (git_refs w1)], _, []. split_and!; eauto using quiet_found with pages. }
  destruct (delivered o (git_clock w)), (f w1) as [e|[commit|]] eqn:Ef; inversion Hrun; subst;
    first [ exists [Found (git_refs w1)]; by auto
          | exists [Found (git_refs w1); Updated (mkUpdate remote ref (git_refs w1 !! (remote, ref)) commit)];
            split; [cbn; by rewrite <- app_assoc | auto] ].
Qed.

(** A lease is granted where the ref is as expected, and needs nothing where it is as desired. *)
Lemma does_pushLease remote ref expected desired :
  does objects (pushLease o remote ref expected desired) (λ events r,
    onePush remote ref (swaps expected desired) events ∧ match r with inr _ => held events remote ref (asRef desired) | inl _ => True end).
Proof.
  apply does_push; intros w; unfold asRef.
  - intros commit. destruct (bool_decide (default "" _ = expected)) eqn:E; [apply bool_decide_eq_true in E|];
      repeat (case_match; cbn in *); intros [= <-]; try done; unfold swaps, asRef; cbn; repeat case_match; done.
  - destruct (bool_decide (desired = "")); cbn; [by case_match|]. case_match; [done|].
    destruct (bool_decide (git_refs w !! _ = Some desired)) eqn:Hc; [|by case_match]. intros _. constructor. by apply bool_decide_eq_true in Hc.
  - intros commit Hf. right. constructor. cbn. split_and!; [done..|].
    destruct (bool_decide (desired = "")); cbn in Hf; repeat (case_match; try done); by simplify_eq.
Qed.

Lemma does_swap remote ref expected desired :
  does objects (compareAndSwapRef o remote ref expected desired) (λ events r,
    onePush remote ref (swaps expected desired) events ∧ match r with inr _ => held events remote ref (asRef desired) | inl _ => True end).
Proof.
  eapply does_bind; [apply does_tried, does_pushLease | | by intros ? ? (? & ? & _) |].
  { intros [|]; auto with grows. apply grows_bind; [auto with grows|]. intros [[]|]; try case_match; auto with grows. }
  intros events ? (r & [= ->] & Hone & Hheld). destruct r as [e|]; [|apply does_ret; by rewrite app_nil_r].
  eapply does_bind; [apply does_tried, does_lsRemote | intros [[]|]; try case_match; auto with grows | by intros ? ? (? & ? & _) |].
  intros events' ? (r & [= ->] & Hq & Hr). assert (onePush remote ref (swaps expected desired) (events ++ events')) by auto with pages.
  unfold asRef. destruct r as [[]|c]; try (apply does_fail; by rewrite app_nil_r).
  - case_bool_decide; [apply does_ret | apply does_fail]; rewrite app_nil_r; auto with pages.
  - case_bool_decide; [apply does_ret | apply does_fail]; rewrite app_nil_r; [|done]. destruct Hr as [Hr Hv]. subst c.
    rewrite bool_decide_eq_false_2; [auto with pages|]. by intros ->.
Qed.

Lemma does_pushNew remote ref commit :
  does objects (pushNew o remote ref commit) (λ events r,
    onePush remote ref (puts commit) events ∧ match r with inr _ => held events remote ref (Some commit) | inl _ => True end).
Proof.
  apply does_push; intros w; [intros c; repeat case_match; by intros [= <-] | | intros c Hf; right; constructor; cbn].
  - repeat case_match; try done. case_bool_decide; [|done]. subst. intros _. by constructor.
  - split_and!; [done..|]. repeat case_match; by simplify_eq.
Qed.

Lemma does_ensureRef remote ref commit :
  does objects (ensureRef o remote ref commit) (λ events r,
    onePush remote ref (puts commit) events ∧ match r with inr _ => held events remote ref (Some commit) | inl _ => True end).
Proof.
  assert (∀ e (r : PagesError + string), grows (match r with inr c => if bool_decide (c = commit) then mret () else gitFail e | inl _ => gitFail e end)).
  { intros e [|]; try case_match; auto with grows. }
  eapply does_bind; [apply does_tried, does_lsRemote | | by intros ? ? (? & ? & _) |].
  { intros [[]|]; try case_match; auto with grows. apply grows_bind; [unfold pushNew; auto with grows|]. intros [|]; auto with grows. }
  intros events ? (r & [= ->] & Hq & Hr). destruct r as [[]|c]; try (apply does_fail; rewrite app_nil_r; by auto with pages).
  - eapply does_bind; [apply does_tried, does_pushNew | intros [|]; auto with grows | by intros ? ? (? & ? & _) |].
    intros events1 ? (r & [= ->] & Hone & Hheld). destruct r as [e|]; [|apply does_ret; rewrite app_nil_r; by auto with pages].
    eapply does_bind; [apply does_tried, does_lsRemote | auto with grows | by intros ? ? (? & ? & _) |].
    intros events2 ? (r & [= ->] & Hq2 & Hr2). destruct r as [e'|c]; [apply does_fail; rewrite app_nil_r; by auto with pages|].
    case_bool_decide; [subst c; apply does_ret | apply does_fail]; rewrite app_nil_r; split; try done; auto with pages.
    destruct Hr2. auto with pages.
  - destruct Hr. case_bool_decide; [subst c; apply does_ret | apply does_fail]; rewrite app_nil_r; auto with pages.
Qed.

Lemma reads_commitTree tree parent message :
  reads objects (commitTree o tree parent message) (λ _ commit,
    commit = commitID (mkGitCommit tree (if bool_decide (parent = "") then [] else [parent]) pagesIdentity message)).
Proof.
  set (created := mkGitCommit _ _ _ _).
  eapply reads_bind; [apply (does_locally _ (λ events r, quiet events ∧ match r with inr c => c = commitID created | inl _ => True end)) | |].
  - intros w. pose proof (quiet_found (git_refs w)). split; [done|].
    destruct ((bool_decide (parent = "") || _) && _); by repeat split.
  - intros; case_match; auto with grows.
  - intros events c ->. case_match; [by apply reads_ret | apply reads_fail].
Qed.
End reading.
