(* ===== verification/Pages.v ===== *)
(** The GitHub Pages host: [adapters/host/githubpages/githubpages.go].

    A publication is an orphan commit whose message binds it to its plan; it is staged at a
    ref of its own, and committed by moving the branch the site is served from, on the
    condition that the branch is where the plan saw it.  Before that, a descriptor commit
    with the replaced commit as its parent is kept at a third ref, from which the
    publication can be undone.  What [gh api] says of a site is an answer of [PagesLib]. *)

From S2P Require Import Prelude GoStrings GoSlices Model Formats Source JsonStrict PlanJson Manifest Host.
From S2P Require Import S3Store S3Keys S3 FileSystem VerifyTree PagesGit.

Open Scope Z_scope.

(** ** The repository *)

(** The fields of [host.Repository] the adapter reads. *)
Record PagesRepository := mkPagesRepository {
  pg_Type : string; pg_Format : string; pg_Visibility : string; pg_Path : string; pg_Bucket : string; pg_Prefix : string;
  pg_Region : string; pg_Endpoint : string; pg_CanonicalEndpoint : string; pg_UsePathStyle : bool; pg_ReadAuth : string;
  pg_CredentialBroker : string; pg_RemoteRepository : string; pg_Branch : string; pg_PreviewRepository : string;
  pg_PreviewBranch : string; pg_PreviewEndpoint : string;
}.

(** What the site of a repository is configured to be. *)
Record PagesSite := mkPagesSite {
  site_BuildType : string; site_HTMLURL : string; site_Public : bool; site_HTTPSEnforced : bool;
  site_SourceBranch : string; site_SourcePath : string;
}.

Class PagesLib := {
  (** [url.JoinPath]. *)
  JoinPath : string → string → option string;
  (** The answer of [gh api], where it is one that decodes. *)
  siteOf : nat → string → option PagesSite;
}.

Definition previewConfigured (repository : PagesRepository) : bool :=
  negb (bool_decide (pg_PreviewRepository repository = "")) || negb (bool_decide (pg_PreviewBranch repository = "")) ||
  negb (bool_decide (pg_PreviewEndpoint repository = "")).

Definition pagesNameByte (c : ascii) : bool := is_lower c || is_upper c || is_digit c || mem_byte c "-_.".
Definition validName (value : string) : bool :=
  negb (bool_decide (value = "") || HasPrefix value "." || HasSuffix value ".") && all_bytes pagesNameByte value.
Definition validRepositoryName (value : string) : bool :=
  match Split "/" value with
  | [owner; name] => validName owner && validName name && negb (HasSuffix (ToLower name) ".git")
  | _ => false
  end.
Definition validBranch (value : string) : bool :=
  negb (bool_decide (value = "") || bool_decide (value = "@") || HasPrefix value "/" || HasSuffix value "/" ||
        HasSuffix value "." || HasSuffix value ".lock" || GoStrings.Contains value ".." || GoStrings.Contains value "@{" ||
        GoStrings.Contains value "//") &&
  forallb (λ component, negb (bool_decide (component = "") || HasPrefix component ".")) (Split "/" value) &&
  all_bytes branchByte value.

Definition branchRef (branch : string) : string := "refs/heads/" +:+ branch.
Definition stageRef (identifier : string) : string := "refs/heads/snailmail-stage-" +:+ identifier.
Definition restoreRef (identifier : string) : string := "refs/heads/snailmail-restore-" +:+ identifier.

(** ** Messages *)

Record publicationMetadata := mkMetadata {
  meta_PlanID : string; meta_ChangeID : string; meta_TreeSHA256 : string; meta_ManifestSHA256 : string; meta_PreviousRevision : string;
}.
#[export] Instance publicationMetadata_eq_dec : EqDecision publicationMetadata.
Proof. solve_decision. Defined.
Definition noMetadata : publicationMetadata := mkMetadata "" "" "" "" "".

Definition publicationHeader : string := "snailmail-pages/v1".
Definition restoreHeader : string := "snailmail-pages-restore/v1".

Definition boundMessage (header : string) (metadata : publicationMetadata) : string :=
  header +:+ lineFeed +:+ "plan-id=" +:+ meta_PlanID metadata +:+ lineFeed +:+ "change-id=" +:+ meta_ChangeID metadata +:+ lineFeed +:+
  "tree-sha256=" +:+ meta_TreeSHA256 metadata +:+ lineFeed +:+ "manifest-sha256=" +:+ meta_ManifestSHA256 metadata +:+ lineFeed +:+
  "previous-revision=" +:+ meta_PreviousRevision metadata +:+ lineFeed.
Definition publicationMessage (metadata : publicationMetadata) : string := boundMessage publicationHeader metadata.

Definition validMetadata (metadata : publicationMetadata) : bool :=
  ValidSHA256 (meta_PlanID metadata) && negb (bool_decide (meta_ChangeID metadata = "")) && ValidSHA256 (meta_TreeSHA256 metadata) &&
  ValidSHA256 (meta_ManifestSHA256 metadata) &&
  (bool_decide (meta_PreviousRevision metadata = "") || validGitObject (meta_PreviousRevision metadata)) &&
  negb (mem_byte "013" (meta_ChangeID metadata) || mem_byte "010" (meta_ChangeID metadata)).

Definition parseBoundMessage (message header : string) : option publicationMetadata :=
  match Split "010" (TrimSpace message) with
  | [line0; line1; line2; line3; line4; line5] =>
      if negb (bool_decide (line0 = header)) || negb (HasPrefix line1 "plan-id=") || negb (HasPrefix line2 "change-id=") ||
         negb (HasPrefix line3 "tree-sha256=") || negb (HasPrefix line4 "manifest-sha256=") || negb (HasPrefix line5 "previous-revision=")
      then None
      else
        let metadata := mkMetadata (TrimPrefix line1 "plan-id=") (TrimPrefix line2 "change-id=") (TrimPrefix line3 "tree-sha256=")
                          (TrimPrefix line4 "manifest-sha256=") (TrimPrefix line5 "previous-revision=") in
        if validMetadata metadata then Some metadata else None
  | _ => None
  end.

(** [None]: an invalid message; [Some None]: one of a commit that is not managed. *)
Definition parsePublicationMessage (message : string) : option (option publicationMetadata) :=
  let message := TrimSpace message in
  if HasPrefix message "snailmail-pages/" then
    match parseBoundMessage message publicationHeader with Some metadata => Some (Some metadata) | None => None end
  else Some None.

(** ** Files *)

Definition fileSHA256 (files : list File) (name : string) : string :=
  match List.find (λ file, bool_decide (file_Path file = name)) files with Some file => file_SHA256 file | None => "" end.

Fixpoint equalFiles (ls rs : list File) : bool :=
  match ls, rs with
  | [], [] => true
  | l :: ls, r :: rs => bool_decide (l = r) && equalFiles ls rs
  | _, _ => false
  end.

Fixpoint validDescriptors (previous : option string) (files : list File) : bool :=
  match files with
  | [] => true
  | file :: files =>
      negb (bool_decide (file_Path file = "") || IsAbs (file_Path file) || negb (bool_decide (Clean (file_Path file) = file_Path file)) ||
            HasPrefix (file_Path file) "../" || mem_byte "\" (file_Path file) || (file_Size file <? 0) ||
            negb (ValidSHA256 (file_SHA256 file)) ||
            match previous with Some previous => negb (str_ltb previous (file_Path file)) | None => false end) &&
      validDescriptors (Some (file_Path file)) files
  end.

Definition matchesExpected (revision : PublishedRevision) (expected : ExpectedRevision) : bool :=
  bool_decide (rev_NativeRevision revision = exp_NativeRevision expected) && bool_decide (rev_TreeSHA256 revision = exp_TreeSHA256 expected) &&
  bool_decide (rev_PlanID revision = exp_PlanID expected) && bool_decide (rev_ChangeID revision = exp_ChangeID expected) &&
  bool_decide (rev_ManifestSHA256 revision = exp_ManifestSHA256 expected).

Record ClientRoute := mkRoute { route_URL : string; route_Size : Z; route_SHA256 : string }.
Record ClientAccess := mkAccess { access_Endpoint : string; access_Routes : list ClientRoute; access_PropagationTimeout : Z }.

Record PagesRequest := mkPagesRequest {
  pr_PlanID : string; pr_ChangeID : string; pr_PreviousRevision : string; pr_Directory : string; pr_TreeSHA256 : string;
  pr_Files : list File; pr_CommitPaths : list string;
}.
Record PagesStaged := mkPagesStaged {
  ps_ID : string; ps_PlanID : string; ps_ChangeID : string; ps_PreviousRevision : string; ps_PreviewEndpoint : string;
  ps_TreeSHA256 : string; ps_Files : list File; ps_CommitPaths : list string; ps_Access : ClientAccess;
}.

Definition invalidConfiguration : PagesError := PagesFailure ErrorInvalidConfiguration false.
Definition staleRevision : PagesError := PagesFailure ErrorStale false.
Definition indeterminateState : PagesError := PagesFailure ErrorIndeterminate false.
Definition indeterminateEffect : PagesError := PagesFailure ErrorIndeterminate true.

(** Two minutes, in nanoseconds. *)
Definition propagationTimeout : Z := 120 * 10 ^ 9.

Section pages.
Context `{NetLib, TimeLib, HashLib, !ManifestLib, !TreeLib, GitLib, !PagesLib} (o : GitOutside) (remote : string → string).

Local Abbreviation machine := (machine o).
Local Abbreviation withWorkspace := (withWorkspace o).

(** ** Validation *)

Definition validPagesEndpoint (endpoint : string) : bool :=
  match ParseURL endpoint with
  | Some parsed =>
      negb (bool_decide (Source.Host parsed = "") || HasUser parsed || negb (bool_decide (RawQuery parsed = "")) ||
            negb (bool_decide (Fragment parsed = "")) ||
            (negb (bool_decide (Scheme parsed = "https")) && negb (bool_decide (Scheme parsed = "http") && isLoopbackHost (Hostname parsed))))
  | None => false
  end.

Definition validatePagesRepository (repository : PagesRepository) : bool :=
  bool_decide (pg_Type repository = "github-pages") && Publish (Supports (pg_Type repository) (pg_Format repository)) &&
  bool_decide (pg_Visibility repository = "public") &&
  negb (negb (validRepositoryName (pg_RemoteRepository repository)) || negb (validBranch (pg_Branch repository)) ||
        negb (bool_decide (pg_Path repository = "")) || negb (bool_decide (pg_Bucket repository = "")) ||
        negb (bool_decide (pg_Prefix repository = "")) || negb (bool_decide (pg_Region repository = "")) ||
        negb (bool_decide (pg_Endpoint repository = "")) || pg_UsePathStyle repository ||
        negb (bool_decide (pg_ReadAuth repository = "")) || negb (bool_decide (pg_CredentialBroker repository = ""))) &&
  negb (previewConfigured repository &&
        (negb (validRepositoryName (pg_PreviewRepository repository)) ||
         EqualFold (pg_RemoteRepository repository) (pg_PreviewRepository repository) || negb (validBranch (pg_PreviewBranch repository)))) &&
  forallb validPagesEndpoint
    (pg_CanonicalEndpoint repository :: if previewConfigured repository then [pg_PreviewEndpoint repository] else []) &&
  negb (bool_decide (TrimSuffix (pg_CanonicalEndpoint repository) "/" = TrimSuffix (pg_PreviewEndpoint repository) "/")).
Definition checkPages (repository : PagesRepository) : Git () :=
  gitFail_when (negb (validatePagesRepository repository)) invalidConfiguration.

Definition sameEndpoint (l r : string) : bool :=
  match ParseURL l, ParseURL r with
  | Some l, Some r =>
      EqualFold (Scheme l) (Scheme r) && EqualFold (Source.Host l) (Source.Host r) &&
      EqualFold (TrimSuffix (EscapedPath l) "/") (TrimSuffix (EscapedPath r) "/")
  | _, _ => false
  end.

Definition verifyPagesSite (repository branch endpoint : string) : Git () := λ w,
  gitFail_when
    match siteOf (git_clock w) repository with
    | None => true
    | Some configuration =>
        negb (bool_decide (site_BuildType configuration = "legacy")) || negb (bool_decide (site_SourceBranch configuration = branch)) ||
        (negb (bool_decide (site_SourcePath configuration = "/")) && negb (bool_decide (site_SourcePath configuration = ""))) ||
        negb (site_Public configuration) || negb (site_HTTPSEnforced configuration) || negb (sameEndpoint (site_HTMLURL configuration) endpoint)
    end invalidConfiguration
    (gitArrive o w).

(** [verifyProvider] says whether the sites are asked for. *)
Definition CapabilitiesPages (verifyProvider : bool) (repository : PagesRepository) : Git Capabilities :=
  _ ← checkPages repository;
  _ ← (if verifyProvider then
         _ ← verifyPagesSite (pg_RemoteRepository repository) (pg_Branch repository) (pg_CanonicalEndpoint repository);
         verifyPagesSite (pg_PreviewRepository repository) (pg_PreviewBranch repository) (pg_PreviewEndpoint repository)
       else mret ());
  mret (mkCapabilities true true true false "").

Definition stagedFiles (directory : string) : IO (list File) :=
  manifest ← VerifyRepository machine directory;
  let management := PathJoin [directory; ManifestFilename] in
  info ← Lstat machine management;
  match info with
  | Regular content =>
      read ← ReadFile machine management;
      mret (sort_slice fileLess (rm_Files manifest ++ [mkFile ManifestFilename (Z.of_nat (String.length content)) (SHA256Hex read)]))
  | _ => throw OtherError
  end.

Definition invalidRequest (_ : PagesError) : PagesError := invalidConfiguration.
Definition validateStageRequest (request : PagesRequest) : Git () :=
  _ ← gitFail_when
        (negb (ValidSHA256 (pr_PlanID request)) || bool_decide (pr_ChangeID request = "") || negb (ValidSHA256 (pr_TreeSHA256 request)) ||
         (negb (bool_decide (pr_PreviousRevision request = "")) && negb (validGitObject (pr_PreviousRevision request))) ||
         bool_decide (pr_Directory request = "") || bool_decide (pr_Files request = [])) invalidConfiguration;
  manifest ← wrapping invalidRequest (onDisk (VerifyRepository machine (pr_Directory request)));
  _ ← gitFail_when (negb (bool_decide (rm_TreeSHA256 manifest = pr_TreeSHA256 request))) invalidConfiguration;
  _ ← gitFail_when (negb (validDescriptors None (pr_Files request))) invalidConfiguration;
  files ← wrapping invalidRequest (onDisk (stagedFiles (pr_Directory request)));
  gitFail_when (negb (equalFiles files (pr_Files request))) invalidConfiguration.

(** ** Client access *)

Fixpoint clientRoutes (endpoint : string) (files : list File) : option (list ClientRoute) :=
  match files with
  | [] => Some []
  | file :: files =>
      let routePath := if HasSuffix (file_Path file) "/index.html" then TrimSuffix (file_Path file) "index.html" else file_Path file in
      match JoinPath (TrimSuffix endpoint "/" +:+ "/") routePath with
      | None => None
      | Some address =>
          let address := if HasSuffix routePath "/" && negb (HasSuffix address "/") then address +:+ "/" else address in
          match clientRoutes endpoint files with
          | Some routes => Some (mkRoute address (file_Size file) (file_SHA256 file) :: routes)
          | None => None
          end
      end
  end.

(** ** Publications as commits *)

Definition createPublication (request : PagesRequest) : Git string :=
  index ← indexFiles o (pr_Directory request) (file_Path <$> pr_Files request) ∅;
  tree ← gitRead o (λ _, inr (writeTree index));
  commitTree o tree ""
    (publicationMessage (mkMetadata (pr_PlanID request) (pr_ChangeID request) (pr_TreeSHA256 request)
       (fileSHA256 (pr_Files request) ManifestFilename) (pr_PreviousRevision request))).

Definition createRestoreDescriptor (staged : PagesStaged) : Git string :=
  emptyTree ← gitRead o (λ _, inr []);
  commitTree o emptyTree (ps_PreviousRevision staged)
    (boundMessage restoreHeader (mkMetadata (ps_PlanID staged) (ps_ChangeID staged) (ps_TreeSHA256 staged)
       (fileSHA256 (ps_Files staged) ManifestFilename) (ps_PreviousRevision staged))).

Definition inspectPublication (root commit : string) : Git (PublishedRevision * list File * publicationMetadata) :=
  '(_, parents, message) ← commitEnvelope o commit;
  parsed ← gitOption PlainError (parsePublicationMessage message);
  _ ← gitFail_when (bool_decide (is_Some parsed) && negb (bool_decide (parents = []))) PlainError;
  let checkout := PathJoin [root; "checkout-" +:+ stake 12 commit] in
  _ ← onDisk (Mkdir machine checkout);
  _ ← materializeCommit o commit checkout;
  manifest ← onDisk (VerifyRepository machine checkout);
  files ← onDisk (stagedFiles checkout);
  match parsed with
  | None => mret (mkRevision commit "" "" "" "" "" "" "" "", files, noMetadata)
  | Some metadata =>
      _ ← gitFail_when (negb (bool_decide (meta_TreeSHA256 metadata = rm_TreeSHA256 manifest)) ||
                        negb (bool_decide (meta_ManifestSHA256 metadata = fileSHA256 files ManifestFilename))) PlainError;
      mret (mkRevision commit (meta_TreeSHA256 metadata) (meta_PlanID metadata) (meta_ChangeID metadata) "" ""
              (meta_ManifestSHA256 metadata) "" "", files, metadata)
  end.

Definition inspectRestoreDescriptor (commit : string) : Git (publicationMetadata * string) :=
  '(tree, parents, message) ← commitEnvelope o commit;
  emptyTree ← gitRead o (λ _, inr (treeID []));
  _ ← gitFail_when (negb (bool_decide (tree = emptyTree)) || (1 <? length parents)%nat) PlainError;
  parent ← match parents with
           | [parent] =>
               _ ← gitRead o (λ w, match localCommit parent w with Some _ => inr () | None => inl PlainError end);
               mret parent
           | _ => mret ""
           end;
  metadata ← gitOption PlainError (parseBoundMessage message restoreHeader);
  mret (metadata, parent).

(** ** The operations *)

Definition boundRevision (revision : PublishedRevision) (identifier descriptor : string) : PublishedRevision :=
  mkRevision (rev_NativeRevision revision) (rev_TreeSHA256 revision) (rev_PlanID revision) (rev_ChangeID revision) identifier
    (rev_ReleaseSHA256 revision) (rev_ManifestSHA256 revision) (SHA256Hex descriptor) (rev_RestoreRootSHA256 revision).

Definition ObservePages (repository : PagesRepository) : Git PublishedRevision :=
  _ ← checkPages repository;
  withWorkspace (λ root,
    fetched ← gitTried (fetch o (remote (pg_RemoteRepository repository)) (branchRef (pg_Branch repository)));
    match fetched with
    | inl RefNotFound => mret noRevision
    | inl e => gitFail (infrastructureError e)
    | inr commit =>
        '(revision, _, metadata) ← wrapping indeterminateError (inspectPublication root commit);
        if bool_decide (rev_TreeSHA256 revision = "") then mret revision
        else
          let identifier := effectIdentifier (rev_PlanID revision) (rev_ChangeID revision) in
          descriptorCommit ← wrapping indeterminateError (fetch o (remote (pg_RemoteRepository repository)) (restoreRef identifier));
          '(descriptor, parent) ← wrapping indeterminateError (inspectRestoreDescriptor descriptorCommit);
          _ ← gitFail_when (negb (bool_decide (descriptor = metadata)) || negb (bool_decide (parent = meta_PreviousRevision metadata)))
                indeterminateState;
          mret (boundRevision revision identifier descriptorCommit)
    end).

Definition ReadAccessPages (repository : PagesRepository) (revision : PublishedRevision) : Git ClientAccess :=
  observed ← ObservePages repository;
  _ ← gitFail_when (negb (bool_decide (observed = revision)) || bool_decide (rev_TreeSHA256 revision = "")) staleRevision;
  withWorkspace (λ root,
    commit ← wrapping infrastructureError (fetch o (remote (pg_RemoteRepository repository)) (branchRef (pg_Branch repository)));
    '(_, files, _) ← wrapping indeterminateError (inspectPublication root commit);
    routes ← gitOption PlainError (clientRoutes (pg_CanonicalEndpoint repository) files);
    mret (mkAccess (pg_CanonicalEndpoint repository) routes propagationTimeout)).

Definition StagePages (repository : PagesRepository) (request : PagesRequest) : Git PagesStaged :=
  _ ← checkPages repository;
  _ ← validateStageRequest request;
  withWorkspace (λ _,
    commit ← createPublication request;
    let identifier := effectIdentifier (pr_PlanID request) (pr_ChangeID request) in
    _ ← ensureRef o (remote (pg_RemoteRepository repository)) (stageRef identifier) commit;
    routes ← (if previewConfigured repository then
                _ ← replaceRef o (remote (pg_PreviewRepository repository)) (branchRef (pg_PreviewBranch repository)) commit;
                gitOption PlainError (clientRoutes (pg_PreviewEndpoint repository) (pr_Files request))
              else mret []);
    mret (mkPagesStaged identifier (pr_PlanID request) (pr_ChangeID request) (pr_PreviousRevision request) (pg_PreviewEndpoint repository)
            (pr_TreeSHA256 request) (pr_Files request) (pr_CommitPaths request)
            (mkAccess (pg_PreviewEndpoint repository) routes propagationTimeout))).

Definition pagesCommitResult (repository : PagesRepository) (revision : PublishedRevision) (identifier : string) (access : ClientAccess) :
    CommitResult * ClientAccess :=
  (mkCommitResult revision (pg_CanonicalEndpoint repository)
     (Some (mkRestoreRef identifier (rev_PlanID revision) (rev_ChangeID revision) (rev_TreeSHA256 revision) (rev_RestoreSHA256 revision) "")),
   access).

(** The revision is the staged publication. *)
Definition isStaged (staged : PagesStaged) (revision : PublishedRevision) : bool :=
  bool_decide (rev_TreeSHA256 revision = ps_TreeSHA256 staged) && bool_decide (rev_PlanID revision = ps_PlanID staged) &&
  bool_decide (rev_ChangeID revision = ps_ChangeID staged) &&
  bool_decide (rev_ManifestSHA256 revision = fileSHA256 (ps_Files staged) ManifestFilename).

Definition reportCommit (repository : PagesRepository) (staged : PagesStaged) (revision : PublishedRevision) : Git (CommitResult * ClientAccess) :=
  access ← ReadAccessPages repository revision;
  mret (pagesCommitResult repository revision (ps_ID staged) access).

(** What follows the swap, which succeeded or failed. *)
Definition afterSwap (repository : PagesRepository) (staged : PagesStaged) (stageCommit : string) : Git (CommitResult * ClientAccess) :=
  published ← gitTried (ObservePages repository);
  match published with
  | inr published =>
      if bool_decide (rev_NativeRevision published = stageCommit) && isStaged staged published then reportCommit repository staged published
      else gitFail indeterminateEffect
  | inl _ => gitFail indeterminateEffect
  end.

(** The current commit of the branch is fetched, and is still the one observed. *)
Definition fetchCurrent (repository : PagesRepository) (current : PublishedRevision) : Git () :=
  if bool_decide (rev_NativeRevision current = "") then mret ()
  else
    fetched ← wrapping (λ _, staleRevision) (fetch o (remote (pg_RemoteRepository repository)) (branchRef (pg_Branch repository)));
    gitFail_when (negb (bool_decide (fetched = rev_NativeRevision current))) staleRevision.

Definition validHandle (staged : PagesStaged) : bool :=
  validIdentifier (ps_ID staged) && ValidSHA256 (ps_PlanID staged) && negb (bool_decide (ps_ChangeID staged = "")) &&
  ValidSHA256 (ps_TreeSHA256 staged).

(** The staged commit, which is the reviewed publication. *)
Definition loadStaged (root : string) (repository : PagesRepository) (staged : PagesStaged) : Git string :=
  stageCommit ← wrapping infrastructureError (fetch o (remote (pg_RemoteRepository repository)) (stageRef (ps_ID staged)));
  '(stageRevision, files, stageMetadata) ← wrapping indeterminateError (inspectPublication root stageCommit);
  _ ← gitFail_when (negb (isStaged staged stageRevision) ||
                    negb (bool_decide (meta_PreviousRevision stageMetadata = ps_PreviousRevision staged)) ||
                    negb (equalFiles files (ps_Files staged))) indeterminateState;
  mret stageCommit.

Definition CommitPages (repository : PagesRepository) (staged : PagesStaged) (expected : ExpectedRevision) : Git (CommitResult * ClientAccess) :=
  _ ← checkPages repository;
  _ ← gitFail_when (negb (validHandle staged)) invalidConfiguration;
  withWorkspace (λ root,
    let production := remote (pg_RemoteRepository repository) in
    stageCommit ← loadStaged root repository staged;
    _ ← gitFail_when (negb (bool_decide (ps_PreviousRevision staged = exp_NativeRevision expected))) staleRevision;
    current ← ObservePages repository;
    if isStaged staged current then reportCommit repository staged current
    else
      _ ← gitFail_when (negb (matchesExpected current expected)) staleRevision;
      _ ← fetchCurrent repository current;
      descriptorCommit ← createRestoreDescriptor staged;
      _ ← ensureRef o production (restoreRef (ps_ID staged)) descriptorCommit;
      _ ← gitTried (compareAndSwapRef o production (branchRef (pg_Branch repository)) (rev_NativeRevision current) stageCommit);
      afterSwap repository staged stageCommit).

Definition RestorePages (repository : PagesRepository) (restore : RestoreRef) (expected : ExpectedRevision) : Git PublishedRevision :=
  _ ← checkPages repository;
  _ ← gitFail_when (negb (validIdentifier (restore_ID restore)) || bool_decide (restore_PlanID restore = "") ||
                    bool_decide (restore_ChangeID restore = "") || bool_decide (restore_FailedTree restore = "")) invalidConfiguration;
  current ← ObservePages repository;
  _ ← gitFail_when (negb (matchesExpected current expected) || negb (bool_decide (rev_PlanID current = restore_PlanID restore)) ||
                    negb (bool_decide (rev_ChangeID current = restore_ChangeID restore)) ||
                    negb (bool_decide (rev_TreeSHA256 current = restore_FailedTree restore))) staleRevision;
  withWorkspace (λ _,
    let production := remote (pg_RemoteRepository repository) in
    descriptorCommit ← wrapping indeterminateError (fetch o production (restoreRef (restore_ID restore)));
    '(descriptor, parent) ← wrapping indeterminateError (inspectRestoreDescriptor descriptorCommit);
    _ ← gitFail_when (negb (bool_decide (SHA256Hex descriptorCommit = restore_DescriptorSHA256 restore)) ||
                      negb (bool_decide (meta_PlanID descriptor = restore_PlanID restore)) ||
                      negb (bool_decide (meta_ChangeID descriptor = restore_ChangeID restore)) ||
                      negb (bool_decide (meta_TreeSHA256 descriptor = restore_FailedTree restore)) ||
                      negb (bool_decide (meta_ManifestSHA256 descriptor = rev_ManifestSHA256 current)) ||
                      negb (bool_decide (meta_PreviousRevision descriptor = parent))) indeterminateState;
    swapped ← gitTried (compareAndSwapRef o production (branchRef (pg_Branch repository)) (rev_NativeRevision current) parent);
    match swapped with
    | inr _ => ObservePages repository
    | inl _ =>
        observed ← gitTried (ObservePages repository);
        match observed with
        | inr observed => if bool_decide (rev_NativeRevision observed = parent) then mret observed else gitFail indeterminateEffect
        | inl _ => gitFail indeterminateEffect
        end
    end).

Definition AbortPages (repository : PagesRepository) (staged : PagesStaged) : Git () :=
  _ ← checkPages repository;
  _ ← gitFail_when (negb (validIdentifier (ps_ID staged))) invalidConfiguration;
  withWorkspace (λ _,
    let production := remote (pg_RemoteRepository repository) in
    found ← gitTried (lsRemote o production (stageRef (ps_ID staged)));
    match found with
    | inl RefNotFound => mret ()
    | inl e => gitFail (infrastructureError e)
    | inr commit => wrapping infrastructureError (compareAndSwapRef o production (stageRef (ps_ID staged)) commit "")
    end).
End pages.
