(* ===== verification/PagesProofs.v ===== *)
(** What the operations of the GitHub Pages host do to the refs of a repository. *)

From S2P Require Import Prelude GoStrings GoSlices Model Formats Source JsonStrict PlanJson Manifest Host.
From S2P Require Import S3Store S3Keys S3 Rollback FileSystem VerifyTree PagesGit PagesLogic Pages.

Open Scope Z_scope.

(** ** Publications and descriptors *)

Section host.
Context `{NetLib, TimeLib, HashLib, !ManifestLib, !TreeLib, GitLib, !PagesLib} (o : GitOutside) (remote : string → string) (objects : ObjectsOf).

(** The commit is a publication: an orphan whose message binds it. *)
Definition publicationOf (commit : string) (metadata : publicationMetadata) : Prop :=
  ∃ tree message, envelopeOf objects commit tree [] message ∧ parsePublicationMessage message = Some (Some metadata).

(** The commit is a restore descriptor, with the commit to go back to. *)
Definition descriptorOf (commit : string) (metadata : publicationMetadata) (parent : string) : Prop :=
  ∃ parents message, envelopeOf objects commit (treeID []) parents message ∧ parseBoundMessage message restoreHeader = Some metadata ∧
    (parents = [parent] ∨ parents = [] ∧ parent = "").

(** The revision reports the binding of its commit. *)
Definition reports (revision : PublishedRevision) (metadata : publicationMetadata) : Prop :=
  rev_TreeSHA256 revision = meta_TreeSHA256 metadata ∧ rev_PlanID revision = meta_PlanID metadata ∧
  rev_ChangeID revision = meta_ChangeID metadata ∧ rev_ManifestSHA256 revision = meta_ManifestSHA256 metadata.

Lemma grows_inspect root commit : grows (inspectPublication o root commit).
Proof.
  unfold inspectPublication. growing.
Qed.

Lemma grows_inspectRestore commit : grows (inspectRestoreDescriptor o commit).
Proof.
  unfold inspectRestoreDescriptor. growing.
Qed.
Hint Resolve grows_inspect grows_inspectRestore : grows.

Lemma reads_inspect root commit :
  reads objects (inspectPublication o root commit) (λ _ x,
    rev_NativeRevision x.1.1 = commit ∧ (rev_TreeSHA256 x.1.1 ≠ "" → publicationOf commit x.2 ∧ reports x.1.1 x.2)).
Proof.
  unfold inspectPublication. eapply reads_bind; [apply reads_envelope | growing |].
  intros ? [[tree parents] message] Henv. cbn in Henv.
  eapply reads_bind; [by apply (reads_option _ _ _ (λ _ parsed, parsePublicationMessage message = Some parsed)) | growing |].
  intros ? parsed Hparsed.
  eapply reads_bind; [apply (reads_fail_when _ _ _ (λ _ _, is_Some parsed → parents = [])) | growing |].
  { intros Hb Hs. rewrite bool_decide_eq_true_2 in Hb by done. cbn in Hb. by case_bool_decide. }
  intros ? ? Horphan.
  eapply reads_bind; [by apply (reads_disk _ _ (λ _ _, True)) | growing |]; intros ? ? _.
  eapply reads_bind; [apply reads_materialize | growing |]; intros ? ? _.
  eapply reads_bind; [by apply (reads_disk _ _ (λ _ _, True)) | growing |]; intros ? manifest _.
  eapply reads_bind; [by apply (reads_disk _ _ (λ _ _, True)) | growing |]; intros ? files _.
  destruct parsed as [metadata|]; [|by apply reads_ret].
  eapply reads_bind; [by apply (reads_fail_when _ _ _ (λ _ _, True)) | growing |]; intros ? ? _.
  apply reads_ret. split; [done|]. intros _. split; [|done]. exists tree, message. split; [|done]. by rewrite <- Horphan.
Qed.

Lemma asRef_valid commit : validGitObject commit = true → asRef commit = Some commit.
Proof. unfold asRef. case_bool_decide; [by subst | done]. Qed.

Lemma default_asRef a : default "" (asRef a) = a.
Proof. unfold asRef. by case_bool_decide. Qed.

Lemma reads_inspectRestore commit :
  reads objects (inspectRestoreDescriptor o commit) (λ _ x, descriptorOf commit x.1 x.2).
Proof.
  unfold inspectRestoreDescriptor. eapply reads_bind; [apply reads_envelope | growing |].
  intros ? [[tree parents] message] Henv. cbn in Henv.
  eapply reads_bind; [apply (reads_read _ _ _ (λ _ t, t = treeID [])) | growing |]; [by intros ? ? ? [= <-]|]. intros ? ? ->.
  eapply reads_bind; [apply (reads_fail_when _ _ _ (λ _ _, tree = treeID [] ∧ (length parents <= 1)%nat)) | growing |].
  { intros [Htree Hlen]%orb_false_elim. split; [by case_bool_decide|]. apply Nat.ltb_ge in Hlen. lia. }
  intros ? ? [-> Hlen].
  eapply (reads_bind _ _ _ (λ _ parent, parents = [parent] ∨ parents = [] ∧ parent = "")); [|growing|].
  { destruct parents as [|parent []]; cbn in Hlen; [apply reads_ret; auto | | lia].
    eapply reads_bind; [by apply (reads_read _ _ _ (λ _ _, True)) | growing |]. intros. apply reads_ret. auto. }
  intros ? parent Hparent.
  eapply reads_bind; [by apply (reads_option _ _ _ (λ _ metadata, parseBoundMessage message restoreHeader = Some metadata)) | growing |].
  intros ? metadata Hm. apply reads_ret. by exists parents, message.
Qed.

Definition production (repository : PagesRepository) : string := remote (pg_RemoteRepository repository).
Definition siteRef (repository : PagesRepository) : string := branchRef (pg_Branch repository).

(** What is reported was the case: the branch held the commit, and where that is a publication, the
    descriptor from which it can be undone was there. *)
Definition undoable (repository : PagesRepository) (events : list GitEvent) (revision : PublishedRevision) : Prop :=
  ∃ metadata descriptor, publicationOf (rev_NativeRevision revision) metadata ∧ reports revision metadata ∧
    rev_RestoreSHA256 revision = SHA256Hex descriptor ∧
    held events (production repository) (restoreRef (effectIdentifier (rev_PlanID revision) (rev_ChangeID revision))) (Some descriptor) ∧
    descriptorOf descriptor metadata (meta_PreviousRevision metadata).
Definition observed (repository : PagesRepository) (events : list GitEvent) (revision : PublishedRevision) : Prop :=
  held events (production repository) (siteRef repository) (asRef (rev_NativeRevision revision)) ∧
  (rev_TreeSHA256 revision ≠ "" → undoable repository events revision).

Lemma observed_app repository events events' revision :
  observed repository events' revision → observed repository (events ++ events') revision.
Proof.
  intros [Hheld Hundo]. split; [by apply held_right|]. intros (metadata & descriptor & ? & ? & ? & ? & ?)%Hundo.
  exists metadata, descriptor. auto 10 with pages.
Qed.
Lemma observed_left repository events events' revision :
  observed repository events revision → observed repository (events ++ events') revision.
Proof.
  intros [Hheld Hundo]. split; [by apply held_left|]. intros (metadata & descriptor & ? & ? & ? & ? & ?)%Hundo.
  exists metadata, descriptor. auto 10 with pages.
Qed.

Lemma grows_observe repository : grows (ObservePages o remote repository).
Proof. unfold ObservePages, checkPages. growing.
Qed.
Hint Resolve grows_observe : grows.

Lemma reads_observe repository : reads objects (ObservePages o remote repository) (observed repository).
Proof.
  unfold ObservePages, checkPages. eapply reads_bind; [by apply (reads_fail_when _ _ _ (λ ev _, ev = [])) | growing |].
  intros ? ? ->. apply reads_workspace; [growing | intros; cbn in *; by apply observed_app |]. intros root.
  eapply does_bind; [apply does_tried, does_fetch | growing | by intros ? ? (? & ? & _) |].
  intros events ? (r & [= ->] & Hq & Hr). destruct r as [[]|commit]; try (apply does_fail; by rewrite app_nil_r).
  - apply does_ret. rewrite app_nil_r. split; [done|]. by split.
  - destruct Hr as [Hheld Hvalid].
    eapply reads_then; [apply reads_wrapping, reads_inspect | growing | by intros; split; [apply quiet_app|] |].
    intros events1 [[revision files] metadata] Hq1 [Hnative Hpub]. cbn in *. subst commit. case_bool_decide as Ht.
    { apply does_ret. rewrite app_nil_r. split; [by apply quiet_app|]. split; [rewrite asRef_valid by done; by apply held_left | done]. }
    destruct (Hpub Ht) as [Hof Hreports].
    eapply reads_then; [apply reads_wrapping, reads_fetch | growing | by intros; split; [rewrite !quiet_app|] |].
    intros events2 descriptor Hq2 [Hd _].
    eapply reads_then; [apply reads_wrapping, reads_inspectRestore | growing | by intros; split; [rewrite !quiet_app|] |].
    intros events3 [written parent] Hq3 Hdesc. cbn in Hdesc.
    eapply reads_then; [apply (reads_fail_when _ _ _ (λ _ _, written = metadata ∧ parent = meta_PreviousRevision metadata)) | growing |
                        by intros; split; [rewrite !quiet_app|] |].
    { intros [?%negb_false_iff%bool_decide_eq_true ?%negb_false_iff%bool_decide_eq_true]%orb_false_elim. done. }
    intros events4 ? Hq4 [-> ->]. apply does_ret. rewrite app_nil_r. split; [by rewrite !quiet_app|].
    split; [cbn; rewrite asRef_valid by done; by apply held_left|]. intros _. exists metadata, descriptor.
    split_and!; try done. do 2 apply held_right. by apply held_left.
Qed.

(** ** Committing *)

(** The binding of a staged publication, and the descriptor it can be undone from. *)
Definition stagedMetadata (staged : PagesStaged) : publicationMetadata :=
  mkMetadata (ps_PlanID staged) (ps_ChangeID staged) (ps_TreeSHA256 staged) (fileSHA256 (ps_Files staged) ManifestFilename) (ps_PreviousRevision staged).
Definition restoreCommit (staged : PagesStaged) : string :=
  commitID (mkGitCommit [] (if bool_decide (ps_PreviousRevision staged = "") then [] else [ps_PreviousRevision staged]) pagesIdentity
    (boundMessage restoreHeader (stagedMetadata staged))).

Lemma grows_access repository revision : grows (ReadAccessPages o remote repository revision).
Proof. unfold ReadAccessPages. growing. Qed.
Hint Resolve grows_access : grows.
Lemma grows_report repository staged revision : grows (reportCommit o remote repository staged revision).
Proof. unfold reportCommit. growing. Qed.
Hint Resolve grows_report : grows.
Lemma grows_after repository staged commit : grows (afterSwap o remote repository staged commit).
Proof. unfold afterSwap. growing. Qed.
Lemma grows_current repository current : grows (fetchCurrent o remote repository current).
Proof. unfold fetchCurrent. growing. Qed.
Lemma grows_staged root repository staged : grows (loadStaged o remote root repository staged).
Proof. unfold loadStaged. growing. Qed.
Lemma grows_descriptor staged : grows (createRestoreDescriptor o staged).
Proof. unfold createRestoreDescriptor. growing. Qed.
Hint Resolve grows_after grows_current grows_staged grows_descriptor : grows.

Lemma reads_access repository revision : reads objects (ReadAccessPages o remote repository revision) (λ _ _, True).
Proof.
  unfold ReadAccessPages. eapply reads_bind; [apply reads_observe | growing |]; intros ? ? _.
  eapply reads_bind; [by apply (reads_fail_when _ _ _ (λ _ _, True)) | growing |]; intros ? ? _.
  apply reads_workspace; [growing | done |]. intros root.
  eapply reads_bind; [apply reads_wrapping, reads_fetch | growing |]; intros ? ? _.
  eapply reads_bind; [apply reads_wrapping, reads_inspect | growing |]; intros ? [[? ?] ?] _.
  eapply reads_bind; [by apply (reads_option _ _ _ (λ _ _, True)) | growing |]; intros ? ? _. by apply reads_ret.
Qed.

Lemma reads_report repository staged revision :
  reads objects (reportCommit o remote repository staged revision) (λ _ result,
    com_Revision result.1 = revision ∧ com_RestoreRef result.1 =
      Some (mkRestoreRef (ps_ID staged) (rev_PlanID revision) (rev_ChangeID revision) (rev_TreeSHA256 revision) (rev_RestoreSHA256 revision) "")).
Proof. eapply reads_bind; [apply reads_access | growing |]. intros. by apply reads_ret. Qed.

Lemma isStaged_reports staged revision : isStaged staged revision = true ↔ reports revision (stagedMetadata staged).
Proof. unfold isStaged, reports. rewrite !andb_true_iff, !bool_decide_eq_true. naive_solver. Qed.

Lemma reports_binding revision metadata staged :
  reports revision metadata → reports revision (stagedMetadata staged) → meta_PreviousRevision metadata = ps_PreviousRevision staged →
  metadata = stagedMetadata staged.
Proof. destruct metadata. unfold reports, stagedMetadata. cbn. intros (?&?&?&?) (?&?&?&?) ?. congruence. Qed.

Lemma reads_staged root repository staged :
  ps_TreeSHA256 staged ≠ "" →
  reads objects (loadStaged o remote root repository staged) (λ events commit,
    held events (production repository) (stageRef (ps_ID staged)) (Some commit) ∧ validGitObject commit = true ∧
    publicationOf commit (stagedMetadata staged)).
Proof.
  intros Hne. unfold loadStaged. eapply reads_bind; [apply reads_wrapping, reads_fetch | growing |]. intros events commit [Hheld Hvalid].
  eapply reads_bind; [apply reads_wrapping, reads_inspect | growing |]. intros ? [[revision files] metadata] [Hnative Hpub]. cbn in *.
  eapply reads_bind; [apply (reads_fail_when _ _ _ (λ _ _, publicationOf commit (stagedMetadata staged))) | growing |].
  - intros [[Hs%negb_false_iff Hp%negb_false_iff%bool_decide_eq_true]%orb_false_elim _]%orb_false_elim.
    apply isStaged_reports in Hs. destruct Hpub as [Hof Hr]; [by destruct Hs as [-> _]|]. by rewrite <- (reports_binding revision metadata staged).
  - intros ? ? Hof. apply reads_ret. auto with pages.
Qed.

Definition committed (repository : PagesRepository) (staged : PagesStaged) (events : list GitEvent) (result : CommitResult * ClientAccess) : Prop :=
  let revision := com_Revision result.1 in
  observed repository events revision ∧ reports revision (stagedMetadata staged) ∧
  com_RestoreRef result.1 =
    Some (mkRestoreRef (ps_ID staged) (rev_PlanID revision) (rev_ChangeID revision) (rev_TreeSHA256 revision) (rev_RestoreSHA256 revision) "").

Lemma reads_after repository staged commit :
  reads objects (afterSwap o remote repository staged commit) (λ events result,
    committed repository staged events result ∧ rev_NativeRevision (com_Revision result.1) = commit).
Proof.
  eapply does_bind; [apply does_tried, reads_observe | growing | by intros ? ? (? & ? & _) |].
  intros events ? (r & [= ->] & Hq & Hr). destruct r as [e|published]; [apply does_fail; by rewrite app_nil_r|].
  destruct (bool_decide (rev_NativeRevision published = commit)) eqn:En; cbn; [|apply does_fail; by rewrite app_nil_r].
  destruct (isStaged staged published) eqn:Es; [|apply does_fail; by rewrite app_nil_r].
  eapply does_mono; [apply reads_report|]. intros events' r [Hq' Hresult]. split; [by apply quiet_app|]. destruct r as [|result]; [done|].
  destruct Hresult as [Hrev Href]. apply isStaged_reports in Es. apply bool_decide_eq_true in En. unfold committed. rewrite Hrev.
  split_and!; try done. by apply observed_left.
Qed.

Lemma reads_current repository current : reads objects (fetchCurrent o remote repository current) (λ _ _, True).
Proof.
  unfold fetchCurrent. case_bool_decide; [by apply reads_ret|].
  eapply reads_bind; [apply reads_wrapping, reads_fetch | growing |]. intros. by apply reads_fail_when.
Qed.

(** The events of a commit: those up to the descriptor, then those of the swap and after. *)
Definition commitEffects (repository : PagesRepository) (staged : PagesStaged) (expected : ExpectedRevision) (events : list GitEvent)
    (r : PagesError + CommitResult * ClientAccess) : Prop :=
  ∃ preparing switching commit, events = preparing ++ switching ∧
    onePush (production repository) (restoreRef (ps_ID staged)) (puts (restoreCommit staged)) preparing ∧
    onePush (production repository) (siteRef repository) (swaps (exp_NativeRevision expected) commit) switching ∧
    (¬ quiet switching →
       ps_PreviousRevision staged = exp_NativeRevision expected ∧
       held preparing (production repository) (restoreRef (ps_ID staged)) (Some (restoreCommit staged)) ∧
       held preparing (production repository) (stageRef (ps_ID staged)) (Some commit) ∧
       publicationOf commit (stagedMetadata staged)) ∧
    ∀ result, r = inr result →
      committed repository staged events result ∧ (quiet switching ∨ rev_NativeRevision (com_Revision result.1) = commit).

Lemma commit_quiet repository staged expected events r :
  quiet events → (∀ result, r = inr result → committed repository staged events result) → commitEffects repository staged expected events r.
Proof.
  intros Hq Hr. exists events, [], "". rewrite app_nil_r. split_and!; auto 6 with pages. intros []. auto with pages.
Qed.
Lemma commit_refused repository staged expected events e :
  quiet events → commitEffects repository staged expected events (inl e).
Proof. intros. by apply commit_quiet. Qed.

Lemma does_descriptor staged : reads objects (createRestoreDescriptor o staged) (λ _ commit, commit = restoreCommit staged).
Proof.
  eapply reads_bind; [apply (reads_read _ _ _ (λ _ tree, tree = [])) | growing |]; [by intros ? ? ? [= <-]|]. intros ? ? ->. apply reads_commitTree.
Qed.

Lemma does_switch repository staged expected commit (before : list GitEvent) :
  quiet before → ps_PreviousRevision staged = exp_NativeRevision expected →
  held before (production repository) (stageRef (ps_ID staged)) (Some commit) → publicationOf commit (stagedMetadata staged) →
  does objects (
    _ ← ensureRef o (production repository) (restoreRef (ps_ID staged)) (restoreCommit staged);
    _ ← gitTried (compareAndSwapRef o (production repository) (siteRef repository) (exp_NativeRevision expected) commit);
    afterSwap o remote repository staged commit)
    (λ events r, commitEffects repository staged expected (before ++ events) r).
Proof.
  intros Hq Hprev Hstage Hof. eapply does_bind; [apply does_ensureRef | growing | |].
  - intros events e [Hone _]. exists (before ++ events), [], "". rewrite app_nil_r. split_and!; auto with pages; [|done].
    intros []. auto with pages.
  - intros events [] [Hone Hheld].
    eapply does_bind; [apply does_tried, does_swap | growing | by intros ? ? (? & ? & _) |].
    intros events1 ? (r & _ & Hswap & _). eapply does_mono; [apply reads_after|]. intros events2 r2 [Hq2 Hr2].
    exists (before ++ events), (events1 ++ events2), commit. rewrite !app_assoc. split_and!; auto with pages.
    intros result ->. destruct Hr2 as [(Hobs & Hrest) Hnative]. split; [|by right]. split; [|done]. rewrite <- !app_assoc. by do 3 apply observed_app.
Qed.

Local Ltac quietly := rewrite ?quiet_app; split_and?; auto with pages.
Local Ltac refused := intros; apply commit_refused; by quietly.

Lemma does_commit repository staged expected :
  does objects (CommitPages o remote repository staged expected) (commitEffects repository staged expected).
Proof.
  unfold CommitPages, checkPages. eapply reads_then; [by apply (reads_fail_when _ _ _ (λ ev _, ev = [])) | growing | refused |].
  intros ? ? _ ->. eapply reads_then; [apply (reads_fail_when _ _ _ (λ ev _, ev = [] ∧ validHandle staged = true)) | growing | refused |].
  { intros ?%negb_false_iff. done. }
  intros ? ? _ [-> Hhandle]. cbn. assert (ps_TreeSHA256 staged ≠ "") as Hne.
  { intros Heq. unfold validHandle in Hhandle. rewrite Heq, andb_comm in Hhandle. done. }
  apply does_workspace; [growing | refused |]. intros root events Hq.
  eapply reads_then; [by apply reads_staged | growing | refused |].
  intros events1 commit Hq1 (Hheld & Hvalid & Hof).
  eapply reads_then; [apply (reads_fail_when _ _ _ (λ ev _, ev = [] ∧ ps_PreviousRevision staged = exp_NativeRevision expected)) | growing | |].
  { intros ?%negb_false_iff%bool_decide_eq_true. done. }
  { refused. }
  intros ? ? _ [-> Hprev]. eapply reads_then; [apply reads_observe | growing | refused |].
  intros events2 current Hq2 Hobs. destruct (isStaged staged current) eqn:Es.
  { eapply does_mono; [apply reads_report|]. intros events3 r [Hq3 Hr]. apply commit_quiet; [by quietly|].
    intros result ->. destruct Hr as [Hrev Href]. apply isStaged_reports in Es. unfold committed. rewrite Hrev. split_and!; try done.
    do 2 apply observed_app. cbn. by apply observed_left. }
  eapply reads_then; [apply (reads_fail_when _ _ _ (λ ev _, ev = [] ∧ rev_NativeRevision current = exp_NativeRevision expected)) | growing | |].
  { intros Hm%negb_false_iff. split; [done|]. unfold matchesExpected in Hm. rewrite !andb_true_iff, !bool_decide_eq_true in Hm. tauto. }
  { refused. }
  intros ? ? _ [-> Hnative]. eapply reads_then; [apply (reads_current repository current) | growing | refused |].
  intros events3 ? Hq3 _. eapply reads_then; [apply does_descriptor | growing | refused |].
  intros events4 ? Hq4 ->. rewrite Hnative. eapply does_mono; [eapply (does_switch repository staged expected commit (events ++ events1 ++ events2 ++ events3 ++ events4)); [by quietly | done | | done]|].
  - apply held_right, held_left. done.
  - cbn. intros events5 r. by rewrite <- !app_assoc.
Qed.

(** ** Restoring *)

(** The commit a descriptor leads back to. *)
Definition restores (repository : PagesRepository) (restore : RestoreRef) (events : list GitEvent) (parent : string) : Prop :=
  ∃ descriptor metadata, held events (production repository) (restoreRef (restore_ID restore)) (Some descriptor) ∧
    SHA256Hex descriptor = restore_DescriptorSHA256 restore ∧ descriptorOf descriptor metadata parent ∧
    meta_PlanID metadata = restore_PlanID restore ∧ meta_ChangeID metadata = restore_ChangeID restore ∧
    meta_TreeSHA256 metadata = restore_FailedTree restore ∧ meta_PreviousRevision metadata = parent.

Definition restoreEffects (repository : PagesRepository) (restore : RestoreRef) (expected : ExpectedRevision) (events : list GitEvent)
    (r : PagesError + PublishedRevision) : Prop :=
  ∃ preparing switching parent, events = preparing ++ switching ∧ quiet preparing ∧
    onePush (production repository) (siteRef repository) (swaps (exp_NativeRevision expected) parent) switching ∧
    (¬ quiet switching → restores repository restore preparing parent) ∧
    ∀ revision, r = inr revision →
      held switching (production repository) (siteRef repository) (asRef parent) ∧ restores repository restore preparing parent ∧
      observed repository switching revision.

Lemma restore_refused repository restore expected events e : quiet events → restoreEffects repository restore expected events (inl e).
Proof.
  intros Hq. exists events, [], "". rewrite app_nil_r. split_and!; auto with pages; [|done]. intros []. auto with pages.
Qed.
Local Ltac restore_refused := intros; apply restore_refused; by quietly.

Lemma does_restoreSwitch repository restore expected parent (before : list GitEvent) :
  quiet before → restores repository restore before parent →
  does objects (
    swapped ← gitTried (compareAndSwapRef o (production repository) (siteRef repository) (exp_NativeRevision expected) parent);
    match swapped with
    | inr _ => ObservePages o remote repository
    | inl _ =>
        observed ← gitTried (ObservePages o remote repository);
        match observed with
        | inr observed => if bool_decide (rev_NativeRevision observed = parent) then mret observed else gitFail indeterminateEffect
        | inl _ => gitFail indeterminateEffect
        end
    end) (λ events r, restoreEffects repository restore expected (before ++ events) r).
Proof.
  intros Hq Hrestores. eapply does_bind; [apply does_tried, does_swap | growing | by intros ? ? (? & ? & _) |].
  intros events ? (r & [= ->] & Hone & Hheld). destruct r as [e|[]].
  - eapply does_bind; [apply does_tried, reads_observe | growing | by intros ? ? (? & ? & _) |].
    intros events1 ? (r & [= ->] & Hq1 & Hr). 
    assert (∀ e', restoreEffects repository restore expected (before ++ events ++ events1 ++ []) (inl e')) as Hfail.
    { intros e'. rewrite app_nil_r. exists before, (events ++ events1), parent. split_and!; auto with pages. done. }
    destruct r as [e1|revision]; [by apply does_fail|]. case_bool_decide as Hn; [|by apply does_fail]. apply does_ret. rewrite app_nil_r.
    exists before, (events ++ events1), parent. split_and!; auto with pages. intros ? [= <-]. destruct Hr as [Hr Hu].
    split_and!; [rewrite <- Hn; by apply held_right | done | by apply observed_app; split].
  - eapply does_mono; [apply reads_observe|]. intros events1 r [Hq1 Hr]. exists before, (events ++ events1), parent.
    split_and!; auto with pages. intros revision ->. split_and!; auto using observed_app with pages.
Qed.

Lemma does_restore repository restore expected :
  does objects (RestorePages o remote repository restore expected) (restoreEffects repository restore expected).
Proof.
  unfold RestorePages, checkPages. eapply reads_then; [by apply (reads_fail_when _ _ _ (λ ev _, ev = [])) | growing | restore_refused |].
  intros ? ? _ ->. eapply reads_then; [by apply (reads_fail_when _ _ _ (λ ev _, ev = [])) | growing | restore_refused |].
  intros ? ? _ ->. eapply reads_then; [apply reads_observe | growing | restore_refused |]. intros events current Hq _.
  eapply reads_then; [apply (reads_fail_when _ _ _ (λ ev _, ev = [] ∧ rev_NativeRevision current = exp_NativeRevision expected)) | growing | restore_refused |].
  { intros [[[Hm%negb_false_iff _]%orb_false_elim _]%orb_false_elim _]%orb_false_elim. split; [done|].
    unfold matchesExpected in Hm. rewrite !andb_true_iff, !bool_decide_eq_true in Hm. tauto. }
  intros ? ? _ [-> Hnative]. apply does_workspace; [growing | restore_refused |]. intros root events1 Hq1.
  eapply reads_then; [apply reads_wrapping, reads_fetch | growing | restore_refused |]. intros events2 descriptor Hq2 [Hheld _].
  eapply reads_then; [apply reads_wrapping, reads_inspectRestore | growing | restore_refused |]. intros events3 [metadata parent] Hq3 Hdesc. cbn in Hdesc.
  eapply reads_then; [apply (reads_fail_when _ _ _ (λ ev _, ev = [] ∧ SHA256Hex descriptor = restore_DescriptorSHA256 restore ∧
    meta_PlanID metadata = restore_PlanID restore ∧ meta_ChangeID metadata = restore_ChangeID restore ∧
    meta_TreeSHA256 metadata = restore_FailedTree restore ∧ meta_PreviousRevision metadata = parent)) | growing | restore_refused |].
  { rewrite !orb_false_iff, !negb_false_iff, !bool_decide_eq_true. tauto. }
  intros ? ? _ (-> & ? & ? & ? & ? & ?). rewrite Hnative.
  eapply does_mono; [eapply (does_restoreSwitch repository restore expected parent (events ++ events1 ++ events2 ++ events3)); [by quietly|]|].
  - exists descriptor, metadata. split_and!; try done. apply held_right, held_right, held_left. done.
  - cbn. intros events5 r. by rewrite <- !app_assoc.
Qed.
End host.

(** ** The theorems *)

Section functional.
Context `{GitLib}.

Lemma envelope_functional objects commit tree parents message tree' parents' message' :
  envelopeOf objects commit tree parents message → envelopeOf objects commit tree' parents' message' →
  tree = tree' ∧ parents = parents' ∧ message = message'.
Proof. intros (c & Hc & Hp) (c' & Hc' & Hp'). rewrite Hc in Hc'. simplify_eq. done. Qed.

Lemma publication_functional objects commit metadata metadata' :
  publicationOf objects commit metadata → publicationOf objects commit metadata' → metadata = metadata'.
Proof.
  intros (? & ? & He & Hp) (? & ? & He' & Hp'). destruct (envelope_functional _ _ _ _ _ _ _ _ He He') as (_ & _ & <-).
  rewrite Hp in Hp'. by simplify_eq.
Qed.

Lemma descriptor_functional objects commit metadata metadata' parent parent' :
  descriptorOf objects commit metadata parent → descriptorOf objects commit metadata' parent' → metadata = metadata'.
Proof.
  intros (? & ? & He & Hp & _) (? & ? & He' & Hp' & _). destruct (envelope_functional _ _ _ _ _ _ _ _ He He') as (_ & _ & <-).
  rewrite Hp in Hp'. by simplify_eq.
Qed.

Lemma parseBound_valid message header metadata : parseBoundMessage message header = Some metadata → validMetadata metadata = true.
Proof. unfold parseBoundMessage. repeat case_match; intros [= <-]; done. Qed.
Lemma publication_tree objects commit metadata : publicationOf objects commit metadata → meta_TreeSHA256 metadata ≠ "".
Proof.
  intros (? & message & _ & Hp) Hempty. unfold parsePublicationMessage in Hp. case_match; [|done]. case_match eqn:Hb; simplify_eq.
  apply parseBound_valid in Hb. unfold validMetadata in Hb. rewrite Hempty, !andb_true_iff in Hb. by destruct Hb as [[[[_ ?] _] _] _].
Qed.

Lemma envelope_mono objects objects' commit tree parents message :
  objects ⊆ objects' → envelopeOf objects commit tree parents message → envelopeOf objects' commit tree parents message.
Proof. intros Hsub (c & Hc & Hp). exists c. split; [by eapply lookup_weaken | done]. Qed.
Lemma publication_mono objects objects' commit metadata :
  objects ⊆ objects' → publicationOf objects commit metadata → publicationOf objects' commit metadata.
Proof. intros Hsub (tree & message & He & Hp). exists tree, message. eauto using envelope_mono. Qed.
Lemma descriptor_mono objects objects' commit metadata parent :
  objects ⊆ objects' → descriptorOf objects commit metadata parent → descriptorOf objects' commit metadata parent.
Proof. intros Hsub (parents & message & He & Hp). exists parents, message. eauto using envelope_mono. Qed.
Lemma descriptor_known objects commit metadata parent : descriptorOf objects commit metadata parent → is_Some (objects !! commit).
Proof. intros (? & ? & (c & Hc & _) & _). by exists c. Qed.
End functional.

Section theorems.
#[local] Hint Resolve grows_inspect grows_inspectRestore grows_observe : grows.
Context `{NetLib, TimeLib, HashLib, !ManifestLib, !TreeLib, GitLib, !PagesLib} (o : GitOutside) (remote : string → string).

(** C9: A commit to GitHub Pages is a compare-and-swap that can be undone.  In every run,
    whatever others push between its commands and whichever commands are lost or
    unanswered, it first puts the restore descriptor at its ref, and then moves the branch of
    the site at most once, only from the commit the plan expected and only to the commit
    found at the stage ref, an orphan bound to the staged plan, change, tree and manifest.  By
    then the descriptor, whose parent is the commit replaced, was at its ref.  It updates
    nothing else.  A commit that returns reports a revision that was on the branch, is the
    staged publication and has its descriptor ([commitEffects]). *)
Theorem pages_commit_is_compare_and_swap repository staged expected w w' r :
  CommitPages o remote repository staged expected w = (w', r) →
  ∃ events, git_past w' = git_past w ++ events ∧ commitEffects remote (git_objects w') repository staged expected events r.
Proof. intros Hrun. by eapply (does_commit o remote (git_objects w')). Qed.

Lemma grows_restore repository restore expected : grows (RestorePages o remote repository restore expected).
Proof. unfold RestorePages, checkPages. growing. Qed.

Lemma restore_effects repository restore expected w w' r :
  RestorePages o remote repository restore expected w = (w', r) →
  ∃ events, git_past w' = git_past w ++ events ∧ restoreEffects remote (git_objects w') repository restore expected events r.
Proof. intros Hrun. by eapply (does_restore o remote (git_objects w')). Qed.
Lemma commit_effects repository staged expected w w' r :
  CommitPages o remote repository staged expected w = (w', r) →
  ∃ events, git_past w' = git_past w ++ events ∧ commitEffects remote (git_objects w') repository staged expected events r.
Proof. intros Hrun. by eapply (does_commit o remote (git_objects w')). Qed.

(** The run of a restore that goes back to [replaced]: it reads, then moves the branch of
    the site at most once, from the expected commit to that one; and where it returns, the
    branch has been there since it read, and the revision it reports was on the branch. *)
Definition undoes (objects : ObjectsOf) (repository : PagesRepository) (expected : ExpectedRevision) (replaced : string) (events : list GitEvent)
    (r : PagesError + PublishedRevision) : Prop :=
  ∃ reading moving, events = reading ++ moving ∧ quiet reading ∧
    onePush (production remote repository) (siteRef repository) (swaps (exp_NativeRevision expected) replaced) moving ∧
    ∀ revision, r = inr revision →
      held moving (production remote repository) (siteRef repository) (asRef replaced) ∧ observed remote objects repository moving revision.

(** C10: Undoing a commit goes back to what it replaced.  Where a commit returned success and
    had moved the branch of the site ([u0]), a restore of it with the reference the commit
    returned, whatever happened in between and whichever commands are lost, updates nothing
    but that branch, at most once, only from the commit it is told to expect and to exactly
    the commit that was replaced (or removes the branch where there was none); and a restore
    that returns success has seen the branch there after it had checked the descriptor.
    This is where the objects the commit knew are kept, no two known commits share a
    digest, and the branch is not itself named as a restore ref. *)
Theorem pages_restore_undoes_commit repository staged expected result restore expected' w0 w1 w2 w3 r u0 :
  CommitPages o remote repository staged expected w0 = (w1, inr result) → com_RestoreRef result.1 = Some restore →
  RestorePages o remote repository restore expected' w2 = (w3, r) → git_objects w1 ⊆ git_objects w3 →
  (∀ a b, is_Some (git_objects w3 !! a) → is_Some (git_objects w3 !! b) → SHA256Hex a = SHA256Hex b → a = b) →
  siteRef repository ≠ restoreRef (ps_ID staged) →
  Updated u0 ∈ drop (length (git_past w0)) (git_past w1) → upd_Ref u0 = siteRef repository →
  ∃ events, git_past w3 = git_past w2 ++ events ∧ undoes (git_objects w3) repository expected' (default "" (upd_Before u0)) events r.
Proof.
  intros Hcommit Href Hrestore Hsub Hinj Hsite Hu0 Hu0ref.
  destruct (commit_effects _ _ _ _ _ _ Hcommit) as (events & Hpast & preparing & switching & commit & -> & Hprep & Hswitch & Hswapped & Hresult).
  destruct (restore_effects _ _ _ _ _ _ Hrestore) as (events' & Hpast' & preparing' & switching' & parent & -> & Hquiet' & Hswitch' & Hrestores & Hreturns).
  rewrite Hpast, drop_app_length in Hu0.
  assert (Updated u0 ∈ switching) as Hin0.
  { apply elem_of_app in Hu0 as [Hu0|]; [|done]. destruct (onePush_update _ _ _ _ _ Hprep Hu0) as (_ & Hr & _). congruence. }
  destruct (onePush_update _ _ _ _ _ Hswitch Hin0) as (? & ? & [Hbefore Hafter0] & Hn0).
  destruct (Hswapped Hn0) as (Hprev & _ & _ & Hof).
  destruct (Hresult _ eq_refl) as [([_ Hundo] & Hreports & Hcarried) [?|<-]]; [done|]. rewrite Hcarried in Href. injection Href as Href.
  destruct Hundo as (metadata & descriptor & Hof' & _ & Hrestored & _ & Hdesc); [by destruct Hreports as [-> _]; eapply publication_tree|].
  rewrite (publication_functional _ _ _ _ Hof' Hof) in Hdesc. apply (descriptor_mono _ _ _ _ _ Hsub) in Hdesc.
  assert (∀ parent', restores remote (git_objects w3) repository restore preparing' parent' → parent' = default "" (upd_Before u0)) as Hback.
  { intros parent' (descriptor' & metadata' & _ & Hdigest & Hdesc' & _ & _ & _ & <-). 
    assert (descriptor' = descriptor) as -> by (apply Hinj; [by eapply descriptor_known..|]; rewrite <- Href in Hdigest; cbn in Hdigest; congruence).
    by rewrite (descriptor_functional _ _ _ _ _ _ Hdesc' Hdesc), Hbefore. }
  exists (preparing' ++ switching'). split; [done|]. exists preparing', switching'. split_and!; [done..| |].
  - destruct (Hswitch') as [?|(before & u & after & E & Hpush)]; [by left|]. rewrite <- (Hback parent); [done|]. apply Hrestores.
    apply (onePush_update _ _ _ _ u Hswitch'). rewrite E. apply elem_of_app. right. by left.
  - intros revision Hr. destruct (Hreturns revision Hr) as (Hheld & Hres & Hobs). by rewrite <- (Hback _ Hres).
Qed.

(** ** Rolling back *)

Definition pagesPort (verifyProvider : bool) (repository : PagesRepository) : HostPort Git :=
  mkPort Git (CapabilitiesPages o verifyProvider repository) (ObservePages o remote repository) (RestorePages o remote repository).

Lemma grows_site name branch endpoint : grows (verifyPagesSite o name branch endpoint).
Proof. intros w w' r Hrun. unfold verifyPagesSite, gitFail_when in Hrun. case_match; inversion Hrun; apply arrive_grows. Qed.
Lemma reads_site objects name branch endpoint : reads objects (verifyPagesSite o name branch endpoint) (λ _ _, True).
Proof.
  intros w w' r Hrun _. exists [Found (git_refs (gitArrive o w))]. pose proof (quiet_found (git_refs (gitArrive o w))).
  unfold verifyPagesSite, gitFail_when in Hrun. case_match; by inversion Hrun; subst.
Qed.
Hint Resolve grows_site grows_restore : grows.

Lemma reads_capabilities objects verifyProvider repository : reads objects (CapabilitiesPages o verifyProvider repository) (λ _ _, True).
Proof.
  unfold CapabilitiesPages, checkPages. eapply reads_bind; [by apply (reads_fail_when _ _ _ (λ _ _, True)) | growing |]. intros ? ? _.
  eapply (reads_bind _ _ _ (λ _ _, True)); [|growing | intros; by apply reads_ret]. destruct verifyProvider; [|by apply reads_ret].
  eapply reads_bind; [apply reads_site | growing | intros]. eapply reads_mono; [apply reads_site | done].
Qed.

(** The run of a rollback: what it reads, then the restore of the publication it saw. *)
Definition rollbackEffects (objects : ObjectsOf) (repository : PagesRepository) (request : RollbackRequest) (events : list GitEvent)
    (r : PagesError + result RollbackResult) : Prop :=
  (quiet events ∧ match r with inr (Ok _) => rb_DryRun request = true | _ => True end) ∨
  (rb_DryRun request = false ∧ ∃ reading restoring revision, events = reading ++ restoring ∧ quiet reading ∧
     observed remote objects repository reading revision ∧ undoable remote objects repository reading revision ∧
     ∃ outcome, restoreEffects remote objects repository (carriedReference revision) (expectedFromObserved revision) restoring outcome ∧
       match r, outcome with
       | inr (Ok result), inr restored => From result = rev_TreeSHA256 revision ∧ To result = rev_TreeSHA256 restored
       | inl e, inl e' => e = e'
       | _, _ => False
       end).

Lemma does_rollback objects verifyProvider repository request :
  does objects (rollbackOn request (pagesPort verifyProvider repository)) (rollbackEffects objects repository request).
Proof.
  unfold rollbackOn. cbn [port_Capabilities port_Observe port_Restore pagesPort].
  eapply reads_then; [apply reads_capabilities | growing | by left |]. intros events capabilities Hq _.
  destruct (negb _); [apply does_ret; left; by rewrite app_nil_r|].
  eapply reads_then; [apply reads_observe | growing | left; by rewrite quiet_app |]. intros events1 revision Hq1 Hobs.
  assert (quiet (events ++ events1)) by by rewrite quiet_app.
  case_bool_decide as Ht; [apply does_ret; left; by rewrite app_nil_r|]. case_bool_decide; [apply does_ret; left; by rewrite app_nil_r|].
  destruct (rb_DryRun request) eqn:Ed; [apply does_ret; left; by rewrite app_nil_r|].
  assert (observed remote objects repository (events ++ events1) revision) as Hseen by by apply observed_app.
  eapply does_bind; [apply does_restore | growing | |].
  - intros events2 e Heff. right. split; [done|]. exists (events ++ events1), events2, revision. rewrite <- app_assoc.
    split_and!; try done; [by apply Hseen|]. by exists (inl e).
  - intros events2 restored Heff. apply does_ret. rewrite app_nil_r. right. split; [done|]. exists (events ++ events1), events2, revision.
    rewrite <- app_assoc. split_and!; try done; [by apply Hseen|]. by exists (inr restored).
Qed.

(** Rolling back a Pages repository undoes the publication it saw: it updates nothing, or
    restores from the reference the observed revision carries, on the condition that the branch
    is still where it was observed.  A dry run and a refusal update nothing. *)
Theorem pages_rollback_undoes_what_it_saw verifyProvider repository request w w' r :
  rollbackOn request (pagesPort verifyProvider repository) w = (w', r) →
  ∃ events, git_past w' = git_past w ++ events ∧ rollbackEffects (git_objects w') repository request events r.
Proof. intros Hrun. by eapply does_rollback. Qed.
End theorems.
