(* ===== verification/PagesMessages.v ===== *)
(** The messages of the commits the GitHub Pages host makes read back as what they bind. *)

From S2P Require Import Prelude GoStrings GoSlices Model Formats Source JsonStrict PlanJson Manifest Host.
From S2P Require Import S3Store S3Keys S3 ManifestProofs RsyncPaths FileSystem VerifyTree PagesGit Pages.

Open Scope Z_scope.

(** ** Trimming *)

Definition graphic (c : ascii) : bool := (33 <=? byte_val c) && (byte_val c <=? 126).

Lemma graphic_first c s : graphic c = true → List.find (HasPrefix (String c s)) space_runes = None.
Proof. destruct c as [[] [] [] [] [] [] [] []]; vm_compute; intros E; first [reflexivity|discriminate E]. Qed.
Lemma graphic_last c s : graphic c = true → List.find (HasPrefix (String c s)) (map String.rev space_runes) = None.
Proof. destruct c as [[] [] [] [] [] [] [] []]; vm_compute; intros E; first [reflexivity|discriminate E]. Qed.

(** A text that starts and ends with a graphic character. *)
Record framed (t : string) : Prop := {
  framed_first : ∃ c s, t = String c s ∧ graphic c = true;
  framed_last : ∃ s c, t = s +:+ String c "" ∧ graphic c = true;
}.

Lemma TrimSpace_framed t : framed t → TrimSpace t = t.
Proof.
  intros [(c & s & Hc & Hg) (s' & c' & Hc' & Hg')]. unfold TrimSpace. rewrite (trim_none _ space_runes) by by rewrite Hc; apply graphic_first.
  cbn zeta. rewrite (trim_none _ (map String.rev space_runes)); [apply rev_involutive|]. rewrite Hc', rev_snoc. by apply graphic_last.
Qed.

Lemma TrimSpace_line t : framed t → TrimSpace (t +:+ lineFeed) = t.
Proof.
  intros [(c & s & Hc & Hg) (s' & c' & Hc' & Hg')]. unfold TrimSpace.
  rewrite (trim_none _ space_runes) by by rewrite Hc; apply graphic_first.
  cbn zeta. unfold lineFeed. rewrite rev_snoc, str_length_app.
  replace (String.length t + String.length (String "010" ""))%nat with (S (String.length t)) by (cbn; lia).
  cbn [trim_runes]. change (List.find (HasPrefix (String "010" (String.rev t))) (map String.rev space_runes)) with (Some (String "010" "")).
  cbn [String.length sdrop]. rewrite Hc' at 2. rewrite rev_snoc, trim_none by by apply graphic_last. by rewrite <- rev_snoc, <- Hc', rev_involutive.
Qed.

(** ** Lines *)

Lemma Split_none c s : mem_byte c s = false → Split c s = [s].
Proof.
  induction s as [|x s IH]; [done|]. cbn [Split mem_byte]. intros [Hx Hs]%orb_false_elim. rewrite IH by done. by rewrite Hx.
Qed.
Lemma Split_at_byte c s t : mem_byte c s = false → Split c (s +:+ String c t) = s :: Split c t.
Proof.
  assert (ascii_eqb c c = true) as Hcc by by apply bool_decide_eq_true_2.
  induction s as [|x s IH]; [intros _; change ("" +:+ String c t) with (String c t); cbn [Split]; by rewrite Hcc|]. rewrite str_app_cons; cbn [Split mem_byte]. intros [Hx Hs]%orb_false_elim. rewrite IH by done. by rewrite Hx.
Qed.

(** No blank line ends what comes before [rest]. *)
Lemma cut_none_line line rest :
  line ≠ "" → mem_byte "010" line = false → HasPrefix rest lineFeed = false → cutBlankLine rest = None →
  cutBlankLine (line +:+ lineFeed +:+ rest) = None.
Proof.
  intros Hne Hline Hrest Hcut. induction line as [|c line IH]; [done|]. cbn [mem_byte] in Hline. apply orb_false_elim in Hline as [Hc Hl].
  rewrite str_app_cons. cbn [cutBlankLine]. change (HasPrefix (String c (line +:+ lineFeed +:+ rest)) (lineFeed +:+ lineFeed))
    with (ascii_eqb c "010" && HasPrefix (line +:+ lineFeed +:+ rest) lineFeed). rewrite Hc. cbn [andb].
  destruct line as [|d line]; [|by rewrite IH].
  change ("" +:+ lineFeed +:+ rest) with (String "010" rest). cbn [cutBlankLine].
  change (HasPrefix (String "010" rest) (lineFeed +:+ lineFeed)) with (HasPrefix rest lineFeed). by rewrite Hrest, Hcut.
Qed.

Lemma cut_header header message :
  cutBlankLine (header +:+ lineFeed) = None → cutBlankLine (header +:+ lineFeed +:+ lineFeed +:+ message) = Some (header, message).
Proof.
  induction header as [|c header IH]; [done|]. rewrite !str_app_cons. cbn [cutBlankLine].
  assert (HasPrefix (String c (header +:+ lineFeed +:+ lineFeed +:+ message)) (lineFeed +:+ lineFeed) =
          HasPrefix (String c (header +:+ lineFeed)) (lineFeed +:+ lineFeed)) as ->.
  { destruct header as [|d header]; [by destruct c as [[] [] [] [] [] [] [] []] |]. done. }
  case_match; [done|]. destruct (cutBlankLine (header +:+ lineFeed)) as [[]|]; [done|]. intros _. by rewrite IH.
Qed.

(** ** Fields *)

Lemma hex_bytes value : all_bytes is_hex value = true → mem_byte "010" value = false ∧ all_bytes graphic value = true.
Proof.
  intros Hv. split; [by eapply (all_bytes_mem is_hex)|]. induction value as [|c v IH]; [done|]. cbn in *.
  apply andb_true_iff in Hv as [Hc Hv]. rewrite IH by done. rewrite andb_true_r.
  destruct c as [[] [] [] [] [] [] [] []]; vm_compute in Hc |- *; first [reflexivity|discriminate Hc].
Qed.
Lemma sha256_bytes value : ValidSHA256 value = true → mem_byte "010" value = false.
Proof.
  unfold ValidSHA256, validLowerHex, DecodeHexLen. destruct (all_bytes is_hex value) eqn:E; [|done]. intros _. by apply hex_bytes.
Qed.
Lemma object_bytes value : validGitObject value = true → mem_byte "010" value = false ∧ all_bytes graphic value = true ∧ value ≠ "".
Proof.
  unfold validGitObject, DecodeHexLen. intros [Hl Hd]%andb_true_iff. apply bool_decide_eq_true in Hd as [? Hd].
  destruct (all_bytes is_hex value) eqn:E; [|done]. destruct (hex_bytes value E) as [? ?]. split_and!; [done..|]. by intros ->.
Qed.

Lemma TrimPrefix_app p s : TrimPrefix (p +:+ s) p = s.
Proof.
  unfold TrimPrefix. replace (HasPrefix (p +:+ s) p) with true.
  - induction p as [|c p IH]; [by destruct s|]. rewrite str_app_cons. done.
  - symmetry. induction p as [|c p IH]; [done|]. rewrite str_app_cons. cbn [HasPrefix]. rewrite IH.
    by unfold ascii_eqb; rewrite bool_decide_eq_true_2.
Qed.

Lemma framed_field s value : framed s → all_bytes graphic value = true → framed (s +:+ value).
Proof.
  intros [(c & s' & -> & Hc) Hlast] Hv. split; [by exists c, (s' +:+ value)|]. revert Hlast Hv. generalize (String c s'). clear s' c Hc.
  induction value as [|c v IH]; intros t Hlast Hv; [by rewrite str_app_nil_r|]. cbn in Hv. apply andb_true_iff in Hv as [Hc Hv].
  replace (t +:+ String c v) with ((t +:+ String c "") +:+ v) by by rewrite str_app_assoc. apply IH; [by exists t, c | done].
Qed.

(** The message without the end of its last line. *)
Definition boundLines (header : string) (metadata : publicationMetadata) : string :=
  header +:+ lineFeed +:+ "plan-id=" +:+ meta_PlanID metadata +:+ lineFeed +:+ "change-id=" +:+ meta_ChangeID metadata +:+ lineFeed +:+
  "tree-sha256=" +:+ meta_TreeSHA256 metadata +:+ lineFeed +:+ "manifest-sha256=" +:+ meta_ManifestSHA256 metadata +:+ lineFeed +:+
  "previous-revision=" +:+ meta_PreviousRevision metadata.
Lemma bound_lines header metadata : boundMessage header metadata = boundLines header metadata +:+ lineFeed.
Proof. unfold boundMessage, boundLines. by rewrite !str_app_assoc. Qed.

Definition headerLine (header : string) : Prop :=
  mem_byte "010" header = false ∧ ∃ c s, header = String c s ∧ graphic c = true.

Lemma boundLines_framed header metadata : headerLine header → validMetadata metadata = true → framed (boundLines header metadata).
Proof.
  intros (_ & c & s & -> & Hc) Hm. unfold validMetadata in Hm. rewrite !andb_true_iff, orb_true_iff, bool_decide_eq_true in Hm.
  assert (all_bytes graphic (meta_PreviousRevision metadata) = true) as Hp.
  { destruct Hm as [[_ [->|Hv]] _]; [done | by apply object_bytes]. }
  set (front := s +:+ lineFeed +:+ "plan-id=" +:+ meta_PlanID metadata +:+ lineFeed +:+ "change-id=" +:+ meta_ChangeID metadata +:+ lineFeed +:+
    "tree-sha256=" +:+ meta_TreeSHA256 metadata +:+ lineFeed +:+ "manifest-sha256=" +:+ meta_ManifestSHA256 metadata +:+ lineFeed +:+
    "previous-revision").
  assert (boundLines (String c s) metadata = (String c front +:+ String "=" "") +:+ meta_PreviousRevision metadata) as ->.
  { unfold boundLines. rewrite (str_app_cons c s), (str_app_cons c front), (str_app_cons c (front +:+ _)). f_equal.
    unfold front. by rewrite !str_app_assoc. }
  apply framed_field; [|done]. split; [by exists c, (front +:+ String "=" "") | by exists (String c front), "="%char].
Qed.

Lemma bound_split header metadata :
  headerLine header → validMetadata metadata = true →
  Split "010" (boundLines header metadata) =
    [header; "plan-id=" +:+ meta_PlanID metadata; "change-id=" +:+ meta_ChangeID metadata; "tree-sha256=" +:+ meta_TreeSHA256 metadata;
     "manifest-sha256=" +:+ meta_ManifestSHA256 metadata; "previous-revision=" +:+ meta_PreviousRevision metadata].
Proof.
  intros [Hh _] Hm. unfold validMetadata in Hm. rewrite !andb_true_iff, orb_true_iff, bool_decide_eq_true, !negb_true_iff, orb_false_iff in Hm.
  destruct Hm as [[[[[Hplan _] Htree] Hmanifest] Hprevious] [_ Hchange]].
  assert (mem_byte "010" (meta_PreviousRevision metadata) = false) as Hp by (destruct Hprevious as [->|?]; [done | by apply object_bytes]).
  assert (∀ a x b, mem_byte "010" a = false → mem_byte "010" x = false →
            Split "010" (a +:+ x +:+ lineFeed +:+ b) = (a +:+ x) :: Split "010" b) as Hnext.
  { intros a x b Ha Hx. rewrite <- str_app_assoc. apply Split_at_byte. by rewrite mem_byte_app, Ha, Hx. }
  unfold boundLines. change (header +:+ lineFeed +:+ ?x) with (header +:+ String "010" x). rewrite Split_at_byte by done.
  rewrite !Hnext by auto using sha256_bytes. rewrite Split_none; [done|]. by rewrite mem_byte_app, Hp.
Qed.

Theorem parse_bound header metadata :
  headerLine header → validMetadata metadata = true →
  parseBoundMessage (boundLines header metadata) header = Some metadata.
Proof.
  intros Hh Hm. unfold parseBoundMessage. rewrite TrimSpace_framed by by apply boundLines_framed. rewrite bound_split by done.
  rewrite bool_decide_eq_true_2 by done. rewrite !HasPrefix_app. cbn [negb orb]. rewrite !TrimPrefix_app.
  replace (mkMetadata _ _ _ _ _) with metadata by by destruct metadata. by rewrite Hm.
Qed.

(** ** Commits *)

Section commits.
Context `{GitLib}.

Definition authorLine : string := "author snailmail <snailmail@invalid> 946684800 +0000".
Definition committerLine : string := "committer snailmail <snailmail@invalid> 946684800 +0000".
Definition parentLines (parent : string) : string := if bool_decide (parent = "") then "" else "parent " +:+ parent +:+ lineFeed.
Definition headerText (tree parent : string) : string :=
  "tree " +:+ tree +:+ lineFeed +:+ parentLines parent +:+ authorLine +:+ lineFeed +:+ committerLine.

Definition pagesCommit (tree : list TreeEntry) (parent message : string) : GitCommit :=
  mkGitCommit tree (if bool_decide (parent = "") then [] else [parent]) pagesIdentity message.

Lemma pagesCommit_text tree parent header metadata :
  commitText (pagesCommit tree parent (boundMessage header metadata)) =
    (headerText (treeID tree) parent +:+ lineFeed +:+ lineFeed +:+ boundLines header metadata) +:+ lineFeed.
Proof.
  unfold commitText, pagesCommit, headerText, parentLines, pagesIdentity. cbn [gc_Tree gc_Parents gc_Identity gc_Message].
  rewrite bound_lines. fold authorLine committerLine. case_bool_decide; cbn [fmap list_fmap String.concat]; by rewrite !str_app_assoc.
Qed.

Definition named (parent : string) : Prop := parent = "" ∨ validGitObject parent = true.

Lemma headerText_plain tree parent : validGitObject tree = true → named parent → cutBlankLine (headerText tree parent +:+ lineFeed) = None.
Proof.
  intros Ht Hp. apply object_bytes in Ht as (Ht & _ & _). unfold headerText, parentLines.
  assert (cutBlankLine (authorLine +:+ lineFeed +:+ committerLine +:+ lineFeed) = None) as Ha by done.
  assert (∀ line rest, mem_byte "010" line = false → HasPrefix rest lineFeed = false → cutBlankLine rest = None → ∀ c s, line = String c s →
    cutBlankLine (line +:+ lineFeed +:+ rest) = None) as Hline by (intros; by apply cut_none_line; subst).
  destruct Hp as [->|Hp].
  - rewrite bool_decide_eq_true_2 by done. rewrite !str_app_assoc, <- (str_app_assoc "tree "). by eapply Hline.
  - rewrite bool_decide_eq_false_2 by by intros ->. apply object_bytes in Hp as (Hp & _ & _).
    rewrite !str_app_assoc, <- (str_app_assoc "tree "). eapply Hline; [done | done | | done].
    rewrite <- (str_app_assoc "parent "). by eapply Hline.
Qed.

Lemma headerText_fields tree parent :
  validGitObject tree = true → named parent →
  headerFields "" (Split "010" (headerText tree parent)) = (tree, if bool_decide (parent = "") then [] else [parent]).
Proof.
  intros Ht Hp. apply object_bytes in Ht as (Ht & _ & _). unfold headerText, parentLines.
  assert (∀ a b, mem_byte "010" a = false → Split "010" (a +:+ lineFeed +:+ b) = a :: Split "010" b) as Hnext by (intros; by apply Split_at_byte).
  rewrite <- (str_app_assoc "tree "), Hnext by done. destruct Hp as [->|Hp].
  - rewrite bool_decide_eq_true_2 by done. cbn [headerFields]. rewrite HasPrefix_app, TrimPrefix_app. done.
  - rewrite bool_decide_eq_false_2 by by intros ->. apply object_bytes in Hp as (Hp & _ & _).
    rewrite !str_app_assoc, <- (str_app_assoc "parent "), Hnext by done.
    cbn [headerFields]. rewrite !HasPrefix_app, !TrimPrefix_app.
    replace (HasPrefix ("tree " +:+ tree) "parent ") with false by done. replace (HasPrefix ("parent " +:+ parent) "tree ") with false by done.
    done.
Qed.

(** What a publication or a restore descriptor binds is read back from its commit: the
    tree, the parent and every field of the metadata, for all metadata the reader accepts. *)
Theorem pages_commit_roundtrip tree parent header metadata :
  validGitObject (treeID tree) = true → named parent → headerLine header → validMetadata metadata = true →
  ∃ message, parseEnvelope (TrimSpace (commitText (pagesCommit tree parent (boundMessage header metadata)))) =
      Some (treeID tree, if bool_decide (parent = "") then [] else [parent], message) ∧
    parseBoundMessage message header = Some metadata.
Proof.
  intros Ht Hp Hh Hm. exists (boundLines header metadata). split; [|by apply parse_bound].
  pose proof (boundLines_framed header metadata Hh Hm) as Hframed. rewrite pagesCommit_text, TrimSpace_line.
  - unfold parseEnvelope. rewrite cut_header by by apply headerText_plain. rewrite headerText_fields by done.
    by rewrite Ht, TrimSpace_framed.
  - destruct Hframed as [_ (s & c & -> & Hc)]. split; [by eexists _, _|].
    exists (headerText (treeID tree) parent +:+ lineFeed +:+ lineFeed +:+ s), c. by rewrite !str_app_assoc.
Qed.
End commits.
