(* ===== verification/PagesExamples.v ===== *)
(** The GitHub Pages host on a concrete repository: two publications of a chart repository,
    the second undone; the theorems of the host at those runs. *)

From S2P Require Import Prelude GoStrings GoSlices Model Formats Source JsonStrict PlanJson Manifest ManifestProofs Host.
From S2P Require Import S3Store S3Keys S3 S3KeyProofs S3Proofs S3Examples Rollback FileSystem VerifyTree LocalHostProofs.
From S2P Require Import PagesGit PagesLogic Pages PagesProofs PagesMessages.

Open Scope Z_scope.

Module PagesExample.
#[local] Existing Instances S3Example.hash_lib S3Example.time_lib S3Example.net_lib LocalExample.tree_lib.

(** ** Stand-ins for the libraries *)

#[local] Instance manifest_lib : ManifestLib := {|
  Manifest.UnmarshalHeader _ := Err "unknown"; Manifest.UnmarshalManifest _ := Err "unknown"; UnmarshalLegacy _ := Err "unknown";
  Manifest.MarshalManifest _ := Err "unknown"; StdDecodeBase64 _ := None; EqualFold l r := bool_decide (l = r);
|}.

Definition gitName (kind content : string) : string := S3Example.hex 5 (S3Example.sum 11 (kind +:+ content)) +:+ zeros 35.
Definition showEntry (e : TreeEntry) : string := te_Mode e +:+ te_Path e +:+ nul +:+ te_Content e.
Definition showTree (entries : list TreeEntry) : string := String.concat "" (showEntry <$> entries).
#[local] Instance git_lib : GitLib := {|
  blobID := gitName "blob";
  treeID entries := gitName "tree" (showTree entries);
  commitID c := gitName "commit" (showTree (gc_Tree c) +:+ String.concat " " (gc_Parents c) +:+ gc_Identity c +:+ gc_Message c);
  indexable _ := true;
|}.
#[local] Instance pages_lib : PagesLib := {| JoinPath base p := Some (base +:+ p); siteOf _ _ := None |}.

(** ** The runs *)

Definition undisturbed : GitOutside :=
  mkGitOutside (λ _ refs, refs) (λ _, []) (λ _, Answered) (LocalExample.machine true) "/tmp".
Definition remote (name : string) : string := "https://github.com/" +:+ name +:+ ".git".
Definition repository : PagesRepository :=
  mkPagesRepository "github-pages" "helm" "public" "" "" "" "" "" S3Example.endpoint false "" "" "shop/charts" "gh-pages" "" "" "".

Definition start : GitWorld :=
  mkGitWorld ∅ ∅ 0 [] ∅ (mkWorld (LocalExample.settled (<[["tmp"] := Directory]> LocalExample.initially)) 0 []).
Definition published (n : string) : list File := S3Example.tree n ++ [S3Example.fileOf n ManifestFilename].
Definition request (n previous : string) : PagesRequest :=
  mkPagesRequest (SHA256Hex n) "charts:0123456789ab" previous ("/stage/" +:+ n) (TreeDigest (S3Example.tree n)) (published n) ["index.yaml"].
Definition expecting (v : PublishedRevision) : ExpectedRevision := expectedFromObserved v.

Definition stagedOf (r : PagesError + PagesStaged) : PagesStaged :=
  match r with inr staged => staged | inl _ => mkPagesStaged "" "" "" "" "" "" [] [] (mkAccess "" [] 0) end.
Definition resultOf (r : PagesError + CommitResult * ClientAccess) : CommitResult * ClientAccess :=
  match r with inr result => result | inl _ => (mkCommitResult noRevision "" None, mkAccess "" [] 0) end.

Definition stage1 : GitWorld * (PagesError + PagesStaged) := StagePages undisturbed remote repository (request "one" "") start.
Definition commit1 : GitWorld * (PagesError + CommitResult * ClientAccess) := CommitPages undisturbed remote repository (stagedOf stage1.2) (expecting noRevision) stage1.1.
Definition first : PublishedRevision := com_Revision (resultOf commit1.2).1.
Definition stage2 : GitWorld * (PagesError + PagesStaged) := StagePages undisturbed remote repository (request "two" (rev_NativeRevision first)) commit1.1.
Definition second (o : GitOutside) : GitWorld * (PagesError + CommitResult * ClientAccess) :=
  CommitPages o remote repository (stagedOf stage2.2) (expecting first) stage2.1.
Definition commit2 : GitWorld * (PagesError + CommitResult * ClientAccess) := second undisturbed.
Definition reference : RestoreRef := default (mkRestoreRef "" "" "" "" "" "") (com_RestoreRef (resultOf commit2.2).1).
Definition restored : GitWorld * (PagesError + PublishedRevision) :=
  RestorePages undisturbed remote repository reference (expecting (com_Revision (resultOf commit2.2).1)) commit2.1.

Definition branch (w : GitWorld) : option string := git_refs w !! (remote "shop/charts", "refs/heads/gh-pages").
Definition nativeOf (r : PagesError + CommitResult * ClientAccess) : option string :=
  match r with inr result => Some (rev_NativeRevision (com_Revision result.1)) | inl _ => None end.

Definition revisionOf (r : PagesError + PublishedRevision) : option PublishedRevision := match r with inr revision => Some revision | inl _ => None end.

(** Each publication is on the branch after its commit, and the first again after the restore. *)
Lemma pages_published :
  branch commit1.1 = nativeOf commit1.2 ∧ branch commit2.1 = nativeOf commit2.2 ∧ nativeOf commit1.2 ≠ nativeOf commit2.2 ∧
  branch restored.1 = branch commit1.1 ∧ revisionOf restored.2 = Some first.
Proof. vm_compute. split_and!; done. Qed.

Lemma pages_commit_is_compare_and_swap_witness :
  (∃ events, git_past commit2.1 = git_past stage2.1 ++ events ∧
    commitEffects remote (git_objects commit2.1) repository (stagedOf stage2.2) (expecting first) events commit2.2) ∧
  is_Some (nativeOf commit2.2).
Proof.
  split; [|by apply (bool_decide_unpack _); vm_compute].
  exact (pages_commit_is_compare_and_swap undisturbed remote repository (stagedOf stage2.2) (expecting first) stage2.1 commit2.1 commit2.2
           (surjective_pairing _)).
Defined.

(** The updates the second commit and the restore made to the branch. *)
Definition updateAt (n : nat) (before after : GitWorld) : RefUpdate :=
  match drop (length (git_past before)) (git_past after) !! n with Some (Updated u) => u | _ => mkUpdate "" "" None None end.
Definition switched : RefUpdate := updateAt 28 stage2.1 commit2.1.
Definition undone : RefUpdate := updateAt 20 commit2.1 restored.1.

Definition commits : list string := (map_to_list (git_objects restored.1)).*1.
Definition collisionFree (l : list string) : bool :=
  forallb (λ a, forallb (λ b, negb (bool_decide (SHA256Hex a = SHA256Hex b)) || bool_decide (a = b)) l) l.

Lemma collisionFree_spec l a b : collisionFree l = true → a ∈ l → b ∈ l → SHA256Hex a = SHA256Hex b → a = b.
Proof.
  unfold collisionFree. rewrite forallb_forall. intros Hall Ha%list_elem_of_In Hb%list_elem_of_In Hab.
  specialize (Hall a Ha). rewrite forallb_forall in Hall. specialize (Hall b Hb).
  rewrite bool_decide_eq_true_2 in Hall by done. by apply bool_decide_eq_true in Hall.
Qed.

Lemma keys_known (m : ObjectsOf) a : is_Some (m !! a) → a ∈ (map_to_list m).*1.
Proof. intros [c Hc]. apply list_elem_of_fmap. exists (a, c). split; [done | by apply elem_of_map_to_list]. Qed.
Lemma succeeded (x : GitWorld * (PagesError + CommitResult * ClientAccess)) : nativeOf x.2 ≠ None → x = (x.1, inr (resultOf x.2)).
Proof. by destruct x as [w [e|result]]. Qed.

Lemma pages_restore_undoes_commit_witness :
  (∃ events, git_past restored.1 = git_past commit2.1 ++ events ∧
    undoes remote (git_objects restored.1) repository (expecting (com_Revision (resultOf commit2.2).1)) (default "" (upd_Before switched)) events restored.2) ∧
  default "" (upd_After undone) = default "" (upd_Before switched) ∧ revisionOf restored.2 = Some first.
Proof.
  split; [|by vm_compute].
  apply (pages_restore_undoes_commit undisturbed remote repository (stagedOf stage2.2) (expecting first) (resultOf commit2.2) reference
    (expecting (com_Revision (resultOf commit2.2).1)) stage2.1 commit2.1 commit2.1 restored.1 restored.2).
  - apply (succeeded commit2). vm_compute. discriminate.
  - vm_compute. reflexivity.
  - exact (surjective_pairing restored).
  - exact (grows_restore undisturbed remote repository reference (expecting (com_Revision (resultOf commit2.2).1)) _ _ _ (surjective_pairing _)).
  - intros a b Ha Hb. apply (collisionFree_spec commits); [by vm_compute | exact (keys_known _ a Ha) | exact (keys_known _ b Hb)].
  - by vm_compute.
  - apply (list_elem_of_lookup_2 _ 28). vm_compute. reflexivity.
  - vm_compute. reflexivity.
Defined.

(** A rollback of the second publication. *)
Definition rolledBack : GitWorld * (PagesError + result RollbackResult) :=
  rollbackOn (mkRollbackRequest "charts" false) (pagesPort undisturbed remote false repository) commit2.1.
Definition rolledTo (r : PagesError + result RollbackResult) : string := match r with inr (Ok result) => To result | _ => "" end.

Lemma pages_rollback_undoes_what_it_saw_witness :
  (∃ events, git_past rolledBack.1 = git_past commit2.1 ++ events ∧
    rollbackEffects remote (git_objects rolledBack.1) repository (mkRollbackRequest "charts" false) events rolledBack.2) ∧
  rolledTo rolledBack.2 = TreeDigest (S3Example.tree "one").
Proof.
  split; [|by vm_compute].
  exact (pages_rollback_undoes_what_it_saw undisturbed remote false repository (mkRollbackRequest "charts" false) commit2.1 rolledBack.1 rolledBack.2
           (surjective_pairing _)).
Defined.

(** What the first commit binds, read back. *)
Definition bound : publicationMetadata :=
  mkMetadata (SHA256Hex "one") "charts:0123456789ab" (TreeDigest (S3Example.tree "one")) (SHA256Hex (LocalExample.manifestText "one"))
    (gitName "commit" "earlier").
Lemma pages_commit_roundtrip_witness :
  ∃ message, parseEnvelope (TrimSpace (commitText (pagesCommit [] (gitName "commit" "earlier") (boundMessage restoreHeader bound)))) =
      Some (treeID [], [gitName "commit" "earlier"], message) ∧ parseBoundMessage message restoreHeader = Some bound.
Proof.
  refine (pages_commit_roundtrip [] (gitName "commit" "earlier") restoreHeader bound _ _ _ _);
    [by vm_compute | right; by vm_compute | split; [done|by eexists _, _] | by vm_compute].
Defined.

(** ** An effect that is not reported *)

(** Where the answer to a command after the swap is lost, the commit fails.  Up to the
    observation its error warns of an effect; while the access is issued it does not, though
    the publication is on the branch. *)
Definition losing (n : nat) : GitOutside :=
  mkGitOutside (λ _ refs, refs) (λ _, []) (λ k, if Nat.eqb k n then Lost else Answered) (LocalExample.machine true) "/tmp".
Definition failure (r : PagesError + CommitResult * ClientAccess) : option PagesError := match r with inl e => Some e | inr _ => None end.

Theorem effect_not_reported :
  (∀ n, n = 97%nat ∨ n = 110%nat → branch (second (losing n)).1 = branch commit2.1) ∧
  failure (second (losing 97)).2 = Some indeterminateEffect ∧
  mayHaveOccurred <$> failure (second (losing 110)).2 = Some false.
Proof. split; [intros n [->| ->]; by vm_compute | by vm_compute]. Qed.
End PagesExample.

(** ** A preview is not optional *)

(** [Capabilities] asks for the site of the preview repository even where none is
    configured.  There is no site without a repository, so that it refuses. *)
Section capabilities.
Context `{NetLib, TimeLib, HashLib, !ManifestLib, GitLib, !PagesLib} (o : GitOutside).

Theorem capabilities_refused_without_preview repository w result :
  previewConfigured repository = false → (∀ n, siteOf n "" = None) → (CapabilitiesPages o true repository w).2 ≠ inr result.
Proof.
  unfold previewConfigured. intros [[Hr _]%orb_false_elim _]%orb_false_elim Hnone. apply negb_false_iff, bool_decide_eq_true in Hr.
  unfold CapabilitiesPages, checkPages, gitFail_when, mbind, Git_bind. rewrite Hr. destruct (negb _); [done|]. cbn [mret Git_ret].
  destruct (verifyPagesSite o (pg_RemoteRepository repository) _ _ w) as [w1 [e|[]]]; [done|].
  unfold verifyPagesSite, gitFail_when. by rewrite Hnone.
Qed.
End capabilities.
