(* ===== verification/BlobCache.v ===== *)
(** The blob cache of a workspace: [internal/state/cas.go], with the memo of package facts
    ([internal/factscache]) and the recovery of an absent blob ([engine/origin_restore.go]).

    A computation is one of file system calls that threads what the process keeps: the
    resolved workspace roots and the facts derived so far.  An open, what is read from it and
    the close are one call; whether the file opened is the one the path named a call before
    is an answer ([sameFile]).  What a format makes of an artifact is a parameter
    ([InspectLib]), and so is what a blob store or an origin delivers. *)

From S2P Require Import Prelude GoStrings GoSlices Model Formats Source Lock JsonStrict PlanJson Manifest Placements FileSystem.

Open Scope Z_scope.

(** ** Artifacts *)

Record PackageFacts := mkFacts {
  fact_Name : string; fact_Version : string; fact_Architecture : string; fact_InstalledSize : Z; fact_RequiresPython : string;
  fact_Requirements : list string; fact_Fields : gmap string string;
}.

(** [domain.Blob]: [Added] is [None] where it is the zero time. *)
Record ArtifactBlob := mkArtifactBlob {
  ab_Filename : string; ab_Size : Z; ab_MD5 : string; ab_SHA1 : string; ab_SHA256 : string; ab_Added : option Z; ab_Facts : PackageFacts;
}.

Class InspectLib := {
  (** [Inspect] of a format, on a file name, its content and the identity supplied. *)
  Inspect : Format → string → string → Identity → option PackageFacts;
  MD5Hex : string → string;
  SHA1Hex : string → string;
}.

(** The kinds of error [errors.Is] is asked for: [blob.ErrUnavailable], [ErrCorrupt] and
    [ErrNotFound]; [absent] is [os.ErrNotExist]. *)
Inductive BlobError := BlobUnavailable (absent : bool) | BlobCorrupt | BlobNotFound | BlobFailure (absent : bool).
Definition isAbsent (e : Errno) : bool := bool_decide (e = NotExist).
Definition plainError (e : Errno) : BlobError := BlobFailure (isAbsent e).
Definition unavailable (e : Errno) : BlobError := BlobUnavailable (isAbsent e).

(** ** What a process keeps *)

Record CasState := mkCasState { resolvedRoots : gmap string string; cachedFacts : gmap string PackageFacts }.

Definition Cas (A : Type) : Type := CasState → IO (CasState * (BlobError + A)).
#[export] Instance Cas_ret : MRet Cas := λ A a s, mret (s, inr a).
#[export] Instance Cas_bind : MBind Cas := λ A B f m s,
  x ← m s;
  match x with
  | (s, inr a) => f a s
  | (s, inl e) => mret (s, inl e)
  end.
Definition casFail {A : Type} (e : BlobError) : Cas A := λ s, mret (s, inl e).
Definition casFail_when (refused : bool) (e : BlobError) : Cas () := if refused then casFail e else mret ().
Definition casTried {A : Type} (m : Cas A) : Cas (BlobError + A) := λ s, x ← m s; mret (x.1, inr x.2).
(** A call, with its error as [wrap] reports it. *)
Definition calling {A : Type} (wrap : Errno → BlobError) (act : IO A) : Cas A := λ s,
  r ← tried act;
  mret (s, match r with inr a => inr a | inl e => inl (wrap e) end).
(** Its outcome as a value. *)
Definition casOutcome {A : Type} (act : IO A) : Cas (Errno + A) := λ s, r ← tried act; mret (s, inr r).
Definition casFinally {A : Type} (m : Cas A) (final : IO ()) : Cas A := λ s,
  x ← m s;
  _ ← ignoring final;
  mret x.

(** [factscache]: past its bound it stops taking facts. *)
Definition maxEntries : nat := 4096.
Definition factsKey (format digest : string) : string := format +:+ nul +:+ digest.
Definition LookupFacts (format digest : string) : Cas (option PackageFacts) := λ s,
  mret (s, inr (if bool_decide (digest = "") then None else cachedFacts s !! factsKey format digest)).
Definition StoreFacts (format digest : string) (facts : PackageFacts) : Cas () := λ s,
  mret (if bool_decide (digest = "") || Nat.leb maxEntries (size (cachedFacts s)) then s
        else mkCasState (resolvedRoots s) (<[factsKey format digest := facts]> (cachedFacts s)), inr ()).

(** ** Calls beside those of [FileSystem] *)

Section calls.
Context (m : Machine).

(** [os.Link]: a second name of a file, which is never replaced. *)
Definition Link (from to : string) : IO () :=
  callDisk m (λ _ d,
    match files d !! components from with
    | Some (Regular content) =>
        match creatable (files d) (components to) with
        | Some e => inl e
        | None =>
            inr (mkDisk (<[components to := Regular content]> (files d)) (linked d)
                   (partial_alter (λ _, flushed d !! components from) (components to) (flushed d)), ())
        end
    | Some _ => inl OtherError
    | None => inl NotExist
    end).

(** [os.Rename] of a file, over a file or nothing. *)
Definition Rename (from to : string) : IO () :=
  callDisk m (λ _ d,
    match files d !! components from with
    | Some (Regular content) =>
        if negb (isDirectory (files d) (parentOf (components to))) then inl NotExist
        else match files d !! components to with
             | Some Directory => inl OtherError
             | _ =>
                 inr (mkDisk (<[components to := Regular content]> (delete (components from) (files d))) (linked d)
                        (partial_alter (λ _, flushed d !! components from) (components to) (delete (components from) (flushed d))), ())
             end
    | Some _ => inl OtherError
    | None => inl NotExist
    end).

(** [os.Chmod] and [os.Lstat] of a name that exists; modes are not modelled. *)
Definition Chmod (p : string) : IO () := _ ← Lstat m p; mret ().

(** [os.MkdirAll] with each directory created synced in its parent: the directories of the
    path that are missing, from the innermost. *)
Fixpoint missingDirectories (fuel : nat) (current : string) : IO (list string) :=
  match fuel with
  | O => throw OtherError
  | S fuel =>
      r ← tried (Lstat m current);
      match r with
      | inr Directory => mret []
      | inr _ => throw OtherError
      | inl NotExist =>
          if bool_decide (PathDir current = current) then throw OtherError
          else rest ← missingDirectories fuel (PathDir current); mret (current :: rest)
      | inl e => throw e
      end
  end.
Definition makeDirectoriesDurable (name : string) : IO () :=
  created ← missingDirectories (S (length (components name))) name;
  _ ← MkdirAll m name;
  forEach (λ directory, syncDirectory m (PathDir directory)) created.
End calls.

(** ** The cache *)

Section cache.
Context `{NetLib, TimeLib, HashLib, !InspectLib} (m : Machine) (sameFile : nat → bool).

Definition ResolveWorkspaceRoot (wrap : Errno → BlobError) (root : string) : Cas string := λ s,
  match resolvedRoots s !! root with
  | Some resolved => mret (s, inr resolved)
  | None =>
      r ← tried (EvalSymlinks m root);
      match r with
      | inr resolved => mret (mkCasState (<[root := resolved]> (resolvedRoots s)) (cachedFacts s), inr resolved)
      | inl e => mret (s, inl (wrap e))
      end
  end.
Definition OpenRoot (root : string) : IO () := look m (λ _ fs, if isDirectory fs (components root) then inr () else inl NotExist).

(** The nearest entry at or above a path. *)
Fixpoint nearestExisting (fuel : nat) (p : string) : IO string :=
  match fuel with
  | O => throw OtherError
  | S fuel =>
      r ← tried (Lstat m p);
      match r with
      | inr _ => mret p
      | inl NotExist => if bool_decide (PathDir p = p) then throw OtherError else nearestExisting fuel (PathDir p)
      | inl e => throw e
      end
  end.
(** Both paths are absolute and clean. *)
Definition pathWithin (root name : string) : bool := under (components root) (components name).

Definition WorkspacePath (root relative : string) : Cas string :=
  _ ← casFail_when (negb (is_ok (validateRelativePath relative))) (BlobFailure false);
  resolvedRoot ← ResolveWorkspaceRoot plainError root;
  let candidate := PathJoin [resolvedRoot; relative] in
  existing ← calling plainError (nearestExisting (S (length (components candidate))) candidate);
  resolvedExisting ← calling plainError (EvalSymlinks m existing);
  _ ← casFail_when (negb (pathWithin resolvedRoot resolvedExisting)) (BlobFailure false);
  found ← casOutcome (Lstat m candidate);
  match found with
  | inl _ => mret candidate
  | inr _ =>
      resolvedCandidate ← calling plainError (EvalSymlinks m candidate);
      _ ← casFail_when (negb (pathWithin resolvedRoot resolvedCandidate)) (BlobFailure false);
      mret candidate
  end.

Definition casDirectory : string := ".snailmail/cas/sha256".
Definition blobDirectory (digest : string) : string := PathJoin [casDirectory; stake 2 digest].
Definition blobName (digest : string) : string := PathJoin [blobDirectory digest; digest].

Definition formatMaximum (format : string) : option Z := match For format with Ok selected => Some (MaxArtifactSize selected) | Err _ => None end.
(** [newLegacyDigests]: whether MD5 and SHA-1 are computed. *)
Definition legacyDigests (format : string) : bool := match For format with Ok selected => RequiresLegacyDigests selected | Err _ => true end.
Definition md5Hex (format content : string) : string := if legacyDigests format then MD5Hex content else "".
Definition sha1Hex (format content : string) : string := if legacyDigests format then SHA1Hex content else "".
Definition inspect (format filename content : string) (supplied : Identity) : option PackageFacts :=
  match For format with Ok selected => Inspect selected filename content supplied | Err _ => None end.

(** [io.LimitReader]. *)
Definition limited (limit : Z) (content : string) : string :=
  if Z.of_nat (String.length content) <=? limit then content else stake (Z.to_nat limit) content.
Definition lengthOf (content : string) : Z := Z.of_nat (String.length content).

Definition parseLockTime (value : string) : option Z := if bool_decide (value = "") then None else ParseRFC3339 value.

Definition validateLockedDigest (format : string) (locked : LockedBlob) : option BlobError :=
  if negb (ValidSHA256 (SHA256 locked)) then Some (BlobFailure false)
  else match formatMaximum format with
       | None => Some (BlobFailure false)
       | Some maximum => if (Size locked <? 0) || (maximum <? Size locked) then Some (BlobFailure false) else None
       end.
Definition ValidateLockedBlobReference (format : string) (locked : LockedBlob) : option BlobError :=
  if negb (ValidSHA256 (SHA256 locked)) then Some BlobCorrupt
  else match formatMaximum format with
       | None => Some (BlobFailure false)
       | Some maximum => if (Size locked <? 0) || (maximum <? Size locked) then Some BlobCorrupt else None
       end.

(** Facts of content just verified, remembered or derived. *)
Definition factsOf (format content : string) (locked : LockedBlob) (supplied : Identity) : Cas PackageFacts :=
  cached ← LookupFacts format (SHA256Hex content);
  match cached with
  | Some facts => mret facts
  | None =>
      match inspect format (Filename locked) content supplied with
      | None =>
          r ← casOutcome (contextErr m);
          match r with inl e => casFail (plainError e) | inr _ => casFail BlobCorrupt end
      | Some facts => _ ← StoreFacts format (SHA256Hex content) facts; mret facts
      end
  end.

(** [validateLockedBlobOpenContext], given what the opened file holds. *)
Definition validateLockedBlobOpen (format : string) (locked : LockedBlob) (supplied : Identity) (content : string) : Cas ArtifactBlob :=
  match formatMaximum format with
  | None => casFail (BlobFailure false)
  | Some maximum =>
      _ ← casFail_when ((Size locked <? 0) || (maximum <? Size locked)) BlobCorrupt;
      same ← calling unavailable (look m (λ n _, inr (sameFile n)));
      _ ← casFail_when (negb same) BlobCorrupt;
      let read := limited (Size locked + 1) content in
      let derived := mkBlob "" "" 0 (md5Hex format read) (sha1Hex format read) "" "" None in
      _ ← casFail_when (negb (lengthOf read =? lengthOf content) || negb (lengthOf read =? Size locked) ||
                        negb (bool_decide (SHA256Hex read = SHA256 locked)) || legacyDigestConflict locked derived) BlobCorrupt;
      facts ← factsOf format read locked supplied;
      _ ← casFail_when (negb (bool_decide (fact_Architecture facts = Architecture locked))) BlobCorrupt;
      _ ← calling plainError (contextErr m);
      mret (mkArtifactBlob (Filename locked) (lengthOf read) (md5Hex format read) (sha1Hex format read) (SHA256Hex read)
              (parseLockTime (Added locked)) facts)
  end.

Definition LoadBlob (root format : string) (locked : LockedBlob) (supplied : Identity) : Cas (ArtifactBlob * string) :=
  _ ← casFail_when (negb (Nat.eqb (String.length (SHA256 locked)) 64)) (BlobFailure false);
  resolvedRoot ← ResolveWorkspaceRoot (λ _, BlobUnavailable false) root;
  let name := PathJoin [resolvedRoot; blobName (SHA256 locked)] in
  _ ← calling (λ _, BlobUnavailable false) (OpenRoot resolvedRoot);
  info ← calling unavailable (Lstat m name);
  match info with
  | Regular _ =>
      content ← calling unavailable (ReadFile m name);
      result ← validateLockedBlobOpen format locked supplied content;
      mret (result, name)
  | _ => casFail BlobCorrupt
  end.

(** ** Installing *)

(** The cached object, if there is one, is a file. *)
Definition checkObject (name : string) : Cas () :=
  r ← casOutcome (Lstat m name);
  match r with
  | inr (Regular _) => mret ()
  | inr _ => casFail (BlobFailure false)
  | inl NotExist => mret ()
  | inl e => casFail (plainError e)
  end.

(** What a source writes, and the error it ends with. *)
Record Delivery := mkDelivery { delivered_Content : string; delivered_Error : option BlobError }.

Definition verifyInstalled (format : string) (locked : LockedBlob) (supplied : Identity) (temporary : string) : Cas () :=
  _ ← calling plainError (Lstat m temporary);
  content ← calling plainError (ReadFile m temporary);
  _ ← validateLockedBlobOpen format locked supplied content;
  mret ().

Definition InstallBlob (root format : string) (locked : LockedBlob) (supplied : Identity) (source : Delivery) : Cas (ArtifactBlob * string) :=
  match validateLockedDigest format locked with
  | Some e => casFail e
  | None =>
      resolvedRoot ← ResolveWorkspaceRoot plainError root;
      _ ← calling plainError (OpenRoot resolvedRoot);
      let name := PathJoin [resolvedRoot; blobName (SHA256 locked)] in
      let directory := PathJoin [resolvedRoot; blobDirectory (SHA256 locked)] in
      _ ← checkObject name;
      _ ← calling plainError (MkdirAll m directory);
      temporary ← calling plainError (CreateTemp m directory ".fetch-");
      casFinally (
        _ ← calling plainError (WriteTo m temporary (delivered_Content source));
        _ ← match delivered_Error source with Some e => casFail e | None => mret () end;
        _ ← calling plainError (SyncFile m temporary);
        _ ← verifyInstalled format locked supplied temporary;
        _ ← calling plainError (Chmod m temporary);
        _ ← calling plainError (Rename m temporary name);
        _ ← calling plainError (syncDirectory m directory);
        LoadBlob root format locked supplied)
        (Remove m temporary)
  end.

(** [store] is what the blob store delivers, where there is one. *)
Definition EnsureBlob (root format : string) (locked : LockedBlob) (supplied : Identity) (store : option Delivery) : Cas (ArtifactBlob * string) :=
  match validateLockedDigest format locked with
  | Some e => casFail e
  | None =>
      loaded ← casTried (LoadBlob root format locked supplied);
      match loaded, store with
      | inr loaded, _ => mret loaded
      | inl e, None => casFail e
      | inl _, Some source => InstallBlob root format locked supplied source
      end
  end.

(** ** Importing *)

Definition verifyStoredBlob (name digest : string) (expectedSize : Z) : Cas () :=
  info ← calling plainError (Lstat m name);
  match info with
  | Regular _ =>
      content ← calling plainError (ReadFile m name);
      same ← calling plainError (look m (λ n _, inr (sameFile n)));
      _ ← casFail_when (negb same) (BlobFailure false);
      let read := limited (expectedSize + 1) content in
      casFail_when (negb (lengthOf read =? expectedSize) || negb (bool_decide (SHA256Hex read = digest))) (BlobFailure false)
  | _ => casFail (BlobFailure false)
  end.

(** The object is linked into the cache, or already there. *)
Definition enterObject (temporary target digest : string) (size : Z) : Cas () :=
  linked ← casOutcome (Link m temporary target);
  match linked with
  | inr _ => calling plainError (syncDirectory m (PathDir target))
  | inl Exist => verifyStoredBlob target digest size
  | inl e => casFail (plainError e)
  end.

Definition PutArtifact (root format sourceName : string) (supplied : Identity) : Cas ArtifactBlob :=
  info ← calling plainError (Lstat m sourceName);
  match info, formatMaximum format with
  | Regular declared, Some maximum =>
      _ ← casFail_when (maximum <? lengthOf declared) (BlobFailure false);
      casRoot ← WorkspacePath root casDirectory;
      _ ← calling plainError (makeDirectoriesDurable m casRoot);
      temporary ← calling plainError (CreateTemp m casRoot ".blob-");
      casFinally (
        source ← calling plainError (ReadFile m sourceName);
        let content := limited (maximum + 1) source in
        _ ← calling plainError (WriteTo m temporary content);
        _ ← casFail_when (negb (lengthOf content =? lengthOf declared)) (BlobFailure false);
        match inspect format (Base sourceName) content supplied with
        | None => casFail (BlobFailure false)
        | Some facts =>
            let digest := SHA256Hex content in
            let targetDirectory := PathJoin [casRoot; stake 2 digest] in
            _ ← calling plainError (makeDirectoriesDurable m targetDirectory);
            _ ← calling plainError (SyncFile m temporary);
            _ ← calling plainError (Chmod m temporary);
            _ ← enterObject temporary (PathJoin [targetDirectory; digest]) digest (lengthOf content);
            mret (mkArtifactBlob (Base sourceName) (lengthOf content) (md5Hex format content) (sha1Hex format content) digest None facts)
        end)
        (Remove m temporary)
  | _, _ => casFail (BlobFailure false)
  end.

Definition unsafeFilename (filename : string) : bool :=
  bool_decide (filename = "") || negb (bool_decide (Base filename = filename)) ||
  existsb (λ c, mem_byte c filename) ["000"%char; "013"%char; "010"%char; "/"%char; "\"%char].

(** [InspectArtifactBytes] and, of a file with that content, [InspectArtifactFile]. *)
Definition InspectArtifactBytes (format filename content : string) (supplied : Identity) : option ArtifactBlob :=
  if unsafeFilename filename then None
  else match formatMaximum format with
       | None => None
       | Some maximum =>
           if maximum <? lengthOf content then None
           else match inspect format filename content supplied with
                | None => None
                | Some facts =>
                    Some (mkArtifactBlob filename (lengthOf content) (md5Hex format content) (sha1Hex format content) (SHA256Hex content) None facts)
                end
       end.

Definition ToLockedBlob (blob : ArtifactBlob) : LockedBlob :=
  mkBlob (ab_Filename blob) (fact_Architecture (ab_Facts blob)) (ab_Size blob) (ab_MD5 blob) (ab_SHA1 blob) (ab_SHA256 blob) "" None.

(** ** Recovering an absent blob *)

Definition blobIsAbsent (e : BlobError) : bool :=
  match e with BlobUnavailable absent | BlobFailure absent => absent | BlobNotFound => true | BlobCorrupt => false end.

Record FetchResponse := mkResponse { resp_URL : string; resp_StatusCode : Z; resp_ContentType : string; resp_Body : string }.

(** [fetch] is what the origin answers. *)
Definition restoreBlobFromOrigin (root format : string) (locked : LockedBlob) (supplied : Identity) (origin : ArtifactOrigin)
    (fetch : string → option FetchResponse) : Cas (ArtifactBlob * string) :=
  match ParseURL (origin_URL origin) with
  | None => casFail (BlobFailure false)
  | Some parsed =>
      _ ← casFail_when (match ValidatePublicURL (Some parsed) with Ok _ => false | Err _ => true end) (BlobFailure false);
      match fetch (Rendered parsed) with
      | None => casFail (BlobFailure false)
      | Some response =>
          _ ← calling plainError (contextErr m);
          _ ← casFail_when (resp_StatusCode response =? 404) BlobNotFound;
          _ ← casFail_when (negb (resp_StatusCode response =? 200)) (BlobFailure false);
          _ ← casFail_when (negb (bool_decide (resp_URL response = "")) &&
                            match ParseURL (resp_URL response) with
                            | None => true
                            | Some final => match ValidateRedirectURL (Some final) with Ok _ => false | Err _ => true end
                            end) (BlobFailure false);
          _ ← casFail_when (negb (lengthOf (resp_Body response) =? Size locked)) BlobCorrupt;
          InstallBlob root format locked supplied (mkDelivery (resp_Body response) None)
      end
  end.

(** [fetcher] is [None] where there is none. *)
Definition ensureBlob (root format : string) (locked : LockedBlob) (store : option Delivery) (supplied : Identity)
    (fetcher : option (string → option FetchResponse)) : Cas (ArtifactBlob * string) :=
  loaded ← casTried (EnsureBlob root format locked supplied store);
  match loaded with
  | inr loaded => mret loaded
  | inl e =>
      match fetcher, Origin locked with
      | Some fetch, Some origin => if blobIsAbsent e then restoreBlobFromOrigin root format locked supplied origin fetch else casFail e
      | _, _ => casFail e
      end
  end.

(** ** Loading a lock *)

(** The artifact is the package version that lists it. *)
Definition loadLocked (root format : string) (selected : Format) (store : LockedBlob → option Delivery)
    (fetcher : option (string → option FetchResponse)) (version : PackageVersion) (locked : LockedBlob) : Cas (ArtifactBlob * string) :=
  _ ← calling plainError (contextErr m);
  '(found, source) ← ensureBlob root format locked (store locked) (IdentityFor (Some selected) (pv_Package version) (pv_Version version)) fetcher;
  _ ← casFail_when (negb (bool_decide (nativePackageName format (fact_Name (ab_Facts found)) = pv_Package version)) ||
                    negb (bool_decide (fact_Version (ab_Facts found) = pv_Version version))) (BlobFailure false);
  mret (found, source).

(** Every artifact is tried; the first failure, in the order of the lock, is reported. *)
Fixpoint loadAll (loads : list (Cas (ArtifactBlob * string))) : Cas (list (ArtifactBlob * string)) :=
  match loads with
  | [] => mret []
  | load :: loads =>
      r ← casTried load;
      rest ← casTried (loadAll loads);
      match r, rest with
      | inl e, _ => casFail e
      | inr _, inl e => casFail e
      | inr loaded, inr rest => mret (loaded :: rest)
      end
  end.
Definition loadLockedBlobs (root format : string) (selected : Format) (store : LockedBlob → option Delivery)
    (fetcher : option (string → option FetchResponse)) (active : list PackageVersion) : Cas (list (ArtifactBlob * string)) :=
  loadAll (active ≫= λ version, loadLocked root format selected store fetcher version <$> pv_Blobs version).
End cache.
