(* ===== verification/BlobCacheProofs.v ===== *)
(** The blob cache only ever admits what hashes to its name, whichever calls fail, wherever
    the process dies and whatever other processes admit meanwhile; and a blob that is
    loaded is the one the lock records. *)

From S2P Require Import Prelude GoStrings GoSlices Model Formats Source Lock JsonStrict PlanJson Manifest ManifestProofs.
From S2P Require Import S3KeyProofs RsyncPaths Placements FileSystem PublishLogic BlobCache.

Open Scope Z_scope.

(** ** Names *)

Lemma clean_push_slashless rooted l : Forall (λ c, mem_byte "/" c = false) l →
  ∀ stack, Forall (λ c, mem_byte "/" c = false) stack → Forall (λ c, mem_byte "/" c = false) (foldl (clean_push rooted) stack l).
Proof.
  induction 1 as [|c l Hc _ IH]; intros stack Hs; [done|]. cbn [foldl]. apply IH. unfold clean_push.
  repeat case_match; subst; try done; try (by constructor); by apply Forall_cons in Hs as [_ ?].
Qed.

(** The last component of a path survives its cleaning. *)
Lemma Clean_last t x : plain_component x → last (components (Clean (t +:+ String "/" x))) = Some x.
Proof.
  intros (Hx & Hdot & Hdots & Hslash). unfold Clean. set (rooted := HasPrefix _ "/").
  rewrite Split_app, (Split_single x), foldl_app by done. set (stack := foldl (clean_push rooted) [] (Split "/" t)).
  assert (foldl (clean_push rooted) stack [x] = x :: stack) as ->.
  { cbn [foldl]. unfold clean_push. by rewrite !bool_decide_eq_false_2. }
  assert (Forall (λ c, mem_byte "/" c = false) (reverse (x :: stack))) as Hall.
  { apply Forall_reverse. constructor; [done|]. apply clean_push_slashless; [|done]. apply Forall_forall. intros c. apply Split_no_slash. }
  assert (∀ pre : list string, last (filter (λ c, c ≠ "") (pre ++ reverse (x :: stack))) = Some x) as Hlast.
  { intros pre. rewrite reverse_cons, app_assoc, filter_app, filter_cons_True by done. by rewrite filter_nil, last_snoc. }
  assert (reverse (x :: stack) ≠ []) as Hne by (rewrite reverse_cons; by destruct (reverse stack)).
  unfold components. destruct rooted.
  - change (String "/" (Join (reverse (x :: stack)) "/")) with ("" +:+ String "/" (Join (reverse (x :: stack)) "/")).
    rewrite Split_app, Split_Join by done. apply (Hlast [""]).
  - case_bool_decide as Hb; [|rewrite Split_Join by done; apply (Hlast [])].
    exfalso. pose proof (Split_Join _ Hne Hall) as E. rewrite Hb in E. specialize (Hlast []). cbn [app] in Hlast. rewrite <- E in Hlast. done.
Qed.

Lemma PathJoin_last root t x : plain_component x → last (components (PathJoin [root; t +:+ String "/" x])) = Some x.
Proof.
  intros Hx. destruct (decide (root = "")) as [->|Hne].
  - replace (PathJoin [""; t +:+ String "/" x]) with (Clean (t +:+ String "/" x)); [by apply Clean_last|].
    unfold PathJoin. rewrite filter_cons_False, filter_cons_True; [done| |by intros []]. by destruct t.
  - rewrite PathJoin_two; [|done|by destruct t]. rewrite <- (str_app_assoc "/"), <- str_app_assoc. by apply Clean_last.
Qed.
Lemma plain_path x : plain_component x → plainPath x.
Proof. intros Hx. unfold plainPath. rewrite Split_single by apply Hx. by constructor. Qed.
Lemma PathJoin_last_entry directory x : plain_component x → last (components (PathJoin [directory; x])) = Some x.
Proof.
  intros Hx. destruct (decide (directory = "")) as [->|Hne].
  - destruct (PathJoin_plain [x]) as (_ & Hs & _); [done | by apply Forall_cons; split; [apply plain_path|] |].
    change (PathJoin [""; x]) with (PathJoin [x]).
    unfold components. rewrite Hs.
    change (mjoin (Split "/" <$> [x])) with (Split "/" x ++ []). rewrite Split_single, app_nil_r, filter_cons_True by apply Hx. done.
  - rewrite PathJoin_two; [by apply Clean_last | done | apply Hx].
Qed.

Lemma digest_prefix_plain d : ValidSHA256 d = true → plain_component d ∧ plain_component (stake 2 d).
Proof.
  intros Hd. split; [by apply digest_plain|]. apply validLowerHex_spec in Hd as [Hl Hb].
  destruct d as [|a [|b d]]; [done..|]. cbn in Hb. apply andb_true_iff in Hb as [Ha Hb]. apply andb_true_iff in Hb as [Hb _].
  change (stake 2 (String a (String b d))) with (String a (String b "")).
  split_and!; [done|done| |].
  - intros [= -> ->]. done.
  - apply (all_bytes_mem is_lower_hex); [done|]. cbn. by rewrite Ha, Hb.
Qed.

Lemma blobName_last root d : ValidSHA256 d = true → last (components (PathJoin [root; blobName d])) = Some d.
Proof.
  intros Hd. destruct (digest_prefix_plain d Hd) as [Hp Hp2].
  assert (plainPath casDirectory) as Hcas.
  { unfold plainPath. change (Split "/" casDirectory) with [".snailmail"; "cas"; "sha256"]. by repeat apply Forall_cons_2. }
  destruct (PathJoin_plain [casDirectory; stake 2 d]) as (_ & _ & Hdir); [done|by repeat apply Forall_cons_2; auto using plain_path|].
  destruct (PathJoin_plain [blobDirectory d; d]) as (Hj & _ & _); [done|by repeat apply Forall_cons_2; auto using plain_path|].
  unfold blobName. rewrite Hj. exact (PathJoin_last root (blobDirectory d) d Hp).
Qed.

Lemma fetch_not_digest s d : ValidSHA256 d = true → ".fetch-" +:+ s ≠ d ∧ ".blob-" +:+ s ≠ d.
Proof. intros [_ Hb]%validLowerHex_spec. split; intros <-; done. Qed.

(** ** A logic among other processes *)

(** Roots of workspaces this process has resolved, which it remembers. *)
Class Remembered := roots_remembered : gmap string string.
Definition remembers `{Remembered} (s : CasState) : Prop := roots_remembered ⊆ resolvedRoots s.
(** What a root is resolved to, where it is remembered. *)
Definition resolvesTo `{Remembered} (root resolved : string) : Prop := ∀ known, roots_remembered !! root = Some known → resolved = known.

Section rely.
Context `{Remembered} (m : Machine) (C : FS → Prop).

(** What others keep. *)
Definition stable (P : FS → Prop) : Prop := ∀ n fs, P fs → P (between m n fs).

Lemma stable_call {A : Type} (P : FS → Prop) onFailure (f : nat → Disk → Errno + Disk * A) (Q : Errno + A → FS → Prop) :
  stable P →
  (∀ n d, P (files d) → C (files d) ∧ (C (files (onFailure n d)) ∧ Q (inl OtherError) (files (onFailure n d))) ∧
     match f n d with inl e => Q (inl e) (files d) | inr (d', a) => C (files d') ∧ Q (inr a) (files d') end) →
  holds C P (callOr m onFailure f) Q.
Proof.
  intros HP Hf w Hw. unfold callOr. set (w' := arrive m w). assert (Hw' : P (files (disk w'))) by by apply HP.
  destruct (Hf (calls w) (disk w') Hw') as (Hc & (Hd1 & Hd2) & Hr).
  destruct (denied m (calls w)); [|destruct (f (calls w) (disk w')) as [e|[d a]]].
  - split; [|done]. exists [disk w'; onFailure (calls w) (disk w')]. cbn. rewrite <- app_assoc. by repeat constructor.
  - split; [|done]. exists [disk w']. cbn. by repeat constructor.
  - split; [|apply Hr]. exists [disk w'; d]. cbn. rewrite <- app_assoc. repeat constructor; [done|apply Hr].
Qed.

(** A call that, where it succeeds, changes the entries as [f] says. *)
Lemma stable_disk {A : Type} (P : FS → Prop) (f : nat → Disk → Errno + Disk * A) (Q : Errno + A → FS → Prop) :
  stable P → (∀ fs, P fs → C fs) → (∀ e fs, P fs → Q (inl e) fs) →
  (∀ n d d' a, P (files d) → f n d = inr (d', a) → C (files d') ∧ Q (inr a) (files d')) → holds C P (callDisk m f) Q.
Proof.
  intros HP HC He Hf. apply stable_call; [done|]. intros n d Hd. split_and!; auto.
  destruct (f n d) as [e|[d' a]] eqn:E; [by apply He | by eapply Hf].
Qed.
Lemma stable_change {A : Type} (P : FS → Prop) (f : nat → FS → Errno + FS * A) (Q : Errno + A → FS → Prop) :
  stable P → (∀ fs, P fs → C fs) → (∀ e fs, P fs → Q (inl e) fs) →
  (∀ n fs fs' a, P fs → f n fs = inr (fs', a) → C fs' ∧ Q (inr a) fs') → holds C P (call m f) Q.
Proof.
  intros HP HC He Hf. apply stable_disk; [done..|]. intros n d d' a Hd. destruct (f n (files d)) as [e|[fs b]] eqn:E; [done|].
  intros [= <- <-]. by eapply Hf.
Qed.
Lemma stable_look {A : Type} (P : FS → Prop) (f : nat → FS → Errno + A) (Q : Errno + A → FS → Prop) :
  stable P → (∀ fs, P fs → C fs) → (∀ e fs, P fs → Q (inl e) fs) → (∀ n fs a, P fs → f n fs = inr a → Q (inr a) fs) →
  holds C P (look m f) Q.
Proof.
  intros HP HC He Hf. apply stable_disk; [done..|]. intros n d d' a Hd. destruct (f n (files d)) as [e|b] eqn:E; [done|].
  intros [= <- <-]. split; [by apply HC | by eapply Hf].
Qed.

(** ** Computations of the cache *)

Definition casHolds {A : Type} (P : FS → Prop) (act : Cas A) (Q : BlobError + A → FS → Prop) : Prop :=
  ∀ s, remembers s → holds C P (act s) (λ r fs, ∃ s' v, r = inr (s', v) ∧ remembers s' ∧ Q v fs).

Lemma cas_mono {A : Type} (P P' : FS → Prop) (act : Cas A) (Q Q' : BlobError + A → FS → Prop) :
  casHolds P act Q → (∀ fs, P' fs → P fs) → (∀ v fs, Q v fs → Q' v fs) → casHolds P' act Q'.
Proof. intros Ha HP HQ s Hs. eapply holds_weaken; [apply (Ha s Hs) | done |]. intros r fs (s' & v & -> & Hs' & Hv). eauto 10. Qed.
Lemma cas_ret {A : Type} (a : A) (P : FS → Prop) (Q : BlobError + A → FS → Prop) : (∀ fs, P fs → Q (inr a) fs) → casHolds P (mret a) Q.
Proof. intros HQ s Hs. apply holds_ret. eauto 10. Qed.
Lemma cas_fail {A : Type} e (P : FS → Prop) (Q : BlobError + A → FS → Prop) : (∀ fs, P fs → Q (inl e) fs) → casHolds P (casFail e) Q.
Proof. intros HQ s Hs. apply holds_ret. eauto 10. Qed.
Lemma cas_fail_when b e (P : FS → Prop) (Q : BlobError + () → FS → Prop) :
  (∀ fs, b = true → P fs → Q (inl e) fs) → (∀ fs, b = false → P fs → Q (inr ()) fs) → casHolds P (casFail_when b e) Q.
Proof. destruct b; intros He Hr; [apply cas_fail | apply cas_ret]; auto. Qed.
Lemma cas_bind {A B : Type} (P : FS → Prop) (act : Cas A) (f : A → Cas B) (R : BlobError + A → FS → Prop) (Q : BlobError + B → FS → Prop) :
  casHolds P act R → (∀ e fs, R (inl e) fs → Q (inl e) fs) → (∀ a, casHolds (R (inr a)) (f a) Q) → casHolds P (act ≫= f) Q.
Proof.
  intros Ha He Hf s Hs. eapply holds_bind; [by apply Ha | by intros e fs (? & ? & ? & _) |].
  intros [s' [e|a]] w (? & ? & [= <- <-] & Hs' & Hr); [|by apply (Hf a s' Hs')].
  split; [exists []; by rewrite app_nil_r|]. eexists _, _. by split; [|split; [|apply He]].
Qed.
Lemma cas_calling {A : Type} wrap (act : IO A) (P : FS → Prop) (Q : BlobError + A → FS → Prop) :
  holds C P act (λ r fs, match r with inr a => Q (inr a) fs | inl e => ∀ e', Q (inl e') fs end) → casHolds P (calling wrap act) Q.
Proof.
  intros Ha s Hs. eapply holds_bind; [apply holds_tried, Ha | by intros e fs (? & ? & _) |].
  intros r. apply holds_ret. intros fs (v & [= <-] & Hv). eexists _, _. split; [done|]. split; [done|]. destruct r; auto.
Qed.
Lemma cas_outcome {A : Type} (act : IO A) (P : FS → Prop) (Q : Errno + A → FS → Prop) :
  holds C P act Q → casHolds P (casOutcome act) (λ r fs, ∃ v, r = inr v ∧ Q v fs).
Proof.
  intros Ha s Hs. eapply holds_bind; [apply holds_tried, Ha | by intros e fs (? & ? & _) |].
  intros r. apply holds_ret. intros fs (v & [= <-] & Hv). eauto 10.
Qed.
Lemma cas_tried {A : Type} (act : Cas A) (P : FS → Prop) (Q : BlobError + A → FS → Prop) :
  casHolds P act Q → casHolds P (casTried act) (λ r fs, ∃ v, r = inr v ∧ Q v fs).
Proof.
  intros Ha s Hs. eapply holds_bind; [by apply Ha | by intros e fs (? & ? & ? & _) |].
  intros [s' v]. apply holds_ret. intros fs (? & ? & [= <- <-] & Hs' & Hv). eauto 10.
Qed.
Lemma cas_finally {A : Type} (act : Cas A) final (P : FS → Prop) (R Q : BlobError + A → FS → Prop) :
  casHolds P act R → (∀ v, holds C (R v) final (λ _, Q v)) → casHolds P (casFinally act final) Q.
Proof.
  intros Ha Hf s Hs. eapply holds_bind; [by apply Ha | by intros e fs (? & ? & ? & _) |].
  intros [s' v] w (? & ? & [= <- <-] & Hs' & Hr). revert w Hr.
  change (holds C (R v) (_ ← ignoring final; mret (s', v)) (λ r fs, ∃ s0 v0, r = inr (s0, v0) ∧ remembers s0 ∧ Q v0 fs)).
  eapply holds_bind with (R := λ r fs, r = inr () ∧ Q v fs).
  - eapply holds_weaken; [apply holds_ignoring, (Hf v) | done |]. intros r fs [-> (? & ?)]. done.
  - by intros e fs [? _].
  - intros ?. apply holds_ret. intros fs [_ ?]. eauto 10.
Qed.
End rely.

(** ** Reading *)

Section reading.
Context `{Remembered} (m : Machine) (C : FS → Prop).

(** The entries are left alone. *)
Definition leaves {A : Type} (act : IO A) : Prop := ∀ P, stable m P → (∀ fs, P fs → C fs) → holds C P act (λ _, P).
Definition casReads {A : Type} (act : Cas A) (phi : BlobError + A → Prop) : Prop :=
  ∀ P, stable m P → (∀ fs, P fs → C fs) → casHolds C P act (λ v fs, P fs ∧ phi v).

Lemma leaves_look {A : Type} (f : nat → FS → Errno + A) : leaves (look m f).
Proof. intros P HP HC. by apply stable_look. Qed.
Lemma leaves_disk {A : Type} (f : nat → Disk → Errno + Disk * A) :
  (∀ n d d' a, f n d = inr (d', a) → files d' = files d) → leaves (callDisk m f).
Proof. intros Hf P HP HC. apply stable_disk; [done..|]. intros n d d' a Hd E. rewrite (Hf _ _ _ _ E). auto. Qed.
Lemma leaves_ret {A : Type} (a : A) : leaves (mret a).
Proof. intros P _ _. by apply holds_ret. Qed.
Lemma leaves_seq {A B : Type} (act : IO A) (f : A → IO B) : leaves act → (∀ a, leaves (f a)) → leaves (act ≫= f).
Proof. intros Ha Hf P HP HC. eapply holds_bind; [by apply Ha|done|]. intros a. by apply Hf. Qed.
Lemma leaves_throw {A : Type} e : leaves (A := A) (throw e).
Proof. intros P _ _. by apply holds_throw. Qed.
Lemma leaves_tried {A : Type} (act : IO A) : leaves act → leaves (tried act).
Proof. intros Ha P HP HC. eapply holds_weaken; [by apply holds_tried, Ha | done |]. by intros r fs (? & _ & ?). Qed.
Lemma leaves_forEach {A : Type} (f : A → IO ()) l : (∀ x, leaves (f x)) → leaves (forEach f l).
Proof. intros Hf. induction l as [|x l IH]; [apply leaves_ret|]. by apply leaves_seq. Qed.
Lemma leaves_sync p : leaves (SyncFile m p) ∧ leaves (syncDirectory m p).
Proof. split; apply leaves_disk; intros n d d' a; repeat case_match; intros [=]; by subst. Qed.

Lemma casReads_mono {A : Type} (act : Cas A) (phi psi : BlobError + A → Prop) :
  casReads act phi → (∀ v, phi v → psi v) → casReads act psi.
Proof. intros Ha Hphi P HP HC. eapply cas_mono; [by apply Ha | done |]. intros v fs [? ?]. auto. Qed.
Lemma casReads_ret {A : Type} (a : A) (phi : BlobError + A → Prop) : phi (inr a) → casReads (mret a) phi.
Proof. intros Hphi P _ _. by apply cas_ret. Qed.
Lemma casReads_fail {A : Type} e (phi : BlobError + A → Prop) : phi (inl e) → casReads (casFail e) phi.
Proof. intros Hphi P _ _. by apply cas_fail. Qed.
Lemma casReads_fail_when b e (phi : BlobError + () → Prop) : phi (inl e) → (b = false → phi (inr ())) → casReads (casFail_when b e) phi.
Proof. intros He Hr P _ _. apply cas_fail_when; auto. Qed.
Lemma casReads_calling {A : Type} wrap (act : IO A) (phi : BlobError + A → Prop) : leaves act → (∀ v, phi v) → casReads (calling wrap act) phi.
Proof. intros Ha Hphi P HP HC. apply cas_calling. eapply holds_weaken; [by apply Ha | done |]. intros [e|a] fs Hfs; auto. Qed.
Lemma casReads_outcome {A : Type} (act : IO A) (phi : BlobError + (Errno + A) → Prop) : leaves act → (∀ v, phi v) → casReads (casOutcome act) phi.
Proof. intros Ha Hphi P HP HC. eapply cas_mono; [by apply cas_outcome, Ha | done |]. intros v fs (? & -> & ?). auto. Qed.
Lemma casReads_bind {A B : Type} (act : Cas A) (f : A → Cas B) (phi : BlobError + A → Prop) (psi : BlobError + B → Prop) :
  casReads act phi → (∀ e, phi (inl e) → psi (inl e)) → (∀ a, phi (inr a) → casReads (f a) psi) → casReads (act ≫= f) psi.
Proof.
  intros Ha He Hf P HP HC. eapply cas_bind; [by apply Ha | by intros e fs [? ?]; auto |].
  intros a s Hs w [Hw Hphi]. by apply (Hf a Hphi P HP HC).
Qed.
Lemma casReads_seq {A B : Type} (act : Cas A) (f : A → Cas B) (psi : BlobError + B → Prop) :
  casReads act (λ _, True) → (∀ e, psi (inl e)) → (∀ a, casReads (f a) psi) → casReads (act ≫= f) psi.
Proof. intros Ha He Hf. eapply casReads_bind; [exact Ha | auto | auto]. Qed.
End reading.

Create HintDb leaves.
#[export] Hint Resolve leaves_look leaves_ret leaves_throw leaves_tried leaves_forEach : leaves.
#[export] Hint Extern 1 (leaves _ _ (_ ≫= _)) => apply leaves_seq : leaves.
#[export] Hint Extern 1 (leaves _ _ (SyncFile _ _)) => apply leaves_sync : leaves.
#[export] Hint Extern 1 (leaves _ _ (syncDirectory _ _)) => apply leaves_sync : leaves.
#[export] Hint Extern 1 (leaves _ _ (Lstat _ _)) => apply leaves_look : leaves.
#[export] Hint Extern 1 (leaves _ _ (ReadFile _ _)) => apply leaves_look : leaves.
#[export] Hint Extern 1 (leaves _ _ (EvalSymlinks _ _)) => apply leaves_look : leaves.
#[export] Hint Extern 1 (leaves _ _ (contextErr _)) => apply leaves_look : leaves.
#[export] Hint Extern 1 (leaves _ _ (OpenRoot _ _)) => apply leaves_look : leaves.

Lemma stake_whole n s : String.length (stake n s) = String.length s → stake n s = s.
Proof. revert s. induction n as [|n IH]; intros [|c s]; cbn; try done. intros [= E]. by rewrite IH. Qed.
Lemma limited_whole limit content : (lengthOf (limited limit content) =? lengthOf content) = true → limited limit content = content.
Proof.
  unfold limited, lengthOf. destruct (_ <=? limit); [done|]. rewrite Z.eqb_eq. intros Hl. apply stake_whole. lia.
Qed.

(** ** Validating *)

Section validating.
Context `{NetLib, TimeLib, HashLib, !InspectLib, !Remembered} (m : Machine) (sameFile : nat → bool) (C : FS → Prop).

(** The artifact is the one the lock records. *)
Definition isLocked (locked : LockedBlob) (blob : ArtifactBlob) : Prop :=
  ab_SHA256 blob = SHA256 locked ∧ ab_Size blob = Size locked ∧ ab_Filename blob = Filename locked ∧
  fact_Architecture (ab_Facts blob) = Architecture locked.
Definition whenLoaded {A : Type} (phi : A → Prop) (v : BlobError + A) : Prop := match v with inr a => phi a | inl _ => True end.

Lemma reads_facts format content locked supplied : casReads m C (factsOf m format content locked supplied) (λ _, True).
Proof.
  apply casReads_seq; [intros P HP HC s Hs; apply holds_ret; eauto 10 | done |]. intros [facts|]; [by apply casReads_ret|].
  case_match; [|].
  - apply casReads_seq; [intros P HP HC s Hs; apply holds_ret; intros; case_match; eauto 10 | done | intros; by apply casReads_ret].
  - apply casReads_seq; [apply casReads_outcome; auto with leaves | done |]. intros [|]; by apply casReads_fail.
Qed.

Lemma reads_validate format locked supplied content :
  casReads m C (validateLockedBlobOpen m sameFile format locked supplied content)
    (whenLoaded (λ blob, isLocked locked blob ∧ SHA256Hex content = SHA256 locked)).
Proof.
  unfold validateLockedBlobOpen. destruct (formatMaximum format); [|by apply casReads_fail].
  apply casReads_seq; [by apply casReads_fail_when | done |]. intros ?.
  apply casReads_seq; [apply casReads_calling; auto with leaves | done |]. intros same.
  apply casReads_seq; [by apply casReads_fail_when | done |]. intros ?.
  eapply (casReads_bind _ _ _ _ (whenLoaded (λ _, limited (Size locked + 1) content = content ∧ lengthOf content = Size locked ∧ SHA256Hex content = SHA256 locked)));
    [|done|].
  { apply casReads_fail_when; [done|]. intros Hb. rewrite !orb_false_iff, !negb_false_iff in Hb. destruct Hb as [[[Hw Hs] Hd] _].
    apply limited_whole in Hw. rewrite Hw in *. apply Z.eqb_eq in Hs. by apply bool_decide_eq_true in Hd. }
  intros ? (Hw & Hs & Hd). rewrite Hw. apply casReads_seq; [apply reads_facts | done |]. intros facts.
  eapply (casReads_bind _ _ _ _ (whenLoaded (λ _, fact_Architecture facts = Architecture locked))); [|done|].
  { apply casReads_fail_when; [done|]. by intros ?%negb_false_iff%bool_decide_eq_true. }
  intros ? Ha. apply casReads_seq; [apply casReads_calling; auto with leaves | done |]. intros ?. by apply casReads_ret.
Qed.

Lemma reads_root wrap root : casReads m C (ResolveWorkspaceRoot m wrap root) (whenLoaded (resolvesTo root)).
Proof.
  intros P HP HC s Hs. unfold ResolveWorkspaceRoot. destruct (resolvedRoots s !! root) as [resolved|] eqn:Er.
  - apply holds_ret. intros fs Hfs. eexists _, _. split; [done|]. split; [done|]. split; [done|]. intros known Hk.
    pose proof (lookup_weaken _ _ _ _ Hk Hs). congruence.
  - assert (roots_remembered !! root = None) as Hnone by by eapply lookup_weaken_None.
    eapply holds_bind; [apply holds_tried, (leaves_look m C _ P HP HC) | by intros ? ? (? & ? & _) |].
    intros [e|a]; apply holds_ret; intros fs (? & [= <-] & ?); eexists _, _; (split; [done|]); (split; [|split; [done|]]); [done|done| |].
    + unfold remembers. cbn [resolvedRoots]. etrans; [exact Hs|]. by apply insert_subseteq.
    + intros known Hk. congruence.
Qed.

(** An artifact the lock records, loaded from the object of its digest in the cache. *)
Definition loadedFrom (root : string) (locked : LockedBlob) (x : ArtifactBlob * string) : Prop :=
  isLocked locked x.1 ∧ ∃ resolved, resolvesTo root resolved ∧ x.2 = PathJoin [resolved; blobName (SHA256 locked)].

Lemma reads_load root format locked supplied :
  casReads m C (LoadBlob m sameFile root format locked supplied) (whenLoaded (loadedFrom root locked)).
Proof.
  unfold LoadBlob. apply casReads_seq; [by apply casReads_fail_when | done |]. intros ?.
  eapply casReads_bind; [apply reads_root | done |]. intros resolved Hroot.
  apply casReads_seq; [apply casReads_calling; auto with leaves | done |]. intros ?.
  apply casReads_seq; [apply casReads_calling; auto with leaves | done |]. intros [|c|t|]; try by apply casReads_fail.
  apply casReads_seq; [apply casReads_calling; auto with leaves | done |]. intros content.
  eapply casReads_bind; [apply reads_validate | done |]. intros blob [Hb _]. apply casReads_ret. split; [done|]. by exists resolved.
Qed.
End validating.

(** ** Admitting *)

Section admitting.
Context `{NetLib, TimeLib, HashLib, !InspectLib, !Remembered} (m : Machine) (sameFile : nat → bool) (fs0 : FS).

(** The path of the object with a digest, in the cache of some workspace. *)
Definition isObject (p : list string) (digest : string) : Prop :=
  ValidSHA256 digest = true ∧ [".snailmail"; "cas"; "sha256"; stake 2 digest; digest] `suffix_of` p.
(** An object hashes to its name, or was there at first. *)
Definition admitted (fs : FS) : Prop :=
  ∀ p digest content, isObject p digest → fs !! p = Some (Regular content) → SHA256Hex content = digest ∨ fs0 !! p = Some (Regular content).

(** The temporary files of this process. *)
Definition temporaryName (name : string) : Prop := ∃ k, name = ".fetch-" +:+ suffix m k ∨ name = ".blob-" +:+ suffix m k.
Definition isTemporary (p : list string) : Prop := ∃ name, last p = Some name ∧ temporaryName name.

Hypothesis names : ∀ n, mem_byte "/" (suffix m n) = false.
Hypothesis othersAdmit : stable m admitted.
Hypothesis othersSpare : ∀ n fs p, isTemporary p → between m n fs !! p = fs !! p.

Lemma object_last p digest : isObject p digest → last p = Some digest.
Proof. intros [_ [pre ->]]. by rewrite last_app. Qed.
Lemma object_not_temporary p digest : isObject p digest → ¬ isTemporary p.
Proof.
  intros Ho (name & Hl & k & Hk). pose proof (object_last _ _ Ho) as Ho'. destruct Ho as [Hd _].
  destruct (fetch_not_digest (suffix m k) digest Hd). destruct Hk as [-> | ->]; congruence.
Qed.
Lemma temporary_names_plain k : plain_component (".fetch-" +:+ suffix m k) ∧ plain_component (".blob-" +:+ suffix m k).
Proof. split; (split_and!; [done..|]); rewrite mem_byte_app; by rewrite names. Qed.

(** Entries that are files only where they were. *)
Lemma admitted_fewer fs fs' : (∀ p c, fs' !! p = Some (Regular c) → fs !! p = Some (Regular c)) → admitted fs → admitted fs'.
Proof. intros Hf Ha p digest content Ho Hp. eapply Ha; [done|]. by apply Hf. Qed.
Lemma admitted_temporary p e fs : isTemporary p → admitted fs → admitted (<[p := e]> fs).
Proof.
  intros Ht Ha q digest content Ho Hq. assert (q ≠ p) by (intros ->; by apply object_not_temporary in Ho).
  rewrite lookup_insert_ne in Hq by done. by eapply Ha.
Qed.
Lemma admitted_object p digest content fs :
  last p = Some digest → SHA256Hex content = digest → admitted fs → admitted (<[p := Regular content]> fs).
Proof.
  intros Hl Hd Ha q digest' content' Ho Hq. destruct (decide (q = p)) as [->|Hne].
  - rewrite lookup_insert_eq in Hq. simplify_eq. apply object_last in Ho. rewrite Hl in Ho. simplify_eq. by left.
  - rewrite lookup_insert_ne in Hq by done. by eapply Ha.
Qed.

(** A temporary file with its content. *)
Definition written_ (p : list string) (content : string) (fs : FS) : Prop := admitted fs ∧ fs !! p = Some (Regular content).
Lemma stable_written p content : isTemporary p → stable m (written_ p content).
Proof. intros Ht n fs [Ha Hp]. split; [by apply othersAdmit | by rewrite othersSpare]. Qed.

Lemma mkdirs_only todo : ∀ done fs fs', mkdirsAt done todo fs = inr fs' →
  (∀ p c, fs' !! p = Some (Regular c) ↔ fs !! p = Some (Regular c)).
Proof.
  induction todo as [|x todo IH]; intros dn fs fs'; cbn [mkdirsAt]; [by intros [= <-]|].
  destruct (fs !! (dn ++ [x])) as [[]|] eqn:E; try done; intros Hm p c; rewrite (IH _ _ _ Hm); [done|].
  destruct (decide (p = dn ++ [x])) as [->|]; [by rewrite lookup_insert_eq, E | by rewrite lookup_insert_ne].
Qed.

Lemma admit_mkdir p : holds admitted admitted (MkdirAll m p) (λ _, admitted).
Proof.
  apply stable_change; [done..|]. intros n fs fs' [] Ha. destruct (mkdirsAt [] (components p) fs) as [|fs1] eqn:E; [done|]. intros [= <-].
  split; (apply (admitted_fewer fs); [|done]; intros q c; by rewrite (mkdirs_only _ _ _ _ E)).
Qed.
Lemma written_mkdir tp content p : isTemporary tp → holds admitted (written_ tp content) (MkdirAll m p) (λ _, written_ tp content).
Proof.
  intros Ht. apply stable_change; [by apply stable_written | by intros fs [] | done |]. intros n fs fs' [] [Ha Hp].
  destruct (mkdirsAt [] (components p) fs) as [|fs1] eqn:E; [done|]. intros [= <-].
  assert (admitted fs1) by (apply (admitted_fewer fs); [|done]; intros q c; by rewrite (mkdirs_only _ _ _ _ E)).
  split; [done|]. split; [done|]. by apply (mkdirs_only _ _ _ _ E).
Qed.

Lemma admit_create directory prefix :
  (prefix = ".fetch-" ∨ prefix = ".blob-") →
  holds admitted admitted (CreateTemp m directory prefix) (λ r fs, admitted fs ∧
    match r with inr name => isTemporary (components name) ∧ written_ (components name) "" fs | inl _ => True end).
Proof.
  intros Hprefix. apply stable_change; [done..|]. intros n fs fs' name Ha. unfold creating.
  destruct (creatable fs _); [done|]. intros [= <- <-]. set (tp := PathJoin _).
  assert (isTemporary (components tp)) as Ht.
  { exists (prefix +:+ suffix m n). split; [|exists n; by destruct Hprefix as [-> | ->]; [left|right]].
    apply PathJoin_last_entry. destruct (temporary_names_plain n). by destruct Hprefix as [-> | ->]. }
  assert (admitted (<[components tp := Regular ""]> fs)) by by apply admitted_temporary.
  split_and!; try done. split; [done|]. by rewrite lookup_insert_eq.
Qed.

Lemma admit_write tp before content :
  isTemporary (components tp) →
  holds admitted (written_ (components tp) before) (WriteTo m tp content) (λ r fs, admitted fs ∧
    match r with inr _ => written_ (components tp) content fs | inl _ => True end).
Proof.
  intros Ht. apply stable_call; [by apply stable_written|]. intros n d [Ha Hp].
  assert (∀ c, written_ (components tp) c (files (filled (components tp) c d))) as Hf.
  { intros c. unfold filled, with_files. cbn [files].
    assert (alter (λ _, Regular c) (components tp) (files d) = <[components tp := Regular c]> (files d)) as ->.
    { apply map_eq. intros q. destruct (decide (q = components tp)) as [->|Hq].
      - by rewrite lookup_alter_eq, lookup_insert_eq, Hp.
      - by rewrite lookup_alter_ne, lookup_insert_ne. }
    split; [by apply admitted_temporary | by rewrite lookup_insert_eq]. }
  split_and!; [done|apply Hf|apply Hf|done|apply Hf|apply Hf|apply Hf].
Qed.

Lemma admit_remove p : holds admitted admitted (Remove m p) (λ _, admitted).
Proof.
  apply stable_change; [done..|]. intros n fs fs' [] Ha. repeat case_match; try done. intros [= <-].
  assert (admitted (delete (components p) fs)); [|done]. apply (admitted_fewer fs); [|done]. intros q c. by intros [_ ?]%lookup_delete_Some.
Qed.

Lemma admit_rename tp content target digest :
  isTemporary (components tp) → last (components target) = Some digest → SHA256Hex content = digest →
  holds admitted (written_ (components tp) content) (Rename m tp target) (λ _, admitted).
Proof.
  intros Ht Hl Hd. apply stable_disk; [by apply stable_written | by intros fs [] | by intros e fs [] |].
  intros n d d' [] [Ha Hp]. rewrite Hp. repeat case_match; try done; intros [= <-]; cbn [files];
    (assert (admitted (<[components target := Regular content]> (delete (components tp) (files d)))); [|done]);
    (apply (admitted_object _ digest); [done..|]; apply (admitted_fewer (files d)); [|done]; intros q c; by intros [_ ?]%lookup_delete_Some).
Qed.

Lemma admit_link tp content target digest :
  isTemporary (components tp) → last (components target) = Some digest → SHA256Hex content = digest →
  holds admitted (written_ (components tp) content) (Link m tp target) (λ _, admitted).
Proof.
  intros Ht Hl Hd. apply stable_disk; [by apply stable_written | by intros fs [] | by intros e fs [] |].
  intros n d d' [] [Ha Hp]. rewrite Hp. case_match; [done|]. intros [= <-]. cbn [files].
  assert (admitted (<[components target := Regular content]> (files d))); [|done]. by apply (admitted_object _ digest).
Qed.

(** ** The operations *)

Lemma casReads_then {A B : Type} (act : Cas A) (f : A → Cas B) (phi : BlobError + A → Prop) (P : FS → Prop) (Q : BlobError + B → FS → Prop) :
  casReads m admitted act phi → stable m P → (∀ fs, P fs → admitted fs) → (∀ e fs, P fs → Q (inl e) fs) →
  (∀ a, phi (inr a) → casHolds admitted P (f a) Q) → casHolds admitted P (act ≫= f) Q.
Proof.
  intros Ha HP HC He Hf. eapply cas_bind; [by apply Ha | by intros e fs [? _]; auto |].
  intros a s Hs w [Hw Hphi]. by apply (Hf a Hphi).
Qed.

Lemma cas_given {A : Type} (phi : Prop) (P : FS → Prop) (act : Cas A) (Q : BlobError + A → FS → Prop) :
  (phi → casHolds admitted P act Q) → casHolds admitted (λ fs, P fs ∧ phi) act Q.
Proof. intros Ha s Hs w [Hw Hphi]. by apply Ha. Qed.

Lemma admitting_call {A : Type} wrap (act : IO A) (P : FS → Prop) (R : A → FS → Prop) :
  holds admitted P act (λ r fs, admitted fs ∧ match r with inr a => R a fs | inl _ => True end) →
  casHolds admitted P (calling wrap act) (λ v fs, admitted fs ∧ match v with inr a => R a fs | inl _ => True end).
Proof. intros Ha. apply cas_calling. eapply holds_weaken; [exact Ha | done |]. by intros [e|a] fs [? ?]. Qed.

Lemma reads_written tp content : isTemporary (components tp) →
  casHolds admitted (written_ (components tp) content) (calling plainError (ReadFile m tp))
    (λ v fs, written_ (components tp) content fs ∧ whenLoaded (λ c, c = content) v).
Proof.
  intros Ht. apply cas_calling. apply stable_look; [by apply stable_written | by intros fs [] | by intros e fs [] |].
  intros n fs a [Ha Hp]. unfold maximumLinks. rewrite (follow_entry _ _ _ _ Hp), Hp by done. intros [= <-]. done.
Qed.

Lemma verified format locked supplied tp content : isTemporary (components tp) →
  casHolds admitted (written_ (components tp) content) (verifyInstalled m sameFile format locked supplied tp)
    (λ v fs, written_ (components tp) content fs ∧ whenLoaded (λ _, SHA256Hex content = SHA256 locked) v).
Proof.
  intros Ht. unfold verifyInstalled. assert (stable m (written_ (components tp) content)) by by apply stable_written.
  eapply (casReads_then _ _ (λ _, True)); [apply casReads_calling; auto with leaves | done | by intros fs [] | done |]. intros ? _.
  eapply cas_bind; [by apply reads_written | by intros e fs [? _] |]. intros c.
  apply (cas_given (c = content)). intros ->.
  eapply casReads_then; [apply reads_validate | done | by intros fs [] | done |]. intros blob [_ Hd]. apply cas_ret. intros fs Hfs. by split.
Qed.

Definition loadedAs (root : string) (locked : LockedBlob) (v : BlobError + ArtifactBlob * string) (fs : FS) : Prop :=
  admitted fs ∧ whenLoaded (loadedFrom root locked) v.

Lemma remove_loaded root locked p v : holds admitted (loadedAs root locked v) (Remove m p) (λ _, loadedAs root locked v).
Proof. intros w [Hw Hv]. destruct (admit_remove p w Hw) as [Hc Hq]. split; [done|]. by split. Qed.

Lemma admit_installed root format locked supplied source tp name directory :
  isTemporary (components tp) → last (components name) = Some (SHA256 locked) →
  casHolds admitted (written_ (components tp) "") (
    _ ← calling plainError (WriteTo m tp (delivered_Content source));
    _ ← match delivered_Error source with Some e => casFail e | None => mret () end;
    _ ← calling plainError (SyncFile m tp);
    _ ← verifyInstalled m sameFile format locked supplied tp;
    _ ← calling plainError (Chmod m tp);
    _ ← calling plainError (Rename m tp name);
    _ ← calling plainError (syncDirectory m directory);
    LoadBlob m sameFile root format locked supplied) (loadedAs root locked).
Proof.
  intros Ht Hname. assert (∀ c, stable m (written_ (components tp) c)) as Hstable by (intros; by apply stable_written).
  eapply cas_bind; [apply admitting_call, admit_write; done | by intros e fs [? _] |]. intros []. eapply cas_mono; [|by intros fs [_ Hfs]; exact Hfs|done].
  eapply (casReads_then _ _ (λ _, True)); [by case_match; [apply casReads_fail|apply casReads_ret] | done | by intros fs [] | by intros e fs [] |]. intros [] _.
  eapply (casReads_then _ _ (λ _, True)); [apply casReads_calling; auto with leaves | done | by intros fs [] | by intros e fs [] |]. intros [] _.
  eapply cas_bind; [by apply verified | by intros e fs [[] _] |]. intros []. apply cas_given. cbn [whenLoaded]. intros Hd.
  eapply (casReads_then _ _ (λ _, True)); [apply casReads_calling; unfold Chmod; auto with leaves | done | by intros fs [] | by intros e fs [] |]. intros [] _.
  eapply (cas_bind _ _ _ _ (λ _, admitted)); [apply cas_calling; eapply holds_weaken; [by eapply admit_rename | done | by intros [] fs ?] | done |]. intros [].
  eapply (casReads_then _ _ (λ _, True)); [apply casReads_calling; auto with leaves | done | done | done |]. intros [] _.
  eapply cas_mono; [by apply reads_load | done | done].
Qed.

Lemma admit_install root format locked supplied source :
  casHolds admitted admitted (InstallBlob m sameFile root format locked supplied source) (loadedAs root locked).
Proof.
  unfold InstallBlob, validateLockedDigest. destruct (ValidSHA256 (SHA256 locked)) eqn:Hd; cbn [negb]; [|by apply cas_fail].
  destruct (formatMaximum format); [|by apply cas_fail]. destruct (_ || _); [by apply cas_fail|].
  eapply casReads_then; [apply reads_root | done | done | done |]. intros resolved _.
  eapply (casReads_then _ _ (λ _, True)); [apply casReads_calling; auto with leaves | done | done | done |]. intros [] _.
  eapply (casReads_then _ _ (λ _, True)); [| done | done | done |].
  { unfold checkObject. apply casReads_seq; [apply casReads_outcome; auto with leaves | done |].
    intros [[]|[]]; by first [apply casReads_fail | apply casReads_ret]. }
  intros [] _. eapply (cas_bind _ _ _ _ (λ _, admitted)); [apply cas_calling; eapply holds_weaken; [apply admit_mkdir | done | by intros [] fs ?] | done |].
  intros []. eapply cas_bind; [apply admitting_call, admit_create; by left | by intros e fs [? _] |]. intros tp.
  eapply cas_mono; [apply (cas_given (isTemporary (components tp)) (written_ (components tp) "")) | by intros fs (_ & ? & ?) | done].
  intros Ht. eapply cas_finally; [by apply admit_installed, blobName_last | by apply remove_loaded].
Qed.

Lemma admit_ensure_store root format locked supplied store :
  casHolds admitted admitted (EnsureBlob m sameFile root format locked supplied store) (loadedAs root locked).
Proof.
  unfold EnsureBlob. destruct (validateLockedDigest format locked); [by apply cas_fail|].
  eapply cas_bind; [apply cas_tried; eapply cas_mono; [by apply reads_load | done | done] | by intros e fs (? & ? & _) |].
  intros v. eapply cas_mono; [apply (cas_given (whenLoaded (loadedFrom root locked) v) admitted) | by intros fs (? & [= <-] & ? & ?) | done].
  intros Hv. destruct v as [e|loaded].
  - destruct store; [apply admit_install | by apply cas_fail].
  - by apply cas_ret.
Qed.
(** A check in front changes nothing. *)
Lemma checked {A : Type} b e (act : Cas A) (Q : BlobError + A → FS → Prop) :
  (∀ fs, admitted fs → Q (inl e) fs) → casHolds admitted admitted act Q → casHolds admitted admitted (casFail_when b e ≫= λ _, act) Q.
Proof.
  intros He Ha. eapply (cas_bind _ _ _ _ (λ v fs, admitted fs ∧ (v = inr () ∨ v = inl e))); [apply cas_fail_when; auto | |].
  - by intros e' fs [? [[=]|[= ->]]]; auto.
  - intros []. eapply cas_mono; [exact Ha | by intros fs [? _] | done].
Qed.

Lemma admit_restore root format locked supplied origin fetch :
  casHolds admitted admitted (restoreBlobFromOrigin m sameFile root format locked supplied origin fetch) (loadedAs root locked).
Proof.
  unfold restoreBlobFromOrigin. destruct (ParseURL (origin_URL origin)); [|by apply cas_fail].
  apply checked; [done|]. destruct (fetch _); [|by apply cas_fail].
  eapply (casReads_then _ _ (λ _, True)); [apply casReads_calling; auto with leaves | done | done | done |]. intros [] _.
  do 4 (apply checked; [done|]). apply admit_install.
Qed.

(** A value that was there before, kept. *)
Lemma cas_decide {A B : Type} (act : Cas A) (f : BlobError + A → Cas B) (phi : BlobError + A → Prop) (Q : BlobError + B → FS → Prop) :
  casHolds admitted admitted act (λ v fs, admitted fs ∧ phi v) → (∀ v, phi v → casHolds admitted admitted (f v) Q) →
  casHolds admitted admitted (casTried act ≫= f) Q.
Proof.
  intros Ha Hf. eapply cas_bind; [by apply cas_tried | by intros e fs (? & ? & _) |].
  intros v. eapply cas_mono; [apply (cas_given (phi v) admitted), Hf | by intros fs (? & [= <-] & ? & ?) | done].
Qed.

Lemma admit_ensure root format locked store supplied fetcher :
  casHolds admitted admitted (ensureBlob m sameFile root format locked store supplied fetcher) (loadedAs root locked).
Proof.
  unfold ensureBlob. eapply cas_decide; [apply admit_ensure_store|]. intros [e|loaded] Hv; [|by apply cas_ret].
  destruct fetcher; [|by apply cas_fail]. destruct (Origin locked); [|by apply cas_fail].
  destruct (blobIsAbsent e); [apply admit_restore | by apply cas_fail].
Qed.

(** ** A whole lock *)

Definition isVersion (format : string) (version : PackageVersion) (blob : ArtifactBlob) : Prop :=
  nativePackageName format (fact_Name (ab_Facts blob)) = pv_Package version ∧ fact_Version (ab_Facts blob) = pv_Version version.

Lemma admit_locked root format selected store fetcher version locked :
  casHolds admitted admitted (loadLocked m sameFile root format selected store fetcher version locked)
    (λ v fs, admitted fs ∧ whenLoaded (λ x, loadedFrom root locked x ∧ isVersion format version x.1) v).
Proof.
  unfold loadLocked. eapply (casReads_then _ _ (λ _, True)); [apply casReads_calling; auto with leaves | done | done | done |]. intros [] _.
  eapply cas_bind; [apply admit_ensure | by intros e fs [? _] |]. intros [found source]. apply cas_given. cbn [whenLoaded fst]. intros Hl.
  eapply (cas_bind _ _ _ _ (λ v fs, admitted fs ∧ whenLoaded (λ _, isVersion format version found) v)).
  - apply cas_fail_when; [done|]. intros fs [Hn Hv]%orb_false_iff Ha. split; [done|].
    by apply negb_false_iff, bool_decide_eq_true in Hn; apply negb_false_iff, bool_decide_eq_true in Hv.
  - by intros e fs [? _].
  - intros []. apply cas_given. intros Hv. by apply cas_ret.
Qed.

(** What is loaded stands for what was asked, in order. *)
Lemma admit_all {X : Type} (load : X → Cas (ArtifactBlob * string)) (good : X → ArtifactBlob * string → Prop) l :
  (∀ x, casHolds admitted admitted (load x) (λ v fs, admitted fs ∧ whenLoaded (good x) v)) →
  casHolds admitted admitted (loadAll (load <$> l)) (λ v fs, admitted fs ∧ whenLoaded (Forall2 good l) v).
Proof.
  intros Hload. induction l as [|x l IH]; cbn [fmap list_fmap loadAll]; [apply cas_ret; intros fs Hfs; split; [done | by apply Forall2_nil]|].
  eapply cas_decide; [apply Hload|]. intros r Hr. eapply cas_decide; [exact IH|]. intros rest Hrest.
  destruct r, rest; [by apply cas_fail..|]. apply cas_ret. intros fs Hfs. split; [done|]. by constructor.
Qed.
End admitting.
