(* ===== verification/BlobImportProofs.v ===== *)
(** Importing an artifact into the blob cache: what is entered hashes to its name, and an
    artifact that was imported is there. *)

From S2P Require Import Prelude GoStrings GoSlices Model Formats Source Lock JsonStrict PlanJson LockShardProofs Manifest ManifestProofs.
From S2P Require Import S3KeyProofs S3Examples RsyncPaths FileSystem PublishLogic LocalHostProofs Placements BlobCache BlobCacheProofs.

Open Scope Z_scope.

(** ** Walking up a path *)

Section walking.
Context (m : Machine) (C : FS → Prop).

Lemma leaves_missing fuel : ∀ p, leaves m C (missingDirectories m fuel p).
Proof.
  induction fuel as [|fuel IH]; intros p; cbn [missingDirectories]; [auto with leaves|].
  apply leaves_seq; [auto with leaves|]. intros [[]|[]]; auto with leaves. case_match; auto with leaves.
Qed.
Lemma leaves_nearest fuel : ∀ p, leaves m C (nearestExisting m fuel p).
Proof.
  induction fuel as [|fuel IH]; intros p; cbn [nearestExisting]; [auto with leaves|].
  apply leaves_seq; [auto with leaves|]. intros [[]|[]]; auto with leaves. case_match; auto with leaves.
Qed.

(** What survives making directories survives making them durable. *)
Lemma durable_keeps (P : FS → Prop) name :
  stable m P → (∀ fs, P fs → C fs) → (∀ p, holds C P (MkdirAll m p) (λ _, P)) → holds C P (makeDirectoriesDurable m name) (λ _, P).
Proof.
  intros HP HC Hm. eapply holds_bind; [by apply leaves_missing | done |]. intros created.
  eapply holds_bind; [apply Hm | done |]. intros []. by apply (leaves_forEach m C); [auto with leaves|..].
Qed.
End walking.

#[export] Hint Resolve leaves_nearest : leaves.

Section importing.
Context `{NetLib, TimeLib, HashLib, !InspectLib, !Remembered} (m : Machine) (sameFile : nat → bool) (fs0 : FS).

Hypothesis names : ∀ n, mem_byte "/" (suffix m n) = false.
Hypothesis hexDigests : ∀ content, ValidSHA256 (SHA256Hex content) = true.
Hypothesis othersAdmit : stable m (admitted fs0).
Hypothesis othersSpare : ∀ n fs p, isTemporary m p → between m n fs !! p = fs !! p.
(** Others leave a file named by a digest as it is. *)
Hypothesis othersKeep : ∀ n (fs : FS) p digest content, last p = Some digest → ValidSHA256 digest = true →
  fs !! p = Some (Regular content) → between m n fs !! p = Some (Regular content).

Lemma reads_workspacePath root : casReads m (admitted fs0) (WorkspacePath m root casDirectory)
  (whenLoaded (λ path, ∃ resolved, resolvesTo root resolved ∧ path = PathJoin [resolved; casDirectory])).
Proof.
  unfold WorkspacePath. apply casReads_seq; [by apply casReads_fail_when | done |]. intros [].
  eapply casReads_bind; [apply reads_root | done |]. intros resolved Hroot.
  apply casReads_seq; [apply casReads_calling; auto with leaves | done |]. intros existing.
  apply casReads_seq; [apply casReads_calling; auto with leaves | done |]. intros resolvedExisting.
  apply casReads_seq; [by apply casReads_fail_when | done |]. intros [].
  apply casReads_seq; [apply casReads_outcome; auto with leaves | done |]. intros [e|entry]; [apply casReads_ret; by exists resolved|].
  apply casReads_seq; [apply casReads_calling; auto with leaves | done |]. intros resolvedCandidate.
  apply casReads_seq; [by apply casReads_fail_when | done |]. intros []. apply casReads_ret. by exists resolved.
Qed.

(** The object with a digest, of this size. *)
Definition entered (target digest : string) (size : Z) (fs : FS) : Prop :=
  admitted fs0 fs ∧ ∃ content, fs !! components target = Some (Regular content) ∧ SHA256Hex content = digest ∧ lengthOf content = size.

Section one.
Context (target digest : string) (valid : ValidSHA256 digest = true) (named : last (components target) = Some digest).

Lemma stable_entered size : stable m (entered target digest size).
Proof.
  intros n fs (Ha & content & Hc & Hd). split; [by apply othersAdmit|]. exists content. split; [|done]. by eapply othersKeep.
Qed.

(** A file under the name stays. *)
Definition occupied (content : string) (fs : FS) : Prop := admitted fs0 fs ∧ fs !! components target = Some (Regular content).
Lemma stable_occupied content : stable m (occupied content).
Proof. intros n fs [Ha Hc]. split; [by apply othersAdmit | by eapply othersKeep]. Qed.

Lemma lstat_occupied : casHolds (admitted fs0) (admitted fs0) (calling plainError (Lstat m target))
  (λ v fs, admitted fs0 fs ∧ whenLoaded (λ e, fs !! components target = Some e) v).
Proof.
  apply cas_calling. apply stable_look; [done.. | by intros e fs ? e' |]. intros n fs a Ha. case_match; [|done]. by intros [= <-].
Qed.

Lemma read_occupied content : casHolds (admitted fs0) (occupied content) (calling plainError (ReadFile m target))
  (λ v fs, occupied content fs ∧ whenLoaded (λ c, c = content) v).
Proof.
  apply cas_calling. apply stable_look; [apply stable_occupied | by intros fs [] | by intros e fs ? e' |].
  intros n fs a [Ha Hp]. unfold maximumLinks. rewrite (follow_entry _ _ _ _ Hp), Hp by done. intros [= <-]. done.
Qed.

Lemma limited_exact content size : 0 <= size → lengthOf (limited (size + 1) content) = size → limited (size + 1) content = content.
Proof.
  unfold limited, lengthOf. intros Hs. destruct (_ <=? _) eqn:E; [done|]. apply Z.leb_gt in E.
  rewrite stake_length by lia. lia.
Qed.

Lemma verify_entered size : 0 <= size →
  casHolds (admitted fs0) (admitted fs0) (verifyStoredBlob m sameFile target digest size)
    (λ v fs, admitted fs0 fs ∧ match v with inr _ => entered target digest size fs | inl _ => True end).
Proof.
  intros Hsize. unfold verifyStoredBlob. eapply cas_bind; [apply lstat_occupied | by intros e fs [? _] |].
  intros [|content|t|]; try (apply cas_fail; by intros fs [? _]).
  eapply cas_bind; [apply read_occupied | by intros e fs [[] _] |]. intros c. apply cas_given. intros ->.
  eapply (casReads_then _ _ _ _ (λ _, True)); [apply casReads_calling; auto with leaves | apply stable_occupied | by intros fs [] | by intros e fs [] |].
  intros same _. eapply (casReads_then _ _ _ _ (λ _, True)); [by apply casReads_fail_when | apply stable_occupied | by intros fs [] | by intros e fs [] |].
  intros [] _. apply cas_fail_when; [by intros fs _ [? ?] |]. intros fs [Hl Hd]%orb_false_iff [Ha Hc]. split; [done|]. split; [done|].
  apply negb_false_iff, Z.eqb_eq in Hl. apply negb_false_iff, bool_decide_eq_true in Hd.
  pose proof (limited_exact _ _ Hsize Hl) as Hw. rewrite Hw in Hl, Hd. by exists content.
Qed.

Lemma link_entered tp content size :
  isTemporary m (components tp) → SHA256Hex content = digest → lengthOf content = size →
  holds (admitted fs0) (written_ fs0 (components tp) content) (Link m tp target) (λ r fs, admitted fs0 fs ∧
    match r with inr _ => entered target digest size fs | inl _ => True end).
Proof.
  intros Ht Hd Hs. apply stable_disk; [by apply stable_written | by intros fs [] | by intros e fs [] |].
  intros n d d' [] [Ha Hp]. rewrite Hp. case_match; [done|]. intros [= <-]. cbn [files].
  assert (admitted fs0 (<[components target := Regular content]> (files d))) by by apply (admitted_object _ _ digest).
  split_and!; try done. split; [done|]. exists content. by rewrite lookup_insert_eq.
Qed.

Lemma enter_entered tp content size :
  isTemporary m (components tp) → SHA256Hex content = digest → lengthOf content = size →
  casHolds (admitted fs0) (written_ fs0 (components tp) content) (enterObject m sameFile tp target digest size) (λ v fs, admitted fs0 fs ∧
    match v with inr _ => entered target digest size fs | inl _ => True end).
Proof.
  intros Ht Hd Hs. unfold enterObject. eapply cas_bind; [by apply cas_outcome, link_entered | by intros e fs (? & ? & _) |].
  intros [e|[]].
  - eapply (cas_mono _ (admitted fs0)); [| by intros fs (? & [= <-] & ? & _) | intros v fs Hv; exact Hv].
    destruct e; try (by apply cas_fail). apply verify_entered. unfold lengthOf in Hs. lia.
  - eapply (cas_mono _ (entered target digest size)); [| by intros fs (? & [= <-] & _ & ?) | intros v fs Hv; exact Hv].
    apply cas_calling. eapply holds_weaken; [apply (leaves_sync m (admitted fs0) _); [apply stable_entered | by intros fs []] | done |].
    intros [] fs Hfs; [intros e'|]; (split; [apply Hfs | done]).
Qed.

Lemma remove_entered tp size : isTemporary m (components tp) →
  holds (admitted fs0) (entered target digest size) (Remove m tp) (λ _, entered target digest size).
Proof.
  intros Ht. apply stable_change; [apply stable_entered | by intros fs [] | done |]. intros n fs fs' [] (Ha & content & Hc & Hr).
  repeat case_match; try done. intros [= <-].
  assert (components tp ≠ components target) as Hne.
  { intros E. rewrite E in Ht. destruct Ht as (name & Hl & k & Hk). rewrite named in Hl. simplify_eq.
    destruct (fetch_not_digest (suffix m k) name valid). by destruct Hk. }
  assert (admitted fs0 (delete (components tp) fs)).
  { apply (admitted_fewer _ fs); [|done]. intros q c. by intros [_ ?]%lookup_delete_Some. }
  split; [done|]. split; [done|]. exists content. by rewrite lookup_delete_ne.
Qed.
End one.

(** ** The whole import *)

Definition objectPath (resolved digest : string) : string := PathJoin [PathJoin [PathJoin [resolved; casDirectory]; stake 2 digest]; digest].
Definition imported (root : string) (v : BlobError + ArtifactBlob) (fs : FS) : Prop :=
  admitted fs0 fs ∧
  match v with
  | inr blob => ∃ resolved, resolvesTo root resolved ∧ entered (objectPath resolved (ab_SHA256 blob)) (ab_SHA256 blob) (ab_Size blob) fs
  | inl _ => True
  end.

Lemma objectPath_last resolved content : last (components (objectPath resolved (SHA256Hex content))) = Some (SHA256Hex content).
Proof. apply PathJoin_last_entry. by apply digest_prefix_plain. Qed.

Lemma remove_imported root tp (v : BlobError + ArtifactBlob) : isTemporary m (components tp) → (∀ blob, v = inr blob → ValidSHA256 (ab_SHA256 blob) = true) →
  holds (admitted fs0) (imported root v) (Remove m tp) (λ _, imported root v).
Proof.
  intros Ht Hv w [Hw Hi]. destruct v as [e|blob].
  - destruct (admit_remove m fs0 othersAdmit tp w Hw) as [Hc Hq]. by repeat split.
  - destruct Hi as (resolved & Hroot & Hi). specialize (Hv blob eq_refl).
    assert (last (components (objectPath resolved (ab_SHA256 blob))) = Some (ab_SHA256 blob)) as Hl by by apply PathJoin_last_entry, digest_prefix_plain.
    destruct (remove_entered _ _ Hv Hl tp (ab_Size blob) Ht w Hi) as [Hc Hq]. split; [done|]. split; [apply Hq | by exists resolved].
Qed.

Lemma import_rest root resolved tp content size format filename supplied declared :
  resolvesTo root resolved → isTemporary m (components tp) → lengthOf content = size →
  casHolds (admitted fs0) (written_ fs0 (components tp) "") (
    _ ← calling plainError (WriteTo m tp content);
    _ ← casFail_when (negb (lengthOf content =? declared)) (BlobFailure false);
    match inspect format filename content supplied with
    | None => casFail (BlobFailure false)
    | Some facts =>
        _ ← calling plainError (makeDirectoriesDurable m (PathJoin [PathJoin [resolved; casDirectory]; stake 2 (SHA256Hex content)]));
        _ ← calling plainError (SyncFile m tp);
        _ ← calling plainError (Chmod m tp);
        _ ← enterObject m sameFile tp (objectPath resolved (SHA256Hex content)) (SHA256Hex content) size;
        mret (mkArtifactBlob filename size (md5Hex format content) (sha1Hex format content) (SHA256Hex content) None facts)
    end) (λ v fs, imported root v fs ∧ whenLoaded (λ blob, ValidSHA256 (ab_SHA256 blob) = true) v).
Proof.
  intros Hroot Ht Hs. assert (∀ c, stable m (written_ fs0 (components tp) c)) as Hstable by (intros; by apply stable_written).
  eapply cas_bind; [apply admitting_call, admit_write; done | by intros e fs [? _] |]. intros [].
  eapply cas_mono; [|by intros fs [_ Hfs]; exact Hfs|intros v fs Hv; exact Hv].
  eapply (casReads_then _ _ _ _ (λ _, True)); [by apply casReads_fail_when | done | by intros fs [] | by intros e fs [] |]. intros [] _.
  destruct (inspect _ _ _ _) as [facts|]; [|by apply cas_fail; intros fs [? _]].
  eapply (cas_bind _ _ _ _ (λ _, written_ fs0 (components tp) content)); [| by intros e fs [? _] |].
  { apply cas_calling. eapply holds_weaken; [apply (durable_keeps m _ (written_ fs0 (components tp) content)); [done | by intros fs [] | intros; by apply written_mkdir] | done | by intros [] fs ?]. }
  intros []. eapply (casReads_then _ _ _ _ (λ _, True)); [apply casReads_calling; auto with leaves | done | by intros fs [] | by intros e fs [] |]. intros [] _.
  eapply (casReads_then _ _ _ _ (λ _, True)); [apply casReads_calling; unfold Chmod; auto with leaves | done | by intros fs [] | by intros e fs [] |]. intros [] _.
  eapply cas_bind; [apply enter_entered; [done | apply objectPath_last | done..] | by intros e fs [? _] |].
  intros []. apply cas_ret. intros fs [Ha He]. split; [|exact (hexDigests content)]. split; [done|]. by exists resolved.
Qed.

Lemma import_enters root format sourceName supplied :
  casHolds (admitted fs0) (admitted fs0) (PutArtifact m sameFile root format sourceName supplied) (imported root).
Proof.
  unfold PutArtifact. eapply (casReads_then _ _ _ _ (λ _, True)); [apply casReads_calling; auto with leaves | done | done | done |].
  intros info _. destruct info as [|declared|t|], (formatMaximum format) as [maximum|]; try by apply cas_fail.
  eapply (casReads_then _ _ _ _ (λ _, True)); [by apply casReads_fail_when | done | done | done |]. intros [] _.
  eapply casReads_then; [apply reads_workspacePath | done | done | done |]. intros casRoot (resolved & Hroot & ->).
  eapply (cas_bind _ _ _ _ (λ _, admitted fs0)); [| done |].
  { apply cas_calling. eapply holds_weaken; [apply (durable_keeps m _ (admitted fs0)); [done | done | intros; by apply admit_mkdir] | done | by intros [] fs ?]. }
  intros []. eapply cas_bind; [apply admitting_call, admit_create; [done | done | by right] | by intros e fs [? _] |]. intros tp.
  eapply cas_mono; [apply (cas_given _ (isTemporary m (components tp)) (written_ fs0 (components tp) "")) | by intros fs (_ & ? & ?) | intros v fs Hv; exact Hv].
  intros Ht. eapply cas_finally; [eapply (casReads_then _ _ _ _ (λ _, True)); [apply casReads_calling; auto with leaves | by apply stable_written | by intros fs [] | |] |].
  - intros e fs [Ha _]. instantiate (1 := λ v fs, imported root v fs ∧ whenLoaded (λ blob, ValidSHA256 (ab_SHA256 blob) = true) v). done.
  - intros source _. by apply import_rest.
  - intros v w [Hw Hv]. apply remove_imported; [done | by intros blob -> | done].
Qed.
End importing.

(** ** The operations among other processes *)

(** What other processes and the system do: objects others enter hash to their names, they
    leave the temporary files of this process alone, and a random name is a name. *)
Record Considerate `{HashLib} (m : Machine) (fs0 : FS) : Prop := mkConsiderate {
  cons_Names : ∀ n, mem_byte "/" (suffix m n) = false;
  cons_Admit : stable m (admitted fs0);
  cons_Spare : ∀ n fs p, isTemporary m p → between m n fs !! p = fs !! p;
}.
(** They keep a file named by a digest. *)
Definition keepsObjects (m : Machine) : Prop := ∀ n (fs : FS) p digest content, last p = Some digest → ValidSHA256 digest = true →
  fs !! p = Some (Regular content) → between m n fs !! p = Some (Regular content).

(** The artifacts of a lock, each with the version that lists it. *)
Definition lockedOf (active : list PackageVersion) : list (PackageVersion * LockedBlob) := active ≫= λ version, (version,.) <$> pv_Blobs version.

(** One root that is remembered. *)
Definition oneRoot (root resolved : string) : Remembered := ({[root := resolved]} : gmap string string).
Lemma remembers_root root resolved s : resolvedRoots s !! root = Some resolved → remembers (H := oneRoot root resolved) s.
Proof. apply map_singleton_subseteq_l. Qed.
Lemma remembers_root_inv root resolved s : remembers (H := oneRoot root resolved) s → resolvedRoots s !! root = Some resolved.
Proof. apply map_singleton_subseteq_l. Qed.
Lemma remembered_root root resolved : roots_remembered (Remembered := oneRoot root resolved) !! root = Some resolved.
Proof. apply lookup_singleton_eq. Qed.

Section claims.
Context `{NetLib, TimeLib, HashLib, !InspectLib}.

Lemma admitted_itself fs0 : admitted fs0 fs0.
Proof. intros p digest content _ Hp. by right. Qed.

Lemma loads_lockedOf m sameFile root format selected store fetcher active :
  loadLockedBlobs m sameFile root format selected store fetcher active =
  loadAll ((λ x, loadLocked m sameFile root format selected store fetcher x.1 x.2) <$> lockedOf active).
Proof.
  unfold loadLockedBlobs, lockedOf. f_equal. induction active as [|version active IH]; [done|].
  rewrite !bind_cons, fmap_app, IH. f_equal. by rewrite <- list_fmap_compose.
Qed.

(** C20: loading one artifact of a lock - what each goroutine of [loadLockedBlobs] does -
    from the cache, a blob store or its origin, goes only through states in which every
    object of a cache hashes to its name or was there before, whichever calls fail, wherever
    the process dies and whatever the store and the origin deliver; and what it returns is
    what the lock records, of the version that lists it, with the path of the object of its
    digest in the cache of this workspace.  This is among other processes and goroutines
    that enter only objects which hash to their names and leave this one's temporary files
    alone, for a workspace root that was resolved, as opening the workspace does. *)
Theorem loading_admits_only_matching m sameFile root resolved format selected store fetcher version locked s w :
  Considerate m (files (disk w)) → resolvedRoots s !! root = Some resolved →
  let r := loadLocked m sameFile root format selected store fetcher version locked s w in
  (∃ trail, past r.1 = past w ++ trail ∧ Forall (λ d, admitted (files (disk w)) (files d)) trail) ∧
  ∃ s' v, r.2 = inr (s', v) ∧
    whenLoaded (λ x, isLocked locked x.1 ∧ isVersion format version x.1 ∧ x.2 = PathJoin [resolved; blobName (SHA256 locked)]) v.
Proof.
  intros [Hn Ha Hs] Hroot. cbv zeta. pose (R := oneRoot root resolved).
  destruct (admit_locked m sameFile _ Hn Ha Hs root format selected store fetcher version locked s (remembers_root _ _ _ Hroot) w (admitted_itself _))
    as [Hc (s' & v & Hr & _ & _ & Hv)].
  split; [done|]. exists s', v. split; [done|]. destruct v as [e|x]; [done|]. destruct Hv as ((? & resolved' & Hres & Hp) & ?).
  split; [done|]. split; [done|]. rewrite Hp. f_equal. by rewrite (Hres resolved (remembered_root root resolved)).
Qed.

(** The same of a whole lock, its artifacts loaded one after another: what is returned
    stands for the artifacts of the lock, in order. *)
Theorem loading_in_order m sameFile root format selected store fetcher active s w :
  Considerate m (files (disk w)) →
  let r := loadLockedBlobs m sameFile root format selected store fetcher active s w in
  (∃ trail, past r.1 = past w ++ trail ∧ Forall (λ d, admitted (files (disk w)) (files d)) trail) ∧
  ∃ s' v, r.2 = inr (s', v) ∧
    whenLoaded (Forall2 (λ x loaded, isLocked x.2 loaded.1 ∧ isVersion format x.1 loaded.1) (lockedOf active)) v.
Proof.
  intros [Hn Ha Hs]. cbv zeta. rewrite loads_lockedOf. pose (R := (∅ : gmap string string) : Remembered).
  destruct (admit_all (files (disk w)) (λ x, loadLocked m sameFile root format selected store fetcher x.1 x.2)
    (λ x loaded, loadedFrom root x.2 loaded ∧ isVersion format x.1 loaded.1) (lockedOf active)
    (λ x, admit_locked m sameFile _ Hn Ha Hs root format selected store fetcher x.1 x.2) s (map_empty_subseteq _) w (admitted_itself _))
    as [Hc (s' & v & Hr & _ & _ & Hv)].
  split; [done|]. exists s', v. split; [done|]. destruct v as [e|loaded]; [done|]. eapply Forall2_impl; [exact Hv|]. by intros x y [[? _] ?].
Qed.

(** What an import that returns an artifact leaves in the cache of the workspace. *)
Lemma import_is_there m sameFile root resolved format sourceName supplied s w :
  Considerate m (files (disk w)) → keepsObjects m → (∀ content, ValidSHA256 (SHA256Hex content) = true) →
  resolvedRoots s !! root = Some resolved →
  let r := PutArtifact m sameFile root format sourceName supplied s w in
  (∃ trail, past r.1 = past w ++ trail ∧ Forall (λ d, admitted (files (disk w)) (files d)) trail) ∧
  ∃ s' v, r.2 = inr (s', v) ∧ resolvedRoots s' !! root = Some resolved ∧
    whenLoaded (λ blob, ∃ content, files (disk r.1) !! components (objectPath resolved (ab_SHA256 blob)) = Some (Regular content) ∧
                          SHA256Hex content = ab_SHA256 blob ∧ lengthOf content = ab_Size blob) v.
Proof.
  intros [Hn Ha Hs] Hk Hd Hroot. cbv zeta. pose (R := oneRoot root resolved).
  destruct (import_enters m sameFile _ Hn Hd Ha Hs Hk root format sourceName supplied s (remembers_root _ _ _ Hroot) w (admitted_itself _))
    as [Hc (s' & v & Hr & Hs' & _ & Hv)].
  split; [done|]. exists s', v. split; [done|]. split; [by apply remembers_root_inv|]. destruct v as [e|blob]; [done|].
  destruct Hv as (resolved' & Hres & _ & content & Hp & Hrest). rewrite (Hres resolved (remembered_root root resolved)) in Hp. by exists content.
Qed.

(** C21: importing an artifact goes only through states in which every object of a cache
    hashes to its name or was there before, whichever calls fail and wherever the process
    dies; and when it returns an artifact, the cache of this workspace holds a file under its
    digest, of its size and with that digest, whether this run or another one entered it.
    This is among other processes that enter only objects which hash to their names, keep
    files named by a digest and leave this one's temporary files alone, for digests that are
    lower-case hexadecimal and a workspace root that was resolved, as opening the workspace
    does. *)
Theorem imported_artifact_is_there m sameFile root resolved format sourceName supplied s w :
  Considerate m (files (disk w)) → keepsObjects m → (∀ content, ValidSHA256 (SHA256Hex content) = true) →
  resolvedRoots s !! root = Some resolved →
  let r := PutArtifact m sameFile root format sourceName supplied s w in
  (∃ trail, past r.1 = past w ++ trail ∧ Forall (λ d, admitted (files (disk w)) (files d)) trail) ∧
  ∃ s' v, r.2 = inr (s', v) ∧
    whenLoaded (λ blob, ∃ content, files (disk r.1) !! components (objectPath resolved (ab_SHA256 blob)) = Some (Regular content) ∧
                          SHA256Hex content = ab_SHA256 blob ∧ lengthOf content = ab_Size blob) v.
Proof.
  intros Hc Hk Hd Hroot. destruct (import_is_there m sameFile root resolved format sourceName supplied s w Hc Hk Hd Hroot)
    as [Ht (s' & v & Hr & _ & Hv)]. split; [exact Ht|]. by exists s', v.
Qed.
End claims.

(** * A concrete workspace *)

Module BlobExample.
#[local] Existing Instances S3Example.hash_lib S3Example.time_lib S3Example.net_lib.

(** A format whose artifacts carry no identity: it is the one supplied. *)
#[local] Instance inspect_lib : InspectLib := {|
  Inspect _ _ content supplied := Some (mkFacts (id_Name supplied) (id_Version supplied) "" (lengthOf content) "" [] ∅);
  MD5Hex := λ content, "md5 of " +:+ content;
  SHA1Hex := λ content, "sha1 of " +:+ content;
|}.

Lemma hex_valid n : ∀ h, String.length (S3Example.hex n h) = n ∧ all_bytes is_lower_hex (S3Example.hex n h) = true.
Proof.
  induction n as [|n IH]; intros h; [done|]. cbn [S3Example.hex String.length all_bytes]. destruct (IH (Z.shiftr h 4)) as [-> ->].
  split; [done|]. rewrite andb_true_r.
  assert (0 <= Z.land h 15 < 16) as Hb by (change 15 with (Z.ones 4); rewrite Z.land_ones by lia; apply Z.mod_pos_bound; lia).
  revert Hb. generalize (Z.land h 15). intros z Hz. replace z with (Z.of_nat (Z.to_nat z)) by lia.
  rewrite Nat2Z.id. assert (Z.to_nat z < 16)%nat as Hn by lia. revert Hn. generalize (Z.to_nat z). intros k Hk.
  do 16 (destruct k as [|k]; [done|]). lia.
Qed.
Lemma hash_hex content : ValidSHA256 (SHA256Hex content) = true.
Proof.
  cbn [SHA256Hex S3Example.hash_lib]. destruct (hex_valid 5 (S3Example.sum 7 content)) as [Hl Hb]. apply validLowerHex_spec.
  split; [by rewrite str_length_app, Hl | by rewrite all_bytes_app, Hb].
Qed.

Definition machine : Machine := LocalExample.machine true.
Definition initially : FS := list_to_map [(["ws"], Directory); (["src"], Directory); (["src"; "tool"], Regular "payload")].
Definition start : World := mkWorld (LocalExample.settled initially) 0 [].
Definition nothing : CasState := mkCasState ∅ ∅.
Definition same : nat → bool := λ _, true.

Lemma considerate fs : Considerate machine fs.
Proof. split; [|by intros n fs0|done]. intros n. cbn [suffix machine LocalExample.machine]. by induction n. Qed.
Lemma keeps : keepsObjects machine.
Proof. by intros n fs p digest content. Qed.

(** A process that opened the workspace. *)
Definition knows : CasState := mkCasState {["/ws" := "/ws"]} ∅.

Lemma imported_artifact_is_there_witness :
  let r := PutArtifact machine same "/ws" "raw" "/src/tool" (mkIdentity "tool" "1.0") knows start in
  ∃ s' v, r.2 = inr (s', v) ∧
    whenLoaded (λ blob, ∃ content, files (disk r.1) !! components (objectPath "/ws" (ab_SHA256 blob)) = Some (Regular content) ∧
                          SHA256Hex content = ab_SHA256 blob ∧ lengthOf content = ab_Size blob) v.
Proof.
  exact (proj2 (imported_artifact_is_there machine same "/ws" "/ws" "raw" "/src/tool" (mkIdentity "tool" "1.0") knows start
    (considerate _) keeps hash_hex eq_refl)).
Defined.

Definition digest : string := SHA256Hex "payload".
Definition locked (filename : string) : LockedBlob := mkBlob filename "" 7 "" "" digest "" None.
Definition version (n : string) : PackageVersion := mkPackageVersion "tool" n "active" [locked ("tool-" +:+ n)].

(** What it loads: the versions of the artifacts, or that it failed. *)
Definition versions {A : Type} (r : World * (Errno + CasState * (BlobError + list (ArtifactBlob * A)))) : option (list string) :=
  match r.2 with inr (_, inr loaded) => Some ((λ x, fact_Version (ab_Facts x.1)) <$> loaded) | _ => None end.
Definition imports : World := (PutArtifact machine same "/ws" "raw" "/src/tool" (mkIdentity "tool" "1.0") nothing start).1.

Lemma loads_what_was_imported :
  files (disk imports) !! [ "ws"; ".snailmail"; "cas"; "sha256"; stake 2 digest; digest ] = Some (Regular "payload") ∧
  versions (loadLockedBlobs machine same "/ws" "raw" rawFormat (λ _, None) None [version "1.0"] nothing imports) = Some ["1.0"] ∧
  versions (loadLockedBlobs machine same "/ws" "raw" rawFormat (λ _, None) None [version "2.0"] nothing imports) = Some ["2.0"].
Proof. vm_compute. split_and!; reflexivity. Qed.

(** The store is asked for an object that is missing, and only for what the lock records. *)
Lemma restores_from_store :
  versions (loadLockedBlobs machine same "/ws" "raw" rawFormat (λ _, Some (mkDelivery "payload" None)) None [version "1.0"] nothing start) = Some ["1.0"] ∧
  versions (loadLockedBlobs machine same "/ws" "raw" rawFormat (λ _, Some (mkDelivery "something else" None)) None [version "1.0"] nothing start) = None.
Proof. vm_compute. split_and!; reflexivity. Qed.

(** Two versions with the same bytes, which each load alone, do not load together: the facts
    remembered for the bytes are those of the first. *)
Lemma same_bytes_refused :
  versions (loadLockedBlobs machine same "/ws" "raw" rawFormat (λ _, None) None [version "1.0"; version "2.0"] nothing imports) = None.
Proof. vm_compute. reflexivity. Qed.

(** An object that does not match its name is replaced from the store. *)
Definition tampered : World :=
  mkWorld (LocalExample.settled (<[[ "ws"; ".snailmail"; "cas"; "sha256"; stake 2 digest; digest ] := Regular "corrupt"]> (files (disk imports)))) 0 [].
Lemma corrupt_object_replaced :
  versions (loadLockedBlobs machine same "/ws" "raw" rawFormat (λ _, None) None [version "1.0"] nothing tampered) = None ∧
  versions (loadLockedBlobs machine same "/ws" "raw" rawFormat (λ _, Some (mkDelivery "payload" None)) None [version "1.0"] nothing tampered) = Some ["1.0"].
Proof. vm_compute. split_and!; reflexivity. Qed.

Lemma loading_admits_only_matching_witness :
  let r := loadLocked machine same "/ws" "raw" rawFormat (λ _, Some (mkDelivery "payload" None)) None (version "1.0") (locked "tool-1.0") knows start in
  ∃ s' v, r.2 = inr (s', v) ∧
    whenLoaded (λ x, isLocked (locked "tool-1.0") x.1 ∧ isVersion "raw" (version "1.0") x.1 ∧ x.2 = PathJoin ["/ws"; blobName digest]) v.
Proof.
  exact (proj2 (loading_admits_only_matching machine same "/ws" "/ws" "raw" rawFormat (λ _, Some (mkDelivery "payload" None)) None (version "1.0")
    (locked "tool-1.0") knows start (considerate _) eq_refl)).
Defined.
End BlobExample.
