(* ===== verification/GitText.v ===== *)
(** What [internal/state/git.go] reads and writes as text: [git status] records, object
    batches, commit messages, paths, the environment of a child and the owner of a lock. *)

From S2P Require Import Prelude GoStrings GoSlices Model Formats LockShardProofs Manifest ManifestProofs PagesMessages.

Open Scope Z_scope.

Definition newline : string := String "010" "".

(** [strings.Fields], on the spaces of ASCII. *)
Definition is_space (c : ascii) : bool :=
  existsb (ascii_eqb c) ["009"%char; "010"%char; "011"%char; "012"%char; "013"%char; " "%char].
Definition Fields (s : string) : list string := FieldsFunc is_space s.

(** ** [git status --porcelain=v1 -z] *)

Record gitStatusEntry := mkStatusEntry { code : string; paths : list string }.
#[export] Instance gitStatusEntry_eq_dec : EqDecision gitStatusEntry.
Proof. solve_decision. Defined.

(** A rename or a copy carries its original path in the next record. *)
Definition twoPaths (c : string) : bool := ContainsAny (stake 2 c) "RC".

Fixpoint parseRecords (records : list string) : result (list gitStatusEntry) :=
  match records with
  | [] => Ok []
  | record :: records =>
      if bool_decide (record = "") then parseRecords records
      else if Nat.ltb (String.length record) 4 then Err "cannot parse Git status"
      else if twoPaths (stake 2 record)
           then match records with
                | [] => Err "cannot parse Git status"
                | original :: records =>
                    rest ← parseRecords records;
                    Ok (mkStatusEntry (stake 2 record) [sdrop 3 record; original] :: rest)
                end
           else rest ← parseRecords records;
                Ok (mkStatusEntry (stake 2 record) [sdrop 3 record] :: rest)
  end.
Definition parseGitStatus (status : string) : result (list gitStatusEntry) := parseRecords (Split "000" status).

(** [snailmail.toml] *)
Definition WorkspaceManifest : string := "snailmail.toml".

Definition isAuthoritativePath (name : string) : bool :=
  bool_decide (name = WorkspaceManifest) || HasPrefix name "repos/" || HasPrefix name "publications/" || HasPrefix name "deployments/" ||
  HasPrefix name "docs/install-" || HasPrefix name "keys/".

(** An untracked file that is not part of the state. *)
Definition unrelated (authoritative : gset string) (entry : gitStatusEntry) (name : string) : bool :=
  bool_decide (code entry = "??") && negb (bool_decide (name ∈ authoritative)) && negb (isAuthoritativePath name).

Definition uncommitted : string := "workspace has uncommitted authoritative or tracked changes".

Definition validateGitStatus (status : string) (allowedChanges authoritative : gset string) : result () :=
  entries ← parseGitStatus status;
  if forallb (λ entry, forallb (λ name, bool_decide (name ∈ allowedChanges) || unrelated authoritative entry name) (paths entry)) entries
  then Ok () else Err uncommitted.

Definition allowedEntry (allowedUntracked : gset string) (entry : gitStatusEntry) : bool :=
  bool_decide (code entry = "??") && match paths entry with [name] => bool_decide (name ∈ allowedUntracked) | _ => false end.
Definition validateGitStatusAllowingUntracked (status : string) (allowedUntracked authoritative : gset string) : result () :=
  entries ← parseGitStatus status;
  if forallb (λ entry, allowedEntry allowedUntracked entry || forallb (unrelated authoritative entry) (paths entry)) entries
  then Ok () else Err uncommitted.

(** ** Messages and paths *)

Definition planTrailer (planID : string) : string := "Snailmail-Plan: " +:+ planID.
Definition hasPlanTrailer (message planID : string) : bool :=
  existsb (λ line, bool_decide (TrimSpace line = planTrailer planID)) (Split "010" message).

Definition publicationMessageFor (planID : string) : string :=
  "record snailmail publications" +:+ newline +:+ newline +:+ planTrailer planID +:+ newline.
Definition deploymentHeading : string := "record snailmail deployments" +:+ newline.

Definition ledgerPath (repository : string) : string := PathJoin ["publications"; repository +:+ ".jsonl"].
Definition receiptPath (repository : string) : string := PathJoin ["deployments"; repository +:+ ".json"].
Definition publicationWorkspacePaths (repositories : list string) : gset string := list_to_set (ledgerPath <$> repositories).

(** [workspaceGitPath] and [workspaceRelativeGitPath], given the prefix of the workspace. *)
Definition treePathOf (prefix relative : string) : string := PathJoin [prefix; relative].
Definition relativeTo (prefix name : string) : option string :=
  if bool_decide (prefix = "") then Some name
  else if HasPrefix name prefix then Some (TrimPrefix name prefix) else None.

(** The paths of [-z] output. *)
Definition pathRecords (output : string) : list string := filter (λ name, name ≠ "") (Split "000" output).

(** A set of paths is the expected one. *)
Definition samePaths (actual : list string) (expected : gset string) : bool :=
  let found : gset string := list_to_set actual in
  Nat.eqb (size found) (size expected) && forallb (λ name, bool_decide (name ∈ found)) (elements expected).

(** ** Object batches *)

(** One line of [git cat-file --batch-check]: the identifier of a blob, or nothing. *)
Definition batchCheckLine (line : string) : string :=
  match Fields line with
  | [identifier; kind; _] => if bool_decide (kind = "blob") then identifier else ""
  | _ => ""
  end.
Definition outputLines (output : string) : list string := Split "010" (TrimRight (ascii_eqb "010") output).
Definition parseBatchCheck (output : string) (expected : nat) : result (list string) :=
  let lines := outputLines output in
  refuse "cannot resolve committed authoritative state" when negb (Nat.eqb (length lines) expected);
  Ok (batchCheckLine <$> lines).
Definition parseHashes (output : string) (expected : nat) : result (list string) :=
  let lines := outputLines output in
  refuse "cannot hash authoritative worktree state" when negb (Nat.eqb (length lines) expected);
  Ok (TrimSpace <$> lines).

Definition maxBatchObjectSize : Z := Z.shiftl 64 20.
Record batchObject := mkBatchObject { object_id : string; object_content : string }.
#[export] Instance batchObject_eq_dec : EqDecision batchObject.
Proof. solve_decision. Defined.

(** [ReadString]: the line up to its end, which must be there. *)
Definition readLine (s : string) : option (string * string) := cut_byte "010" s.
(** [io.ReadFull] of [size] bytes. *)
Definition readFull (size : Z) (s : string) : option (string * string) :=
  if Z.of_nat (String.length s) <? size then None else Some (stake (Z.to_nat size) s, sdrop (Z.to_nat size) s).

Fixpoint readCatFileBatch (expected : nat) (s : string) : result (list batchObject) :=
  match expected with
  | O => Ok []
  | S expected =>
      match readLine s with
      | None => Err "read Git object header"
      | Some (header, s) =>
          match Fields header with
          | [_; kind] => if bool_decide (kind = "missing") then rest ← readCatFileBatch expected s; Ok (mkBatchObject "" "" :: rest)
                         else Err "unexpected Git object header"
          | [identifier; kind; number] =>
              refuse "unexpected Git object header" when negb (bool_decide (kind = "blob"));
              match ParseInt number 64 with
              | None => Err "Git object size is invalid or exceeds the read limit"
              | Some size =>
                  refuse "Git object size is invalid or exceeds the read limit" when (size <? 0) || (maxBatchObjectSize <? size);
                  match readFull size s with
                  | None => Err "read Git object"
                  | Some (content, s) =>
                      match s with
                      | "" => Err "read Git object terminator"
                      | String _ s => rest ← readCatFileBatch expected s; Ok (mkBatchObject identifier content :: rest)
                      end
                  end
              end
          | _ => Err "unexpected Git object header"
          end
      end
  end.

(** ** The environment of a child *)

(** [strings.Cut(entry, "=")]. *)
Definition variableOf (entry : string) : option string := fst <$> cut_byte "=" entry.
Definition keptVariable (values : gmap string string) (entry : string) : bool :=
  match variableOf entry with Some key => bool_decide (values !! key = None) | None => true end.
Definition replaceEnvironment (environment : list string) (values : gmap string string) : list string :=
  filter (λ entry, keptVariable values entry = true) environment ++
  ((λ key, key +:+ "=" +:+ default "" (values !! key)) <$> Strings (elements (dom values))).

(** ** The owner of a lock *)

Definition gitLockOwnerPrefix : string := "snailmail publication lock".
Definition lockOwner (pid : Z) (formatPid : Z → string) (since : string) : string :=
  gitLockOwnerPrefix +:+ newline +:+ "pid=" +:+ formatPid pid +:+ newline +:+ "since=" +:+ since +:+ newline.

Fixpoint ownerLines (lines : list string) : option Z :=
  match lines with
  | [] => None
  | line :: lines =>
      if HasPrefix line "pid=" then
        match ParseInt (TrimSpace (TrimPrefix line "pid=")) 64 with
        | Some pid => if 0 <? pid then Some pid else None
        | None => None
        end
      else ownerLines lines
  end.
Definition gitLockOwnerProcess (content : string) : option Z := ownerLines (Split "010" content).

(** What a conflict is reported as. *)
Inductive LockConflict := OtherFailure | HeldByGit | HeldByRunning | LeftBehind.
Definition describeGitLockConflict (running : Z → bool) (exists_ : bool) (content : option string) : LockConflict :=
  if negb exists_ then OtherFailure
  else match content with
       | None => HeldByGit
       | Some content =>
           if negb (HasPrefix content gitLockOwnerPrefix) then HeldByGit
           else match gitLockOwnerProcess content with
                | Some owner => if running owner then HeldByRunning else LeftBehind
                | None => LeftBehind
                end
       end.

(** * Reading back *)

(** ** Words *)

Definition word (s : string) : Prop := s ≠ "" ∧ all_bytes (λ c, negb (is_space c)) s = true.

Lemma fields_raw_none s : all_bytes (λ c, negb (is_space c)) s = true → fields_raw is_space s = [s].
Proof. induction s as [|c s IH]; [done|]. cbn. intros [Hc%negb_true_iff Hs]%andb_true_iff. by rewrite Hc, IH. Qed.
Lemma fields_raw_at s t : all_bytes (λ c, negb (is_space c)) s = true → fields_raw is_space (s +:+ String " " t) = s :: fields_raw is_space t.
Proof. induction s as [|c s IH]; [done|]. rewrite str_app_cons. cbn. intros [Hc%negb_true_iff Hs]%andb_true_iff. by rewrite Hc, IH. Qed.
Lemma Fields_two a b : word a → word b → Fields (a +:+ " " +:+ b) = [a; b].
Proof.
  intros [Ha Ha'] [Hb Hb']. unfold Fields, FieldsFunc. change (a +:+ " " +:+ b) with (a +:+ String " " b).
  rewrite fields_raw_at, fields_raw_none by done. by rewrite !filter_cons_True, filter_nil by done.
Qed.
Lemma Fields_three a b c : word a → word b → word c → Fields (a +:+ " " +:+ b +:+ " " +:+ c) = [a; b; c].
Proof.
  intros [Ha Ha'] [Hb Hb'] [Hc Hc']. unfold Fields, FieldsFunc. change (a +:+ " " +:+ b +:+ " " +:+ c) with (a +:+ String " " (b +:+ String " " c)).
  rewrite !fields_raw_at, fields_raw_none by done. by rewrite !filter_cons_True, filter_nil by done.
Qed.

Lemma cut_byte_app c s t : mem_byte c s = false → cut_byte c (s +:+ String c t) = Some (s, t).
Proof.
  induction s as [|x s IH]; [intros _; change ("" +:+ String c t) with (String c t); cbn [cut_byte]; by rewrite ascii_eqb_refl|].
  rewrite str_app_cons. cbn [cut_byte mem_byte]. intros [Hx Hs]%orb_false_iff. by rewrite Hx, IH.
Qed.
Lemma word_line s : word s → mem_byte "010" s = false.
Proof.
  intros [_ Hs]. induction s as [|c s IH]; [done|]. cbn in *. apply andb_true_iff in Hs as [Hc Hs]. rewrite IH by done. rewrite orb_false_r.
  destruct (ascii_eqb c "010") eqn:E; [|done]. apply bool_decide_eq_true in E as ->. done.
Qed.

(** ** Object batches *)

(** What [git cat-file --batch] prints: a header, the content as it is, a newline. *)
Inductive batchText : list batchObject → string → Prop :=
| batch_end rest : batchText [] rest
| batch_missing request l text : word request → batchText l text →
    batchText (mkBatchObject "" "" :: l) (request +:+ " missing" +:+ newline +:+ text)
| batch_found identifier number content l text :
    word identifier → word number → ParseInt number 64 = Some (Z.of_nat (String.length content)) →
    Z.of_nat (String.length content) <= maxBatchObjectSize → batchText l text →
    batchText (mkBatchObject identifier content :: l) (identifier +:+ " blob " +:+ number +:+ newline +:+ content +:+ newline +:+ text).

Lemma stake_app s t : stake (String.length s) (s +:+ t) = s ∧ sdrop (String.length s) (s +:+ t) = t.
Proof. induction s as [|c s [IH1 IH2]]; [by destruct t|]. rewrite str_app_cons. cbn. by rewrite IH1, IH2. Qed.
Lemma readFull_app content rest : readFull (Z.of_nat (String.length content)) (content +:+ rest) = Some (content, rest).
Proof.
  unfold readFull. rewrite Nat2Z.id, str_length_app. destruct (_ <? _) eqn:E; [apply Z.ltb_lt in E; lia|].
  destruct (stake_app content rest) as [-> ->]. done.
Qed.
Lemma readLine_app header text : mem_byte "010" header = false → readLine (header +:+ newline +:+ text) = Some (header, text).
Proof. intros Hh. by apply cut_byte_app. Qed.

(** a batch of Git objects is read back exactly as it was printed, whatever bytes the
    objects hold: no content is taken for a header. *)
Theorem object_batch_roundtrip l text : batchText l text → readCatFileBatch (length l) text = Ok l.
Proof.
  induction 1 as [rest|request l text Hr Ht IH|identifier number content l text Hi Hn Hp Hm Ht IH]; [done|..]; cbn [length readCatFileBatch].
  - assert (word "missing") as Hw by done. rewrite <- (str_app_assoc request), readLine_app.
    + change (request +:+ " missing") with (request +:+ " " +:+ "missing"). rewrite Fields_two by done. by rewrite IH.
    + rewrite mem_byte_app. by rewrite word_line.
  - assert (word "blob") as Hw by done.
    replace (identifier +:+ " blob " +:+ number +:+ newline +:+ content +:+ newline +:+ text)
      with ((identifier +:+ " " +:+ "blob" +:+ " " +:+ number) +:+ newline +:+ (content +:+ newline +:+ text)) by by rewrite !str_app_assoc.
    rewrite readLine_app by by rewrite !mem_byte_app, (word_line identifier Hi), (word_line number Hn). rewrite Fields_three by done. cbn [negb bool_decide decide_rel].
    rewrite (bool_decide_eq_true_2 ("blob" = "blob")) by done. cbn [negb]. rewrite Hp.
    assert ((Z.of_nat (String.length content) <? 0) || (maxBatchObjectSize <? Z.of_nat (String.length content)) = false) as ->.
    { apply orb_false_iff. split; [apply Z.ltb_ge; lia | by apply Z.ltb_ge]. }
    rewrite readFull_app. change (newline +:+ text) with (String "010" text). cbn beta iota. by rewrite IH.
Qed.

(** ** Status records *)

(** An entry as [git status] prints it: two characters, a space, a path, and for a rename
    or a copy the original path. *)
Definition statusRecord (entry : gitStatusEntry) : list string :=
  match paths entry with
  | path :: rest => (code entry +:+ " " +:+ path) :: rest
  | [] => []
  end.
Definition statusText (entries : list gitStatusEntry) : string := String.concat "" ((λ r, r +:+ nul) <$> (entries ≫= statusRecord)).
Definition statusEntry (entry : gitStatusEntry) : Prop :=
  String.length (code entry) = 2%nat ∧ Forall (λ p, p ≠ "") (paths entry) ∧ Forall (λ p, nul_free p = true) (code entry :: paths entry) ∧
  length (paths entry) = (if twoPaths (code entry) then 2 else 1)%nat.

Lemma split_records l : Forall (λ r, nul_free r = true) l → Split "000" (String.concat "" ((λ r, r +:+ nul) <$> l)) = l ++ [""].
Proof.
  induction 1 as [|r l Hr Hl IH]; [done|]. cbn [fmap list_fmap]. destruct l as [|r' l].
  - cbn [fmap list_fmap String.concat app]. unfold nul. rewrite Split_at_byte by by apply negb_true_iff in Hr. done.
  - change (String.concat "" ((r +:+ nul) :: ((λ r, r +:+ nul) <$> r' :: l))) with ((r +:+ nul) +:+ "" +:+ String.concat "" ((λ r, r +:+ nul) <$> r' :: l)).
    rewrite str_app_assoc. unfold nul at 1. rewrite str_app_cons. rewrite Split_at_byte by by apply negb_true_iff in Hr.
    cbn [app]. f_equal. exact IH.
Qed.

Lemma record_parts c p : String.length c = 2%nat → stake 2 (c +:+ " " +:+ p) = c ∧ sdrop 3 (c +:+ " " +:+ p) = p.
Proof. by destruct c as [|a [|b [|]]], p. Qed.

(** The entries of a status are read back exactly. *)
Lemma status_roundtrip entries : Forall statusEntry entries → parseGitStatus (statusText entries) = Ok entries.
Proof.
  intros He. unfold parseGitStatus, statusText. rewrite split_records.
  - induction He as [|entry entries (Hc & Hp & Hn & Hl) He IH]; [done|]. rewrite bind_cons. unfold statusRecord at 1.
    destruct entry as [c ps]. cbn [code paths] in *. destruct (twoPaths c) eqn:E2, ps as [|p [|q [|]]]; try done; cbn [app parseRecords];
      destruct (record_parts c p Hc) as [Hs Hd]; rewrite Hs, Hd, E2;
      (rewrite bool_decide_eq_false_2 by by destruct c as [|a c]);
      (assert (Nat.ltb (String.length (c +:+ " " +:+ p)) 4 = false) as -> by
         (apply Nat.ltb_ge; rewrite !str_length_app, Hc; apply Forall_cons in Hp as [Hp _]; destruct p; [done|cbn; lia]));
      by rewrite IH.
  - apply Forall_forall. intros r (entry & Hr & Hin)%list_elem_of_bind. rewrite Forall_forall in He.
    destruct (He entry Hin) as (_ & _ & Hn & _). unfold statusRecord in Hr. destruct entry as [c ps]. cbn [code paths] in *.
    apply Forall_cons in Hn as [Hc Hps]. destruct ps as [|p ps]; [by apply not_elem_of_nil in Hr|]. apply Forall_cons in Hps as [Hp Hps].
    apply elem_of_cons in Hr as [->|Hr]; [|by rewrite Forall_forall in Hps; apply Hps].
    unfold nul_free in *. apply negb_true_iff in Hc, Hp. by rewrite !mem_byte_app, Hc, Hp.
Qed.

(** ** What a status admits *)

(** A workspace is clean but for [allowed] when every change outside it is to an untracked
    file that is not part of the state. *)
Lemma validateGitStatus_spec entries allowed authoritative : Forall statusEntry entries →
  validateGitStatus (statusText entries) allowed authoritative = Ok () ↔
  (∀ entry name, entry ∈ entries → name ∈ paths entry → name ∈ allowed ∨ code entry = "??" ∧ (name ∉ authoritative) ∧ isAuthoritativePath name = false).
Proof.
  intros He. unfold validateGitStatus. rewrite status_roundtrip by done. cbn [mbind result_bind].
  destruct (forallb _ entries) eqn:Ef.
  - split; [|done]. intros _ entry name Hin Hn. rewrite forallb_forall in Ef. specialize (Ef entry ltac:(by apply list_elem_of_In)).
    rewrite forallb_forall in Ef. specialize (Ef name ltac:(by apply list_elem_of_In)). apply orb_true_iff in Ef as [Ha%bool_decide_eq_true|Hu]; [by left|].
    right. unfold unrelated in Hu. apply andb_true_iff in Hu as [[Hc%bool_decide_eq_true Hna]%andb_true_iff Hp%negb_true_iff].
    apply negb_true_iff, bool_decide_eq_false in Hna. done.
  - split; [done|]. intros Hall. exfalso. apply not_true_iff_false in Ef. apply Ef. apply forallb_forall. intros entry Hin%list_elem_of_In.
    apply forallb_forall. intros name Hn%list_elem_of_In. apply orb_true_iff. destruct (Hall entry name Hin Hn) as [Ha|(Hc & Hna & Hp)]; [left; by apply bool_decide_eq_true|].
    right. unfold unrelated. by rewrite Hp, Hc, (bool_decide_eq_false_2 (name ∈ authoritative)).
Qed.
