(* ===== verification/GitState.v ===== *)
(** The workspace in Git: [internal/state/git.go] and [git_layout_cache.go].

    Git is run as a child process and is not part of this program: what it answers, and
    what the calls on files answer, is an [GitOracle] that knows every request made before,
    so that anything may change between two requests.  A run keeps each request with its
    answer ([GitEvent]) and the answers about the layout of the repository it remembers.
    Arguments are those the code gives to [git -C root] after its configuration
    overrides; [ctx] says whether the context of a call can be cancelled. *)

From S2P Require Import Prelude GoStrings GoSlices Model Formats Source Lock JsonStrict PlanJson Manifest ManifestOps FileSystem GitText.

Open Scope Z_scope.

(** ** Requests and answers *)

Record GitCall := mkGitCall { call_Index : option string; call_Arguments : list string; call_Input : string }.
#[export] Instance GitCall_eq_dec : EqDecision GitCall.
Proof. solve_decision. Defined.
Inductive GitAnswer := Printed (output : string) | Exited (status : Z) | NotRun.

Inductive FileCall :=
| PathOf (relative : string)            (* [WorkspacePath] *)
| RegularFile (name : string)           (* [os.Lstat]: a regular file *)
| ReadAll (name : string)
| CreateExclusive (name : string)
| CreateBeside (name : string)          (* [os.CreateTemp] in the directory of [name] *)
| WriteAll (name content : string)
| SyncAll (name : string)
| SyncDirectoryOf (name : string)
| RenameTo (from to : string)
| RemoveFile (name : string)
| MakeDirectoryOf (name : string)
| Glob (pattern : string)
| FlockWorkspace.
#[export] Instance FileCall_eq_dec : EqDecision FileCall.
Proof. solve_decision. Defined.

Inductive GitEvent :=
| Ran (call : GitCall) (answer : GitAnswer)
| Did (call : FileCall) (answer : Errno + list string)
| Cancelled (cancelled : bool).
Definition GitEvents := list GitEvent.

Record GitOracle := mkGitOracle {
  runs : GitEvents → GitCall → GitAnswer;
  does_ : GitEvents → FileCall → Errno + list string;
  cancels : GitEvents → bool;
  (** The line that names this process in its locks. *)
  ownerText : string;
}.

Record GitRun := mkGitRun { run_events : GitEvents; run_layout : gmap string GitAnswer }.

(** ** The monad *)

Definition GitM (A : Type) : Type := GitRun → GitRun * result A.
#[export] Instance GitM_ret : MRet GitM := λ A a s, (s, Ok a).
#[export] Instance GitM_bind : MBind GitM := λ A B f m s,
  match m s with
  | (s, Ok a) => f a s
  | (s, Err e) => (s, Err e)
  end.
Definition failing {A : Type} (e : string) : GitM A := λ s, (s, Err e).
Definition failing_when (b : bool) (e : string) : GitM () := if b then failing e else mret ().
Definition lifting {A : Type} (r : result A) : GitM A := λ s, (s, r).
(** The outcome as a value. *)
Definition attempt {A : Type} (m : GitM A) : GitM (result A) := λ s, let '(s, r) := m s in (s, Ok r).
(** A deferred call. *)
Definition deferring {A B : Type} (final : GitM B) (m : GitM A) : GitM A := λ s, let '(s, r) := m s in ((final s).1, r).
Fixpoint traversing {A B : Type} (f : A → GitM B) (l : list A) : GitM (list B) :=
  match l with
  | [] => mret []
  | x :: l => y ← f x; ys ← traversing f l; mret (y :: ys)
  end.

Definition happened (e : GitEvent) (s : GitRun) : GitRun := mkGitRun (run_events s ++ [e]) (run_layout s).

Section state.
Context `{NetLib, HashLib, ManifestLib, TimeLib} (o : GitOracle).

(** ** Requests *)

Definition running (call : GitCall) : GitM GitAnswer := λ s,
  let answer := runs o (run_events s) call in (happened (Ran call answer) s, Ok answer).
Definition doing (call : FileCall) : GitM (Errno + list string) := λ s,
  let answer := does_ o (run_events s) call in (happened (Did call answer) s, Ok answer).
(** [ctx.Err()]. *)
Definition checkContext (ctx : bool) : GitM () := λ s,
  if ctx then let b := cancels o (run_events s) in (happened (Cancelled b) s, if b then Err "context canceled" else Ok ())
  else (s, Ok ()).

Definition fileResult (answer : Errno + list string) : result (list string) :=
  match answer with inr l => Ok l | inl _ => Err "file system" end.
Definition on (call : FileCall) : GitM (list string) := answer ← doing call; lifting (fileResult answer).
Definition on_ (call : FileCall) : GitM () := _ ← on call; mret ().
Definition onOne (call : FileCall) : GitM string := l ← on call; lifting (match l with x :: _ => Ok x | [] => Ok "" end).

Definition printed (answer : GitAnswer) : result string := match answer with Printed output => Ok output | _ => Err "git failed" end.
Definition git (index : option string) (arguments : list string) (input : string) : GitM string :=
  answer ← running (mkGitCall index arguments input); lifting (printed answer).
Definition gitOutput (arguments : list string) : GitM string := output ← git None arguments ""; mret (TrimSpace output).
Definition gitRun (arguments : list string) : GitM () := _ ← git None arguments ""; mret ().
Definition gitOutputEnv (index : string) (arguments : list string) : GitM string := output ← git (Some index) arguments ""; mret (TrimSpace output).
Definition gitStatusOutput : GitM string := git None ["status"; "--porcelain=v1"; "-z"; "--untracked-files=all"; "--no-renames"] "".
Definition gitPathOutput (arguments : list string) : GitM (list string) := output ← git None arguments ""; mret (pathRecords output).
Definition gitChangedPaths (revision : string) : GitM (list string) :=
  gitPathOutput ["diff-tree"; "--no-commit-id"; "--name-only"; "-r"; "-z"; revision].
Definition gitHashObject (content : string) : GitM string := output ← git None ["hash-object"; "--stdin"] content; mret (TrimSpace output).
Definition commitMessage (revision : string) : GitM string := gitOutput ["log"; "-1"; "--format=%B"; revision].
Definition headRevision : GitM string := gitOutput ["rev-parse"; "HEAD"].

(** [cachedGitLayout]: the answer, failures included, is asked for once. *)
Definition cachedGitLayout (question : string) (ask : GitM GitAnswer) : GitM GitAnswer := λ s,
  match run_layout s !! question with
  | Some answer => (s, Ok answer)
  | None =>
      match ask s with
      | (s, Ok answer) => (mkGitRun (run_events s) (<[question := answer]> (run_layout s)), Ok answer)
      | (s, Err e) => (s, Err e)
      end
  end.
Definition trimmed (answer : GitAnswer) : GitAnswer := match answer with Printed output => Printed (TrimSpace output) | answer => answer end.
Definition layoutOf (question : string) (arguments : list string) : GitM GitAnswer :=
  cachedGitLayout question (answer ← running (mkGitCall None arguments ""); mret (trimmed answer)).
Definition gitPrefix : GitM string := answer ← layoutOf "show-prefix" ["rev-parse"; "--show-prefix"]; lifting (printed answer).

(** ** Asking about the repository *)

Definition RequireGitRepository (ctx : bool) : GitM () :=
  r ← attempt (gitOutput ["rev-parse"; "--git-dir"]);
  match r with
  | Ok _ => mret ()
  | Err _ => _ ← checkContext ctx; failing "workspace must be inside a Git repository"
  end.

Definition requireCompleteGitHistory (ctx : bool) : GitM () :=
  shallow ← layoutOf "is-shallow" ["rev-parse"; "--is-shallow-repository"];
  _ ← checkContext ctx;
  _ ← failing_when (match shallow with Printed answer => bool_decide (answer = "true") | _ => true end)
        "workspace requires complete, non-shallow Git history";
  partial ← cachedGitLayout "partial-clone" (running (mkGitCall None ["config"; "--get"; "extensions.partialClone"] ""));
  match partial with
  | Printed output =>
      _ ← failing_when (negb (bool_decide (TrimSpace output = ""))) "workspace requires complete, non-partial Git history";
      checkContext ctx
  | Exited status =>
      if status =? 1 then checkContext ctx
      else _ ← checkContext ctx; failing "inspect partial Git configuration"
  | NotRun => _ ← checkContext ctx; failing "inspect partial Git configuration"
  end.

Definition symbolicHead (ctx : bool) : GitM string :=
  r ← attempt (gitOutput ["symbolic-ref"; "--quiet"; "HEAD"]);
  _ ← checkContext ctx;
  match r with
  | Ok name => if HasPrefix name "refs/" then mret name else failing "workspace requires Git HEAD to be attached to a branch"
  | Err _ => failing "workspace requires Git HEAD to be attached to a branch"
  end.

(** The manifest, its locks and keys, and what matches the patterns. *)
Definition authoritativePatterns : list string :=
  ["repos/*.lock.toml"; "publications/*.jsonl"; "deployments/*.json"; "docs/install-*.md"; "keys/*.gpg"; "keys/*.asc"].
Definition manifestPaths (manifest : Manifest) : gset string :=
  {[WorkspaceManifest]} ∪ list_to_set ((λ r : string * Repository, repo_Lock r.2) <$> map_to_list (man_Repositories manifest)) ∪
  list_to_set (map_to_list (man_Keys manifest) ≫= λ k : string * SigningKey, [key_PublicKeyPath k.2; key_PublicArmorPath k.2]).
Definition authoritativePaths : GitM (gset string) :=
  content ← onOne (ReadAll WorkspaceManifest);
  manifest ← lifting (LoadManifest content);
  matches ← traversing (λ pattern, on (Glob pattern)) authoritativePatterns;
  mret (manifestPaths manifest ∪ list_to_set (mjoin matches)).

(** ** Comparing the worktree with a commit *)

Definition withNewline (l : list string) : string := String.concat "" ((λ x, x +:+ newline) <$> l).
(** A command whose failure is reported with the state of the context. *)
Definition batch (ctx : bool) (arguments : list string) (input e : string) : GitM string :=
  answer ← running (mkGitCall None arguments input);
  match answer with
  | Printed output => mret output
  | _ => _ ← checkContext ctx; failing e
  end.
Definition revisionBlobIDs (ctx : bool) (revision : string) (treePaths : list string) : GitM (list string) :=
  output ← batch ctx ["cat-file"; "--batch-check"] (withNewline ((λ p, revision +:+ ":" +:+ p) <$> treePaths)) "resolve committed authoritative state";
  lifting (parseBatchCheck output (length treePaths)).
Definition worktreeBlobIDs (ctx : bool) (treePaths : list string) : GitM (list string) :=
  output ← batch ctx ["hash-object"; "--stdin-paths"] (withNewline treePaths) "hash authoritative worktree state";
  lifting (parseHashes output (length treePaths)).

Definition carriageReturn : string := String "013" "".
Definition treePathFor (prefix name : string) : GitM string :=
  _ ← failing_when (ContainsAny name (newline +:+ carriageReturn)) "authoritative state has an unusable name";
  path ← onOne (PathOf name);
  regular ← doing (RegularFile path);
  _ ← failing_when (match regular with inr _ => false | inl _ => true end) "authoritative state is not a regular committed file";
  mret (treePathOf prefix name).

Definition requireAuthoritativeFilesCommitted (ctx : bool) (revision : string) (authoritative allowedChanges : gset string) : GitM () :=
  let names := Strings (elements (authoritative ∖ allowedChanges)) in
  if bool_decide (names = []) then mret ()
  else
    prefix ← gitPrefix;
    treePaths ← traversing (treePathFor prefix) names;
    committed ← revisionBlobIDs ctx revision treePaths;
    _ ← failing_when (existsb (λ id, bool_decide (id = "")) committed) "authoritative state is not committed to Git";
    worktree ← worktreeBlobIDs ctx treePaths;
    failing_when (negb (bool_decide (worktree = committed))) "authoritative state differs from Git".

Definition requireCleanGit (ctx : bool) (allowedUntracked : gset string) : GitM string :=
  _ ← requireCompleteGitHistory ctx;
  _ ← symbolicHead ctx;
  r ← attempt headRevision;
  revision ← match r with
             | Ok revision => mret revision
             | Err _ => _ ← checkContext ctx; failing "workspace must be a Git repository with at least one commit"
             end;
  s ← attempt gitStatusOutput;
  status ← match s with Ok status => mret status | Err e => _ ← checkContext ctx; failing e end;
  authoritative ← authoritativePaths;
  _ ← lifting (validateGitStatusAllowingUntracked status allowedUntracked authoritative);
  _ ← requireAuthoritativeFilesCommitted ctx revision authoritative allowedUntracked;
  confirmed ← attempt headRevision;
  _ ← checkContext ctx;
  _ ← failing_when (match confirmed with Ok confirmed => negb (bool_decide (confirmed = revision)) | Err _ => true end)
        "Git revision changed while validating workspace";
  mret revision.
Definition RequireCleanGit (ctx : bool) : GitM string := requireCleanGit ctx ∅.
Definition RequireCleanGitAllowingUntracked (relativePaths : list string) : GitM string :=
  _ ← traversing (λ name, lifting (validateRelativePath name)) relativePaths;
  requireCleanGit false (list_to_set relativePaths).

Definition AssertGitRevision (ctx : bool) (expected : string) : GitM () :=
  current ← RequireCleanGit ctx;
  failing_when (negb (bool_decide (current = expected))) "Git revision changed during operation".
Definition AssertGitHeadRevision (expected : string) : GitM () :=
  current ← headRevision;
  failing_when (negb (bool_decide (current = expected))) "Git revision changed during operation".

(** ** The commits of a plan *)

(** Whether every changed path is a file of the workspace below [directory]. *)
Definition onlyUnder (directory suffix : string) (prefix : string) (changed : list string) : bool :=
  forallb (λ name, match relativeTo prefix name with Some relative => HasPrefix relative directory && HasSuffix relative suffix | None => false end) changed.
(** [gitPrefix] is asked for at the first path. *)
Definition checkUnder (directory suffix e : string) (changed : list string) : GitM () :=
  prefix ← gitPrefix;
  failing_when (negb (onlyUnder directory suffix prefix changed)) e.

Definition isPlanDeploymentCommit (ctx : bool) (revision planID : string) : GitM bool :=
  r ← attempt (commitMessage revision);
  _ ← checkContext ctx;
  match r with
  | Ok message =>
      if hasPlanTrailer message planID && HasPrefix message deploymentHeading then
        changed ← attempt (gitChangedPaths revision);
        _ ← checkContext ctx;
        match changed with
        | Ok (name :: changed) =>
            _ ← checkUnder "deployments/" ".json" "deployment receipt commit changed unrelated paths" (name :: changed);
            mret true
        | _ => failing "invalid deployment receipt commit"
        end
      else mret false
  | Err _ => mret false
  end.

Definition PlanLedgerRevision (planID : string) : GitM string :=
  current ← headRevision;
  deployment ← isPlanDeploymentCommit false current planID;
  match deployment with true => gitOutput ["rev-parse"; current +:+ "^"] | false => mret current end.

Definition expectedTreePaths (paths : list string) : GitM (gset string) :=
  names ← traversing (λ p, prefix ← gitPrefix; mret (treePathOf prefix p)) paths;
  mret (list_to_set names).
Definition publicationGitPaths (repositories : list string) : GitM (gset string) := expectedTreePaths (ledgerPath <$> repositories).
Definition ValidatePublicationCommitPaths (revision : string) (repositories : list string) : GitM () :=
  expected ← publicationGitPaths repositories;
  changed ← gitChangedPaths revision;
  failing_when (negb (samePaths changed expected)) "publication commit changed an unexpected ledger set".
Definition ValidateDeploymentCommitPaths (revision : string) (repositories : list string) : GitM () :=
  names ← traversing (λ repository,
    _ ← lifting (ValidateRepositoryName repository); prefix ← gitPrefix; mret (treePathOf prefix (receiptPath repository))) repositories;
  changed ← gitChangedPaths revision;
  failing_when (negb (samePaths changed (list_to_set names))) "deployment commit changed an unexpected receipt set".

(** The base commit, with ledgers to be committed. *)
Definition validateBase (baseRevision : string) (repositories : list string) : GitM bool :=
  let allowedLedgers := publicationWorkspacePaths repositories in
  status ← gitStatusOutput;
  authoritative ← authoritativePaths;
  _ ← lifting (validateGitStatus status allowedLedgers authoritative);
  _ ← requireAuthoritativeFilesCommitted false baseRevision authoritative allowedLedgers;
  confirmed ← attempt headRevision;
  _ ← failing_when (match confirmed with Ok confirmed => negb (bool_decide (confirmed = baseRevision)) | Err _ => true end) "stale plan: Git revision changed";
  mret false.

(** The ledger commit of the plan, on the base commit. *)
Definition validateLedgerCommit (ledgerRevision baseRevision planID : string) : GitM bool :=
  parent ← attempt (gitOutput ["rev-parse"; ledgerRevision +:+ "^"]);
  _ ← failing_when (match parent with Ok parent => negb (bool_decide (parent = baseRevision)) | Err _ => true end) "stale plan: Git revision changed";
  message ← attempt (commitMessage ledgerRevision);
  _ ← failing_when (match message with Ok message => negb (hasPlanTrailer message planID) | Err _ => true end) "stale plan: Git revision changed";
  changed ← attempt (gitChangedPaths ledgerRevision);
  match changed with
  | Ok (name :: changed) =>
      _ ← checkUnder "publications/" ".jsonl" "publication ledger commit changed non-ledger paths" (name :: changed);
      mret true
  | _ => failing "invalid publication ledger commit"
  end.

Definition ValidatePlanGit (baseRevision planID : string) (repositories deploymentRepositories : list string) : GitM bool :=
  _ ← requireCompleteGitHistory false;
  _ ← symbolicHead false;
  current ← headRevision;
  if bool_decide (current = baseRevision) then validateBase baseRevision repositories
  else
    _ ← RequireCleanGit false;
    deployment ← isPlanDeploymentCommit false current planID;
    match deployment with
    | true =>
      _ ← ValidateDeploymentCommitPaths current deploymentRepositories;
      parent ← attempt (gitOutput ["rev-parse"; current +:+ "^"]);
      match parent with
      | Err _ => failing "invalid deployment receipt commit"
      | Ok ledgerRevision =>
          if bool_decide (repositories = []) && bool_decide (ledgerRevision = baseRevision) then mret true
          else validateLedgerCommit ledgerRevision baseRevision planID
      end
    | false => validateLedgerCommit current baseRevision planID
    end.

(** ** Locks *)

Definition resolveGitPath (root name : string) : GitM string :=
  answer ← layoutOf ("git-path" +:+ nul +:+ name) ["rev-parse"; "--git-path"; name];
  resolved ← lifting (printed answer);
  mret (Clean (if HasPrefix resolved "/" then resolved else PathJoin [root; resolved])).

Definition releaseLock (name : string) : GitM () := _ ← doing (RemoveFile name); mret ().
Definition acquireGitLock (name : string) : GitM () :=
  _ ← on_ (CreateExclusive name);
  written ← doing (WriteAll name (ownerText o));
  match written with
  | inr _ => mret ()
  | inl _ => _ ← releaseLock name; failing "file system"
  end.
Definition releaseAll (names : list string) : GitM () := _ ← traversing releaseLock (reverse names); mret ().

(** The locks in order; those taken are released where one is refused. *)
Fixpoint acquireAll (taken names : list string) : GitM () :=
  match names with
  | [] => mret ()
  | name :: names =>
      r ← attempt (acquireGitLock name);
      match r with
      | Ok _ => acquireAll (taken ++ [name]) names
      | Err _ => _ ← releaseAll taken; failing "Git changed or is busy before publication"
      end
  end.

(** The names of the locks held; releasing them is [releaseAll]. *)
Definition AcquireGitRevisionLock (root expectedRevision : string) : GitM (list string) :=
  headRef ← symbolicHead false;
  indexPath ← resolveGitPath root "index";
  headPath ← resolveGitPath root "HEAD";
  refPath ← resolveGitPath root headRef;
  _ ← on_ (MakeDirectoryOf refPath);
  let names := [indexPath +:+ ".lock"; headPath +:+ ".lock"; refPath +:+ ".lock"] in
  _ ← acquireAll [] names;
  confirmed ← attempt (symbolicHead false);
  if match confirmed with Ok confirmed => bool_decide (confirmed = headRef) | Err _ => false end then
    asserted ← attempt (AssertGitRevision false expectedRevision);
    match asserted with
    | Ok _ => mret names
    | Err e => _ ← releaseAll names; failing e
    end
  else _ ← releaseAll names; failing "Git branch changed before publication".

Definition AcquireWorkspaceLock : GitM () :=
  name ← onOne (PathOf ".snailmail/workspace.lock");
  _ ← on_ (MakeDirectoryOf name);
  locked ← doing FlockWorkspace;
  failing_when (match locked with inr _ => false | inl _ => true end) "another snailmail workspace operation is running".

(** ** Committing the ledgers *)

Definition copyGitIndex (indexPath : string) : GitM string :=
  content ← onOne (ReadAll indexPath);
  name ← onOne (CreateBeside indexPath);
  written ← doing (WriteAll name content);
  match written with
  | inr _ => mret name
  | inl _ => _ ← releaseLock name; failing "file system"
  end.

Definition restoreGitIndex {A : Type} (backup indexPath cause : string) : GitM A :=
  renamed ← doing (RenameTo backup indexPath);
  match renamed with
  | inl _ => failing (cause +:+ "; restore Git index")
  | inr _ =>
      synced ← doing (SyncDirectoryOf indexPath);
      failing (match synced with inr _ => cause | inl _ => cause +:+ "; persist restored Git index" end)
  end.

(** One ledger of the tree has the bytes of the worktree. *)
Definition validateTreeFile (tree treePath : string) : GitM () :=
  prefix ← gitPrefix;
  match relativeTo prefix treePath with
  | None => failing "prepared publication path is outside workspace"
  | Some relative =>
      name ← onOne (PathOf relative);
      content ← onOne (ReadAll name);
      expectedBlob ← gitHashObject content;
      actualBlob ← attempt (gitOutput ["rev-parse"; tree +:+ ":" +:+ treePath]);
      failing_when (match actualBlob with Ok actualBlob => negb (bool_decide (actualBlob = expectedBlob)) | Err _ => true end)
        "prepared publication ledger does not match worktree bytes"
  end.
Definition validatePublicationTree (baseRevision tree : string) (expectedPaths : gset string) : GitM () :=
  changed ← gitPathOutput ["diff"; "--name-only"; "-z"; baseRevision; tree; "--"];
  _ ← failing_when (negb (samePaths changed expectedPaths)) "prepared publication tree changed an unexpected ledger set";
  _ ← traversing (validateTreeFile tree) (elements expectedPaths);
  mret ().

(** The workspace is at the base commit and clean but for the ledgers, under the lock. *)
Definition confirmBase (headRef baseRevision : string) (repositories : list string) : GitM (gset string) :=
  confirmedRef ← attempt (symbolicHead false);
  _ ← failing_when (match confirmedRef with Ok ref => negb (bool_decide (ref = headRef)) | Err _ => true end) "Git branch changed before ledger commit";
  confirmed ← attempt headRevision;
  _ ← failing_when (match confirmed with Ok revision => negb (bool_decide (revision = baseRevision)) | Err _ => true end)
        "stale plan: Git changed before ledger commit";
  authoritative ← authoritativePaths;
  status ← gitStatusOutput;
  let allowedLedgers := publicationWorkspacePaths repositories in
  _ ← lifting (validateGitStatus status allowedLedgers authoritative);
  _ ← requireAuthoritativeFilesCommitted false baseRevision authoritative allowedLedgers;
  expectedPaths ← publicationGitPaths repositories;
  stagedPaths ← gitPathOutput ["diff"; "--cached"; "--name-only"; "-z"; baseRevision; "--"];
  _ ← failing_when (negb (forallb (λ name, bool_decide (name ∈ expectedPaths)) stagedPaths)) "Git index changed before ledger commit";
  mret expectedPaths.

Definition normalizeFlags (index relative : string) : GitM () :=
  tracked ← gitOutputEnv index ["ls-files"; "--"; relative];
  if bool_decide (tracked = "") then mret ()
  else _ ← gitOutputEnv index ["update-index"; "--no-assume-unchanged"; "--no-skip-worktree"; "--"; relative]; mret ().

(** The commit, made with an index of its own. *)
Definition createLedgerCommit (index planID baseRevision : string) (repositories : list string) (expectedPaths : gset string) : GitM string :=
  _ ← traversing (λ repository, normalizeFlags index (ledgerPath repository)) repositories;
  _ ← gitOutputEnv index (["add"; "--"] ++ (ledgerPath <$> repositories));
  tree ← gitOutputEnv index ["write-tree"];
  _ ← validatePublicationTree baseRevision tree expectedPaths;
  _ ← on_ (SyncAll index);
  output ← git (Some index) ["commit-tree"; tree; "-p"; baseRevision] (publicationMessageFor planID);
  mret (TrimSpace output).

Definition updateRef (ref new old : string) : list string := ["update-ref"; ref; new; old].

Definition rollbackLedgerCommit (indexPath backup headRef baseRevision commit : string) : GitM string :=
  rolledBack ← attempt (gitRun (updateRef headRef baseRevision commit));
  match rolledBack with
  | Err _ => failing "Git branch changed during ledger commit and rollback failed"
  | Ok _ => restoreGitIndex backup indexPath "Git branch changed during ledger commit"
  end.

(** The index and the branch follow; the branch only as a compare-and-swap. *)
Definition installLedgerCommit (indexPath backup temporary headRef baseRevision commit : string) : GitM string :=
  _ ← on_ (RenameTo temporary indexPath);
  synced ← doing (SyncDirectoryOf indexPath);
  match synced with
  | inl _ => restoreGitIndex backup indexPath "persist publication ledger index"
  | inr _ =>
      updated ← attempt (gitRun (updateRef headRef commit baseRevision));
      match updated with
      | Err _ => restoreGitIndex backup indexPath "commit publication ledger with compare-and-swap"
      | Ok _ =>
          confirmedRef ← attempt (symbolicHead false);
          confirmedHead ← attempt headRevision;
          match confirmedRef, confirmedHead with
          | Ok ref, Ok head =>
              if bool_decide (ref = headRef) && bool_decide (head = commit) then mret commit
              else rollbackLedgerCommit indexPath backup headRef baseRevision commit
          | _, _ => rollbackLedgerCommit indexPath backup headRef baseRevision commit
          end
      end
  end.

Definition CommitPublicationLedgers (root planID baseRevision : string) (repositories : list string) : GitM string :=
  if bool_decide (repositories = []) then mret baseRevision
  else
    headRef ← symbolicHead false;
    current ← attempt headRevision;
    _ ← failing_when (match current with Ok current => negb (bool_decide (current = baseRevision)) | Err _ => true end)
          "stale plan: Git changed before ledger commit";
    indexPath ← resolveGitPath root "index";
    acquired ← attempt (acquireGitLock (indexPath +:+ ".lock"));
    _ ← failing_when (match acquired with Ok _ => false | Err _ => true end) "Git index is busy";
    deferring (releaseLock (indexPath +:+ ".lock")) (
      expectedPaths ← confirmBase headRef baseRevision repositories;
      backup ← copyGitIndex indexPath;
      deferring (releaseLock backup) (
        temporary ← copyGitIndex indexPath;
        deferring (releaseLock temporary) (
          commit ← createLedgerCommit temporary planID baseRevision repositories expectedPaths;
          installLedgerCommit indexPath backup temporary headRef baseRevision commit))).

(** ** Reading objects, times, and a new repository *)

Definition catFileBatch (ctx : bool) (revspecs : list string) : GitM (list batchObject) :=
  if bool_decide (revspecs = []) then mret []
  else
    output ← batch ctx ["cat-file"; "--batch"] (withNewline revspecs) "read Git objects";
    match readCatFileBatch (length revspecs) output with
    | Ok objects => mret objects
    | Err e => _ ← checkContext ctx; failing e
    end.

Definition DesiredStateTime : GitM Z :=
  value ← gitOutput ["log"; "-1"; "--format=%cI"; "--"; "snailmail.toml"; "repos"];
  _ ← failing_when (bool_decide (TrimSpace value = "")) "desired state has not been committed";
  lifting (match ParseRFC3339 (TrimSpace value) with Some t => Ok t | None => Err "desired state commit has an invalid timestamp" end).

Definition answers (m : GitM string) : GitM bool := r ← attempt m; mret (is_ok r).
Definition IsGitRepository : GitM bool := answers (gitOutput ["rev-parse"; "--git-dir"]).
Definition HasCommit : GitM bool := answers headRevision.
Definition HasGitIdentity : GitM bool := answers (gitOutput ["var"; "GIT_COMMITTER_IDENT"]).
Definition CreateGitRepository : GitM () := gitRun ["init"; "-b"; "main"].
Definition CommitAll (message : string) : GitM () := _ ← gitRun ["add"; "-A"]; gitRun ["commit"; "-m"; message].
End state.
