(* ===== verification/GitStateProofs.v ===== *)
(** What the operations of [internal/state/git.go] do to a branch and to locks, whatever
    Git and the file system answer, and which histories they accept.

    [post m Q]: in every run of [m] the requests made and the result satisfy [Q].  What is
    used of Git is stated as laws about its answers ([GitLaws]). *)

From S2P Require Import Prelude GoStrings GoSlices Model Formats Source Lock JsonStrict PlanJson Manifest ManifestOps FileSystem GitText GitState.

Open Scope Z_scope.

(** ** Git *)

(** The objects of a repository, which never change, and where the workspace and the files
    of Git are. *)
Class GitObjects := {
  (** The files of a commit or a tree, by mode and name of the blob, and its submodules. *)
  filesOf : string → gmap string (string * string);
  (** A commit: its tree, its parents, its message. *)
  commitOf : string → option (string * list string * string);
  blobOf : string → string;
  isTree : string → bool;
  (** A full object name, which stands for one object at all times. *)
  isName : string → Prop;
  workspacePrefix : string;
  gitPath : string → string;
}.

(** The paths at which two trees differ. *)
Definition differing `{GitObjects} (a b : string) (p : string) : Prop := filesOf a !! p ≠ filesOf b !! p.

Definition diffCall (base tree : string) : GitCall := mkGitCall None ["diff"; "--name-only"; "-z"; base; tree; "--"] "".
Definition changedCall (revision : string) : GitCall :=
  mkGitCall None ["diff-tree"; "--no-commit-id"; "--name-only"; "-r"; "-z"; revision] "".
Definition pathCall (name : string) : GitCall := mkGitCall None ["rev-parse"; "--git-path"; name] "".

(** A difference [git diff] may leave out: a file that is gone, which it lists under its
    new name where it takes it for renamed, and a submodule. *)
Definition unlisted `{GitObjects} (tree p : string) : Prop :=
  filesOf tree !! p = None ∨ ∃ id, filesOf tree !! p = Some ("160000", id).

Record GitLaws `{GitObjects} (o : GitOracle) : Prop := mkGitLaws {
  law_prefix : ∀ h out, runs o h (mkGitCall None ["rev-parse"; "--show-prefix"] "") = Printed out → TrimSpace out = workspacePrefix;
  law_path : ∀ h name out, runs o h (pathCall name) = Printed out → TrimSpace out = gitPath name;
  law_diff : ∀ h base tree out p, isName base → isName tree → runs o h (diffCall base tree) = Printed out → p ∈ pathRecords out → differing base tree p;
  law_diff_lists : ∀ h base tree out p, isName base → isName tree → runs o h (diffCall base tree) = Printed out →
    differing base tree p → p ∈ pathRecords out ∨ unlisted tree p;
  law_commit : ∀ h index tree parent message out, isName tree → isName parent →
    runs o h (mkGitCall index ["commit-tree"; tree; "-p"; parent] message) = Printed out →
    commitOf (TrimSpace out) = Some (tree, [parent], message);
  (** No blob has the name of a tree. *)
  law_hash : ∀ h content out, runs o h (mkGitCall None ["hash-object"; "--stdin"] content) = Printed out →
    TrimSpace out = blobOf content ∧ isTree (blobOf content) = false;
  law_tree : ∀ h index out, runs o h (mkGitCall index ["write-tree"] "") = Printed out → isName (TrimSpace out);
  law_head : ∀ h out, runs o h (mkGitCall None ["rev-parse"; "HEAD"] "") = Printed out → isName (TrimSpace out);
  (** A path of a tree names a file or a directory of it. *)
  law_entry : ∀ h tree p out, isName tree → runs o h (mkGitCall None ["rev-parse"; tree +:+ ":" +:+ p] "") = Printed out →
    (∃ mode, filesOf tree !! p = Some (mode, TrimSpace out)) ∨ isTree (TrimSpace out) = true;
  law_parent : ∀ h revision out, isName revision → runs o h (mkGitCall None ["rev-parse"; revision +:+ "^"] "") = Printed out →
    isName (TrimSpace out) ∧ ∃ tree parents message, commitOf revision = Some (tree, TrimSpace out :: parents, message);
  law_message : ∀ h revision out, isName revision → runs o h (mkGitCall None ["log"; "-1"; "--format=%B"; revision] "") = Printed out →
    ∃ tree parents message, commitOf revision = Some (tree, parents, message) ∧ TrimSpace out = TrimSpace message;
  (** A commit with one parent is compared with it; any other is not.  [git diff-tree] looks
      for no renames. *)
  law_changed : ∀ h revision out p, isName revision → runs o h (changedCall revision) = Printed out → p ∈ pathRecords out →
    ∃ tree parent message, commitOf revision = Some (tree, [parent], message);
  law_changed_paths : ∀ h revision out p tree parent message, isName revision → runs o h (changedCall revision) = Printed out →
    commitOf revision = Some (tree, [parent], message) → p ∈ pathRecords out ↔ differing parent tree p;
}.

(** ** Events *)

(** What changes the index or a branch, and whether it was acknowledged. *)
Inductive Effect := Moved (from to : string) (done : bool) | Updated (ref new old : string) (done : bool).
Definition effectOf (e : GitEvent) : option Effect :=
  match e with
  | Ran call answer =>
      match call_Arguments call with
      | [command; ref; new; old] =>
          if bool_decide (command = "update-ref") then Some (Updated ref new old match answer with Printed _ => true | _ => false end) else None
      | _ => None
      end
  | Did (RenameTo from to) answer => Some (Moved from to match answer with inr _ => true | inl _ => false end)
  | _ => None
  end.
Definition effects (events : GitEvents) : list Effect := omap effectOf events.

(** The locks this process holds. *)
Definition lockStep (held : list string) (e : GitEvent) : list string :=
  match e with
  | Did (CreateExclusive name) (inr _) => held ++ [name]
  | Did (RemoveFile name) _ => filter (λ n, n ≠ name) held
  | _ => held
  end.
Definition held (before : list string) (events : GitEvents) : list string := foldl lockStep before events.

(** Neither an effect nor a change of locks. *)
Definition harmless (e : GitEvent) : Prop := effectOf e = None ∧ ∀ locks, lockStep locks e = locks.

Lemma harmless_effects events : Forall harmless events → effects events = [].
Proof. induction 1 as [|e events [He _] _ IH]; [done|]. cbn. by rewrite He. Qed.
Lemma harmless_held events : Forall harmless events → ∀ locks, held locks events = locks.
Proof. induction 1 as [|e events [_ He] _ IH]; [done|]. intros locks. cbn. by rewrite He. Qed.
Lemma effects_app a b : effects (a ++ b) = effects a ++ effects b.
Proof. apply omap_app. Qed.
Lemma locks_app a b locks : held locks (a ++ b) = held (held locks a) b.
Proof. apply foldl_app. Qed.

(** ** The logic *)

Section logic.
Context `{GitObjects}.

(** What is remembered of the layout is how it is. *)
Definition layoutAnswer (question : string) (answer : GitAnswer) : Prop :=
  ∀ out, answer = Printed out →
    (question = "show-prefix" → out = workspacePrefix) ∧ ∀ name, question = "git-path" +:+ nul +:+ name → out = gitPath name.
Definition remembers (s : GitRun) : Prop := ∀ question answer, run_layout s !! question = Some answer → layoutAnswer question answer.
Definition post {A : Type} (m : GitM A) (Q : GitEvents → result A → Prop) : Prop :=
  ∀ s, remembers s → remembers (m s).1 ∧ ∃ events, run_events (m s).1 = run_events s ++ events ∧ Q events (m s).2.

Lemma post_mono {A : Type} (m : GitM A) (P Q : GitEvents → result A → Prop) : post m P → (∀ events r, P events r → Q events r) → post m Q.
Proof. intros Hm HPQ s Hs. destruct (Hm s Hs) as (Hs' & events & He & HP). eauto 10. Qed.
(** A run has one sequence of requests. *)
Lemma post_and {A : Type} (m : GitM A) (P Q : GitEvents → result A → Prop) : post m P → post m Q → post m (λ events r, P events r ∧ Q events r).
Proof.
  intros HP HQ s Hs. destruct (HP s Hs) as (Hs' & events & He & Hp), (HQ s Hs) as (_ & events' & He' & Hq). split; [done|].
  exists events. split_and!; [done..|]. rewrite He in He'. by apply app_inv_head in He' as ->.
Qed.
Lemma post_lifting {A : Type} (r : result A) (Q : GitEvents → result A → Prop) : Q [] r → post (lifting r) Q.
Proof. intros HQ s Hs. split; [done|]. exists []. by rewrite app_nil_r. Qed.
Lemma post_bind {A B : Type} (m : GitM A) (f : A → GitM B) (P : GitEvents → result A → Prop) (Q : GitEvents → result B → Prop) :
  post m P → (∀ events e, P events (Err e) → Q events (Err e)) →
  (∀ events a, P events (Ok a) → post (f a) (λ events' r, Q (events ++ events') r)) → post (m ≫= f) Q.
Proof.
  intros Hm He Hf s Hs. destruct (Hm s Hs) as (Hs' & events & Hev & HP).
  unfold mbind, GitM_bind. destruct (m s) as [s' [a|e]]; cbn in *; [|eauto 10].
  destruct (Hf events a HP s' Hs') as (Hs'' & events' & Hev' & HQ). split; [done|]. exists (events ++ events').
  split; [|done]. by rewrite Hev', Hev, app_assoc.
Qed.
Lemma post_attempt {A : Type} (m : GitM A) (Q : GitEvents → result (result A) → Prop) : post m (λ events r, Q events (Ok r)) → post (attempt m) Q.
Proof. intros Hm s Hs. specialize (Hm s Hs). unfold attempt. by destruct (m s) as [s' r]. Qed.
Lemma post_deferring {A B : Type} (final : GitM B) (m : GitM A) (P Q : GitEvents → result A → Prop) :
  post m P → (∀ events r, P events r → post final (λ events' _, Q (events ++ events') r)) → post (deferring final m) Q.
Proof.
  intros Hm Hf s Hs. destruct (Hm s Hs) as (Hs' & events & Hev & HP). unfold deferring. destruct (m s) as [s' r]; cbn in *.
  destruct (Hf events r HP s' Hs') as (Hs'' & events' & Hev' & HQ). split; [done|]. exists (events ++ events').
  split; [|done]. by rewrite Hev', Hev, app_assoc.
Qed.
Lemma post_running o call (Q : GitEvents → result GitAnswer → Prop) :
  (∀ h, Q [Ran call (runs o h call)] (Ok (runs o h call))) → post (running o call) Q.
Proof. intros HQ s Hs. split; [done|]. by eexists [_]. Qed.
Lemma post_doing o call (Q : GitEvents → result (Errno + list string) → Prop) :
  (∀ answer, Q [Did call answer] (Ok answer)) → post (doing o call) Q.
Proof. intros HQ s Hs. split; [done|]. by eexists [_]. Qed.
Lemma post_context o ctx (Q : GitEvents → result () → Prop) :
  (∀ b, Q [Cancelled b] (if b then Err "context canceled" else Ok ())) → Q [] (Ok ()) → post (checkContext o ctx) Q.
Proof.
  intros HQ Hn s Hs. unfold checkContext. destruct ctx; (split; [done|]); [by eexists [_] | exists []; by rewrite app_nil_r].
Qed.

(** ** Computations that only look *)

Definition yields {A : Type} (m : GitM A) (phi : A → Prop) : Prop :=
  post m (λ events r, Forall harmless events ∧ match r with Ok a => phi a | Err _ => True end).

Lemma yields_mono {A : Type} (m : GitM A) (phi psi : A → Prop) : yields m phi → (∀ a, phi a → psi a) → yields m psi.
Proof. intros Hm Hphi. eapply post_mono; [exact Hm|]. intros events [a|e] [He Ha]; auto. Qed.
Lemma yields_return {A : Type} (a : A) (phi : A → Prop) : phi a → yields (mret a) phi.
Proof. intros Ha. by apply (post_lifting (Ok a)). Qed.
Lemma yields_failing {A : Type} e (phi : A → Prop) : yields (failing e) phi.
Proof. by apply (post_lifting (Err e)). Qed.
Lemma yields_lifting {A : Type} (r : result A) (phi : A → Prop) : (∀ a, r = Ok a → phi a) → yields (lifting r) phi.
Proof. intros Hr. apply post_lifting. split; [done|]. destruct r; auto. Qed.
Lemma yields_failing_when b e (phi : () → Prop) : (b = false → phi ()) → yields (failing_when b e) phi.
Proof. destruct b; intros Hphi; [apply yields_failing | by apply yields_return, Hphi]. Qed.
Lemma yields_step {A B : Type} (m : GitM A) (f : A → GitM B) (phi : A → Prop) (psi : B → Prop) :
  yields m phi → (∀ a, phi a → yields (f a) psi) → yields (m ≫= f) psi.
Proof.
  intros Hm Hf. eapply post_bind; [exact Hm | by intros events e [? _] |]. intros events a [He Ha].
  eapply post_mono; [apply (Hf a Ha)|]. intros events' r [He' Hr]. split; [by apply Forall_app|done].
Qed.
Lemma yields_attempt {A : Type} (m : GitM A) (phi : A → Prop) (psi : result A → Prop) :
  yields m phi → (∀ a, phi a → psi (Ok a)) → (∀ e, psi (Err e)) → yields (attempt m) psi.
Proof. intros Hm Ha He. apply post_attempt. eapply post_mono; [exact Hm|]. intros events [a|e] [Hev Hr]; auto. Qed.
Lemma yields_traversing {A B : Type} (f : A → GitM B) (good : A → B → Prop) l :
  (∀ x, yields (f x) (good x)) → yields (traversing f l) (Forall2 good l).
Proof.
  intros Hf. induction l as [|x l IH]; [by apply yields_return, Forall2_nil|]. cbn [traversing].
  eapply yields_step; [apply Hf|]. intros y Hy. eapply yields_step; [exact IH|]. intros ys Hys. apply yields_return. by constructor.
Qed.
Lemma yields_context o ctx : yields (checkContext o ctx) (λ _, True).
Proof. apply post_context; [intros b; split; [by repeat constructor|by destruct b] | done]. Qed.
Lemma yields_running o call : match call_Arguments call with command :: _ => command ≠ "update-ref" | [] => True end →
  yields (running o call) (λ answer, ∃ h, answer = runs o h call).
Proof.
  intros Hc. apply post_running. intros h. split; [|eauto]. repeat constructor. cbn.
  destruct (call_Arguments call) as [|command [|ref [|new [|old [|]]]]]; try done. by rewrite bool_decide_eq_false_2.
Qed.

(** Calls on files that touch no lock. *)
Definition lookCall (call : FileCall) : Prop := match call with CreateExclusive _ | RemoveFile _ | RenameTo _ _ => False | _ => True end.
Lemma look_harmless call answer : lookCall call → harmless (Did call answer).
Proof. intros Hc. split; [|intros locks]; by destruct call. Qed.
Lemma yields_doing o call : lookCall call → yields (doing o call) (λ _, True).
Proof. intros Hc. apply post_doing. intros answer. split; [|done]. by apply Forall_singleton, look_harmless. Qed.
Lemma yields_on o call : lookCall call → yields (on o call) (λ _, True).
Proof. intros Hc. eapply yields_step; [by apply yields_doing|]. intros answer _. by apply yields_lifting. Qed.
Lemma yields_onOne o call : lookCall call → yields (onOne o call) (λ _, True).
Proof. intros Hc. eapply yields_step; [by apply yields_on|]. intros l _. by apply yields_lifting. Qed.
Lemma yields_on_ o call : lookCall call → yields (on_ o call) (λ _, True).
Proof. intros Hc. eapply yields_step; [by apply yields_on|]. intros l _. by apply yields_return. Qed.

Lemma yields_git o index arguments input : match arguments with command :: _ => command ≠ "update-ref" | [] => True end →
  yields (git o index arguments input) (λ output, ∃ h, runs o h (mkGitCall index arguments input) = Printed output).
Proof.
  intros Hc. eapply yields_step; [by apply yields_running|]. intros answer [h ->]. apply yields_lifting. intros output Ho.
  exists h. destruct (runs o h _); [|done..]. cbn in Ho. by simplify_eq.
Qed.
Lemma yields_gitOutput o arguments : match arguments with command :: _ => command ≠ "update-ref" | [] => True end →
  yields (gitOutput o arguments) (λ output, ∃ h out, runs o h (mkGitCall None arguments "") = Printed out ∧ output = TrimSpace out).
Proof. intros Hc. eapply yields_step; [by apply yields_git|]. intros out [h Hh]. apply yields_return. eauto. Qed.
Lemma yields_gitPaths o arguments : match arguments with command :: _ => command ≠ "update-ref" | [] => True end →
  yields (gitPathOutput o arguments) (λ l, ∃ h out, runs o h (mkGitCall None arguments "") = Printed out ∧ l = pathRecords out).
Proof. intros Hc. eapply yields_step; [by apply yields_git|]. intros out [h Hh]. apply yields_return. eauto. Qed.
End logic.

(** What a run that only looks has seen. *)
Definition finds `{GitObjects} {A : Type} (m : GitM A) (phi : GitEvents → A → Prop) : Prop :=
  post m (λ events r, Forall harmless events ∧ match r with Ok a => phi events a | Err _ => True end).
Lemma finds_bind `{GitObjects} {A B : Type} (m : GitM A) (f : A → GitM B) (phi : GitEvents → A → Prop) (psi : GitEvents → B → Prop) :
  finds m phi → (∀ events a, phi events a → finds (f a) (λ events' b, psi (events ++ events') b)) → finds (m ≫= f) psi.
Proof.
  intros Hm Hf. eapply post_bind; [exact Hm | by intros events e [? _] |]. intros events a [He Ha].
  eapply post_mono; [apply (Hf events a Ha)|]. intros events' r [He' Hr]. split; [by apply Forall_app|done].
Qed.
Lemma finds_yields `{GitObjects} {A : Type} (m : GitM A) (phi : A → Prop) : yields m phi → finds m (λ _ a, phi a).
Proof. done. Qed.
Lemma finds_ret `{GitObjects} {A : Type} (a : A) (phi : GitEvents → A → Prop) : phi [] a → finds (mret a) phi.
Proof. intros Ha. by apply (post_lifting (Ok a)). Qed.
Lemma finds_failing_when `{GitObjects} b e (phi : GitEvents → () → Prop) : (b = false → phi [] ()) → finds (failing_when b e) phi.
Proof. destruct b; intros Hphi; [by apply (post_lifting (Err e)) | by apply finds_ret, Hphi]. Qed.
(** Looking first and then finding. *)
Lemma finds_after `{GitObjects} {A B : Type} (m : GitM A) (f : A → GitM B) (phi : A → Prop) (psi : GitEvents → B → Prop) :
  yields m phi → (∀ events events' b, psi events' b → psi (events ++ events') b) → (∀ a, phi a → finds (f a) psi) → finds (m ≫= f) psi.
Proof.
  intros Hm Hpsi Hf. eapply finds_bind; [apply finds_yields, Hm|]. intros events a Ha.
  eapply post_mono; [apply (Hf a Ha)|]. intros events' [b|e] [He Hb]; auto.
Qed.
Lemma finds_each `{GitObjects} {A : Type} (f : A → GitM ()) (good : GitEvents → A → Prop) l :
  (∀ before events after x, good events x → good (before ++ events ++ after) x) → (∀ x, finds (f x) (λ events _, good events x)) →
  finds (traversing f l) (λ events _, Forall (good events) l).
Proof.
  intros Hgood Hf. induction l as [|x l IH]; cbn [traversing]; [apply (post_lifting (Ok [])); by repeat constructor|].
  eapply finds_bind; [apply Hf|]. intros events [] Hx. eapply finds_bind; [exact IH|]. intros events' ys Hl.
  apply (post_lifting (Ok (() :: ys))). split; [done|]. rewrite app_nil_r. constructor; [exact (Hgood [] events events' x Hx)|].
  eapply Forall_impl; [exact Hl|]. intros y Hy. specialize (Hgood events events' [] y Hy). by rewrite app_nil_r in Hgood.
Qed.

(** What a call on files answered. *)
Definition answered (events : GitEvents) (call : FileCall) (x : string) : Prop :=
  ∃ l, Did call (inr l) ∈ events ∧ match l with y :: _ => y | [] => "" end = x.
Lemma answered_app before events after call x : answered events call x → answered (before ++ events ++ after) call x.
Proof. intros (l & Hl & Hx). exists l. rewrite !elem_of_app. auto. Qed.
Lemma answered_left events after call x : answered events call x → answered (events ++ after) call x.
Proof. exact (answered_app [] events after call x). Qed.
Lemma answered_right before events call x : answered events call x → answered (before ++ events) call x.
Proof. intros Ha. rewrite <- (app_nil_r events). by apply answered_app. Qed.

Lemma finds_onOne `{GitObjects} o call : lookCall call → finds (onOne o call) (λ events x, answered events call x).
Proof.
  intros Hc. unfold onOne, on. eapply (post_bind _ _ (λ events r, Forall harmless events ∧ match r with Ok l => Did call (inr l) ∈ events | Err _ => True end)).
  - eapply (post_bind _ _ (λ events r, Forall harmless events ∧ match r with Ok answer => Did call answer ∈ events | Err _ => True end)).
    + apply post_doing. intros answer. split; [by apply Forall_singleton, look_harmless | by left].
    + by intros events e [? _].
    + intros events answer [He Ha]. apply post_lifting. rewrite app_nil_r. by destruct answer.
  - by intros events e [? _].
  - intros events l [He Hl]. apply post_lifting. rewrite app_nil_r. split; [done|]. destruct l as [|x l]; by eexists.
Qed.

Create HintDb yields.
#[export] Hint Resolve yields_return yields_failing yields_context : yields.
#[export] Hint Extern 1 (yields (doing _ _) _) => by apply yields_doing : yields.
#[export] Hint Extern 1 (yields (on _ _) _) => by apply yields_on : yields.
#[export] Hint Extern 1 (yields (on_ _ _) _) => by apply yields_on_ : yields.
#[export] Hint Extern 1 (yields (onOne _ _) _) => by apply yields_onOne : yields.

(** A step whose value does not matter. *)
Ltac ystep := eapply (yields_step _ _ (λ _, True)); [|intros ? _].

(** ** What is asked *)

Section asking.
Context `{NetLib, HashLib, ManifestLib, TimeLib, !GitObjects} (o : GitOracle) (laws : GitLaws o).

Lemma yields_weaken {A : Type} (m : GitM A) (phi : A → Prop) : yields m phi → yields m (λ _, True).
Proof. intros Hm. by eapply yields_mono. Qed.
Lemma yields_status : yields (gitStatusOutput o) (λ _, True).
Proof. by eapply yields_weaken, yields_git. Qed.
Lemma yields_name : yields (headRevision o) isName.
Proof. eapply yields_mono; [by apply yields_gitOutput|]. intros revision (h & out & Hout & ->). by eapply law_head. Qed.
Lemma yields_head : yields (headRevision o) (λ _, True).
Proof. by eapply yields_weaken, yields_gitOutput. Qed.

Lemma yields_cached question ask : yields ask (layoutAnswer question) → yields (cachedGitLayout question ask) (layoutAnswer question).
Proof.
  intros Ha s Hs. unfold cachedGitLayout. destruct (run_layout s !! question) as [answer|] eqn:Hl.
  { split; [done|]. exists []. rewrite app_nil_r. split_and!; [done..|]. by apply Hs. }
  destruct (Ha s Hs) as (Hs' & events & Hev & He & Hans). destruct (ask s) as [s' [answer|e]]; cbn in *.
  - split; [|by exists events]. intros q a. cbn. destruct (decide (q = question)) as [->|Hne]; [|rewrite lookup_insert_ne by done; apply Hs'].
    rewrite lookup_insert_eq. by intros [= <-].
  - split; [done|]. by exists events.
Qed.
Lemma yields_layout question arguments :
  match arguments with command :: _ => command ≠ "update-ref" | [] => True end →
  (∀ h, layoutAnswer question (trimmed (runs o h (mkGitCall None arguments "")))) → yields (layoutOf o question arguments) (layoutAnswer question).
Proof.
  intros Hc Hans. apply yields_cached. eapply yields_step; [by apply yields_running|]. intros answer [h ->]. apply yields_return, Hans.
Qed.
Lemma yields_prefix : yields (gitPrefix o) (λ prefix, prefix = workspacePrefix).
Proof.
  unfold gitPrefix. eapply yields_step.
  - apply yields_layout; [done|]. intros h out Hout. split; [intros _|done].
    destruct (runs o h _) as [out'| |] eqn:Ea; try done. cbn in Hout. injection Hout as <-. by eapply law_prefix.
  - intros answer Ha. apply yields_lifting. intros out. destruct answer; cbn; [|done..]. intros [= <-]. by apply (Ha output).
Qed.

(** Where Git keeps a file, from the workspace at [root]. *)
Definition resolvedPath (root name : string) : string :=
  Clean (if HasPrefix (gitPath name) "/" then gitPath name else PathJoin [root; gitPath name]).
Lemma yields_resolve root name : yields (resolveGitPath o root name) (λ path, path = resolvedPath root name).
Proof.
  unfold resolveGitPath. eapply yields_step.
  - apply yields_layout; [done|]. intros h out Hout. split; [done|]. intros name' Hname.
    assert (name' = name) as -> by (cbv [nul] in Hname; cbn in Hname; by injection Hname).
    destruct (runs o h _) as [out'| |] eqn:Ea; try done. cbn in Hout. injection Hout as <-. by eapply law_path.
  - intros answer Ha. eapply (yields_step _ _ (λ resolved, resolved = gitPath name)); [|intros resolved ->; by apply yields_return].
    apply yields_lifting. intros out. destruct answer; cbn; [|done..]. intros [= <-]. by apply (proj2 (Ha output eq_refl) name).
Qed.

Lemma yields_symbolic ctx : yields (symbolicHead o ctx) (λ _, True).
Proof.
  unfold symbolicHead. ystep; [by eapply yields_attempt; [by apply yields_gitOutput|..]|].
  ystep; [auto with yields|]. case_match; [case_match|]; auto with yields.
Qed.
Lemma yields_complete ctx : yields (requireCompleteGitHistory o ctx) (λ _, True).
Proof.
  unfold requireCompleteGitHistory. ystep; [by eapply yields_weaken, yields_layout|]. ystep; [auto with yields|]. ystep; [by apply yields_failing_when|].
  ystep; [eapply yields_weaken, yields_cached, yields_mono; [by apply yields_running|done]|].
  case_match; [|case_match; [auto with yields|]|]; (try ystep); auto with yields; by apply yields_failing_when.
Qed.
Lemma yields_authoritative : yields (authoritativePaths o) (λ _, True).
Proof.
  unfold authoritativePaths. ystep; [auto with yields|]. ystep; [by apply yields_lifting|].
  ystep; [eapply yields_weaken, yields_traversing; intros; auto with yields | auto with yields].
Qed.
Lemma yields_batch ctx arguments input e : match arguments with command :: _ => command ≠ "update-ref" | [] => True end →
  yields (batch o ctx arguments input e) (λ _, True).
Proof.
  intros Hc. unfold batch. ystep; [by eapply yields_weaken, yields_running|]. match goal with answer : GitAnswer |- _ => destruct answer end;
    [auto with yields|..]; (ystep; [auto with yields|]); auto with yields.
Qed.
Lemma yields_committed ctx revision authoritative allowed : yields (requireAuthoritativeFilesCommitted o ctx revision authoritative allowed) (λ _, True).
Proof.
  unfold requireAuthoritativeFilesCommitted. cbv zeta. case_match; [auto with yields|].
  ystep; [eapply yields_weaken, yields_prefix|]. ystep.
  { eapply yields_weaken, (yields_traversing _ (λ _ _, True)). intros name. unfold treePathFor.
    ystep; [by apply yields_failing_when|]. ystep; [auto with yields|]. ystep; [auto with yields|].
    ystep; [by apply yields_failing_when | auto with yields]. }
  ystep; [unfold revisionBlobIDs; ystep; [by apply yields_batch | by apply yields_lifting]|].
  ystep; [by apply yields_failing_when|].
  ystep; [unfold worktreeBlobIDs; ystep; [by apply yields_batch | by apply yields_lifting]|].
  by apply yields_failing_when.
Qed.
Lemma yields_clean ctx allowed : yields (requireCleanGit o ctx allowed) (λ _, True).
Proof.
  unfold requireCleanGit. ystep; [apply yields_complete|]. ystep; [apply yields_symbolic|].
  ystep; [by eapply yields_attempt; [apply yields_head|..]|].
  ystep; [case_match; [auto with yields | ystep; auto with yields]|].
  ystep; [by eapply yields_attempt; [apply yields_status|..]|].
  ystep; [case_match; [auto with yields | ystep; auto with yields]|].
  ystep; [apply yields_authoritative|]. ystep; [by apply yields_lifting|]. ystep; [apply yields_committed|].
  ystep; [by eapply yields_attempt; [apply yields_head|..]|]. ystep; [auto with yields|]. ystep; [by apply yields_failing_when | auto with yields].
Qed.
End asking.

(** ** The ledger commit *)

Lemma samePaths_spec actual expected : samePaths actual expected = true → ∀ p, p ∈ actual ↔ p ∈ expected.
Proof.
  unfold samePaths. intros [Hs Hf]%andb_true_iff. apply Nat.eqb_eq in Hs. rewrite forallb_forall in Hf.
  set (found := list_to_set actual : gset string) in *. assert (expected ⊆ found) as Hsub.
  { intros p Hp. specialize (Hf p). rewrite <- list_elem_of_In, elem_of_elements in Hf. by apply bool_decide_eq_true in Hf. }
  assert (found = expected) as He by (symmetry; apply set_subseteq_size_eq; [done|lia]).
  intros p. rewrite <- He. unfold found. by rewrite elem_of_list_to_set.
Qed.

Section ledger.
Context `{NetLib, HashLib, ManifestLib, TimeLib, !GitObjects} (o : GitOracle) (laws : GitLaws o).

(** Where the ledgers of a plan are in the repository. *)
Definition ledgerTreePaths (repositories : list string) : gset string := list_to_set (treePathOf workspacePrefix <$> (ledgerPath <$> repositories)).

Lemma yields_treePaths paths : yields (expectedTreePaths o paths) (λ found, found = list_to_set (treePathOf workspacePrefix <$> paths)).
Proof.
  unfold expectedTreePaths. eapply yields_step.
  { apply (yields_traversing _ (λ p name, name = treePathOf workspacePrefix p)). intros p.
    eapply yields_step; [by apply yields_prefix|]. intros prefix ->. by apply yields_return. }
  intros names Hn. apply yields_return. f_equal. induction Hn; [done|]. cbn. by f_equal.
Qed.

Lemma yields_confirmBase headRef base repositories :
  yields (confirmBase o headRef base repositories) (λ expected, expected = ledgerTreePaths repositories).
Proof.
  unfold confirmBase. ystep; [by eapply yields_attempt; [apply yields_symbolic|..]|]. ystep; [by apply yields_failing_when|].
  ystep; [by eapply yields_attempt; [apply yields_head|..]|]. ystep; [by apply yields_failing_when|].
  ystep; [apply yields_authoritative|]. ystep; [apply yields_status|]. cbv zeta. ystep; [by apply yields_lifting|].
  ystep; [by apply yields_committed|]. eapply yields_step; [apply yields_treePaths|]. intros expected ->.
  ystep; [by eapply yields_weaken, yields_gitPaths|]. ystep; [by apply yields_failing_when|]. by apply yields_return.
Qed.

Lemma yields_hash content : yields (gitHashObject o content) (λ id, id = blobOf content ∧ isTree id = false).
Proof. unfold gitHashObject. eapply yields_step; [by apply yields_git|]. intros out [h Hh]. apply yields_return.
  by destruct (law_hash o laws h content out Hh) as [-> ?]. Qed.

(** The ledger at a path of the tree is the file of the worktree. *)
Definition ledgerInTree (events : GitEvents) (tree p : string) : Prop :=
  ∃ relative name content, relativeTo workspacePrefix p = Some relative ∧ answered events (PathOf relative) name ∧
    answered events (ReadAll name) content ∧ ∃ mode, filesOf tree !! p = Some (mode, blobOf content).

Lemma ledgerInTree_app before events after tree p : ledgerInTree events tree p → ledgerInTree (before ++ events ++ after) tree p.
Proof. intros (relative & name & content & Hr & Hn & Hc & Hf). exists relative, name, content. split_and!; auto using answered_app. Qed.

Lemma finds_treeFile tree p : isName tree → finds (validateTreeFile o tree p) (λ events _, ledgerInTree events tree p).
Proof.
  intros Htree. unfold validateTreeFile. eapply finds_after; [by apply yields_prefix | |].
  { intros events events' [] Hl. pose proof (ledgerInTree_app events events' [] tree p Hl) as Hl'. by rewrite app_nil_r in Hl'. }
  intros prefix ->. destruct (relativeTo workspacePrefix p) as [relative|] eqn:Hrel; [|by apply (post_lifting (Err _))].
  eapply finds_bind; [by apply finds_onOne|]. intros ev1 name Hname.
  eapply finds_bind; [by apply finds_onOne|]. intros ev2 content Hcontent.
  eapply finds_bind; [apply finds_yields, yields_hash|].
  intros ev3 expected [-> Hblob]. eapply finds_bind.
  { eapply finds_yields, (yields_attempt _ _ (λ r, ∀ out, r = Ok out → (∃ mode, filesOf tree !! p = Some (mode, out)) ∨ isTree out = true));
      [by apply yields_gitOutput | | done].
    intros actual (h & out & Hout & ->) out' [= <-]. by eapply law_entry. }
  intros ev4 actual Hactual. apply finds_failing_when. destruct actual as [actual|e]; [|done].
  intros ->%negb_false_iff%bool_decide_eq_true. destruct (Hactual _ eq_refl) as [Hfile|?]; [|congruence].
  exists relative, name, content. split_and!; [done | | | done].
  - by apply answered_left.
  - apply answered_right. by apply answered_left.
Qed.

(** A command of Git and what it printed. *)
Definition told (events : GitEvents) (index : option string) (arguments : list string) (input text : string) : Prop :=
  ∃ out, Ran (mkGitCall index arguments input) (Printed out) ∈ events ∧ TrimSpace out = text.
Lemma told_app before events after index arguments input text :
  told events index arguments input text → told (before ++ events ++ after) index arguments input text.
Proof. intros (out & Hout & Ht). exists out. rewrite !elem_of_app. auto. Qed.
Lemma told_left events after index arguments input text : told events index arguments input text → told (events ++ after) index arguments input text.
Proof. exact (told_app [] events after index arguments input text). Qed.
Lemma told_right before events index arguments input text : told events index arguments input text → told (before ++ events) index arguments input text.
Proof. intros Ht. rewrite <- (app_nil_r events). by apply told_app. Qed.

Lemma finds_git index arguments input : match arguments with command :: _ => command ≠ "update-ref" | [] => True end →
  finds (git o index arguments input) (λ events out, told events index arguments input (TrimSpace out) ∧
    ∃ h, runs o h (mkGitCall index arguments input) = Printed out).
Proof.
  intros Hc. unfold git. set (call := mkGitCall index arguments input).
  eapply (finds_bind _ _ (λ events answer, Ran call answer ∈ events ∧ ∃ h, answer = runs o h call)).
  - apply post_running. intros h. split; [|split; [by left|eauto]]. repeat constructor. cbn.
    destruct arguments as [|command [|ref [|new [|old [|]]]]]; try done. by rewrite bool_decide_eq_false_2.
  - intros events answer [Ha [h Hh]]. destruct answer; [|by apply (post_lifting (Err _))..]. apply (finds_ret output).
    rewrite app_nil_r. split; [by exists output|eauto].
Qed.
Lemma finds_gitOutput arguments : match arguments with command :: _ => command ≠ "update-ref" | [] => True end →
  finds (gitOutput o arguments) (λ events text, told events None arguments "" text).
Proof.
  intros Hc. unfold gitOutput. eapply finds_bind; [by apply finds_git|]. intros events out [Ht _]. apply finds_ret. by rewrite app_nil_r.
Qed.

(** The commit of the ledgers, made with an index of its own: on the base commit, with the
    message of the plan; every ledger of the plan is changed, to the bytes of the worktree,
    and every other file that is there is unchanged. *)
Definition isLedgerCommit (events : GitEvents) (index base planID : string) (repositories : list string) (commit : string) : Prop :=
  ∃ tree, told events (Some index) ["write-tree"] "" tree ∧
    told events (Some index) ["commit-tree"; tree; "-p"; base] (publicationMessageFor planID) commit ∧
    commitOf commit = Some (tree, [base], publicationMessageFor planID) ∧
    (∀ p, p ∈ ledgerTreePaths repositories → differing base tree p ∧ ledgerInTree events tree p) ∧
    ∀ p, differing base tree p → p ∈ ledgerTreePaths repositories ∨ unlisted tree p.

Lemma isLedgerCommit_app before events after index base planID repositories commit :
  isLedgerCommit events index base planID repositories commit → isLedgerCommit (before ++ events ++ after) index base planID repositories commit.
Proof.
  intros (tree & Hw & Ht & Hc & Hl & Hd). exists tree. split_and!; auto using told_app. intros p Hp. destruct (Hl p Hp). auto using ledgerInTree_app.
Qed.

Lemma yields_env index arguments : match arguments with command :: _ => command ≠ "update-ref" | [] => True end →
  yields (gitOutputEnv o index arguments) (λ output, ∃ h out, runs o h (mkGitCall (Some index) arguments "") = Printed out ∧ output = TrimSpace out).
Proof. intros Hc. eapply yields_step; [by apply yields_git|]. intros out [h Hh]. apply yields_return. eauto. Qed.
Lemma yields_flags index relative : yields (normalizeFlags o index relative) (λ _, True).
Proof.
  unfold normalizeFlags. ystep; [by eapply yields_weaken, yields_env|]. case_match; [auto with yields|].
  ystep; [by eapply yields_weaken, yields_env | auto with yields].
Qed.

Definition treeChecked (events : GitEvents) (base tree : string) (expected : gset string) : Prop :=
  (∀ p, p ∈ expected → differing base tree p ∧ ledgerInTree events tree p) ∧ ∀ p, differing base tree p → p ∈ expected ∨ unlisted tree p.
Lemma treeChecked_right events events' base tree expected : treeChecked events' base tree expected → treeChecked (events ++ events') base tree expected.
Proof.
  intros [Hl Hd]. split; [|done]. intros p Hp. destruct (Hl p Hp) as [? Hp']. split; [done|].
  pose proof (ledgerInTree_app events events' [] tree p Hp') as Hl'. by rewrite app_nil_r in Hl'.
Qed.

Lemma finds_tree base tree expected : isName base → isName tree →
  finds (validatePublicationTree o base tree expected) (λ events _, treeChecked events base tree expected).
Proof.
  intros Hbase Htree. unfold validatePublicationTree. eapply finds_after; [by apply yields_gitPaths|intros; by apply treeChecked_right|].
  intros changed (h & out & Hout & ->).
  eapply (finds_after _ _ (λ _, ∀ p, p ∈ pathRecords out ↔ p ∈ expected)); [|intros; by apply treeChecked_right|].
  { apply yields_failing_when. intros Hs%negb_false_iff. by apply samePaths_spec. }
  intros [] Hsame. eapply finds_bind; [apply finds_each; [|intros p; by apply finds_treeFile]|].
  { intros before events after p. apply ledgerInTree_app. }
  intros events ys Hl. apply finds_ret. rewrite app_nil_r, Forall_forall in *. split.
  - intros p Hp. split; [eapply law_diff; [done|done|done|exact Hout|by apply Hsame]|by apply Hl, elem_of_elements].
  - intros p Hp. rewrite <- Hsame. by apply (law_diff_lists o laws h base tree out p).
Qed.

Lemma finds_create index planID base repositories : isName base →
  finds (createLedgerCommit o index planID base repositories (ledgerTreePaths repositories))
    (λ events commit, isLedgerCommit events index base planID repositories commit).
Proof.
  intros Hbase. assert (∀ (events events' : GitEvents) commit, isLedgerCommit events' index base planID repositories commit →
    isLedgerCommit (events ++ events') index base planID repositories commit) as Hmono.
  { intros events events' commit Hl. pose proof (isLedgerCommit_app events events' [] index base planID repositories commit Hl) as Hl'.
    by rewrite app_nil_r in Hl'. }
  unfold createLedgerCommit.
  eapply (finds_after _ _ (λ _, True)); [eapply yields_weaken, (yields_traversing _ (λ _ _, True)); intros; apply yields_flags | exact Hmono |]. intros _ _.
  eapply (finds_after _ _ (λ _, True)); [by eapply yields_weaken, yields_env | exact Hmono |]. intros _ _.
  unfold gitOutputEnv.
  eapply (finds_bind _ _ (λ events tree, told events (Some index) ["write-tree"] "" tree ∧ isName tree)).
  { eapply finds_bind; [by apply finds_git|]. intros events out [Ht [h Hh]]. apply finds_ret. rewrite app_nil_r. split; [done|]. by eapply law_tree. }
  intros ev1 tree [Hw Htree]. eapply finds_bind; [by apply finds_tree|]. intros ev2 [] [Hl Hd].
  eapply finds_bind; [apply finds_yields, (yields_on_ o (SyncAll index)); done|]. intros ev3 [] _.
  eapply finds_bind; [by apply finds_git|]. intros ev4 out [Ht [h Hh]]. apply finds_ret.
  exists tree. split_and!; [by apply told_left | by apply told_right, told_right, told_right, told_left | by eapply law_commit | | done].
  intros p Hp. destruct (Hl p Hp). split; [done|]. by apply ledgerInTree_app.
Qed.
End ledger.
