(* ===== verification/GitLedgerProofs.v ===== *)
(** Committing the ledgers of a plan: the index and the branch change only in one order,
    the branch only from the base commit to the ledger commit of the plan and back; and
    the locks taken are given back. *)

From S2P Require Import Prelude GoStrings GoSlices Model Formats Source Lock JsonStrict PlanJson Manifest ManifestOps FileSystem GitText GitState GitStateProofs.

Open Scope Z_scope.

(** ** Locks *)

(** No lock is taken. *)
Definition spares (e : GitEvent) : Prop := ∀ locks, lockStep locks e ⊆ locks.
Lemma harmless_spares events : Forall harmless events → Forall spares events.
Proof. intros Hall. eapply Forall_impl; [exact Hall|]. intros e [_ He] locks. by rewrite He. Qed.
Lemma spares_held events : Forall spares events → ∀ locks, held locks events ⊆ locks.
Proof.
  induction 1 as [|e events He _ IH]; intros locks; [done|]. cbn. etrans; [apply IH|]. apply He.
Qed.
Lemma spares_file call answer : (∀ name, call ≠ CreateExclusive name) → spares (Did call answer).
Proof.
  intros Hc locks. destruct call; try done; cbn.
  - by destruct (Hc name).
  - intros x. rewrite list_elem_of_filter. by intros [_ ?].
Qed.

(** The locks stay as they are. *)
Definition steady (e : GitEvent) : Prop := ∀ locks, lockStep locks e = locks.
Lemma harmless_steady events : Forall harmless events → Forall steady events.
Proof. intros Hall. eapply Forall_impl; [exact Hall|]. by intros e [_ He]. Qed.
Lemma steady_spares events : Forall steady events → Forall spares events.
Proof. intros Hall. eapply Forall_impl; [exact Hall|]. intros e He locks. by rewrite He. Qed.
Lemma steady_held events : Forall steady events → ∀ locks, held locks events = locks.
Proof. induction 1 as [|e events He _ IH]; [done|]. intros locks. cbn. by rewrite He. Qed.
Lemma steady_file call answer : match call with CreateExclusive _ | RemoveFile _ => False | _ => True end → steady (Did call answer).
Proof. intros Hc locks. by destruct call. Qed.

(** The lock is held whenever the index or a branch is changed. *)
Definition heldThroughout (lock : string) (events : GitEvents) : Prop :=
  ∀ before e after, events = before ++ e :: after → effectOf e ≠ None → lock ∈ held [] before.
Lemma effects_nil_elem events e : effects events = [] → e ∈ events → effectOf e = None.
Proof.
  intros Hn He. destruct (effectOf e) as [u|] eqn:Eu; [|done]. assert (u ∈ effects events) as Hu by (apply list_elem_of_omap; eauto).
  rewrite Hn in Hu. by apply not_elem_of_nil in Hu.
Qed.
Lemma held_throughout lock before core rest :
  effects before = [] → lock ∈ held [] before → Forall steady core → effects rest = [] → heldThroughout lock (before ++ core ++ rest).
Proof.
  intros Hb Hl Hc Hr pre e post E He. apply app_eq_inv in E as [(k & -> & Ek)|(k & -> & Ek)].
  - destruct k as [|e' k]; [by rewrite app_nil_r in Hl|]. injection Ek as <- _. destruct He. apply (effects_nil_elem _ _ Hb). apply elem_of_app. right. by left.
  - apply app_eq_inv in Ek as [(j & -> & Ej)|(j & -> & Ej)].
    + apply Forall_app in Hc as [Hk _]. by rewrite locks_app, (steady_held k Hk).
    + destruct He. apply (effects_nil_elem _ _ Hr). rewrite Ej. apply elem_of_app. right. by left.
Qed.
Lemma throughout_none lock events : effects events = [] → heldThroughout lock events.
Proof. intros Hn before e after -> He. destruct He. apply (effects_nil_elem _ _ Hn). apply elem_of_app. right. by left. Qed.

Section commit.
Context `{NetLib, HashLib, ManifestLib, TimeLib, !GitObjects} (o : GitOracle) (laws : GitLaws o).

(** The effects of a computation that neither takes nor gives back a lock. *)
Definition affects {A : Type} (m : GitM A) (Q : list Effect → result A → Prop) : Prop :=
  post m (λ events r, Forall steady events ∧ Q (effects events) r).

Lemma affects_mono {A : Type} (m : GitM A) (P Q : list Effect → result A → Prop) : affects m P → (∀ u r, P u r → Q u r) → affects m Q.
Proof. intros Hm HPQ. eapply post_mono; [exact Hm|]. intros events r [? ?]. auto. Qed.
Lemma affects_lifting {A : Type} (r : result A) (Q : list Effect → result A → Prop) : Q [] r → affects (lifting r) Q.
Proof. intros HQ. by apply post_lifting. Qed.
Lemma affects_bind {A B : Type} (m : GitM A) (f : A → GitM B) (P : list Effect → result A → Prop) (Q : list Effect → result B → Prop) :
  affects m P → (∀ u e, P u (Err e) → Q u (Err e)) → (∀ u a, P u (Ok a) → affects (f a) (λ u' r, Q (u ++ u') r)) → affects (m ≫= f) Q.
Proof.
  intros Hm He Hf. eapply post_bind; [exact Hm | by intros events e [? ?]; auto |]. intros events a [Hs Ha].
  eapply post_mono; [apply (Hf _ _ Ha)|]. intros events' r [Hs' Hr]. rewrite effects_app. split; [by apply Forall_app|done].
Qed.
Lemma affects_attempt {A : Type} (m : GitM A) (Q : list Effect → result (result A) → Prop) : affects m (λ u r, Q u (Ok r)) → affects (attempt m) Q.
Proof. intros Hm. by apply post_attempt. Qed.
Lemma affects_yields {A : Type} (m : GitM A) (phi : A → Prop) : yields m phi → affects m (λ u r, u = [] ∧ match r with Ok a => phi a | Err _ => True end).
Proof.
  intros Hm. eapply post_mono; [exact Hm|]. intros events r [He Hr]. split; [by apply harmless_steady|]. by rewrite harmless_effects.
Qed.
(** Looking, and then something with effects. *)
Lemma affects_after {A B : Type} (m : GitM A) (f : A → GitM B) (phi : A → Prop) (Q : list Effect → result B → Prop) :
  yields m phi → (∀ e, Q [] (Err e)) → (∀ a, phi a → affects (f a) Q) → affects (m ≫= f) Q.
Proof.
  intros Hm He Hf. eapply affects_bind; [by apply affects_yields | by intros u e [-> _] |]. by intros u a [-> Ha]; apply Hf.
Qed.
Lemma affects_attempted {A B : Type} (m : GitM A) (f : result A → GitM B) (phi : A → Prop) (Q : list Effect → result B → Prop) :
  yields m phi → (∀ r, match r with Ok a => phi a | Err _ => True end → affects (f r) Q) → affects (attempt m ≫= f) Q.
Proof.
  intros Hm Hf. eapply (affects_bind _ _ (λ u r, u = [] ∧ ∃ a, r = Ok a ∧ match a with Ok a => phi a | Err _ => True end)).
  - apply affects_attempt. eapply affects_mono; [by apply affects_yields|]. intros u r [-> Hr]. eauto.
  - by intros u e [_ (? & ? & _)].
  - intros u r [-> (? & [= <-] & Hr)]. by apply Hf.
Qed.

Lemma affects_rename from to : affects (doing o (RenameTo from to)) (λ u r, ∃ a, r = Ok a ∧ u = [Moved from to match a with inr _ => true | inl _ => false end]).
Proof. apply post_doing. intros answer. split; [apply Forall_singleton; by apply steady_file | eauto]. Qed.

(** What putting the index back reports, by whether the rename was acknowledged. *)
Definition restoring (cause : string) (back : bool) (e : string) : Prop :=
  if back then e = cause ∨ e = cause +:+ "; persist restored Git index" else e = cause +:+ "; restore Git index".
Lemma affects_restore {A : Type} backup indexPath cause :
  affects (A:=A) (restoreGitIndex o backup indexPath cause) (λ u r, ∃ b e, u = [Moved backup indexPath b] ∧ r = Err e ∧ restoring cause b e).
Proof.
  unfold restoreGitIndex. eapply affects_bind; [apply affects_rename | by intros u e (? & ? & _) |].
  intros u [e|l] (a & [= <-] & ->); [apply (affects_lifting (Err _)); by eexists false, _|].
  eapply (affects_bind _ _ (λ u r, u = [] ∧ ∃ a, r = Ok a)).
  - apply post_doing. intros answer. split; [apply Forall_singleton; by apply steady_file | eauto].
  - by intros u e [_ [? ?]].
  - intros u synced [-> _]. apply (affects_lifting (Err _)). eexists true, _. split_and!; [done..|]. destruct synced; [by right|by left].
Qed.

Lemma affects_update ref new old : affects (attempt (gitRun o (updateRef ref new old)))
  (λ u r, ∃ a : result (), r = Ok a ∧ u = [Updated ref new old match a with Ok _ => true | Err _ => false end]).
Proof.
  apply affects_attempt. unfold gitRun, git. set (call := mkGitCall None (updateRef ref new old) "").
  eapply (affects_bind _ _ (λ u r, ∃ a : result string, r = a ∧ u = [Updated ref new old match a with Ok _ => true | Err _ => false end])).
  - eapply (affects_bind _ _ (λ u r, ∃ a, r = Ok a ∧ u = [Updated ref new old match a with Printed _ => true | _ => false end])).
    + apply post_running. intros h. split; [by apply Forall_singleton | eauto].
    + by intros u e (? & ? & _).
    + intros u a (? & [= <-] & ->). apply affects_lifting. exists (printed a). split; [done|]. by destruct a.
  - intros u e (a & <- & ->). by exists (Err e).
  - intros u out (a & <- & ->). apply (affects_lifting (Ok ())). by exists (Ok ()).
Qed.

(** ** What is seen of the branch *)

(** The branch that is checked out. *)
Definition sawBranch (events : GitEvents) (headRef : string) : Prop :=
  told events None ["symbolic-ref"; "--quiet"; "HEAD"] "" headRef ∧ HasPrefix headRef "refs/" = true.
Lemma sawBranch_app before events after headRef : sawBranch events headRef → sawBranch (before ++ events ++ after) headRef.
Proof. intros [Ht Hp]. split; [by apply told_app|done]. Qed.

Lemma finds_attempt {A : Type} (m : GitM A) (phi : GitEvents → A → Prop) (psi : GitEvents → result A → Prop) :
  finds m phi → (∀ events a, phi events a → psi events (Ok a)) → (∀ events e, psi events (Err e)) → finds (attempt m) psi.
Proof. intros Hm Ha He. apply post_attempt. eapply post_mono; [exact Hm|]. intros events [a|e] [Hev Hr]; auto. Qed.
Lemma finds_symbolic ctx : finds (symbolicHead o ctx) sawBranch.
Proof.
  unfold symbolicHead. eapply finds_bind.
  { eapply (finds_attempt _ _ (λ events r, match r with Ok name => told events None ["symbolic-ref"; "--quiet"; "HEAD"] "" name | Err _ => True end));
      [by apply finds_gitOutput|done|done]. }
  intros events r Hr. eapply finds_bind; [apply finds_yields, yields_context|]. intros events' [] _.
  destruct r as [name|]; [|by apply (post_lifting (Err _))]. destruct (HasPrefix name "refs/") eqn:Hp; [|by apply (post_lifting (Err _))].
  apply finds_ret. split; [by apply told_left|done].
Qed.

Definition headCall : GitCall := mkGitCall None ["rev-parse"; "HEAD"] "".
Definition sawHead (events : GitEvents) (revision : string) : Prop := ∃ out, Ran headCall (Printed out) ∈ events ∧ TrimSpace out = revision.
Lemma sawHead_app before events after revision : sawHead events revision → sawHead (before ++ events ++ after) revision.
Proof. intros (out & Hout & Hr). exists out. rewrite !elem_of_app. auto. Qed.

Lemma finds_head : finds (headRevision o) sawHead.
Proof. by eapply post_mono; [by apply finds_gitOutput|]. Qed.
Lemma finds_named : finds (headRevision o) (λ events revision, sawHead events revision ∧ isName revision).
Proof.
  eapply post_mono; [apply post_and; [apply finds_head|apply (yields_name o laws)]|]. intros events [revision|e] [[He Hs] [_ Hn]]; by split.
Qed.

(** ** The order of effects *)

Section install.
Context (indexPath backup temporary headRef base commit : string).

Inductive ledgerEffects : list Effect → result string → Prop :=
| effects_none e : ledgerEffects [] (Err e)
| effects_unmoved e : ledgerEffects [Moved temporary indexPath false] (Err e)
| effects_unsynced b e : restoring "persist publication ledger index" b e →
    ledgerEffects [Moved temporary indexPath true; Moved backup indexPath b] (Err e)
| effects_refused b e : restoring "commit publication ledger with compare-and-swap" b e →
    ledgerEffects [Moved temporary indexPath true; Updated headRef commit base false; Moved backup indexPath b] (Err e)
| effects_stuck :
    ledgerEffects [Moved temporary indexPath true; Updated headRef commit base true; Updated headRef base commit false]
      (Err "Git branch changed during ledger commit and rollback failed")
| effects_undone b e : restoring "Git branch changed during ledger commit" b e →
    ledgerEffects [Moved temporary indexPath true; Updated headRef commit base true; Updated headRef base commit true; Moved backup indexPath b] (Err e)
| effects_done : ledgerEffects [Moved temporary indexPath true; Updated headRef commit base true] (Ok commit).

Lemma affects_rollback : affects (rollbackLedgerCommit o indexPath backup headRef base commit)
  (λ u r, (∃ e, r = Err e) ∧ ledgerEffects ([Moved temporary indexPath true; Updated headRef commit base true] ++ u) r).
Proof.
  unfold rollbackLedgerCommit. eapply affects_bind; [apply affects_update | by intros u e (? & ? & _) |].
  intros u [[]|e] (? & [= <-] & ->); [|apply (affects_lifting (Err _)); split; [eauto|constructor]].
  eapply affects_mono; [apply affects_restore|]. intros u r (b & e & -> & -> & He). split; [eauto|by constructor].
Qed.

Lemma affects_install : affects (installLedgerCommit o indexPath backup temporary headRef base commit) ledgerEffects.
Proof.
  unfold installLedgerCommit, on_, on.
  eapply (affects_bind _ _ (λ u r, ∃ a : result (), r = a ∧ u = [Moved temporary indexPath match a with Ok _ => true | Err _ => false end])).
  { eapply (affects_bind _ _ (λ u r, ∃ a : result (list string), r = a ∧ u = [Moved temporary indexPath match a with Ok _ => true | Err _ => false end])).
    - eapply affects_bind; [apply affects_rename | by intros u e (? & ? & _) |]. intros u a (? & [= <-] & ->).
      apply affects_lifting. exists (fileResult a). split; [done|]. by destruct a.
    - intros u e (a & <- & ->). by exists (Err e).
    - intros u l (a & <- & ->). apply (affects_lifting (Ok ())). by exists (Ok ()). }
  { intros u e (a & <- & ->). constructor. }
  intros u [] (a & <- & ->). eapply (affects_bind _ _ (λ u r, u = [] ∧ ∃ a, r = Ok a)).
  { apply post_doing. intros answer. split; [apply Forall_singleton; by apply steady_file | eauto]. }
  { by intros u e [_ [? ?]]. }
  intros u synced [-> _]. destruct synced as [e|l].
  { eapply affects_mono; [apply affects_restore|]. intros u r (b & e' & -> & -> & He). by constructor. }
  eapply affects_bind; [apply affects_update | by intros u e (? & ? & _) |]. intros u [[]|e] (? & [= <-] & ->).
  - eapply affects_attempted; [apply yields_symbolic|]. intros confirmedRef _. eapply affects_attempted; [apply yields_head|]. intros confirmedHead _.
    assert (affects (rollbackLedgerCommit o indexPath backup headRef base commit)
      (λ u r, ledgerEffects ([Moved temporary indexPath true; Updated headRef commit base true] ++ u) r)) as Hback
      by (eapply affects_mono; [apply affects_rollback|]; by intros u r [_ ?]).
    destruct confirmedRef as [ref|], confirmedHead as [head|]; try apply Hback. case_match; [|apply Hback].
    apply (affects_lifting (Ok commit)). constructor.
  - eapply affects_mono; [apply affects_restore|]. intros u r (b & e' & -> & -> & He). by constructor.
Qed.

(** The branch was moved, and then the checked-out branch and the commit on it were seen. *)
Definition confirmed (events : GitEvents) : Prop :=
  ∃ before after, events = before ++ after ∧ Updated headRef commit base true ∈ effects before ∧ sawBranch after headRef ∧ sawHead after commit.
Lemma confirmed_app before events after : confirmed events → confirmed (before ++ events ++ after).
Proof.
  intros (pre & post & -> & Hu & Hb & Hh). exists (before ++ pre), (post ++ after). split_and!.
  - by rewrite <- !app_assoc.
  - rewrite effects_app. apply elem_of_app. by right.
  - by apply (sawBranch_app []).
  - by apply (sawHead_app []).
Qed.
Definition confirms (m : GitM string) (seen : GitEvents) : Prop := post m (λ events r, is_ok r = true → confirmed (seen ++ events)).
Lemma confirms_never (m : GitM string) (Q : list Effect → result string → Prop) seen :
  affects m Q → (∀ u r, Q u r → ∃ e, r = Err e) → confirms m seen.
Proof. intros Hm HQ. eapply post_mono; [exact Hm|]. intros events r [_ Hr]. by destruct (HQ _ _ Hr) as [e ->]. Qed.

Lemma confirms_restore seen cause : confirms (restoreGitIndex o backup indexPath cause) seen.
Proof. eapply confirms_never; [apply affects_restore|]. intros u r (b & e & _ & -> & _). eauto. Qed.
Lemma confirms_updated seen : Updated headRef commit base true ∈ effects seen → confirms (
  confirmedRef ← attempt (symbolicHead o false);
  confirmedHead ← attempt (headRevision o);
  match confirmedRef, confirmedHead with
  | Ok ref, Ok head =>
      if bool_decide (ref = headRef) && bool_decide (head = commit) then mret commit
      else rollbackLedgerCommit o indexPath backup headRef base commit
  | _, _ => rollbackLedgerCommit o indexPath backup headRef base commit
  end) seen.
Proof.
  intros Hu. assert (∀ seen, confirms (rollbackLedgerCommit o indexPath backup headRef base commit) seen) as Hback.
  { intros seen'. eapply confirms_never; [apply affects_rollback|]. by intros u r [? _]. }
  eapply (post_bind _ _ (λ ev r, ∃ a, r = Ok a ∧ match a with Ok name => sawBranch ev name | Err _ => True end)).
  { apply post_attempt. eapply post_mono; [apply finds_symbolic|]. intros ev r [_ Hb]. eauto. }
  { by intros ev e (? & ? & _). }
  intros ev1 ref (? & [= <-] & Hb). eapply (post_bind _ _ (λ ev r, ∃ a, r = Ok a ∧ match a with Ok head => sawHead ev head | Err _ => True end)).
  { apply post_attempt. eapply post_mono; [apply finds_head|]. intros ev r [_ Hh]. eauto. }
  { by intros ev e (? & ? & _). }
  intros ev2 head (? & [= <-] & Hh).
  assert (post (rollbackLedgerCommit o indexPath backup headRef base commit)
    (λ events' r, is_ok r = true → confirmed (seen ++ ev1 ++ ev2 ++ events'))) as Hb'.
  { eapply post_mono; [apply (Hback (seen ++ ev1 ++ ev2))|]. intros ev3 r Hr Hok. specialize (Hr Hok). by rewrite <- !app_assoc in Hr. }
  destruct ref as [ref|], head as [head|]; try apply Hb'. destruct (_ && _) eqn:E; [|apply Hb'].
  apply andb_true_iff in E as [->%bool_decide_eq_true ->%bool_decide_eq_true]. apply (post_lifting (Ok commit)). intros _.
  exists seen, (ev1 ++ ev2). rewrite app_nil_r. split_and!; [done..|by apply (sawBranch_app [])|].
  rewrite <- (app_nil_r ev2). by apply sawHead_app.
Qed.

Lemma confirms_install : confirms (installLedgerCommit o indexPath backup temporary headRef base commit) [].
Proof.
  unfold installLedgerCommit, on_, on.
  eapply (post_bind _ _ (λ _ _, True)); [|done|intros ev1 [] _].
  { eapply (post_bind _ _ (λ _ _, True)); [|done|intros ev l _; by apply (post_lifting (Ok ()))].
    eapply (post_bind _ _ (λ _ _, True)); [by apply post_doing|done|intros ev a _; by apply post_lifting]. }
  eapply (post_bind _ _ (λ _ _, True)); [by apply post_doing|done|]. intros ev2 synced _.
  assert (∀ m ev, confirms m (ev1 ++ ev2 ++ ev) → post m (λ events r, is_ok r = true → confirmed (ev1 ++ ev2 ++ ev ++ events))) as Hgo.
  { intros m ev Hm. eapply post_mono; [exact Hm|]. intros ev' r Hr Hok. specialize (Hr Hok). by rewrite <- !app_assoc in Hr. }
  destruct synced as [e|l]; [apply (Hgo _ []), confirms_restore|].
  eapply post_bind; [apply affects_update|by intros ev e [_ (? & ? & _)]|].
  intros ev3 [[]|e] (_ & ? & [= <-] & Hu); apply Hgo; [|apply confirms_restore].
  apply confirms_updated. rewrite !effects_app, Hu, !elem_of_app. right. right. by left.
Qed.
End install.

(** ** The whole operation *)

(** A copy of the index, beside it. *)
Definition copied (events : GitEvents) (indexPath name : string) : Prop :=
  ∃ content l, answered events (ReadAll indexPath) content ∧ answered events (CreateBeside indexPath) name ∧ Did (WriteAll name content) (inr l) ∈ events.
Lemma copied_app before events after indexPath name : copied events indexPath name → copied (before ++ events ++ after) indexPath name.
Proof. intros (content & l & Hr & Hc & Hw). exists content, l. split_and!; auto using answered_app. rewrite !elem_of_app. auto. Qed.

Section whole.
Context (indexPath planID base : string) (repositories : list string).

(** One run: the effects in their order; and where there are any, the branch is the one that
    was checked out, what is put in place of the index are two copies of it, and the commit
    is the one of the plan, made with the copy that is put in place. *)
Definition ledgerRun (headRef : string) (events : GitEvents) (r : result string) : Prop :=
  ∃ backup temporary commit,
    ledgerEffects indexPath backup temporary headRef base commit (effects events) r ∧
    (is_ok r = true → confirmed headRef base commit events) ∧
    (effects events = [] ∨
     sawBranch events headRef ∧ copied events indexPath backup ∧ copied events indexPath temporary ∧
     isLedgerCommit events temporary base planID repositories commit).

Lemma ledgerRun_failed headRef events e : effects events = [] → ledgerRun headRef events (Err e).
Proof. intros He. exists "", "", "". rewrite He. split_and!; [constructor | done | by left]. Qed.
Lemma ledgerRun_app headRef events after r : effects after = [] → ledgerRun headRef events r → ledgerRun headRef (events ++ after) r.
Proof.
  intros Ha (backup & temporary & commit & Hr & Hk & Hc). exists backup, temporary, commit. rewrite effects_app, Ha, app_nil_r.
  split; [done|]. split; [intros Hok; by apply (confirmed_app _ _ _ []), Hk|]. destruct Hc as [Hc|(Hs & Hb & Ht & Hc)]; [by left|]. right.
  split_and!; [by apply (sawBranch_app [])|by apply (copied_app [])|by apply (copied_app [])|by apply (isLedgerCommit_app [])].
Qed.

(** The run goes on after [seen]: it takes no lock, and gives none back before its effects. *)
Definition covered (headRef : string) (seen events : GitEvents) (r : result string) : Prop :=
  Forall spares events ∧ (∃ core rest, events = core ++ rest ∧ Forall steady core ∧ effects rest = []) ∧ ledgerRun headRef (seen ++ events) r.

Lemma covered_failed headRef seen events e : effects seen = [] → Forall spares events → effects events = [] → covered headRef seen events (Err e).
Proof.
  intros Hn Hs He. split; [done|]. split; [by exists [], events|]. apply ledgerRun_failed. by rewrite effects_app, Hn, He.
Qed.
Lemma covers_look {A : Type} headRef seen (m : GitM A) f (phi : GitEvents → A → Prop) :
  effects seen = [] → finds m phi → (∀ events a, effects (seen ++ events) = [] → phi events a → post (f a) (covered headRef (seen ++ events))) →
  post (m ≫= f) (covered headRef seen).
Proof.
  intros Hn Hm Hf. eapply post_bind; [exact Hm | |].
  - intros events e [He _]. apply covered_failed; [done|by apply harmless_spares|by apply harmless_effects].
  - intros events a [He Ha]. eapply post_mono; [apply (Hf events a); [by rewrite effects_app, Hn, harmless_effects|done]|].
    intros events' r (Hs & (core & rest & -> & Hc & Hr) & Hrun). split; [apply Forall_app; split; [by apply harmless_spares|done]|].
    split; [|by rewrite app_assoc]. exists (events ++ core), rest. rewrite <- app_assoc. split_and!; [done| |done].
    apply Forall_app. split; [by apply harmless_steady|done].
Qed.
Lemma removes name : post (releaseLock o name) (λ events _, Forall spares events ∧ effects events = []).
Proof.
  unfold releaseLock. eapply (post_bind _ _ (λ events r, Forall spares events ∧ effects events = [] ∧ ∃ a, r = Ok a)).
  - apply post_doing. intros answer. split_and!; [apply Forall_singleton; by apply spares_file|done|eauto].
  - by intros events e (? & ? & _).
  - intros events a (Hs & He & _). apply (post_lifting (Ok ())). by rewrite app_nil_r.
Qed.
Lemma covers_deferring headRef seen name m :
  post m (covered headRef seen) → post (deferring (releaseLock o name) m) (covered headRef seen).
Proof.
  intros Hm. eapply post_deferring; [exact Hm|]. intros events r (Hs & (core & rest & -> & Hc & Hr) & Hrun). eapply post_mono; [apply removes|].
  intros events' _ [Hs' He]. split; [by apply Forall_app|]. split; [|rewrite app_assoc; by apply ledgerRun_app].
  exists core, (rest ++ events'). rewrite <- app_assoc. split_and!; [done..|]. by rewrite effects_app, Hr, He.
Qed.

Lemma copies : post (copyGitIndex o indexPath) (λ events r, Forall spares events ∧ effects events = [] ∧
  match r with Ok name => Forall harmless events ∧ copied events indexPath name | Err _ => True end).
Proof.
  assert (∀ events, Forall harmless events → Forall spares events ∧ effects events = []) as Hh
    by (intros; split; [by apply harmless_spares|by apply harmless_effects]).
  unfold copyGitIndex. eapply post_bind; [by apply finds_onOne|by intros events e [He _]; destruct (Hh _ He)|]. intros ev1 content [He1 Hc].
  eapply post_bind; [by apply finds_onOne|intros ev2 e [He2 _]; by destruct (Hh (ev1 ++ ev2) ltac:(by apply Forall_app))|]. intros ev2 name [He2 Hn].
  eapply (post_bind _ _ (λ events r, ∃ a, r = Ok a ∧ events = [Did (WriteAll name content) a])); [by apply post_doing; eauto|by intros ? ? (? & ? & _)|].
  intros ? a (? & [= <-] & ->). assert (Forall harmless (ev1 ++ ev2 ++ [Did (WriteAll name content) a])) as Hall.
  { rewrite !Forall_app. split_and!; [done..|]. by apply Forall_singleton, look_harmless. }
  destruct a as [e|l].
  - eapply post_bind; [apply removes|intros ev3 e' [Hs3 He3]|intros ev3 [] [Hs3 He3]; apply (post_lifting (Err _)); rewrite app_nil_r];
      destruct (Hh _ Hall) as [Hs He]; rewrite (app_assoc ev2), (app_assoc ev1), effects_app, He, He3; (split_and!; [by apply Forall_app|done..]).
  - apply (post_lifting (Ok name)). rewrite app_nil_r. destruct (Hh _ Hall) as [Hs He]. split_and!; [done..|]. exists content, l.
    split_and!; [by apply answered_left|by apply answered_right, answered_left|]. rewrite !elem_of_app. right. right. by left.
Qed.
Lemma covers_copy headRef seen f :
  effects seen = [] → (∀ events name, effects (seen ++ events) = [] → copied events indexPath name → post (f name) (covered headRef (seen ++ events))) →
  post (copyGitIndex o indexPath ≫= f) (covered headRef seen).
Proof.
  intros Hn Hf. eapply post_bind; [apply copies| |].
  - intros events e (Hs & He & _). by apply covered_failed.
  - intros events name (_ & He & Hh & Hc). eapply post_mono; [apply (Hf events name); [by rewrite effects_app, Hn, He|done]|].
    intros events' r (Hs & (core & rest & -> & Hst & Hr) & Hrun). split; [apply Forall_app; split; [by apply harmless_spares|done]|].
    split; [|by rewrite app_assoc]. exists (events ++ core), rest. rewrite <- app_assoc. split_and!; [done| |done].
    apply Forall_app. split; [by apply harmless_steady|done].
Qed.

Lemma covers_install headRef seen backup temporary :
  isName base → effects seen = [] → sawBranch seen headRef → copied seen indexPath backup → copied seen indexPath temporary →
  post (commit ← createLedgerCommit o temporary planID base repositories (ledgerTreePaths repositories);
        installLedgerCommit o indexPath backup temporary headRef base commit) (covered headRef seen).
Proof.
  intros Hbase Hn Hs Hb Ht. eapply post_bind; [by apply (finds_create o laws)| |].
  - intros events e [He _]. apply covered_failed; [done|by apply harmless_spares|by apply harmless_effects].
  - intros events commit [He Hc]. eapply post_mono; [apply post_and; [apply affects_install|apply confirms_install]|].
    intros events' r [[Hst Hr] Hk].
    split; [apply Forall_app; split; [by apply harmless_spares|by apply steady_spares]|].
    split; [exists (events ++ events'), []; rewrite app_nil_r, Forall_app; split_and!; [done|by apply harmless_steady|done|done]|].
    exists backup, temporary, commit. rewrite !effects_app, Hn, harmless_effects by done. split; [done|].
    split; [intros Hok; rewrite <- (app_nil_r events'), (app_assoc seen); by apply confirmed_app, Hk|]. right.
    split_and!; [by apply (sawBranch_app [])|by apply (copied_app [])|by apply (copied_app [])|by apply isLedgerCommit_app].
Qed.

Lemma covers_locked headRef seen : isName base → effects seen = [] → sawBranch seen headRef →
  post (expectedPaths ← confirmBase o headRef base repositories;
        backup ← copyGitIndex o indexPath;
        deferring (releaseLock o backup) (
          temporary ← copyGitIndex o indexPath;
          deferring (releaseLock o temporary) (
            commit ← createLedgerCommit o temporary planID base repositories expectedPaths;
            installLedgerCommit o indexPath backup temporary headRef base commit))) (covered headRef seen).
Proof.
  intros Hbase Hn Hs. eapply covers_look; [done|apply finds_yields, (yields_confirmBase o laws)|]. intros ev1 expected Hn1 ->.
  eapply covers_copy; [done|]. intros ev2 backup Hn2 Hb. apply covers_deferring.
  eapply covers_copy; [done|]. intros ev3 temporary Hn3 Ht. apply covers_deferring. apply covers_install; [done|done|..].
  - rewrite <- !app_assoc. by apply (sawBranch_app []).
  - rewrite <- app_assoc. by apply copied_app.
  - rewrite <- (app_nil_r ev3). by apply copied_app.
Qed.
End whole.

(** ** Taking locks *)

(** How a computation without effects changes the locks held. *)
Definition locking {A : Type} (m : GitM A) (Q : (list string → list string) → result A → Prop) : Prop :=
  post m (λ events r, effects events = [] ∧ Q (λ locks, held locks events) r).

Lemma locking_mono {A : Type} (m : GitM A) (P Q : (list string → list string) → result A → Prop) :
  locking m P → (∀ f r, P f r → Q f r) → locking m Q.
Proof. intros Hm HPQ. eapply post_mono; [exact Hm|]. intros events r [? ?]. auto. Qed.
Lemma locking_lifting {A : Type} (r : result A) (Q : (list string → list string) → result A → Prop) : Q (λ locks, locks) r → locking (lifting r) Q.
Proof. intros HQ. by apply post_lifting. Qed.
Lemma locking_bind {A B : Type} (m : GitM A) (k : A → GitM B) (P : (list string → list string) → result A → Prop) (Q : (list string → list string) → result B → Prop) :
  (∀ f g r, (∀ locks, f locks = g locks) → Q f r → Q g r) →
  locking m P → (∀ f e, P f (Err e) → Q f (Err e)) → (∀ f a, P f (Ok a) → locking (k a) (λ g r, Q (λ locks, g (f locks)) r)) → locking (m ≫= k) Q.
Proof.
  intros Hext Hm He Hk. eapply post_bind; [exact Hm | by intros events e [? ?]; auto |]. intros events a [Hn Ha].
  eapply post_mono; [apply (Hk _ _ Ha)|]. intros events' r [Hn' Hr]. rewrite effects_app, Hn, Hn'. split; [done|].
  eapply Hext; [|exact Hr]. intros locks. by rewrite locks_app.
Qed.
Lemma locking_yields {A : Type} (m : GitM A) (phi : A → Prop) :
  yields m phi → locking m (λ f r, (∀ locks, f locks = locks) ∧ match r with Ok a => phi a | Err _ => True end).
Proof.
  intros Hm. eapply post_mono; [exact Hm|]. intros events r [He Hr]. rewrite harmless_effects by done. split_and!; [done| |done].
  intros locks. by apply harmless_held.
Qed.

(** A release forgets the name and adds none. *)
Definition forgets (names : list string) (f : list string → list string) : Prop := ∀ locks x, x ∈ f locks → x ∈ locks ∧ x ∉ names.
Lemma locking_release name : locking (releaseLock o name) (λ f r, forgets [name] f ∧ r = Ok ()).
Proof.
  unfold releaseLock. eapply (post_bind _ _ (λ events r, effects events = [] ∧ forgets [name] (λ locks, held locks events) ∧ ∃ a, r = Ok a)).
  - apply post_doing. intros answer. split_and!; [done| |eauto]. intros locks x. cbn. rewrite list_elem_of_filter, list_elem_of_singleton.
    by intros [? ?].
  - by intros events e (_ & _ & ? & ?).
  - intros events a (He & Hf & _). apply (post_lifting (Ok ())). by rewrite app_nil_r.
Qed.
Lemma locking_releaseAll names : locking (releaseAll o names) (λ f r, forgets names f ∧ r = Ok ()).
Proof.
  unfold releaseAll. eapply (locking_bind _ _ (λ f r, forgets names f ∧ ∃ l, r = Ok l)).
  - intros f g r Hfg [Hf Hr]. split; [|done]. intros locks x. rewrite <- Hfg. apply Hf.
  - eapply (locking_mono _ (λ f r, forgets (reverse names) f ∧ ∃ l, r = Ok l)).
    + generalize (reverse names) as l. induction l as [|name l IH]; cbn [traversing].
      { apply (locking_lifting (Ok [])). split; [|eauto]. intros locks x Hx. split; [done|]. by apply not_elem_of_nil. }
      eapply locking_bind; [|apply locking_release | by intros f e [_ ?] |].
      { intros f g r Hfg [Hf Hr]. split; [|done]. intros locks x. rewrite <- Hfg. apply Hf. }
      intros f [] [Hf _]. eapply (locking_bind _ _ (λ g r, forgets l g ∧ ∃ y, r = Ok y)); [|exact IH | by intros g e [_ [? ?]] |].
      { intros g h r Hgh [Hg Hr]. split; [|done]. intros locks x. rewrite <- Hgh. apply Hg. }
      intros g ys [Hg _]. apply (locking_lifting (Ok (() :: ys))). split; [|eauto].
      intros locks x [Hx Hxl]%Hg. apply Hf in Hx as [Hx Hxn]. split; [done|]. rewrite not_elem_of_cons. split; [|done].
      intros ->. by apply Hxn, list_elem_of_singleton.
    + intros f r [Hf Hr]. split; [|done]. intros locks x [Hx Hn]%Hf. split; [done|]. by rewrite elem_of_reverse in Hn.
  - by intros f e [_ [? ?]].
  - intros f l [Hf _]. by apply (locking_lifting (Ok ())).
Qed.

Lemma post_on_ call (Q : GitEvents → result () → Prop) :
  (∀ answer, Q [Did call answer] match answer with inr _ => Ok () | inl _ => Err "file system" end) → post (on_ o call) Q.
Proof.
  intros HQ s Hs. unfold on_, on, mbind, GitM_bind, doing, lifting. cbn [fst snd].
  specialize (HQ (does_ o (run_events s) call)). destruct (does_ o (run_events s) call); (split; [done|]); by eexists [_].
Qed.

Lemma locking_doing call : lookCall call → locking (doing o call) (λ f r, (∀ locks, f locks = locks) ∧ ∃ a, r = Ok a).
Proof.
  intros Hc. apply post_doing. intros answer. destruct (look_harmless call answer Hc) as [He Hl].
  split; [by apply harmless_effects, Forall_singleton|]. split; [apply Hl | eauto].
Qed.

Definition taking (name : string) (f : list string → list string) (r : result ()) : Prop :=
  match r with Ok _ => ∀ locks, f locks = locks ++ [name] | Err _ => ∀ locks x, x ∈ f locks → x ∈ locks end.
Lemma taking_ext name f g r : (∀ locks, f locks = g locks) → taking name f r → taking name g r.
Proof. intros Hfg. destruct r; intros Hf locks; [by rewrite <- Hfg|]. intros x. rewrite <- Hfg. apply Hf. Qed.

Lemma locking_acquire name : locking (acquireGitLock o name) (taking name).
Proof.
  unfold acquireGitLock.
  eapply (locking_bind _ _ (λ f r, match r with Ok _ => ∀ locks, f locks = locks ++ [name] | Err _ => ∀ locks, f locks = locks end)).
  - apply taking_ext.
  - apply post_on_. intros [e|l]; by split.
  - intros f e Hf locks x. by rewrite Hf.
  - intros f [] Hf. eapply locking_bind; [|by apply locking_doing | by intros g e [_ [? ?]] |].
    { intros g h r Hgh. apply taking_ext. intros locks. apply Hgh. }
    intros g [e|l] [Hg _]; [|apply (locking_lifting (Ok ())); intros locks; by rewrite Hg, Hf].
    eapply locking_bind; [|apply locking_release | by intros h e' [_ ?] |].
    { intros h i r Hhi. apply taking_ext. intros locks. apply Hhi. }
    intros h [] [Hh _]. apply (locking_lifting (Err _)). intros locks x [Hx Hn]%Hh. rewrite Hg, Hf in Hx.
    by apply elem_of_app in Hx as [?|?].
Qed.

Lemma locking_acquireAll names : ∀ taken, locking (acquireAll o taken names)
  (λ f r, match r with Ok _ => ∀ locks, f locks = locks ++ names | Err _ => f taken = [] end).
Proof.
  induction names as [|name names IH]; intros taken; cbn [acquireAll].
  { apply (locking_lifting (Ok ())). intros locks. by rewrite app_nil_r. }
  eapply (locking_bind _ _ (λ f r, ∃ a, r = Ok a ∧ taking name f a)).
  - intros f g [] Hfg Hf; [intros locks|]; by rewrite <- Hfg.
  - apply post_attempt. eapply post_mono; [apply locking_acquire|]. intros events r [He Hr]. eauto.
  - by intros f e (? & ? & _).
  - intros f [[]|e] (? & [= <-] & Hf); cbn in Hf.
    + eapply locking_mono; [apply IH|]. intros g r. destruct r as [[]|e]; intros Hg; [|by rewrite Hf].
      intros locks. by rewrite Hf, Hg, <- app_assoc.
    + eapply locking_bind; [|apply locking_releaseAll | by intros g e' [_ ?] |].
      { intros g h [] Hgh Hg; [intros locks|]; by rewrite <- Hgh. }
      intros g [] [Hg _]. apply (locking_lifting (Err _)). apply elem_of_nil_inv. intros x [Hx Hn]%Hg. by apply Hn, Hf.
Qed.

(** ** The lock of a revision *)

(** What was seen stays seen. *)
Lemma finds_then {A B : Type} (m : GitM A) (f : A → GitM B) (phi : GitEvents → A → Prop) (psi : GitEvents → B → Prop) :
  finds m phi → (∀ events a, phi events a → yields (f a) (λ b, ∀ events', psi (events ++ events') b)) → finds (m ≫= f) psi.
Proof.
  intros Hm Hf. eapply finds_bind; [exact Hm|]. intros events a Ha. eapply post_mono; [apply (Hf events a Ha)|].
  intros events' [b|e] [He Hb]; auto.
Qed.

Lemma finds_clean ctx allowed : finds (requireCleanGit o ctx allowed) sawHead.
Proof.
  assert (∀ (events events' : GitEvents) revision, sawHead events' revision → sawHead (events ++ events') revision) as Hmono.
  { intros events events' revision Hs. pose proof (sawHead_app events events' [] revision Hs) as Hs'. by rewrite app_nil_r in Hs'. }
  unfold requireCleanGit. eapply finds_after; [apply yields_complete | done |]. intros [] _.
  eapply finds_after; [apply yields_symbolic | done |]. intros _ _.
  eapply finds_then; [eapply (finds_attempt _ sawHead (λ events r, match r with Ok a => sawHead events a | Err _ => True end)); [apply finds_head | done | done]|].
  intros events r Hr. eapply (yields_step _ _ (λ revision, ∀ events', sawHead (events ++ events') revision)).
  { destruct r; [|ystep; auto with yields]. apply yields_return. intros events'. by apply (sawHead_app [] events). }
  intros revision Hrev. ystep; [by eapply yields_attempt; [apply yields_status|..]|].
  ystep; [case_match; [auto with yields | ystep; auto with yields]|].
  ystep; [apply yields_authoritative|]. ystep; [by apply yields_lifting|]. ystep; [by apply yields_committed|].
  ystep; [by eapply yields_attempt; [apply yields_head|..]|]. ystep; [auto with yields|]. ystep; [by apply yields_failing_when|].
  by apply yields_return.
Qed.
Lemma finds_asserted ctx expected : finds (AssertGitRevision o ctx expected) (λ events _, sawHead events expected).
Proof.
  unfold AssertGitRevision, RequireCleanGit. eapply finds_then; [apply finds_clean|]. intros events current Hc.
  apply yields_failing_when. intros ->%negb_false_iff%bool_decide_eq_true events'. by apply (sawHead_app [] events).
Qed.

(** ** The claims about locks and the branch *)

Definition indexLock (root : string) : string := resolvedPath root "index" +:+ ".lock".

(** Nothing to do; or one run, with the lock of the index held whenever something changes. *)
Definition ledgerOutcome (root base planID : string) (repositories : list string) (events : GitEvents) (r : result string) : Prop :=
  repositories = [] ∧ events = [] ∧ r = Ok base ∨
  repositories ≠ [] ∧ heldThroughout (indexLock root) events ∧ ∃ headRef, ledgerRun (resolvedPath root "index") planID base repositories headRef events r.

Lemma ledgerOutcome_failed root base planID repositories events e :
  repositories ≠ [] → effects events = [] → ledgerOutcome root base planID repositories events (Err e).
Proof. intros Hne He. right. split; [done|]. split; [by apply throughout_none|]. exists "". by apply ledgerRun_failed. Qed.

(** Under the lock of the index. *)
Lemma locked_commit root planID base repositories headRef seen :
  isName base → repositories ≠ [] → effects seen = [] → held [] seen = [indexLock root] → sawBranch seen headRef →
  post (deferring (releaseLock o (indexLock root)) (
    expectedPaths ← confirmBase o headRef base repositories;
    backup ← copyGitIndex o (resolvedPath root "index");
    deferring (releaseLock o backup) (
      temporary ← copyGitIndex o (resolvedPath root "index");
      deferring (releaseLock o temporary) (
        commit ← createLedgerCommit o temporary planID base repositories expectedPaths;
        installLedgerCommit o (resolvedPath root "index") backup temporary headRef base commit))))
    (λ events r, held [] (seen ++ events) = [] ∧ ledgerOutcome root base planID repositories (seen ++ events) r).
Proof.
  intros Hbase Hne Hn Hh Hb. eapply post_deferring; [by apply (covers_locked _ planID base repositories headRef seen)|].
  intros events r (Hs & (core & rest & -> & Hc & Hr) & Hrun). eapply post_mono; [apply locking_release|].
  intros events' _ (Hn' & Hf & _). split.
  - rewrite app_assoc, (locks_app (seen ++ _)), (locks_app seen), Hh. apply elem_of_nil_inv. intros x [Hx Hnot]%Hf. apply Hnot.
    by apply (spares_held (core ++ rest) Hs [indexLock root]).
  - right. split; [done|]. split; [|exists headRef; rewrite app_assoc; by apply ledgerRun_app].
    rewrite <- app_assoc. apply held_throughout; [done|by rewrite Hh; left|done|by rewrite effects_app, Hr, Hn'].
Qed.

Lemma ledger_commit_run root planID base repositories :
  post (CommitPublicationLedgers o root planID base repositories) (λ events r, held [] events = [] ∧ ledgerOutcome root base planID repositories events r).
Proof.
  unfold CommitPublicationLedgers. case_bool_decide as Hempty; [apply (post_lifting (Ok base)); split; [done|by left]|].
  set (Q := λ events r, held [] events = [] ∧ ledgerOutcome root base planID repositories events r).
  assert (∀ (A : Type) (m : GitM A) f (phi : GitEvents → A → Prop) seen, Forall harmless seen → finds m phi →
    (∀ events a, Forall harmless (seen ++ events) → phi events a → post (f a) (λ events', Q ((seen ++ events) ++ events'))) →
    post (m ≫= f) (λ events, Q (seen ++ events))) as Hlook.
  { intros A m f phi seen Hseen Hm Hf. eapply post_bind; [exact Hm | |].
    - intros events e [He _]. assert (Forall harmless (seen ++ events)) by by apply Forall_app.
      split; [by apply harmless_held|]. by apply ledgerOutcome_failed, harmless_effects.
    - intros events a [He Ha]. eapply post_mono; [apply (Hf events a); [by apply Forall_app|done]|]. intros events' r. by rewrite app_assoc. }
  eapply (Hlook _ _ _ _ []); [done|apply finds_symbolic|]. intros ev1 headRef He1 Hb. cbn [app] in *.
  eapply Hlook; [done|apply finds_yields; by eapply (yields_attempt _ _ (λ r, match r with Ok name => isName name | Err _ => True end)); [apply (yields_name o laws)|..]|].
  intros ev2 current He2 Hcurrent.
  eapply Hlook; [done|apply finds_yields, (yields_failing_when _ _ (λ _, isName base))|].
  { destruct current; [|done]. by intros <-%negb_false_iff%bool_decide_eq_true. }
  intros ev3 [] He3 Hbase.
  eapply Hlook; [done|apply finds_yields, (yields_resolve o laws)|]. intros ev4 indexPath He4 ->. fold (indexLock root).
  set (seen := ((ev1 ++ ev2) ++ ev3) ++ ev4) in *.
  assert (Hb' : sawBranch seen headRef) by (unfold seen; rewrite <- !app_assoc; by apply (sawBranch_app [])).
  eapply (post_bind _ _ (λ events r, effects events = [] ∧ ∃ a, r = Ok a ∧ taking (indexLock root) (λ locks, held locks events) a)).
  { apply post_attempt. eapply post_mono; [apply locking_acquire|]. intros events r [He Hr]. eauto. }
  { by intros events e (_ & ? & ? & _). }
  intros events acquired (He & ? & [= <-] & Ht). assert (effects (seen ++ events) = []) as Hn by by rewrite effects_app, harmless_effects, He.
  destruct acquired as [[]|e]; cbn in Ht.
  - eapply post_mono; [apply (locked_commit root planID base repositories headRef (seen ++ events)); [done|done|done| |by apply (sawBranch_app [])]|].
    + by rewrite locks_app, (harmless_held seen He4), Ht.
    + intros events' r Hrun. unfold Q. by rewrite app_assoc.
  - apply (post_lifting (Err _)). rewrite app_nil_r. split; [|by apply ledgerOutcome_failed].
    rewrite locks_app, (harmless_held seen He4). apply elem_of_nil_inv. intros x Hx%Ht. by apply not_elem_of_nil in Hx.
Qed.

(** A lock that is held in full: all the names, and then the branch and the revision seen. *)
Definition lockedAt (headRef expected : string) (names : list string) (events : GitEvents) : Prop :=
  ∃ before after, events = before ++ after ∧ held [] before = names ∧ Forall harmless after ∧
    sawBranch after headRef ∧ sawHead after expected.
(** The locks of the index, of [HEAD] and of the branch. *)
Definition revisionLocks (root headRef : string) : list string :=
  [resolvedPath root "index" +:+ ".lock"; resolvedPath root "HEAD" +:+ ".lock"; resolvedPath root headRef +:+ ".lock"].
Definition lockOutcome (root expected : string) (events : GitEvents) (r : result (list string)) : Prop :=
  effects events = [] ∧
  match r with
  | Ok names => ∃ headRef, names = revisionLocks root headRef ∧ lockedAt headRef expected names events
  | Err _ => held [] events = []
  end.

Lemma lockOutcome_after root expected {A : Type} (m : GitM A) f (phi : A → Prop) :
  yields m phi → (∀ a, phi a → post (f a) (lockOutcome root expected)) → post (m ≫= f) (lockOutcome root expected).
Proof.
  intros Hm Hf. eapply post_bind; [exact Hm | |].
  - intros events e [He _]. split; [by apply harmless_effects | by apply harmless_held].
  - intros events a [He Ha]. eapply post_mono; [by apply Hf|]. intros events' r [Hn Hr]. split; [by rewrite effects_app, Hn, harmless_effects|].
    destruct r as [names|e]; [|by rewrite locks_app, (harmless_held events He)].
    destruct Hr as (headRef & Hnames & before & after & -> & Hb & Hr). exists headRef. split; [done|]. exists (events ++ before), after.
    split_and!; [by rewrite app_assoc | by rewrite locks_app, (harmless_held events He) | apply Hr..].
Qed.

(** With the locks taken, giving them all back. *)
Lemma unlocked events names e : effects events = [] → held [] events = names →
  post (_ ← releaseAll o names; failing (A:=list string) e) (λ events' r, effects (events ++ events') = [] ∧ held [] (events ++ events') = [] ∧ ∃ e, r = Err e).
Proof.
  intros He Hh. eapply post_bind; [apply locking_releaseAll | by intros ? ? (_ & _ & ?) |].
  intros events' [] (He' & Hf & _). apply (post_lifting (Err e)). rewrite app_nil_r, effects_app, He, He', locks_app, Hh. split_and!; [done| |eauto].
  apply elem_of_nil_inv. intros x [Hx Hn]%Hf. done.
Qed.

Lemma revision_lock_run root expected : post (AcquireGitRevisionLock o root expected) (lockOutcome root expected).
Proof.
  unfold AcquireGitRevisionLock. eapply lockOutcome_after; [apply yields_symbolic|]. intros headRef _.
  eapply lockOutcome_after; [apply (yields_resolve o laws)|]. intros indexPath ->. eapply lockOutcome_after; [apply (yields_resolve o laws)|]. intros headPath ->.
  eapply lockOutcome_after; [apply (yields_resolve o laws)|]. intros refPath ->. eapply lockOutcome_after; [by apply yields_on_|]. intros [] _.
  cbv zeta. fold (revisionLocks root headRef). set (names := revisionLocks root headRef). eapply post_bind; [apply (locking_acquireAll names []) | |].
  { intros events e [He Hr]. by split. }
  intros events [] [He Hr]. specialize (Hr []). cbn [app] in Hr.
  eapply (post_bind _ _ (λ ev r, Forall harmless ev ∧ ∃ a, r = Ok a ∧ match a with Ok name => sawBranch ev name | Err _ => True end)).
  { apply post_attempt. eapply post_mono; [apply finds_symbolic|]. intros ev r [Hev Hb]. eauto. }
  { by intros ev e [_ (? & ? & _)]. }
  intros ev confirmed (Hev & ? & [= <-] & Hbranch).
  assert (effects (events ++ ev) = [] ∧ held [] (events ++ ev) = names) as [He1 Hh1].
  { by rewrite effects_app, He, locks_app, Hr, harmless_effects, harmless_held. }
  assert (∀ e, post (_ ← releaseAll o names; failing e) (λ ev' r, lockOutcome root expected (events ++ ev ++ ev') r)) as Hundo.
  { intros e. eapply post_mono; [by apply (unlocked (events ++ ev))|]. intros ev' r (Hn & Hh & e' & ->). rewrite <- app_assoc in Hn, Hh. by split. }
  destruct (match confirmed with Ok confirmed => bool_decide (confirmed = headRef) | Err _ => false end) eqn:Hconf; [|apply Hundo].
  destruct confirmed as [confirmed|]; [apply bool_decide_eq_true in Hconf as ->|done].
  eapply (post_bind _ _ (λ ev' r, Forall harmless ev' ∧ ∃ a, r = Ok a ∧ match a with Ok _ => sawHead ev' expected | Err _ => True end)).
  { apply post_attempt. eapply post_mono; [apply finds_asserted|]. intros ev' r [Hev' Ha]. eauto. }
  { by intros ev' e [_ (? & ? & _)]. }
  intros ev' asserted (Hev' & ? & [= <-] & Ha). destruct asserted as [[]|e].
  - apply (post_lifting (Ok names)). rewrite app_nil_r. split; [by rewrite app_assoc, effects_app, He1, harmless_effects|].
    exists headRef. split; [done|]. exists events, (ev ++ ev'). split_and!; [done..|by apply Forall_app|by apply (sawBranch_app [])|].
    rewrite <- (app_nil_r ev'). by apply sawHead_app.
  - assert (effects ((events ++ ev) ++ ev') = [] ∧ held [] ((events ++ ev) ++ ev') = names) as [He2 Hh2].
    { by rewrite effects_app, He1, locks_app, Hh1, harmless_effects, harmless_held. }
    eapply post_mono; [by apply (unlocked ((events ++ ev) ++ ev'))|]. intros ev'' r (Hn & Hh & e' & ->). rewrite <- !app_assoc in Hn, Hh. by split.
Qed.
End commit.
