(* ===== verification/GitPlanProofs.v ===== *)
(** Which histories a plan may be applied on, and what the operations on Git guarantee. *)

From S2P Require Import Prelude GoStrings GoSlices Model Formats Source Lock JsonStrict PlanJson Manifest ManifestOps ManifestProofs.
From S2P Require Import RsyncPaths FileSystem GitText GitState GitStateProofs GitLedgerProofs.

Open Scope Z_scope.

Section plan.
Context `{NetLib, HashLib, ManifestLib, TimeLib, !GitObjects} (o : GitOracle) (laws : GitLaws o).

(** A commit of the plan with one parent, that changes only files of the workspace below
    a directory. *)
Definition plannedCommit (directory suffix planID parent revision : string) : Prop :=
  ∃ tree message, commitOf revision = Some (tree, [parent], message) ∧ hasPlanTrailer (TrimSpace message) planID = true ∧
    ∀ p, differing parent tree p → ∃ relative, relativeTo workspacePrefix p = Some relative ∧ HasPrefix relative directory = true ∧ HasSuffix relative suffix = true.

Lemma onlyUnder_spec directory suffix changed p : onlyUnder directory suffix workspacePrefix changed = true → p ∈ changed →
  ∃ relative, relativeTo workspacePrefix p = Some relative ∧ HasPrefix relative directory = true ∧ HasSuffix relative suffix = true.
Proof.
  unfold onlyUnder. rewrite forallb_forall. intros Hall Hp%list_elem_of_In. specialize (Hall p Hp). destruct (relativeTo workspacePrefix p); [|done].
  apply andb_true_iff in Hall. eauto.
Qed.
Lemma yields_under directory suffix e changed :
  yields (checkUnder o directory suffix e changed) (λ _, onlyUnder directory suffix workspacePrefix changed = true).
Proof.
  unfold checkUnder. eapply yields_step; [by apply yields_prefix|]. intros prefix ->. apply yields_failing_when. by intros ?%negb_false_iff.
Qed.
Lemma yields_message revision : isName revision → yields (commitMessage o revision)
  (λ text, ∃ tree parents message, commitOf revision = Some (tree, parents, message) ∧ text = TrimSpace message).
Proof. intros Hr. eapply yields_mono; [by apply yields_gitOutput|]. intros text (h & out & Hout & ->). by eapply law_message. Qed.
Lemma yields_parent revision : isName revision → yields (gitOutput o ["rev-parse"; revision +:+ "^"])
  (λ parent, isName parent ∧ ∃ tree parents message, commitOf revision = Some (tree, parent :: parents, message)).
Proof. intros Hr. eapply yields_mono; [by apply yields_gitOutput|]. intros parent (h & out & Hout & ->). by eapply law_parent. Qed.

(** The paths a commit changed, where there are any. *)
Definition changedBy (revision : string) (changed : list string) : Prop :=
  changed ≠ [] → ∃ tree parent message, commitOf revision = Some (tree, [parent], message) ∧ ∀ p, p ∈ changed ↔ differing parent tree p.
Lemma yields_changed revision : isName revision → yields (gitChangedPaths o revision) (changedBy revision).
Proof.
  intros Hr. eapply yields_mono; [by apply yields_gitPaths|]. intros changed (h & out & Hout & ->) Hne.
  destruct (pathRecords out) as [|p l] eqn:El; [done|]. destruct (law_changed o laws h revision out p Hr Hout) as (tree & parent & message & Hc); [rewrite El; by left|].
  exists tree, parent, message. split; [done|]. intros q. rewrite <- El. by eapply law_changed_paths.
Qed.

Lemma planned_intro directory suffix planID revision parent tree parents message changed :
  changedBy revision changed → changed ≠ [] → commitOf revision = Some (tree, parent :: parents, message) →
  hasPlanTrailer (TrimSpace message) planID = true → onlyUnder directory suffix workspacePrefix changed = true →
  plannedCommit directory suffix planID parent revision.
Proof.
  intros Hch Hne Hc Ht Hu. destruct (Hch Hne) as (tree' & parent' & message' & Hc' & Hp). rewrite Hc in Hc'. simplify_eq.
  eexists _, _. split_and!; [done..|]. intros p Hd%Hp. by eapply onlyUnder_spec.
Qed.

Lemma yields_ledger ledger base planID : isName ledger →
  yields (validateLedgerCommit o ledger base planID) (λ b, b = true ∧ plannedCommit "publications/" ".jsonl" planID base ledger).
Proof.
  intros Hn. unfold validateLedgerCommit.
  eapply yields_step; [by eapply (yields_attempt _ _ (λ r, match r with Ok parent => ∃ tree parents message, commitOf ledger = Some (tree, parent :: parents, message) | Err _ => True end)); [by apply yields_parent|by intros ? [_ ?]|]|].
  intros parent Hparent. eapply (yields_step _ _ (λ _, ∃ tree parents message, commitOf ledger = Some (tree, base :: parents, message))).
  { apply yields_failing_when. destruct parent; [|done]. by intros ->%negb_false_iff%bool_decide_eq_true. }
  intros [] (tree & parents & message & Hc).
  eapply yields_step; [by eapply (yields_attempt _ _ (λ r, match r with Ok text => ∃ tree parents message, commitOf ledger = Some (tree, parents, message) ∧ text = TrimSpace message | Err _ => True end)); [by apply yields_message|..]|].
  intros text Htext. eapply (yields_step _ _ (λ _, hasPlanTrailer (TrimSpace message) planID = true)).
  { apply yields_failing_when. destruct text; [|done]. intros Ht%negb_false_iff. destruct Htext as (? & ? & ? & Hc' & ->). by simplify_eq. }
  intros [] Ht. eapply yields_step; [by eapply (yields_attempt _ _ (λ r, match r with Ok l => changedBy ledger l | Err _ => True end)); [by apply yields_changed|..]|].
  intros [[|p l]|e] Hch; [apply yields_failing| |apply yields_failing].
  eapply yields_step; [apply yields_under|]. intros [] Hu. apply yields_return. split; [done|]. by eapply planned_intro.
Qed.

Lemma yields_deployment ctx revision planID : isName revision →
  yields (isPlanDeploymentCommit o ctx revision planID) (λ b, b = true → ∃ parent, plannedCommit "deployments/" ".json" planID parent revision).
Proof.
  intros Hn. unfold isPlanDeploymentCommit.
  eapply yields_step; [by eapply (yields_attempt _ _ (λ r, match r with Ok text => ∃ tree parents message, commitOf revision = Some (tree, parents, message) ∧ text = TrimSpace message | Err _ => True end)); [by apply yields_message|..]|].
  intros text Htext. ystep; [apply yields_context|]. destruct text as [text|]; [|by apply yields_return].
  destruct (hasPlanTrailer text planID && HasPrefix text deploymentHeading) eqn:Eb; [|by apply yields_return]. apply andb_true_iff in Eb as [Ht _].
  destruct Htext as (tree & parents & message & Hc & ->).
  eapply yields_step; [by eapply (yields_attempt _ _ (λ r, match r with Ok l => changedBy revision l | Err _ => True end)); [by apply yields_changed|..]|].
  intros changed Hch. ystep; [apply yields_context|]. destruct changed as [[|p l]|e]; [apply yields_failing| |apply yields_failing].
  eapply yields_step; [apply yields_under|]. intros [] Hu. apply yields_return. intros _.
  destruct (Hch ltac:(done)) as (tree' & parent & message' & Hc' & _). exists parent. rewrite Hc in Hc'. simplify_eq. by eapply planned_intro.
Qed.

(** Exactly the receipts of these repositories are changed. *)
Definition receiptTreePaths (repositories : list string) : gset string := list_to_set (treePathOf workspacePrefix <$> (receiptPath <$> repositories)).
Definition changesReceipts (repositories : list string) (revision : string) : Prop :=
  ∀ tree parent message, commitOf revision = Some (tree, [parent], message) → ∀ p, differing parent tree p ↔ p ∈ receiptTreePaths repositories.
Lemma yields_receipts revision repositories : isName revision → yields (ValidateDeploymentCommitPaths o revision repositories) (λ _, changesReceipts repositories revision).
Proof.
  intros Hr. unfold ValidateDeploymentCommitPaths. eapply yields_step.
  { apply (yields_traversing _ (λ repository name, name = treePathOf workspacePrefix (receiptPath repository))). intros repository.
    ystep; [by apply yields_lifting|]. eapply yields_step; [by apply yields_prefix|]. intros prefix ->. by apply yields_return. }
  intros names Hn. assert (names = treePathOf workspacePrefix <$> (receiptPath <$> repositories)) as -> by (induction Hn; [done|]; cbn; by f_equal).
  eapply yields_step; [by apply yields_gitPaths|]. intros changed (h & out & Hout & ->). apply yields_failing_when.
  intros Hs%negb_false_iff tree parent message Hc p. rewrite <- (samePaths_spec _ _ Hs). symmetry. by eapply law_changed_paths.
Qed.

(** Where a plan may be applied: on its base commit, or with its own ledger commit, or its
    receipts on top of that. *)
Definition acceptedAt (base planID : string) (repositories deployments : list string) (current : string) (recorded : bool) : Prop :=
  if recorded then
    plannedCommit "publications/" ".jsonl" planID base current ∨
    ∃ ledger, plannedCommit "deployments/" ".json" planID ledger current ∧ changesReceipts deployments current ∧
      (plannedCommit "publications/" ".jsonl" planID base ledger ∨ repositories = [] ∧ ledger = base)
  else current = base.

Lemma yields_base base repositories : yields (validateBase o base repositories) (λ b, b = false).
Proof.
  unfold validateBase. cbv zeta. ystep; [apply yields_status|]. ystep; [apply yields_authoritative|]. ystep; [by apply yields_lifting|].
  ystep; [by apply yields_committed|]. ystep; [by eapply yields_attempt; [apply yields_head|..]|]. ystep; [by apply yields_failing_when|]. by apply yields_return.
Qed.

Lemma yields_plan base planID repositories deployments current : isName current →
  yields (if bool_decide (current = base) then validateBase o base repositories
          else _ ← RequireCleanGit o false;
               deployment ← isPlanDeploymentCommit o false current planID;
               match deployment with
               | true =>
                   _ ← ValidateDeploymentCommitPaths o current deployments;
                   parent ← attempt (gitOutput o ["rev-parse"; current +:+ "^"]);
                   match parent with
                   | Err _ => failing "invalid deployment receipt commit"
                   | Ok ledger => if bool_decide (repositories = []) && bool_decide (ledger = base) then mret true
                                  else validateLedgerCommit o ledger base planID
                   end
               | false => validateLedgerCommit o current base planID
               end) (acceptedAt base planID repositories deployments current).
Proof.
  intros Hn. case_bool_decide as Hbase; [eapply yields_mono; [apply yields_base | by intros b ->]|].
  ystep; [by apply yields_clean|]. eapply yields_step; [by apply yields_deployment|]. intros [] Hdep.
  - destruct (Hdep eq_refl) as [parent Hparent]. eapply yields_step; [by apply yields_receipts|]. intros [] Hreceipts.
    eapply yields_step; [by eapply (yields_attempt _ _ (λ r, match r with Ok p => isName p ∧ p = parent | Err _ => True end)); [by apply yields_parent|..];
      [intros p [? (tree & parents & message & Hc)]; destruct Hparent as (? & ? & Hc' & _); rewrite Hc in Hc'; simplify_eq|]|].
    intros [ledger|e] Hl; [destruct Hl as [Hnl ->]|apply yields_failing]. case_match eqn:Eb.
    + apply andb_true_iff in Eb as [->%bool_decide_eq_true ->%bool_decide_eq_true]. apply yields_return. right. eauto 10.
    + eapply yields_mono; [by apply yields_ledger|]. intros b [-> Hl]. right. eauto 10.
  - eapply yields_mono; [by apply yields_ledger|]. intros b [-> Hl]. by left.
Qed.

Lemma finds_plan base planID repositories deployments : finds (ValidatePlanGit o base planID repositories deployments)
  (λ events b, ∃ current, sawHead events current ∧ acceptedAt base planID repositories deployments current b).
Proof.
  assert (∀ (events events' : GitEvents) b, (∃ current, sawHead events' current ∧ acceptedAt base planID repositories deployments current b) →
    ∃ current, sawHead (events ++ events') current ∧ acceptedAt base planID repositories deployments current b) as Hmono.
  { intros events events' b (current & Hs & Ha). exists current. split; [|done]. pose proof (sawHead_app events events' [] current Hs) as Hs'.
    by rewrite app_nil_r in Hs'. }
  unfold ValidatePlanGit. eapply finds_after; [apply yields_complete | exact Hmono |]. intros [] _.
  eapply finds_after; [apply yields_symbolic | exact Hmono |]. intros _ _.
  eapply finds_then; [apply (finds_named o laws)|]. intros events current [Hs Hn]. eapply yields_mono; [by apply yields_plan|].
  intros b Hb events'. exists current. split; [|done]. by apply (sawHead_app [] events).
Qed.
End plan.

Section claims.
Context `{NetLib, HashLib, ManifestLib, TimeLib, !GitObjects}.

Lemma forgetful s : run_layout s = ∅ → remembers s.
Proof. intros Hs question answer. by rewrite Hs, lookup_empty. Qed.

(** C4: from a fresh start, under laws of Git's answers, and whatever else happens to the
    repository between the requests and whichever of them fail: committing the ledgers of
    a plan that has some changes the index of the workspace and the branch seen checked
    out only in one order, each time with the lock of that index held, and gives the lock
    back.  A temporary copy of the index is put in its place; then the branch is moved
    from the base commit to the ledger commit; success is reported only after the branch
    and that commit were seen checked out.  When the index cannot be persisted or the move
    is refused, a backup copy of the index is put back; when the confirmation fails, the
    branch is moved back from the ledger commit and then the backup is put back; a branch
    or an index that could not be put back is named in the error.  The ledger commit is
    written with the temporary copy as its index, has only the base commit as its parent
    and the message of the plan, and holds every ledger of the plan, changed, with the
    bytes read in the worktree; any other file it holds is unchanged (a file that is gone
    or a submodule is not told by the check the code makes). *)
Theorem ledger_commit_is_compare_and_swap o root planID base repositories s :
  GitLaws o → run_layout s = ∅ →
  let r := CommitPublicationLedgers o root planID base repositories s in
  ∃ events, run_events r.1 = run_events s ++ events ∧ held [] events = [] ∧ ledgerOutcome root base planID repositories events r.2.
Proof. intros laws Hs. by destruct (ledger_commit_run o laws root planID base repositories s (forgetful s Hs)) as (_ & events & He & Hr); eauto. Qed.

(** C14: from a fresh start, under laws of Git's answers: when taking the locks of a
    revision succeeds, exactly the lock files of the index, of [HEAD] and of the branch are
    held, and after all three were taken that branch was seen checked out and that
    revision was seen at [HEAD]; when it fails, every lock it took is given back; in both
    cases it changes neither the index nor a branch. *)
Theorem revision_lock_all_or_nothing o root expected s :
  GitLaws o → run_layout s = ∅ →
  let r := AcquireGitRevisionLock o root expected s in
  ∃ events, run_events r.1 = run_events s ++ events ∧ lockOutcome root expected events r.2.
Proof. intros laws Hs. by destruct (revision_lock_run o laws root expected s (forgetful s Hs)) as (_ & events & He & Hr); eauto. Qed.

(** C13: a plan is accepted only where the branch was seen at its base commit, at a commit
    of this plan on it that changes only ledgers, or at a commit of this plan that records
    exactly the receipts of its deployments on top of that; and validation itself changes
    neither the index, nor a branch, nor a lock. *)
Theorem plan_git_accepts_only_its_history o base planID repositories deployments s :
  GitLaws o → run_layout s = ∅ →
  let r := ValidatePlanGit o base planID repositories deployments s in
  ∃ events, run_events r.1 = run_events s ++ events ∧ Forall harmless events ∧
    match r.2 with
    | Ok recorded => ∃ current, sawHead events current ∧ acceptedAt base planID repositories deployments current recorded
    | Err _ => True
    end.
Proof. intros laws Hs. by destruct (finds_plan o laws base planID repositories deployments s (forgetful s Hs)) as (_ & events & He & Hr); eauto. Qed.

End claims.

(** * A concrete repository *)

Module GitExample.
#[local] Existing Instances SetupExample.net_lib SetupExample.time_lib SetupExample.hash_lib SetupExample.manifest_lib.

Definition planID : string := SHA256Hex "".
Definition ledger : string := "publications/site.jsonl".

(** The base commit [b0] is empty; [c1] adds the ledger. *)
#[local] Instance objects : GitObjects := {|
  filesOf x := if bool_decide (x = "t1") || bool_decide (x = "c1") then {[ledger := ("100644", "record")]} else ∅;
  commitOf x := if bool_decide (x = "c1") then Some ("t1", ["b0"], publicationMessageFor planID) else None;
  blobOf content := content;
  isTree x := bool_decide (x = "t1");
  isName x := x ∈ ["b0"; "t1"; "c1"];
  workspacePrefix := "";
  gitPath name := ".git/" +:+ name;
|}.

(** The branch is where the acknowledged updates have put it. *)
Definition branchAt (h : GitEvents) : string := foldl (λ now e, match e with Updated _ new _ true => if bool_decide (new ∈ ["b0"; "c1"]) then new else now | _ => now end) "b0" (effects h).
Lemma branch_named h : branchAt h = "b0" ∨ branchAt h = "c1".
Proof.
  unfold branchAt. assert (∀ now l, now = "b0" ∨ now = "c1" → let found := foldl (λ now e, match e with
    Updated _ new _ true => if bool_decide (new ∈ ["b0"; "c1"]) then new else now | _ => now end) now l in found = "b0" ∨ found = "c1") as Hall; [|by apply Hall; left].
  intros now l. revert now. induction l as [|e l IH]; intros now Hn; [done|]. cbn. apply IH. destruct e as [| ref new old []]; try done.
  case_bool_decide as Hin; [|done]. by apply elem_of_cons in Hin as [|Hin%list_elem_of_singleton]; [left|right].
Qed.

Definition constants : list (list string * string) :=
  [(["symbolic-ref"; "--quiet"; "HEAD"], "refs/heads/main"); (["rev-parse"; "--is-shallow-repository"], "false");
   (["rev-parse"; "--show-prefix"], ""); (["rev-parse"; "--git-path"; "index"], ".git/index"); (["rev-parse"; "--git-path"; "HEAD"], ".git/HEAD");
   (["rev-parse"; "--git-path"; "refs/heads/main"], ".git/refs/heads/main"); (["write-tree"], "t1");
   (["diff"; "--name-only"; "-z"; "b0"; "t1"; "--"], ledger +:+ nul); (["diff"; "--cached"; "--name-only"; "-z"; "b0"; "--"], "");
   (["rev-parse"; "t1:" +:+ ledger], "record"); (["rev-parse"; "c1^"], "b0"); (["log"; "-1"; "--format=%B"; "c1"], publicationMessageFor planID);
   (["diff-tree"; "--no-commit-id"; "--name-only"; "-r"; "-z"; "c1"], ledger +:+ nul);
   (["ls-files"; "--"; ledger], ""); (["add"; "--"; ledger], ""); (["update-ref"; "refs/heads/main"; "c1"; "b0"], "");
   (["cat-file"; "--batch-check"], "i1 blob 6" +:+ newline +:+ "i2 blob 4" +:+ newline); (["hash-object"; "--stdin-paths"], "i1" +:+ newline +:+ "i2" +:+ newline)].

Definition answer (h : GitEvents) (call : GitCall) : GitAnswer :=
  let arguments := call_Arguments call in
  if bool_decide (arguments = ["rev-parse"; "HEAD"]) then Printed (branchAt h)
  else if bool_decide (arguments = ["status"; "--porcelain=v1"; "-z"; "--untracked-files=all"; "--no-renames"])
       then Printed (if bool_decide (branchAt h = "b0") then "?? " +:+ ledger +:+ nul else "")
  else if bool_decide (arguments = ["hash-object"; "--stdin"]) && bool_decide (call_Input call = "record") then Printed "record"
  else if bool_decide (arguments = ["commit-tree"; "t1"; "-p"; "b0"]) && bool_decide (call_Input call = publicationMessageFor planID) then Printed "c1"
  else match List.find (λ c, bool_decide (c.1 = arguments)) constants with Some c => Printed c.2 | None => Exited 1 end.

Definition file (call : FileCall) : Errno + list string :=
  match call with
  | PathOf relative => inr ["/ws/" +:+ relative]
  | ReadAll name => inr [if bool_decide (name = WorkspaceManifest) then "before" else if bool_decide (name = "/ws/" +:+ ledger) then "record" else "index"]
  | CreateBeside _ => inr ["/ws/.git/snailmail-index-1"]
  | _ => inr []
  end.

Definition oracle : GitOracle := mkGitOracle answer (λ _, file) (λ _, false) gitLockOwnerPrefix.
Definition start : GitRun := mkGitRun [] ∅.

Lemma run_succeeds : (CommitPublicationLedgers oracle "/ws" planID "b0" ["site"] start).2 = Ok "c1".
Proof. vm_compute. reflexivity. Qed.

(** ** Its answers are those of Git *)

Lemma answer_cases h call out : answer h call = Printed out →
  call_Arguments call = ["rev-parse"; "HEAD"] ∧ out = branchAt h ∨ call_Arguments call = ["status"; "--porcelain=v1"; "-z"; "--untracked-files=all"; "--no-renames"] ∨
  call_Arguments call = ["hash-object"; "--stdin"] ∧ call_Input call = "record" ∧ out = "record" ∨
  call_Arguments call = ["commit-tree"; "t1"; "-p"; "b0"] ∧ call_Input call = publicationMessageFor planID ∧ out = "c1" ∨
  (call_Arguments call, out) ∈ constants.
Proof.
  unfold answer. cbv zeta. case_bool_decide; [intros [= <-]; auto|]. case_bool_decide; [auto|].
  destruct (_ && _) eqn:E; [intros [= <-]; apply andb_true_iff in E as [E1%bool_decide_eq_true E2%bool_decide_eq_true]; auto 10|clear E].
  destruct (_ && _) eqn:E; [intros [= <-]; apply andb_true_iff in E as [E1%bool_decide_eq_true E2%bool_decide_eq_true]; auto 10|clear E].
  destruct (List.find _ constants) as [[arguments text]|] eqn:Ef; [|done]. intros [= <-].
  apply List.find_some in Ef as [Hin Heq]. apply bool_decide_eq_true in Heq. cbn in Heq. subst. do 4 right. by apply list_elem_of_In.
Qed.

(** What the constants say of a command. *)
Ltac constant := repeat match goal with
  | Hin : _ ∈ _ :: _ |- _ => apply elem_of_cons in Hin as [Hin|Hin]; [simplify_eq/=|]
  | Hin : _ ∈ [] |- _ => by apply not_elem_of_nil in Hin
  end.
Ltac answers_of Hrun := apply answer_cases in Hrun as [[Hrun ?]|[Hrun|[(Hrun & ? & ?)|[(Hrun & ? & ?)|Hrun]]]]; simplify_eq/=; try done; unfold constants in *.

Lemma caret s t : s +:+ "^" = t → HasSuffix t "^" = true.
Proof. intros <-. apply HasSuffix_app. Qed.
Lemma colon s p t : s +:+ ":" +:+ p = t → mem_byte ":" t = true.
Proof. intros <-. rewrite !mem_byte_app. cbn. by rewrite orb_true_r. Qed.

Lemma differing_ledger p : p ∈ pathRecords (ledger +:+ nul) ↔ differing "b0" "t1" p.
Proof.
  assert (pathRecords (ledger +:+ nul) = [ledger]) as -> by (vm_compute; reflexivity). rewrite list_elem_of_singleton.
  unfold differing. change (filesOf "b0") with (∅ : gmap string (string * string)).
  change (filesOf "t1") with ({[ledger := ("100644", "record")]} : gmap string (string * string)).
  rewrite lookup_empty. destruct (decide (p = ledger)) as [->|Hne]; [by rewrite lookup_singleton_eq | by rewrite lookup_singleton_ne].
Qed.

Ltac impossible lemma := match goal with E : _ +:+ _ = _ |- _ => apply lemma in E; by vm_compute in E end.

Lemma parent_ledger revision : revision +:+ "^" = "c1^" → revision = "c1".
Proof.
  intros Heq. apply (f_equal String.rev) in Heq. rewrite (rev_snoc revision "^") in Heq. injection Heq as Hrev.
  rewrite <- (rev_involutive revision), Hrev. reflexivity.
Qed.

Lemma example_laws : GitLaws oracle.
Proof.
  split; cbn [runs oracle].
  - intros h out Hrun. answers_of Hrun. constant. reflexivity.
  - intros h name out Hrun. answers_of Hrun. constant; reflexivity.
  - intros h base tree out p _ _ Hrun. answers_of Hrun. constant. apply differing_ledger.
  - intros h base tree out p _ _ Hrun Hd. answers_of Hrun. constant. left. by apply differing_ledger.
  - intros h index tree parent message out _ _ Hrun. answers_of Hrun. constant.
  - intros h content out Hrun. answers_of Hrun. constant.
  - intros h index out Hrun. answers_of Hrun. constant. set_solver.
  - intros h out Hrun. answers_of Hrun; [|constant]. destruct (branch_named h) as [-> | ->]; set_solver.
  - intros h tree p out Ht Hrun. answers_of Hrun; [impossible colon|]. constant; try impossible colon.
    left. by eexists.
  - intros h revision out _ Hrun. answers_of Hrun; [impossible caret|]. constant; try impossible caret.
    match goal with E : _ +:+ _ = _ |- _ => apply parent_ledger in E as -> end. split; [set_solver|by eexists _, _, _].
  - intros h revision out _ Hrun. answers_of Hrun. constant. eexists _, _, _. by split.
  - intros h revision out p _ Hrun _. answers_of Hrun. constant. by eexists _, _, _.
  - intros h revision out p tree parent message _ Hrun Hc. answers_of Hrun. constant. apply differing_ledger.
Qed.

Lemma ledger_commit_is_compare_and_swap_witness :
  ∃ events, run_events (CommitPublicationLedgers oracle "/ws" planID "b0" ["site"] start).1 = events ∧ held [] events = [] ∧
    ledgerOutcome "/ws" "b0" planID ["site"] events (Ok "c1").
Proof.
  destruct (ledger_commit_is_compare_and_swap oracle "/ws" planID "b0" ["site"] start example_laws eq_refl) as (events & He & Hh & Ho).
  exists events. rewrite run_succeeds in Ho. split; [exact He | split; [exact Hh | exact Ho]].
Defined.

(** After the commit: the plan is accepted again, and its revision can be locked. *)
Definition committed : GitRun := mkGitRun (run_events (CommitPublicationLedgers oracle "/ws" planID "b0" ["site"] start).1) ∅.
Lemma plan_accepted_again :
  (ValidatePlanGit oracle "b0" planID ["site"] [] start).2 = Ok false ∧ (ValidatePlanGit oracle "b0" planID ["site"] [] committed).2 = Ok true ∧
  is_ok (AcquireGitRevisionLock oracle "/ws" "c1" committed).2 = true ∧ is_ok (AcquireGitRevisionLock oracle "/ws" "b0" committed).2 = false.
Proof. vm_compute. split_and!; reflexivity. Qed.

Lemma plan_git_accepts_only_its_history_witness :
  ∃ events, run_events (ValidatePlanGit oracle "b0" planID ["site"] [] start).1 = events ∧ Forall harmless events ∧
    ∃ current, sawHead events current ∧ acceptedAt "b0" planID ["site"] [] current false.
Proof.
  destruct (plan_git_accepts_only_its_history oracle "b0" planID ["site"] [] start example_laws eq_refl) as (events & He & Hh & Ha).
  rewrite (proj1 plan_accepted_again) in Ha. exists events. split; [exact He | split; [exact Hh | exact Ha]].
Defined.

Lemma revision_lock_all_or_nothing_witness :
  ∃ events, run_events (AcquireGitRevisionLock oracle "/ws" "b0" start).1 = events ∧
    lockOutcome "/ws" "b0" events (AcquireGitRevisionLock oracle "/ws" "b0" start).2.
Proof.
  destruct (revision_lock_all_or_nothing oracle "/ws" "b0" start example_laws eq_refl) as (events & He & Hr).
  exists events. split; [exact He | exact Hr].
Defined.

Lemma object_batch_roundtrip_witness :
  readCatFileBatch 2 ("i1 blob 5" +:+ newline +:+ ("a" +:+ newline +:+ "b c") +:+ newline +:+ "x missing" +:+ newline) =
  Ok [mkBatchObject "i1" ("a" +:+ newline +:+ "b c"); mkBatchObject "" ""].
Proof.
  apply (object_batch_roundtrip [mkBatchObject "i1" ("a" +:+ newline +:+ "b c"); mkBatchObject "" ""]
    ("i1 blob 5" +:+ newline +:+ ("a" +:+ newline +:+ "b c") +:+ newline +:+ "x missing" +:+ newline)).
  apply (batch_found "i1" "5" ("a" +:+ newline +:+ "b c") [mkBatchObject "" ""] ("x missing" +:+ newline)); [split; [discriminate|reflexivity].. | vm_compute; reflexivity | vm_compute; discriminate |].
  apply (batch_missing "x" [] ""); [split; [discriminate|reflexivity] | constructor].
Defined.

(** ** A workspace below the top of its repository *)

(** [git status] names files from the top of the repository, the ledgers a publication may
    change are named from the workspace: a ledger that is new there is passed over, one
    that is committed and changed is refused. *)
Definition nestedStatus (c : string) : string := statusText [mkStatusEntry c ["workspace/" +:+ ledger]].
Lemma nested_ledger_refused :
  validateGitStatus (nestedStatus "??") (publicationWorkspacePaths ["site"]) {[WorkspaceManifest]} = Ok () ∧
  validateGitStatus (nestedStatus " M") (publicationWorkspacePaths ["site"]) {[WorkspaceManifest]} = Err uncommitted ∧
  validateGitStatus (statusText [mkStatusEntry " M" [ledger]]) (publicationWorkspacePaths ["site"]) {[WorkspaceManifest]} = Ok ().
Proof. vm_compute. split_and!; reflexivity. Qed.
End GitExample.
