(* ===== verification/Adopt.v ===== *)
(** Bringing artifacts into a workspace: [AddArtifacts] of [engine/workspace.go],
    [engine/adopt.go], [engine/adoptsession.go] and the import loop of [engine/import.go].

    A command is a computation of the blob cache ([Cas]) that threads the files of the
    lock.  Adopting works on a session: the lock as loaded and edited so far, and whether
    it has to be written.  A session outlives the adoptions of one import, so an edit
    made before an adoption fails stays in it. *)

From S2P Require Import Prelude GoStrings GoSlices Model Formats Source Lock JsonStrict Ledger PlanJson LockShard Placements FileSystem BlobCache.

Open Scope Z_scope.

(** ** Settings *)

Definition DefaultMaxArtifactBytes : Z := Z.shiftl 2 30.
(** The limit in force, by the value of the environment variable. *)
Definition maximumArtifactBytes (given : string) : Z :=
  if bool_decide (given = "") then DefaultMaxArtifactBytes
  else match ParseInt given 64 with
       | Some parsed => if parsed <=? 0 then DefaultMaxArtifactBytes else parsed
       | None => DefaultMaxArtifactBytes
       end.

(** ** What the network answers *)

(** A fetcher, asked the nth time for an address under a limit on the size: the response
    with the body it received.  Where it streams, the body is written as it is received. *)
Record Fetcher := mkFetcher {
  fetcher_Fetch : nat → string → Z → option FetchResponse;
  fetcher_Streams : bool;
}.

(** ** Requests *)

Record AdoptArtifactRequest := mkAdoptRequest {
  aq_Repository : string; aq_URL : string; aq_SHA256 : string; aq_Filename : string; aq_Name : string; aq_Version : string;
  aq_Track : string; aq_Distro : string; aq_DryRun : bool; aq_PublicOrigin : bool; aq_Provenance : DigestProvenance; aq_Fetcher : option Fetcher;
}.
Record AdoptArtifactResult := mkAdopted {
  ad_Repository : string; ad_Package : string; ad_Version : string; ad_Filename : string; ad_SHA256 : string; ad_OriginURL : string;
  ad_Changed : bool; ad_DryRun : bool;
}.

Definition computing (request : AdoptArtifactRequest) : bool :=
  bool_decide (aq_SHA256 request = "") && bool_decide (aq_Provenance request = "computed").

Definition adoptIdentity (request : AdoptArtifactRequest) : Identity := mkIdentity (aq_Name request) (aq_Version request).

(** ** Sessions *)

Record adoptSession := mkSession {
  ses_Repository : Repository; ses_Lock : RepositoryLock; ses_Ledger : list PublicationRecord; ses_Name : string; dirty : bool;
}.
Definition with_lock (lock : RepositoryLock) (session : adoptSession) : adoptSession :=
  mkSession (ses_Repository session) lock (ses_Ledger session) (ses_Name session) (dirty session).
Definition with_dirty (value : bool) (session : adoptSession) : adoptSession :=
  mkSession (ses_Repository session) (ses_Lock session) (ses_Ledger session) (ses_Name session) value.

(** A computation on a session: what fails leaves the session as edited so far. *)
Definition Adopting (A : Type) : Type := adoptSession → Cas (adoptSession * result A).
#[export] Instance Adopting_ret : MRet Adopting := λ A a session, mret (session, Ok a).
#[export] Instance Adopting_bind : MBind Adopting := λ A B f act session,
  x ← act session;
  match x with
  | (session, Ok a) => f a session
  | (session, Err e) => mret (session, Err e)
  end.
Definition returning {A : Type} (r : result A) : Adopting A := λ session, mret (session, r).
Definition refusing (refused : bool) (e : string) : Adopting () := returning (guard_ok (negb refused) e).
(** A computation of the cache, whose error is returned. *)
Definition caching {A : Type} (act : Cas A) : Adopting A := λ session,
  r ← casTried act;
  mret (session, match r with inr a => Ok a | inl _ => Err "the artifact cannot be read or stored" end).
Definition onSession {A : Type} (f : adoptSession → A) : Adopting A := λ session, mret (session, Ok (f session)).
(** An operation on the lock of the session, through a pointer. *)
Definition editing {A : Type} (f : RepositoryLock → RepositoryLock * result A) : Adopting A := λ session,
  let '(lock, r) := f (ses_Lock session) in mret (with_lock lock session, r).
Definition marking : Adopting () := λ session, mret (with_dirty true session, Ok ()).
Definition finallyRemoving {A : Type} (act : Adopting A) (final : IO ()) : Adopting A := λ session, casFinally (act session) final.

Section commands.
Context `{NetLib, HashLib, TomlLib, JsonLib, TimeLib, !LedgerLib, !InspectLib} (m : Machine) (sameFile : nat → bool).
(** The time as a lock records it, the directory for temporary files and the limit of the
    environment. *)
Context (now : nat → string) (tempDir : string) (maximumGiven : string).

(** Which call of the computation this is. *)
Definition counted {A : Type} (f : nat → A) : Cas A := λ s w, (w, inr (s, inr (f (calls w)))).

(** [fetchArtifact]: the response, whose body is in the file. *)
Definition fetchArtifact (fetcher : Fetcher) (address name : string) : Cas FetchResponse :=
  answer ← counted (λ n, fetcher_Fetch fetcher n address (maximumArtifactBytes maximumGiven));
  match answer with
  | None => casFail (BlobFailure false)
  | Some response =>
      if negb (resp_StatusCode response =? 200) && negb (fetcher_Streams fetcher) then mret response
      else _ ← calling plainError (WriteTo m name (resp_Body response)); mret response
  end.

Definition safeAdoptFilename (filename : string) : bool :=
  negb (bool_decide (filename = "") || bool_decide (filename = ".") || negb (bool_decide (Base filename = filename)) ||
        existsb (λ c, mem_byte c filename) ["000"%char; "013"%char; "010"%char; "/"%char; "\"%char]).

(** The checks before anything is read: the origin and the name of the file. *)
Definition checkAdoptRequest (request : AdoptArtifactRequest) : result (Fetcher * URL * string) :=
  match aq_Fetcher request with
  | None => Err "adopt fetcher is required"
  | Some fetcher =>
      refuse "adopt requires confirmation that the persisted origin URL is public and contains no secrets" when negb (aq_PublicOrigin request);
      refuse "adopt requires a lowercase SHA-256 pin" when negb (computing request) && negb (ValidSHA256 (aq_SHA256 request));
      match ParseURL (aq_URL request) with
      | None => Err "adopt URL must be a safe public HTTPS URL"
      | Some originURL =>
          refuse "adopt URL must be a safe public HTTPS URL" when negb (is_ok (ValidatePublicURL (Some originURL)));
          let filename := if bool_decide (aq_Filename request = "") then Base (Path originURL) else aq_Filename request in
          refuse "adopt requires a safe artifact filename" when negb (safeAdoptFilename filename);
          Ok (fetcher, originURL, filename)
      end
  end.

Definition unsafeFinalURL (final : string) : bool :=
  negb (bool_decide (final = "")) &&
  match ParseURL final with None => true | Some parsed => negb (is_ok (ValidateRedirectURL (Some parsed))) end.

(** Fetching the artifact to a file and inspecting it. *)
Definition fetchAndInspect (request : AdoptArtifactRequest) (fetcher : Fetcher) (originURL : URL) (filename temporaryName : string)
    : Adopting ArtifactBlob :=
  response ← caching (fetchArtifact fetcher (Rendered originURL) temporaryName);
  _ ← refusing (negb (resp_StatusCode response =? 200)) "adopted artifact returned another HTTP status";
  _ ← caching (calling plainError (contextErr m));
  _ ← refusing (unsafeFinalURL (resp_URL response)) "adopt fetcher returned an unsafe final URL";
  repository ← onSession ses_Repository;
  match InspectArtifactBytes (repo_Format repository) filename (resp_Body response) (adoptIdentity request) with
  | None => returning (Err "the artifact cannot be inspected")
  | Some blob =>
      _ ← refusing (negb (computing request) && negb (bool_decide (ab_SHA256 blob = aq_SHA256 request)))
            "adopted artifact does not match the required SHA-256";
      _ ← caching (calling plainError (contextErr m));
      mret blob
  end.

Definition provenanceOf (request : AdoptArtifactRequest) : DigestProvenance :=
  if bool_decide (aq_Provenance request = "") then "operator" else aq_Provenance request.
Definition trackOf (request : AdoptArtifactRequest) (repository : Repository) : string :=
  if bool_decide (aq_Track request = "") then repo_Track repository else aq_Track request.
Definition withAdded (at_ : string) (origin : option ArtifactOrigin) (blob : LockedBlob) : LockedBlob :=
  mkBlob (Filename blob) (Architecture blob) (Size blob) (MD5 blob) (SHA1 blob) (SHA256 blob) at_ origin.

(** Recording the artifact in the lock of the session; whether anything changed. *)
Definition recordArtifact (request : AdoptArtifactRequest) (originURL : URL) (filename : string) (blob : ArtifactBlob) : Adopting bool :=
  repository ← onSession ses_Repository;
  ledger ← onSession ses_Ledger;
  let packageName := nativePackageName (repo_Format repository) (fact_Name (ab_Facts blob)) in
  let version := fact_Version (ab_Facts blob) in
  at_ ← caching (counted now);
  _ ← refusing (negb (ValidProvenance (provenanceOf request))) "digest provenance is not one snailmail records";
  let origin := mkOrigin "https" (Rendered originURL) (provenanceOf request) in
  let locked := withAdded at_ (Some origin) (ToLockedBlob blob) in
  added ← editing (λ lock, AddBlob lock (repo_Format repository) (trackOf request repository)
                             (defaultPlacementDistro repository (aq_Distro request)) locked packageName version);
  originChanged ← editing (λ lock, SetBlobOrigin lock packageName version filename (ab_SHA256 blob) origin);
  lock ← onSession ses_Lock;
  _ ← returning (ValidateLock lock (aq_Repository request) (repo_Format repository));
  _ ← returning (ValidatePublishedBindings lock ledger);
  mret (added || originChanged).

(** Storing it, unless this is a dry run. *)
Definition storeArtifact (root : string) (request : AdoptArtifactRequest) (temporaryName : string) (blob : ArtifactBlob) (changed : bool) : Adopting () :=
  if aq_DryRun request then mret ()
  else
    repository ← onSession ses_Repository;
    _ ← caching (calling plainError (contextErr m));
    stored ← caching (PutArtifact m sameFile root (repo_Format repository) temporaryName (adoptIdentity request));
    _ ← refusing (negb (bool_decide (ab_SHA256 stored = ab_SHA256 blob))) "adopted artifact changed before CAS storage";
    _ ← caching (calling plainError (contextErr m));
    if changed then marking else mret ().

(** [AdoptArtifact] from where it has a session, up to the write of the lock. *)
Definition adoptInto (root : string) (request : AdoptArtifactRequest) (fetcher : Fetcher) (originURL : URL) (filename : string)
    : Adopting AdoptArtifactResult :=
  temporaryDirectory ← caching (calling plainError (MkdirTemp m tempDir ".snailmail-adopt-"));
  let temporaryName := PathJoin [temporaryDirectory; filename] in
  finallyRemoving (
    _ ← caching (calling plainError (CreateExclusive m temporaryName));
    blob ← fetchAndInspect request fetcher originURL filename temporaryName;
    changed ← recordArtifact request originURL filename blob;
    _ ← storeArtifact root request temporaryName blob changed;
    repository ← onSession ses_Repository;
    mret (mkAdopted (aq_Repository request) (nativePackageName (repo_Format repository) (fact_Name (ab_Facts blob))) (fact_Version (ab_Facts blob))
            filename (ab_SHA256 blob) (Rendered originURL) changed (aq_DryRun request)))
    (RemoveAll m temporaryDirectory).

(** The workspace as an adoption finds it: [opened], and whether the history of the
    repository is complete. *)
Definition loadAdoptSession (opened : Opened) (name : string) (files : LockFiles) : result adoptSession :=
  manifest ← op_Manifest opened;
  refuse "adopt requires a local blob store; migrate blobs explicitly after review" when negb (bool_decide (bs_Type (man_BlobStore manifest) = "local"));
  match man_Repositories manifest !! name with
  | None => Err "repository is not configured"
  | Some repository =>
      lock ← LoadLock (op_Limit opened) files;
      _ ← ValidateLock lock name (repo_Format repository);
      ledger ← op_Ledger opened;
      _ ← ValidatePublicationHistory name ledger;
      _ ← ValidatePublishedBindings lock ledger;
      Ok (mkSession repository lock ledger name false)
  end.

Definition flush (session : adoptSession) (files : LockFiles) : LockFiles * (adoptSession * result ()) :=
  if negb (dirty session) then (files, (session, Ok ()))
  else match LockShard.WriteLock files (ses_Lock session) with
       | (files, Ok _) => (files, (with_dirty false session, Ok ()))
       | (files, Err e) => (files, (session, Err e))
       end.

(** What is checked of the workspace before a session is opened, each time an artifact is
    adopted. *)
Definition adoptable (opened : Opened) (complete : result ()) : result () := _ ← op_Git opened; complete.

(** [AdoptArtifact] without a session of the caller's. *)
Definition AdoptArtifact (opened : Opened) (complete : result ()) (root : string) (request : AdoptArtifactRequest) (files : LockFiles)
    : Cas (LockFiles * result AdoptArtifactResult) :=
  match (checked ← checkAdoptRequest request; _ ← adoptable opened complete;
         session ← loadAdoptSession opened (aq_Repository request) files; Ok (checked, session)) with
  | Err e => mret (files, Err e)
  | Ok (fetcher, originURL, filename, session) =>
      x ← adoptInto root request fetcher originURL filename session;
      match x with
      | (_, Err e) => mret (files, Err e)
      | (session, Ok adopted) =>
          let '(files, (_, flushed)) := flush session files in
          mret (files, _ ← flushed; Ok adopted)
      end
  end.

(** With one. *)
Definition adoptShared (opened : Opened) (complete : result ()) (root : string) (request : AdoptArtifactRequest) : Adopting AdoptArtifactResult :=
  checked ← returning (checkAdoptRequest request);
  _ ← returning (adoptable opened complete);
  let '(fetcher, originURL, filename) := checked in
  adoptInto root request fetcher originURL filename.

(** ** Importing a published repository *)

Record importableFile := mkImportable {
  im_Filename : string; im_URLs : list string; im_SHA256 : string; im_Provenance : DigestProvenance; im_Ambiguous : bool;
}.
Record ImportArtifact := mkImported {
  ia_Package : string; ia_Version : string; ia_Filename : string; ia_SHA256 : string; ia_Origin : string;
}.
Record ImportSkipped := mkSkipped { sk_Filename : string; sk_Reason : string }.
(** The two lists of the result. *)
Record Progress := mkProgress { Imported : list ImportArtifact; Skipped : list ImportSkipped }.
Definition skipping (file : importableFile) (reason : string) (progress : Progress) : Progress :=
  mkProgress (Imported progress) (Skipped progress ++ [mkSkipped (im_Filename file) reason]).
Definition importing (adopted : AdoptArtifactResult) (progress : Progress) : Progress :=
  mkProgress (Imported progress ++ [mkImported (ad_Package adopted) (ad_Version adopted) (ad_Filename adopted) (ad_SHA256 adopted) (ad_OriginURL adopted)])
             (Skipped progress).

(** [MinimumProvenance] is empty where the index decides; a limit that is not positive is
    none. *)
Record ImportOptions := mkImportOptions {
  io_Repository : string; io_MinimumProvenance : DigestProvenance; io_Track : string; io_Distro : string; io_DryRun : bool; io_Limit : Z;
  io_Fetcher : option Fetcher;
}.

Definition importCheckpointEvery : nat := 200.

(** Why a file is passed over before it is fetched. *)
Definition skipReason (options : ImportOptions) (file : importableFile) (importedSoFar : nat) : option string :=
  if im_Ambiguous file then Some "the index lists this name and version more than once, so which artifact it is cannot be established"
  else if bool_decide (im_SHA256 file = "") && negb (bool_decide (im_Provenance file = "computed"))
  then Some "the index publishes no SHA-256, so the artifact cannot be pinned to a stated digest"
  else if negb (bool_decide (io_MinimumProvenance options = "")) && negb (AtLeast (im_Provenance file) (io_MinimumProvenance options))
  then Some "this index establishes its digest below what is required"
  else if (0 <? io_Limit options) && (io_Limit options <=? Z.of_nat importedSoFar) then Some "beyond the requested limit"
  else None.

Definition importRequest (options : ImportOptions) (file : importableFile) (address : string) : AdoptArtifactRequest :=
  mkAdoptRequest (io_Repository options) address (im_SHA256 file) (im_Filename file) "" "" (io_Track options) (io_Distro options)
    (io_DryRun options) true (im_Provenance file) (io_Fetcher options).

Section import.
Context (opened : Opened) (complete : result ()) (root : string) (options : ImportOptions).
(** [resolveDoctorReference] against the address of the index. *)
Context (resolve : string → option string).

Fixpoint adoptFirst (file : importableFile) (lastErr : string) (urls : list string) : Adopting AdoptArtifactResult :=
  match urls with
  | [] => returning (Err lastErr)
  | reference :: urls =>
      match resolve reference with
      | None => adoptFirst file "repository reference URL is unsafe" urls
      | Some address => λ session,
          x ← adoptShared opened complete root (importRequest options file address) session;
          match x with
          | (session, Ok adopted) => mret (session, Ok adopted)
          | (session, Err e) => adoptFirst file e urls session
          end
      end
  end.
Definition adoptFirstReachable (file : importableFile) : Adopting AdoptArtifactResult :=
  adoptFirst file "the index names no URL for this artifact" (im_URLs file).

(** The write at a checkpoint, and at the end. *)
Definition checkpoint (due : bool) (session : adoptSession) (files : LockFiles) : LockFiles * (adoptSession * result ()) :=
  if negb (io_DryRun options) && due then flush session files else (files, (session, Ok ())).

Fixpoint importFiles (listed : list importableFile) (progress : Progress) (session : adoptSession) (files : LockFiles)
    : Cas (LockFiles * result Progress) :=
  match listed with
  | [] =>
      let '(files, (_, flushed)) := checkpoint true session files in
      mret (files, _ ← flushed; Ok progress)
  | file :: listed =>
      live ← casTried (calling plainError (contextErr m));
      match live with
      | inl _ => mret (files, Err "the context is done")
      | inr _ =>
          match skipReason options file (length (Imported progress)) with
          | Some reason => importFiles listed (skipping file reason progress) session files
          | None =>
              x ← adoptFirstReachable file session;
              match x with
              | (session, Err reason) => importFiles listed (skipping file reason progress) session files
              | (session, Ok adopted) =>
                  let progress := importing adopted progress in
                  match checkpoint (Nat.eqb (length (Imported progress) mod importCheckpointEvery) 0) session files with
                  | (files, (_, Err e)) => mret (files, Err e)
                  | (files, (session, Ok _)) => importFiles listed progress session files
                  end
              end
          end
      end
  end.

(** [ImportRepository] once the index has been read. *)
Definition importListed (listed : list importableFile) (files : LockFiles) : Cas (LockFiles * result Progress) :=
  match loadAdoptSession opened (io_Repository options) files with
  | Err e => mret (files, Err e)
  | Ok session => importFiles listed (mkProgress [] []) session files
  end.
End import.

(** ** Reading an index *)

(** What import asks for beside the options. *)
Record ImportRepositoryRequest := mkImportRequest {
  ir_URL : string; ir_Suite : string; ir_Component : string; ir_Architecture : string; ir_Project : string; ir_PublicOrigin : bool;
  ir_Options : ImportOptions;
}.

(** The entries of an index, as the readers of the formats return them. *)
Record SimpleFile := mkSimpleFile { sf_Filename : string; sf_URL : string; sf_SHA256 : string; sf_Supported : bool }.
Record RepositoryChart := mkChart { rc_Name : string; rc_Version : string; rc_Digest : string; rc_URLs : list string; rc_Ambiguous : bool }.
Record ReleaseFile := mkReleaseFile { rf_Path : string; rf_Size : Z; rf_SHA256 : string }.
Record RepositoryRelease := mkDebRelease {
  rr_Suite : string; rr_Codename : string; rr_Components : list string; rr_Architectures : list string; rr_ValidUntil : string; rr_Files : list ReleaseFile;
}.
Record DebPackage := mkDebPackage {
  dp_Package : string; dp_Version : string; dp_Architecture : string; dp_Filename : string; dp_Size : Z; dp_SHA256 : string;
}.
Record RepositoryMetadata := mkMetadata { md_Kind : string; md_Location : string; md_SHA256 : string; md_Size : Z; md_OpenSHA256 : string }.
Record RpmPackage := mkRpmPackage {
  rp_Name : string; rp_Epoch : string; rp_Version : string; rp_Release : string; rp_Architecture : string; rp_Location : string; rp_SHA256 : string;
  rp_Size : Z; rp_Ambiguous : bool;
}.
Record ApkPackage := mkApkPackage {
  ap_Name : string; ap_Version : string; ap_Architecture : string; ap_Size : Z; ap_ControlSHA1 : string; ap_Ambiguous : bool;
}.
Definition apkFilename (p : ApkPackage) : string := ap_Name p +:+ "-" +:+ ap_Version p +:+ ".apk".

(** The operations of [net/url] that import uses beside [Parse], and the readers of
    [formats/*/repository.go], which are not modelled. *)
Class IndexLib := {
  (** An address with its path replaced. *)
  SetPath : string → URL → URL;
  (** [base.ResolveReference(reference).String()], the fragment of the reference dropped. *)
  ResolveReference : URL → URL → string;
  ParseSimpleProject : string → string → option (string * list SimpleFile);
  ParseRepositoryIndex : string → option (list RepositoryChart);
  ParseRepositoryRelease : string → option RepositoryRelease;
  DecompressRepositoryPackages : string → string → option string;
  ParseRepositoryPackages : string → option (list DebPackage);
  ParseRepomd : string → option (list RepositoryMetadata);
  DecompressPrimary : string → string → option string;
  ParsePrimary : string → option (list RpmPackage);
  ParseAPKIndex : string → option (list ApkPackage);
}.

Definition maximumIndexBytes : Z := Z.shiftl 32 20.
Definition maximumPackagesBytes : Z := Z.shiftl 64 20.
Definition MaximumRepomdBytes : Z := Z.shiftl 4 20.
Definition MaximumAPKIndexBytes : Z := Z.shiftl 64 20.
Definition RepomdPath : string := "repodata/repomd.xml".

(** [if i := strings.Index(s, sub); i >= 0] with [s[:i]]. *)
Fixpoint cut_first (sub s : string) : option string :=
  if HasPrefix s sub then Some ""
  else match s with
       | "" => None
       | String c s => match cut_first sub s with Some before => Some (String c before) | None => None end
       end.

Definition breaks : string := String "000" (String "013" (String "010" "\")).

Definition parseDoctorURL (raw : string) : option URL :=
  match ParseURL raw with
  | None => None
  | Some value =>
      if negb (bool_decide (Scheme value = "https")) || bool_decide (Host value = "") || HasUser value || negb (bool_decide (RawQuery value = "")) ||
         negb (bool_decide (Fragment value = "")) || ContainsAny raw breaks || HasControl (Path value) ||
         GoStrings.Contains (ToLower (RawPath value)) "%2f" || GoStrings.Contains (ToLower (RawPath value)) "%5c" then None
      else if existsb (λ segment, bool_decide (segment = ".") || bool_decide (segment = "..")) (Split "/" (Path value)) then None
      else Some value
  end.

Definition safeDoctorSegment (value : string) : bool :=
  negb (bool_decide (value = "") || (128 <? String.length value)%nat || bool_decide (value = ".") || bool_decide (value = "..")) &&
  all_bytes (λ c, byte_between "a" "z" c || byte_between "A" "Z" c || byte_between "0" "9" c || mem_byte c "-_.") value.

Section indexes.
Context `{!IndexLib}.

Definition resolveDoctorReference (baseRaw referenceRaw : string) : option URL :=
  match parseDoctorURL baseRaw with
  | None => None
  | Some base =>
      match ParseURL referenceRaw with
      | None => None
      | Some reference =>
          if HasUser reference || negb (bool_decide (RawQuery reference = "")) || ContainsAny referenceRaw breaks then None
          else parseDoctorURL (ResolveReference base reference)
      end
  end.

(** [doctorIndexURL] for the two formats import asks it about. *)
Definition simpleIndexURL (base : URL) (project : string) : option URL :=
  let clean := TrimSuffix (Path base) "/" in
  if bool_decide (project = "") then Some (if HasSuffix clean "/simple" then base else SetPath (clean +:+ "/simple/") base)
  else if negb (safeDoctorSegment (NormalizeName project)) then None
  else let prefix := match cut_first "/simple/" (clean +:+ "/") with Some before => before | None => TrimSuffix clean "/simple" end in
       Some (SetPath (prefix +:+ "/simple/" +:+ NormalizeName project +:+ "/") base).
Definition chartIndexURL (base : URL) : URL :=
  let clean := TrimSuffix (Path base) "/" in
  if HasSuffix clean ".yaml" || HasSuffix clean ".yml" then base else SetPath (clean +:+ "/index.yaml") base.
Definition slashed (base : URL) : URL := if HasSuffix (Path base) "/" then base else SetPath (Path base +:+ "/") base.

(** A file of an index, fetched; the status of the response is not looked at. *)
Definition fetchIndex (fetcher : option Fetcher) (address : URL) (limit : Z) : Cas FetchResponse :=
  answer ← counted (λ n, fetcher ≫= λ fetcher, fetcher_Fetch fetcher n (Rendered address) limit);
  match answer with Some response => mret response | None => casFail (BlobFailure false) end.
Definition required {A : Type} (value : option A) : Cas A := match value with Some a => mret a | None => casFail (BlobFailure false) end.

(** What a format reads from its index: the artifacts by name, and where the index was. *)
Definition byFilename (l r : importableFile) : bool := str_ltb (im_Filename l) (im_Filename r).
Definition enumerated (files : list importableFile) (index : URL) : Cas (list importableFile * string) :=
  mret (sort_slice byFilename files, Rendered index).

Definition importPyPIFiles (request : ImportRepositoryRequest) : Cas (list importableFile * string) :=
  _ ← casFail_when (bool_decide (ir_Project request = "")) (BlobFailure false);
  base ← required (parseDoctorURL (ir_URL request));
  index ← required (simpleIndexURL base (ir_Project request));
  response ← fetchIndex (io_Fetcher (ir_Options request)) index maximumIndexBytes;
  page ← required (ParseSimpleProject (resp_ContentType response) (resp_Body response));
  _ ← casFail_when (negb (bool_decide (page.1 = "")) && negb (bool_decide (NormalizeName page.1 = NormalizeName (ir_Project request)))) (BlobFailure false);
  enumerated ((λ f, mkImportable (sf_Filename f) [sf_URL f] (sf_SHA256 f) "index-stated" false) <$> List.filter sf_Supported page.2) index.

Definition chartFile (chart : RepositoryChart) : importableFile :=
  let filename := rc_Name chart +:+ "-" +:+ rc_Version chart +:+ ".tgz" in
  if rc_Ambiguous chart then mkImportable filename [] "" "" true
  else mkImportable filename (rc_URLs chart) (rc_Digest chart) "index-stated" false.
Definition importHelmFiles (request : ImportRepositoryRequest) : Cas (list importableFile * string) :=
  base ← required (parseDoctorURL (ir_URL request));
  let index := chartIndexURL base in
  response ← fetchIndex (io_Fetcher (ir_Options request)) index maximumIndexBytes;
  charts ← required (ParseRepositoryIndex (resp_Body response));
  enumerated (chartFile <$> charts) index.

Definition findReleaseFile (release : RepositoryRelease) (wanted : string) : option ReleaseFile :=
  head (([".xz"; ".gz"; ""; ".zst"] : list string) ≫= λ suffix,
          match List.find (λ f, bool_decide (rf_Path f = wanted +:+ suffix)) (rr_Files release) with Some f => [f] | None => [] end).

Definition componentOf (request : ImportRepositoryRequest) (release : RepositoryRelease) : string :=
  if bool_decide (ir_Component request = "") then default "" (head (rr_Components release)) else ir_Component request.
Definition architectureOf (request : ImportRepositoryRequest) (release : RepositoryRelease) : string :=
  if bool_decide (ir_Architecture request = "") then default "" (List.find (λ a, negb (bool_decide (a = "all"))) (rr_Architectures release))
  else ir_Architecture request.

(** An entry whose location does not resolve is left out. *)
Definition debFile (base : URL) (entry : DebPackage) : option importableFile :=
  address ← resolveDoctorReference (Rendered base) (dp_Filename entry);
  Some (mkImportable (Base (dp_Filename entry)) [Rendered address] (dp_SHA256 entry) "index-chain" false).
Definition importDebFiles (request : ImportRepositoryRequest) : Cas (list importableFile * string) :=
  base ← required (parseDoctorURL (ir_URL request));
  let base := slashed base in
  _ ← casFail_when (bool_decide (ir_Suite request = "")) (BlobFailure false);
  releaseURL ← required (resolveDoctorReference (Rendered base) ("dists/" +:+ ir_Suite request +:+ "/Release"));
  releaseResponse ← fetchIndex (io_Fetcher (ir_Options request)) releaseURL maximumIndexBytes;
  release ← required (ParseRepositoryRelease (resp_Body releaseResponse));
  let component := componentOf request release in
  let architecture := architectureOf request release in
  _ ← casFail_when (bool_decide (component = "") || bool_decide (architecture = "")) (BlobFailure false);
  listed ← required (findReleaseFile release (component +:+ "/binary-" +:+ architecture +:+ "/Packages"));
  packagesURL ← required (resolveDoctorReference (Rendered releaseURL) (rf_Path listed));
  packagesResponse ← fetchIndex (io_Fetcher (ir_Options request)) packagesURL maximumPackagesBytes;
  _ ← casFail_when (negb (lengthOf (resp_Body packagesResponse) =? rf_Size listed) ||
                    negb (bool_decide (SHA256Hex (resp_Body packagesResponse) = rf_SHA256 listed))) (BlobFailure false);
  content ← required (DecompressRepositoryPackages (rf_Path listed) (resp_Body packagesResponse));
  packages ← required (ParseRepositoryPackages content);
  enumerated (omap (debFile base) packages) packagesURL.

Definition FindMetadata (metadata : list RepositoryMetadata) (kind : string) : option RepositoryMetadata :=
  List.find (λ entry, bool_decide (md_Kind entry = kind)) metadata.
Definition rpmFile (base : URL) (entry : RpmPackage) : option importableFile :=
  address ← resolveDoctorReference (Rendered base) (rp_Location entry);
  Some (mkImportable (Base (rp_Location entry)) [Rendered address] (rp_SHA256 entry) "index-chain" (rp_Ambiguous entry)).
Definition importRPMFiles (request : ImportRepositoryRequest) : Cas (list importableFile * string) :=
  base ← required (parseDoctorURL (ir_URL request));
  let base := slashed base in
  repomdURL ← required (resolveDoctorReference (Rendered base) RepomdPath);
  repomdResponse ← fetchIndex (io_Fetcher (ir_Options request)) repomdURL MaximumRepomdBytes;
  metadata ← required (ParseRepomd (resp_Body repomdResponse));
  primary ← required (FindMetadata metadata "primary");
  _ ← casFail_when (bool_decide (md_SHA256 primary = "")) (BlobFailure false);
  primaryURL ← required (resolveDoctorReference (Rendered base) (md_Location primary));
  primaryResponse ← fetchIndex (io_Fetcher (ir_Options request)) primaryURL maximumPackagesBytes;
  _ ← casFail_when (negb (md_Size primary =? 0) && negb (lengthOf (resp_Body primaryResponse) =? md_Size primary)) (BlobFailure false);
  _ ← casFail_when (negb (bool_decide (SHA256Hex (resp_Body primaryResponse) = md_SHA256 primary))) (BlobFailure false);
  content ← required (DecompressPrimary (md_Location primary) (resp_Body primaryResponse));
  packages ← required (ParsePrimary content);
  enumerated (omap (rpmFile base) packages) primaryURL.

Definition apkFile (base : URL) (entry : ApkPackage) : option importableFile :=
  address ← resolveDoctorReference (Rendered base) (apkFilename entry);
  Some (mkImportable (apkFilename entry) [Rendered address] "" "computed" (ap_Ambiguous entry)).
Definition importAPKFiles (request : ImportRepositoryRequest) : Cas (list importableFile * string) :=
  base ← required (parseDoctorURL (ir_URL request));
  let base := slashed base in
  index ← required (resolveDoctorReference (Rendered base) "APKINDEX.tar.gz");
  response ← fetchIndex (io_Fetcher (ir_Options request)) index MaximumAPKIndexBytes;
  packages ← required (ParseAPKIndex (resp_Body response));
  enumerated (omap (apkFile base) packages) index.

(** [importEnumerators]. *)
Definition importEnumerator (format : string) : option (ImportRepositoryRequest → Cas (list importableFile * string)) :=
  if bool_decide (format = "pypi") then Some importPyPIFiles
  else if bool_decide (format = "helm") then Some importHelmFiles
  else if bool_decide (format = "deb") then Some importDebFiles
  else if bool_decide (format = "rpm") then Some importRPMFiles
  else if bool_decide (format = "apk") then Some importAPKFiles
  else None.

Definition importFormat (opened : Opened) (repository : string) : result string :=
  manifest ← op_Manifest opened;
  match man_Repositories manifest !! repository with
  | None => Err "repository is not configured; run setup first"
  | Some configured => Ok (repo_Format configured)
  end.

(** The two lists of the result, with where the index was and how many it listed. *)
Definition ImportRepository (opened : Opened) (complete : result ()) (root : string) (request : ImportRepositoryRequest) (files : LockFiles)
    : Cas (LockFiles * result (Progress * (string * nat))) :=
  let options := ir_Options request in
  if bool_decide (is_Some (io_Fetcher options)) then
  if negb (ir_PublicOrigin request) then mret (files, Err "import records one origin URL per artifact, so it requires confirmation that they are public")
  else if bool_decide (io_Repository options = "") then mret (files, Err "import requires the repository to import into")
  else match importFormat opened (io_Repository options) with
       | Err e => mret (files, Err e)
       | Ok format =>
           match importEnumerator format with
           | None => mret (files, Err "import does not read repositories of this format yet")
           | Some enumerate =>
               index ← casTried (enumerate request);
               match index with
               | inl _ => mret (files, Err "the index cannot be read")
               | inr (listed, indexURL) =>
                   let resolve reference := Rendered <$> resolveDoctorReference indexURL reference in
                   x ← importListed opened complete root options resolve listed files;
                   mret (x.1, progress ← x.2; Ok (progress, (indexURL, length listed)))
               end
           end
       end
  else mret (files, Err "import fetcher is required").
End indexes.

(** ** Adding files *)

Record AddArtifactsRequest := mkAddRequest {
  add_Repository : string; add_Name : string; add_Version : string; add_Track : string; add_Artifacts : list string;
}.
Record AddArtifactsResult := mkAddResult { added_Repository : string; added_Added : Z; added_Skipped : Z; added_Packages : list string }.

(** [resolveBlobStore]: none where blobs are local. *)
Definition resolveBlobStore {A : Type} (manifest : Manifest) (resolver : option (result (option A))) : result (option A) :=
  if bool_decide (bs_Type (man_BlobStore manifest) = "local") then Ok None
  else match resolver with
       | None => Err "remote blob store resolver is required"
       | Some (Err e) => Err e
       | Some (Ok None) => Err "remote blob store resolver returned no store"
       | Some (Ok (Some store)) => Ok (Some store)
       end.

(** A store, asked the nth time to keep a content under a digest and a size. *)
Definition BlobStore : Type := nat → string → Z → string → bool.

Record Adding := mkAdding { ag_Lock : RepositoryLock; ag_Added : Z; ag_Skipped : Z; ag_Packages : gset string }.

(** The upload of one blob: it is read back from the cache. *)
Definition uploadBlob (root : string) (repository : Repository) (selected : Format) (store : BlobStore) (blob : ArtifactBlob) : Cas () :=
  let locked := ToLockedBlob blob in
  loaded ← LoadBlob m sameFile root (repo_Format repository) locked
             (IdentityFor (Some selected) (fact_Name (ab_Facts blob)) (fact_Version (ab_Facts blob)));
  content ← calling plainError (ReadFile m loaded.2);
  kept ← counted (λ n, store n (SHA256 locked) (Size locked) content);
  casFail_when (negb kept) (BlobFailure false).

Definition addArtifact (root : string) (request : AddArtifactsRequest) (repository : Repository) (selected : Format) (store : option BlobStore)
    (artifact : string) (adding : Adding) : Cas (result Adding) :=
  put ← casTried (PutArtifact m sameFile root (repo_Format repository) artifact (mkIdentity (add_Name request) (add_Version request)));
  match put with
  | inl _ => mret (Err "the artifact cannot be stored")
  | inr blob =>
      uploaded ← casTried (match store with None => mret () | Some store => uploadBlob root repository selected store blob end);
      match uploaded with
      | inl _ => mret (Err "the artifact cannot be uploaded")
      | inr _ =>
          at_ ← counted now;
          let packageName := nativePackageName (repo_Format repository) (fact_Name (ab_Facts blob)) in
          let version := fact_Version (ab_Facts blob) in
          match AddBlob (ag_Lock adding) (repo_Format repository) (add_Track request) (defaultPlacementDistro repository "")
                  (withAdded at_ None (ToLockedBlob blob)) packageName version with
          | (_, Err e) => mret (Err e)
          | (lock, Ok added) =>
              mret (Ok (mkAdding lock (ag_Added adding + (if added then 1 else 0)) (ag_Skipped adding + (if added then 0 else 1))
                          ({[packageName +:+ "@" +:+ version]} ∪ ag_Packages adding)))
          end
      end
  end.

Fixpoint addEach (root : string) (request : AddArtifactsRequest) (repository : Repository) (selected : Format) (store : option BlobStore)
    (artifacts : list string) (adding : Adding) : Cas (result Adding) :=
  match artifacts with
  | [] => mret (Ok adding)
  | artifact :: artifacts =>
      r ← addArtifact root request repository selected store artifact adding;
      match r with
      | Err e => mret (Err e)
      | Ok adding => addEach root request repository selected store artifacts adding
      end
  end.

(** What [AddArtifacts] reads. *)
Definition openAdding (opened : Opened) (request : AddArtifactsRequest) (resolver : option (result (option BlobStore))) (files : LockFiles)
    : result (Repository * Format * RepositoryLock * list PublicationRecord * option BlobStore) :=
  _ ← op_Git opened;
  refuse "at least one artifact is required" when bool_decide (add_Artifacts request = []);
  manifest ← op_Manifest opened;
  match man_Repositories manifest !! add_Repository request with
  | None => Err "repository is not configured"
  | Some repository =>
      selected ← For (repo_Format repository);
      lock ← LoadLock (op_Limit opened) files;
      _ ← ValidateLock lock (add_Repository request) (repo_Format repository);
      ledger ← op_Ledger opened;
      _ ← ValidatePublishedBindings lock ledger;
      store ← resolveBlobStore manifest resolver;
      Ok (repository, selected, lock, ledger, store)
  end.

Definition AddArtifacts (opened : Opened) (root : string) (request : AddArtifactsRequest) (resolver : option (result (option BlobStore)))
    (files : LockFiles) : Cas (LockFiles * result AddArtifactsResult) :=
  match openAdding opened request resolver files with
  | Err e => mret (files, Err e)
  | Ok (repository, selected, lock, ledger, store) =>
      r ← addEach root request repository selected store (add_Artifacts request) (mkAdding lock 0 0 ∅);
      match (adding ← r; _ ← ValidatePublishedBindings (ag_Lock adding) ledger; Ok adding) with
      | Err e => mret (files, Err e)
      | Ok adding =>
          let '(files, stored) := if negb (ag_Added adding =? 0) then LockShard.WriteLock files (ag_Lock adding) else (files, Ok ()) in
          mret (files, _ ← stored; Ok (mkAddResult (add_Repository request) (ag_Added adding) (ag_Skipped adding)
                                         (sort_slice str_ltb (elements (ag_Packages adding)))))
      end
  end.
End commands.
