(* ===== verification/AdoptProofs.v ===== *)
(** Adopting, importing and adding artifacts: what reaches the lock was pinned and stored,
    an import accounts for every file listed, and what an adoption that failed leaves in
    a session. *)

From S2P Require Import PublishLogic Prelude GoStrings GoSlices Model Formats Source Lock LockInvariant LockOps LockHistory JsonStrict Ledger LedgerProofs PlanJson LockShard ManifestOps.
From S2P Require Import S3KeyProofs S3Examples FileSystem LocalHostProofs Placements BlobCache BlobCacheProofs BlobImportProofs Adopt.

Open Scope Z_scope.

(** ** Computations that return *)

Definition total {A : Type} (act : Cas A) : Prop := ∀ s w, ∃ w' s' v, act s w = (w', inr (s', v)).

Lemma total_ret {A : Type} (a : A) : total (mret a).
Proof. intros s w. by eexists w, s, (inr a). Qed.
Lemma total_fail {A : Type} e : total (A := A) (casFail e).
Proof. intros s w. by eexists w, s, (inl e). Qed.
Lemma total_fail_when b e : total (casFail_when b e).
Proof. destruct b; [apply total_fail | apply total_ret]. Qed.
Lemma total_calling {A : Type} wrap (act : IO A) : total (calling wrap act).
Proof. intros s w. unfold calling, mbind, IO_bind, tried. destruct (act w) as [w' []]; by eexists _, _, _. Qed.
Lemma total_outcome {A : Type} (act : IO A) : total (casOutcome act).
Proof. intros s w. unfold casOutcome, mbind, IO_bind, tried. destruct (act w) as [w' r]; by eexists _, _, _. Qed.
Lemma total_counted {A : Type} (f : nat → A) : total (counted f).
Proof. intros s w. by eexists _, _, _. Qed.
Lemma total_bind {A B : Type} (act : Cas A) (f : A → Cas B) : total act → (∀ a, total (f a)) → total (act ≫= f).
Proof.
  intros Ha Hf s w. unfold mbind, Cas_bind, mbind, IO_bind. destruct (Ha s w) as (w' & s' & [e|a] & ->); [by eexists _, _, _ | apply Hf].
Qed.
Lemma total_tried {A : Type} (act : Cas A) : total act → total (casTried act).
Proof. intros Ha s w. unfold casTried, mbind, IO_bind. destruct (Ha s w) as (w' & s' & v & ->). by eexists _, _, _. Qed.
Lemma total_finally {A : Type} (act : Cas A) final : total act → total (casFinally act final).
Proof.
  intros Ha s w. unfold casFinally, mbind, IO_bind. destruct (Ha s w) as (w' & s' & v & ->). by eexists _, _, _.
Qed.

Create HintDb total.
#[export] Hint Resolve total_ret total_fail total_fail_when total_calling total_outcome total_counted total_tried total_finally : total.
#[export] Hint Extern 1 (total (_ ≫= _)) => apply total_bind; [|intros ?] : total.
#[export] Hint Extern 2 (total (match _ with _ => _ end)) => case_match : total.

Section totality.
Context `{NetLib, HashLib, TimeLib, !InspectLib} (m : Machine) (sameFile : nat → bool).

Lemma total_root wrap root : total (ResolveWorkspaceRoot m wrap root).
Proof.
  intros s w. unfold ResolveWorkspaceRoot. case_match; [by eexists _, _, _|]. unfold mbind, IO_bind, tried.
  destruct (EvalSymlinks m root w) as [w' []]; by eexists _, _, _.
Qed.
Lemma total_workspacePath root relative : total (WorkspacePath m root relative).
Proof. unfold WorkspacePath. pose proof total_root. auto 20 with total. Qed.
Lemma total_enter temporary target digest size : total (enterObject m sameFile temporary target digest size).
Proof. unfold enterObject, verifyStoredBlob. auto 20 with total. Qed.
Lemma total_put root format sourceName supplied : total (PutArtifact m sameFile root format sourceName supplied).
Proof. unfold PutArtifact. pose proof total_workspacePath. pose proof total_enter. auto 30 with total. Qed.
End totality.

#[export] Hint Resolve total_put : total.

(** ** Computations on a session *)

(** Whatever happens, it returns a session and a result that satisfy [Q]. *)
Definition ends {A : Type} (act : Adopting A) (session : adoptSession) (Q : adoptSession → result A → Prop) : Prop :=
  ∀ s w, ∃ w' s' session' r, act session s w = (w', inr (s', inr (session', r))) ∧ Q session' r.

Lemma ends_mono {A : Type} (act : Adopting A) session (Q R : adoptSession → result A → Prop) :
  ends act session Q → (∀ session' r, Q session' r → R session' r) → ends act session R.
Proof. intros Ha HQ s w. destruct (Ha s w) as (w' & s' & session' & r & E & Hr). eauto 10. Qed.
Lemma ends_bind {A B : Type} (act : Adopting A) (f : A → Adopting B) session (Q : adoptSession → result A → Prop) (R : adoptSession → result B → Prop) :
  ends act session Q → (∀ session' e, Q session' (Err e) → R session' (Err e)) → (∀ session' a, Q session' (Ok a) → ends (f a) session' R) →
  ends (act ≫= f) session R.
Proof.
  intros Ha He Hf s w. unfold mbind, Adopting_bind, mbind, Cas_bind, mbind, IO_bind. destruct (Ha s w) as (w' & s' & session' & [a|e] & -> & Hr).
  - by apply Hf.
  - repeat eexists. by apply He.
Qed.
Lemma ends_returning {A : Type} (r : result A) session (Q : adoptSession → result A → Prop) : Q session r → ends (returning r) session Q.
Proof. intros Hr s w. by repeat eexists. Qed.
Lemma ends_ret {A : Type} (a : A) session (Q : adoptSession → result A → Prop) : Q session (Ok a) → ends (mret a) session Q.
Proof. apply ends_returning. Qed.
Lemma ends_refusing b e session (Q : adoptSession → result () → Prop) :
  (b = true → Q session (Err e)) → (b = false → Q session (Ok ())) → ends (refusing b e) session Q.
Proof. intros He Hr. apply ends_returning. destruct b; [by apply He | by apply Hr]. Qed.
Lemma ends_onSession {A : Type} (f : adoptSession → A) session (Q : adoptSession → result A → Prop) : Q session (Ok (f session)) → ends (onSession f) session Q.
Proof. intros Hr s w. by repeat eexists. Qed.
Lemma ends_editing {A : Type} (f : RepositoryLock → RepositoryLock * result A) session (Q : adoptSession → result A → Prop) :
  (∀ lock r, f (ses_Lock session) = (lock, r) → Q (with_lock lock session) r) → ends (editing f) session Q.
Proof. intros Hr s w. unfold editing. destruct (f (ses_Lock session)) as [lock r]. repeat eexists. by apply Hr. Qed.
Lemma ends_finally {A : Type} (act : Adopting A) final session (Q : adoptSession → result A → Prop) :
  ends act session Q → ends (finallyRemoving act final) session Q.
Proof.
  intros Ha s w. unfold finallyRemoving, casFinally, mbind, IO_bind. destruct (Ha s w) as (w' & s' & session' & r & -> & Hr).
  cbn. by repeat eexists.
Qed.

(** What a computation of the cache returned, somewhere. *)
Definition returned {A : Type} (act : Cas A) (a : A) : Prop := ∃ s w s' w', act s w = (w', inr (s', inr a)).
Lemma ends_caching {A : Type} (act : Cas A) session (Q : adoptSession → result A → Prop) :
  total act → (∀ e, Q session (Err e)) → (∀ a, returned act a → Q session (Ok a)) → ends (caching act) session Q.
Proof.
  intros Ht He Hr s w. unfold caching, casTried, mbind, Cas_bind, mbind, IO_bind. destruct (Ht s w) as (w' & s' & [e|a] & E); rewrite E; cbn.
  - repeat eexists. apply He.
  - repeat eexists. apply Hr. by exists s, w, s', w'.
Qed.

(** A step that leaves the session as it is, before the rest. *)
Lemma ends_caching_then {A B : Type} (act : Cas A) (f : A → Adopting B) session (R : adoptSession → result B → Prop) :
  total act → (∀ e, R session (Err e)) → (∀ a, returned act a → ends (f a) session R) → ends (caching act ≫= f) session R.
Proof.
  intros Ht He Hf. eapply (ends_bind _ _ _ (λ session' r, session' = session ∧ ∀ a, r = Ok a → returned act a)).
  - apply ends_caching; [done | by intros e | by intros a Ha; split; [|intros ? [= <-]]].
  - intros session' e [-> _]. apply He.
  - intros session' a [-> Ha]. by apply Hf, Ha.
Qed.
Lemma ends_refusing_then {B : Type} b e (f : () → Adopting B) session (R : adoptSession → result B → Prop) :
  (∀ e, R session (Err e)) → (b = false → ends (f ()) session R) → ends (refusing b e ≫= f) session R.
Proof.
  intros He Hf. eapply (ends_bind _ _ _ (λ session' r, session' = session ∧ (is_ok r = true → b = false))).
  - apply ends_refusing; intros ->; by split.
  - intros session' e' [-> _]. apply He.
  - intros session' [] [-> Hb]. by apply Hf, Hb.
Qed.
Lemma ends_returning_then {A B : Type} (r : result A) (f : A → Adopting B) session (R : adoptSession → result B → Prop) :
  (∀ e, r = Err e → R session (Err e)) → (∀ a, r = Ok a → ends (f a) session R) → ends (returning r ≫= f) session R.
Proof.
  intros He Hf. eapply (ends_bind _ _ _ (λ session' r', session' = session ∧ r' = r)).
  - by apply ends_returning.
  - intros session' e [-> <-]. by apply He.
  - intros session' a [-> <-]. by apply Hf.
Qed.
Lemma ends_onSession_then {A B : Type} (g : adoptSession → A) (f : A → Adopting B) session (R : adoptSession → result B → Prop) :
  ends (f (g session)) session R → ends (onSession g ≫= f) session R.
Proof.
  intros Hf. eapply (ends_bind _ _ _ (λ session' r', session' = session ∧ r' = Ok (g session))).
  - by apply ends_onSession.
  - by intros session' e [_ ?].
  - by intros session' a [-> [= ->]].
Qed.

Lemma ends_editing_then {A B : Type} (g : RepositoryLock → RepositoryLock * result A) (f : A → Adopting B) session (R : adoptSession → result B → Prop) :
  (∀ lock e, g (ses_Lock session) = (lock, Err e) → R (with_lock lock session) (Err e)) →
  (∀ lock a, g (ses_Lock session) = (lock, Ok a) → ends (f a) (with_lock lock session) R) → ends (editing g ≫= f) session R.
Proof.
  intros He Hf. eapply (ends_bind _ _ _ (λ session' r, ∃ lock, session' = with_lock lock session ∧ g (ses_Lock session) = (lock, r))).
  - apply ends_editing. intros lock r E. by exists lock.
  - intros session' e (lock & -> & E). by apply He.
  - intros session' a (lock & -> & E). by apply Hf.
Qed.

(** ** Edits of the lock *)

Lemma target_others packageName version pvs pvs1 pv pvs2 q :
  target packageName version pvs pvs1 pv pvs2 → q ∈ pvs1 ∨ q ∈ pvs2 ∨ q = pv ∧ pv_Blobs pv ≠ [] → q ∈ pvs.
Proof.
  intros []; rewrite ?elem_of_app, ?elem_of_cons; [by intros [?|[?|[-> ?]]]; auto|].
  by intros [?|[?%not_elem_of_nil|[_ ?]]].
Qed.

Lemma AddBlob_only lock format track distro blob packageName version p v x :
  holds (AddBlob lock format track distro blob packageName version).1 p v x → holds lock p v x ∨ (p, v) = (packageName, version) ∧ x = blob.
Proof.
  destruct (AddBlob _ _ _ _ _ _ _) as [lock' r] eqn:E. apply AddBlob_inv in E. destruct r as [changed|e]; simpl; [|subst; by left].
  destruct E as (selected & pvs1 & pv & pvs2 & existed & _ & _ & Ht & _ & -> & _). intros (q & Hq & Hk & Hx). cbn in Hq.
  apply elem_of_app in Hq as [Hq|[->|Hq]%elem_of_cons].
  - left. exists q. split; [|done]. eapply target_others; eauto.
  - rewrite addTo_key in Hk. assert (x ∈ pv_Blobs pv ∨ x = blob) as [Hx'| ->].
    { destruct existed; cbn in Hx; [by left|]. by apply elem_of_app in Hx as [?|?%list_elem_of_singleton]; [left|right]. }
    + left. exists pv. split; [|done]. eapply target_others; [done|]. do 2 right. split; [done|]. intros E. rewrite E in Hx'. by apply not_elem_of_nil in Hx'.
    + right. by rewrite <- Hk, (target_key _ _ _ _ _ _ Ht).
  - left. exists q. split; [|done]. eapply target_others; eauto.
Qed.

Lemma SetBlobOrigin_only lock packageName version filename digest origin p v y :
  holds (SetBlobOrigin lock packageName version filename digest origin).1 p v y → ∃ x, holds lock p v x ∧ same_bytes x y.
Proof.
  unfold SetBlobOrigin. destruct (setOriginInVersions _ _ _ _ _ _) as [pvs r] eqn:E. simpl.
  apply setOriginInVersions_filled in E as [Hf _]. intros (q & Hq & Hk & Hy).
  apply list_elem_of_lookup in Hq as [i Hi]. destruct (Forall2_lookup_r _ _ _ _ _ Hf Hi) as (pv & Hpv & Eq & _ & Hb).
  apply list_elem_of_lookup in Hy as [j Hj]. destruct (Forall2_lookup_r _ _ _ _ _ Hb Hj) as (x & Hx & Hxy).
  exists x. split; [|by eapply origin_filled_same]. exists pv. rewrite <- Eq. eauto using list_elem_of_lookup_2.
Qed.

(** ** Adopting *)

Section adopting.
Context `{NetLib, HashLib, TomlLib, JsonLib, TimeLib, !LedgerLib, !InspectLib} (m : Machine) (sameFile : nat → bool).
Context (now : nat → string) (tempDir : string) (maximumGiven : string).

(** The artifact is what the origin served, within the limit. *)
Definition fetchedAs (request : AdoptArtifactRequest) (fetcher : Fetcher) (originURL : URL) (filename : string) (repository : Repository) (blob : ArtifactBlob)
    : Prop :=
  ∃ n response, fetcher_Fetch fetcher n (Rendered originURL) (maximumArtifactBytes maximumGiven) = Some response ∧ resp_StatusCode response = 200 ∧
    InspectArtifactBytes (repo_Format repository) filename (resp_Body response) (adoptIdentity request) = Some blob.
Definition pinnedTo (request : AdoptArtifactRequest) (blob : ArtifactBlob) : Prop := computing request = false → ab_SHA256 blob = aq_SHA256 request.

Lemma total_fetch fetcher address name : total (fetchArtifact m maximumGiven fetcher address name).
Proof. unfold fetchArtifact. auto 10 with total. Qed.
Lemma returned_fetch fetcher address name response : returned (fetchArtifact m maximumGiven fetcher address name) response →
  ∃ n, fetcher_Fetch fetcher n address (maximumArtifactBytes maximumGiven) = Some response.
Proof.
  intros (s & w & s' & w' & E). exists (calls w). revert E. unfold fetchArtifact, counted, mbind, Cas_bind, mbind, IO_bind.
  destruct (fetcher_Fetch _ _ _ _) as [response'|]; [|done]. case_match; [by intros [= <- <- <-]|].
  unfold calling, mbind, IO_bind. destruct (tried _ _) as [w1 [|[]]]; [done|done|]. by intros [= <- <- <-].
Qed.

Lemma fetch_ends request fetcher originURL filename temporaryName session :
  ends (fetchAndInspect m maximumGiven request fetcher originURL filename temporaryName) session (λ session' r, session' = session ∧
    ∀ blob, r = Ok blob → fetchedAs request fetcher originURL filename (ses_Repository session) blob ∧ pinnedTo request blob).
Proof.
  unfold fetchAndInspect. apply ends_caching_then; [apply total_fetch | done |]. intros response [n Hn]%returned_fetch.
  apply ends_refusing_then; [done|]. intros Hs%negb_false_iff%Z.eqb_eq. apply ends_caching_then; [auto with total | done |]. intros _ _.
  apply ends_refusing_then; [done|]. intros _. apply ends_onSession_then.
  destruct (InspectArtifactBytes _ _ _ _) as [blob|] eqn:Ei; [|by apply ends_returning].
  apply ends_refusing_then; [done|]. intros Hp. apply ends_caching_then; [auto with total | done |]. intros _ _.
  apply ends_ret. split; [done|]. intros ? [= <-]. split; [by exists n, response|].
  intros Hc. rewrite Hc in Hp. by apply negb_false_iff, bool_decide_eq_true in Hp.
Qed.

(** A session of the same workspace, of which the lock still binds what it bound. *)
Definition follows (session session' : adoptSession) : Prop :=
  ses_Repository session' = ses_Repository session ∧ ses_Ledger session' = ses_Ledger session ∧ ses_Name session' = ses_Name session ∧
  bytes_kept (ses_Lock session) (ses_Lock session').

Definition packageOf (repository : Repository) (blob : ArtifactBlob) : string * string :=
  (nativePackageName (repo_Format repository) (fact_Name (ab_Facts blob)), fact_Version (ab_Facts blob)).

(** The lock binds the artifact and nothing else that it did not bind, and holds up. *)
Definition recorded (request : AdoptArtifactRequest) (blob : ArtifactBlob) (session session' : adoptSession) : Prop :=
  (∃ y, holds (ses_Lock session') (packageOf (ses_Repository session) blob).1 (packageOf (ses_Repository session) blob).2 y ∧ same_bytes (ToLockedBlob blob) y) ∧
  (∀ p v y, holds (ses_Lock session') p v y →
     (∃ x, holds (ses_Lock session) p v x ∧ same_bytes x y) ∨ (p, v) = packageOf (ses_Repository session) blob ∧ same_bytes (ToLockedBlob blob) y) ∧
  ValidateLock (ses_Lock session') (aq_Repository request) (repo_Format (ses_Repository session)) = Ok () ∧
  ValidatePublishedBindings (ses_Lock session') (ses_Ledger session) = Ok ().

Lemma same_bytes_trans x y z : same_bytes x y → same_bytes y z → same_bytes x z.
Proof. intros (? & ? & ? & ?) (? & ? & ? & ?). repeat split; congruence. Qed.

(** What the two edits of the lock do together. *)
Lemma edits_recorded lock format track distro at_ blob packageName version filename origin l1 added l2 changed :
  AddBlob lock format track distro (withAdded at_ (Some origin) (ToLockedBlob blob)) packageName version = (l1, Ok added) →
  SetBlobOrigin l1 packageName version filename (ab_SHA256 blob) origin = (l2, Ok changed) →
  bytes_kept lock l2 ∧ (∃ y, holds l2 packageName version y ∧ same_bytes (ToLockedBlob blob) y) ∧
  ∀ p v y, holds l2 p v y → (∃ x, holds lock p v x ∧ same_bytes x y) ∨ (p, v) = (packageName, version) ∧ same_bytes (ToLockedBlob blob) y.
Proof.
  set (b := withAdded at_ _ _). intros E1 E2.
  pose proof (SetBlobOrigin_kept l1 packageName version filename (ab_SHA256 blob) origin) as K2. rewrite E2 in K2.
  pose proof (AddBlob_kept lock format track distro b packageName version) as K1. rewrite E1 in K1. cbn [fst] in K1, K2.
  split; [by etrans|]. split.
  - pose proof (add_blob_records lock format track distro b packageName version added) as Hr. rewrite E1 in Hr.
    destruct (Hr eq_refl) as [(x & Hx & Hxb) _]. destruct (K2 _ _ _ Hx) as (y & Hy & Hxy). exists y. split; [done|].
    destruct Hxb as (? & ? & ? & ?), Hxy as (? & ? & ? & ?). repeat split; cbn in *; congruence.
  - intros p v y Hy. pose proof (SetBlobOrigin_only l1 packageName version filename (ab_SHA256 blob) origin p v y) as Ho. rewrite E2 in Ho.
    destruct (Ho Hy) as (x & Hx & Hxy).
    pose proof (AddBlob_only lock format track distro b packageName version p v x) as Ha. rewrite E1 in Ha.
    destruct (Ha Hx) as [?|[? ->]]; [left; by exists x | right; by split].
Qed.

Lemma record_ends request originURL filename blob session :
  ends (recordArtifact now request originURL filename blob) session (λ session' r, follows session session' ∧ dirty session' = dirty session ∧
    ∀ changed, r = Ok changed → recorded request blob session session').
Proof.
  assert (follows session session) as Hself by by split_and!.
  unfold recordArtifact. do 2 apply ends_onSession_then. cbn zeta. apply ends_caching_then; [auto with total | done |]. intros at_ _.
  apply ends_refusing_then; [done|]. intros _.
  set (origin := mkOrigin _ _ _). set (repository := ses_Repository session).
  apply ends_editing_then.
  { intros l1 e E1. apply AddBlob_inv in E1 as ->. by split_and!. }
  intros l1 added E1.
  assert (bytes_kept (ses_Lock session) l1) as K1.
  { change l1 with (l1, Ok added).1. rewrite <- E1. apply AddBlob_kept. }
  apply ends_editing_then; cbn [ses_Lock with_lock].
  { intros l2 e E2. change l2 with (l2, @Err bool e).1. rewrite <- E2. split_and!; [|done..]. repeat split. cbn. etrans; [exact K1 | apply SetBlobOrigin_kept]. }
  intros l2 originChanged E2. destruct (edits_recorded _ _ _ _ _ _ _ _ _ _ _ _ _ _ E1 E2) as (K2 & Hin & Honly).
  assert (follows session (with_lock l2 session)) as Hfollows by (repeat split; exact K2).
  apply ends_onSession_then. cbn [ses_Lock with_lock].
  apply ends_returning_then; [by intros e _; split_and!|]. intros [] Hv. apply ends_returning_then; [by intros e _; split_and!|]. intros [] Hb.
  apply ends_ret. by split_and!.
Qed.

(** The blob cache took an artifact with this digest. *)
Definition storedAs (root : string) (repository : Repository) (digest : string) : Prop :=
  ∃ name supplied blob, returned (PutArtifact m sameFile root (repo_Format repository) name supplied) blob ∧ ab_SHA256 blob = digest.

Lemma store_ends root request temporaryName blob changed session :
  ends (storeArtifact m sameFile root request temporaryName blob changed) session (λ session' r,
    match r with
    | Err _ => session' = session
    | Ok _ => session' = with_dirty (dirty session || negb (aq_DryRun request) && changed) session ∧
              (aq_DryRun request = false → storedAs root (ses_Repository session) (ab_SHA256 blob))
    end).
Proof.
  assert (with_dirty (dirty session) session = session) as Hsame by by destruct session.
  unfold storeArtifact. destruct (aq_DryRun request); [apply ends_ret; cbn; by rewrite orb_false_r|].
  apply ends_onSession_then. apply ends_caching_then; [auto with total | done |]. intros _ _.
  apply ends_caching_then; [auto with total | done |]. intros stored Hput.
  apply ends_refusing_then; [done|]. intros Hd%negb_false_iff%bool_decide_eq_true.
  apply ends_caching_then; [auto with total | done |]. intros _ _.
  assert (storedAs root (ses_Repository session) (ab_SHA256 blob)) by by exists temporaryName, (adoptIdentity request), stored.
  destruct changed; cbn [andb negb]; [|apply ends_ret; by rewrite orb_false_r].
  intros s w. unfold marking. eexists _, _, _, _. split; [done|]. by rewrite orb_true_r.
Qed.

(** What an adoption that succeeded did: [blob] is the artifact. *)
Record adoption (root : string) (request : AdoptArtifactRequest) (fetcher : Fetcher) (originURL : URL) (filename : string)
    (session session' : adoptSession) (adopted : AdoptArtifactResult) (blob : ArtifactBlob) : Prop := mkAdoption {
  adoption_fetched : fetchedAs request fetcher originURL filename (ses_Repository session) blob;
  adoption_pinned : pinnedTo request blob;
  adoption_recorded : recorded request blob session session';
  adoption_stored : aq_DryRun request = false → storedAs root (ses_Repository session) (ab_SHA256 blob);
  adoption_result : ∃ changed, adopted = mkAdopted (aq_Repository request) (packageOf (ses_Repository session) blob).1 (packageOf (ses_Repository session) blob).2
                      filename (ab_SHA256 blob) (Rendered originURL) changed (aq_DryRun request);
  adoption_dirty : dirty session' = dirty session || negb (aq_DryRun request) && ad_Changed adopted;
}.

Lemma adopt_ends root request fetcher originURL filename session :
  ends (adoptInto m sameFile now tempDir maximumGiven root request fetcher originURL filename) session (λ session' r, follows session session' ∧
    match r with
    | Err _ => dirty session' = dirty session
    | Ok adopted => ∃ blob, adoption root request fetcher originURL filename session session' adopted blob
    end).
Proof.
  assert (follows session session) as Hself by by split_and!.
  unfold adoptInto. apply ends_caching_then; [auto with total | done |]. intros directory _. cbn zeta. apply ends_finally.
  apply ends_caching_then; [auto with total | done |]. intros _ _.
  eapply ends_bind; [apply fetch_ends | by intros session' e [-> _] |]. intros session1 blob [-> Hf]. destruct (Hf blob eq_refl) as [Hfetched Hpinned].
  eapply ends_bind; [apply record_ends | by intros session' e (? & ? & _) |]. intros session1 changed (Hfollows & Hdirty & Hr).
  pose proof (Hr changed eq_refl) as Hrecorded. destruct Hfollows as (E1 & E2 & E3 & K).
  eapply ends_bind; [apply store_ends | by intros session' e -> |]. intros session2 [] [-> Hs].
  apply ends_onSession_then. cbn [ses_Repository with_dirty]. apply ends_ret. split; [done|]. exists blob.
  rewrite E1 in Hs |- *. split; try done; [by exists changed|]. cbn. by rewrite Hdirty.
Qed.

(** ** What an adoption leaves in the cache *)

(** The entries in a state of a run hold an object with this digest in the cache of the
    workspace. *)
Definition cachedIn (resolved digest : string) (trail : list Disk) : Prop :=
  ∃ d content, d ∈ trail ∧ files d !! components (objectPath resolved digest) = Some (Regular content) ∧ SHA256Hex content = digest.

(** A call adds to the states the process went through. *)
Definition grows {A : Type} (act : IO A) : Prop := ∀ w, ∃ trail, past (act w).1 = past w ++ trail.
Lemma grows_call {A : Type} onFailure (f : nat → Disk → Errno + Disk * A) : grows (callOr m onFailure f).
Proof.
  intros w. unfold callOr. destruct (denied m _); [|destruct (f _ _) as [e|[d a]]]; cbn; rewrite <- ?app_assoc; by eexists.
Qed.

Section trail.
Context (root resolved : string).

(** Whatever happens it returns, adding states to those the process went through, still
    knows the root, and what it returns goes with the states added. *)
Definition traces {A : Type} (act : Adopting A) (R : A → list Disk → Prop) : Prop := ∀ session s w,
  resolvedRoots s !! root = Some resolved →
  ∃ w' s' session' r trail, act session s w = (w', inr (s', inr (session', r))) ∧ past w' = past w ++ trail ∧
    resolvedRoots s' !! root = Some resolved ∧ ∀ a, r = Ok a → R a trail.
Definition anyway {A : Type} (_ : A) (_ : list Disk) : Prop := True.

Lemma traces_returning {A : Type} (r : result A) (R : A → list Disk → Prop) : (∀ a, r = Ok a → R a []) → traces (returning r) R.
Proof. intros HR session s w Hs. eexists _, _, _, _, []. by rewrite app_nil_r. Qed.
Lemma traces_onSession {A : Type} (f : adoptSession → A) : traces (onSession f) anyway.
Proof. intros session s w Hs. eexists _, _, _, _, []. by rewrite app_nil_r. Qed.
Lemma traces_editing {A : Type} (f : RepositoryLock → RepositoryLock * result A) : traces (editing f) anyway.
Proof. intros session s w Hs. unfold editing. destruct (f _) as [lock r]. eexists _, _, _, _, []. by rewrite app_nil_r. Qed.
Lemma traces_marking : traces marking anyway.
Proof. intros session s w Hs. eexists _, _, _, _, []. by rewrite app_nil_r. Qed.
Lemma traces_counted {A : Type} (f : nat → A) : traces (caching (counted f)) anyway.
Proof. intros session s w Hs. eexists _, _, _, _, []. by rewrite app_nil_r. Qed.
Lemma traces_calling {A : Type} wrap (act : IO A) : grows act → traces (caching (calling wrap act)) anyway.
Proof.
  intros Ha session s w Hs. destruct (Ha w) as [trail Ht]. revert Ht.
  unfold caching, calling, casTried, mbind, Cas_bind, mbind, IO_bind, tried. destruct (act w) as [w' [e|a]]; cbn; intros Ht;
    by eexists _, _, _, _, trail.
Qed.
Lemma traces_bind {A B : Type} (act : Adopting A) (f : A → Adopting B) (R : A → list Disk → Prop) (Q : B → list Disk → Prop) :
  traces act R → (∀ a, traces (f a) (λ b trail, ∀ before, R a before → Q b (before ++ trail))) → traces (act ≫= f) Q.
Proof.
  intros Ha Hf session s w Hs. destruct (Ha session s w Hs) as (w1 & s1 & session1 & [a|e] & t1 & E1 & P1 & Hs1 & HR);
    unfold mbind, Adopting_bind, mbind, Cas_bind, mbind, IO_bind; rewrite E1.
  - destruct (Hf a session1 s1 w1 Hs1) as (w2 & s2 & session2 & r & t2 & E2 & P2 & Hs2 & HQ). rewrite E2.
    eexists _, _, _, _, (t1 ++ t2). split; [done|]. split; [by rewrite P2, P1, app_assoc|]. split; [done|].
    intros b Hb. apply HQ; [done|]. by apply HR.
  - eexists _, _, _, _, t1. by split_and!.
Qed.
Lemma traces_mono {A : Type} (act : Adopting A) (R Q : A → list Disk → Prop) :
  traces act R → (∀ a trail, R a trail → Q a trail) → traces act Q.
Proof.
  intros Ha HRQ session s w Hs. destruct (Ha session s w Hs) as (w1 & s1 & session1 & r & t1 & E1 & P1 & Hs1 & HR).
  eexists _, _, _, _, t1. split_and!; try done. intros a Hr. by apply HRQ, HR.
Qed.
(** What is said of the states holds of more of them. *)
Definition monotone (P : list Disk → Prop) : Prop := ∀ before trail after, P trail → P (before ++ trail ++ after).
Lemma traces_seq {A B : Type} (act : Adopting A) (f : A → Adopting B) (Q : B → list Disk → Prop) :
  (∀ b, monotone (Q b)) → traces act anyway → (∀ a, traces (f a) Q) → traces (act ≫= f) Q.
Proof.
  intros Hm Ha Hf. eapply traces_bind; [exact Ha|]. intros a. eapply traces_mono; [apply Hf|]. intros b trail Hb before _.
  pose proof (Hm b before trail [] Hb) as Hq. by rewrite app_nil_r in Hq.
Qed.
Lemma traces_finally {A : Type} (act : Adopting A) final (R : A → list Disk → Prop) :
  (∀ a, monotone (R a)) → grows final → traces act R → traces (finallyRemoving act final) R.
Proof.
  intros Hm Hg Ha session s w Hs. destruct (Ha session s w Hs) as (w1 & s1 & session1 & r & t1 & E1 & P1 & Hs1 & HR).
  unfold finallyRemoving, casFinally, mbind, IO_bind. rewrite E1. unfold ignoring. destruct (Hg w1) as [t2 P2].
  destruct (final w1) as [w2 r2]. cbn in *. eexists _, _, _, _, (t1 ++ t2). split; [done|]. split; [by rewrite P2, P1, app_assoc|].
  split; [done|]. intros a Hr. by apply (Hm a []), HR.
Qed.

Lemma monotone_cached (condition : Prop) digest : monotone (λ trail, condition → cachedIn resolved digest trail).
Proof. intros before trail after Hc Hcond. destruct (Hc Hcond) as (d & content & Hd & Hp). exists d, content. split; [set_solver|done]. Qed.

Hypothesis considerate : ∀ fs, Considerate m fs.
Hypothesis othersKeep : keepsObjects m.
Hypothesis hexDigests : ∀ content, ValidSHA256 (SHA256Hex content) = true.

Lemma caching_result {A : Type} (act : Cas A) session s w w' s' v : act s w = (w', inr (s', v)) →
  caching act session s w = (w', inr (s', inr (session, match v with inr a => Ok a | inl _ => Err "the artifact cannot be read or stored" end))).
Proof. intros E. unfold caching, casTried, mbind, Cas_bind, mbind, IO_bind. by rewrite E. Qed.

Lemma context_result s w : calling plainError (contextErr m) s w =
  (reached (disk (arrive m w)) (arrive m w), inr (s, if denied m (calls w) then inl (plainError OtherError) else inr ())).
Proof. unfold calling, contextErr, look, callDisk, mbind, IO_bind, tried, callOr. by destruct (denied m (calls w)). Qed.

(** Importing, then a call: the call finds the object in the cache. *)
Lemma traces_put {B : Type} format name supplied (check : ArtifactBlob → bool) e digest (k : Adopting B) :
  (∀ stored, check stored = false → ab_SHA256 stored = digest) → traces k anyway →
  traces (stored ← caching (PutArtifact m sameFile root format name supplied); _ ← refusing (check stored) e;
          _ ← caching (calling plainError (contextErr m)); k) (λ _, cachedIn resolved digest).
Proof.
  intros Hcheck Hk session s w Hs.
  destruct (import_is_there m sameFile root resolved format name supplied s w (considerate _) othersKeep hexDigests Hs)
    as [(t1 & P1 & _) (s1 & v & Hr & Hs1 & Hv)]. revert P1 Hr Hv.
  destruct (PutArtifact _ _ _ _ _ _ s w) as [w1 out] eqn:Ep. cbn [fst snd]. intros P1 -> Hv. apply (caching_result _ session) in Ep.
  unfold mbind, Adopting_bind, mbind, Cas_bind, mbind, IO_bind. rewrite Ep. clear Ep. destruct v as [e'|stored]; cbn.
  { eexists _, _, _, _, t1. by split_and!. }
  destruct (check stored) eqn:Ec; cbn; [eexists _, _, _, _, t1; by split_and!|].
  destruct Hv as (content & Hp & Hd & _). rewrite (Hcheck _ Ec) in Hp, Hd.
  assert (files (disk (arrive m w1)) !! components (objectPath resolved digest) = Some (Regular content)) as Hthere.
  { apply (othersKeep (calls w1) (files (disk w1)) _ digest); [|by rewrite <- Hd|done]. rewrite <- Hd. by apply objectPath_last. }
  pose proof (context_result s1 w1) as Ex. apply (caching_result _ session) in Ex. rewrite Ex. clear Ex.
  set (t2 := [disk (arrive m w1); disk (arrive m w1)]).
  assert (∀ d, d = disk (arrive m w1) → past (reached d (arrive m w1)) = past w ++ t1 ++ t2) as P2.
  { intros d ->. cbn. rewrite P1, <- !app_assoc. done. }
  destruct (denied m (calls w1)).
  - eexists _, _, _, _, (t1 ++ t2). split; [done|]. by split; [apply P2|].
  - destruct (Hk session s1 (reached (disk (arrive m w1)) (arrive m w1)) Hs1) as (w3 & s3 & session3 & r3 & t3 & E3 & P3 & Hs3 & _).
    rewrite E3. eexists _, _, _, _, (t1 ++ t2 ++ t3). split; [done|]. split; [by rewrite P3, P2, !app_assoc|].
    split; [done|]. intros b _. exists (disk (arrive m w1)), content. split; [unfold t2; set_solver|done].
Qed.

Lemma traces_refusing b e : traces (refusing b e) anyway.
Proof. by apply traces_returning. Qed.

Lemma traces_store request temporaryName blob changed :
  traces (storeArtifact m sameFile root request temporaryName blob changed)
    (λ _ trail, aq_DryRun request = false → cachedIn resolved (ab_SHA256 blob) trail).
Proof.
  unfold storeArtifact. destruct (aq_DryRun request); [by apply (traces_returning (Ok ()))|].
  apply (traces_mono _ (λ _, cachedIn resolved (ab_SHA256 blob))); [|by intros [] trail Hc _].
  assert (∀ b : (), monotone (λ trail, cachedIn resolved (ab_SHA256 blob) trail)) as Hmono.
  { intros _ before trail after (d & content & Hd & Hp). exists d, content. split; [set_solver|done]. }
  apply traces_seq; [done | apply traces_onSession |]. intros repository.
  apply traces_seq; [done | apply traces_calling, grows_call |]. intros [].
  apply (traces_put _ _ _ (λ stored, negb (bool_decide (ab_SHA256 stored = ab_SHA256 blob)))).
  - by intros stored ?%negb_false_iff%bool_decide_eq_true.
  - destruct changed; [apply traces_marking | by apply (traces_returning (Ok ()))].
Qed.

Lemma traces_fetch request fetcher originURL filename temporaryName :
  traces (fetchAndInspect m maximumGiven request fetcher originURL filename temporaryName) anyway.
Proof.
  assert (∀ {A : Type} (b : A), monotone (anyway b)) as Hm by done.
  unfold fetchAndInspect. apply traces_seq; [apply Hm| |].
  { intros session s w Hs. unfold fetchArtifact, caching, casTried, counted, mbind, Cas_bind, mbind, IO_bind.
    destruct (fetcher_Fetch _ _ _ _) as [response|]; [|eexists _, _, _, _, []; by rewrite app_nil_r].
    destruct (_ && _); [eexists _, _, _, _, []; by rewrite app_nil_r|].
    destruct (traces_calling plainError (WriteTo m temporaryName (resp_Body response)) (grows_call _ _) session s w Hs)
      as (w1 & s1 & session1 & r1 & t1 & E1 & P1 & Hs1 & _).
    revert E1. unfold caching, calling, casTried, mbind, Cas_bind, mbind, IO_bind, tried.
    destruct (WriteTo m temporaryName (resp_Body response) w) as [w2 [e|[]]]; cbn; intros [= <- <- <- <-]; by eexists _, _, _, _, t1. }
  intros response. apply traces_seq; [apply Hm | apply traces_refusing |]. intros [].
  apply traces_seq; [apply Hm | apply traces_calling, grows_call |]. intros [].
  apply traces_seq; [apply Hm | apply traces_refusing |]. intros [].
  apply traces_seq; [apply Hm | apply traces_onSession |]. intros repository.
  destruct (InspectArtifactBytes _ _ _ _); [|by apply traces_returning].
  apply traces_seq; [apply Hm | apply traces_refusing |]. intros [].
  apply traces_seq; [apply Hm | apply traces_calling, grows_call |]. intros []. by apply (traces_returning (Ok _)).
Qed.

Lemma traces_record request originURL filename blob : traces (recordArtifact now request originURL filename blob) anyway.
Proof.
  assert (∀ {A : Type} (b : A), monotone (anyway b)) as Hm by done.
  unfold recordArtifact. do 2 (apply traces_seq; [apply Hm | apply traces_onSession |]; intros ?). cbn zeta.
  apply traces_seq; [apply Hm | apply traces_counted |]. intros at_.
  apply traces_seq; [apply Hm | apply traces_refusing |]. intros [].
  do 2 (apply traces_seq; [apply Hm | apply traces_editing |]; intros ?).
  apply traces_seq; [apply Hm | apply traces_onSession |]. intros lock.
  do 2 (apply traces_seq; [apply Hm | by apply traces_returning |]; intros ?). by apply (traces_returning (Ok _)).
Qed.

(** An adoption that succeeds went through a state in which the cache had the artifact. *)
Lemma adopt_caches request fetcher originURL filename :
  traces (adoptInto m sameFile now tempDir maximumGiven root request fetcher originURL filename)
    (λ adopted trail, aq_DryRun request = false → cachedIn resolved (ad_SHA256 adopted) trail).
Proof.
  unfold adoptInto. apply traces_seq; [intros; apply monotone_cached | apply traces_calling, grows_call |]. intros directory. cbn zeta.
  apply traces_finally; [intros; apply monotone_cached | apply grows_call |].
  apply traces_seq; [intros; apply monotone_cached | apply traces_calling, grows_call |]. intros [].
  apply traces_seq; [intros; apply monotone_cached | apply traces_fetch |]. intros blob.
  apply traces_seq; [intros; apply monotone_cached | apply traces_record |]. intros changed.
  eapply traces_bind; [apply traces_store|]. intros []. cbn beta.
  eapply (traces_bind _ _ anyway); [apply traces_onSession|]. intros repository.
  apply (traces_returning (Ok _)). intros adopted [= <-] between _ before Hc Hdry. cbn [ad_SHA256].
  rewrite app_nil_r. by apply (monotone_cached True _ [] before between (λ _, Hc Hdry)).
Qed.
End trail.

Lemma adopt_pinned opened complete root request lockFiles s w :
  ∃ w' s' lockFiles' r,
    AdoptArtifact m sameFile now tempDir maximumGiven opened complete root request lockFiles s w = (w', inr (s', inr (lockFiles', r))) ∧
    (aq_DryRun request = true → lockFiles' = lockFiles) ∧
    let adopting adopted session session' :=
      loadAdoptSession opened (aq_Repository request) lockFiles = Ok session ∧ follows session session' ∧
      ∃ fetcher originURL filename blob, checkAdoptRequest request = Ok (fetcher, originURL, filename) ∧
        adoption root request fetcher originURL filename session session' adopted blob in
    match r with
    | Ok adopted => ∃ session session', adopting adopted session session' ∧
        if dirty session' then LockShard.WriteLock lockFiles (ses_Lock session') = (lockFiles', Ok ()) else lockFiles' = lockFiles
    | Err e => lockFiles' = lockFiles ∨ ∃ adopted session session', adopting adopted session session' ∧
        LockShard.WriteLock lockFiles (ses_Lock session') = (lockFiles', Err e)
    end.
Proof.
  unfold AdoptArtifact. destruct (checkAdoptRequest request) as [[[fetcher originURL] filename]|] eqn:Ec; [|by eexists _, _, _, _; split_and!; [done|done|left]].
  cbn [mbind result_bind]. destruct (adoptable opened complete) as [[]|]; [|by eexists _, _, _, _; split_and!; [done|done|left]].
  cbn [mbind result_bind]. destruct (loadAdoptSession _ _ _) as [session|] eqn:El; [|by eexists _, _, _, _; split_and!; [done|done|left]]. cbn [mbind result_bind].
  assert (dirty session = false) as Hclean.
  { revert El. unfold loadAdoptSession. destruct (op_Manifest opened) as [manifest|]; [|done]. cbn [mbind result_bind]. repeat case_match; try done.
    all: repeat (match goal with |- context [mbind _ ?x] => destruct x; [|done] end; cbn [mbind result_bind]); by intros [= <-]. }
  unfold mbind at 1, Cas_bind, mbind, IO_bind.
  destruct (adopt_ends root request fetcher originURL filename session s w) as (w1 & s1 & session1 & [adopted|e] & -> & Hf & Ha); [|by eexists _, _, _, _; split_and!; [done|done|left]].
  destruct Ha as [blob Ha]. pose proof (adoption_dirty _ _ _ _ _ _ _ _ _ Ha) as Hd. rewrite Hclean in Hd. cbn [orb] in Hd.
  unfold flush. destruct (dirty session1) eqn:Ed; cbn [negb].
  - assert (aq_DryRun request = true → False) by (intros Hdry; by rewrite Hdry in Hd).
    destruct (LockShard.WriteLock lockFiles (ses_Lock session1)) as [files' [[]|e]] eqn:Ew; eexists _, _, _, _; split_and!; try done.
    + exists session, session1. rewrite Ed. split_and!; try done. by exists fetcher, originURL, filename, blob.
    + right. exists adopted, session, session1. split_and!; try done. by exists fetcher, originURL, filename, blob.
  - eexists _, _, _, _; split_and!; [done|done|]. exists session, session1. rewrite Ed. split_and!; try done. by exists fetcher, originURL, filename, blob.
Qed.

Lemma adopt_cached resolved opened complete root request lockFiles s w w' s' lockFiles' adopted :
  resolvedRoots s !! root = Some resolved → (∀ fs, Considerate m fs) → keepsObjects m →
  (∀ content, ValidSHA256 (SHA256Hex content) = true) → aq_DryRun request = false →
  AdoptArtifact m sameFile now tempDir maximumGiven opened complete root request lockFiles s w = (w', inr (s', inr (lockFiles', Ok adopted))) →
  ∃ trail, past w' = past w ++ trail ∧ cachedIn resolved (ad_SHA256 adopted) trail.
Proof.
  intros Hs Hc Hk Hh Hdry. unfold AdoptArtifact.
  destruct (_ ← checkAdoptRequest request; _) as [[[[fetcher originURL] filename] session]|]; [|by intros [=]].
  unfold mbind at 1, Cas_bind, mbind, IO_bind.
  destruct (adopt_caches root resolved Hc Hk Hh request fetcher originURL filename session s w Hs)
    as (w1 & s1 & session1 & r & trail & -> & P & _ & Hr).
  destruct r as [a|e]; [|by intros [=]]. destruct (flush session1 lockFiles) as [f [? [[]|]]]; [|by intros [=]].
  intros [= <- <- <- <-]. exists trail. split; [done|]. by apply Hr.
Qed.

(** C22: adopting an artifact returns, whatever fails on the way.  If it succeeds, the lock it
    loaded was good, the artifact is what the origin served, it has the digest the request
    pins, unless that was declared to be computed, and the lock
    that was written is one that validates, keeps every published binding, binds
    all that was bound to the same bytes, and of other bytes only the artifact's.  If it
    fails the lock files are as they were, unless it was writing that lock that failed;
    and a dry run leaves them.  A success that is not a dry run went through a state in which
    the cache of this workspace held, under the artifact's digest, bytes with that digest:
    this for a workspace root that was resolved, digests that are lower-case hexadecimal, and
    other processes that enter only objects which hash to their names, keep files named by a
    digest and leave this one's temporary files alone. *)
Theorem adopted_artifact_is_pinned opened complete root request lockFiles s w :
  ∃ w' s' lockFiles' r,
    AdoptArtifact m sameFile now tempDir maximumGiven opened complete root request lockFiles s w = (w', inr (s', inr (lockFiles', r))) ∧
    (aq_DryRun request = true → lockFiles' = lockFiles) ∧
    let adopting adopted session session' :=
      loadAdoptSession opened (aq_Repository request) lockFiles = Ok session ∧ follows session session' ∧
      ∃ fetcher originURL filename blob, checkAdoptRequest request = Ok (fetcher, originURL, filename) ∧
        adoption root request fetcher originURL filename session session' adopted blob in
    match r with
    | Ok adopted => ∃ session session', adopting adopted session session' ∧
        if dirty session' then LockShard.WriteLock lockFiles (ses_Lock session') = (lockFiles', Ok ()) else lockFiles' = lockFiles
    | Err e => lockFiles' = lockFiles ∨ ∃ adopted session session', adopting adopted session session' ∧
        LockShard.WriteLock lockFiles (ses_Lock session') = (lockFiles', Err e)
    end ∧
    (∀ resolved adopted, resolvedRoots s !! root = Some resolved → (∀ fs, Considerate m fs) → keepsObjects m →
       (∀ content, ValidSHA256 (SHA256Hex content) = true) → aq_DryRun request = false → r = Ok adopted →
       ∃ trail, past w' = past w ++ trail ∧ cachedIn resolved (ad_SHA256 adopted) trail).
Proof.
  destruct (adopt_pinned opened complete root request lockFiles s w) as (w' & s' & lockFiles' & r & E & Hdry & Ha).
  exists w', s', lockFiles', r. split; [exact E|]. split; [exact Hdry|]. split; [exact Ha|].
  intros resolved adopted Hs Hc Hk Hh Hd ->. by eapply adopt_cached.
Qed.

(** ** Importing *)

#[local] Instance follows_preorder : PreOrder follows.
Proof.
  split; [by intros session; split_and!|]. intros s1 s2 s3 (E1 & E2 & E3 & K) (E1' & E2' & E3' & K').
  split_and!; [by rewrite E1' | by rewrite E2' | by rewrite E3' | by etrans].
Qed.

Section importing.
Context (opened : Opened) (complete : result ()) (root : string) (options : ImportOptions) (resolve : string → option string).

Lemma shared_ends request session :
  ends (adoptShared m sameFile now tempDir maximumGiven opened complete root request) session (λ session' r, follows session session' ∧
    match r with
    | Err _ => dirty session' = dirty session
    | Ok adopted => ∃ fetcher originURL filename blob, checkAdoptRequest request = Ok (fetcher, originURL, filename) ∧
                      adoption root request fetcher originURL filename session session' adopted blob
    end).
Proof.
  unfold adoptShared. apply ends_returning_then; [done|]. intros [[fetcher originURL] filename] Ec. apply ends_returning_then; [done|]. intros [] _.
  eapply ends_mono; [apply adopt_ends|]. intros session' [adopted|e] [Hf Ha]; [|done]. destruct Ha as [blob Ha]. eauto 10.
Qed.

(** What is said of an artifact imported for a file: its digest is the one the index states,
    it came from an address of the index, and unless this is a dry run the cache took it. *)
Definition importedFor (repository : Repository) (file : importableFile) (artifact : ImportArtifact) : Prop :=
  (im_SHA256 file ≠ "" → ia_SHA256 artifact = im_SHA256 file) ∧
  (im_Filename file ≠ "" → ia_Filename artifact = im_Filename file) ∧
  (∃ reference address parsed, reference ∈ im_URLs file ∧ resolve reference = Some address ∧ ParseURL address = Some parsed ∧ ia_Origin artifact = Rendered parsed) ∧
  (io_DryRun options = false → storedAs root repository (ia_SHA256 artifact)).
Definition artifactOf (adopted : AdoptArtifactResult) : ImportArtifact :=
  mkImported (ad_Package adopted) (ad_Version adopted) (ad_Filename adopted) (ad_SHA256 adopted) (ad_OriginURL adopted).

Lemma adoption_imports file address fetcher originURL filename session session' adopted blob reference :
  reference ∈ im_URLs file → resolve reference = Some address → checkAdoptRequest (importRequest options file address) = Ok (fetcher, originURL, filename) →
  adoption root (importRequest options file address) fetcher originURL filename session session' adopted blob →
  importedFor (ses_Repository session) file (artifactOf adopted).
Proof.
  intros Hin Hr Hc [_ Hp _ Hs (changed & ->) _]. cbn in Hs.
  assert (ParseURL address = Some originURL ∧ filename = (if bool_decide (im_Filename file = "") then Base (Path originURL) else im_Filename file)) as [Hu ->].
  { revert Hc. unfold checkAdoptRequest. cbn. destruct (io_Fetcher options); [|done]. case_match; [done|]. destruct (ParseURL address); [|done].
    cbn zeta. case_match; [done|]. case_match; [done|]. by intros [= _ <- <-]. }
  split_and!; cbn.
  - intros Hne. apply Hp. unfold computing. cbn. by rewrite bool_decide_eq_false_2.
  - intros Hne. by rewrite bool_decide_eq_false_2.
  - by exists reference, address, originURL.
  - done.
Qed.

Lemma first_ends file urls : ∀ lastErr session, (∀ reference, reference ∈ urls → reference ∈ im_URLs file) →
  ends (adoptFirst m sameFile now tempDir maximumGiven opened complete root options resolve file lastErr urls) session (λ session' r, follows session session' ∧
    match r with Err _ => dirty session' = dirty session | Ok adopted => importedFor (ses_Repository session) file (artifactOf adopted) ∧
      dirty session' = dirty session || negb (io_DryRun options) && ad_Changed adopted end).
Proof.
  induction urls as [|reference urls IH]; intros lastErr session Hin; cbn [adoptFirst]; [by apply ends_returning|].
  assert (∀ reference, reference ∈ urls → reference ∈ im_URLs file) as Hin' by (intros; apply Hin; by apply elem_of_cons; right).
  destruct (resolve reference) as [address|] eqn:Er; [|by apply IH].
  intros s w. unfold mbind, Cas_bind, mbind, IO_bind.
  destruct (shared_ends (importRequest options file address) session s w) as (w1 & s1 & session1 & [adopted|e] & -> & Hf & Ha).
  - destruct Ha as (fetcher & originURL & filename & blob & Hc & Ha). eexists _, _, _, _. split; [done|]. split; [done|].
    split; [|apply (adoption_dirty _ _ _ _ _ _ _ _ _ Ha)]. eapply adoption_imports; [|done..]. apply Hin, list_elem_of_here.
  - destruct (IH e session1 Hin' s1 w1) as (w2 & s2 & session2 & r & -> & Hf2 & Hr). eexists _, _, _, _. split; [done|]. split; [by etrans|].
    destruct Hf as (<- & _). by rewrite <- Ha.
Qed.

(** What became of each file listed. *)
Definition accounted (repository : Repository) (file : importableFile) (outcome : ImportArtifact + ImportSkipped) : Prop :=
  match outcome with
  | inl artifact => importedFor repository file artifact ∧ im_Ambiguous file = false ∧ (im_SHA256 file = "" → im_Provenance file = "computed") ∧
                    (io_MinimumProvenance options ≠ "" → AtLeast (im_Provenance file) (io_MinimumProvenance options) = true)
  | inr skipped => sk_Filename skipped = im_Filename file
  end.
Definition artifacts (outcomes : list (ImportArtifact + ImportSkipped)) : list ImportArtifact :=
  omap (λ o, match o with inl artifact => Some artifact | inr _ => None end) outcomes.
Definition skips (outcomes : list (ImportArtifact + ImportSkipped)) : list ImportSkipped :=
  omap (λ o, match o with inl _ => None | inr skipped => Some skipped end) outcomes.
Definition underLimit (imported : list ImportArtifact) : Prop := 0 < io_Limit options → Z.of_nat (length imported) <= io_Limit options.

(** The lock files after writes of locks that bind what the loaded one bound. *)
Definition writtenFrom (lock : RepositoryLock) (before after : LockFiles) : Prop :=
  rtc (λ files files', ∃ l, bytes_kept lock l ∧ (LockShard.WriteLock files l).1 = files') before after ∧ (io_DryRun options = true → after = before).

Lemma writtenFrom_weaken lock lock' before after : bytes_kept lock lock' → writtenFrom lock' before after → writtenFrom lock before after.
Proof. intros K [Hw Hd]. split; [|done]. eapply rtc_subrel; [|exact Hw]. intros f f' (l & Hl & E). exists l. split; [by etrans|done]. Qed.
Lemma writtenFrom_trans lock f1 f2 f3 : writtenFrom lock f1 f2 → writtenFrom lock f2 f3 → writtenFrom lock f1 f3.
Proof. intros [Hw Hd] [Hw' Hd']. split; [by etrans|]. intros E. by rewrite Hd', Hd. Qed.

Lemma checkpoint_written due session files :
  let '(files', (session', _)) := checkpoint options due session files in
  writtenFrom (ses_Lock session) files files' ∧ follows session session'.
Proof.
  unfold checkpoint, flush. destruct (io_DryRun options) eqn:Ed; cbn [negb andb]; [by split_and!|].
  destruct due; [|by split_and!]. destruct (negb (dirty session)); [by split_and!|].
  destruct (LockShard.WriteLock files (ses_Lock session)) as [files' [[]|e]] eqn:Ew; (split; [|by split_and!]);
    (split; [|by rewrite Ed]); apply rtc_once; exists (ses_Lock session); by rewrite Ew.
Qed.

Lemma skipReason_none file (imported : list ImportArtifact) : skipReason options file (length imported) = None →
  im_Ambiguous file = false ∧ (im_SHA256 file = "" → im_Provenance file = "computed") ∧
  (io_MinimumProvenance options ≠ "" → AtLeast (im_Provenance file) (io_MinimumProvenance options) = true) ∧
  (0 < io_Limit options → Z.of_nat (length imported) < io_Limit options).
Proof.
  unfold skipReason. destruct (im_Ambiguous file); [done|]. destruct (bool_decide (im_SHA256 file = "") && _) eqn:E1; [done|].
  destruct (negb (bool_decide (io_MinimumProvenance options = "")) && _) eqn:E2; [done|]. destruct ((0 <? io_Limit options) && _) eqn:E3; [done|]. intros _. split_and!; [done| | |].
  - intros Hs. rewrite bool_decide_eq_true_2 in E1 by done. by apply negb_false_iff, bool_decide_eq_true in E1.
  - intros Hm. rewrite bool_decide_eq_false_2 in E2 by done. by apply negb_false_iff in E2.
  - intros Hl. apply Z.ltb_lt in Hl. rewrite Hl in E3. by apply Z.leb_gt in E3.
Qed.

(** The loop of an import, from some progress. *)
Definition importGoes (listed : list importableFile) (progress : Progress) (session : adoptSession) (files : LockFiles) (files' : LockFiles)
    (r : result Progress) : Prop :=
  writtenFrom (ses_Lock session) files files' ∧
  ∀ progress', r = Ok progress' → ∃ outcomes, Forall2 (accounted (ses_Repository session)) listed outcomes ∧
    Imported progress' = Imported progress ++ artifacts outcomes ∧ Skipped progress' = Skipped progress ++ skips outcomes ∧ underLimit (Imported progress').

Lemma importGoes_skip file listed reason progress session session' files files' r : follows session session' →
  importGoes listed (skipping file reason progress) session' files files' r → importGoes (file :: listed) progress session files files' r.
Proof.
  intros (Er & _ & _ & K) [Hw Hr]. split; [by eapply writtenFrom_weaken|]. intros progress' Hp. destruct (Hr _ Hp) as (outcomes & Hf & Hi & Hs & Hl).
  exists (inr (mkSkipped (im_Filename file) reason) :: outcomes). rewrite Er in Hf. split_and!; [by constructor | done | | done].
  rewrite Hs. cbn. by rewrite <- app_assoc.
Qed.

Lemma files_import listed : ∀ progress session files, underLimit (Imported progress) → ∀ s w,
  ∃ w' s' files' r, importFiles m sameFile now tempDir maximumGiven opened complete root options resolve listed progress session files s w =
    (w', inr (s', inr (files', r))) ∧ importGoes listed progress session files files' r.
Proof.
  induction listed as [|file listed IH]; intros progress session files Hlimit s w; cbn [importFiles].
  { pose proof (checkpoint_written true session files) as Hc. destruct (checkpoint options true session files) as [files' [session' flushed]].
    eexists _, _, _, _. split; [done|]. split; [apply Hc|]. intros progress' Hp. exists []. rewrite !app_nil_r.
    destruct flushed; [|done]. by injection Hp as <-. }
  unfold mbind at 1, Cas_bind, mbind at 1, IO_bind. destruct (total_tried _ (total_calling plainError (contextErr m)) s w) as (w1 & s1 & [e|[e|[]]] & E); rewrite E.
  { exfalso. revert E. unfold casTried, mbind, IO_bind. destruct (calling _ _ _ _) as [? [|[? ?]]]; intros [=]. }
  { eexists _, _, _, _. split; [done|]. split; [|done]. by split. }
  destruct (skipReason options file _) as [reason|] eqn:Es.
  { destruct (IH (skipping file reason progress) session files Hlimit s1 w1) as (w' & s' & files' & r & -> & Hr).
    eexists _, _, _, _. split; [done|]. eapply importGoes_skip; [|exact Hr]. done. }
  apply skipReason_none in Es as (Ha & Hc & Hm & Hl). unfold mbind at 1, Cas_bind, mbind at 1, IO_bind.
  destruct (first_ends file (im_URLs file) "the index names no URL for this artifact" session (λ _ H, H) s1 w1) as (w2 & s2 & session2 & r & E2 & Hf & Hr).
  unfold adoptFirstReachable. rewrite E2. destruct r as [adopted|reason].
  2:{ destruct (IH (skipping file reason progress) session2 files Hlimit s2 w2) as (w' & s' & files' & r & -> & Hr').
      eexists _, _, _, _. split; [done|]. by eapply importGoes_skip. }
  set (progress2 := importing adopted progress). set (due := Nat.eqb _ _).
  pose proof (checkpoint_written due session2 files) as Hw. destruct (checkpoint options due session2 files) as [files2 [session3 [[]|e]]].
  2:{ eexists _, _, _, _. split; [done|]. split; [|done]. destruct Hf as (_ & _ & _ & K). eapply writtenFrom_weaken; [exact K | apply Hw]. }
  destruct Hw as [Hw Hf3]. assert (underLimit (Imported progress2)) as Hlimit2.
  { intros Hpos. specialize (Hl Hpos). cbn. rewrite length_app. cbn [length]. lia. }
  destruct (IH progress2 session3 files2 Hlimit2 s2 w2) as (w' & s' & files' & r & -> & [Hw' Hr']). eexists _, _, _, _. split; [done|].
  assert (follows session session3) as (Er & _ & _ & K) by by etrans. destruct Hf as (_ & _ & _ & K2). split.
  - eapply writtenFrom_trans; eapply writtenFrom_weaken; [|exact Hw| |exact Hw']; done.
  - intros progress' Hp. destruct (Hr' _ Hp) as (outcomes & Ho & Hi & Hsk & Hlim). rewrite Er in Ho.
    exists (inl (artifactOf adopted) :: outcomes). split_and!; [|by rewrite Hi; cbn; rewrite <- app_assoc | done | done].
    constructor; [|done]. by destruct Hr.
Qed.

End importing.
End adopting.

(** ** Objects stay *)

Section keeping.
Context `{NetLib, TimeLib, HashLib, !InspectLib, !Remembered} (m : Machine) (sameFile : nat → bool).
Hypothesis names : ∀ n, mem_byte "/" (suffix m n) = false.
Hypothesis othersKeep : keepsObjects m.
Context (p : list string) (digest content : string) (named : last p = Some digest) (valid : ValidSHA256 digest = true).

Definition anywhere (fs : FS) : Prop := True.
Definition held (fs : FS) : Prop := fs !! p = Some (Regular content).
Definition keeping {A : Type} (act : Cas A) : Prop := casHolds anywhere held act (λ _, held).

Lemma stable_held : stable m held.
Proof. intros n fs Hp. by eapply othersKeep. Qed.
Lemma keeping_bind {A B : Type} (act : Cas A) (f : A → Cas B) : keeping act → (∀ a, keeping (f a)) → keeping (act ≫= f).
Proof. intros Ha Hf. by eapply cas_bind. Qed.
Lemma keeping_reads {A : Type} (act : Cas A) phi : casReads m anywhere act phi → keeping act.
Proof. intros Ha. eapply cas_mono; [apply Ha; [apply stable_held | done] | done | by intros v fs [? _]]. Qed.
Lemma keeping_leaves {A : Type} wrap (act : IO A) : leaves m anywhere act → keeping (calling wrap act).
Proof. intros Ha. eapply keeping_reads, casReads_calling; [exact Ha | by intros v; exact I]. Qed.
Lemma keeping_ret {A : Type} (a : A) : keeping (mret a).
Proof. by apply cas_ret. Qed.
Lemma keeping_fail_when b e : keeping (casFail_when b e).
Proof. by apply cas_fail_when. Qed.
Lemma keeping_calling {A : Type} wrap (act : IO A) : PublishLogic.holds anywhere held act (λ _, held) → keeping (calling wrap act).
Proof. intros Ha. apply cas_calling. eapply holds_weaken; [exact Ha | done | by intros [] fs ?]. Qed.

Lemma held_mkdir q : PublishLogic.holds anywhere held (MkdirAll m q) (λ _, held).
Proof.
  apply stable_change; [apply stable_held | done | done |]. intros n fs fs' [] Hp. destruct (mkdirsAt [] (components q) fs) as [|fs1] eqn:E; [done|].
  intros [= <-]. split; [done|]. by apply (mkdirs_only _ _ _ _ E).
Qed.
Lemma keeping_durable name : keeping (calling plainError (makeDirectoriesDurable m name)).
Proof. apply keeping_calling, durable_keeps; [apply stable_held | done | apply held_mkdir]. Qed.

Lemma temporary_elsewhere tp : isTemporary m (components tp) → components tp ≠ p.
Proof.
  intros (name & Hl & k & Hk) E. rewrite E, named in Hl. simplify_eq. destruct (fetch_not_digest (suffix m k) name valid). by destruct Hk.
Qed.
Lemma held_create directory :
  casHolds anywhere held (calling plainError (CreateTemp m directory ".blob-")) (λ v fs, held fs ∧ whenLoaded (λ tp, isTemporary m (components tp)) v).
Proof.
  apply cas_calling. apply stable_change; [apply stable_held | done | by intros e fs ? e' |]. intros n fs fs' name Hp. unfold creating.
  destruct (creatable fs _) eqn:Ec; [done|]. intros [= <- <-]. split; [done|]. split.
  - unfold held. rewrite lookup_insert_ne; [done|]. intros E. unfold creatable in Ec. rewrite E, Hp in Ec. by rewrite bool_decide_eq_true_2 in Ec by done.
  - exists (".blob-" +:+ suffix m n). split; [|exists n; by right]. apply PathJoin_last_entry. by apply temporary_names_plain.
Qed.
Lemma held_write tp c : isTemporary m (components tp) → keeping (calling plainError (WriteTo m tp c)).
Proof.
  intros Ht%temporary_elsewhere. apply keeping_calling. apply stable_call; [apply stable_held|]. intros n d Hp.
  assert (∀ c', held (files (filled (components tp) c' d))) by (intros c'; unfold held, filled, with_files; cbn; by rewrite lookup_alter_ne).
  by split_and!.
Qed.
Lemma held_remove tp : isTemporary m (components tp) → PublishLogic.holds anywhere held (Remove m tp) (λ _, held).
Proof.
  intros Ht%temporary_elsewhere. apply stable_change; [apply stable_held | done | done |]. intros n fs fs' [] Hp. repeat case_match; try done.
  intros [= <-]. split; [done|]. unfold held. by rewrite lookup_delete_ne.
Qed.
Lemma held_enter tp target d size : keeping (enterObject m sameFile tp target d size).
Proof.
  unfold enterObject. eapply (cas_bind _ _ _ _ (λ _, held)); [| done |].
  - eapply cas_mono; [apply cas_outcome | done | by intros v fs (? & -> & Hv); exact Hv].
    apply stable_disk; [apply stable_held | done | done |]. intros n dk d' [] Hp. repeat case_match; try done. intros [= <-]. split; [done|].
    unfold held. cbn [files]. rewrite lookup_insert_ne; [done|]. intros E.
    match goal with Hc : creatable _ _ = None |- _ => unfold creatable in Hc; rewrite E, Hp in Hc; by rewrite bool_decide_eq_true_2 in Hc by done end.
  - intros [[]|[]]; try (by apply cas_fail); [|apply keeping_leaves; auto with leaves].
    unfold verifyStoredBlob. apply keeping_bind; [apply keeping_leaves; auto with leaves|]. intros []; try (by apply cas_fail).
    apply keeping_bind; [apply keeping_leaves; auto with leaves|]. intros c'.
    apply keeping_bind; [apply keeping_leaves; auto with leaves|]. intros same.
    apply keeping_bind; [apply keeping_fail_when|]. intros []. apply keeping_fail_when.
Qed.

Lemma held_workspacePath root relative : keeping (WorkspacePath m root relative).
Proof.
  unfold WorkspacePath. apply keeping_bind; [apply keeping_fail_when|]. intros []. apply keeping_bind; [eapply keeping_reads, reads_root|]. intros resolved.
  apply keeping_bind; [apply keeping_leaves; auto with leaves|]. intros existing. apply keeping_bind; [apply keeping_leaves; auto with leaves|]. intros resolvedExisting.
  apply keeping_bind; [apply keeping_fail_when|]. intros []. apply keeping_bind; [eapply keeping_reads, (casReads_outcome _ _ _ (λ _, True)); [auto with leaves | done]|].
  intros [e|entry]; [apply keeping_ret|]. apply keeping_bind; [apply keeping_leaves; auto with leaves|]. intros candidate.
  apply keeping_bind; [apply keeping_fail_when|]. intros []. apply keeping_ret.
Qed.
Lemma keeping_given {A : Type} (phi : Prop) (act : Cas A) : (phi → keeping act) → casHolds anywhere (λ fs, held fs ∧ phi) act (λ _, held).
Proof. intros Ha s Hs w [Hw Hphi]. by apply Ha. Qed.

Lemma put_keeps root format sourceName supplied : keeping (PutArtifact m sameFile root format sourceName supplied).
Proof.
  unfold PutArtifact. apply keeping_bind; [apply keeping_leaves; auto with leaves|]. intros info.
  destruct info as [|declared|t|], (formatMaximum format) as [maximum|]; try (by apply cas_fail).
  apply keeping_bind; [apply keeping_fail_when|]. intros []. apply keeping_bind; [apply held_workspacePath|]. intros casRoot.
  apply keeping_bind; [apply keeping_durable|]. intros [].
  eapply cas_bind; [apply held_create | by intros e fs [? _] |]. intros tp. apply keeping_given. intros Ht.
  eapply (cas_finally _ _ _ _ (λ _, held)); [|intros v; by apply held_remove].
  apply keeping_bind; [apply keeping_leaves; auto with leaves|]. intros source. cbn zeta. apply keeping_bind; [by apply held_write|]. intros [].
  apply keeping_bind; [apply keeping_fail_when|]. intros []. destruct (inspect _ _ _ _) as [facts|]; [|by apply cas_fail].
  apply keeping_bind; [apply keeping_durable|]. intros []. apply keeping_bind; [apply keeping_leaves; auto with leaves|]. intros [].
  apply keeping_bind; [apply keeping_leaves; unfold Chmod; auto with leaves|]. intros []. apply keeping_bind; [apply held_enter|]. intros []. apply keeping_ret.
Qed.

(** Reading a blob back leaves everything. *)
Lemma load_keeps root format locked supplied : keeping (LoadBlob m sameFile root format locked supplied).
Proof. eapply keeping_reads, reads_load. Qed.
End keeping.

(** ** Adding *)

Section adding.
Context `{NetLib, HashLib, TomlLib, JsonLib, TimeLib, !LedgerLib, !InspectLib, !Remembered}.
Context (m : Machine) (sameFile : nat → bool) (now : nat → string) (fs0 : FS) (root resolved : string).
Hypothesis rootKnown : roots_remembered !! root = Some resolved.
Hypothesis considerate : Considerate m fs0.
Hypothesis othersKeep : keepsObjects m.
Hypothesis hexDigests : ∀ content, ValidSHA256 (SHA256Hex content) = true.

(** The cache of the workspace holds the bytes of a blob. *)
Definition inCache (x : LockedBlob) (fs : FS) : Prop :=
  ∃ content, fs !! components (objectPath resolved (SHA256 x)) = Some (Regular content) ∧ SHA256Hex content = SHA256 x ∧ lengthOf content = Size x.

Lemma stable_inCache x : stable m (inCache x).
Proof.
  intros n fs (content & Hp & Hd & Hs). exists content. split_and!; [|done..].
  eapply (othersKeep n fs _ (SHA256 x)); [|by rewrite <- Hd|exact Hp]. rewrite <- Hd. by apply objectPath_last.
Qed.
Lemma put_keeps_cache x format sourceName supplied :
  casHolds anywhere (inCache x) (PutArtifact m sameFile root format sourceName supplied) (λ _, inCache x).
Proof.
  intros s Hm w (content & Hp & Hd & Hs).
  assert (ValidSHA256 (SHA256 x) = true) as Hv by by rewrite <- Hd.
  assert (last (components (objectPath resolved (SHA256 x))) = Some (SHA256 x)) as Hl by by rewrite <- Hd; apply objectPath_last.
  destruct (put_keeps m sameFile (cons_Names _ _ considerate) othersKeep _ (SHA256 x) content Hl Hv root format sourceName supplied s Hm w Hp)
    as [Ht (s' & v & Hr & Hm' & Hh)].
  split; [done|]. exists s', v. split; [done|]. split; [done|]. by exists content.
Qed.

(** The lock binds what another bound, to the same bytes, and beyond that only blobs that
    the cache holds. *)
Definition backed (l : RepositoryLock) (lock : RepositoryLock) (fs : FS) : Prop :=
  bytes_kept l lock ∧ ∃ new : list LockedBlob, (∀ x, x ∈ new → inCache x fs) ∧ ∀ p v x, LockOps.holds lock p v x → LockOps.holds l p v x ∨ x ∈ new.
Definition goes (l lock : RepositoryLock) (fs : FS) : Prop := admitted fs0 fs ∧ backed l lock fs.

Lemma stable_goes l lock : stable m (goes l lock).
Proof.
  intros n fs (Ha & K & new & Hn & Ho). split; [by apply (cons_Admit _ _ considerate)|]. split; [done|]. exists new. split; [|done].
  intros x Hx. by apply stable_inCache, Hn.
Qed.

Lemma put_goes l lock format sourceName supplied :
  casHolds (admitted fs0) (goes l lock) (PutArtifact m sameFile root format sourceName supplied)
    (λ v fs, goes l lock fs ∧ ∀ blob, v = inr blob → inCache (ToLockedBlob blob) fs).
Proof.
  intros s Hm w (Ha & K & new & Hn & Ho). destruct considerate as [Hnames Hadmit Hspare].
  destruct (import_enters m sameFile fs0 Hnames hexDigests Hadmit Hspare othersKeep root format sourceName supplied s Hm w Ha) as [Ht (s' & v & Hr & Hm' & Ha' & Hi)].
  split; [done|]. exists s', v. split; [done|]. split; [done|]. split.
  - split; [done|]. split; [done|]. exists new. split; [|done]. intros x Hx.
    destruct (put_keeps_cache x format sourceName supplied s Hm w (Hn x Hx)) as [_ (? & ? & _ & _ & Hc)]. exact Hc.
  - intros blob ->. destruct Hi as (found & Hres & _ & content & Hp & Hd & Hs). rewrite (Hres resolved rootKnown) in Hp. by exists content.
Qed.

Lemma counted_reads {A : Type} C (f : nat → A) : casReads m C (counted f) (λ _, True).
Proof. intros P HP HC s Hs w Hw. split; [exists []; by rewrite app_nil_r|]. by exists s, (inr (f (calls w))). Qed.
Lemma counted_then {A B : Type} C (f : nat → A) (g : A → Cas B) (P : FS → Prop) (Q : BlobError + B → FS → Prop) :
  (∀ a, casHolds C P (g a) Q) → casHolds C P (counted f ≫= g) Q.
Proof. intros Hg s Hs w Hw. by apply (Hg (f (calls w)) s Hs w). Qed.
Lemma upload_reads C repository selected store blob : casReads m C (uploadBlob m sameFile root repository selected store blob) (λ _, True).
Proof.
  unfold uploadBlob. apply casReads_seq; [eapply casReads_mono; [apply reads_load | done] | done |]. intros loaded.
  apply casReads_seq; [apply casReads_calling; auto with leaves | done |]. intros content.
  apply casReads_seq; [apply counted_reads | done |]. intros kept. by apply casReads_fail_when.
Qed.

Lemma goes_added l lock format track distro at_ blob packageName version lock' added fs :
  AddBlob lock format track distro (withAdded at_ None (ToLockedBlob blob)) packageName version = (lock', Ok added) →
  inCache (ToLockedBlob blob) fs → goes l lock fs → goes l lock' fs.
Proof.
  intros E Hc (Ha & K & new & Hn & Ho). split; [done|]. split.
  - etrans; [exact K|]. change lock' with (lock', @Ok bool added).1. rewrite <- E. apply AddBlob_kept.
  - exists (withAdded at_ None (ToLockedBlob blob) :: new). split.
    + intros x [->|Hx]%elem_of_cons; [exact Hc | by apply Hn].
    + intros p v x Hx. pose proof (AddBlob_only lock format track distro (withAdded at_ None (ToLockedBlob blob)) packageName version p v x) as Hon.
      rewrite E in Hon. rewrite elem_of_cons. destruct (Hon Hx) as [Hold|[_ ->]]; [|by auto]. destruct (Ho _ _ _ Hold); auto.
Qed.

Lemma artifact_goes l request repository selected store artifact adding :
  casHolds (admitted fs0) (goes l (ag_Lock adding)) (addArtifact m sameFile now root request repository selected store artifact adding)
    (λ v fs, goes l (ag_Lock adding) fs ∧ ∃ r, v = inr r ∧ ∀ adding', r = Ok adding' → goes l (ag_Lock adding') fs).
Proof.
  unfold addArtifact. eapply cas_bind; [apply cas_tried, put_goes | by intros e fs (? & ? & _) |]. intros put.
  eapply (cas_mono _ (λ fs, goes l (ag_Lock adding) fs ∧ ∀ blob, put = inr blob → inCache (ToLockedBlob blob) fs));
    [| by intros fs (? & [= <-] & ?) | intros v fs Hv; exact Hv].
  destruct put as [e|blob]; [apply cas_ret; intros fs [Hg _]; split; [done|]; by eexists|].
  set (P := λ fs, goes l (ag_Lock adding) fs ∧ inCache (ToLockedBlob blob) fs).
  assert (stable m P) as Hstable by (intros n fs [Hg Hc]; split; [by apply stable_goes | by apply stable_inCache]).
  assert (∀ fs, P fs → admitted fs0 fs) as HP by by intros fs [[? _] _].
  eapply (cas_mono _ P); [| intros fs [Hg Hc]; split; [done | by apply Hc] | intros v fs Hv; exact Hv].
  eapply cas_bind; [apply cas_tried | by intros e fs (? & ? & _) |].
  { destruct store as [store|]; [apply (upload_reads (admitted fs0) repository selected store blob P Hstable HP)|].
    apply cas_ret. intros fs Hfs. exact (conj Hfs I). }
  intros uploaded. eapply (cas_mono _ P); [| by intros fs (? & _ & ? & _) | intros v fs Hv; exact Hv].
  destruct uploaded as [e|[]]; [apply cas_ret; intros fs [Hg _]; split; [done|]; by eexists|].
  apply counted_then. intros at_. cbn zeta. destruct (AddBlob _ _ _ _ _ _ _) as [lock [added|e]] eqn:E.
  - apply cas_ret. intros fs [Hg Hc]. split; [done|]. eexists. split; [done|]. intros adding' [= <-]. by eapply goes_added.
  - apply cas_ret. intros fs [Hg _]. split; [done|]. by eexists.
Qed.

Lemma each_goes l request repository selected store artifacts : ∀ adding,
  casHolds (admitted fs0) (goes l (ag_Lock adding)) (addEach m sameFile now root request repository selected store artifacts adding)
    (λ v fs, admitted fs0 fs ∧ ∃ r, v = inr r ∧ ∀ adding', r = Ok adding' → goes l (ag_Lock adding') fs).
Proof.
  induction artifacts as [|artifact artifacts IH]; intros adding; cbn [addEach].
  { apply cas_ret. intros fs Hg. split; [apply Hg|]. eexists. split; [done|]. by intros adding' [= <-]. }
  eapply cas_bind; [apply artifact_goes | by intros e fs (_ & ? & ? & _) |]. intros [adding'|e].
  - eapply cas_mono; [apply IH | | intros v fs Hv; exact Hv]. intros fs (_ & r & [= <-] & Hr). by apply Hr.
  - apply cas_ret. intros fs ([Ha _] & _). split; [done|]. by eexists.
Qed.
End adding.

Lemma cas_step {A B : Type} (act : Cas A) (f : A → Cas B) s w w' s' a : act s w = (w', inr (s', inr a)) → (act ≫= f) s w = f a s' w'.
Proof. intros E. unfold mbind, Cas_bind, mbind, IO_bind. by rewrite E. Qed.

Section addingClaim.
Context `{NetLib, HashLib, TomlLib, JsonLib, TimeLib, !LedgerLib, !InspectLib}.

(** C23: adding files returns, whichever calls fail and whatever the store answers, and goes
    only through states in which every object of a cache hashes to its name or was there
    before.  It leaves the lock files, or writes a lock that keeps every published binding,
    binds all that was bound to the same bytes, and beyond that binds only artifacts whose bytes
    the cache of this workspace holds, under their digest and of their size.  It leaves them
    when it fails, unless it was that write that failed.  This is among other processes that
    enter only objects which hash to their names, keep files named by a digest and leave
    this one's temporary files alone, for digests that are lower-case hexadecimal and a
    workspace root that was resolved, as opening the workspace does. *)
Theorem added_artifacts_are_there m sameFile now opened root resolved request resolver lockFiles s w :
  Considerate m (files (disk w)) → keepsObjects m → (∀ content, ValidSHA256 (SHA256Hex content) = true) →
  resolvedRoots s !! root = Some resolved →
  let r := AddArtifacts m sameFile now opened root request resolver lockFiles s w in
  (∃ trail, past r.1 = past w ++ trail ∧ Forall (λ d, admitted (files (disk w)) (files d)) trail) ∧
  ∃ s' lockFiles' out, r.2 = inr (s', inr (lockFiles', out)) ∧
    (lockFiles' = lockFiles ∨
     ∃ repository selected l ledger store l' stored,
       openAdding opened request resolver lockFiles = Ok (repository, selected, l, ledger, store) ∧
       LockShard.WriteLock lockFiles l' = (lockFiles', stored) ∧ is_ok out = is_ok stored ∧
       ValidatePublishedBindings l' ledger = Ok () ∧ bytes_kept l l' ∧
       ∀ p v x, LockOps.holds l' p v x → LockOps.holds l p v x ∨ inCache resolved x (files (disk r.1))).
Proof.
  intros Hc Hk Hd Hroot. cbv zeta. unfold AddArtifacts. pose (R := oneRoot root resolved).
  destruct (openAdding opened request resolver lockFiles) as [[[[[repository selected] l] ledger] store]|e] eqn:Eo.
  2:{ split; [exists []; by rewrite app_nil_r|]. eexists _, _, _. split; [done|]. by left. }
  assert (goes (files (disk w)) resolved l l (files (disk w))) as Hg.
  { split; [apply admitted_itself|]. split; [done|]. exists []. split; [by intros x ?%not_elem_of_nil|]. by left. }
  destruct (each_goes m sameFile now (files (disk w)) root resolved (remembered_root root resolved) Hc Hk Hd l request repository selected store
    (add_Artifacts request) (mkAdding l 0 0 ∅) s (remembers_root _ _ _ Hroot) w Hg) as [(trail & Ht & Hf) (s' & v & Hr & _ & Ha & r & -> & Hend)].
  destruct (addEach _ _ _ _ _ _ _ _ _ _ s w) as [w1 out] eqn:Ee. cbn [fst snd] in *. subst out. rewrite (cas_step _ _ _ _ _ _ _ Ee).
  destruct r as [adding|e]; cbn [mbind result_bind].
  2:{ split; [by exists trail|]. eexists _, _, _. split; [done|]. by left. }
  destruct (ValidatePublishedBindings (ag_Lock adding) ledger) as [[]|e] eqn:Eb; cbn [mbind result_bind].
  2:{ split; [by exists trail|]. eexists _, _, _. split; [done|]. by left. }
  destruct (Hend adding eq_refl) as (_ & Hkept & new & Hn & Ho).
  destruct (negb (ag_Added adding =? 0)).
  2:{ split; [by exists trail|]. eexists _, _, _. split; [done|]. by left. }
  destruct (LockShard.WriteLock lockFiles (ag_Lock adding)) as [files' stored] eqn:Ew.
  split; [by exists trail|]. eexists _, _, _. split; [done|]. right. exists repository, selected, l, ledger, store, (ag_Lock adding), stored.
  split_and!; try done; [by destruct stored|]. intros p v x Hx. destruct (Ho _ _ _ Hx); auto.
Qed.
End addingClaim.

(** ** What an index establishes *)

Lemma returned_bind {A B : Type} (act : Cas A) (f : A → Cas B) b : returned (act ≫= f) b → ∃ a, returned act a ∧ returned (f a) b.
Proof.
  intros (s & w & s' & w' & E). revert E. unfold mbind, Cas_bind, mbind, IO_bind. destruct (act s w) as [w1 [e|[s1 [e|a]]]] eqn:Ea; [done|done|].
  intros E. exists a. split; [by exists s, w, s1, w1 | by exists s1, w1, s', w'].
Qed.
Lemma returned_ret {A : Type} (a b : A) : returned (mret a) b → b = a.
Proof. intros (s & w & s' & w' & E). by injection E. Qed.
Lemma returned_required {A : Type} (v : option A) a : returned (required v) a → v = Some a.
Proof. destruct v as [b|]; [by intros ->%returned_ret | by intros (s & w & s' & w' & ?)]. Qed.
Lemma returned_fail_when b e u : returned (casFail_when b e) u → b = false.
Proof. destruct b; [by intros (s & w & s' & w' & ?) | done]. Qed.

Section indexes.
Context `{NetLib, HashLib, !IndexLib} (request : ImportRepositoryRequest).

(** Some address served this. *)
Definition serves (body : string) : Prop :=
  ∃ fetcher n address limit response, io_Fetcher (ir_Options request) = Some fetcher ∧ fetcher_Fetch fetcher n address limit = Some response ∧ resp_Body response = body.
Lemma returned_fetchIndex address limit response : returned (fetchIndex (io_Fetcher (ir_Options request)) address limit) response → serves (resp_Body response).
Proof.
  intros (s & w & s' & w' & E). revert E. unfold fetchIndex, counted, mbind, Cas_bind, mbind, IO_bind.
  destruct (io_Fetcher _) as [fetcher|] eqn:Ei; [|done]. cbn. destruct (fetcher_Fetch _ _ _ _) as [r|] eqn:Ef; [|done].
  intros [= <- <- <-]. by eexists fetcher, _, _, _, r.
Qed.

(** A document that states the digest and the size of an index that names the file. *)
Definition debChain (file : importableFile) : Prop :=
  ∃ top release listed body content packages entry,
    serves top ∧ ParseRepositoryRelease top = Some release ∧ listed ∈ rr_Files release ∧
    serves body ∧ SHA256Hex body = rf_SHA256 listed ∧ lengthOf body = rf_Size listed ∧
    DecompressRepositoryPackages (rf_Path listed) body = Some content ∧ ParseRepositoryPackages content = Some packages ∧
    entry ∈ packages ∧ im_Filename file = Base (dp_Filename entry) ∧ im_SHA256 file = dp_SHA256 entry.
Definition rpmChain (file : importableFile) : Prop :=
  ∃ top metadata primary body content packages entry,
    serves top ∧ ParseRepomd top = Some metadata ∧ primary ∈ metadata ∧ md_Kind primary = "primary" ∧ md_SHA256 primary ≠ "" ∧
    serves body ∧ SHA256Hex body = md_SHA256 primary ∧ (md_Size primary ≠ 0 → lengthOf body = md_Size primary) ∧
    DecompressPrimary (md_Location primary) body = Some content ∧ ParsePrimary content = Some packages ∧
    entry ∈ packages ∧ im_Filename file = Base (rp_Location entry) ∧ im_SHA256 file = rp_SHA256 entry.

Lemma find_elem {A : Type} (f : A → bool) (l : list A) a : List.find f l = Some a → a ∈ l ∧ f a = true.
Proof. intros [Hin Hf]%List.find_some. by rewrite list_elem_of_In. Qed.
Lemma released release wanted listed : findReleaseFile release wanted = Some listed → listed ∈ rr_Files release.
Proof.
  unfold findReleaseFile. cbn [mbind list_bind]. intros Hl. assert (∃ suffix, List.find (λ f, bool_decide (rf_Path f = wanted +:+ suffix)) (rr_Files release) = Some listed)
    as [suffix [? _]%find_elem]; [|done].
  repeat (destruct (List.find _ _) as [f|] eqn:E; [cbn in Hl; injection Hl as ->; by eexists | clear E; cbn in Hl]); done.
Qed.

Ltac unreturn H :=
  lazymatch type of H with
  | returned (_ ≫= _) _ => let a := fresh "a" in let Ha := fresh "Ha" in apply returned_bind in H as (a & Ha & H)
  end.

Ltac read_index Hr :=
  repeat unreturn Hr;
  repeat match goal with
  | Ha : returned (required _) _ |- _ => apply returned_required in Ha
  | Ha : returned (casFail_when _ _) _ |- _ => apply returned_fail_when in Ha
  | Ha : returned (fetchIndex _ _ _) _ |- _ => apply returned_fetchIndex in Ha
  end;
  apply returned_ret in Hr; simplify_eq.

Lemma enumerated_omap {A : Type} (f : A → option importableFile) (l : list A) file :
  file ∈ sort_slice byFilename (omap f l) → ∃ entry, entry ∈ l ∧ f entry = Some file.
Proof. rewrite sort_slice_perm. apply list_elem_of_omap. Qed.

Lemma deb_chain listed index : returned (importDebFiles request) (listed, index) →
  ∀ file, file ∈ listed → im_Provenance file = "index-chain" ∧ debChain file.
Proof.
  intros Hr file Hin. unfold importDebFiles in Hr. cbn zeta in Hr. read_index Hr.
  apply enumerated_omap in Hin as (entry & He & Hf). unfold debFile in Hf.
  destruct (resolveDoctorReference _ (dp_Filename entry)) as [address|]; [|done]. injection Hf as <-. split; [done|].
  split_bools. match goal with
  | Hp : ParseRepositoryRelease ?t = Some ?r, Hl : findReleaseFile ?r _ = Some ?l, Hd : DecompressRepositoryPackages _ ?b = Some ?c,
    Hq : ParseRepositoryPackages ?c = Some ?ps |- _ => exists t, r, l, b, c, ps, entry
  end. split_and!; try done; [by eapply released | by apply Z.eqb_eq].
Qed.

Lemma rpm_chain listed index : returned (importRPMFiles request) (listed, index) →
  ∀ file, file ∈ listed → im_Provenance file = "index-chain" ∧ rpmChain file.
Proof.
  intros Hr file Hin. unfold importRPMFiles in Hr. cbn zeta in Hr. read_index Hr.
  apply enumerated_omap in Hin as (entry & He & Hf). unfold rpmFile in Hf.
  destruct (resolveDoctorReference _ (rp_Location entry)) as [address|]; [|done]. injection Hf as <-. split; [done|].
  match goal with Hm : FindMetadata _ _ = Some _ |- _ => apply find_elem in Hm as [Hp Hk] end.
  match goal with Hz : negb (md_Size _ =? 0) && _ = false |- _ => apply andb_false_iff in Hz as [Hz|Hz]; apply negb_false_iff, Z.eqb_eq in Hz end;
    split_bools; match goal with
    | Hq : ParseRepomd ?t = Some ?ms, Hp : ?x ∈ ?ms, Hd : DecompressPrimary _ ?b = Some ?c, Hr : ParsePrimary ?c = Some ?ps |- _ => exists t, ms, x, b, c, ps, entry
    end; by split_and!.
Qed.

(** An index that was served states the digest of the file: a page of a project, or the
    index of a chart repository. *)
Definition statedBy (file : importableFile) : Prop :=
  (∃ body contentType page entry, serves body ∧ ParseSimpleProject contentType body = Some page ∧ entry ∈ page.2 ∧
     im_Filename file = sf_Filename entry ∧ im_URLs file = [sf_URL entry] ∧ im_SHA256 file = sf_SHA256 entry) ∨
  (∃ body charts chart, serves body ∧ ParseRepositoryIndex body = Some charts ∧ chart ∈ charts ∧ rc_Ambiguous chart = false ∧
     im_Filename file = rc_Name chart +:+ "-" +:+ rc_Version chart +:+ ".tgz" ∧ im_URLs file = rc_URLs chart ∧ im_SHA256 file = rc_Digest chart).

(** What each provenance an index is given stands for. *)
Definition earned (file : importableFile) : Prop :=
  im_Provenance file = "" ∧ im_Ambiguous file = true ∧ im_SHA256 file = "" ∧ im_URLs file = [] ∨
  im_Provenance file = "computed" ∧ im_SHA256 file = "" ∨
  im_Provenance file = "index-stated" ∧ im_Ambiguous file = false ∧ statedBy file ∨
  im_Provenance file = "index-chain" ∧ (debChain file ∨ rpmChain file).

(** C25: a file an import lists has the provenance its index earns.  It is "index-chain" only
    where a document that was served states the SHA-256 of an index that was served too, and
    its size (an RPM document may state none, which is 0), and that index names the file with
    its digest; "index-stated" only where an index that was served names the file, with that
    digest; "computed" only where no digest is stated; none only for a file the index
    contradicts itself about, which then has no address and no digest.  It is never another
    one, such as an operator or a signature would establish. *)
Theorem provenance_is_earned format enumerate listed index file :
  importEnumerator format = Some enumerate → returned (enumerate request) (listed, index) → file ∈ listed → earned file.
Proof.
  unfold importEnumerator, earned. intros Hf Hr Hin.
  repeat (case_bool_decide; [injection Hf as <- | ]); [| | | | |done].
  - unfold importPyPIFiles in Hr. read_index Hr. rewrite sort_slice_perm, list_elem_of_fmap in Hin. destruct Hin as (f & -> & Hin).
    right; right; left. split; [done|]. split; [done|]. left. rewrite list_elem_of_In in Hin. apply List.filter_In in Hin as [Hin%list_elem_of_In _].
    match goal with Hs : serves ?b, Hp : ParseSimpleProject ?c ?b = Some ?page |- _ => by exists b, c, page, f end.
  - unfold importHelmFiles in Hr. cbn zeta in Hr. read_index Hr. rewrite sort_slice_perm, list_elem_of_fmap in Hin. destruct Hin as (chart & -> & Hin).
    unfold chartFile. destruct (rc_Ambiguous chart) eqn:Ea; [by left|]. right; right; left. split; [done|]. split; [done|]. right.
    match goal with Hs : serves ?b, Hp : ParseRepositoryIndex ?b = Some ?charts |- _ => by exists b, charts, chart end.
  - destruct (deb_chain _ _ Hr _ Hin). auto 10.
  - destruct (rpm_chain _ _ Hr _ Hin). auto 10.
  - unfold importAPKFiles in Hr. cbn zeta in Hr. read_index Hr. apply enumerated_omap in Hin as (entry & _ & He). unfold apkFile in He.
    destruct (resolveDoctorReference _ (apkFilename entry)) as [address|]; [|done]. injection He as <-. auto.
Qed.
End indexes.

(** * A concrete workspace *)

Module AdoptExample.
#[local] Existing Instances S3Example.hash_lib LedgerExample.time_lib LedgerExample.json_lib LedgerExample.lib.

#[local] Instance net_lib : NetLib := {|
  ParseURL s := Some (mkURL "https" "files.example" "files.example" false "" "" ("/" +:+ Base s) "" ("/" +:+ Base s) s);
  ParseAddr _ := None;
|}.
(** A distribution is named after its package, which is a letter; every version is 1.0. *)
#[local] Instance inspect_lib : InspectLib := {|
  Inspect _ filename content _ := Some (mkFacts (stake 1 filename) "1.0" "" (lengthOf content) "" [] ∅);
  MD5Hex := λ content, "md5 of " +:+ content;
  SHA1Hex := λ content, "sha1 of " +:+ content;
|}.

Definition locked (filename content origin : string) : LockedBlob :=
  mkBlob filename "" (lengthOf content) "" "" (SHA256Hex content) (if bool_decide (origin = "") then "" else "2024-01-01T00:00:00Z")
    (if bool_decide (origin = "") then None else Some (mkOrigin "https" origin "index-stated")).
Definition version (blobs : list LockedBlob) : PackageVersion :=
  mkPackageVersion (default "" (stake 1 ∘ Filename <$> head blobs)) "1.0" "draft" blobs.
Definition lockOf (versions : list (list LockedBlob)) : RepositoryLock :=
  mkLock LockSchema "py" (version <$> versions) ((λ blobs, mkPlacement (pv_Package (version blobs)) "1.0" "stable" "") <$> versions).

(** Locks as text, of which those of these runs are read back. *)
Definition showBlob (b : LockedBlob) : string := Filename b +:+ "=" +:+ SHA256 b +:+ (if bool_decide (Origin b = None) then "" else "!").
Definition showLock (l : RepositoryLock) : string :=
  String.concat ";" ((λ v, String.concat "," (showBlob <$> pv_Blobs v)) <$> lock_PackageVersion l) +:+
  String.concat "," ((λ p, pl_Package p +:+ pl_Track p) <$> lock_Placement l).
Definition published : LockedBlob := locked "b.whl" "b" "".
Definition before : RepositoryLock := lockOf [[published]].
Definition address (filename : string) : string := "https://files.example/" +:+ filename.
Definition after : RepositoryLock :=
  lockOf [[locked "a.whl" "a.whl" (address "a.whl")]; [locked "b.tgz" "b.tgz" (address "b.tgz"); published];
          [locked "c.whl" "c.whl" (address "c.whl")]].
(** And those of a repository of plain files. *)
Definition tabbed : string := "t" +:+ String "009" "ool".
Definition noFiles : RepositoryLock := mkLock LockSchema "files" [] [].
Definition oneFile : RepositoryLock :=
  mkLock LockSchema "files" [mkPackageVersion "t" "1.0" "draft" [mkBlob tabbed "" 7 "" "" (SHA256Hex "payload") "2024-01-01T00:00:00Z" None]]
    [mkPlacement "t" "1.0" "stable" ""].
#[local] Instance toml_lib : TomlLib := {|
  MarshalLock l := Ok (showLock l);
  UnmarshalLock c := match List.find (λ l, bool_decide (showLock l = c)) [before; after; noFiles; oneFile] with Some l => Ok l | None => Err "unknown" end;
  MarshalRoot _ := Err "none"; UnmarshalRoot _ := None; MarshalShard _ := Err "none"; UnmarshalShard _ := None;
|}.

Definition repository : Repository := mkRepository "pypi" "repos/py.lock.toml" (localHost "/out") "public" "auto" [] [] "" None 0 "stable" "" "" [].
Definition plain : Repository := mkRepository "raw" "repos/files.lock.toml" (localHost "/out") "public" "auto" [] [] "" None 0 "stable" "" "" [].
Definition manifest : Manifest :=
  mkManifest Model.ManifestSchema (mkWorkspace "ws" "" "" "" "") (mkBlobStore "local" "" "" "" "" false) ∅ {[ "py" := repository; "files" := plain ]}.
Definition record (b : LockedBlob) : PublicationRecord :=
  mkPublication LedgerSchema LedgerExample.digestA "py:bbbbbbbbbbbb" "py" (stake 1 (Filename b)) "1.0" [SHA256 b] LedgerExample.digestB "2024-01-01T00:00:00Z".
Definition opened : Opened := mkOpened (Ok ()) (Ok manifest) "" (Ok [record published]).
Definition stored (l : RepositoryLock) : LockFiles := mkFiles (Some (showLock l)) false ∅.

Definition machine : Machine := LocalExample.machine true.
Definition initially : FS := list_to_map [(["ws"], Directory); (["tmp"], Directory)].
Definition start : World := mkWorld (LocalExample.settled initially) 0 [].
Definition same : nat → bool := λ _, true.
Definition now : nat → string := λ _, "2024-01-01T00:00:00Z".
(** Every address serves its own name. *)
Definition fetcher : Fetcher := mkFetcher (λ _ url _, Some (mkResponse url 200 "" (Base url))) true.

Definition request (filename digest : string) : AdoptArtifactRequest :=
  mkAdoptRequest "py" (address filename) digest filename "" "" "" "" false true "index-stated" (Some fetcher).
(** What a run leaves of the lock, and whether it succeeded. *)
Definition outcome {A : Type} (r : World * (Errno + CasState * (BlobError + LockFiles * result A))) : option (option string * bool) :=
  match r.2 with inr (_, inr (f, out)) => Some (files_Lock f, is_ok out) | _ => None end.
Definition adopts (filename digest : string) (l : RepositoryLock) :=
  AdoptArtifact machine same now "/tmp" "" opened (Ok ()) "/ws" (request filename digest) (stored l) BlobExample.nothing start.

Lemma adopts_only_the_pinned_bytes :
  outcome (adopts "a.whl" (SHA256Hex "a.whl") before) = Some (Some (showLock (lockOf [[locked "a.whl" "a.whl" (address "a.whl")]; [published]])), true) ∧
  outcome (adopts "a.whl" (SHA256Hex "something else") before) = Some (Some (showLock before), false) ∧
  outcome (adopts "b.tgz" (SHA256Hex "b.tgz") before) = Some (Some (showLock before), false).
Proof. vm_compute. split_and!; reflexivity. Qed.

(** ** An import in which one file is refused *)

Definition file (filename : string) : importableFile := mkImportable filename [address filename] (SHA256Hex filename) "index-stated" false.
Definition options : ImportOptions := mkImportOptions "py" "" "" "" false 0 (Some fetcher).
Definition imports : World * (Errno + CasState * (BlobError + LockFiles * result Progress)) :=
  importListed machine same now "/tmp" "" opened (Ok ()) "/ws" options Some [file "a.whl"; file "b.tgz"; file "c.whl"] (stored before) BlobExample.nothing start.
Definition reported {A : Type} (r : World * (Errno + CasState * (BlobError + A * result Progress))) : option (list string * list string) :=
  match r.2 with inr (_, inr (_, Ok progress)) => Some (ia_Filename <$> Imported progress, sk_Filename <$> Skipped progress) | _ => None end.

(** The version of the package b that was published has one file, so a second one is
    refused.  It is reported as skipped, and so is the file after it, which alone would be
    imported.  But the lock that is written lists both, although the cache has the bytes of
    neither, and every command that loads the lock refuses it from then on. *)
Lemma refused_file_stays_in_session :
  reported imports = Some (["a.whl"], ["b.tgz"; "c.whl"]) ∧
  outcome imports = Some (Some (showLock after), true) ∧
  LoadLock "" (stored after) = Ok after ∧
  ValidatePublishedBindings after [record published] = Err "published package cannot change bytes" ∧
  outcome (adopts "c.whl" (SHA256Hex "c.whl") after) = Some (Some (showLock after), false) ∧
  outcome (adopts "c.whl" (SHA256Hex "c.whl") before) = Some (Some (showLock (lockOf [[published]; [locked "c.whl" "c.whl" (address "c.whl")]])), true) ∧
  (λ filename, bool_decide (is_Some (files (disk imports.1) !! components (PathJoin ["/ws"; blobName (SHA256Hex filename)])))) <$> ["a.whl"; "b.tgz"; "c.whl"]
    = [true; false; false].
Proof. vm_compute. split_and!; reflexivity. Qed.

(** ** Reading an index *)

Definition debEntry : DebPackage := mkDebPackage "t" "1.0" "amd64" "pool/t.deb" 5 (SHA256Hex "t.deb").
#[local] Instance index_lib : IndexLib := {|
  SetPath p u := mkURL (Scheme u) (Host u) (Hostname u) false "" "" p "" p ("https://files.example" +:+ p);
  ResolveReference base reference := if HasPrefix (Rendered reference) "https:" then Rendered reference else address (Rendered reference);
  ParseSimpleProject _ _ := Some ("", (λ f, mkSimpleFile f (address f) (SHA256Hex f) true) <$> ["c.whl"; "a.whl"; "b.tgz"]);
  ParseRepositoryIndex _ := None;
  ParseRepositoryRelease c := if bool_decide (c = "Release")
    then Some (mkDebRelease "stable" "" ["main"] ["all"; "amd64"] "" [mkReleaseFile "main/binary-amd64/Packages" 8 (SHA256Hex "Packages")]) else None;
  DecompressRepositoryPackages _ c := Some c;
  ParseRepositoryPackages c := if bool_decide (c = "Packages") then Some [debEntry] else None;
  ParseRepomd _ := None; DecompressPrimary _ _ := None; ParsePrimary _ := None; ParseAPKIndex _ := None;
|}.
Definition importRequestOf (url : string) : ImportRepositoryRequest := mkImportRequest url "stable" "" "" "a" true options.

Lemma provenance_is_earned_witness :
  earned (importRequestOf "https://files.example/apt") (mkImportable "t.deb" [address "pool/t.deb"] (SHA256Hex "t.deb") "index-chain" false).
Proof.
  apply (provenance_is_earned (importRequestOf "https://files.example/apt") "deb" importDebFiles
    [mkImportable "t.deb" [address "pool/t.deb"] (SHA256Hex "t.deb") "index-chain" false] (address "main/binary-amd64/Packages")); [reflexivity | | constructor].
  exists BlobExample.nothing, start, BlobExample.nothing, start. vm_compute. reflexivity.
Defined.

(** The whole command reads the files in the order of their names and ends as the import
    above. *)
Lemma import_of_a_project :
  let r := ImportRepository machine same now "/tmp" "" opened (Ok ()) "/ws" (importRequestOf "https://files.example/py") (stored before) BlobExample.nothing start in
  match r.2 with
  | inr (_, inr (f, Ok (progress, (index, listed)))) =>
      (files_Lock f, ia_Filename <$> Imported progress, sk_Filename <$> Skipped progress, index, listed)
        = (Some (showLock after), ["a.whl"], ["b.tgz"; "c.whl"], address "py/simple/a/", 3%nat)
  | _ => False
  end.
Proof. vm_compute. reflexivity. Qed.

(** ** Adding a file *)

Definition sources : FS :=
  list_to_map [(["ws"], Directory); (["src"], Directory); (["src"; "tool"], Regular "payload"); (["src"; tabbed], Regular "payload")].
Definition before_adding : World := mkWorld (LocalExample.settled sources) 0 [].
Definition unpublished : Opened := mkOpened (Ok ()) (Ok manifest) "" (Ok []).
Definition addRequest (filename : string) : AddArtifactsRequest := mkAddRequest "files" "t" "1.0" "" ["/src/" +:+ filename].
Definition adds (filename : string) : World * (Errno + CasState * (BlobError + LockFiles * result AddArtifactsResult)) :=
  AddArtifacts machine same now unpublished "/ws" (addRequest filename) None (stored noFiles) BlobExample.knows before_adding.

Lemma added_artifacts_are_there_witness :
  outcome (adds "tool") = Some (Some ("tool=" +:+ SHA256Hex "payload" +:+ "tstable"), true) ∧
  ∃ s' lockFiles' out, (adds "tool").2 = inr (s', inr (lockFiles', out)) ∧
    (lockFiles' = stored noFiles ∨
     ∃ repository selected l ledger store l' stored',
       openAdding unpublished (addRequest "tool") None (stored noFiles) = Ok (repository, selected, l, ledger, store) ∧
       LockShard.WriteLock (stored noFiles) l' = (lockFiles', stored') ∧ is_ok out = is_ok stored' ∧
       ValidatePublishedBindings l' ledger = Ok () ∧ bytes_kept l l' ∧
       ∀ p v x, LockOps.holds l' p v x → LockOps.holds l p v x ∨ inCache "/ws" x (files (disk (adds "tool").1))).
Proof.
  split; [vm_compute; reflexivity|].
  exact (proj2 (added_artifacts_are_there machine same now unpublished "/ws" "/ws" (addRequest "tool") None (stored noFiles) BlobExample.knows before_adding
    (BlobExample.considerate _) BlobExample.keeps BlobExample.hash_hex eq_refl)).
Defined.

(** A file with a control character in its name is added, as a format that does not look
    at the name lets it; the lock that is written then fails to validate. *)
Lemma control_name_is_added :
  outcome (adds tabbed) = Some (Some (showLock oneFile), true) ∧ LoadLock "" (stored oneFile) = Ok oneFile ∧
  ValidateLock oneFile "files" "raw" = Err "invalid locked blob filename or size".
Proof. vm_compute. split_and!; reflexivity. Qed.
End AdoptExample.
